(* ===== verification/_CoqProject ===== *)
-Q . S2P
Prelude.v
MachineInt.v
Buffer.v
AbstractBuffer.v
BufferTheory.v
MixedBuffer.v
HeapBuffer.v
DynamicBuffer.v
BufferProperties.v
BufferUtil.v
DerivedBuffers.v
CompositeBuffer.v
CompositeProperties.v
CompositeParts.v
Replay.v
FrameDecoders.v
FrameProperties.v
ReplayProperties.v
Pipeline.v
PipelineProperties.v
PipelineDelivery.v
ReceivePredictor.v
Future.v
FutureProperties.v
Text.v
Uri.v
UriProperties.v
HttpHeader.v
HttpHeaderProperties.v
HttpMessage.v
HttpMessageProperties.v
HttpDecoder.v
HttpDecoderProperties.v
HttpRequestProperties.v
WebSocket.v
WebSocketProperties.v
Timeouts.v
TimeoutsProperties.v
IoTimeouts.v
IoTimeoutsProperties.v
SocketChannel.v
SocketChannelProperties.v
SocketPrograms.v
Gathering.v
GatheringProperties.v
Programs.v
Channels.v
ChannelsProperties.v
Embedder.v
EmbedderProperties.v
Bootstrap.v
ServerSocket.v
ServerSocketProperties.v
ClientSocket.v
ClientSocketProperties.v
