(* ===== verification/Prelude.v ===== *)
(** * Cetty: a verification library for the Cetty network framework

    Cetty is a C++ port of Netty 3: an asynchronous network framework in which
    bytes that arrive at a channel travel as events through a pipeline of
    handlers, are cut into frames or HTTP messages by decoders, and are written
    back by encoders.  This development models its core - the buffers, the
    pipeline and what is delivered through it, the futures, the frame decoders,
    the replaying decoders, the HTTP and web socket codecs, the codec embedders,
    the timeouts, the channels and the bootstraps of servers and clients - and
    proves what they do.  Paths are relative to the root of the
    repository, where [src/src/cetty] and [src/include/cetty] hold the
    implementation.

    ** How code is modelled

    - An [int], [short] or [int64_t] is a [Z] with its wrap-around written out
      ([MachineInt]: [i32], [i16], ...); a [char] and a byte of a buffer is a [Z]
      of -128 .. 127, as [char] is signed on the platform modelled.
    - A member function is a function of the state of its object to a result and
      a state ([M S A] below); an exception is a value of [error], without its
      message, and what was stored before the throw stays stored.
    - [Undefined] stands for an execution without a meaning: an access outside an
      array, the use of a null or deleted pointer, a failed assertion, and - where
      a definition says so - a loop that does not end.
    - Code outside the repository is a parameter: the contents of memory that
      [new char[]] leaves (class [Allocator] in [Buffer]), the factory of a
      dynamic buffer (by its contract), the string algorithms of boost
      (class [StringAlgorithms] in [Text], class [LowerCase] in [Uri]), the deadline
      timer of asio (class [DeadlineTimer] in [Timeouts]), its acceptor and the
      sockets that it accepts (classes [Acceptor] and [AcceptedSockets] in
      [ServerSocket]), the options of an accepted channel (class
      [ChildConfiguration]), the resolver and the socket of a client (class
      [ClientSockets] in [ClientSocket]), the handlers, listeners and pipeline factories that
      a user writes.  Witnesses instantiate them with concrete functions.

    ** The files

    Buffers ([src/src/cetty/buffer], [src/include/cetty/buffer]):
    - [Prelude], [MachineInt]: the monad, integers, byte orders, lists of bytes.
    - [Buffer]: [Array], the four indexes ([Indexes]), and the interface that
      every class of buffers implements: the virtual functions ([RawBuffer],
      [WriteBuffer]) and their contracts ([ReadSpec], [WriteSpec]: a buffer is
      an array of bytes, its [content]).
    - [AbstractBuffer]: [AbstractChannelBuffer.cpp] over that interface.
    - [BufferTheory]: the readable bytes as a [queue]; reads take from its front,
      writes append.  [BufferProperties]: what holds of every class that keeps
      these contracts.
    - [MixedBuffer]: a buffer of one of two classes, as the components of a composite
      buffer are called through pointers to buffers of any class.
    - [HeapBuffer], [DynamicBuffer], [DerivedBuffers], [CompositeBuffer]: the
      classes, each with its instances of the contracts.
    - [CompositeProperties], [CompositeParts]: the composite buffer as one array;
      its slices, [discardReadBytes], and the wrapping of buffers.
    - [BufferUtil]: the searches, comparisons, hashes and dumps of
      [ChannelBuffers.cpp], and the index finders.

    Channels ([src/src/cetty/channel]):
    - [Pipeline], [PipelineProperties]: [DefaultChannelPipeline], its contexts in
      a store of pointers; the operations and the delivery of events to
      handlers with a state, which send events on, back and to other pipelines
      (class [Behaviour]; [Transport] is the sink below a pipeline).
    - [PipelineDelivery]: a delivery is a walk over the lists of the pipelines.
    - [Programs]: the outcomes of the programs of handlers and sinks, which the
      proofs on embedders and servers compose.
    - [Channels], [ChannelsProperties]: the events, the functions of
      [Channels.cpp], the dispatch of the simple handlers (class [UserHandlers]),
      the identifiers of [AbstractChannel], and the making of pipelines.
    - [Bootstrap]: the map of options, [ServerBootstrap] and its binder.
    - [ServerSocket], [ServerSocketProperties]: the server channel of asio, its
      configuration and its sink, over the delivery of [Pipeline].
    - [SocketPrograms]: the functions of [SocketChannel] as programs, between whose
      actions handlers run.
    - [ClientSocket], [ClientSocketProperties]: [ClientBootstrap], the client
      channel with its configuration, and its sink, over [SocketPrograms].
    - [Future], [FutureProperties]: [DefaultChannelFuture] under concurrency: a
      call is a sequence of turns of its thread, and turns interleave ([step]).
    - [ReceivePredictor]: [AdaptiveReceiveBufferSizePredictor].
    - [SocketChannel], [SocketChannelProperties]: [socket/asio]: the queue of writes
      of [AsioSocketChannel], its water marks, completions and closing.
    - [Gathering], [GatheringProperties]: [AsioWriteRequest] and the [readSlice]
      of the buffer classes: what a write takes of a buffer and gives to the socket.

    Codecs ([src/src/cetty/handler/codec]):
    - [FrameDecoders], [FrameProperties]: [frame]: the cumulation and the loop of
      [FrameDecoder] over any decoder (class [Decoding], contract
      [DecoderSpec]), the delimiter, fixed length and length field decoders, the
      length field prepender.
    - [Replay], [ReplayProperties]: [replay]: [ReplayingDecoderBuffer] and the loop
      of [ReplayingDecoder] (class [ReplayDecoding]).
    - [Text]: strings, [Character], [Integer].
    - [HttpHeader], [HttpHeaderProperties]: [http]: the interface [HttpHeader] as a
      class, [DefaultHttpHeader] as a hash table in a store of pointers, the
      checks of [HttpCodecUtil].
    - [HttpMessage], [HttpMessageProperties]: versions, methods, statuses, messages,
      chunks, [HttpHeaders], the encoders.
    - [HttpDecoder], [HttpDecoderProperties]: [HttpMessageDecoder] with its
      [FastString]s in the memory of the cumulation, and [HttpChunkAggregator].
      [HttpRequestProperties]: streams of requests from end to end.

    - [WebSocket], [WebSocketProperties]: [http/websocket]: frames, their encoder,
      and the decoder over the loop of [ReplayingDecoder]; [oneone]: the codecs
      from one message to one.
    - [Embedder], [EmbedderProperties]: [embedder]: a pipeline of codecs whose sink
      is a queue.

    Utilities and timeouts ([src/src/cetty/util], [src/src/cetty/handler/timeout]):
    - [Timeouts], [TimeoutsProperties]: [TimeUnit], the timer with its timeouts, and
      [IdleStateHandler] as a system of steps: events, the passing of time, and the
      calls that asio makes.
    - [IoTimeouts], [IoTimeoutsProperties]: [ReadTimeoutHandler] and
      [WriteTimeoutHandler] as such systems.
    - [Uri], [UriProperties]: [URI.cpp]: [URI]: the parser, printer, the resolution
      of references and the normalization of paths, on strings with an index for
      each iterator.

    The parts meet at the classes: decoders and utilities are proved against
    [ReadSpec] and [WriteSpec], which every class of buffers discharges; the
    frame decoders against [DecoderSpec], which the loop of [FrameDecoder] and,
    through [ReplaysAs], that of [ReplayingDecoder] use; messages against
    [HttpHeader], which [DefaultHttpHeader] and the read-only header of the last
    chunk implement.  An event is delivered by one function, [sendContext], over
    [Behaviour] and [Transport]: the embedder, the server channel and the client channel
    are instances, whose handlers and sinks call the functions of [Channels].

    ** What the theorems show

    - Buffers: typed writes and reads are inverse for any sequence of fields and
      either byte order; the index invariant is kept by every sequence of
      operations within their checks, and which unchecked marks and skips break it;
      transfers move bytes from queue to queue and fail whole; a
      multi-byte write that throws leaves the buffer as it was ([writeByte] does
      not); growth keeps the bytes and reaches the size asked for, up to 2^30,
      where the doubling loop stops ending; equality, comparison, hash and search
      are those of the queues; slices, duplicates and read-only views; the
      composite buffer answers as one array of all its bytes, discards only
      bytes that were read, and wraps buffers in their order.
    - Pipeline: the linked lists are one list of named handlers, and an event
      visits exactly the handlers of its direction behind its sender, in order;
      handlers keep a state and send events to any pipeline of a family while
      they handle one; and the runs that leave pointers to deleted contexts.
    - Channels: pipelines are made with the handlers asked for, in their order; the
      identifiers of open channels differ.
    - Embedders: what a chain of codecs yields is the composition of what each
      yields, in order.
    - Servers: a bind through the bootstrap opens, binds, tells its future the
      truth and leaves nothing open when it fails; each accepted channel gets the
      options and the pipeline of the child configuration.
    - Clients: a connect tries the endpoints in turn, tells its future and the
      handlers the truth, and closes when all refuse; where the exception of a socket
      that is closed in between leaves the future pending; below a pipeline of handlers
      that look on, a channel is the state machine of [SocketChannel].
    - Futures: whatever the interleaving, a future completes once, each listener
      is told exactly as often as if one thread had made the calls, and every
      waiting thread is released.
    - Decoders: the frames reported do not depend on how a stream is cut into
      segments; prepended lengths are read back; which decoders can never
      decode, and the documented replaying decoder that throws.
    - HTTP: the hash table of headers is a multimap and keeps only valid headers;
      the encoder writes the lines of a message; requests encoded and sent in
      segments arrive as they were, with their contents; where folded headers, chunk sizes and
      aggregated messages fail.
    - URIs: a printed URI parses back; resolving a reference is a walk through a
      tree, which leads where the algorithm of RFC 3986 does as long as no segment is
      empty, and drops the empty ones that the RFC keeps; decoding inverts percent
      signs, and what encoding twice loses.
    - Web sockets: the decoder reads back a frame that was encoded, behind the test of
      the flag for the closing handshake, which every constructor sets and nothing
      clears: a decoder as it is made drops all bytes; the bound of a length.
    - Idle states: every event is true of what went through the handler; in every run
      idleness is reported in time, unless a handler above closes the channel; and only
      a task that was deleted can be missing.
    - Read and write timeouts: a timeout that is reported is true, and for a write the
      step that tells it is the one that fails the write; silence is reported in time,
      and the runs in which a task uses what is gone.
    - Socket channel: writes are told in their order; the water marks make a
      hysteresis while they are crossed in turn; what closing does to writes that
      are outstanding; what a write gives of a buffer of each class: its readable bytes,
      nothing, an exception at the end of the array, or, of a component without an
      array of its own, the block before once more.

    ** Bounds and fuel

    Loops whose end is not structural take fuel.  [growFuel] is 32, for doublings
    of a 32-bit size ([growth_keeps_bytes] shows it is enough up to 2^30);
    [loopFuel] and [walkFuel] are one more than the bytes of a buffer or the
    entries of a store; the delivery of an event and [callDecode] take their fuel
    as an argument, and the theorems say how much is enough (two turns for each
    piece of a request, one more than the nesting of the sends of handlers; a
    bind of a server takes 4).  [bytesLeft] is one more than the readable bytes, of which each turn
    of a reading loop takes one.  [trimFuel] is 2: the first loop of [trim] ends
    at its first test or never ([trim_terminates]).  The length of a binary frame
    takes at most nine turns, and the clean-up of writes one for each.  Buffers are at most
    [INT_MAX] bytes; the interleavings of futures are of at most [INT_MAX]
    steps, so that its counter of waiters does not overflow.

    ** Not modelled

    - Two objects that share an array: slices and duplicates carry the state of
      their parent, frames and HTTP messages that are reported are snapshots, and
      the shared empty buffer is a value.  The message that the aggregator holds
      is an object of its own.
    - Threads in the pipeline, handlers that change the pipeline while an event is
      delivered, exceptions that are not of the library, the identity of the
      buffer a channel owns (a flag says whether it is the cumulation).
    - Signed overflow is taken to wrap, and [ctype.h] to be that of the C locale.
    - [UnsafeDynamicChannelBuffer] is a dynamic buffer: the check it leaves out is
      made by the replaying buffer before.
    - Above the idle state handler a handler of the model closes the channel or
      throws; its other calls are those of [Pipeline].
    - Base64: the header with its tables is missing and the other does not compile.
    - The bootstrap of connectionless channels, datagram channels with their sink
      and worker, and the reads of sockets: calls of asio, whose results only the
      system determines.
    - The option tables of sockets, network interfaces and addresses: calls of the
      system whose results only it determines.
    - Logging, charsets, protobuf; print forms and hash codes that go through
      boost: the work is done by libraries outside the repository.
    - Contents in chunks and responses from end to end: their parts (chunk sizes,
      the aggregator, the encoder of heads) are proved alone. *)

From Stdlib Require Export ZArith Lia Bool.
From stdpp Require Export base list option.

#[global] Open Scope Z_scope.

Declare Scope cetty_scope.
Delimit Scope cetty_scope with cetty.
#[global] Open Scope cetty_scope.

(** ** Errors and results *)

(** The exceptions the modelled code throws (message strings are not
    modelled), and [Undefined] for an execution the C++ standard gives no
    meaning to: an access outside an allocated array. *)
Inductive error :=
  | RangeException
  | InvalidArgumentException
  | IllegalStateException
  | NullPointerException
  | UnsupportedOperationException
  | ReadOnlyBufferException
  | RuntimeException
  | SystemException
  | SyntaxException
  | CorruptedFrameException
  | ChannelHandlerLifeCycleException
  | UnreplayableOperationException
  | TooLongFrameException
  | NumberFormatException
  | AnyException  (* Exception itself, with the text of another *)
  | ChannelException
  | ChannelPipelineException
  | IOException
  | LengthError  (* std::length_error, std::out_of_range and the like *)
  | Undefined.

#[global] Instance error_eq_dec : EqDecision error.
Proof. solve_decision. Defined.

Inductive result (A : Type) :=
  | Ok (a : A)
  | Err (e : error).
Arguments Ok {A} _.
Arguments Err {A} _.

Definition rbind {A B} (r : result A) (f : A -> result B) : result B :=
  match r with
  | Ok a => f a
  | Err e => Err e
  end.

Definition is_ok {A} (r : result A) : bool :=
  match r with Ok _ => true | Err _ => false end.

Notation "'let?' x ':=' r 'in' k" := (rbind r (fun x => k))
  (at level 10, x pattern, r at level 100, k at level 200) : cetty_scope.

(** ** Stateful computations that may throw

    A member function that mutates its object is a function from the object's
    state to a result and the state it leaves behind.  The state survives an
    exception: what was written before the [throw] stays written. *)
Definition M (S A : Type) : Type := S -> result A * S.

Definition ret {S A} (a : A) : M S A := fun s => (Ok a, s).
Definition throw {S A} (e : error) : M S A := fun s => (Err e, s).
Definition bind {S A B} (m : M S A) (f : A -> M S B) : M S B := fun s =>
  match m s with
  | (Ok a, s') => f a s'
  | (Err e, s') => (Err e, s')
  end.

(** Read the state with a [const] member function. *)
Definition gets {S A} (f : S -> A) : M S A := fun s => (Ok (f s), s).
Definition reads {S A} (f : S -> result A) : M S A := fun s => (f s, s).
Definition modify {S} (f : S -> S) : M S unit := fun s => (Ok tt, f s).
Definition throw_if {S} (b : bool) (e : error) : M S unit :=
  if b then throw e else ret tt.

(** Run an operation of a sub-object, as the code does through a member
    pointer. *)
Definition zoom {S T A} (get : S -> T) (put : T -> S -> S) (m : M T A) : M S A :=
  fun s => let '(r, t) := m (get s) in (r, put t s).

Notation "'let!' x ':=' m 'in' k" := (bind m (fun x => k))
  (at level 10, x pattern, m at level 100, k at level 200) : cetty_scope.
Notation "m ';!' k" := (bind m (fun _ => k))
  (at level 199, k at level 200, right associativity) : cetty_scope.

Section MonadLaws.
Context {S : Type}.

Lemma bind_ok {A B} (m : M S A) (f : A -> M S B) s a s' :
  m s = (Ok a, s') -> bind m f s = f a s'.
Proof. unfold bind. intros ->. reflexivity. Qed.

Lemma bind_err {A B} (m : M S A) (f : A -> M S B) s e s' :
  m s = (Err e, s') -> bind m f s = (Err e, s').
Proof. unfold bind. intros ->. reflexivity. Qed.

Lemma bind_ret_l {A B} (a : A) (f : A -> M S B) s : bind (ret a) f s = f a s.
Proof. reflexivity. Qed.

Lemma bind_gets {A B} (g : S -> A) (f : A -> M S B) s : bind (gets g) f s = f (g s) s.
Proof. reflexivity. Qed.

Lemma bind_modify {B} (g : S -> S) (f : unit -> M S B) s : bind (modify g) f s = f tt (g s).
Proof. reflexivity. Qed.

Lemma bind_assoc {A B C} (m : M S A) (f : A -> M S B) (g : B -> M S C) s :
  bind (bind m f) g s = bind m (fun a => bind (f a) g) s.
Proof. unfold bind. destruct (m s) as [[a|e] s']; reflexivity. Qed.

Lemma bind_ext {A B} (m : M S A) (f g : A -> M S B) s :
  (forall a s', f a s' = g a s') -> bind m f s = bind m g s.
Proof. unfold bind. intros Hfg. destruct (m s) as [[a|e] s']; [apply Hfg | reflexivity]. Qed.

Lemma bind_ext_l {A B} (m m' : M S A) (f : A -> M S B) s : m s = m' s -> bind m f s = bind m' f s.
Proof. unfold bind. intros ->. reflexivity. Qed.

Lemma bind_reads {A B} (g : S -> result A) (f : A -> M S B) s :
  bind (reads g) f s = match g s with Ok a => f a s | Err e => (Err e, s) end.
Proof. reflexivity. Qed.

Lemma bind_throw_if {B} (b : bool) e (f : unit -> M S B) s :
  bind (throw_if b e) f s = if b then (Err e, s) else f tt s.
Proof. destruct b; reflexivity. Qed.
End MonadLaws.

(** One symbolic step of a monadic computation. *)
Ltac mstep :=
  repeat first
    [ rewrite bind_ret_l | rewrite bind_gets | rewrite bind_modify
    | rewrite bind_reads | rewrite bind_throw_if | rewrite bind_assoc ].

(** ** Preservation of a state predicate, exceptions included *)

Definition preserves {S A} (P : S -> Prop) (m : M S A) : Prop :=
  forall s, P s -> P (snd (m s)).

Create HintDb preserves.

Section Preserves.
Context {S : Type} (P : S -> Prop).

Lemma preserves_ret {A} (a : A) : preserves P (ret a).
Proof. intros s Hs. exact Hs. Qed.

Lemma preserves_throw {A} e : preserves (A := A) P (throw e).
Proof. intros s Hs. exact Hs. Qed.

Lemma preserves_gets {A} (f : S -> A) : preserves P (gets f).
Proof. intros s Hs. exact Hs. Qed.

Lemma preserves_reads {A} (f : S -> result A) : preserves P (reads f).
Proof. intros s Hs. exact Hs. Qed.

Lemma preserves_throw_if b e : preserves P (throw_if b e).
Proof. intros s Hs. destruct b; exact Hs. Qed.

Lemma preserves_bind {A B} (m : M S A) (f : A -> M S B) :
  preserves P m -> (forall a, preserves P (f a)) -> preserves P (bind m f).
Proof.
  intros Hm Hf s Hs. specialize (Hm s Hs). unfold bind.
  destruct (m s) as [[a|e] s']; [exact (Hf a s' Hm) | exact Hm].
Qed.

Lemma preserves_modify f : (forall s, P s -> P (f s)) -> preserves P (modify f).
Proof. intros Hf s Hs. exact (Hf s Hs). Qed.
End Preserves.

#[export] Hint Resolve preserves_ret preserves_throw preserves_gets preserves_reads
  preserves_throw_if preserves_bind preserves_modify : preserves.

(** ** Booleans and integers *)

(** [lia] with division and modulo by constants. *)
Ltac dlia := Z.to_euclidean_division_equations; lia.

(** Turn the boolean tests of the code into propositions and split on them. *)
Ltac zbool :=
  repeat match goal with
  | H : (_ || _)%bool = true |- _ => apply orb_true_iff in H
  | H : (_ || _)%bool = false |- _ => apply orb_false_iff in H as [? ?]
  | H : (_ && _)%bool = true |- _ => apply andb_true_iff in H as [? ?]
  | H : (_ && _)%bool = false |- _ => apply andb_false_iff in H
  | H : negb _ = true |- _ => apply negb_true_iff in H
  | H : negb _ = false |- _ => apply negb_false_iff in H
  | H : (_ <? _) = true |- _ => apply Z.ltb_lt in H
  | H : (_ <? _) = false |- _ => apply Z.ltb_ge in H
  | H : (_ <=? _) = true |- _ => apply Z.leb_le in H
  | H : (_ <=? _) = false |- _ => apply Z.leb_gt in H
  | H : (_ >? _) = true |- _ => rewrite Z.gtb_ltb in H; apply Z.ltb_lt in H
  | H : (_ >? _) = false |- _ => rewrite Z.gtb_ltb in H; apply Z.ltb_ge in H
  | H : (_ >=? _) = true |- _ => rewrite Z.geb_leb in H; apply Z.leb_le in H
  | H : (_ >=? _) = false |- _ => rewrite Z.geb_leb in H; apply Z.leb_gt in H
  | H : (_ =? _) = true |- _ => apply Z.eqb_eq in H
  | H : (_ =? _) = false |- _ => apply Z.eqb_neq in H
  end.

(** Decide the test of the next [if] of the goal and close the impossible branch. *)
Ltac zif :=
  match goal with
  | |- context [if ?b then _ else _] =>
      let E := fresh "E" in destruct b eqn:E; zbool; try (exfalso; lia)
  end.

(** ** Arrays as lists indexed by [Z] *)

Definition zlen {A} (l : list A) : Z := Z.of_nat (length l).

(** [zsub l i n] is the [n] elements of [l] from position [i]. *)
Definition zsub {A} (l : list A) (i n : Z) : list A :=
  take (Z.to_nat n) (drop (Z.to_nat i) l).

(** [overwrite l i src] replaces the elements of [l] from position [i] by those
    of [src]. *)
Definition overwrite {A} (l : list A) (i : Z) (src : list A) : list A :=
  take (Z.to_nat i) l ++ src ++ drop (Z.to_nat i + length src) l.

Definition znth {A} (d : A) (l : list A) (i : Z) : A := nth (Z.to_nat i) l d.

Section ZLists.
Context {A : Type}.
Implicit Types (l src : list A) (i n k : Z).

Lemma zlen_nonneg l : 0 <= zlen l.
Proof. unfold zlen. lia. Qed.

Lemma zlen_1 (x : A) : zlen [x] = 1.
Proof. reflexivity. Qed.

Lemma zlen_0 l : zlen l = 0 -> l = [].
Proof. destruct l; [reflexivity | discriminate]. Qed.

Lemma zlen_app l1 l2 : zlen (l1 ++ l2) = zlen l1 + zlen l2.
Proof. unfold zlen. rewrite length_app. lia. Qed.

Lemma zlen_zsub l i n : 0 <= i -> 0 <= n -> i + n <= zlen l -> zlen (zsub l i n) = n.
Proof. unfold zlen, zsub. rewrite length_take, length_drop. lia. Qed.

Lemma zlen_overwrite l i src :
  0 <= i -> i + zlen src <= zlen l -> zlen (overwrite l i src) = zlen l.
Proof.
  unfold zlen, overwrite. rewrite !length_app, length_take, length_drop. lia.
Qed.

Lemma zsub_overwrite_same l i src :
  0 <= i -> i + zlen src <= zlen l -> zsub (overwrite l i src) i (zlen src) = src.
Proof.
  unfold zsub, overwrite, zlen. intros. rewrite drop_app_length'.
  - rewrite Nat2Z.id. apply take_app_length.
  - rewrite length_take. lia.
Qed.

Lemma zsub_overwrite_before l i src k n :
  0 <= k -> 0 <= n -> k + n <= i -> i <= zlen l ->
  zsub (overwrite l i src) k n = zsub l k n.
Proof.
  unfold zsub, overwrite, zlen. intros. rewrite drop_app_le by (rewrite length_take; lia).
  rewrite take_app_le by (rewrite length_drop, length_take; lia).
  rewrite <- (take_drop (Z.to_nat i) l) at 2.
  rewrite drop_app_le by (rewrite length_take; lia).
  rewrite take_app_le by (rewrite length_drop, length_take; lia). reflexivity.
Qed.

Lemma drop_overwrite_after l i src k :
  0 <= i -> i + zlen src <= k -> i + zlen src <= zlen l ->
  drop (Z.to_nat k) (overwrite l i src) = drop (Z.to_nat k) l.
Proof.
  unfold overwrite, zlen. intros. rewrite app_assoc.
  rewrite drop_app_ge by (rewrite length_app, length_take; lia).
  rewrite drop_drop, length_app, length_take. f_equal. lia.
Qed.

Lemma zsub_overwrite_after l i src k n :
  0 <= i -> i + zlen src <= k -> i + zlen src <= zlen l ->
  zsub (overwrite l i src) k n = zsub l k n.
Proof. unfold zsub. intros. rewrite drop_overwrite_after by assumption. reflexivity. Qed.

Lemma zsub_all l : zsub l 0 (zlen l) = l.
Proof. unfold zsub, zlen. rewrite Nat2Z.id, drop_0. apply take_ge. lia. Qed.

Lemma zsub_zsub l i n j m :
  0 <= i -> 0 <= j -> 0 <= m -> j + m <= n ->
  zsub (zsub l i n) j m = zsub l (i + j) m.
Proof.
  unfold zsub. intros. rewrite skipn_firstn_comm, take_take, drop_drop.
  f_equal; [lia | f_equal; lia].
Qed.

Lemma znth_zsub d l i n k :
  0 <= i -> 0 <= k < n -> znth d (zsub l i n) k = znth d l (i + k).
Proof.
  unfold znth, zsub. intros. rewrite !nth_lookup.
  rewrite lookup_take_lt by lia. rewrite lookup_drop. do 2 f_equal. lia.
Qed.

Lemma zsub_1 d l i : 0 <= i < zlen l -> zsub l i 1 = [znth d l i].
Proof.
  unfold zlen, zsub, znth. intros.
  destruct (lookup_lt_is_Some_2 l (Z.to_nat i)) as [x Hx]; [lia|].
  rewrite (drop_S _ _ _ Hx). change (Z.to_nat 1) with 1%nat. cbn [take].
  rewrite nth_lookup, Hx. reflexivity.
Qed.

Lemma zsub_split l i n m :
  0 <= i -> 0 <= n -> 0 <= m -> zsub l i (n + m) = zsub l i n ++ zsub l (i + n) m.
Proof.
  unfold zsub. intros. rewrite !Z2Nat.inj_add by lia.
  rewrite <- drop_drop. symmetry. apply take_take_drop.
Qed.

Lemma Forall_zsub (P : A -> Prop) l i n : Forall P l -> Forall P (zsub l i n).
Proof. intros. unfold zsub. apply Forall_take, Forall_drop. assumption. Qed.

Lemma Forall_overwrite (P : A -> Prop) l i src :
  Forall P l -> Forall P src -> Forall P (overwrite l i src).
Proof.
  intros. unfold overwrite. rewrite !Forall_app.
  repeat split; [apply Forall_take | | apply Forall_drop]; assumption.
Qed.

Lemma overwrite_overwrite_adjacent l i src1 src2 :
  0 <= i -> i + zlen src1 + zlen src2 <= zlen l ->
  overwrite (overwrite l i src1) (i + zlen src1) src2 = overwrite l i (src1 ++ src2).
Proof.
  unfold overwrite, zlen. intros. rewrite length_app.
  rewrite Z2Nat.inj_add, Nat2Z.id by lia.
  rewrite take_app, length_take, Nat.min_l by lia.
  replace (Z.to_nat i + length src1 - Z.to_nat i)%nat with (length src1) by lia.
  rewrite take_app_length, take_take, Nat.min_r by lia.
  rewrite <- !app_assoc. do 3 f_equal.
  rewrite drop_app_ge by (rewrite length_take; lia).
  rewrite drop_app_ge by (rewrite length_take; lia).
  rewrite drop_drop, length_take. f_equal. lia.
Qed.
End ZLists.

Create HintDb zlist.
#[export] Hint Resolve zlen_nonneg : zlist.
