(* ===== verification/MachineInt.v ===== *)
(** * Machine integers and byte order

    Fixed-width two's complement integers written out on [Z], and the byte
    sequences that encode them.  A [char] of the modelled platform is signed:
    a byte stored in a buffer is a [Z] of the interval \[-128, 127\].

    The code's [<<], [>>], [&] and [|] are [Z.shiftl], [Z.shiftr], [Z.land] and
    [Z.lor]; a cast to a narrower type is [i8], [i16], [i32], [i64] or [u8] ... *)

From S2P Require Import Prelude.

(** ** Wrap-around *)

Definition swrap (w z : Z) : Z := (z + 2 ^ (w - 1)) mod 2 ^ w - 2 ^ (w - 1).
Definition i8 (z : Z) : Z := swrap 8 z.
Definition i16 (z : Z) : Z := swrap 16 z.
Definition i32 (z : Z) : Z := swrap 32 z.
Definition i64 (z : Z) : Z := swrap 64 z.
Definition u8 (z : Z) : Z := z mod 2 ^ 8.
Definition u16 (z : Z) : Z := z mod 2 ^ 16.
Definition u32 (z : Z) : Z := z mod 2 ^ 32.

Definition INT_MAX : Z := 2147483647.
Definition INT_MIN : Z := -2147483648.

(** The range of a [w]-bit signed integer. *)
Definition is_signed (w z : Z) : Prop := - 2 ^ (w - 1) <= z < 2 ^ (w - 1).
Abbreviation is_i8 := (is_signed 8).
Abbreviation is_i16 := (is_signed 16).
Abbreviation is_i32 := (is_signed 32).
Abbreviation is_i64 := (is_signed 64).

Lemma swrap_range w z : 0 < w -> is_signed w (swrap w z).
Proof.
  intros Hw. unfold is_signed, swrap.
  pose proof (Z.mod_pos_bound (z + 2 ^ (w - 1)) (2 ^ w)) as H.
  assert (2 ^ w = 2 * 2 ^ (w - 1)) as E.
  { rewrite <- Z.pow_succ_r by lia. f_equal. lia. }
  pose proof (Z.pow_pos_nonneg 2 (w - 1)). lia.
Qed.

Lemma swrap_id w z : 0 < w -> is_signed w z -> swrap w z = z.
Proof.
  unfold is_signed, swrap. intros Hw H.
  assert (2 ^ w = 2 * 2 ^ (w - 1)) as E.
  { rewrite <- Z.pow_succ_r by lia. f_equal. lia. }
  rewrite Z.mod_small by lia. lia.
Qed.

(** Two integers equal modulo [2^w] wrap to the same value. *)
Lemma swrap_cong w x y : x mod 2 ^ w = y mod 2 ^ w -> swrap w x = swrap w y.
Proof.
  unfold swrap. intros H. f_equal.
  rewrite Zplus_mod, H, <- Zplus_mod. reflexivity.
Qed.

Lemma swrap_mod w z : 0 < w -> swrap w z mod 2 ^ w = z mod 2 ^ w.
Proof.
  intros. unfold swrap. rewrite Zminus_mod_idemp_l. f_equal. lia.
Qed.

Lemma i8_range z : is_i8 (i8 z). Proof. apply swrap_range. lia. Qed.
Lemma i16_range z : is_i16 (i16 z). Proof. apply swrap_range. lia. Qed.
Lemma i32_range z : is_i32 (i32 z). Proof. apply swrap_range. lia. Qed.
Lemma i64_range z : is_i64 (i64 z). Proof. apply swrap_range. lia. Qed.

Lemma i8_id z : is_i8 z -> i8 z = z. Proof. apply swrap_id. lia. Qed.
Lemma i16_id z : is_i16 z -> i16 z = z. Proof. apply swrap_id. lia. Qed.
Lemma i32_id z : is_i32 z -> i32 z = z. Proof. apply swrap_id. lia. Qed.
Lemma i64_id z : is_i64 z -> i64 z = z. Proof. apply swrap_id. lia. Qed.

(** One overflow. *)
Lemma i32_over z : 2 ^ 31 <= z < 2 ^ 32 + 2 ^ 31 -> i32 z = z - 2 ^ 32.
Proof.
  intros H. unfold i32. rewrite (swrap_cong 32 z (z - 2 ^ 32)).
  - apply swrap_id; [lia|]. unfold is_signed. cbn in *. lia.
  - replace z with (z - 2 ^ 32 + 1 * 2 ^ 32) at 1 by lia. apply Z.mod_add. lia.
Qed.

Create HintDb machine.
#[export] Hint Resolve i8_range i16_range i32_range i64_range : machine.

(** Close a goal on 32-bit ranges whose integers are in the context. *)
Ltac solve_range := unfold is_signed, INT_MAX, INT_MIN in *; cbn in *; lia.

(** ** Byte order *)

Inductive ByteOrder := BYTE_ORDER_BIG | BYTE_ORDER_LITTLE.

#[global] Instance ByteOrder_eq_dec : EqDecision ByteOrder.
Proof. solve_decision. Defined.

Definition ByteOrder_eqb (a b : ByteOrder) : bool :=
  match a, b with
  | BYTE_ORDER_BIG, BYTE_ORDER_BIG | BYTE_ORDER_LITTLE, BYTE_ORDER_LITTLE => true
  | _, _ => false
  end.

Lemma ByteOrder_eqb_eq a b : ByteOrder_eqb a b = true <-> a = b.
Proof. destruct a, b; cbn; intuition congruence. Qed.

(** The unsigned value of a sequence of bytes, least significant byte first. *)
Fixpoint le_decode (l : list Z) : Z :=
  match l with
  | [] => 0
  | b :: l => b mod 256 + 256 * le_decode l
  end.

(** The [n] low bytes of [v], least significant byte first. *)
Fixpoint le_encode (n : nat) (v : Z) : list Z :=
  match n with
  | O => []
  | S n => i8 v :: le_encode n (Z.shiftr v 8)
  end.

Definition decode (o : ByteOrder) (l : list Z) : Z :=
  match o with
  | BYTE_ORDER_BIG => le_decode (rev l)
  | BYTE_ORDER_LITTLE => le_decode l
  end.

Definition encode (o : ByteOrder) (n : nat) (v : Z) : list Z :=
  match o with
  | BYTE_ORDER_BIG => rev (le_encode n v)
  | BYTE_ORDER_LITTLE => le_encode n v
  end.

Lemma length_le_encode n v : length (le_encode n v) = n.
Proof. revert v. induction n as [|n IH]; intros v; cbn; [|rewrite IH]; reflexivity. Qed.

Lemma length_encode o n v : length (encode o n v) = n.
Proof. destruct o; cbn; rewrite ?length_rev; apply length_le_encode. Qed.

Lemma zlen_encode o n v : zlen (encode o n v) = Z.of_nat n.
Proof. unfold zlen. rewrite length_encode. reflexivity. Qed.

Lemma i8_mod z : i8 z mod 256 = z mod 256.
Proof. exact (swrap_mod 8 z eq_refl). Qed.

Lemma le_decode_encode n v : le_decode (le_encode n v) = v mod 2 ^ (8 * Z.of_nat n).
Proof.
  revert v. induction n as [|n IH]; intros v.
  - cbn. rewrite Z.mod_1_r. reflexivity.
  - cbn [le_encode le_decode]. rewrite IH, i8_mod, Z.shiftr_div_pow2 by lia.
    change (2 ^ 8) with 256.
    replace (2 ^ (8 * Z.of_nat (S n))) with (256 * 2 ^ (8 * Z.of_nat n)).
    + rewrite Z.rem_mul_r by lia. reflexivity.
    + replace (8 * Z.of_nat (S n)) with (8 + 8 * Z.of_nat n) by lia.
      rewrite Z.pow_add_r by lia. reflexivity.
Qed.

(** Decoding an encoding gives the value back, modulo its width. *)
Lemma decode_encode o n v : decode o (encode o n v) = v mod 2 ^ (8 * Z.of_nat n).
Proof. destruct o; cbn; rewrite ?rev_involutive; apply le_decode_encode. Qed.

Lemma le_encode_decode l : Forall is_i8 l -> le_encode (length l) (le_decode l) = l.
Proof.
  induction 1 as [|b l Hb Hl IH]; [reflexivity|].
  cbn [length le_encode le_decode]. f_equal.
  - rewrite <- (i8_id b Hb) at 2. apply swrap_cong.
    change (2 ^ 8) with 256. rewrite Z.mul_comm, Z_mod_plus_full, Zmod_mod. reflexivity.
  - rewrite Z.shiftr_div_pow2 by lia. change (2 ^ 8) with 256.
    pose proof (Z.mod_pos_bound b 256 eq_refl).
    replace ((b mod 256 + 256 * le_decode l) / 256) with (le_decode l).
    + exact IH.
    + apply (Z.div_unique _ _ _ (b mod 256)); lia.
Qed.

Lemma encode_decode o l : Forall is_i8 l -> encode o (length l) (decode o l) = l.
Proof.
  intros H. destruct o; cbn.
  - rewrite <- length_rev, le_encode_decode by (apply Forall_rev; exact H).
    apply rev_involutive.
  - apply le_encode_decode. exact H.
Qed.

Lemma le_decode_bound l : 0 <= le_decode l < 2 ^ (8 * zlen l).
Proof.
  unfold zlen. induction l as [|b l IH]; [cbn; lia|].
  cbn [le_decode length]. pose proof (Z.mod_pos_bound b 256 eq_refl).
  replace (8 * Z.of_nat (S (length l))) with (8 + 8 * Z.of_nat (length l)) by lia.
  rewrite Z.pow_add_r by lia. change (2 ^ 8) with 256. lia.
Qed.

Lemma decode_bound o l : 0 <= decode o l < 2 ^ (8 * zlen l).
Proof.
  destruct o; cbn; [|apply le_decode_bound].
  replace (zlen l) with (zlen (rev l)) by (unfold zlen; rewrite length_rev; reflexivity).
  apply le_decode_bound.
Qed.

Lemma Forall_encode o n v : Forall is_i8 (encode o n v).
Proof.
  assert (Forall is_i8 (le_encode n v)) as H.
  { revert v. induction n as [|n IH]; intros v; cbn; constructor; auto with machine. }
  destruct o; cbn; [apply Forall_rev|]; exact H.
Qed.

#[export] Hint Resolve Forall_encode : machine.

(** ** The bit operations of the code as arithmetic *)

Lemma land_255 z : Z.land z 255 = z mod 256.
Proof. change 255 with (Z.ones 8). rewrite Z.land_ones by lia. reflexivity. Qed.

(** [|] of a multiple of [2^n] and a number below [2^n] is a sum. *)
Lemma lor_add n a b : 0 <= n -> a mod 2 ^ n = 0 -> 0 <= b < 2 ^ n -> Z.lor a b = a + b.
Proof.
  intros Hn Ha Hb. rewrite <- Z.lxor_lor, <- Z.add_nocarry_lxor; [reflexivity| |].
  all: apply Z.bits_inj'; intros k Hk; rewrite Z.land_spec, Z.bits_0.
  all: destruct (Z.lt_ge_cases k n) as [L|G].
  1, 3: rewrite <- (Z.mod_pow2_bits_low a n k), Ha, Z.bits_0 by lia; reflexivity.
  all: rewrite <- (Z.mod_small b (2 ^ n)), Z.mod_pow2_bits_high by lia; apply andb_false_r.
Qed.

(** Masking one bit. *)
Lemma land_pow2 v n : 0 <= n -> Z.land v (2 ^ n) = if Z.testbit v n then 2 ^ n else 0.
Proof.
  intros Hn. apply Z.bits_inj'. intros k Hk.
  rewrite Z.land_spec, Z.pow2_bits_eqb by exact Hn.
  destruct (Z.eqb_spec n k) as [<-|Hne].
  - rewrite andb_true_r. destruct (Z.testbit v n); [|rewrite Z.bits_0; reflexivity].
    rewrite Z.pow2_bits_true by exact Hn. reflexivity.
  - rewrite andb_false_r. destruct (Z.testbit v n); [|rewrite Z.bits_0; reflexivity].
    rewrite Z.pow2_bits_false by congruence. reflexivity.
Qed.

(** The top bit of an [n+1]-bit number. *)
Lemma testbit_top v n : 0 <= n -> 0 <= v < 2 ^ (n + 1) -> Z.testbit v n = (2 ^ n <=? v).
Proof.
  intros Hn Hv. rewrite Z.pow_add_r, Z.pow_1_r in Hv by lia.
  pose proof (Z.testbit_spec' v n Hn) as E. pose proof (Z.pow_pos_nonneg 2 n eq_refl Hn).
  destruct (2 ^ n <=? v) eqn:L; zbool.
  - rewrite <- (Z.div_unique v (2 ^ n) 1 (v - 2 ^ n)) in E by lia.
    destruct (Z.testbit v n); [reflexivity | discriminate].
  - rewrite Z.div_small in E by lia. destruct (Z.testbit v n); [discriminate | reflexivity].
Qed.

(** A boolean property of all bytes, by evaluation. *)
Definition all_bytes : list Z := map (fun k => Z.of_nat k - 128) (seq 0 256).

Lemma all_bytes_spec (p : Z -> bool) v : forallb p all_bytes = true -> is_i8 v -> p v = true.
Proof.
  intros H Hv. rewrite forallb_forall in H. apply H.
  apply in_map_iff. exists (Z.to_nat (v + 128)). unfold is_signed in Hv. cbn in Hv.
  split; [lia|]. apply in_seq. lia.
Qed.
