(* ===== verification/Buffer.v ===== *)
(** * The interface of channel buffers

    [src/include/cetty/buffer/Array.h], [src/src/cetty/buffer/Array.cpp] (module
    [Array]), the members of [AbstractChannelBuffer] (record [Indexes]), and the
    pure virtual functions of [ChannelBuffer] that every buffer class implements
    (class [RawBuffer]).  [ReadSpec] and [WriteSpec] state what an
    implementation promises: it is an array of bytes, its [content]. *)

From S2P Require Import Prelude MachineInt.

(** ** Arrays *)

Module Array.

(** An [Array] is a pointer and a size.  [Null] is the array of the default
    constructor; [Data l] points at the bytes [l]. *)
Inductive t :=
  | Null
  | Data (l : list Z).

Definition bytes (a : t) : list Z :=
  match a with
  | Null => []
  | Data l => l
  end.

Definition length (a : t) : Z := zlen (bytes a).
Definition empty (a : t) : bool := length a =? 0.

(** [operator[]], for reading. *)
Definition at_index (a : t) (index : Z) : result Z :=
  if (index <? 0) || (index >=? length a) then Err RangeException
  else Ok (znth 0 (bytes a) index).

(** [operator[]], for writing: the element is a [char]. *)
Definition set_index (index v : Z) : M t unit := fun a =>
  if (index <? 0) || (index >=? length a) then (Err RangeException, a)
  else (Ok tt, Data (overwrite (bytes a) index [i8 v])).

(** [data(int offset)]: the checked offset of the pointer. *)
Definition data_at (a : t) (offset : Z) : result Z :=
  if (offset <? 0) || (negb (offset =? 0) && (offset >=? length a)) then Err RangeException
  else Ok offset.

Definition fromString (s : list Z) : t := Data s.

(** [Array::copy]: the sums are [int] sums; when one of them overflows, the
    test lets an access outside the arrays through.  The bytes are moved as
    [memmove] does, from the source as it was before the call. *)
Definition copy (dst : t) (dstIndex : Z) (src : t) (srcIndex len : Z) : result t :=
  let srcLength := length src in
  let srcLastIndex := i32 (srcIndex + len) in
  if (dstIndex <? 0) || (srcIndex <? 0) || (len <? 0) || (srcLastIndex >? srcLength)
     || (i32 (dstIndex + len) >? length dst)
  then Err RangeException
  else
    match src, dst with
    | Data s, Data d =>
        if (srcIndex + len <=? zlen s) && (dstIndex + len <=? zlen d)
        then Ok (Data (overwrite d dstIndex (zsub s srcIndex len)))
        else Err Undefined
    | _, _ => Err InvalidArgumentException
    end.

(** [ConstArray::clone]. *)
Definition clone (a : t) : t :=
  match a with
  | Null => Null
  | Data l => if zlen l =? 0 then Null else Data l
  end.

End Array.

(** The region [index, index + len) lies inside an array of [n] bytes. *)
Definition in_range (n index len : Z) : Prop := 0 <= index /\ 0 <= len /\ index + len <= n.

#[global] Instance in_range_dec n index len : Decision (in_range n index len).
Proof. unfold in_range. apply _. Defined.

(** [Array::copy] between existing arrays, inside their bounds. *)
Lemma Array_copy_ok d dstIndex s srcIndex len :
  zlen d <= INT_MAX -> zlen s <= INT_MAX ->
  in_range (zlen d) dstIndex len -> in_range (zlen s) srcIndex len ->
  Array.copy (Array.Data d) dstIndex (Array.Data s) srcIndex len
  = Ok (Array.Data (overwrite d dstIndex (zsub s srcIndex len))).
Proof.
  unfold in_range, Array.copy, Array.length, INT_MAX. cbn. intros.
  rewrite !i32_id by solve_range.
  repeat zif. reflexivity.
Qed.

(** ... and outside of them, when the sums do not overflow. *)
Lemma Array_copy_err d dstIndex s srcIndex len :
  is_i32 (dstIndex + len) -> is_i32 (srcIndex + len) ->
  ~ (in_range (zlen d) dstIndex len /\ in_range (zlen s) srcIndex len) ->
  Array.copy (Array.Data d) dstIndex (Array.Data s) srcIndex len = Err RangeException.
Proof.
  unfold in_range, Array.copy, Array.length. cbn. intros H1 H2 H.
  rewrite !i32_id by assumption.
  destruct (_ || _)%bool eqn:E; [reflexivity|]. zbool. exfalso. apply H. lia.
Qed.

(** ** Buffers *)

(** The four [int] members of [AbstractChannelBuffer]. *)
Record Indexes := MkIndexes {
  readerIdx : Z;
  writerIdx : Z;
  markedReaderIndex : Z;
  markedWriterIndex : Z;
}.

Definition with_readerIdx (v : Z) (i : Indexes) : Indexes :=
  MkIndexes v (writerIdx i) (markedReaderIndex i) (markedWriterIndex i).
Definition with_writerIdx (v : Z) (i : Indexes) : Indexes :=
  MkIndexes (readerIdx i) v (markedReaderIndex i) (markedWriterIndex i).
Definition with_markedReaderIndex (v : Z) (i : Indexes) : Indexes :=
  MkIndexes (readerIdx i) (writerIdx i) v (markedWriterIndex i).
Definition with_markedWriterIndex (v : Z) (i : Indexes) : Indexes :=
  MkIndexes (readerIdx i) (writerIdx i) (markedReaderIndex i) v.

(** [getBytes(int, const Array&, int, int)] of a source buffer: the bytes of
    the array it leaves. *)
Definition Reader : Type := Z -> Array.t -> Z -> Z -> result Array.t.

(** [setBytes(int, const ConstArray&, int, int)] of a destination buffer. *)
Definition Writer (D : Type) : Type := Z -> Array.t -> Z -> Z -> M D unit.

(** The functions a buffer class implements.  A buffer passed to another one
    is passed as the function it is used through: a source as its [Reader], a
    destination as its [Writer]. *)
Class RawBuffer (B : Type) := {
  order : B -> ByteOrder;
  capacity : B -> Z;
  indexes : B -> Indexes;
  put_indexes : Indexes -> B -> B;
  getByte : B -> Z -> result Z;
  getShort : B -> Z -> result Z;
  getUnsignedMedium : B -> Z -> result Z;
  getInt : B -> Z -> result Z;
  getLong : B -> Z -> result Z;
  getBytes : B -> Reader;
  getBytesTo : forall D, Writer D -> B -> Z -> Z -> Z -> M D unit;
  setByte : Z -> Z -> M B unit;
  setShort : Z -> Z -> M B unit;
  setMedium : Z -> Z -> M B unit;
  setInt : Z -> Z -> M B unit;
  setLong : Z -> Z -> M B unit;
  setBytes : Writer B;
  setBytesFrom : Z -> Reader -> Z -> Z -> M B unit;
}.
Arguments getBytesTo {B _ D}.

(** The allocator behind [new char[n]]: the bytes of a fresh array are
    indeterminate. *)
Class Allocator := {
  fresh : nat -> list Z;
  fresh_length n : length (fresh n) = n;
  fresh_i8 n : Forall is_i8 (fresh n);
}.

Definition newArray `{Allocator} (n : Z) : list Z := fresh (Z.to_nat n).

Lemma zlen_newArray `{Allocator} n : 0 <= n -> zlen (newArray n) = n.
Proof. intros. unfold zlen, newArray. rewrite fresh_length. lia. Qed.

Lemma newArray_i8 `{Allocator} n : Forall is_i8 (newArray n).
Proof. apply fresh_i8. Qed.

#[export] Hint Resolve newArray_i8 : machine.

(** An allocator whose memory happens to be zero, for concrete runs. *)
Definition zeroAllocator : Allocator.
Proof.
  refine {| fresh := repeat 0 |}.
  - apply repeat_length.
  - intros n. induction n; constructor; [solve_range | assumption].
Defined.

(** The virtual functions with a default in [AbstractChannelBuffer] that
    [DynamicChannelBuffer] overrides. *)
Class WriteBuffer (B : Type) `{RawBuffer B} := {
  ensureWritableBytes : Z -> M B unit;
  writeByte : Z -> M B unit;
  writeShort : Z -> M B unit;
  writeMedium : Z -> M B unit;
  writeInt : Z -> M B unit;
  writeLong : Z -> M B unit;
  writeBytesArray : Array.t -> Z -> Z -> M B unit;
  writeBytesBuffer : Reader -> Z -> Z -> M B unit;
  discardReadBytes : M B unit;
}.

(** [ChannelBufferFactory::getBuffer(ByteOrder, int)], for factories of buffers
    of type [N], and the shared empty buffer of [ChannelBuffers]. *)
Class ChannelBufferFactory (N : Type) := {
  getBuffer : ByteOrder -> Z -> result N;
  EMPTY_BUFFER : N;
}.

(** [copy(int, int)]: a new buffer with a copy of a region. *)
Class CopyBuffer (B N : Type) := {
  copy : B -> Z -> Z -> result N;
}.

(** [slice(int, int)]: a view of a region, of class [V]. *)
Class SliceBuffer (B V : Type) := {
  slice : B -> Z -> Z -> result V;
}.

(** [duplicate()]: a buffer over the same bytes, with the same indexes. *)
Class DuplicateBuffer (B : Type) := {
  duplicate : B -> result B;
}.

(** ** What a buffer class promises *)

(** The [n] bytes at position [i], when they exist. *)
Definition bytes_at (l : list Z) (i n : Z) : result (list Z) :=
  if decide (in_range (zlen l) i n) then Ok (zsub l i n) else Err RangeException.

(** The signed value of [n] bytes at position [i]. *)
Definition signed_at (w : Z) (o : ByteOrder) (l : list Z) (i n : Z) : result Z :=
  let? bs := bytes_at l i n in Ok (swrap w (decode o bs)).

Definition unsigned_at (o : ByteOrder) (l : list Z) (i n : Z) : result Z :=
  let? bs := bytes_at l i n in Ok (decode o bs).

(** [rd] is the [getBytes] of a buffer whose bytes are [l]. *)
Definition reader_of (l : list Z) (rd : Reader) : Prop :=
  forall index d dstIndex len,
    zlen d <= INT_MAX -> in_range (zlen l) index len -> in_range (zlen d) dstIndex len ->
    rd index (Array.Data d) dstIndex len
    = Ok (Array.Data (overwrite d dstIndex (zsub l index len))).

Class ReadSpec (B : Type) `{RawBuffer B} := {
  (** the representation invariant *)
  valid : B -> Prop;
  (** the bytes of the buffer *)
  content : B -> list Z;
  content_i8 b : valid b -> Forall is_i8 (content b);
  capacity_content b : valid b -> capacity b = zlen (content b);
  capacity_max b : valid b -> capacity b <= INT_MAX;
  valid_put ix b : valid b -> valid (put_indexes ix b);
  content_put ix b : content (put_indexes ix b) = content b;
  order_put ix b : order (put_indexes ix b) = order b;
  indexes_put ix b : indexes (put_indexes ix b) = ix;
  put_same b : put_indexes (indexes b) b = b;
  put_put ix ix' b : put_indexes ix (put_indexes ix' b) = put_indexes ix b;
  getByte_law b i : valid b -> is_i32 i -> getByte b i = signed_at 8 (order b) (content b) i 1;
  getShort_law b i : valid b -> is_i32 i -> getShort b i = signed_at 16 (order b) (content b) i 2;
  getUnsignedMedium_law b i :
    valid b -> is_i32 i -> getUnsignedMedium b i = unsigned_at (order b) (content b) i 3;
  getInt_law b i : valid b -> is_i32 i -> getInt b i = signed_at 32 (order b) (content b) i 4;
  getLong_law b i : valid b -> is_i32 i -> getLong b i = signed_at 64 (order b) (content b) i 8;
  getBytes_law b : valid b -> reader_of (content b) (getBytes b);
}.

(** [b'] is [b] with bytes [l]: a valid buffer with the same indexes and byte
    order. *)
Record updated {B} `{RS : ReadSpec B} (b : B) (l : list Z) (b' : B) : Prop := MkUpdated {
  updated_valid : valid b';
  updated_content : content b' = l;
  updated_indexes : indexes b' = indexes b;
  updated_order : order b' = order b;
}.

(** [f] stores the [n] bytes [bs] at position [i]; outside the buffer it
    throws, and it may have stored some of the bytes, none of them before
    position [i], and none at all when [i] itself is outside. *)
Definition stores {B} `{RS : ReadSpec B} (f : M B unit) (b : B) (i : Z) (bs : list Z) : Prop :=
  (in_range (zlen (content b)) i (zlen bs) ->
    exists b', f b = (Ok tt, b') /\ updated b (overwrite (content b) i bs) b') /\
  (~ in_range (zlen (content b)) i (zlen bs) ->
    exists b' l, f b = (Err RangeException, b') /\ updated b l b' /\
      zlen l = zlen (content b) /\ take (Z.to_nat i) l = take (Z.to_nat i) (content b) /\
      (0 <= i < zlen (content b) \/ l = content b)).

Class WriteSpec (B : Type) `{RS : ReadSpec B} := {
  setByte_law b i v : valid b -> is_i32 i -> stores (setByte i v) b i [i8 v];
  setShort_law b i v : valid b -> is_i32 i -> stores (setShort i v) b i (encode (order b) 2 v);
  setMedium_law b i v : valid b -> is_i32 i -> stores (setMedium i v) b i (encode (order b) 3 v);
  setInt_law b i v : valid b -> is_i32 i -> stores (setInt i v) b i (encode (order b) 4 v);
  setLong_law b i v : valid b -> is_i32 i -> stores (setLong i v) b i (encode (order b) 8 v);
  setBytes_law b i s si n :
    valid b -> Forall is_i8 s -> zlen s <= INT_MAX ->
    in_range (zlen (content b)) i n -> in_range (zlen s) si n ->
    exists b', setBytes i (Array.Data s) si n b = (Ok tt, b') /\
      updated b (overwrite (content b) i (zsub s si n)) b';
  setBytesFrom_law b i rd s si n :
    valid b -> Forall is_i8 s -> reader_of s rd ->
    in_range (zlen (content b)) i n -> in_range (zlen s) si n ->
    exists b', setBytesFrom i rd si n b = (Ok tt, b') /\
      updated b (overwrite (content b) i (zsub s si n)) b';
}.
