(* ===== verification/AbstractBuffer.v ===== *)
(** * AbstractChannelBuffer

    [src/src/cetty/buffer/AbstractChannelBuffer.cpp]: the index arithmetic shared
    by all buffer classes, written over the functions a class implements
    ([RawBuffer]) and, where the code calls a virtual write, over [WriteBuffer].
    Overloads carry a suffix: [Array], [String], [Buffer], [Len] ... *)

From S2P Require Import Prelude MachineInt Buffer.

Module AbstractChannelBuffer.

(** [std::string::resize(int)]: a negative length converts to a huge
    [size_t]. *)
Definition resize (l : list Z) (n : Z) : result (list Z) :=
  if n <? 0 then Err LengthError
  else Ok (take (Z.to_nat n) l ++ repeat 0 (Z.to_nat n - length l)).

Section Indexing.
Context {B : Type} `{RB : RawBuffer B}.

Definition readerIndex (b : B) : Z := readerIdx (indexes b).
Definition writerIndex (b : B) : Z := writerIdx (indexes b).

Definition upd (f : Indexes -> Indexes) : M B unit :=
  modify (fun b => put_indexes (f (indexes b)) b).

Definition setReaderIndex (readerIdx : Z) : M B unit :=
  let! w := gets writerIndex in
  throw_if ((readerIdx <? 0) || (readerIdx >? w)) RangeException ;!
  upd (with_readerIdx readerIdx).

Definition offsetReaderIndex (offset : Z) : M B unit :=
  let! b := gets id in
  let newReaderIdx := i32 (readerIndex b + offset) in
  throw_if ((newReaderIdx <? 0) || (newReaderIdx >? writerIndex b)) RangeException ;!
  upd (with_readerIdx newReaderIdx).

Definition setWriterIndex (writerIdx : Z) : M B unit :=
  let! b := gets id in
  throw_if ((writerIdx <? readerIndex b) || (writerIdx >? capacity b)) RangeException ;!
  upd (with_writerIdx writerIdx).

Definition offsetWriterIndex (offset : Z) : M B unit :=
  let! b := gets id in
  let newWriterIdx := i32 (writerIndex b + offset) in
  throw_if ((newWriterIdx <? readerIndex b) || (newWriterIdx >? capacity b)) RangeException ;!
  upd (with_writerIdx newWriterIdx).

Definition setIndex (readerIndex writerIndex : Z) : M B unit :=
  let! c := gets capacity in
  throw_if ((readerIndex <? 0) || (readerIndex >? writerIndex) || (writerIndex >? c))
    RangeException ;!
  upd (fun i => with_writerIdx writerIndex (with_readerIdx readerIndex i)).

Definition clear : M B unit := upd (fun i => with_writerIdx 0 (with_readerIdx 0 i)).

Definition readableBytes (b : B) : Z := i32 (writerIndex b - readerIndex b).
Definition writableBytes (b : B) : Z := i32 (capacity b - writerIndex b).
Definition readable (b : B) : bool := readableBytes b >? 0.
Definition writable (b : B) : bool := writableBytes b >? 0.

Definition markReaderIndex : M B unit :=
  upd (fun i => with_markedReaderIndex (readerIdx i) i).
Definition resetReaderIndex : M B unit :=
  let! m := gets (fun b => markedReaderIndex (indexes b)) in setReaderIndex m.
Definition markWriterIndex : M B unit :=
  upd (fun i => with_markedWriterIndex (writerIdx i) i).
Definition resetWriterIndex : M B unit :=
  upd (fun i => with_writerIdx (markedWriterIndex i) i).

(** [setBytes(0, *this, ...)]: source and destination are this buffer. *)
Definition discardReadBytes : M B unit :=
  let! b := gets id in
  let r := readerIndex b in
  let w := writerIndex b in
  if r =? 0 then ret tt
  else if r =? w then upd (fun i => with_writerIdx 0 (with_readerIdx 0 i))
  else
    setBytesFrom 0 (getBytes b) r (i32 (w - r)) ;!
    upd (fun i =>
      MkIndexes 0 (i32 (writerIdx i - readerIdx i))
        (if i32 (markedReaderIndex i - readerIdx i) >? 0
         then i32 (markedReaderIndex i - readerIdx i) else 0)
        (if i32 (markedWriterIndex i - readerIdx i) >? 0
         then i32 (markedWriterIndex i - readerIdx i) else 0)).

Definition ensureWritableBytes (wBytes : Z) : M B unit :=
  let! b := gets id in throw_if (wBytes >? writableBytes b) RangeException.

Definition checkReadableBytes (minimumReadableBytes : Z) : M B unit :=
  let! b := gets id in throw_if (readableBytes b <? minimumReadableBytes) RangeException.

(** *** Get *)

Definition getUnsignedByte (b : B) (index : Z) : result Z :=
  let? v := getByte b index in Ok (u8 (Z.land v 0xFF)).

Definition getUnsignedShort (b : B) (index : Z) : result Z :=
  let? v := getShort b index in Ok (u16 (Z.land v 0xFFFF)).

(** [value |= 0xff000000]: the literal is an [unsigned int]. *)
Definition signMedium (value : Z) : Z :=
  if negb (Z.land value 0x800000 =? 0) then i32 (Z.lor (u32 value) 0xff000000) else value.

Definition getMedium (b : B) (index : Z) : result Z :=
  let? value := getUnsignedMedium b index in Ok (signMedium value).

Definition getUnsignedInt (b : B) (index : Z) : result Z :=
  let? v := getInt b index in Ok (u32 (Z.land v 0xFFFFFFFF)).

(** [wchar_t] is a 32-bit [int] on the modelled platform. *)
Definition getChar (b : B) (index : Z) : result Z := getShort b index.

(** [getFloat] and [getDouble] are stubs in the code. *)
Definition getFloat (b : B) (index : Z) : result Z := Ok 0.
Definition getDouble (b : B) (index : Z) : result Z := Ok 0.

Definition getBytesArray (b : B) (index : Z) (dst : Array.t) : result Array.t :=
  getBytes b index dst 0 (Array.length dst).

(** The state is the destination string. *)
Definition getBytesString (b : B) (index len : Z) : M (list Z) unit :=
  let! dst := reads (fun s => resize s len) in
  modify (fun _ => dst) ;!
  let! a := reads (fun s => getBytesArray b index (Array.fromString s)) in
  modify (fun _ => Array.bytes a).

Definition getBytesStringAt (b : B) (index dstIndex len : Z) : M (list Z) unit :=
  let! dst := reads (fun s => resize s (i32 (dstIndex + len))) in
  modify (fun _ => dst) ;!
  let! a := reads (fun s => getBytes b index (Array.fromString s) dstIndex len) in
  modify (fun _ => Array.bytes a).

(** *** Set *)

Definition setChar (index value : Z) : M B unit := setShort index value.
Definition setFloat (index value : Z) : M B unit := ret tt.
Definition setDouble (index value : Z) : M B unit := ret tt.

Definition setBytesArray (index : Z) (src : Array.t) : M B unit :=
  setBytes index src 0 (Array.length src).
Definition setBytesString (index : Z) (src : list Z) : M B unit :=
  setBytesArray index (Array.fromString src).
Definition setBytesStringAt (index : Z) (src : list Z) (srcIndex len : Z) : M B unit :=
  setBytes index (Array.fromString src) srcIndex len.

(** The loops of [setZero]; both return the index after the stores. *)
Fixpoint setZeroLongs (n : nat) (index : Z) : M B Z :=
  match n with
  | O => ret index
  | S n => setLong index 0 ;! setZeroLongs n (i32 (index + 8))
  end.

Fixpoint setZeroBytes (n : nat) (index : Z) : M B Z :=
  match n with
  | O => ret index
  | S n => setByte index 0 ;! setZeroBytes n (i32 (index + 1))
  end.

Definition setZero (index len : Z) : M B unit :=
  if len =? 0 then ret tt
  else if len <? 0 then throw InvalidArgumentException
  else
    let nLong := Z.shiftr len 3 in
    let nBytes := Z.land len 7 in
    let! index := setZeroLongs (Z.to_nat nLong) index in
    if nBytes =? 4 then setInt index 0
    else if nBytes <? 4 then (setZeroBytes (Z.to_nat nBytes) index ;! ret tt)
    else
      setInt index 0 ;!
      setZeroBytes (Z.to_nat (nBytes - 4)) (i32 (index + 4)) ;! ret tt.

(** *** Read *)

Definition advance (n : Z) : M B unit :=
  upd (fun i => with_readerIdx (i32 (readerIdx i + n)) i).

(** [getByte(readerIdx++)]: the index moves before the access. *)
Definition readByte : M B Z :=
  let! b := gets id in
  let r := readerIndex b in
  throw_if (r =? writerIndex b) RangeException ;!
  advance 1 ;!
  reads (fun b => getByte b r).

Definition readUnsignedByte : M B Z :=
  let! v := readByte in ret (u8 (Z.land v 0xFF)).

Definition readShort : M B Z :=
  checkReadableBytes 2 ;!
  let! v := reads (fun b => getShort b (readerIndex b)) in
  advance 2 ;! ret v.

Definition readUnsignedShort : M B Z :=
  let! v := readShort in ret (u16 (Z.land v 0xFFFF)).

Definition readUnsignedMedium : M B Z :=
  checkReadableBytes 3 ;!
  let! v := reads (fun b => getUnsignedMedium b (readerIndex b)) in
  advance 3 ;! ret v.

Definition readMedium : M B Z :=
  let! value := readUnsignedMedium in ret (signMedium value).

Definition readInt : M B Z :=
  checkReadableBytes 4 ;!
  let! v := reads (fun b => getInt b (readerIndex b)) in
  advance 4 ;! ret v.

Definition readUnsignedInt : M B Z :=
  let! v := readInt in ret (u32 (Z.land v 0xFFFFFFFF)).

Definition readLong : M B Z :=
  checkReadableBytes 8 ;!
  let! v := reads (fun b => getLong b (readerIndex b)) in
  advance 8 ;! ret v.

Definition readChar : M B Z := readShort.
Definition readFloat : M B Z := ret 0.
Definition readDouble : M B Z := ret 0.

(** The result is the destination array after the call. *)
Definition readBytesArrayAt (dst : Array.t) (dstIndex len : Z) : M B Array.t :=
  if 0 =? len then ret dst
  else
    checkReadableBytes len ;!
    let! a := reads (fun b => getBytes b (readerIndex b) dst dstIndex len) in
    advance len ;! ret a.

Definition readBytesArray (dst : Array.t) : M B Array.t :=
  if Array.empty dst then ret dst else readBytesArrayAt dst 0 (Array.length dst).

Definition readBytesStringLen (dst : list Z) (len : Z) : M B (list Z) :=
  if 0 =? len then ret dst
  else
    let! dst := reads (fun _ => resize dst len) in
    let! a := readBytesArrayAt (Array.fromString dst) 0 len in
    ret (Array.bytes a).

Definition readBytesStringAt (dst : list Z) (dstIndex len : Z) : M B (list Z) :=
  if 0 =? len then ret dst
  else
    let! dst := reads (fun _ => resize dst (i32 (dstIndex + len))) in
    let! a := readBytesArrayAt (Array.fromString dst) dstIndex len in
    ret (Array.bytes a).

Definition readBytesString (dst : list Z) : M B (list Z) :=
  let! n := gets readableBytes in
  let! dst := reads (fun _ => resize dst n) in
  let! a := readBytesArray (Array.fromString dst) in
  ret (Array.bytes a).

Definition skipBytes (len : Z) : M B unit :=
  let! b := gets id in
  let newReaderIndex := i32 (readerIndex b + len) in
  throw_if (newReaderIndex >? writerIndex b) RangeException ;!
  upd (with_readerIdx newReaderIndex).

(** *** Write: the defaults of the virtual functions *)

Definition advanceWriter (n : Z) : M B unit :=
  upd (fun i => with_writerIdx (i32 (writerIdx i + n)) i).

(** [setByte(writerIdx++, value)]: the index moves before the store. *)
Definition writeByte (value : Z) : M B unit :=
  let! w := gets writerIndex in
  advanceWriter 1 ;! setByte w value.

Definition writeShort (value : Z) : M B unit :=
  let! w := gets writerIndex in setShort w value ;! advanceWriter 2.
Definition writeMedium (value : Z) : M B unit :=
  let! w := gets writerIndex in setMedium w value ;! advanceWriter 3.
Definition writeInt (value : Z) : M B unit :=
  let! w := gets writerIndex in setInt w value ;! advanceWriter 4.
Definition writeLong (value : Z) : M B unit :=
  let! w := gets writerIndex in setLong w value ;! advanceWriter 8.

Definition writeBytesArray (src : Array.t) (srcIndex len : Z) : M B unit :=
  let! w := gets writerIndex in setBytes w src srcIndex len ;! advanceWriter len.
Definition writeBytesBuffer (src : Reader) (srcIndex len : Z) : M B unit :=
  let! w := gets writerIndex in setBytesFrom w src srcIndex len ;! advanceWriter len.

(** *** Text *)

Fixpoint toStringLoop (b : B) (index : Z) (n : nat) : result (list Z) :=
  match n with
  | O => Ok []
  | S n =>
      let? c := getByte b index in
      let? cs := toStringLoop b (i32 (index + 1)) n in
      Ok (c :: cs)
  end.

(** [toString(int, int, const Charset&)]; the reserve of a negative length
    throws. *)
Definition toStringAt (b : B) (index len : Z) : result (list Z) :=
  if len =? 0 then Ok []
  else if len <? 0 then Err LengthError
  else toStringLoop b index (Z.to_nat len).

Definition toString (b : B) : result (list Z) := toStringAt b (readerIndex b) (readableBytes b).

End Indexing.

(** ** Transfers between two buffers *)

Section Transfer.
Context {B : Type} `{RB : RawBuffer B} {D : Type} `{RD : RawBuffer D}.

(** [getBytes(int, ChannelBuffer&, int)]: the state is the destination. *)
Definition getBytesBufferLen (b : B) (index len : Z) : M D unit :=
  let! dst := gets id in
  throw_if (len >? writableBytes dst) RangeException ;!
  getBytesTo setBytes b index (writerIndex dst) len ;!
  let! dst := gets id in
  setWriterIndex (i32 (writerIndex dst + len)).

Definition getBytesBuffer (b : B) (index : Z) : M D unit :=
  let! dst := gets id in getBytesBufferLen b index (writableBytes dst).

(** [readBytes(ChannelBuffer&, int, int)]: the state is this buffer and the
    destination. *)
Definition readBytesBufferAt (dstIndex len : Z) : M (B * D) unit :=
  zoom fst (fun b s => (b, snd s)) (checkReadableBytes len) ;!
  let! s := gets id in
  zoom snd (fun d s => (fst s, d))
    (getBytesTo setBytes (fst s) (readerIndex (fst s)) dstIndex len) ;!
  zoom fst (fun b s => (b, snd s)) (advance len).

Definition readBytesBufferLen (len : Z) : M (B * D) unit :=
  let! s := gets id in
  throw_if (len >? writableBytes (snd s)) RangeException ;!
  readBytesBufferAt (writerIndex (snd s)) len ;!
  let! s := gets id in
  zoom snd (fun d s => (fst s, d)) (setWriterIndex (i32 (writerIndex (snd s) + len))).

Definition readBytesBuffer : M (B * D) unit :=
  let! s := gets id in readBytesBufferLen (writableBytes (snd s)).

(** [setBytes(int, ChannelBuffer&, int)]: the state is this buffer and the
    source. *)
Definition setBytesBufferLen (index len : Z) : M (B * D) unit :=
  let! s := gets id in
  throw_if (len >? readableBytes (snd s)) RangeException ;!
  zoom fst (fun b s => (b, snd s))
    (setBytesFrom index (getBytes (snd s)) (readerIndex (snd s)) len) ;!
  let! s := gets id in
  zoom snd (fun d s => (fst s, d)) (setReaderIndex (i32 (readerIndex (snd s) + len))).

Definition setBytesBuffer (index : Z) : M (B * D) unit :=
  let! s := gets id in setBytesBufferLen index (readableBytes (snd s)).

End Transfer.

(** ** Functions that call the virtual writes *)

Section Virtual.
Context {B : Type} `{WB : WriteBuffer B}.

Definition writeChar (value : Z) : M B unit := Buffer.writeShort value.
Definition writeFloat (value : Z) : M B unit := ret tt.
Definition writeDouble (value : Z) : M B unit := ret tt.

Definition writeBytesArrayAll (src : Array.t) : M B unit :=
  Buffer.writeBytesArray src 0 (Array.length src).
Definition writeBytesString (src : list Z) : M B unit :=
  Buffer.writeBytesArray (Array.fromString src) 0 (i32 (zlen src)).
Definition writeBytesStringAt (src : list Z) (srcIndex len : Z) : M B unit :=
  Buffer.writeBytesArray (Array.fromString src) srcIndex len.

Fixpoint repeatWrite (n : nat) (m : M B unit) : M B unit :=
  match n with
  | O => ret tt
  | S n => m ;! repeatWrite n m
  end.

Definition writeZero (len : Z) : M B unit :=
  if len =? 0 then ret tt
  else if len <? 0 then throw InvalidArgumentException
  else
    let nLong := Z.shiftr len 3 in
    let nBytes := Z.land len 7 in
    repeatWrite (Z.to_nat nLong) (Buffer.writeLong 0) ;!
    if nBytes =? 4 then Buffer.writeInt 0
    else if nBytes <? 4 then repeatWrite (Z.to_nat nBytes) (Buffer.writeByte 0)
    else
      Buffer.writeInt 0 ;!
      repeatWrite (Z.to_nat (nBytes - 4)) (Buffer.writeByte 0).

End Virtual.

(** [writeBytes(ChannelBuffer&, int)] and [writeBytes(ChannelBuffer&)]: the
    state is this buffer and the source. *)
Section WriteFrom.
Context {B : Type} `{WB : WriteBuffer B} {D : Type} `{RD : RawBuffer D}.

Definition writeBytesFromLen (len : Z) : M (B * D) unit :=
  let! s := gets id in
  throw_if (len >? readableBytes (snd s)) RangeException ;!
  zoom fst (fun b s => (b, snd s))
    (Buffer.writeBytesBuffer (getBytes (snd s)) (readerIndex (snd s)) len) ;!
  let! s := gets id in
  zoom snd (fun d s => (fst s, d)) (setReaderIndex (i32 (readerIndex (snd s) + len))).

Definition writeBytesFrom : M (B * D) unit :=
  let! s := gets id in writeBytesFromLen (readableBytes (snd s)).

End WriteFrom.

(** [readBytes(int)] and [readBytes()]: the bytes read, in a buffer of the
    factory. *)
Section ReadNew.
Context {B : Type} `{RB : RawBuffer B} {N : Type} `{WN : WriteBuffer N}
  `{F : !ChannelBufferFactory N}.

Definition readBytesLen (len : Z) : M B N :=
  if 0 =? len then ret EMPTY_BUFFER
  else
    checkReadableBytes len ;!
    let! b := gets id in
    let! buf := reads (fun _ => getBuffer (order b) len) in
    let! buf := reads (fun b =>
      match Buffer.writeBytesBuffer (getBytes b) (readerIndex b) len buf with
      | (Ok _, buf) => Ok buf
      | (Err e, _) => Err e
      end) in
    advance len ;!
    let! b := gets id in
    (if readerIndex b =? writerIndex b
     then upd (fun i => with_writerIdx 0 (with_readerIdx 0 i)) else ret tt) ;!
    ret buf.

Definition readBytes : M B N :=
  let! b := gets id in readBytesLen (readableBytes b).

End ReadNew.

(** [readSlice(int)] and [readSlice()]: a view of the bytes read. *)
Section ReadSlice.
Context {B V : Type} `{RB : RawBuffer B} {SB : SliceBuffer B V}.

Definition readSliceLen (len : Z) : M B V :=
  let! v := reads (fun b => slice b (readerIndex b) len) in advance len ;! ret v.

Definition readSlice : M B V :=
  let! b := gets id in
  let! v := readSliceLen (readableBytes b) in
  upd (fun i => with_readerIdx 0 (with_writerIdx 0 i)) ;! ret v.

End ReadSlice.

End AbstractChannelBuffer.
