(* ===== verification/BufferTheory.v ===== *)
(** * Buffers as queues of bytes

    The contract of [ChannelBuffer], for every class that satisfies [ReadSpec]
    and [WriteSpec]: the readable bytes form a queue, the reads take bytes from
    its front, the writes append bytes at its end, [discardReadBytes] keeps it.
    [wf] is the invariant of the class documentation,
    0 <= readerIndex <= writerIndex <= capacity. *)

From S2P Require Import Prelude MachineInt Buffer AbstractBuffer.
Import AbstractChannelBuffer.

(** ** The invariant and the queue *)

Section Queue.
Context {B : Type} {RB : RawBuffer B} {RS : ReadSpec B}.

Definition wf_indexes (b : B) : Prop :=
  0 <= readerIndex b <= writerIndex b /\ writerIndex b <= zlen (content b).

Definition wf (b : B) : Prop := valid b /\ wf_indexes b.

Definition queue (b : B) : list Z :=
  zsub (content b) (readerIndex b) (writerIndex b - readerIndex b).

(** The buffer after [k] bytes were read. *)
Definition consume (k : Z) (b : B) : B :=
  put_indexes (with_readerIdx (readerIndex b + k) (indexes b)) b.

Lemma content_max (b : B) : valid b -> zlen (content b) <= INT_MAX.
Proof. intros H. rewrite <- capacity_content by exact H. apply capacity_max, H. Qed.

Lemma zlen_queue b : wf b -> zlen (queue b) = writerIndex b - readerIndex b.
Proof. intros [Hv H]. unfold queue, wf_indexes in *. apply zlen_zsub; lia. Qed.

Lemma readableBytes_queue b : wf b -> readableBytes b = zlen (queue b).
Proof.
  intros H. rewrite zlen_queue by exact H. destruct H as [Hv [Hr Hw]].
  pose proof (content_max b Hv). unfold readableBytes. apply i32_id. solve_range.
Qed.

Lemma writableBytes_room b : wf b -> writableBytes b = zlen (content b) - writerIndex b.
Proof.
  intros [Hv [Hr Hw]]. pose proof (content_max b Hv).
  unfold writableBytes. rewrite capacity_content by exact Hv. apply i32_id. solve_range.
Qed.

Lemma readerIndex_put ix b : readerIndex (put_indexes ix b) = readerIdx ix.
Proof. unfold readerIndex. rewrite indexes_put. reflexivity. Qed.

Lemma writerIndex_put ix b : writerIndex (put_indexes ix b) = writerIdx ix.
Proof. unfold writerIndex. rewrite indexes_put. reflexivity. Qed.

Lemma wf_put ix b :
  valid b -> 0 <= readerIdx ix <= writerIdx ix -> writerIdx ix <= zlen (content b) ->
  wf (put_indexes ix b).
Proof.
  intros Hv H1 H2. split; [apply valid_put; exact Hv|].
  unfold wf_indexes. rewrite readerIndex_put, writerIndex_put, content_put. lia.
Qed.

Lemma consume_wf k b : wf b -> 0 <= k <= zlen (queue b) -> wf (consume k b).
Proof.
  intros H Hk. rewrite zlen_queue in Hk by exact H. destruct H as [Hv [Hr Hw]].
  apply wf_put; cbn; unfold readerIndex, writerIndex in *; try assumption; lia.
Qed.

Lemma consume_queue k b :
  wf b -> 0 <= k <= zlen (queue b) -> queue (consume k b) = drop (Z.to_nat k) (queue b).
Proof.
  intros H Hk. rewrite zlen_queue in Hk by exact H. destruct H as [Hv [Hr Hw]].
  unfold queue, consume. rewrite readerIndex_put, writerIndex_put, content_put.
  cbn. fold (readerIndex b) (writerIndex b). unfold zsub.
  rewrite skipn_firstn_comm, drop_drop. f_equal; [lia | f_equal; lia].
Qed.

Lemma consume_0 b : consume 0 b = b.
Proof.
  unfold consume, readerIndex. rewrite Z.add_0_r. transitivity (put_indexes (indexes b) b);
    [|apply put_same]. f_equal. destruct (indexes b). reflexivity.
Qed.

Lemma consume_consume j k b : consume k (consume j b) = consume (j + k) b.
Proof.
  unfold consume. rewrite put_put, readerIndex_put, indexes_put. cbn. rewrite Z.add_assoc. reflexivity.
Qed.

Lemma setReaderIndex_consume k b :
  wf b -> 0 <= k <= zlen (queue b) -> setReaderIndex (readerIndex b + k) b = (Ok tt, consume k b).
Proof.
  intros H Hk. rewrite zlen_queue in Hk by exact H. destruct H as [Hv [Hr Hw]].
  unfold setReaderIndex. mstep. zif. reflexivity.
Qed.

Lemma consume_order k b : order (consume k b) = order b.
Proof. apply order_put. Qed.

Lemma bytes_at_ok l i n : in_range (zlen l) i n -> bytes_at l i n = Ok (zsub l i n).
Proof. intros H. unfold bytes_at. rewrite decide_True by exact H. reflexivity. Qed.

Lemma bytes_at_err l i n : ~ in_range (zlen l) i n -> bytes_at l i n = Err RangeException.
Proof. intros H. unfold bytes_at. rewrite decide_False by exact H. reflexivity. Qed.

(** ** Reading *)

Lemma checkReadableBytes_spec n b :
  wf b -> checkReadableBytes n b =
    if zlen (queue b) <? n then (Err RangeException, b) else (Ok tt, b).
Proof.
  intros H. unfold checkReadableBytes. mstep.
  rewrite readableBytes_queue by exact H. destruct (_ <? _); reflexivity.
Qed.

Lemma advance_spec k b :
  wf b -> 0 <= k <= zlen (queue b) -> advance k b = (Ok tt, consume k b).
Proof.
  intros H Hk. rewrite zlen_queue in Hk by exact H. destruct H as [Hv [Hr Hw]].
  pose proof (content_max b Hv). unfold advance, upd, modify, consume.
  do 4 f_equal. fold (readerIndex b). apply i32_id. solve_range.
Qed.

(** The shape of [readShort] ... [readLong]: [k] bytes at the reader index,
    decoded by [f]. *)
Lemma read_spec (k : Z) (g : B -> Z -> result Z) (f : list Z -> Z) b :
  wf b -> 0 <= k ->
  (forall i, is_i32 i -> g b i = let? bs := bytes_at (content b) i k in Ok (f bs)) ->
  (checkReadableBytes k ;!
   let! v := reads (fun b => g b (readerIndex b)) in
   advance k ;! ret v) b
  = if zlen (queue b) <? k then (Err RangeException, b)
    else (Ok (f (zsub (queue b) 0 k)), consume k b).
Proof.
  intros H Hk Hg. pose proof H as [Hv [Hr Hw]]. pose proof (content_max b Hv) as Hm.
  destruct (zlen (queue b) <? k) eqn:E; zbool.
  - apply bind_err. rewrite checkReadableBytes_spec by exact H. zif. reflexivity.
  - erewrite bind_ok by (rewrite checkReadableBytes_spec by exact H; zif; reflexivity).
    mstep. rewrite Hg by solve_range. rewrite zlen_queue in E by exact H.
    rewrite bytes_at_ok by (unfold in_range; lia). cbn [rbind].
    erewrite bind_ok by (apply advance_spec; [exact H | rewrite zlen_queue by exact H; lia]).
    unfold ret. do 3 f_equal.
    unfold queue. rewrite zsub_zsub by lia. f_equal. lia.
Qed.

(** The value of the first [k] bytes of the queue. *)
Definition front (b : B) (k : Z) : Z := decode (order b) (zsub (queue b) 0 k).

Lemma readShort_spec b :
  wf b -> readShort b = if zlen (queue b) <? 2 then (Err RangeException, b)
                        else (Ok (i16 (front b 2)), consume 2 b).
Proof.
  intros H. apply (read_spec 2 getShort (fun bs => i16 (decode (order b) bs))); [exact H | lia |].
  intros i Hi. apply getShort_law; [apply H | exact Hi].
Qed.

Lemma readUnsignedMedium_spec b :
  wf b -> readUnsignedMedium b = if zlen (queue b) <? 3 then (Err RangeException, b)
                                 else (Ok (front b 3), consume 3 b).
Proof.
  intros H. apply (read_spec 3 getUnsignedMedium (decode (order b))); [exact H | lia |].
  intros i Hi. apply getUnsignedMedium_law; [apply H | exact Hi].
Qed.

Lemma readInt_spec b :
  wf b -> readInt b = if zlen (queue b) <? 4 then (Err RangeException, b)
                      else (Ok (i32 (front b 4)), consume 4 b).
Proof.
  intros H. apply (read_spec 4 getInt (fun bs => i32 (decode (order b) bs))); [exact H | lia |].
  intros i Hi. apply getInt_law; [apply H | exact Hi].
Qed.

Lemma readLong_spec b :
  wf b -> readLong b = if zlen (queue b) <? 8 then (Err RangeException, b)
                       else (Ok (i64 (front b 8)), consume 8 b).
Proof.
  intros H. apply (read_spec 8 getLong (fun bs => i64 (decode (order b) bs))); [exact H | lia |].
  intros i Hi. apply getLong_law; [apply H | exact Hi].
Qed.

Lemma readByte_spec b :
  wf b -> readByte b = if zlen (queue b) <? 1 then (Err RangeException, b)
                       else (Ok (i8 (front b 1)), consume 1 b).
Proof.
  intros H. pose proof H as [Hv [Hr Hw]]. pose proof (content_max b Hv) as Hm.
  pose proof (zlen_queue b H) as Hq. unfold readByte. mstep. unfold id.
  destruct (readerIndex b =? writerIndex b) eqn:E; zbool.
  - zif. reflexivity.
  - destruct (zlen (queue b) <? 1) eqn:E1; zbool; [lia|].
    erewrite bind_ok by (apply advance_spec; [exact H | lia]).
    unfold reads. f_equal.
    rewrite getByte_law by (first [apply valid_put; exact Hv | solve_range]).
    unfold consume. rewrite order_put, content_put. unfold signed_at.
    rewrite bytes_at_ok by (unfold in_range; lia). cbn [rbind]. do 2 f_equal.
    unfold front. f_equal. unfold queue. rewrite zsub_zsub by lia. f_equal. lia.
Qed.

Lemma skipBytes_spec n b :
  wf b -> 0 <= n <= INT_MAX - readerIndex b ->
  skipBytes n b = if zlen (queue b) <? n then (Err RangeException, b)
                  else (Ok tt, consume n b).
Proof.
  intros H Hn. pose proof (zlen_queue b H) as Hq. destruct H as [Hv [Hr Hw]].
  unfold skipBytes. mstep. unfold id.
  rewrite i32_id by solve_range.
  destruct (zlen (queue b) <? n) eqn:E; zbool; zif; reflexivity.
Qed.

End Queue.

Create HintDb buffers.
#[export] Hint Resolve consume_wf : buffers.

(** ** Writing *)

Section Append.
Context {B : Type} {RB : RawBuffer B} {RS : ReadSpec B}.

(** [b'] is [b] after [bs] was appended to its readable bytes. *)
Record appended (b : B) (bs : list Z) (b' : B) : Prop := MkAppended {
  appended_wf : wf b';
  appended_queue : queue b' = queue b ++ bs;
  appended_readerIndex : readerIndex b' = readerIndex b;
  appended_order : order b' = order b;
  appended_capacity : zlen (content b) <= zlen (content b');
}.

(** [b'] has the readable bytes, the indexes and the size of [b]. *)
Record kept (b b' : B) : Prop := MkKept {
  kept_wf : wf b';
  kept_queue : queue b' = queue b;
  kept_indexes : indexes b' = indexes b;
  kept_order : order b' = order b;
  kept_capacity : zlen (content b) <= zlen (content b');
}.

Lemma kept_refl b : wf b -> kept b b.
Proof. intros H. split; first [exact H | reflexivity]. Qed.

Lemma appended_writerIndex b bs b' :
  wf b -> appended b bs b' -> writerIndex b' = writerIndex b + zlen bs.
Proof.
  intros H [H' Hq Hr Ho Hc]. apply zlen_queue in H, H'.
  rewrite Hq, zlen_app in H'. lia.
Qed.

Lemma appended_app b bs1 b1 bs2 b2 :
  appended b bs1 b1 -> appended b1 bs2 b2 -> appended b (bs1 ++ bs2) b2.
Proof.
  intros [] []. split; [assumption | | congruence | congruence | lia].
  rewrite app_assoc. congruence.
Qed.

Lemma kept_appended b b1 bs b2 : kept b b1 -> appended b1 bs b2 -> appended b bs b2.
Proof.
  intros [] []. split; [assumption | congruence | | congruence | lia].
  unfold readerIndex in *. congruence.
Qed.

Lemma kept_writerIndex b b' : kept b b' -> writerIndex b' = writerIndex b.
Proof. intros []. unfold writerIndex. congruence. Qed.

Lemma appended_nil b b' : kept b b' -> appended b [] b'.
Proof.
  intros []. split; rewrite ?app_nil_r; try assumption. unfold readerIndex. congruence.
Qed.

Lemma zsub_app_overwrite (l : list Z) r w bs :
  0 <= r <= w -> w + zlen bs <= zlen l ->
  zsub (overwrite l w bs) r (w + zlen bs - r) = zsub l r (w - r) ++ bs.
Proof.
  intros Hr Hw. pose proof (zlen_nonneg bs).
  replace (w + zlen bs - r) with ((w - r) + zlen bs) by lia.
  rewrite zsub_split by lia. replace (r + (w - r)) with w by lia.
  rewrite zsub_overwrite_same by lia. f_equal. apply zsub_overwrite_before; lia.
Qed.

(** The buffer after [bs] was stored at its writer index and the index moved. *)
Lemma advanceWriter_appended b bs b' :
  wf b -> writerIndex b + zlen bs <= zlen (content b) ->
  updated b (overwrite (content b) (writerIndex b) bs) b' ->
  exists b'', advanceWriter (zlen bs) b' = (Ok tt, b'') /\ appended b bs b''.
Proof.
  intros [Hv [Hr Hw]] Hn [Hv' Hc' Hi' Ho'].
  pose proof (content_max b Hv). pose proof (zlen_nonneg bs).
  assert (i32 (writerIdx (indexes b') + zlen bs) = writerIndex b + zlen bs) as E.
  { rewrite Hi'. apply i32_id. unfold writerIndex in *. solve_range. }
  eexists. split; [reflexivity|].
  unfold upd, modify. rewrite E, Hi'.
  assert (zlen (content b') = zlen (content b)) as Hl by (rewrite Hc'; apply zlen_overwrite; lia).
  split.
  - apply wf_put; [exact Hv'| |]; cbn; rewrite ?Hl; unfold readerIndex in *; lia.
  - unfold queue. rewrite readerIndex_put, writerIndex_put, content_put. cbn.
    rewrite Hc'. apply zsub_app_overwrite; lia.
  - rewrite readerIndex_put. reflexivity.
  - rewrite order_put. exact Ho'.
  - rewrite content_put, Hl. lia.
Qed.

(** A store before which the code changed nothing leaves the readable bytes
    alone. *)
Lemma updated_kept b l b' :
  wf b -> updated b l b' -> zlen l = zlen (content b) ->
  take (Z.to_nat (writerIndex b)) l = take (Z.to_nat (writerIndex b)) (content b) ->
  kept b b'.
Proof.
  intros [Hv [Hr Hw]] [Hv' Hc' Hi' Ho'] Hl Ht. split; try assumption.
  - split; [exact Hv'|]. unfold wf_indexes, readerIndex, writerIndex in *. rewrite Hi', Hc', Hl. lia.
  - unfold queue, readerIndex, writerIndex in *. rewrite Hi', Hc'.
    assert (forall k : list Z, zsub k (readerIdx (indexes b)) (writerIdx (indexes b) - readerIdx (indexes b))
      = drop (Z.to_nat (readerIdx (indexes b))) (take (Z.to_nat (writerIdx (indexes b))) k)) as E.
    { intros k. unfold zsub. rewrite skipn_firstn_comm. f_equal. lia. }
    rewrite !E, Ht. reflexivity.
  - rewrite Hc', Hl. lia.
Qed.

(** The shape of [writeShort] ... [writeLong]. *)
Lemma write_spec (k : Z) (set : Z -> M B unit) bs b :
  wf b -> zlen bs = k -> stores (set (writerIndex b)) b (writerIndex b) bs ->
  (writerIndex b + k <= zlen (content b) ->
    exists b', (let! w := gets writerIndex in set w ;! advanceWriter k) b = (Ok tt, b') /\
      appended b bs b') /\
  (zlen (content b) < writerIndex b + k ->
    exists b', (let! w := gets writerIndex in set w ;! advanceWriter k) b = (Err RangeException, b') /\
      kept b b').
Proof.
  intros H <- [Hok Herr]. pose proof H as [Hv [Hr Hw]]. pose proof (zlen_nonneg bs). mstep. split.
  - intros Hn. destruct Hok as (b' & E & Hu); [unfold in_range; lia|].
    destruct (advanceWriter_appended b bs b' H Hn Hu) as (b'' & E' & Ha).
    exists b''. split; [|exact Ha]. rewrite (bind_ok _ _ _ _ _ E). exact E'.
  - intros Hn. destruct Herr as (b' & l & E & Hu & Hl & Ht & _); [unfold in_range; lia|].
    exists b'. split; [apply bind_err, E | exact (updated_kept b l b' H Hu Hl Ht)].
Qed.

End Append.

(** ** The queue contract

    What the other components may assume of a buffer they write to:
    [limit b] is the largest writer index the buffer can reach. *)
Class QueueSpec (B : Type) `{RS : ReadSpec B} {WB : WriteBuffer B} := {
  limit : B -> Z;
  limit_capacity b : wf b -> zlen (content b) <= limit b;
  limit_mono b b' : zlen (content b) <= zlen (content b') -> limit b <= limit b';
  ensureWritableBytes_queue b n :
    wf b -> 0 <= n -> writerIndex b + n <= limit b ->
    exists b', Buffer.ensureWritableBytes n b = (Ok tt, b') /\ kept b b';
  writeByte_queue b v : wf b -> writerIndex b + 1 <= limit b ->
    exists b', Buffer.writeByte v b = (Ok tt, b') /\ appended b [i8 v] b';
  writeShort_queue b v : wf b -> writerIndex b + 2 <= limit b ->
    exists b', Buffer.writeShort v b = (Ok tt, b') /\ appended b (encode (order b) 2 v) b';
  writeMedium_queue b v : wf b -> writerIndex b + 3 <= limit b ->
    exists b', Buffer.writeMedium v b = (Ok tt, b') /\ appended b (encode (order b) 3 v) b';
  writeInt_queue b v : wf b -> writerIndex b + 4 <= limit b ->
    exists b', Buffer.writeInt v b = (Ok tt, b') /\ appended b (encode (order b) 4 v) b';
  writeLong_queue b v : wf b -> writerIndex b + 8 <= limit b ->
    exists b', Buffer.writeLong v b = (Ok tt, b') /\ appended b (encode (order b) 8 v) b';
  writeBytesArray_queue b s si n :
    wf b -> Forall is_i8 s -> zlen s <= INT_MAX -> in_range (zlen s) si n ->
    writerIndex b + n <= limit b ->
    exists b', Buffer.writeBytesArray (Array.Data s) si n b = (Ok tt, b') /\
      appended b (zsub s si n) b';
  writeBytesBuffer_queue b rd s si n :
    wf b -> Forall is_i8 s -> reader_of s rd -> in_range (zlen s) si n ->
    writerIndex b + n <= limit b ->
    exists b', Buffer.writeBytesBuffer rd si n b = (Ok tt, b') /\ appended b (zsub s si n) b';
  discardReadBytes_queue b : wf b ->
    exists b', Buffer.discardReadBytes b = (Ok tt, b') /\ wf b' /\ queue b' = queue b /\
      readerIndex b' = 0 /\ order b' = order b /\ limit b <= limit b';
}.

(** What a factory promises: a fresh, empty buffer of the size asked for. *)
Class FactorySpec (N : Type) `{QS : QueueSpec N} {F : ChannelBufferFactory N} := {
  getBuffer_fresh o n : 0 < n <= INT_MAX ->
    exists b, getBuffer o n = Ok b /\ wf b /\ queue b = [] /\ readerIndex b = 0 /\
      order b = o /\ zlen (content b) = n;
  getBuffer_zero o :
    exists b, getBuffer o 0 = Ok b /\ wf b /\ queue b = [] /\ readerIndex b = 0 /\ content b = [];
  EMPTY_BUFFER_empty : wf EMPTY_BUFFER /\ queue EMPTY_BUFFER = [];
}.

(** What [getBytes(int, ChannelBuffer&, int, int)] promises: the bytes are in
    the destination. *)
Class TransferSpec (B : Type) `{RS : ReadSpec B} := {
  getBytesTo_law (D : Type) {RD : RawBuffer D} {RSD : ReadSpec D} {WSD : WriteSpec D}
    (b : B) (d : D) i di n :
    valid b -> valid d -> in_range (zlen (content b)) i n -> in_range (zlen (content d)) di n ->
    exists d', getBytesTo setBytes b i di n d = (Ok tt, d') /\
      updated d (overwrite (content d) di (zsub (content b) i n)) d';
}.

(** What [copy] promises. *)
Class CopySpec (B N : Type) `{RSB : ReadSpec B} `{RSN : ReadSpec N} {CB : CopyBuffer B N} := {
  copy_law b i n : valid b -> is_i32 i -> is_i32 n -> is_i32 (i + n) ->
    (in_range (zlen (content b)) i n ->
      exists c, copy b i n = Ok c /\ wf c /\ readerIndex c = 0 /\ queue c = zsub (content b) i n /\
        content c = zsub (content b) i n /\ order c = order b) /\
    (~ in_range (zlen (content b)) i n -> copy b i n = Err RangeException);
}.

Lemma limit_appended `{QS : QueueSpec B} b bs b' : appended b bs b' -> limit b <= limit b'.
Proof. intros []. apply limit_mono. assumption. Qed.

(** ** Programs that write *)

Section Writes.
Context {B : Type} {RB : RawBuffer B} {RS : ReadSpec B} {WB : WriteBuffer B} {QB : QueueSpec B}.

(** [m] appends [bs] to a buffer that has room for them. *)
Definition writes (m : M B unit) (bs : list Z) : Prop := forall b : B,
  wf b -> writerIndex b + zlen bs <= limit b -> exists b', m b = (Ok tt, b') /\ appended b bs b'.

Lemma writes_byte v : writes (Buffer.writeByte v) [i8 v].
Proof. intros b H Hl. apply writeByte_queue; assumption. Qed.

Lemma writes_seq m1 bs1 m2 bs2 : writes m1 bs1 -> writes m2 bs2 -> writes (m1 ;! m2) (bs1 ++ bs2).
Proof.
  intros H1 H2 b H Hl. rewrite zlen_app in Hl. pose proof (zlen_nonneg bs2).
  destruct (H1 b H) as (b1 & E1 & A1); [lia|].
  pose proof (appended_writerIndex _ _ _ H A1). pose proof (limit_appended _ _ _ A1).
  destruct (H2 b1 (appended_wf _ _ _ A1)) as (b2 & E2 & A2); [lia|].
  exists b2. rewrite (bind_ok _ _ _ _ _ E1). split; [exact E2 | apply (appended_app _ _ _ _ _ A1 A2)].
Qed.

Lemma writes_nothing : writes (ret tt) [].
Proof. intros b H _. exists b. split; [reflexivity | apply appended_nil, kept_refl, H]. Qed.

Lemma writes_data {D} {RD : RawBuffer D} {RSD : ReadSpec D} (data : D) : wf data ->
  writes (Buffer.writeBytesBuffer (Buffer.getBytes data) (readerIndex data)
    (readableBytes data)) (queue data).
Proof.
  intros Hd b H Hl. pose proof (zlen_queue data Hd) as Hz. rewrite readableBytes_queue by exact Hd.
  pose proof Hd as [Hv [Hr Hw]].
  destruct (writeBytesBuffer_queue b (Buffer.getBytes data) (content data) (readerIndex data) (zlen (queue data)) H)
    as (b' & E & A); [apply content_i8, Hv | apply getBytes_law, Hv | unfold in_range; lia | exact Hl |].
  exists b'. split; [exact E|]. rewrite Hz in A. exact A.
Qed.
End Writes.

(** ** The defaults of AbstractChannelBuffer implement it *)

(** A class that overrides none of the virtual writes. *)
Definition abstractWriteBuffer (B : Type) {RB : RawBuffer B} : WriteBuffer B := {|
  Buffer.ensureWritableBytes := AbstractChannelBuffer.ensureWritableBytes;
  Buffer.writeByte := AbstractChannelBuffer.writeByte;
  Buffer.writeShort := AbstractChannelBuffer.writeShort;
  Buffer.writeMedium := AbstractChannelBuffer.writeMedium;
  Buffer.writeInt := AbstractChannelBuffer.writeInt;
  Buffer.writeLong := AbstractChannelBuffer.writeLong;
  Buffer.writeBytesArray := AbstractChannelBuffer.writeBytesArray;
  Buffer.writeBytesBuffer := AbstractChannelBuffer.writeBytesBuffer;
  Buffer.discardReadBytes := AbstractChannelBuffer.discardReadBytes;
|}.

Section Defaults.
Context {B : Type} {RB : RawBuffer B} {RS : ReadSpec B} {WS : WriteSpec B}.

Lemma writerIndex_i32 b : wf b -> is_i32 (writerIndex b).
Proof. intros [Hv [Hr Hw]]. pose proof (content_max b Hv). solve_range. Qed.

(** [write_spec] at a store of the class. *)
Ltac use_write_spec H law :=
  apply write_spec; [exact H | rewrite ?zlen_encode; reflexivity |
    apply law; [apply H | apply writerIndex_i32, H]].

Lemma writeShort_default b v : wf b ->
  (writerIndex b + 2 <= zlen (content b) ->
    exists b', writeShort v b = (Ok tt, b') /\ appended b (encode (order b) 2 v) b') /\
  (zlen (content b) < writerIndex b + 2 ->
    exists b', writeShort v b = (Err RangeException, b') /\ kept b b').
Proof. intros H. use_write_spec H (setShort_law b (writerIndex b) v). Qed.

Lemma writeMedium_default b v : wf b ->
  (writerIndex b + 3 <= zlen (content b) ->
    exists b', writeMedium v b = (Ok tt, b') /\ appended b (encode (order b) 3 v) b') /\
  (zlen (content b) < writerIndex b + 3 ->
    exists b', writeMedium v b = (Err RangeException, b') /\ kept b b').
Proof. intros H. use_write_spec H (setMedium_law b (writerIndex b) v). Qed.

Lemma writeInt_default b v : wf b ->
  (writerIndex b + 4 <= zlen (content b) ->
    exists b', writeInt v b = (Ok tt, b') /\ appended b (encode (order b) 4 v) b') /\
  (zlen (content b) < writerIndex b + 4 ->
    exists b', writeInt v b = (Err RangeException, b') /\ kept b b').
Proof. intros H. use_write_spec H (setInt_law b (writerIndex b) v). Qed.

Lemma writeLong_default b v : wf b ->
  (writerIndex b + 8 <= zlen (content b) ->
    exists b', writeLong v b = (Ok tt, b') /\ appended b (encode (order b) 8 v) b') /\
  (zlen (content b) < writerIndex b + 8 ->
    exists b', writeLong v b = (Err RangeException, b') /\ kept b b').
Proof. intros H. use_write_spec H (setLong_law b (writerIndex b) v). Qed.

Lemma writeBytesArray_default b s si n :
  wf b -> Forall is_i8 s -> zlen s <= INT_MAX -> in_range (zlen s) si n ->
  writerIndex b + n <= zlen (content b) ->
  exists b', writeBytesArray (Array.Data s) si n b = (Ok tt, b') /\ appended b (zsub s si n) b'.
Proof.
  intros H Hs Hm Hr Hn. pose proof H as [Hv [Hr' Hw]]. pose proof Hr as (H1 & H2 & H3).
  destruct (setBytes_law b (writerIndex b) s si n Hv Hs Hm) as (b' & E & Hu);
    [unfold in_range; lia | exact Hr |].
  assert (zlen (zsub s si n) = n) as Hl by (apply zlen_zsub; lia).
  destruct (advanceWriter_appended b (zsub s si n) b' H) as (b'' & E' & Ha); [lia | exact Hu |].
  exists b''. split; [|exact Ha]. unfold writeBytesArray. mstep.
  rewrite (bind_ok _ _ _ _ _ E). rewrite Hl in E'. exact E'.
Qed.

Lemma writeBytesBuffer_default b rd s si n :
  wf b -> Forall is_i8 s -> reader_of s rd -> in_range (zlen s) si n ->
  writerIndex b + n <= zlen (content b) ->
  exists b', writeBytesBuffer rd si n b = (Ok tt, b') /\ appended b (zsub s si n) b'.
Proof.
  intros H Hs Hrd Hr Hn. pose proof H as [Hv [Hr' Hw]]. pose proof Hr as (H1 & H2 & H3).
  destruct (setBytesFrom_law b (writerIndex b) rd s si n Hv Hs Hrd) as (b' & E & Hu);
    [unfold in_range; lia | exact Hr |].
  assert (zlen (zsub s si n) = n) as Hl by (apply zlen_zsub; lia).
  destruct (advanceWriter_appended b (zsub s si n) b' H) as (b'' & E' & Ha); [lia | exact Hu |].
  exists b''. split; [|exact Ha]. unfold writeBytesBuffer. mstep.
  rewrite (bind_ok _ _ _ _ _ E). rewrite Hl in E'. exact E'.
Qed.

(** [writeByte] moves the writer index before the store: when there is room it
    appends, ... *)
Lemma writeByte_default b v : wf b -> writerIndex b + 1 <= zlen (content b) ->
  exists b', writeByte v b = (Ok tt, b') /\ appended b [i8 v] b'.
Proof.
  intros H Hn. pose proof H as [Hv [Hr Hw]]. pose proof (content_max b Hv) as Hm.
  assert (i32 (writerIndex b + 1) = writerIndex b + 1) as E1 by (apply i32_id; solve_range).
  unfold writeByte, advanceWriter, upd. mstep.
  fold (writerIndex b). rewrite E1.
  set (b1 := put_indexes (with_writerIdx (writerIndex b + 1) (indexes b)) b).
  assert (valid b1) as Hv1 by (apply valid_put, Hv).
  assert (content b1 = content b) as Hc1 by apply content_put.
  destruct (setByte_law b1 (writerIndex b) v Hv1) as [Hok _]; [apply writerIndex_i32, H|].
  destruct Hok as (b' & E & [Hv' Hc' Hi' Ho']).
  { unfold in_range. rewrite Hc1, zlen_1. lia. }
  exists b'. split; [exact E|]. rewrite Hc1 in Hc'.
  unfold b1 in Hi', Ho'. rewrite indexes_put in Hi'. rewrite order_put in Ho'.
  assert (zlen (content b') = zlen (content b)) as Hl.
  { rewrite Hc'. apply zlen_overwrite; rewrite ?zlen_1; lia. }
  assert (readerIndex b' = readerIndex b /\ writerIndex b' = writerIndex b + 1) as [Er Ew].
  { unfold readerIndex, writerIndex in *. rewrite Hi'. split; reflexivity. }
  split; [| | exact Er | exact Ho' | lia].
  - split; [exact Hv'|]. unfold wf_indexes. rewrite Er, Ew, Hl. lia.
  - unfold queue. rewrite Er, Ew, Hc'.
    apply (zsub_app_overwrite _ _ _ [i8 v]); rewrite ?zlen_1; lia.
Qed.

(** ... and on a full buffer it throws and leaves the writer index beyond the
    capacity. *)
Lemma writeByte_full b v : wf b -> writerIndex b = zlen (content b) -> zlen (content b) < INT_MAX ->
  exists b', writeByte v b = (Err RangeException, b') /\ writerIndex b' = zlen (content b) + 1 /\
    zlen (content b') = zlen (content b).
Proof.
  intros H Hn Hm. pose proof H as [Hv [Hr Hw]].
  assert (i32 (writerIndex b + 1) = writerIndex b + 1) as E1 by (apply i32_id; solve_range).
  unfold writeByte, advanceWriter, upd. mstep.
  fold (writerIndex b). rewrite E1.
  set (b1 := put_indexes (with_writerIdx (writerIndex b + 1) (indexes b)) b).
  assert (valid b1) as Hv1 by (apply valid_put, Hv).
  assert (content b1 = content b) as Hc1 by apply content_put.
  destruct (setByte_law b1 (writerIndex b) v Hv1) as [_ Herr]; [apply writerIndex_i32, H|].
  destruct Herr as (b' & l & E & [Hv' Hc' Hi' Ho'] & Hl & Ht & _).
  { unfold in_range. rewrite Hc1, zlen_1. lia. }
  exists b'. split; [exact E|]. unfold writerIndex at 1.
  rewrite Hi', Hc', Hl, Hc1. unfold b1. rewrite indexes_put. cbn. lia.
Qed.

Lemma discardReadBytes_default b : wf b ->
  exists b', discardReadBytes b = (Ok tt, b') /\ wf b' /\ queue b' = queue b /\
    readerIndex b' = 0 /\ order b' = order b /\ zlen (content b') = zlen (content b).
Proof.
  intros H. pose proof H as [Hv [Hr Hw]]. pose proof (content_max b Hv) as Hm.
  unfold discardReadBytes. mstep. unfold id.
  destruct (readerIndex b =? 0) eqn:E0; zbool; [exists b; split; [reflexivity | auto 7]|].
  destruct (readerIndex b =? writerIndex b) eqn:E1; zbool.
  - eexists. split; [reflexivity|]. split; [apply wf_put; cbn; [exact Hv | lia ..]|].
    unfold queue. rewrite readerIndex_put, writerIndex_put, order_put, content_put. cbn.
    repeat split. unfold zsub. rewrite E1, !Z.sub_diag. reflexivity.
  - rewrite (i32_id (writerIndex b - readerIndex b)) by solve_range.
    destruct (setBytesFrom_law b 0 (getBytes b) (content b) (readerIndex b)
      (writerIndex b - readerIndex b) Hv (content_i8 b Hv) (getBytes_law b Hv))
      as (b' & E & [Hv' Hc' Hi' Ho']); [unfold in_range; lia .. |].
    eexists. rewrite (bind_ok _ _ _ _ _ E). split; [reflexivity|].
    fold (queue b) in Hc'. pose proof (zlen_queue b H) as Hq.
    assert (zlen (content b') = zlen (content b)) as Hl.
    { rewrite Hc'. apply zlen_overwrite; lia. }
    rewrite Hi'. fold (readerIndex b) (writerIndex b).
    rewrite (i32_id (writerIndex b - readerIndex b)) by solve_range.
    split; [apply wf_put; cbn; [exact Hv' | lia ..]|].
    unfold queue at 1. rewrite readerIndex_put, writerIndex_put, order_put, content_put.
    cbn [readerIdx writerIdx]. rewrite Hc', Z.sub_0_r, <- Hq.
    repeat split; [apply zsub_overwrite_same; lia | exact Ho' | rewrite <- Hc'; exact Hl].
Qed.

Lemma ensureWritableBytes_default b n : wf b ->
  ensureWritableBytes n b =
    if zlen (content b) - writerIndex b <? n then (Err RangeException, b) else (Ok tt, b).
Proof.
  intros H. unfold ensureWritableBytes. mstep. unfold id.
  rewrite writableBytes_room, Z.gtb_ltb by exact H. destruct (_ <? n); reflexivity.
Qed.

(** A fixed-size buffer is a queue limited by its capacity. *)
#[export] Instance abstract_QueueSpec : QueueSpec B (WB := abstractWriteBuffer B).
Proof.
  unshelve refine {| limit b := zlen (content b) |}; try exact RS; cbn.
  - intros. reflexivity.
  - intros b b' Hc. exact Hc.
  - intros b n H Hn Hl. exists b. split; [|apply kept_refl, H].
    etransitivity; [apply ensureWritableBytes_default, H|]. zif. reflexivity.
  - intros b v H Hn. apply writeByte_default; assumption.
  - intros b v H Hn. apply writeShort_default; assumption.
  - intros b v H Hn. apply writeMedium_default; assumption.
  - intros b v H Hn. apply writeInt_default; assumption.
  - intros b v H Hn. apply writeLong_default; assumption.
  - intros b s si n H Hs Hm Hr Hn. apply writeBytesArray_default; assumption.
  - intros b rd s si n H Hs Hrd Hr Hn. apply writeBytesBuffer_default; assumption.
  - intros b H. destruct (discardReadBytes_default b H) as (b' & ?). exists b'. intuition lia.
Defined.

End Defaults.
