(* ===== verification/MixedBuffer.v ===== *)
(** * Buffers of two classes

    A [ChannelBufferPtr] may point to a buffer of any class; its virtual functions are
    those of the class.  A buffer of one of two classes is a sum, whose operations are
    those of the side it is on; sums of sums are buffers of several classes.  What both
    classes promise, the sum promises: what is proved of composite buffers over one
    class of components holds of components of several. *)

From S2P Require Import Prelude MachineInt Buffer.

Section Mixed.
Context {A B : Type}.

(** An operation of the class of the buffer. *)
Definition on_either {R} (f : M A R) (g : M B R) : M (A + B) R := fun s =>
  match s with
  | inl a => let '(r, a) := f a in (r, inl a)
  | inr b => let '(r, b) := g b in (r, inr b)
  end.

Definition either {R} (f : A -> R) (g : B -> R) (s : A + B) : R := match s with inl a => f a | inr b => g b end.

Context {RA : RawBuffer A} {RB : RawBuffer B}.

#[global] Instance MixedRaw : RawBuffer (A + B) := {|
  order := either order order;
  capacity := either capacity capacity;
  indexes := either indexes indexes;
  put_indexes ix s := match s with inl a => inl (put_indexes ix a) | inr b => inr (put_indexes ix b) end;
  getByte := either getByte getByte;
  getShort := either getShort getShort;
  getUnsignedMedium := either getUnsignedMedium getUnsignedMedium;
  getInt := either getInt getInt;
  getLong := either getLong getLong;
  getBytes := either getBytes getBytes;
  getBytesTo D w s := match s with inl a => getBytesTo w a | inr b => getBytesTo w b end;
  setByte i v := on_either (setByte i v) (setByte i v);
  setShort i v := on_either (setShort i v) (setShort i v);
  setMedium i v := on_either (setMedium i v) (setMedium i v);
  setInt i v := on_either (setInt i v) (setInt i v);
  setLong i v := on_either (setLong i v) (setLong i v);
  setBytes i arry si n := on_either (setBytes i arry si n) (setBytes i arry si n);
  setBytesFrom i rd si n := on_either (setBytesFrom i rd si n) (setBytesFrom i rd si n);
|}.

Context {RSA : ReadSpec A} {RSB : ReadSpec B}.

#[global] Instance MixedReadSpec : ReadSpec (A + B).
Proof.
  refine {| valid := either valid valid; content := either content content |}.
  - intros [a|b]; [exact (content_i8 a) | exact (content_i8 b)].
  - intros [a|b]; [exact (capacity_content a) | exact (capacity_content b)].
  - intros [a|b]; [exact (capacity_max a) | exact (capacity_max b)].
  - intros ix [a|b]; [exact (valid_put ix a) | exact (valid_put ix b)].
  - intros ix [a|b]; [exact (content_put ix a) | exact (content_put ix b)].
  - intros ix [a|b]; [exact (order_put ix a) | exact (order_put ix b)].
  - intros ix [a|b]; [exact (indexes_put ix a) | exact (indexes_put ix b)].
  - intros [a|b]; cbn; f_equal; apply put_same.
  - intros ix ix' [a|b]; cbn; f_equal; apply put_put.
  - intros [a|b]; [exact (getByte_law a) | exact (getByte_law b)].
  - intros [a|b]; [exact (getShort_law a) | exact (getShort_law b)].
  - intros [a|b]; [exact (getUnsignedMedium_law a) | exact (getUnsignedMedium_law b)].
  - intros [a|b]; [exact (getInt_law a) | exact (getInt_law b)].
  - intros [a|b]; [exact (getLong_law a) | exact (getLong_law b)].
  - intros [a|b]; [exact (getBytes_law a) | exact (getBytes_law b)].
Defined.

Lemma updated_inl (a a' : A) l : updated a l a' -> updated (inl a : A + B) l (inl a').
Proof. intros []. constructor; assumption. Qed.
Lemma updated_inr (b b' : B) l : updated b l b' -> updated (inr b : A + B) l (inr b').
Proof. intros []. constructor; assumption. Qed.

Lemma stores_inl (f : M A unit) (g : M B unit) a i bs : stores f a i bs -> stores (on_either f g) (inl a) i bs.
Proof.
  intros [H1 H2]. split.
  - intros Hi. destruct (H1 Hi) as (a' & E & U). exists (inl a'). cbn. rewrite E. split; [reflexivity | apply updated_inl, U].
  - intros Hi. destruct (H2 Hi) as (a' & l & E & U & H). exists (inl a'), l. cbn. rewrite E.
    split; [reflexivity|]. split; [apply updated_inl, U | exact H].
Qed.
Lemma stores_inr (f : M A unit) (g : M B unit) b i bs : stores g b i bs -> stores (on_either f g) (inr b) i bs.
Proof.
  intros [H1 H2]. split.
  - intros Hi. destruct (H1 Hi) as (b' & E & U). exists (inr b'). cbn. rewrite E. split; [reflexivity | apply updated_inr, U].
  - intros Hi. destruct (H2 Hi) as (b' & l & E & U & H). exists (inr b'), l. cbn. rewrite E.
    split; [reflexivity|]. split; [apply updated_inr, U | exact H].
Qed.

Context {WSA : WriteSpec A} {WSB : WriteSpec B}.

#[global] Instance MixedWriteSpec : WriteSpec (A + B).
Proof.
  constructor.
  - intros [a|b] i v Hv Hi; [apply stores_inl, (setByte_law a) | apply stores_inr, (setByte_law b)]; assumption.
  - intros [a|b] i v Hv Hi; [apply stores_inl, (setShort_law a) | apply stores_inr, (setShort_law b)]; assumption.
  - intros [a|b] i v Hv Hi; [apply stores_inl, (setMedium_law a) | apply stores_inr, (setMedium_law b)]; assumption.
  - intros [a|b] i v Hv Hi; [apply stores_inl, (setInt_law a) | apply stores_inr, (setInt_law b)]; assumption.
  - intros [a|b] i v Hv Hi; [apply stores_inl, (setLong_law a) | apply stores_inr, (setLong_law b)]; assumption.
  - intros [a|b] i s si n Hv Hs Hm H1 H2.
    + destruct (setBytes_law a i s si n Hv Hs Hm H1 H2) as (a' & E & U). exists (inl a'). cbn. rewrite E. split; [reflexivity | apply updated_inl, U].
    + destruct (setBytes_law b i s si n Hv Hs Hm H1 H2) as (b' & E & U). exists (inr b'). cbn. rewrite E. split; [reflexivity | apply updated_inr, U].
  - intros [a|b] i rd s si n Hv Hs Hr H1 H2.
    + destruct (setBytesFrom_law a i rd s si n Hv Hs Hr H1 H2) as (a' & E & U). exists (inl a'). cbn. rewrite E. split; [reflexivity | apply updated_inl, U].
    + destruct (setBytesFrom_law b i rd s si n Hv Hs Hr H1 H2) as (b' & E & U). exists (inr b'). cbn. rewrite E. split; [reflexivity | apply updated_inr, U].
Qed.
End Mixed.
