(* ===== verification/HeapBuffer.v ===== *)
(** * Heap buffers

    [src/src/cetty/buffer/HeapChannelBuffer.cpp],
    [BigEndianHeapChannelBuffer.cpp], [LittleEndianHeapChannelBuffer.cpp], and
    the heap part of [ChannelBuffers.cpp] and [HeapChannelBufferFactory.cpp].
    The two concrete classes differ in the virtual functions of their byte
    order only: [class] tells which one an object belongs to. *)

From S2P Require Import Prelude MachineInt Buffer AbstractBuffer BufferTheory.

(** ** The byte order classes over the array they wrap *)

Module BigEndianHeapChannelBuffer.

Definition getShort (arry : Array.t) (index : Z) : result Z :=
  let? b0 := Array.at_index arry index in
  let? b1 := Array.at_index arry (i32 (index + 1)) in
  Ok (i16 (Z.lor (Z.shiftl b0 8) (Z.land b1 0xFF))).

Definition getUnsignedMedium (arry : Array.t) (index : Z) : result Z :=
  let? b0 := Array.at_index arry index in
  let? b1 := Array.at_index arry (i32 (index + 1)) in
  let? b2 := Array.at_index arry (i32 (index + 2)) in
  Ok (Z.lor (Z.lor (Z.shiftl (Z.land b0 0xff) 16) (Z.shiftl (Z.land b1 0xff) 8))
            (Z.shiftl (Z.land b2 0xff) 0)).

Definition getInt (arry : Array.t) (index : Z) : result Z :=
  let? b0 := Array.at_index arry index in
  let? b1 := Array.at_index arry (i32 (index + 1)) in
  let? b2 := Array.at_index arry (i32 (index + 2)) in
  let? b3 := Array.at_index arry (i32 (index + 3)) in
  Ok (i32 (Z.lor (Z.lor (Z.lor (Z.shiftl (Z.land b0 0xff) 24) (Z.shiftl (Z.land b1 0xff) 16))
                        (Z.shiftl (Z.land b2 0xff) 8))
                 (Z.shiftl (Z.land b3 0xff) 0))).

Definition getLong (arry : Array.t) (index : Z) : result Z :=
  let? b0 := Array.at_index arry index in
  let? b1 := Array.at_index arry (i32 (index + 1)) in
  let? b2 := Array.at_index arry (i32 (index + 2)) in
  let? b3 := Array.at_index arry (i32 (index + 3)) in
  let? b4 := Array.at_index arry (i32 (index + 4)) in
  let? b5 := Array.at_index arry (i32 (index + 5)) in
  let? b6 := Array.at_index arry (i32 (index + 6)) in
  let? b7 := Array.at_index arry (i32 (index + 7)) in
  Ok (i64
    (Z.lor (Z.lor (Z.lor (Z.lor (Z.lor (Z.lor (Z.lor
      (Z.shiftl (Z.land b0 0xff) 56) (Z.shiftl (Z.land b1 0xff) 48))
      (Z.shiftl (Z.land b2 0xff) 40)) (Z.shiftl (Z.land b3 0xff) 32))
      (Z.shiftl (Z.land b4 0xff) 24)) (Z.shiftl (Z.land b5 0xff) 16))
      (Z.shiftl (Z.land b6 0xff) 8)) (Z.shiftl (Z.land b7 0xff) 0))).

Definition setShort (index value : Z) : M Array.t unit :=
  Array.set_index index (Z.shiftr value 8) ;!
  Array.set_index (i32 (index + 1)) (Z.shiftr value 0).

Definition setMedium (index value : Z) : M Array.t unit :=
  Array.set_index index (Z.shiftr value 16) ;!
  Array.set_index (i32 (index + 1)) (Z.shiftr value 8) ;!
  Array.set_index (i32 (index + 2)) (Z.shiftr value 0).

Definition setInt (index value : Z) : M Array.t unit :=
  Array.set_index index (Z.shiftr value 24) ;!
  Array.set_index (i32 (index + 1)) (Z.shiftr value 16) ;!
  Array.set_index (i32 (index + 2)) (Z.shiftr value 8) ;!
  Array.set_index (i32 (index + 3)) (Z.shiftr value 0).

Definition setLong (index value : Z) : M Array.t unit :=
  Array.set_index index (Z.shiftr value 56) ;!
  Array.set_index (i32 (index + 1)) (Z.shiftr value 48) ;!
  Array.set_index (i32 (index + 2)) (Z.shiftr value 40) ;!
  Array.set_index (i32 (index + 3)) (Z.shiftr value 32) ;!
  Array.set_index (i32 (index + 4)) (Z.shiftr value 24) ;!
  Array.set_index (i32 (index + 5)) (Z.shiftr value 16) ;!
  Array.set_index (i32 (index + 6)) (Z.shiftr value 8) ;!
  Array.set_index (i32 (index + 7)) (Z.shiftr value 0).

End BigEndianHeapChannelBuffer.

Module LittleEndianHeapChannelBuffer.

Definition getShort (arry : Array.t) (index : Z) : result Z :=
  let? b0 := Array.at_index arry index in
  let? b1 := Array.at_index arry (i32 (index + 1)) in
  Ok (i16 (Z.lor (Z.land b0 0xFF) (Z.shiftl b1 8))).

Definition getUnsignedMedium (arry : Array.t) (index : Z) : result Z :=
  let? b0 := Array.at_index arry index in
  let? b1 := Array.at_index arry (i32 (index + 1)) in
  let? b2 := Array.at_index arry (i32 (index + 2)) in
  Ok (Z.lor (Z.lor (Z.shiftl (Z.land b0 0xff) 0) (Z.shiftl (Z.land b1 0xff) 8))
            (Z.shiftl (Z.land b2 0xff) 16)).

Definition getInt (arry : Array.t) (index : Z) : result Z :=
  let? b0 := Array.at_index arry index in
  let? b1 := Array.at_index arry (i32 (index + 1)) in
  let? b2 := Array.at_index arry (i32 (index + 2)) in
  let? b3 := Array.at_index arry (i32 (index + 3)) in
  Ok (i32 (Z.lor (Z.lor (Z.lor (Z.shiftl (Z.land b0 0xff) 0) (Z.shiftl (Z.land b1 0xff) 8))
                        (Z.shiftl (Z.land b2 0xff) 16))
                 (Z.shiftl (Z.land b3 0xff) 24))).

Definition getLong (arry : Array.t) (index : Z) : result Z :=
  let? b0 := Array.at_index arry index in
  let? b1 := Array.at_index arry (i32 (index + 1)) in
  let? b2 := Array.at_index arry (i32 (index + 2)) in
  let? b3 := Array.at_index arry (i32 (index + 3)) in
  let? b4 := Array.at_index arry (i32 (index + 4)) in
  let? b5 := Array.at_index arry (i32 (index + 5)) in
  let? b6 := Array.at_index arry (i32 (index + 6)) in
  let? b7 := Array.at_index arry (i32 (index + 7)) in
  Ok (i64
    (Z.lor (Z.lor (Z.lor (Z.lor (Z.lor (Z.lor (Z.lor
      (Z.shiftl (Z.land b0 0xff) 0) (Z.shiftl (Z.land b1 0xff) 8))
      (Z.shiftl (Z.land b2 0xff) 16)) (Z.shiftl (Z.land b3 0xff) 24))
      (Z.shiftl (Z.land b4 0xff) 32)) (Z.shiftl (Z.land b5 0xff) 40))
      (Z.shiftl (Z.land b6 0xff) 48)) (Z.shiftl (Z.land b7 0xff) 56))).

Definition setShort (index value : Z) : M Array.t unit :=
  Array.set_index index (Z.shiftr value 0) ;!
  Array.set_index (i32 (index + 1)) (Z.shiftr value 8).

Definition setMedium (index value : Z) : M Array.t unit :=
  Array.set_index index (Z.shiftr value 0) ;!
  Array.set_index (i32 (index + 1)) (Z.shiftr value 8) ;!
  Array.set_index (i32 (index + 2)) (Z.shiftr value 16).

Definition setInt (index value : Z) : M Array.t unit :=
  Array.set_index index (Z.shiftr value 0) ;!
  Array.set_index (i32 (index + 1)) (Z.shiftr value 8) ;!
  Array.set_index (i32 (index + 2)) (Z.shiftr value 16) ;!
  Array.set_index (i32 (index + 3)) (Z.shiftr value 24).

Definition setLong (index value : Z) : M Array.t unit :=
  Array.set_index index (Z.shiftr value 0) ;!
  Array.set_index (i32 (index + 1)) (Z.shiftr value 8) ;!
  Array.set_index (i32 (index + 2)) (Z.shiftr value 16) ;!
  Array.set_index (i32 (index + 3)) (Z.shiftr value 24) ;!
  Array.set_index (i32 (index + 4)) (Z.shiftr value 32) ;!
  Array.set_index (i32 (index + 5)) (Z.shiftr value 40) ;!
  Array.set_index (i32 (index + 6)) (Z.shiftr value 48) ;!
  Array.set_index (i32 (index + 7)) (Z.shiftr value 56).

End LittleEndianHeapChannelBuffer.

(** ** HeapChannelBuffer *)

Module HeapChannelBuffer.

Record t := MkHeap {
  class : ByteOrder;
  ix : Indexes;
  maintainArrayBuffer : bool;
  arry : Array.t;
}.

Definition with_ix (i : Indexes) (h : t) : t :=
  MkHeap (class h) i (maintainArrayBuffer h) (arry h).
Definition with_arry (a : Array.t) (h : t) : t :=
  MkHeap (class h) (ix h) (maintainArrayBuffer h) a.

Definition capacity (h : t) : Z := Array.length (arry h).

Definition getByte (h : t) (index : Z) : result Z := Array.at_index (arry h) index.

Definition getBytes (h : t) : Reader := fun index dst dstIndex len =>
  Array.copy dst dstIndex (arry h) index len.

(** When the destination is a heap buffer the code copies into its array,
    which is what its [setBytes] does. *)
Definition getBytesTo {D} (wr : Writer D) (h : t) (index dstIndex len : Z) : M D unit :=
  wr dstIndex (arry h) index len.

Definition setByte (index value : Z) : M t unit :=
  zoom arry with_arry (Array.set_index index value).

Definition setBytes : Writer t := fun index src srcIndex len h =>
  match Array.copy (arry h) index src srcIndex len with
  | Ok a => (Ok tt, with_arry a h)
  | Err e => (Err e, h)
  end.

(** [src.getBytes(srcIndex, this->arry, index, length)]; when the source is a
    heap buffer the code copies from its array, which is what its [getBytes]
    does. *)
Definition setBytesFrom (index : Z) (src : Reader) (srcIndex len : Z) : M t unit := fun h =>
  match src srcIndex (arry h) index len with
  | Ok a => (Ok tt, with_arry a h)
  | Err e => (Err e, h)
  end.

(** The virtual functions of the byte order. *)
Definition dispatch {A} (big little : A) (h : t) : A :=
  match class h with
  | BYTE_ORDER_BIG => big
  | BYTE_ORDER_LITTLE => little
  end.

Definition dispatchM {A} (big little : M Array.t A) : M t A := fun h =>
  zoom arry with_arry (dispatch big little h) h.

#[global] Instance HeapRaw : RawBuffer t := {|
  Buffer.order := class;
  Buffer.capacity := capacity;
  Buffer.indexes := ix;
  Buffer.put_indexes := with_ix;
  Buffer.getByte := getByte;
  Buffer.getShort h i := dispatch BigEndianHeapChannelBuffer.getShort
    LittleEndianHeapChannelBuffer.getShort h (arry h) i;
  Buffer.getUnsignedMedium h i := dispatch BigEndianHeapChannelBuffer.getUnsignedMedium
    LittleEndianHeapChannelBuffer.getUnsignedMedium h (arry h) i;
  Buffer.getInt h i := dispatch BigEndianHeapChannelBuffer.getInt
    LittleEndianHeapChannelBuffer.getInt h (arry h) i;
  Buffer.getLong h i := dispatch BigEndianHeapChannelBuffer.getLong
    LittleEndianHeapChannelBuffer.getLong h (arry h) i;
  Buffer.getBytes := getBytes;
  Buffer.getBytesTo D := getBytesTo;
  Buffer.setByte := setByte;
  Buffer.setShort i v := dispatchM (BigEndianHeapChannelBuffer.setShort i v)
    (LittleEndianHeapChannelBuffer.setShort i v);
  Buffer.setMedium i v := dispatchM (BigEndianHeapChannelBuffer.setMedium i v)
    (LittleEndianHeapChannelBuffer.setMedium i v);
  Buffer.setInt i v := dispatchM (BigEndianHeapChannelBuffer.setInt i v)
    (LittleEndianHeapChannelBuffer.setInt i v);
  Buffer.setLong i v := dispatchM (BigEndianHeapChannelBuffer.setLong i v)
    (LittleEndianHeapChannelBuffer.setLong i v);
  Buffer.setBytes := setBytes;
  Buffer.setBytesFrom := setBytesFrom;
|}.

#[global] Instance HeapWrite : WriteBuffer t := abstractWriteBuffer t.

(** [offsetWriterIndex], overridden to use the array length. *)
Definition offsetWriterIndex (offset : Z) : M t unit :=
  let! h := gets id in
  let newWriterIdx := i32 (AbstractChannelBuffer.writerIndex h + offset) in
  throw_if ((newWriterIdx <? AbstractChannelBuffer.readerIndex h)
            || (newWriterIdx >? Array.length (arry h))) RangeException ;!
  AbstractChannelBuffer.upd (with_writerIdx newWriterIdx).

(** The array views of the buffer: the offset and the length of the region. *)
Definition readableBytesArray (h : t) : result (Z * Z) :=
  let? p := Array.data_at (arry h) (readerIdx (ix h)) in
  Ok (p, i32 (writerIdx (ix h) - readerIdx (ix h))).

Definition writableBytesArray (h : t) : result (Z * Z) :=
  let? p := Array.data_at (arry h) (writerIdx (ix h)) in
  Ok (p, i32 (Array.length (arry h) - readerIdx (ix h))).

Definition readSlice : M t (Z * Z) :=
  let! r := reads readableBytesArray in
  AbstractChannelBuffer.upd (fun i => with_writerIdx 0 (with_readerIdx 0 i)) ;!
  ret r.

(** *** Constructors *)

Definition initial (readerIdx writerIdx : Z) : Indexes := MkIndexes readerIdx writerIdx 0 0.

(** [HeapChannelBuffer(int length)]. *)
Definition new `{Allocator} (c : ByteOrder) (length : Z) : result t :=
  if length <? 0 then Err InvalidArgumentException
  else Ok (MkHeap c (initial 0 0) true (Array.Data (newArray length))).

(** [HeapChannelBuffer(const Array&, bool)]. *)
Definition wrap (c : ByteOrder) (array : Array.t) (maintainedBuf : bool) : t :=
  MkHeap c (initial 0 (Array.length array)) maintainedBuf array.

(** [HeapChannelBuffer(const Array&, int, int)]. *)
Definition wrapAt (c : ByteOrder) (array : Array.t) (readerIndex writerIndex : Z) : result t :=
  let h := MkHeap c (initial 0 0) false array in
  match AbstractChannelBuffer.setIndex readerIndex writerIndex h with
  | (Ok _, h) => Ok h
  | (Err e, _) => Err e
  end.

(** [copy(int, int)] of both byte order classes. *)
Definition copy `{Allocator} (h : t) (index length : Z) : result t :=
  if (index <? 0) || (length <? 0) || (i32 (index + length) >? Array.length (arry h))
  then Err RangeException
  else
    let? copied := Array.copy (Array.Data (newArray length)) 0 (arry h) index length in
    Ok (wrap (class h) copied true).

End HeapChannelBuffer.

(** ** The heap part of ChannelBuffers *)

Module ChannelBuffers.
Section Heap.
Context `{Allocator}.

Definition EMPTY_BUFFER : HeapChannelBuffer.t :=
  HeapChannelBuffer.MkHeap BYTE_ORDER_BIG (HeapChannelBuffer.initial 0 0) true
    (Array.Data (newArray 0)).

Definition buffer (endianness : ByteOrder) (capacity : Z) : result HeapChannelBuffer.t :=
  if capacity =? 0 then Ok EMPTY_BUFFER else HeapChannelBuffer.new endianness capacity.

Definition wrappedBuffer (endianness : ByteOrder) (array : Array.t) : HeapChannelBuffer.t :=
  if Array.length array =? 0 then EMPTY_BUFFER else HeapChannelBuffer.wrap endianness array false.

(** [copiedBuffer(ByteOrder, const ConstArray&)]. *)
Definition copiedBuffer (endianness : ByteOrder) (array : Array.t) : HeapChannelBuffer.t :=
  if Array.length array =? 0 then EMPTY_BUFFER
  else HeapChannelBuffer.wrap endianness (Array.clone array) true.

(** [copiedBuffer(ByteOrder, const ConstArray&, int, int)]: the code copies the
    whole array, whatever the offset and the length. *)
Definition copiedBufferAt (endianness : ByteOrder) (array : Array.t) (offset length : Z)
  : HeapChannelBuffer.t :=
  if (length <=? 0) || Array.empty array || (offset >=? Array.length array) then EMPTY_BUFFER
  else wrappedBuffer endianness (Array.clone array).

(** [HeapChannelBufferFactory::getBuffer]. *)
#[global] Instance HeapChannelBufferFactory : ChannelBufferFactory HeapChannelBuffer.t := {|
  Buffer.getBuffer := buffer;
  Buffer.EMPTY_BUFFER := EMPTY_BUFFER;
|}.

End Heap.
End ChannelBuffers.

(** ** Sequences of array accesses *)

Section Loads.

Fixpoint load (n : nat) (a : Array.t) (i : Z) : result (list Z) :=
  match n with
  | O => Ok []
  | S n =>
      let? b := Array.at_index a i in
      let? bs := load n a (i32 (i + 1)) in
      Ok (b :: bs)
  end.

Fixpoint store (i : Z) (vs : list Z) : M Array.t unit :=
  match vs with
  | [] => ret tt
  | v :: vs => Array.set_index i v ;! store (i32 (i + 1)) vs
  end.

Lemma at_index_ok l i : 0 <= i < zlen l -> Array.at_index (Array.Data l) i = Ok (znth 0 l i).
Proof. intros. unfold Array.at_index, Array.length. cbn [Array.bytes]. zif. reflexivity. Qed.

Lemma at_index_err l i : ~ (0 <= i < zlen l) -> Array.at_index (Array.Data l) i = Err RangeException.
Proof.
  intros. unfold Array.at_index, Array.length. cbn [Array.bytes].
  destruct (_ || _)%bool eqn:E; [reflexivity|]. zbool. lia.
Qed.

Lemma zsub_cons l i k :
  0 <= i < zlen l -> 0 < k -> zsub l i k = znth 0 l i :: zsub l (i + 1) (k - 1).
Proof.
  intros. replace k with (1 + (k - 1)) at 1 by lia.
  rewrite zsub_split, (zsub_1 0) by lia. reflexivity.
Qed.

Lemma load_spec n l i :
  (0 < n)%nat -> zlen l <= INT_MAX -> is_i32 i ->
  load n (Array.Data l) i = bytes_at l i (Z.of_nat n).
Proof.
  intros Hn Hm. revert i Hn. induction n as [|n IH]; intros i Hn Hi; [lia|].
  cbn [load]. destruct (decide (0 <= i < zlen l)) as [H|H].
  - rewrite at_index_ok by exact H. cbn [rbind].
    rewrite i32_id by solve_range.
    destruct n as [|n].
    + cbn. rewrite bytes_at_ok by (unfold in_range; lia).
      rewrite (zsub_1 0) by lia. reflexivity.
    + rewrite IH by (solve_range || lia).
      destruct (decide (in_range (zlen l) (i + 1) (Z.of_nat (S n)))) as [R|R].
      * rewrite !bytes_at_ok by (unfold in_range in *; lia). cbn [rbind].
        rewrite (zsub_cons l i) by lia. do 3 f_equal. lia.
      * rewrite !bytes_at_err by (unfold in_range in *; lia). reflexivity.
  - rewrite at_index_err by exact H. rewrite bytes_at_err by (unfold in_range; lia). reflexivity.
Qed.

Lemma set_index_ok l i v :
  0 <= i < zlen l -> Array.set_index i v (Array.Data l) = (Ok tt, Array.Data (overwrite l i [i8 v])).
Proof. intros. unfold Array.set_index, Array.length. cbn [Array.bytes]. zif. reflexivity. Qed.

Lemma set_index_err l i v :
  ~ (0 <= i < zlen l) -> Array.set_index i v (Array.Data l) = (Err RangeException, Array.Data l).
Proof.
  intros. unfold Array.set_index, Array.length. cbn [Array.bytes].
  destruct (_ || _)%bool eqn:E; [reflexivity|]. zbool. lia.
Qed.

Lemma zlen_cons {A} (x : A) (l : list A) : zlen (x :: l) = 1 + zlen l.
Proof. unfold zlen. cbn [length]. lia. Qed.

Lemma store_ok vs l i :
  zlen l <= INT_MAX -> in_range (zlen l) i (zlen vs) ->
  store i vs (Array.Data l) = (Ok tt, Array.Data (overwrite l i (map i8 vs))).
Proof.
  revert l i. induction vs as [|v vs IH]; intros l i Hm (H1 & H2 & H3).
  - cbn. unfold overwrite. rewrite app_nil_l, Nat.add_0_r, take_drop. reflexivity.
  - rewrite zlen_cons in *. pose proof (zlen_nonneg vs). cbn [store].
    rewrite (bind_ok _ _ _ _ _ (set_index_ok l i v ltac:(lia))).
    rewrite i32_id by solve_range.
    assert (zlen (overwrite l i [i8 v]) = zlen l) as Hl by (apply zlen_overwrite; rewrite ?zlen_1; lia).
    rewrite IH by (unfold in_range; rewrite Hl; lia).
    replace (i + 1) with (i + zlen [i8 v]) by (rewrite zlen_1; lia).
    rewrite overwrite_overwrite_adjacent; [reflexivity | lia |].
    rewrite zlen_1. unfold zlen in *. rewrite length_map. lia.
Qed.

Lemma take_overwrite (l : list Z) i src k :
  0 <= k <= i -> i <= zlen l -> take (Z.to_nat k) (overwrite l i src) = take (Z.to_nat k) l.
Proof.
  intros Hk Hi. change (zsub (overwrite l i src) 0 k = zsub l 0 k).
  apply zsub_overwrite_before; lia.
Qed.

Lemma store_err vs l i :
  zlen l <= INT_MAX -> is_i32 i -> vs <> [] -> Forall is_i8 l -> ~ in_range (zlen l) i (zlen vs) ->
  exists l', store i vs (Array.Data l) = (Err RangeException, Array.Data l') /\
    zlen l' = zlen l /\ Forall is_i8 l' /\ take (Z.to_nat i) l' = take (Z.to_nat i) l /\
    (0 <= i < zlen l \/ l' = l).
Proof.
  revert l i. induction vs as [|v vs IH]; intros l i Hm Hi Hne Hl H; [congruence|].
  rewrite zlen_cons in H. pose proof (zlen_nonneg vs). cbn [store].
  destruct (decide (0 <= i < zlen l)) as [R|R].
  - rewrite (bind_ok _ _ _ _ _ (set_index_ok l i v R)).
    rewrite i32_id by solve_range.
    assert (zlen (overwrite l i [i8 v]) = zlen l) as El by (apply zlen_overwrite; rewrite ?zlen_1; lia).
    destruct vs as [|w vs].
    { exfalso. apply H. unfold in_range. change (zlen (@nil Z)) with 0. lia. }
    destruct (IH (overwrite l i [i8 v]) (i + 1)) as (l' & E & E1 & E2 & E3 & _).
    + rewrite El. exact Hm.
    + solve_range.
    + discriminate.
    + apply Forall_overwrite; [exact Hl | repeat constructor; apply i8_range].
    + unfold in_range in *. rewrite El. lia.
    + exists l'. split; [exact E|]. split; [congruence|]. split; [exact E2|].
      split; [|left; exact R]. apply (f_equal (take (Z.to_nat i))) in E3. rewrite !take_take in E3.
      rewrite !Nat.min_l in E3 by lia. rewrite E3. apply take_overwrite; lia.
  - rewrite (bind_err _ _ _ _ _ (set_index_err l i v R)).
    exists l. repeat split; try assumption. right. reflexivity.
Qed.

End Loads.

(** ** The shifts of the code are the byte order encodings *)

(** Evaluate the sums of literals. *)
Ltac zsums :=
  repeat match goal with
  | |- context [Z.add (Zpos ?p) (Zpos ?q)] =>
      let r := eval compute in (Z.add (Zpos p) (Zpos q)) in
      change (Z.add (Zpos p) (Zpos q)) with r
  | |- context [Z.add 0 (Zpos ?q)] => change (Z.add 0 (Zpos q)) with (Zpos q)
  end.

Section Encodings.

Lemma swrap_add w x y : 0 < w -> swrap w (swrap w x + y) = swrap w (x + y).
Proof.
  intros Hw. apply swrap_cong. rewrite Zplus_mod, swrap_mod by exact Hw.
  rewrite <- Zplus_mod. reflexivity.
Qed.

Lemma i32_add x y : i32 (i32 x + y) = i32 (x + y).
Proof. apply swrap_add. lia. Qed.

(** The bytes of [l], the first at bit [k], combined with [|]. *)
Fixpoint le_lor (k : Z) (l : list Z) : Z :=
  match l with
  | [] => 0
  | [b] => Z.shiftl (Z.land b 255) k
  | b :: l => Z.lor (Z.shiftl (Z.land b 255) k) (le_lor (k + 8) l)
  end.

Lemma le_lor_decode k l : 0 <= k -> le_lor k l = Z.shiftl (le_decode l) k.
Proof.
  revert k. induction l as [|b l IH]; intros k Hk; [cbn; rewrite Z.shiftl_0_l; reflexivity|].
  assert (le_lor k (b :: l) = Z.lor (Z.shiftl (Z.land b 255) k) (le_lor (k + 8) l)) as ->.
  { destruct l; [|reflexivity]. cbn [le_lor]. rewrite Z.lor_0_r. reflexivity. }
  rewrite IH by lia. replace (k + 8) with (8 + k) by lia.
  rewrite <- Z.shiftl_shiftl, <- Z.shiftl_lor by lia. f_equal.
  rewrite land_255, Z.lor_comm. cbn [le_decode].
  pose proof (Z.mod_pos_bound b 256 eq_refl).
  rewrite Z.shiftl_mul_pow2 by lia. rewrite (lor_add 8); [lia | lia | | change (2 ^ 8) with 256; lia].
  change (2 ^ 8) with 256. apply Z.mod_mul. lia.
Qed.

(** Run the accesses of a [getX] in parallel with those of [load]. *)
Ltac run_loads :=
  repeat match goal with
  | |- context [Array.at_index ?a ?i] =>
      destruct (Array.at_index a i); cbn [rbind]; [|reflexivity]
  end.

Ltac flip_lor :=
  repeat match goal with
  | |- Z.lor ?x ?y = Z.lor ?y _ => rewrite (Z.lor_comm x y); f_equal
  end.

(** A [getX] of [n] bytes that combines them, most significant first, is
    [load] and [decode]. *)
Ltac get_is_load :=
  intros; cbn [load]; rewrite ?i32_add, <- ?Z.add_assoc; zsums;
  run_loads; cbn [rbind]; f_equal.

Lemma BE_getShort a i :
  BigEndianHeapChannelBuffer.getShort a i
  = let? bs := load 2 a i in Ok (i16 (decode BYTE_ORDER_BIG bs)).
Proof.
  unfold BigEndianHeapChannelBuffer.getShort. get_is_load.
  apply swrap_cong. cbn. rewrite land_255, Z.shiftl_mul_pow2 by lia.
  pose proof (Z.mod_pos_bound a1 256 eq_refl).
  rewrite (lor_add 8); change (2 ^ 8) with 256; try lia; [|apply Z.mod_mul; lia].
  change (2 ^ 16) with 65536. dlia.
Qed.

Lemma LE_getShort a i :
  LittleEndianHeapChannelBuffer.getShort a i
  = let? bs := load 2 a i in Ok (i16 (decode BYTE_ORDER_LITTLE bs)).
Proof.
  unfold LittleEndianHeapChannelBuffer.getShort. get_is_load.
  apply swrap_cong. cbn. rewrite land_255, Z.shiftl_mul_pow2, Z.lor_comm by lia.
  pose proof (Z.mod_pos_bound a0 256 eq_refl).
  rewrite (lor_add 8); change (2 ^ 8) with 256; try lia; [|apply Z.mod_mul; lia].
  change (2 ^ 16) with 65536. dlia.
Qed.

(** ... and of the masked bytes: the value is [le_lor] of the bytes. *)
Ltac masked_be := unfold decode; rewrite <- (Z.shiftl_0_r (le_decode _)), <- le_lor_decode by lia;
  cbn [rev app le_lor]; zsums; flip_lor; reflexivity.
Ltac masked_le := unfold decode; rewrite <- (Z.shiftl_0_r (le_decode _)), <- le_lor_decode by lia;
  cbn [le_lor]; zsums; rewrite <- !Z.lor_assoc; reflexivity.

Lemma BE_getUnsignedMedium a i :
  BigEndianHeapChannelBuffer.getUnsignedMedium a i
  = let? bs := load 3 a i in Ok (decode BYTE_ORDER_BIG bs).
Proof. unfold BigEndianHeapChannelBuffer.getUnsignedMedium. get_is_load. masked_be. Qed.

Lemma LE_getUnsignedMedium a i :
  LittleEndianHeapChannelBuffer.getUnsignedMedium a i
  = let? bs := load 3 a i in Ok (decode BYTE_ORDER_LITTLE bs).
Proof. unfold LittleEndianHeapChannelBuffer.getUnsignedMedium. get_is_load. masked_le. Qed.

Lemma BE_getInt a i :
  BigEndianHeapChannelBuffer.getInt a i
  = let? bs := load 4 a i in Ok (i32 (decode BYTE_ORDER_BIG bs)).
Proof. unfold BigEndianHeapChannelBuffer.getInt. get_is_load. f_equal. masked_be. Qed.

Lemma LE_getInt a i :
  LittleEndianHeapChannelBuffer.getInt a i
  = let? bs := load 4 a i in Ok (i32 (decode BYTE_ORDER_LITTLE bs)).
Proof. unfold LittleEndianHeapChannelBuffer.getInt. get_is_load. f_equal. masked_le. Qed.

Lemma BE_getLong a i :
  BigEndianHeapChannelBuffer.getLong a i
  = let? bs := load 8 a i in Ok (i64 (decode BYTE_ORDER_BIG bs)).
Proof. unfold BigEndianHeapChannelBuffer.getLong. get_is_load. f_equal. masked_be. Qed.

Lemma LE_getLong a i :
  LittleEndianHeapChannelBuffer.getLong a i
  = let? bs := load 8 a i in Ok (i64 (decode BYTE_ORDER_LITTLE bs)).
Proof. unfold LittleEndianHeapChannelBuffer.getLong. get_is_load. f_equal. masked_le. Qed.

End Encodings.

(** The [setX] of [n] bytes are [store]. *)
Section Stores.

Lemma bind_ret_tt {S} (m : M S unit) (s : S) : bind m (fun _ => ret tt) s = m s.
Proof. unfold bind, ret. destruct (m s) as [[[]|e] s']; reflexivity. Qed.

Ltac set_is_store :=
  cbn [store]; rewrite ?i32_add, <- ?Z.add_assoc; zsums;
  repeat (apply bind_ext; intros ? ?); symmetry; apply bind_ret_tt.

(** The shifts [0], [8] ... of a value are its encoding. *)
Ltac shifts_encode :=
  cbn; rewrite ?Z.shiftr_shiftr, ?Z.shiftr_0_r by lia; reflexivity.

Definition BE_bytes2 (v : Z) : list Z := [Z.shiftr v 8; Z.shiftr v 0].

Lemma BE_setShort i v a : BigEndianHeapChannelBuffer.setShort i v a = store i (BE_bytes2 v) a.
Proof. unfold BigEndianHeapChannelBuffer.setShort, BE_bytes2. set_is_store. Qed.

Lemma BE_bytes2_encode v : map i8 (BE_bytes2 v) = encode BYTE_ORDER_BIG 2 v.
Proof. unfold BE_bytes2. shifts_encode. Qed.

Definition LE_bytes2 (v : Z) : list Z := [Z.shiftr v 0; Z.shiftr v 8].

Lemma LE_setShort i v a : LittleEndianHeapChannelBuffer.setShort i v a = store i (LE_bytes2 v) a.
Proof. unfold LittleEndianHeapChannelBuffer.setShort, LE_bytes2. set_is_store. Qed.

Lemma LE_bytes2_encode v : map i8 (LE_bytes2 v) = encode BYTE_ORDER_LITTLE 2 v.
Proof. unfold LE_bytes2. shifts_encode. Qed.

Definition BE_bytes3 (v : Z) : list Z := [Z.shiftr v 16; Z.shiftr v 8; Z.shiftr v 0].

Lemma BE_setMedium i v a : BigEndianHeapChannelBuffer.setMedium i v a = store i (BE_bytes3 v) a.
Proof. unfold BigEndianHeapChannelBuffer.setMedium, BE_bytes3. set_is_store. Qed.

Lemma BE_bytes3_encode v : map i8 (BE_bytes3 v) = encode BYTE_ORDER_BIG 3 v.
Proof. unfold BE_bytes3. shifts_encode. Qed.

Definition LE_bytes3 (v : Z) : list Z := [Z.shiftr v 0; Z.shiftr v 8; Z.shiftr v 16].

Lemma LE_setMedium i v a : LittleEndianHeapChannelBuffer.setMedium i v a = store i (LE_bytes3 v) a.
Proof. unfold LittleEndianHeapChannelBuffer.setMedium, LE_bytes3. set_is_store. Qed.

Lemma LE_bytes3_encode v : map i8 (LE_bytes3 v) = encode BYTE_ORDER_LITTLE 3 v.
Proof. unfold LE_bytes3. shifts_encode. Qed.

Definition BE_bytes4 (v : Z) : list Z := [Z.shiftr v 24; Z.shiftr v 16; Z.shiftr v 8; Z.shiftr v 0].

Lemma BE_setInt i v a : BigEndianHeapChannelBuffer.setInt i v a = store i (BE_bytes4 v) a.
Proof. unfold BigEndianHeapChannelBuffer.setInt, BE_bytes4. set_is_store. Qed.

Lemma BE_bytes4_encode v : map i8 (BE_bytes4 v) = encode BYTE_ORDER_BIG 4 v.
Proof. unfold BE_bytes4. shifts_encode. Qed.

Definition LE_bytes4 (v : Z) : list Z := [Z.shiftr v 0; Z.shiftr v 8; Z.shiftr v 16; Z.shiftr v 24].

Lemma LE_setInt i v a : LittleEndianHeapChannelBuffer.setInt i v a = store i (LE_bytes4 v) a.
Proof. unfold LittleEndianHeapChannelBuffer.setInt, LE_bytes4. set_is_store. Qed.

Lemma LE_bytes4_encode v : map i8 (LE_bytes4 v) = encode BYTE_ORDER_LITTLE 4 v.
Proof. unfold LE_bytes4. shifts_encode. Qed.

Definition BE_bytes8 (v : Z) : list Z := [Z.shiftr v 56; Z.shiftr v 48; Z.shiftr v 40; Z.shiftr v 32; Z.shiftr v 24; Z.shiftr v 16; Z.shiftr v 8; Z.shiftr v 0].

Lemma BE_setLong i v a : BigEndianHeapChannelBuffer.setLong i v a = store i (BE_bytes8 v) a.
Proof. unfold BigEndianHeapChannelBuffer.setLong, BE_bytes8. set_is_store. Qed.

Lemma BE_bytes8_encode v : map i8 (BE_bytes8 v) = encode BYTE_ORDER_BIG 8 v.
Proof. unfold BE_bytes8. shifts_encode. Qed.

Definition LE_bytes8 (v : Z) : list Z := [Z.shiftr v 0; Z.shiftr v 8; Z.shiftr v 16; Z.shiftr v 24; Z.shiftr v 32; Z.shiftr v 40; Z.shiftr v 48; Z.shiftr v 56].

Lemma LE_setLong i v a : LittleEndianHeapChannelBuffer.setLong i v a = store i (LE_bytes8 v) a.
Proof. unfold LittleEndianHeapChannelBuffer.setLong, LE_bytes8. set_is_store. Qed.

Lemma LE_bytes8_encode v : map i8 (LE_bytes8 v) = encode BYTE_ORDER_LITTLE 8 v.
Proof. unfold LE_bytes8. shifts_encode. Qed.

End Stores.

(** ** HeapChannelBuffer implements the buffer contract *)

Section HeapInstances.
Import HeapChannelBuffer.

Definition heap_valid (h : t) : Prop :=
  exists l, arry h = Array.Data l /\ Forall is_i8 l /\ zlen l <= INT_MAX.

Definition heap_content (h : t) : list Z := Array.bytes (arry h).

(** Split on the representation of a valid heap buffer and on its class. *)
Ltac heap h Hv :=
  let c := fresh "c" in let i := fresh "ixs" in let o := fresh "own" in
  let a := fresh "a" in let l := fresh "l" in
  destruct h as [c i o a]; destruct Hv as (l & ? & ? & ?); cbn in *; subst a; destruct c; cbn in *.

Lemma load_signed w o n l i :
  (0 < n)%nat -> zlen l <= INT_MAX -> is_i32 i ->
  (let? bs := load n (Array.Data l) i in Ok (swrap w (decode o bs)))
  = signed_at w o l i (Z.of_nat n).
Proof. intros. rewrite load_spec by assumption. reflexivity. Qed.

Lemma load_unsigned o n l i :
  (0 < n)%nat -> zlen l <= INT_MAX -> is_i32 i ->
  (let? bs := load n (Array.Data l) i in Ok (decode o bs)) = unsigned_at o l i (Z.of_nat n).
Proof. intros. rewrite load_spec by assumption. reflexivity. Qed.

Lemma heap_getByte h i :
  heap_valid h -> is_i32 i -> getByte h i = signed_at 8 (class h) (heap_content h) i 1.
Proof.
  intros (l & E & Hl & Hm) Hi. unfold getByte, heap_content. rewrite E. cbn [Array.bytes].
  unfold signed_at. destruct (decide (in_range (zlen l) i 1)) as [R|R].
  - rewrite bytes_at_ok by exact R. unfold in_range in R.
    rewrite at_index_ok, (zsub_1 0) by lia. cbn [rbind]. f_equal.
    assert (is_i8 (znth 0 l i)) as Hb.
    { unfold znth. rewrite Forall_forall in Hl. apply Hl, nth_In. unfold zlen in *. lia. }
    rewrite <- (i8_id _ Hb) at 1. apply swrap_cong.
    destruct (class h); cbn; rewrite Z.add_0_r; symmetry; apply Z.mod_mod; discriminate.
  - rewrite bytes_at_err by exact R. unfold in_range in R. rewrite at_index_err by lia. reflexivity.
Qed.

Lemma heap_reader h : heap_valid h -> reader_of (heap_content h) (getBytes h).
Proof.
  intros (l & E & Hl & Hm) i d di n Hd R1 R2. unfold getBytes, heap_content in *.
  rewrite E in *. apply Array_copy_ok; assumption.
Qed.

#[global] Instance HeapReadSpec : ReadSpec t.
Proof.
  refine {| valid := heap_valid; content := heap_content |}; cbn.
  - intros h (l & E & Hl & Hm). unfold heap_content. rewrite E. exact Hl.
  - intros h _. reflexivity.
  - intros h (l & E & Hl & Hm). unfold capacity, Array.length. rewrite E. exact Hm.
  - intros i h H. exact H.
  - intros i h. reflexivity.
  - intros i h. reflexivity.
  - intros i h. reflexivity.
  - intros []. reflexivity.
  - intros i j h. reflexivity.
  - intros h i Hv Hi. apply heap_getByte; assumption.
  - intros h i Hv Hi. heap h Hv; unfold dispatch, heap_content; cbn;
      rewrite ?BE_getShort, ?LE_getShort; apply (load_signed 16); assumption || lia.
  - intros h i Hv Hi. heap h Hv; unfold dispatch, heap_content; cbn;
      rewrite ?BE_getUnsignedMedium, ?LE_getUnsignedMedium; apply load_unsigned; assumption || lia.
  - intros h i Hv Hi. heap h Hv; unfold dispatch, heap_content; cbn;
      rewrite ?BE_getInt, ?LE_getInt; apply (load_signed 32); assumption || lia.
  - intros h i Hv Hi. heap h Hv; unfold dispatch, heap_content; cbn;
      rewrite ?BE_getLong, ?LE_getLong; apply (load_signed 64); assumption || lia.
  - intros h Hv. apply heap_reader, Hv.
Defined.

(** A [store] in the array of a heap buffer. *)
Lemma heap_stores h i vs bs :
  heap_valid h -> is_i32 i -> vs <> [] -> map i8 vs = bs ->
  stores (zoom arry with_arry (store i vs)) h i bs.
Proof.
  intros (l & E & Hl & Hm) Hi Hne <-.
  assert (zlen (map i8 vs) = zlen vs) as Hz by (unfold zlen; rewrite length_map; reflexivity).
  unfold stores, content; cbn; unfold heap_content. rewrite E, Hz. cbn [Array.bytes]. split; intros R.
  - exists (with_arry (Array.Data (overwrite l i (map i8 vs))) h). split.
    + unfold zoom. rewrite E, store_ok by assumption. reflexivity.
    + assert (Forall is_i8 (map i8 vs)) as Hf.
      { apply Forall_forall. intros x Hx. apply in_map_iff in Hx.
        destruct Hx as (y & <- & _). apply i8_range. }
      split; try reflexivity. eexists. split; [reflexivity|].
      split; [apply Forall_overwrite; assumption|].
      destruct R as (R1 & R2 & R3). rewrite zlen_overwrite by lia. exact Hm.
  - destruct (store_err vs l i Hm Hi Hne Hl R) as (l' & E' & H1 & H2 & H3).
    exists (with_arry (Array.Data l') h), l'. split; [|split; [|split; assumption]].
    + unfold zoom. rewrite E, E'. reflexivity.
    + split; try reflexivity. eexists. split; [reflexivity|]. split; [exact H2 | lia].
Qed.

Lemma stores_ext (f g : M t unit) h i bs : f h = g h -> stores g h i bs -> stores f h i bs.
Proof. intros E. unfold stores. rewrite E. auto. Qed.

Lemma zoom_ext (m1 m2 : M Array.t unit) h :
  m1 (arry h) = m2 (arry h) -> zoom arry with_arry m1 h = zoom arry with_arry m2 h.
Proof. unfold zoom. intros ->. reflexivity. Qed.

(** [dispatchM] of two [setX] that are both [store]. *)
Lemma heap_dispatch_stores (big little : M Array.t unit) h i vb vl bs :
  heap_valid h -> is_i32 i ->
  big (arry h) = store i vb (arry h) -> little (arry h) = store i vl (arry h) ->
  vb <> [] -> vl <> [] ->
  (class h = BYTE_ORDER_BIG -> map i8 vb = bs) -> (class h = BYTE_ORDER_LITTLE -> map i8 vl = bs) ->
  stores (dispatchM big little) h i bs.
Proof.
  intros Hv Hi Eb El Nb Nl Mb Ml. unfold dispatchM, dispatch. destruct (class h) eqn:E.
  - apply (stores_ext _ (zoom arry with_arry (store i vb))).
    + rewrite E. apply zoom_ext, Eb.
    + apply heap_stores; auto.
  - apply (stores_ext _ (zoom arry with_arry (store i vl))).
    + rewrite E. apply zoom_ext, El.
    + apply heap_stores; auto.
Qed.

Lemma heap_set_array h i s : heap_valid h -> Forall is_i8 s ->
  in_range (zlen (heap_content h)) i (zlen s) ->
  updated h (overwrite (heap_content h) i s) (with_arry (Array.Data (overwrite (heap_content h) i s)) h).
Proof.
  intros (l & E & Hl & Hm) Hs R. unfold heap_content in *. rewrite E in *. cbn [Array.bytes] in *.
  destruct R as (R1 & R2 & R3).
  split; try reflexivity. eexists. split; [reflexivity|].
  split; [apply Forall_overwrite; assumption|]. rewrite zlen_overwrite by lia. exact Hm.
Qed.

Lemma heap_set_part h i s si n : heap_valid h -> Forall is_i8 s ->
  in_range (zlen (heap_content h)) i n -> in_range (zlen s) si n ->
  updated h (overwrite (heap_content h) i (zsub s si n))
    (with_arry (Array.Data (overwrite (heap_content h) i (zsub s si n))) h).
Proof.
  intros Hv Hs R1 (A & C & D). apply heap_set_array; [exact Hv | apply Forall_zsub, Hs |].
  rewrite zlen_zsub by assumption. exact R1.
Qed.

#[global] Instance HeapWriteSpec : WriteSpec t.
Proof.
  split; cbn.
  - intros h i v Hv Hi. apply (stores_ext _ (zoom arry with_arry (store i [v]))).
    + apply zoom_ext. symmetry. apply (bind_ret_tt (Array.set_index i v)).
    + apply heap_stores; [exact Hv | exact Hi | discriminate | reflexivity].
  - intros h i v Hv Hi. apply (heap_dispatch_stores _ _ h i (BE_bytes2 v) (LE_bytes2 v) _ Hv Hi
      (BE_setShort i v _) (LE_setShort i v _)); [discriminate | discriminate | |]; intros ->;
      [apply BE_bytes2_encode | apply LE_bytes2_encode].
  - intros h i v Hv Hi. apply (heap_dispatch_stores _ _ h i (BE_bytes3 v) (LE_bytes3 v) _ Hv Hi
      (BE_setMedium i v _) (LE_setMedium i v _)); [discriminate | discriminate | |]; intros ->;
      [apply BE_bytes3_encode | apply LE_bytes3_encode].
  - intros h i v Hv Hi. apply (heap_dispatch_stores _ _ h i (BE_bytes4 v) (LE_bytes4 v) _ Hv Hi
      (BE_setInt i v _) (LE_setInt i v _)); [discriminate | discriminate | |]; intros ->;
      [apply BE_bytes4_encode | apply LE_bytes4_encode].
  - intros h i v Hv Hi. apply (heap_dispatch_stores _ _ h i (BE_bytes8 v) (LE_bytes8 v) _ Hv Hi
      (BE_setLong i v _) (LE_setLong i v _)); [discriminate | discriminate | |]; intros ->;
      [apply BE_bytes8_encode | apply LE_bytes8_encode].
  - intros h i s si n Hv Hs Hm R1 R2.
    exists (with_arry (Array.Data (overwrite (heap_content h) i (zsub s si n))) h).
    split; [|apply heap_set_part; assumption].
    destruct Hv as (l & E & Hl & Hm').
    unfold setBytes, content in *; cbn in *; unfold heap_content in *. rewrite E in *.
    cbn [Array.bytes] in *. rewrite Array_copy_ok by assumption. reflexivity.
  - intros h i rd s si n Hv Hs Hrd R1 R2.
    exists (with_arry (Array.Data (overwrite (heap_content h) i (zsub s si n))) h).
    split; [|apply heap_set_part; assumption].
    destruct Hv as (l & E & Hl & Hm').
    unfold setBytesFrom, content in *; cbn in *; unfold heap_content in *. rewrite E in *.
    cbn [Array.bytes] in *. rewrite Hrd by assumption. reflexivity.
Qed.

#[global] Instance HeapTransferSpec : TransferSpec t.
Proof.
  split. intros D RD RSD WSD h d i di n (l & E & Hl & Hm) Hd R1 R2.
  cbn in *. unfold heap_content, getBytesTo in *. rewrite E in *. cbn [Array.bytes] in *.
  apply setBytes_law; assumption.
Qed.

End HeapInstances.

(** ** New heap buffers *)

Section HeapFactory.
Context `{A : Allocator}.
Import HeapChannelBuffer.

#[global] Instance HeapCopy : CopyBuffer t t := {| Buffer.copy := HeapChannelBuffer.copy |}.

Lemma wrap_wf c l o : Forall is_i8 l -> zlen l <= INT_MAX -> wf (wrap c (Array.Data l) o).
Proof.
  intros Hl Hm. split; [exists l; repeat split; assumption|].
  pose proof (zlen_nonneg l). unfold wf_indexes, AbstractChannelBuffer.readerIndex,
    AbstractChannelBuffer.writerIndex, content. cbn. unfold heap_content. cbn.
  unfold Array.length. cbn [Array.bytes]. lia.
Qed.

Lemma wrap_queue c l o : queue (wrap c (Array.Data l) o) = l.
Proof. unfold queue. cbn. rewrite Z.sub_0_r. apply zsub_all. Qed.

Lemma new_fresh c n : 0 <= n <= INT_MAX ->
  exists b, new c n = Ok b /\ wf b /\ queue b = [] /\ AbstractChannelBuffer.readerIndex b = 0 /\
    order b = c /\ zlen (content b) = n.
Proof.
  intros Hn. unfold new. zif. eexists. split; [reflexivity|].
  pose proof (zlen_newArray n (proj1 Hn)) as Hl.
  split; [|repeat split; exact Hl].
  split; [eexists; repeat split; cbn; [apply newArray_i8 | lia]|].
  unfold wf_indexes, content. cbn. unfold heap_content. cbn. lia.
Qed.

#[global] Instance HeapFactorySpec : FactorySpec t (F := ChannelBuffers.HeapChannelBufferFactory).
Proof.
  split; cbn; unfold ChannelBuffers.buffer.
  - intros o n Hn. zif. apply new_fresh. lia.
  - intros o. change (0 =? 0) with true. cbn.
    destruct (new_fresh BYTE_ORDER_BIG 0) as (b & E & Hw & Hq & Hr & Ho & Hl); [unfold INT_MAX; lia|].
    unfold new in E. cbn in E. injection E as <-. eexists. split; [reflexivity|].
    split; [exact Hw | split; [exact Hq | split; [reflexivity|]]].
    apply zlen_0, Hl.
  - split; [|reflexivity]. destruct (new_fresh BYTE_ORDER_BIG 0) as (b & E & Hw & _); [unfold INT_MAX; lia|].
    unfold new in E. cbn in E. injection E as <-. exact Hw.
Qed.

#[global] Instance HeapCopySpec : CopySpec t t.
Proof.
  split. intros h i n Hv Hi Hn Hs. destruct Hv as (l & E & Hl & Hm).
  unfold content at 1 2 3 5. cbn. unfold heap_content, copy, Array.length. rewrite E. cbn [Array.bytes].
  rewrite i32_id by exact Hs. split; intros R.
  - pose proof R as (R1 & R2 & R3). zif. unfold newArray.
    pose proof (zlen_newArray n R2) as Hz. unfold newArray in Hz.
    rewrite Array_copy_ok by (try exact R; try exact Hm; unfold in_range; lia). cbn [rbind].
    assert (overwrite (fresh (Z.to_nat n)) 0 (zsub l i n) = zsub l i n) as Eo.
    { unfold overwrite. change (Z.to_nat 0) with 0%nat. rewrite take_0, app_nil_l, Nat.add_0_l.
      rewrite drop_ge, app_nil_r; [reflexivity|].
      pose proof (zlen_zsub l i n R1 R2 R3). unfold zlen in *. lia. }
    rewrite Eo. eexists. split; [reflexivity|]. split.
    { apply wrap_wf; [apply Forall_zsub, Hl|]. rewrite zlen_zsub by assumption. lia. }
    rewrite wrap_queue. repeat split.
  - destruct (_ || _)%bool eqn:T; [reflexivity|]. zbool. exfalso. apply R. unfold in_range. lia.
Qed.

End HeapFactory.

(** A heap buffer in a given state is well-formed. *)
Lemma heap_wf c r w mr mw o l :
  Forall is_i8 l -> zlen l <= INT_MAX -> 0 <= r <= w -> w <= zlen l ->
  wf (HeapChannelBuffer.MkHeap c (MkIndexes r w mr mw) o (Array.Data l)).
Proof.
  intros Hl Hm Hr Hw. split; [exists l; repeat split; assumption|].
  unfold wf_indexes, content. cbn. unfold heap_content. cbn. lia.
Qed.
