(* ===== verification/DynamicBuffer.v ===== *)
(** * The dynamic buffer

    [src/include/cetty/buffer/DynamicChannelBuffer.h] and
    [src/src/cetty/buffer/DynamicChannelBuffer.cpp]: a buffer that delegates its
    accesses to a buffer of its factory and replaces it by a larger one when a
    write needs room.  The class of the buffers the factory makes is a
    parameter [N], used through its contract ([QueueSpec], [FactorySpec],
    [CopySpec]) only. *)

From S2P Require Import Prelude MachineInt Buffer AbstractBuffer BufferTheory.

Module DynamicChannelBuffer.
Section Dynamic.
Context {N : Type} {RN : RawBuffer N} {WN : WriteBuffer N} {FN : ChannelBufferFactory N}
  {CN : CopyBuffer N N}.

Record t := MkDynamic {
  endianness : ByteOrder;
  ix : Indexes;
  buffer : N;
}.

Definition with_ix (i : Indexes) (d : t) : t := MkDynamic (endianness d) i (buffer d).
Definition with_buffer (b : N) (d : t) : t := MkDynamic (endianness d) (ix d) b.

(** The constructors. *)
Definition new (endianness : ByteOrder) (estimatedLength : Z) : result t :=
  if estimatedLength <? 0 then Err InvalidArgumentException
  else
    let? b := getBuffer endianness estimatedLength in
    Ok (MkDynamic endianness (MkIndexes 0 0 0 0) b).

(** [ChannelBuffers::dynamicBuffer(ChannelBufferFactory&)]: the order is the
    default order of the factory. *)
Definition dynamicBuffer (defaultOrder : ByteOrder) : result t := new defaultOrder 256.

(** [buffer->...]: the accesses go to the wrapped buffer. *)
Definition delegate {A} (m : M N A) : M t A := zoom buffer with_buffer m.

#[global] Instance DynamicRaw : RawBuffer t := {|
  Buffer.order := endianness;
  Buffer.capacity d := capacity (buffer d);
  Buffer.indexes := ix;
  Buffer.put_indexes := with_ix;
  Buffer.getByte d := getByte (buffer d);
  Buffer.getShort d := getShort (buffer d);
  Buffer.getUnsignedMedium d := getUnsignedMedium (buffer d);
  Buffer.getInt d := getInt (buffer d);
  Buffer.getLong d := getLong (buffer d);
  Buffer.getBytes d := getBytes (buffer d);
  Buffer.getBytesTo D wr d := getBytesTo wr (buffer d);
  Buffer.setByte i v := delegate (setByte i v);
  Buffer.setShort i v := delegate (setShort i v);
  Buffer.setMedium i v := delegate (setMedium i v);
  Buffer.setInt i v := delegate (setInt i v);
  Buffer.setLong i v := delegate (setLong i v);
  Buffer.setBytes i s si n := delegate (setBytes i s si n);
  Buffer.setBytesFrom i s si n := delegate (setBytesFrom i s si n);
|}.

(** The loop of [ensureWritableBytes]: [newCapacity <<= 1] on an [int], until
    it reaches [minNewCapacity]. *)
Fixpoint grow (fuel : nat) (newCapacity minNewCapacity : Z) : option Z :=
  if newCapacity <? minNewCapacity then
    match fuel with
    | O => None
    | S fuel => grow fuel (i32 (Z.shiftl newCapacity 1)) minNewCapacity
    end
  else Some newCapacity.

(** The loop doubles at most 31 times before the capacity has wrapped around. *)
Definition growFuel : nat := 32.

Definition ensureWritableBytes (minWritableBytes : Z) : M t unit :=
  let! d := gets id in
  if minWritableBytes <=? AbstractChannelBuffer.writableBytes d then ret tt
  else
    let newCapacity := if capacity d =? 0 then 1 else capacity d in
    let minNewCapacity := i32 (AbstractChannelBuffer.writerIndex d + minWritableBytes) in
    match grow growFuel newCapacity minNewCapacity with
    | None => throw Undefined
    | Some newCapacity =>
        let! newBuffer := reads (fun d => getBuffer (order d) newCapacity) in
        match Buffer.writeBytesBuffer (getBytes (buffer d)) 0 (AbstractChannelBuffer.writerIndex d)
                newBuffer with
        | (Ok _, newBuffer) => modify (with_buffer newBuffer)
        | (Err e, _) => throw e
        end
    end.

Definition writeByte (value : Z) : M t unit :=
  ensureWritableBytes 1 ;! AbstractChannelBuffer.writeByte value.
Definition writeShort (value : Z) : M t unit :=
  ensureWritableBytes 2 ;! AbstractChannelBuffer.writeShort value.
Definition writeMedium (value : Z) : M t unit :=
  ensureWritableBytes 3 ;! AbstractChannelBuffer.writeMedium value.
Definition writeInt (value : Z) : M t unit :=
  ensureWritableBytes 4 ;! AbstractChannelBuffer.writeInt value.
Definition writeLong (value : Z) : M t unit :=
  ensureWritableBytes 8 ;! AbstractChannelBuffer.writeLong value.
Definition writeBytesArray (src : Array.t) (srcIndex len : Z) : M t unit :=
  ensureWritableBytes len ;! AbstractChannelBuffer.writeBytesArray src srcIndex len.
Definition writeBytesBuffer (src : Reader) (srcIndex len : Z) : M t unit :=
  ensureWritableBytes len ;! AbstractChannelBuffer.writeBytesBuffer src srcIndex len.

#[global] Instance DynamicWrite : WriteBuffer t := {|
  Buffer.ensureWritableBytes := ensureWritableBytes;
  Buffer.writeByte := writeByte;
  Buffer.writeShort := writeShort;
  Buffer.writeMedium := writeMedium;
  Buffer.writeInt := writeInt;
  Buffer.writeLong := writeLong;
  Buffer.writeBytesArray := writeBytesArray;
  Buffer.writeBytesBuffer := writeBytesBuffer;
  Buffer.discardReadBytes := AbstractChannelBuffer.discardReadBytes;
|}.

Definition writeZero (len : Z) : M t unit :=
  ensureWritableBytes len ;! AbstractChannelBuffer.writeZero len.

(** [copy(int, int)]. *)
Definition copy (d : t) (index len : Z) : result t :=
  let? copiedBuffer := new (order d) (if len >? 64 then len else 64) in
  let? b := Buffer.copy (buffer d) index len in
  match AbstractChannelBuffer.setIndex 0 len (with_buffer b copiedBuffer) with
  | (Ok _, copiedBuffer) => Ok copiedBuffer
  | (Err e, _) => Err e
  end.

#[global] Instance DynamicCopy : CopyBuffer t t := {| Buffer.copy := copy |}.

End Dynamic.
Arguments t : clear implicits.
End DynamicChannelBuffer.

Import DynamicChannelBuffer.

(** ** The growth of the capacity *)

Section Growth.

(** The loop ends when the size asked for is at most 2^30: the result is large
    enough, fits an [int], and is less than twice what was asked for. *)
Lemma grow_enough fuel c n :
  1 <= c <= INT_MAX -> n <= 2 ^ 30 -> 2 ^ 30 <= c * 2 ^ Z.of_nat fuel ->
  exists c', grow fuel c n = Some c' /\ n <= c' <= INT_MAX /\ c <= c' /\ (c' = c \/ c' < 2 * n).
Proof.
  revert c. induction fuel as [|fuel IH]; intros c Hc Hn Hf.
  - cbn in *. zif. exists c. repeat split; lia.
  - cbn [grow]. destruct (c <? n) eqn:E; zbool.
    + rewrite Z.shiftl_mul_pow2 by lia. change (2 ^ 1) with 2.
      rewrite i32_id by (unfold is_signed, INT_MAX in *; cbn in *; lia).
      destruct (IH (c * 2)) as (c' & Ec & H1 & H2 & H3).
      * unfold INT_MAX in *; cbn in *; lia.
      * exact Hn.
      * rewrite Nat2Z.inj_succ, Z.pow_succ_r in Hf by lia. lia.
      * exists c'. split; [exact Ec|]. lia.
    + exists c. repeat split; lia.
Qed.

(** Beyond 2^30 the loop may never end: a power-of-two capacity wraps to 0. *)
Lemma grow_zero fuel n : 0 < n -> grow fuel 0 n = None.
Proof. intros Hn. induction fuel as [|fuel IH]; cbn [grow]; zif; [reflexivity | exact IH]. Qed.

Lemma grow_power fuel k n :
  (k <= 30)%nat -> 2 ^ 30 < n <= INT_MAX -> grow fuel (2 ^ Z.of_nat k) n = None.
Proof.
  revert k. induction fuel as [|fuel IH]; intros k Hk Hn; cbn [grow].
  all: assert (2 ^ Z.of_nat k <= 2 ^ 30) as Hp by (apply Z.pow_le_mono_r; lia).
  all: assert (0 < 2 ^ Z.of_nat k) as Hp0 by (apply Z.pow_pos_nonneg; lia).
  - zif. reflexivity.
  - zif. rewrite Z.shiftl_mul_pow2, <- Z.pow_add_r by lia.
    destruct (decide (k = 30%nat)) as [->|Hne].
    + change (i32 (2 ^ (Z.of_nat 30 + 1))) with INT_MIN.
      destruct fuel as [|fuel]; cbn [grow]; unfold INT_MIN; zif; [reflexivity|].
      change (i32 (Z.shiftl (-2147483648) 1)) with 0. apply grow_zero. lia.
    + assert (2 ^ (Z.of_nat k + 1) <= 2 ^ 30) as Hq by (apply Z.pow_le_mono_r; lia).
      rewrite i32_id by (unfold is_signed; change (2 ^ (32 - 1)) with (2 * 2 ^ 30); lia).
      replace (Z.of_nat k + 1) with (Z.of_nat (S k)) by lia. apply IH; lia.
Qed.

End Growth.

(** ** The contract *)

Section DynamicTheory.
Context {N : Type} {RN : RawBuffer N} {RSN : ReadSpec N} {WSN : WriteSpec N} {WN : WriteBuffer N}
  {QN : QueueSpec N} {FN : ChannelBufferFactory N} {FSN : FactorySpec N}.
Abbreviation dyn := (DynamicChannelBuffer.t N).

(** The wrapped buffer has the byte order of the object, unless it is the
    shared empty buffer. *)
Definition dynamic_valid (d : dyn) : Prop :=
  valid (buffer d) /\ (order (buffer d) = endianness d \/ content (buffer d) = []).

Lemma bytes_at_nil i n : 0 < n -> bytes_at [] i n = Err RangeException.
Proof.
  intros Hn. apply bytes_at_err. unfold in_range. change (zlen (@nil Z)) with 0. lia.
Qed.

Lemma signed_at_order w (d : dyn) i n :
  dynamic_valid d -> 0 < n ->
  signed_at w (order (buffer d)) (content (buffer d)) i n
  = signed_at w (endianness d) (content (buffer d)) i n.
Proof.
  intros [_ [->| ->]] Hn; [reflexivity|]. unfold signed_at. rewrite bytes_at_nil by exact Hn. reflexivity.
Qed.

Lemma unsigned_at_order (d : dyn) i n :
  dynamic_valid d -> 0 < n ->
  unsigned_at (order (buffer d)) (content (buffer d)) i n
  = unsigned_at (endianness d) (content (buffer d)) i n.
Proof.
  intros [_ [->| ->]] Hn; [reflexivity|]. unfold unsigned_at. rewrite bytes_at_nil by exact Hn. reflexivity.
Qed.

#[global] Instance DynamicReadSpec : ReadSpec dyn.
Proof.
  refine {| valid := dynamic_valid; content d := content (buffer d) |}; cbn.
  - intros d [Hv _]. apply content_i8, Hv.
  - intros d [Hv _]. apply capacity_content, Hv.
  - intros d [Hv _]. apply capacity_max, Hv.
  - intros i d H. exact H.
  - reflexivity.
  - reflexivity.
  - reflexivity.
  - intros []. reflexivity.
  - reflexivity.
  - intros d i Hv Hi. rewrite getByte_law by (apply Hv || exact Hi). apply signed_at_order; [exact Hv | lia].
  - intros d i Hv Hi. rewrite getShort_law by (apply Hv || exact Hi). apply signed_at_order; [exact Hv | lia].
  - intros d i Hv Hi. rewrite getUnsignedMedium_law by (apply Hv || exact Hi).
    apply unsigned_at_order; [exact Hv | lia].
  - intros d i Hv Hi. rewrite getInt_law by (apply Hv || exact Hi). apply signed_at_order; [exact Hv | lia].
  - intros d i Hv Hi. rewrite getLong_law by (apply Hv || exact Hi). apply signed_at_order; [exact Hv | lia].
  - intros d [Hv _]. apply getBytes_law, Hv.
Defined.

(** An update of the wrapped buffer is an update of the dynamic one. *)
Lemma delegate_updated (d : dyn) l b :
  dynamic_valid d -> zlen l = zlen (content (buffer d)) ->
  updated (buffer d) l b -> updated d l (with_buffer b d).
Proof.
  intros [Hv Ho] Hl [Hv' Hc' Hi' Ho']. split; try reflexivity; [|exact Hc'].
  split; [exact Hv'|]. cbn. destruct Ho as [Ho|Ho]; [left; congruence | right].
  rewrite Hc'. apply zlen_0. rewrite Hl, Ho. reflexivity.
Qed.

Lemma delegate_stores (m : M N unit) (d : dyn) i bs bs' :
  dynamic_valid d -> zlen bs = zlen bs' -> 0 < zlen bs ->
  (order (buffer d) = endianness d -> bs = bs') ->
  stores m (buffer d) i bs -> stores (delegate m) d i bs'.
Proof.
  intros Hv Hz Hp He [Hok Herr]. split; intros R; cbn in R.
  - assert (bs = bs') as <-.
    { destruct Hv as [_ [Ho|Ho]]; [exact (He Ho)|]. exfalso.
      rewrite Ho in R. unfold in_range in R. change (zlen (@nil Z)) with 0 in R. lia. }
    destruct (Hok R) as (b & E & Hu). exists (with_buffer b d).
    unfold delegate, zoom. rewrite E. split; [reflexivity|].
    destruct R as (R1 & R2 & R3). apply delegate_updated; [exact Hv | | exact Hu].
    cbn. apply zlen_overwrite; lia.
  - rewrite <- Hz in R. destruct (Herr R) as (b & l & E & Hu & Hl & Ht).
    exists (with_buffer b d), l. unfold delegate, zoom. rewrite E.
    split; [reflexivity|]. split; [apply delegate_updated; assumption|]. split; assumption.
Qed.

Lemma delegate_writes (m : M N unit) (d : dyn) i bs :
  dynamic_valid d -> in_range (zlen (content (buffer d))) i (zlen bs) ->
  (exists b, m (buffer d) = (Ok tt, b) /\ updated (buffer d) (overwrite (content (buffer d)) i bs) b) ->
  exists d', delegate m d = (Ok tt, d') /\ updated d (overwrite (content (buffer d)) i bs) d'.
Proof.
  intros Hv (R1 & R2 & R3) (b & E & Hu). exists (with_buffer b d). unfold delegate, zoom. rewrite E.
  split; [reflexivity|]. apply delegate_updated; [exact Hv | apply zlen_overwrite; lia | exact Hu].
Qed.

(** [delegate_stores] at an encoding of [n] bytes. *)
Ltac delegate_encoded Hv law :=
  refine (delegate_stores _ _ _ _ _ Hv _ _ _ law);
    [rewrite !zlen_encode; reflexivity | rewrite zlen_encode; lia | intros ->; reflexivity].

#[global] Instance DynamicWriteSpec : WriteSpec dyn.
Proof.
  split; cbn.
  - intros d i v Hv Hi. eapply delegate_stores;
      [exact Hv | reflexivity | rewrite zlen_1; lia | reflexivity | apply setByte_law; [apply Hv | exact Hi]].
  - intros d i v Hv Hi. delegate_encoded Hv (setShort_law (buffer d) i v (proj1 Hv) Hi).
  - intros d i v Hv Hi. delegate_encoded Hv (setMedium_law (buffer d) i v (proj1 Hv) Hi).
  - intros d i v Hv Hi. delegate_encoded Hv (setInt_law (buffer d) i v (proj1 Hv) Hi).
  - intros d i v Hv Hi. delegate_encoded Hv (setLong_law (buffer d) i v (proj1 Hv) Hi).
  - intros d i s si n Hv Hs Hm R1 R2. pose proof R2 as (A & C & D). apply delegate_writes; [exact Hv | |].
    + rewrite zlen_zsub by assumption. exact R1.
    + apply setBytes_law; try assumption. apply Hv.
  - intros d i rd s si n Hv Hs Hrd R1 R2. pose proof R2 as (A & C & D). apply delegate_writes; [exact Hv | |].
    + rewrite zlen_zsub by assumption. exact R1.
    + apply setBytesFrom_law; try assumption. apply Hv.
Qed.

#[global] Instance DynamicTransferSpec {TN : TransferSpec N} : TransferSpec dyn.
Proof. split. intros D RD RSD WSD b d i di n [Hv _]. exact (getBytesTo_law D (buffer b) d i di n Hv). Qed.

(** *** Growing keeps the bytes *)

Definition dynamic_limit (d : dyn) : Z := Z.max (zlen (content d)) (2 ^ 30).

(** The larger buffer with the bytes up to the writer index copied to it. *)
Lemma newBuffer_copy (d : dyn) c :
  wf d -> AbstractChannelBuffer.writerIndex d <= c -> 0 < c <= INT_MAX ->
  exists nb nb', getBuffer (endianness d) c = Ok nb /\
    Buffer.writeBytesBuffer (getBytes (buffer d)) 0 (AbstractChannelBuffer.writerIndex d) nb
      = (Ok tt, nb') /\
    valid nb' /\ order nb' = endianness d /\ c <= zlen (content nb') /\
    zsub (content nb') 0 (AbstractChannelBuffer.writerIndex d)
      = zsub (content d) 0 (AbstractChannelBuffer.writerIndex d).
Proof.
  intros [[Hv Ho] [Hr Hw]] Hc Hm. cbn in Hw.
  destruct (getBuffer_fresh (endianness d) c Hm) as (nb & E & Hn & Hq & Hr0 & Hon & Hl).
  assert (AbstractChannelBuffer.writerIndex nb = 0) as Hw0.
  { pose proof (zlen_queue nb Hn) as Hz. rewrite Hq in Hz. change (zlen (@nil Z)) with 0 in Hz. lia. }
  pose proof (limit_capacity nb Hn) as Hlim.
  destruct (writeBytesBuffer_queue nb (getBytes (buffer d)) (content (buffer d)) 0
    (AbstractChannelBuffer.writerIndex d)) as (nb' & E' & Ha);
    [exact Hn | apply content_i8, Hv | apply getBytes_law, Hv | unfold in_range; lia | lia |].
  exists nb, nb'. pose proof (appended_writerIndex _ _ _ Hn Ha) as Hw'.
  destruct Ha as [Hwf' Hq' Hr' Ho' Hc'].
  rewrite zlen_zsub, Hw0 in Hw' by lia.
  split; [exact E|]. split; [exact E'|]. split; [apply Hwf'|]. split; [congruence|]. split; [lia|].
  rewrite Hq, app_nil_l in Hq'. unfold queue in Hq'. rewrite Hr', Hr0, Hw', Z.sub_0_r in Hq'.
  exact Hq'.
Qed.

Lemma ensureWritableBytes_spec (d : dyn) n :
  wf d -> 0 <= n -> AbstractChannelBuffer.writerIndex d + n <= dynamic_limit d ->
  exists d', ensureWritableBytes n d = (Ok tt, d') /\ kept d d' /\
    AbstractChannelBuffer.writerIndex d + n <= zlen (content d').
Proof.
  intros H Hn Hlim. pose proof H as [[Hv Ho] [Hr Hw]].
  pose proof (content_max d (conj Hv Ho)) as Hm. unfold dynamic_limit in Hlim. cbn in Hw, Hm, Hlim.
  unfold ensureWritableBytes. mstep. unfold id.
  rewrite writableBytes_room by exact H. cbn [content DynamicReadSpec].
  destruct (n <=? _) eqn:E; zbool.
  - exists d. split; [reflexivity|]. split; [apply kept_refl, H | cbn; lia].
  - assert (capacity d = zlen (content (buffer d))) as Ec by apply (capacity_content (buffer d)), Hv.
    rewrite Ec. set (c0 := if _ =? 0 then 1 else _).
    pose proof (zlen_nonneg (content (buffer d))).
    assert (1 <= c0 <= INT_MAX /\ c0 < 2 ^ 30 /\ zlen (content (buffer d)) <= c0) as (Hc0 & Hc1 & Hc2).
    { unfold c0, INT_MAX in *. destruct (_ =? 0) eqn:E0; zbool; lia. }
    rewrite i32_id by (unfold is_signed; change (2 ^ (32 - 1)) with (2 * 2 ^ 30); lia).
    destruct (grow_enough growFuel c0 (AbstractChannelBuffer.writerIndex d + n) Hc0)
      as (c & Eg & Hc & Hcc & _); [lia | unfold growFuel; change (2 ^ Z.of_nat 32) with (4 * 2 ^ 30); lia |].
    rewrite Eg. mstep.
    destruct (newBuffer_copy d c H) as (nb & nb' & E1 & E2 & Hv' & Ho' & Hl' & Hz); [lia | lia |].
    change (order d) with (endianness d). rewrite E1. cbn beta iota. rewrite E2.
    exists (with_buffer nb' d). split; [reflexivity|].
    assert (dynamic_valid (with_buffer nb' d)) as HV by (split; [exact Hv' | left; exact Ho']).
    split; [|cbn; lia]. split; try reflexivity.
    + split; [exact HV|]. unfold wf_indexes. cbn.
      change (AbstractChannelBuffer.readerIndex (with_buffer nb' d)) with (AbstractChannelBuffer.readerIndex d).
      change (AbstractChannelBuffer.writerIndex (with_buffer nb' d)) with (AbstractChannelBuffer.writerIndex d).
      lia.
    + unfold queue.
      change (AbstractChannelBuffer.readerIndex (with_buffer nb' d)) with (AbstractChannelBuffer.readerIndex d).
      change (AbstractChannelBuffer.writerIndex (with_buffer nb' d)) with (AbstractChannelBuffer.writerIndex d).
      apply (f_equal (fun l => zsub l (AbstractChannelBuffer.readerIndex d)
        (AbstractChannelBuffer.writerIndex d - AbstractChannelBuffer.readerIndex d))) in Hz.
      rewrite !zsub_zsub in Hz by lia. exact Hz.
    + cbn. lia.
Qed.

(** A new buffer is empty, and takes 2^30 bytes. *)
Lemma dynamicBuffer_fresh o :
  exists d : dyn, dynamicBuffer o = Ok d /\ wf d /\ queue d = [] /\
    AbstractChannelBuffer.writerIndex d = 0 /\ 2 ^ 30 <= dynamic_limit d.
Proof.
  destruct (getBuffer_fresh (N := N) o 256) as (b & E & Hb & Hq & Hr & Ho & Hl); [unfold INT_MAX; lia|].
  unfold dynamicBuffer, new. cbn [Z.ltb Z.compare]. rewrite E. cbn [rbind]. eexists. split; [reflexivity|].
  split; [|split; [reflexivity | split; [reflexivity | unfold dynamic_limit; lia]]].
  split; [split; [apply Hb | left; exact Ho]|]. unfold wf_indexes, content. cbn.
  pose proof (zlen_nonneg (content b)). unfold AbstractChannelBuffer.readerIndex, AbstractChannelBuffer.writerIndex.
  cbn. lia.
Qed.

(** A write of the dynamic buffer: make room, then write as any buffer does. *)
Lemma dynamic_write n (m : M dyn unit) (d : dyn) bs :
  wf d -> 0 <= n -> AbstractChannelBuffer.writerIndex d + n <= dynamic_limit d ->
  (forall d', kept d d' -> AbstractChannelBuffer.writerIndex d' + n <= zlen (content d') ->
    exists d'', m d' = (Ok tt, d'') /\ appended d' bs d'') ->
  exists d', (ensureWritableBytes n ;! m) d = (Ok tt, d') /\ appended d bs d'.
Proof.
  intros H Hn Hlim Hm. destruct (ensureWritableBytes_spec d n H Hn Hlim) as (d' & E & Hk & Hl).
  pose proof (kept_writerIndex d d' Hk) as Hw.
  destruct (Hm d' Hk) as (d'' & E' & Ha); [lia|].
  exists d''. rewrite (bind_ok _ _ _ _ _ E). split; [exact E' | exact (kept_appended d d' bs d'' Hk Ha)].
Qed.

#[global] Instance DynamicQueueSpec : QueueSpec dyn (WB := DynamicWrite).
Proof.
  unshelve refine {| limit := dynamic_limit |}; try exact _; cbn.
  - intros d H. unfold dynamic_limit. cbn. lia.
  - intros d d' Hc. unfold dynamic_limit. cbn. lia.
  - intros d n H Hn Hl. destruct (ensureWritableBytes_spec d n H Hn Hl) as (d' & E & Hk & _).
    exists d'. split; assumption.
  - intros d v H Hl. apply dynamic_write; [exact H | lia | exact Hl |].
    intros d' Hk Hw. apply writeByte_default; [apply Hk | exact Hw].
  - intros d v H Hl. apply dynamic_write; [exact H | lia | exact Hl |].
    intros d' Hk Hw. change (endianness d) with (order d). rewrite <- (kept_order _ _ Hk).
    apply writeShort_default; [apply Hk | exact Hw].
  - intros d v H Hl. apply dynamic_write; [exact H | lia | exact Hl |].
    intros d' Hk Hw. change (endianness d) with (order d). rewrite <- (kept_order _ _ Hk).
    apply writeMedium_default; [apply Hk | exact Hw].
  - intros d v H Hl. apply dynamic_write; [exact H | lia | exact Hl |].
    intros d' Hk Hw. change (endianness d) with (order d). rewrite <- (kept_order _ _ Hk).
    apply writeInt_default; [apply Hk | exact Hw].
  - intros d v H Hl. apply dynamic_write; [exact H | lia | exact Hl |].
    intros d' Hk Hw. change (endianness d) with (order d). rewrite <- (kept_order _ _ Hk).
    apply writeLong_default; [apply Hk | exact Hw].
  - intros d s si n H Hs Hm Hr Hl. apply dynamic_write; [exact H | apply Hr | exact Hl |].
    intros d' Hk Hw. apply writeBytesArray_default; try assumption. apply Hk.
  - intros d rd s si n H Hs Hrd Hr Hl. apply dynamic_write; [exact H | apply Hr | exact Hl |].
    intros d' Hk Hw. apply writeBytesBuffer_default; try assumption. apply Hk.
  - intros d H. destruct (discardReadBytes_default d H) as (d' & E & Hw & Hq & Hr & Ho & Hc).
    exists d'. unfold dynamic_limit. rewrite Hc. repeat split; try assumption; try apply Hw. lia.
Defined.

(** C31: growing keeps what was written: up to a writer index of 2^30 a dynamic
    buffer always makes the room a write asks for, the growth loop ends within its
    fuel, and the larger buffer has the same readable bytes, indexes and byte
    order, whatever the class of the buffers the factory makes. *)
Theorem growth_keeps_bytes (d : dyn) (n : Z) :
  wf d -> 0 <= n -> AbstractChannelBuffer.writerIndex d + n <= 2 ^ 30 ->
  exists d', ensureWritableBytes n d = (Ok tt, d') /\ wf d' /\
    queue d' = queue d /\ indexes d' = indexes d /\ order d' = order d /\
    AbstractChannelBuffer.writerIndex d' + n <= capacity d'.
Proof.
  intros H Hn Hl. destruct (ensureWritableBytes_spec d n H Hn) as (d' & E & Hk & Hr);
    [unfold dynamic_limit; lia|].
  exists d'. rewrite (kept_writerIndex _ _ Hk), capacity_content by apply Hk.
  destruct Hk. auto 7.
Qed.

(** Beyond 2^30 the growth loop of a buffer whose capacity is a power of two
    never ends: the doubled [int] wraps to 0 before it reaches the size. *)
Theorem growth_diverges (d : dyn) (k : nat) (n : Z) (fuel : nat) :
  capacity d = 2 ^ Z.of_nat k -> (k <= 30)%nat ->
  2 ^ 30 < AbstractChannelBuffer.writerIndex d + n <= INT_MAX ->
  grow fuel (capacity d) (i32 (AbstractChannelBuffer.writerIndex d + n)) = None.
Proof.
  intros -> Hk Hn. rewrite i32_id by solve_range. apply grow_power; assumption.
Qed.

End DynamicTheory.
