(* ===== verification/BufferProperties.v ===== *)
(** * What every channel buffer guarantees to its users

    Theorems over the contract of [BufferTheory] only, so that they hold of
    every class that implements it: typed writes and reads are inverse, the
    invariant of the indexes is kept by all sequences of operations, transfers
    between buffers move the bytes.  The concrete buffers of the witnesses are
    heap and dynamic buffers. *)

From stdpp Require Import relations.
From S2P Require Import Prelude MachineInt Buffer AbstractBuffer BufferTheory HeapBuffer DynamicBuffer.
Import AbstractChannelBuffer.

(** ** Typed fields *)

(** One typed value of a message, as the [writeX] that emits it. *)
Inductive field :=
  | FByte (v : Z)
  | FShort (v : Z)
  | FMedium (v : Z)
  | FInt (v : Z)
  | FLong (v : Z).

Definition width (f : field) : Z :=
  match f with FByte _ => 1 | FShort _ => 2 | FMedium _ => 3 | FInt _ => 4 | FLong _ => 8 end.

Definition widths (fs : list field) : Z := fold_right (fun f n => width f + n) 0 fs.

(** The value a reader sees: truncated to the width of the field. *)
Definition truncated (f : field) : Z :=
  match f with
  | FByte v => i8 v
  | FShort v => i16 v
  | FMedium v => swrap 24 v
  | FInt v => i32 v
  | FLong v => i64 v
  end.

(** The bytes of a field. *)
Definition field_bytes (o : ByteOrder) (f : field) : list Z :=
  match f with
  | FByte v => [i8 v]
  | FShort v => encode o 2 v
  | FMedium v => encode o 3 v
  | FInt v => encode o 4 v
  | FLong v => encode o 8 v
  end.

Section Fields.
Context {B : Type} {RB : RawBuffer B} {WB : WriteBuffer B}.

Definition write_field (f : field) : M B unit :=
  match f with
  | FByte v => Buffer.writeByte v
  | FShort v => Buffer.writeShort v
  | FMedium v => Buffer.writeMedium v
  | FInt v => Buffer.writeInt v
  | FLong v => Buffer.writeLong v
  end.

(** The [readX] of the type of [f]. *)
Definition read_field (f : field) : M B Z :=
  match f with
  | FByte _ => readByte
  | FShort _ => readShort
  | FMedium _ => readMedium
  | FInt _ => readInt
  | FLong _ => readLong
  end.

Fixpoint write_fields (fs : list field) : M B unit :=
  match fs with
  | [] => ret tt
  | f :: fs => write_field f ;! write_fields fs
  end.

Fixpoint read_fields (fs : list field) : M B (list Z) :=
  match fs with
  | [] => ret []
  | f :: fs =>
      let! v := read_field f in
      let! vs := read_fields fs in
      ret (v :: vs)
  end.

Context {RS : ReadSpec B} {QS : QueueSpec B}.

Lemma zlen_field_bytes o f : zlen (field_bytes o f) = width f.
Proof. destruct f; cbn; rewrite ?zlen_encode; reflexivity. Qed.

Lemma write_field_spec f b : wf b -> writerIndex b + width f <= limit b ->
  exists b', write_field f b = (Ok tt, b') /\ appended b (field_bytes (order b) f) b'.
Proof.
  intros H Hn. destruct f; cbn in *;
    [apply writeByte_queue | apply writeShort_queue | apply writeMedium_queue
    | apply writeInt_queue | apply writeLong_queue]; assumption.
Qed.

Lemma width_pos f : 0 < width f.
Proof. destruct f; cbn; lia. Qed.

Lemma widths_nonneg fs : 0 <= widths fs.
Proof. induction fs as [|f fs IH]; cbn; [lia|]. pose proof (width_pos f). fold (widths fs). lia. Qed.

Lemma write_fields_spec fs b : wf b -> writerIndex b + widths fs <= limit b ->
  exists b', write_fields fs b = (Ok tt, b') /\
    appended b (concat (map (field_bytes (order b)) fs)) b'.
Proof.
  revert b. induction fs as [|f fs IH]; intros b H Hn.
  - exists b. split; [reflexivity | apply appended_nil, kept_refl, H].
  - change (widths (f :: fs)) with (width f + widths fs) in Hn. pose proof (widths_nonneg fs).
    destruct (write_field_spec f b H) as (b1 & E1 & H1); [lia|].
    pose proof (appended_writerIndex _ _ _ H H1) as Hw1. rewrite zlen_field_bytes in Hw1.
    pose proof (limit_appended _ _ _ H1) as Hl1.
    destruct (IH b1) as (b2 & E2 & H2); [apply H1 | lia |].
    exists b2. cbn [write_fields]. rewrite (bind_ok _ _ _ _ _ E1). split; [exact E2|].
    rewrite (appended_order _ _ _ H1) in H2. exact (appended_app _ _ _ _ _ H1 H2).
Qed.

(** [value |= 0xff000000] is the sign extension of a 24-bit value. *)
Lemma signMedium_swrap v : 0 <= v < 2 ^ 24 -> signMedium v = swrap 24 v.
Proof.
  intros Hv. unfold signMedium, u32. rewrite Z.mod_small by (cbn in *; lia).
  change 0x800000 with (2 ^ 23). rewrite land_pow2, (testbit_top v 23) by (lia || exact Hv).
  unfold swrap. change (2 ^ (24 - 1)) with 8388608. change (2 ^ 23) with 8388608.
  change (2 ^ 24) with 16777216 in *.
  destruct (8388608 <=? v) eqn:E; zbool; cbn [Z.eqb negb].
  - change (8388608 =? 0) with false. cbn [negb]. rewrite Z.lor_comm, (lor_add 24) by (reflexivity || lia).
    unfold i32, swrap. change (2 ^ (32 - 1)) with 2147483648. change (2 ^ 32) with 4294967296.
    dlia.
  - change (0 =? 0) with true. cbn [negb]. dlia.
Qed.

(** The value of the bytes a field wrote. *)
Lemma decode_field (w : Z) (o : ByteOrder) (n : nat) v :
  0 < w -> w = 8 * Z.of_nat n -> swrap w (decode o (encode o n v)) = swrap w v.
Proof.
  intros Hw ->. apply swrap_cong. rewrite decode_encode. apply Z.mod_mod.
  apply Z.pow_nonzero; lia.
Qed.

Lemma read_field_spec f rest (b : B) :
  wf b -> queue b = field_bytes (order b) f ++ rest ->
  read_field f b = (Ok (truncated f), consume (width f) b).
Proof.
  intros H Hq. pose proof (zlen_field_bytes (order b) f) as Hz. pose proof (zlen_nonneg rest).
  assert ((zlen (queue b) <? width f) = false) as E.
  { rewrite Hq, zlen_app, Hz. apply Z.ltb_ge. lia. }
  assert (front b (width f) = decode (order b) (field_bytes (order b) f)) as Ef.
  { unfold front. rewrite Hq, <- Hz. unfold zsub, zlen.
    rewrite Nat2Z.id. change (Z.to_nat 0) with 0%nat. rewrite drop_0, take_app_length. reflexivity. }
  destruct f as [v|v|v|v|v]; cbn [width] in E, Ef; cbn [read_field width field_bytes truncated] in *.
  - rewrite readByte_spec, E, Ef by exact H.
    do 2 f_equal. destruct (order b).
    + exact (decode_field 8 BYTE_ORDER_BIG 1 v eq_refl eq_refl).
    + exact (decode_field 8 BYTE_ORDER_LITTLE 1 v eq_refl eq_refl).
  - rewrite readShort_spec, E, Ef by exact H. do 2 f_equal. apply (decode_field 16); reflexivity.
  - unfold readMedium. unfold bind. rewrite readUnsignedMedium_spec, E, Ef by exact H.
    unfold ret. do 2 f_equal. rewrite signMedium_swrap.
    + apply (decode_field 24); reflexivity.
    + rewrite decode_encode. apply Z.mod_pos_bound. reflexivity.
  - rewrite readInt_spec, E, Ef by exact H. do 2 f_equal. apply (decode_field 32); reflexivity.
  - rewrite readLong_spec, E, Ef by exact H. do 2 f_equal. apply (decode_field 64); reflexivity.
Qed.

Lemma consume_whole b f rest : wf b -> queue b = field_bytes (order b) f ++ rest ->
  wf (consume (width f) b) /\ queue (consume (width f) b) = rest.
Proof.
  intros H Hq. pose proof (zlen_field_bytes (order b) f) as Hz. pose proof (zlen_nonneg rest).
  assert (0 <= width f <= zlen (queue b)) as Hw.
  { rewrite Hq, zlen_app. pose proof (width_pos f). lia. }
  split; [apply consume_wf; assumption|].
  rewrite consume_queue, Hq, <- Hz by assumption. unfold zlen. rewrite Nat2Z.id.
  apply drop_app_length.
Qed.

Lemma read_fields_spec fs rest (b : B) :
  wf b -> queue b = concat (map (field_bytes (order b)) fs) ++ rest ->
  exists b', read_fields fs b = (Ok (map truncated fs), b') /\ wf b' /\ queue b' = rest.
Proof.
  revert b. induction fs as [|f fs IH]; intros b H Hq.
  - exists b. repeat split; try apply H. exact Hq.
  - cbn [map concat] in Hq. rewrite <- app_assoc in Hq.
    destruct (consume_whole b f _ H Hq) as [Hw' Hq'].
    destruct (IH (consume (width f) b)) as (b' & E & Hw & Hr).
    { exact Hw'. } { rewrite consume_order. exact Hq'. }
    exists b'. split; [|split; assumption]. cbn [read_fields map].
    rewrite (bind_ok _ _ _ _ _ (read_field_spec f _ b H Hq)).
    rewrite (bind_ok _ _ _ _ _ E). reflexivity.
Qed.

(** C2: for a buffer that is a queue with room (the contract [QueueSpec], which
    the heap, sliced and dynamic buffers implement; a read-only buffer, whose
    writes all throw, does not), typed writes and reads are inverse: whatever
    the byte order, writing a sequence of bytes, shorts, mediums, ints and longs
    to such a buffer, with nothing readable in it and room for them, and reading
    the same sequence of types gives the values back, truncated to their width,
    and leaves nothing unread. *)
Theorem write_read_fields (fs : list field) (b : B) :
  wf b -> queue b = [] -> writerIndex b + widths fs <= limit b ->
  exists b1 b2, write_fields fs b = (Ok tt, b1) /\
    read_fields fs b1 = (Ok (map truncated fs), b2) /\ wf b2 /\ queue b2 = [].
Proof.
  intros H Hq Hn. destruct (write_fields_spec fs b H Hn) as (b1 & E1 & H1).
  destruct (read_fields_spec fs [] b1) as (b2 & E2 & H2 & Hq2); [apply H1 | |].
  - rewrite app_nil_r, (appended_order _ _ _ H1), (appended_queue _ _ _ H1), Hq. reflexivity.
  - exists b1, b2. repeat split; try assumption; apply H2.
Qed.

(** A write appends: the bytes of the fields, in the byte order of the
    buffer, come after the bytes that were readable; the reader index and the
    byte order stay. *)
Theorem write_fields_append (fs : list field) (b : B) :
  wf b -> writerIndex b + widths fs <= limit b ->
  exists b', write_fields fs b = (Ok tt, b') /\ wf b' /\
    queue b' = queue b ++ concat (map (field_bytes (order b)) fs) /\
    readerIndex b' = readerIndex b /\ writerIndex b' = writerIndex b + widths fs /\
    order b' = order b.
Proof.
  intros H Hn. destruct (write_fields_spec fs b H Hn) as (b' & E & Ha).
  exists b'. pose proof (appended_writerIndex _ _ _ H Ha) as Hw.
  assert (zlen (concat (map (field_bytes (order b)) fs)) = widths fs) as Hz.
  { induction fs as [|f fs IH] in |- *; [reflexivity|].
    cbn [map concat]. rewrite zlen_app, IH, zlen_field_bytes. reflexivity. }
  rewrite Hz in Hw. destruct Ha as [A1 A2 A3 A4 _]. auto 7.
Qed.

End Fields.

(** ** The invariant of the indexes *)

Section Invariant.
Context {B : Type} {RB : RawBuffer B} {WB : WriteBuffer B} {RS : ReadSpec B} {QS : QueueSpec B}.

(** The guards of the index operations. *)
Lemma upd_wf (f : Indexes -> Indexes) b :
  valid b -> 0 <= readerIdx (f (indexes b)) <= writerIdx (f (indexes b)) ->
  writerIdx (f (indexes b)) <= zlen (content b) -> wf (snd (upd f b)).
Proof. intros. apply wf_put; assumption. Qed.

Ltac index_guard := mstep; unfold id;
  match goal with |- wf (snd (if ?c then _ else _)) => destruct c eqn:?E end;
  [assumption | zbool; apply upd_wf; cbn].

Lemma setReaderIndex_wf i b : wf b -> wf (snd (setReaderIndex i b)).
Proof.
  intros H. pose proof H as [Hv [Hr Hw]]. unfold setReaderIndex, readerIndex, writerIndex in *.
  index_guard; try assumption; lia.
Qed.

Lemma offsetReaderIndex_wf i b : wf b -> wf (snd (offsetReaderIndex i b)).
Proof.
  intros H. pose proof H as [Hv [Hr Hw]]. unfold offsetReaderIndex, readerIndex, writerIndex in *.
  index_guard; try assumption; lia.
Qed.

Lemma setWriterIndex_wf i b : wf b -> wf (snd (setWriterIndex i b)).
Proof.
  intros H. pose proof H as [Hv [Hr Hw]]. pose proof (capacity_content b Hv).
  unfold setWriterIndex, readerIndex, writerIndex in *.
  index_guard; try assumption; lia.
Qed.

Lemma offsetWriterIndex_wf i b : wf b -> wf (snd (offsetWriterIndex i b)).
Proof.
  intros H. pose proof H as [Hv [Hr Hw]]. pose proof (capacity_content b Hv).
  unfold offsetWriterIndex, readerIndex, writerIndex in *.
  index_guard; try assumption; lia.
Qed.

Lemma setIndex_wf r w b : wf b -> wf (snd (setIndex r w b)).
Proof.
  intros H. pose proof H as [Hv [Hr Hw]]. pose proof (capacity_content b Hv).
  unfold setIndex. index_guard; try assumption; lia.
Qed.

(** The two index functions that check their argument on one side only, or not
    at all, keep the invariant exactly when the index they store is in its
    range. *)
Lemma resetWriterIndex_wf b : wf b ->
  wf (snd (resetWriterIndex b)) <->
  readerIndex b <= markedWriterIndex (indexes b) <= zlen (content b).
Proof.
  intros H. pose proof H as [Hv [Hr Hw]]. unfold readerIndex in *. split.
  - intros [_ [H1 H2]]. unfold resetWriterIndex, readerIndex, writerIndex, upd, modify in *.
    cbn [snd] in H1, H2. rewrite ?indexes_put, ?content_put in * by exact Hv. cbn in *. lia.
  - intros Hm. apply upd_wf; cbn; [exact Hv | lia | lia].
Qed.

Lemma skipBytes_wf n b : wf b ->
  wf (snd (skipBytes n b)) <->
  0 <= i32 (readerIndex b + n) \/ writerIndex b < i32 (readerIndex b + n).
Proof.
  intros H. pose proof H as [Hv [Hr Hw]]. unfold skipBytes. mstep. unfold id.
  destruct (_ >? _) eqn:E; zbool; cbn [snd].
  - split; [intros _; right; lia | intros _; exact H].
  - split.
    + intros [_ [H1 H2]]. unfold readerIndex, writerIndex, upd, modify in *.
      cbn [snd] in H1, H2. rewrite ?indexes_put, ?content_put in * by exact Hv. cbn in *. lia.
    + intros Hm. unfold readerIndex, writerIndex in *. apply upd_wf; cbn; [exact Hv | lia | lia].
Qed.

(** A member function of the buffer, with the conditions under which it keeps
    the invariant: none for the index functions that check their arguments and
    for the reads; a mark in range for [resetWriterIndex], which stores it
    unchecked; an index that does not become negative, by a negative length or by
    the overflow of the sum, for [skipBytes]; room for the writes. *)
Inductive step : B -> B -> Prop :=
  | step_setReaderIndex i b : step b (snd (setReaderIndex i b))
  | step_offsetReaderIndex n b : step b (snd (offsetReaderIndex n b))
  | step_setWriterIndex i b : step b (snd (setWriterIndex i b))
  | step_offsetWriterIndex n b : step b (snd (offsetWriterIndex n b))
  | step_setIndex r w b : step b (snd (setIndex r w b))
  | step_clear b : step b (snd (clear b))
  | step_markReaderIndex b : step b (snd (markReaderIndex b))
  | step_resetReaderIndex b : step b (snd (resetReaderIndex b))
  | step_markWriterIndex b : step b (snd (markWriterIndex b))
  | step_discardReadBytes b : step b (snd (Buffer.discardReadBytes b))
  | step_resetWriterIndex b :
      readerIndex b <= markedWriterIndex (indexes b) <= zlen (content b) ->
      step b (snd (resetWriterIndex b))
  | step_skipBytes n b :
      0 <= i32 (readerIndex b + n) \/ writerIndex b < i32 (readerIndex b + n) ->
      step b (snd (skipBytes n b))
  | step_read f b : step b (snd (read_field f b))
  | step_write f b : writerIndex b + width f <= limit b -> step b (snd (write_field f b))
  | step_ensureWritableBytes n b :
      0 <= n -> writerIndex b + n <= limit b -> step b (snd (Buffer.ensureWritableBytes n b)).

Lemma consume_or_keep {A} (n : Z) (r : A) e b :
  wf b -> 0 <= n ->
  wf (snd (if zlen (queue b) <? n then (Err e, b) else (Ok r, consume n b))).
Proof.
  intros H Hn. destruct (_ <? n) eqn:E; zbool; cbn; [exact H|]. apply consume_wf; [exact H | lia].
Qed.

Lemma read_field_wf f b : wf b -> wf (snd (read_field f b)).
Proof.
  intros H. destruct f; cbn [read_field].
  - rewrite readByte_spec by exact H. apply consume_or_keep; [exact H | lia].
  - rewrite readShort_spec by exact H. apply consume_or_keep; [exact H | lia].
  - unfold readMedium, bind. rewrite readUnsignedMedium_spec by exact H.
    pose proof (consume_or_keep 3 (front b 3) RangeException b H) as Hk.
    destruct (_ <? 3); apply Hk; lia.
  - rewrite readInt_spec by exact H. apply consume_or_keep; [exact H | lia].
  - rewrite readLong_spec by exact H. apply consume_or_keep; [exact H | lia].
Qed.

Lemma step_wf b b' : step b b' -> wf b -> wf b'.
Proof.
  intros S H. pose proof H as [Hv [Hr Hw]]. unfold readerIndex, writerIndex in Hr, Hw.
  destruct S.
  - apply setReaderIndex_wf, H.
  - apply offsetReaderIndex_wf, H.
  - apply setWriterIndex_wf, H.
  - apply offsetWriterIndex_wf, H.
  - apply setIndex_wf, H.
  - apply upd_wf; [exact Hv | cbn; lia | cbn; apply zlen_nonneg].
  - apply upd_wf; [exact Hv | cbn; lia | cbn; lia].
  - unfold resetReaderIndex. mstep. apply setReaderIndex_wf, H.
  - apply upd_wf; [exact Hv | cbn; lia | cbn; lia].
  - destruct (discardReadBytes_queue b H) as (b' & -> & H' & _). exact H'.
  - apply resetWriterIndex_wf; assumption.
  - apply skipBytes_wf; assumption.
  - apply read_field_wf, H.
  - destruct (write_field_spec f b H) as (b' & -> & Ha); [assumption | apply Ha].
  - destruct (ensureWritableBytes_queue b n H) as (b' & -> & Hk); [assumption.. | apply Hk].
Qed.

(** C3: the invariant of the class documentation,
    0 <= readerIndex <= writerIndex <= capacity, holds in every state reached from
    a well-formed buffer by the steps of [step], the calls that throw included:
    the index functions that check their arguments, clear, the marks and
    resetReaderIndex, discardReadBytes, typed reads, typed writes and
    ensureWritableBytes of what fits, and, under the conditions that are also
    necessary ([resetWriterIndex_wf], [skipBytes_wf]), the two that do not
    check: resetWriterIndex, which stores the mark as it is, only while the mark
    lies between the reader index and the capacity, and skipBytes only where the
    new reader index is not negative. *)
Theorem reachable_wf b b' : rtc step b b' -> wf b -> wf b'.
Proof. intros R. induction R as [b|b b1 b2 S R IH]; [auto|]. intros H. apply IH, (step_wf b b1 S H). Qed.

End Invariant.

(** ** Buffers without room *)

Section NoRoom.
Context {B : Type} {RB : RawBuffer B} {RS : ReadSpec B} {WS : WriteSpec B}.

(** Strong exception safety of the multi-byte writes of a fixed-size
    buffer: without room they throw, and the readable bytes, the indexes and the
    byte order are those before the call, although some of the bytes of the
    value may have been stored behind the writer index. *)
Theorem failed_write_keeps (f : field) (b : B) :
  wf b -> (forall v, f <> FByte v) -> zlen (content b) < writerIndex b + width f ->
  exists b', write_field (WB := abstractWriteBuffer B) f b = (Err RangeException, b') /\ wf b' /\
    queue b' = queue b /\ indexes b' = indexes b /\ order b' = order b.
Proof.
  intros H Hf Hn.
  assert (exists b', write_field (WB := abstractWriteBuffer B) f b = (Err RangeException, b') /\
    kept b b') as (b' & E & []).
  { destruct f as [v|v|v|v|v]; cbn in *.
    - exfalso. exact (Hf v eq_refl).
    - exact (proj2 (writeShort_default b v H) Hn).
    - exact (proj2 (writeMedium_default b v H) Hn).
    - exact (proj2 (writeInt_default b v H) Hn).
    - exact (proj2 (writeLong_default b v H) Hn). }
  exists b'. auto.
Qed.

(** [writeByte] lacks that safety: on a full buffer it throws and leaves the
    writer index one beyond the capacity, so that the invariant is broken. *)
Theorem failed_writeByte_breaks (v : Z) (b : B) :
  wf b -> writerIndex b = zlen (content b) -> zlen (content b) < INT_MAX ->
  exists b', AbstractChannelBuffer.writeByte v b = (Err RangeException, b') /\
    writerIndex b' = capacity b + 1 /\ ~ wf b'.
Proof.
  intros H Hn Hm. destruct (writeByte_full b v H Hn Hm) as (b' & E & Hw & Hc).
  exists b'. split; [exact E|]. split; [rewrite capacity_content by apply H; congruence|].
  intros [_ [_ Hw']]. lia.
Qed.

End NoRoom.

(** ** Zeros *)

Section Zeros.
Context {B : Type} {RB : RawBuffer B} {WB : WriteBuffer B} {RS : ReadSpec B} {QS : QueueSpec B}.

Lemma encode_0 o n : encode o n 0 = repeat 0 n.
Proof.
  assert (le_encode n 0 = repeat 0 n) as E.
  { induction n as [|n IH]; cbn [le_encode repeat]; [reflexivity|]. rewrite Z.shiftr_0_l, IH. reflexivity. }
  destruct o; cbn; rewrite E; [|reflexivity].
  clear E. induction n as [|n IH]; [reflexivity|]. cbn [repeat rev]. rewrite IH.
  change [0] with (repeat 0 1). rewrite <- repeat_app, Nat.add_comm. reflexivity.
Qed.

Lemma repeatWrite_spec n k (m : M B unit) (b : B) :
  0 <= k -> (forall b, wf b -> writerIndex b + k <= limit b ->
    exists b', m b = (Ok tt, b') /\ appended b (repeat 0 (Z.to_nat k)) b') ->
  wf b -> writerIndex b + Z.of_nat n * k <= limit b ->
  exists b', repeatWrite n m b = (Ok tt, b') /\ appended b (repeat 0 (n * Z.to_nat k)) b'.
Proof.
  intros Hk Hm. revert b. induction n as [|n IH]; intros b H Hn.
  - exists b. split; [reflexivity | apply appended_nil, kept_refl, H].
  - assert (0 <= Z.of_nat n * k) by lia.
    destruct (Hm b H) as (b1 & E1 & H1); [lia|].
    pose proof (appended_writerIndex _ _ _ H H1) as Hw1.
    pose proof (limit_appended _ _ _ H1) as Hl1.
    assert (zlen (repeat 0 (Z.to_nat k)) = k) as Hz by (unfold zlen; rewrite repeat_length; lia).
    destruct (IH b1) as (b2 & E2 & H2); [apply H1 | lia |].
    exists b2. cbn [repeatWrite]. rewrite (bind_ok _ _ _ _ _ E1). split; [exact E2|].
    rewrite Nat.mul_succ_l, Nat.add_comm, repeat_app. exact (appended_app _ _ _ _ _ H1 H2).
Qed.

(** The three writes of zeros. *)
Lemma writeLong_zero b : wf b -> writerIndex b + 8 <= limit b ->
  exists b', Buffer.writeLong 0 b = (Ok tt, b') /\ appended b (repeat 0 (Z.to_nat 8)) b'.
Proof.
  intros H Hr. destruct (writeLong_queue b 0 H Hr) as (b' & E & Ha).
  rewrite encode_0 in Ha. exists b'. auto.
Qed.

Lemma writeInt_zero b : wf b -> writerIndex b + 4 <= limit b ->
  exists b', Buffer.writeInt 0 b = (Ok tt, b') /\ appended b (repeat 0 4) b'.
Proof.
  intros H Hr. destruct (writeInt_queue b 0 H Hr) as (b' & E & Ha).
  rewrite encode_0 in Ha. exists b'. auto.
Qed.

Lemma writeBytes_zero r b : 0 <= r -> wf b -> writerIndex b + r <= limit b ->
  exists b', repeatWrite (Z.to_nat r) (Buffer.writeByte 0) b = (Ok tt, b') /\
    appended b (repeat 0 (Z.to_nat r)) b'.
Proof.
  intros Hr H Hl. destruct (repeatWrite_spec (Z.to_nat r) 1 (Buffer.writeByte 0) b) as (b' & E & Ha);
    [lia | | exact H | lia |].
  - intros b0 H0 Hl0. exact (writeByte_queue b0 0 H0 Hl0).
  - exists b'. split; [exact E|]. rewrite Nat.mul_1_r in Ha. exact Ha.
Qed.

(** The zeros after the longs. *)
Lemma writeZero_tail r b : 0 <= r < 8 -> wf b -> writerIndex b + r <= limit b ->
  exists b', (if r =? 4 then Buffer.writeInt 0
    else if r <? 4 then repeatWrite (Z.to_nat r) (Buffer.writeByte 0)
    else Buffer.writeInt 0 ;! repeatWrite (Z.to_nat (r - 4)) (Buffer.writeByte 0)) b = (Ok tt, b') /\
    appended b (repeat 0 (Z.to_nat r)) b'.
Proof.
  intros Hr H Hl. destruct (r =? 4) eqn:Er; zbool; [rewrite Er in *; apply writeInt_zero; assumption|].
  destruct (r <? 4) eqn:E4; zbool; [apply writeBytes_zero; lia || assumption|].
  destruct (writeInt_zero b H) as (b2 & E2 & H2); [lia|].
  pose proof (appended_writerIndex _ _ _ H H2) as Hw2.
  pose proof (limit_appended _ _ _ H2) as Hl2. change (zlen (repeat 0 4)) with 4 in Hw2.
  destruct (writeBytes_zero (r - 4) b2) as (b3 & E3 & H3); [lia | apply H2 | lia |].
  exists b3. rewrite (bind_ok _ _ _ _ _ E2). split; [exact E3|].
  pose proof (appended_app _ _ _ _ _ H2 H3) as Ha. rewrite <- repeat_app in Ha.
  replace (4 + Z.to_nat (r - 4))%nat with (Z.to_nat r) in Ha by lia. exact Ha.
Qed.

(** [writeZero] appends exactly as many zeros as asked for, whatever mix of
    long, int and byte writes it chooses. *)
Theorem writeZero_zeros (n : Z) (b : B) :
  wf b -> 0 <= n -> writerIndex b + n <= limit b ->
  exists b', writeZero n b = (Ok tt, b') /\ wf b' /\
    queue b' = queue b ++ repeat 0 (Z.to_nat n).
Proof.
  intros H Hn Hl.
  enough (exists b', writeZero n b = (Ok tt, b') /\ appended b (repeat 0 (Z.to_nat n)) b')
    as (b' & E & []) by (exists b'; auto).
  unfold writeZero. destruct (n =? 0) eqn:E0; zbool.
  { exists b. subst n. split; [reflexivity | apply appended_nil, kept_refl, H]. }
  zif. rewrite Z.shiftr_div_pow2 by lia. change 7 with (Z.ones 3).
  rewrite Z.land_ones by lia. change (2 ^ 3) with 8.
  pose proof (Z.div_mod n 8 ltac:(lia)) as D. pose proof (Z.mod_pos_bound n 8 eq_refl) as M.
  assert (0 <= n / 8) as Hq by (apply Z.div_pos; lia).
  destruct (repeatWrite_spec (Z.to_nat (n / 8)) 8 (Buffer.writeLong 0) b) as (b1 & E1 & H1);
    [lia | exact writeLong_zero | exact H | lia |].
  pose proof (appended_writerIndex _ _ _ H H1) as Hw1. pose proof (limit_appended _ _ _ H1) as Hl1.
  unfold zlen in Hw1. rewrite repeat_length in Hw1.
  destruct (writeZero_tail (n mod 8) b1) as (b2 & E2 & H2); [lia | apply H1 | lia |].
  exists b2. rewrite (bind_ok _ _ _ _ _ E1). split; [exact E2|].
  pose proof (appended_app _ _ _ _ _ H1 H2) as Ha. rewrite <- repeat_app in Ha.
  replace (Z.to_nat (n / 8) * Z.to_nat 8 + Z.to_nat (n mod 8))%nat with (Z.to_nat n) in Ha by lia.
  exact Ha.
Qed.

End Zeros.

(** ** Transfers *)

Section Transfers.
Context {B : Type} {RB : RawBuffer B} {RS : ReadSpec B}.
Context {D : Type} {RD : RawBuffer D} {RSD : ReadSpec D}.

Lemma zoom_fst {S T A} (m : M S A) (s : S) (t : T) :
  zoom fst (fun b p => (b, snd p)) m (s, t) = (fst (m s), (snd (m s), t)).
Proof. unfold zoom. cbn. destruct (m s). reflexivity. Qed.

Lemma zoom_snd {S T A} (m : M T A) (s : S) (t : T) :
  zoom snd (fun d p => (fst p, d)) m (s, t) = (fst (m t), (s, snd (m t))).
Proof. unfold zoom. cbn. destruct (m t). reflexivity. Qed.

(** The bytes at the front of the queue, as a region of the content. *)
Lemma queue_front (b : B) n :
  wf b -> 0 <= n <= zlen (queue b) ->
  zsub (content b) (readerIndex b) n = take (Z.to_nat n) (queue b).
Proof.
  intros H Hn. rewrite zlen_queue in Hn by exact H. destruct H as [_ [Hr Hw]].
  unfold queue. change (take (Z.to_nat n) ?l) with (zsub l 0 n).
  rewrite zsub_zsub by lia. rewrite Z.add_0_r. reflexivity.
Qed.

(** The destination after its region at the writer index was filled and the
    index moved over it. *)
Lemma setWriterIndex_appended (d d' : D) bs :
  wf d -> writerIndex d + zlen bs <= zlen (content d) ->
  updated d (overwrite (content d) (writerIndex d) bs) d' ->
  exists d'', setWriterIndex (i32 (writerIndex d' + zlen bs)) d' = (Ok tt, d'') /\ appended d bs d''.
Proof.
  intros H Hn Hu. destruct (advanceWriter_appended d bs d' H Hn Hu) as (d'' & E & Ha).
  exists d''. split; [|exact Ha]. rewrite <- E.
  pose proof H as [Hv [Hr Hw]]. pose proof (content_max d Hv). pose proof (zlen_nonneg bs).
  destruct Hu as [Hv' Hc' Hi' Ho'].
  assert (zlen (content d') = zlen (content d)) as Hl by (rewrite Hc'; apply zlen_overwrite; lia).
  pose proof (capacity_content d' Hv') as Hcap.
  unfold setWriterIndex, advanceWriter, upd, modify, readerIndex, writerIndex in *.
  rewrite Hi' in *. rewrite i32_id by solve_range. mstep. unfold id.
  destruct (_ || _)%bool eqn:T; [|unfold ret; cbn; rewrite Hi'; reflexivity].
  exfalso. rewrite Hi', Hcap, Hl in T. zbool.
  destruct T; zbool; lia.
Qed.

(** [readBytes] into another buffer moves bytes from one queue to the other:
    as many as asked for leave the front of the source and arrive, in order, at
    the end of the destination; when the source has not enough of them or the
    destination not enough room it throws and changes neither. *)
Theorem readBytes_transfers {TB : TransferSpec B} {WSD : WriteSpec D} (n : Z) (b : B) (d : D) :
  wf b -> wf d -> 0 <= n ->
  (n <= zlen (queue b) /\ n <= zlen (content d) - writerIndex d ->
    exists b' d', readBytesBufferLen n (b, d) = (Ok tt, (b', d')) /\ wf b' /\ wf d' /\
      queue b = take (Z.to_nat n) (queue b) ++ queue b' /\
      queue d' = queue d ++ take (Z.to_nat n) (queue b)) /\
  (~ (n <= zlen (queue b) /\ n <= zlen (content d) - writerIndex d) ->
    readBytesBufferLen n (b, d) = (Err RangeException, (b, d))).
Proof.
  intros H Hd Hn. unfold readBytesBufferLen, readBytesBufferAt. mstep. unfold id. cbn [fst snd].
  rewrite writableBytes_room by exact Hd. rewrite Z.gtb_ltb. split.
  - intros [Hq Hr]. zif.
    erewrite bind_ok by (rewrite zoom_fst, checkReadableBytes_spec by exact H; zif; reflexivity).
    mstep. unfold id. cbn [fst snd].
    pose proof (zlen_queue b H) as Hz. pose proof H as [Hv [Hri Hwi]]. pose proof Hd as [Hvd [Hrd Hwd]].
    destruct (getBytesTo_law D b d (readerIndex b) (writerIndex d) n Hv Hvd) as (d1 & E1 & Hu);
      [unfold in_range; lia .. |].
    erewrite bind_ok by (rewrite zoom_snd, E1; reflexivity). cbn [fst snd].
    erewrite bind_ok by (rewrite zoom_fst, advance_spec by (exact H || lia); reflexivity).
    mstep. cbn [fst snd].
    rewrite queue_front in Hu by (exact H || lia).
    assert (zlen (take (Z.to_nat n) (queue b)) = n) as Hl.
    { unfold zlen in *. rewrite length_take. lia. }
    destruct (setWriterIndex_appended d d1 (take (Z.to_nat n) (queue b)) Hd) as (d2 & E2 & Ha);
      [lia | exact Hu |].
    rewrite Hl in E2. exists (consume n b), d2. rewrite zoom_snd, E2.
    split; [reflexivity|]. split; [apply consume_wf; [exact H | lia]|]. split; [apply Ha|].
    split; [|apply Ha]. rewrite consume_queue, take_drop by (exact H || lia). reflexivity.
  - intros Hf. destruct (_ <? n) eqn:E; [reflexivity|]. zbool.
    apply bind_err. rewrite zoom_fst, checkReadableBytes_spec by exact H.
    destruct (zlen (queue b) <? n) eqn:E2; [reflexivity|]. zbool. lia.
Qed.

(** [writeBytes] from another buffer, for every destination class: the
    bytes leave the source and are appended to the destination. *)
Theorem writeBytes_transfers {WD : WriteBuffer D} {QD : QueueSpec D} (n : Z) (d : D) (b : B) :
  wf d -> wf b -> 0 <= n <= zlen (queue b) -> writerIndex d + n <= limit d ->
  exists d' b', writeBytesFromLen n (d, b) = (Ok tt, (d', b')) /\ wf d' /\ wf b' /\
    queue b = take (Z.to_nat n) (queue b) ++ queue b' /\
    queue d' = queue d ++ take (Z.to_nat n) (queue b).
Proof.
  intros Hd H Hn Hl. unfold writeBytesFromLen. mstep. unfold id. cbn [fst snd].
  rewrite readableBytes_queue, Z.gtb_ltb by exact H. zif.
  pose proof (zlen_queue b H) as Hz. pose proof H as [Hv [Hri Hwi]].
  pose proof (content_max b Hv) as Hm.
  destruct (writeBytesBuffer_queue d (getBytes b) (content b) (readerIndex b) n Hd)
    as (d1 & E1 & Ha); [apply content_i8, Hv | apply getBytes_law, Hv | unfold in_range; lia | exact Hl |].
  erewrite bind_ok by (rewrite zoom_fst, E1; reflexivity). mstep. cbn [fst snd].
  rewrite queue_front in Ha by (exact H || lia).
  assert (setReaderIndex (i32 (readerIndex b + n)) b = (Ok tt, consume n b)) as E2.
  { rewrite i32_id by solve_range. unfold setReaderIndex. mstep.
    destruct (_ || _)%bool eqn:T; [zbool; destruct T; zbool; lia | reflexivity]. }
  exists d1, (consume n b). rewrite zoom_snd, E2. split; [reflexivity|].
  split; [apply Ha|]. split; [apply consume_wf; [exact H | lia]|]. split; [|apply Ha].
  rewrite consume_queue, take_drop by (exact H || lia). reflexivity.
Qed.

End Transfers.

(** ** Concrete runs *)

Section Witnesses.
#[local] Existing Instance zeroAllocator.

(** A big-endian heap buffer of 8 bytes with 2 of them read and 3 readable. *)
Definition heap8 : HeapChannelBuffer.t :=
  HeapChannelBuffer.MkHeap BYTE_ORDER_BIG (MkIndexes 2 5 0 0) true
    (Array.Data [1; 2; 3; -4; 5; 0; 0; 0]).

(** A little-endian dynamic buffer of capacity 2. *)
Definition dynamic2 : DynamicChannelBuffer.t HeapChannelBuffer.t :=
  DynamicChannelBuffer.MkDynamic BYTE_ORDER_LITTLE (MkIndexes 0 0 0 0)
    (HeapChannelBuffer.MkHeap BYTE_ORDER_LITTLE (MkIndexes 0 0 0 0) true (Array.Data [0; 0])).

(** A full heap buffer. *)
Definition heap_full : HeapChannelBuffer.t :=
  HeapChannelBuffer.MkHeap BYTE_ORDER_BIG (MkIndexes 0 2 0 0) true (Array.Data [7; 8]).

Lemma heap8_wf : wf heap8.
Proof. apply heap_wf; [repeat constructor; solve_range | discriminate | lia | discriminate]. Defined.

Lemma heap_full_wf : wf heap_full.
Proof. apply heap_wf; [repeat constructor; solve_range | discriminate | lia | discriminate]. Defined.

Lemma dynamic2_wf : wf dynamic2.
Proof.
  split; [split; [|left; reflexivity]|].
  - exists [0; 0]. split; [reflexivity|]. split; [repeat constructor; solve_range | discriminate].
  - split; [split; discriminate | discriminate].
Defined.

Definition sample : list field := [FByte 200; FShort (-2); FMedium (-5); FInt 70000; FLong (-1)].

Lemma write_read_fields_witness :
  exists b1 b2, write_fields sample dynamic2 = (Ok tt, b1) /\
    read_fields sample b1 = (Ok [-56; -2; -5; 70000; -1], b2) /\ wf b2 /\ queue b2 = [].
Proof. apply (write_read_fields sample dynamic2); [exact dynamic2_wf | reflexivity | vm_compute; discriminate]. Defined.

Lemma write_fields_append_witness :
  exists b, write_fields [FShort 258; FByte 9] heap8 = (Ok tt, b) /\ wf b /\
    queue b = [3; -4; 5] ++ [1; 2; 9] /\ readerIndex b = 2 /\ writerIndex b = 8 /\ order b = BYTE_ORDER_BIG.
Proof.
  destruct (write_fields_append [FShort 258; FByte 9] heap8) as (b & E & H);
    [exact heap8_wf | vm_compute; discriminate | exists b; split; [exact E | exact H]].
Defined.

(** A run with a failing call: the index out of bounds is refused. *)
Lemma reachable_wf_witness :
  rtc step heap8 (snd (setReaderIndex 99 (snd (Buffer.discardReadBytes heap8)))) /\
  wf (snd (setReaderIndex 99 (snd (Buffer.discardReadBytes heap8)))).
Proof.
  assert (rtc step heap8 (snd (setReaderIndex 99 (snd (Buffer.discardReadBytes heap8))))) as R.
  { eapply rtc_l; [apply step_discardReadBytes|]. eapply rtc_l; [apply step_setReaderIndex | apply rtc_refl]. }
  split; [exact R | exact (reachable_wf _ _ R heap8_wf)].
Defined.

Lemma failed_write_keeps_witness :
  exists b, write_field (FInt 5) heap_full = (Err RangeException, b) /\ wf b /\ queue b = [7; 8] /\
    indexes b = MkIndexes 0 2 0 0 /\ order b = BYTE_ORDER_BIG.
Proof.
  destruct (failed_write_keeps (FInt 5) heap_full) as (b & E & H);
    [exact heap_full_wf | discriminate | reflexivity | exists b; split; [exact E | exact H]].
Defined.

Lemma failed_writeByte_breaks_witness :
  exists b, AbstractChannelBuffer.writeByte 5 heap_full = (Err RangeException, b) /\ writerIndex b = 3 /\ ~ wf b.
Proof.
  destruct (failed_writeByte_breaks 5 heap_full) as (b & E & H);
    [exact heap_full_wf | reflexivity | reflexivity | exists b; split; [exact E | exact H]].
Defined.

Lemma writeZero_zeros_witness :
  exists b, writeZero 15 dynamic2 = (Ok tt, b) /\ wf b /\
    queue b = [] ++ [0; 0; 0; 0; 0; 0; 0; 0; 0; 0; 0; 0; 0; 0; 0].
Proof.
  destruct (writeZero_zeros 15 dynamic2) as (b & E & H);
    [exact dynamic2_wf | discriminate | vm_compute; discriminate | exists b; split; [exact E | exact H]].
Defined.

Lemma readBytes_transfers_witness :
  exists b d, readBytesBufferLen 2 (heap8, heap8) = (Ok tt, (b, d)) /\ wf b /\ wf d /\
    [3; -4; 5] = [3; -4] ++ queue b /\ queue d = [3; -4; 5] ++ [3; -4].
Proof.
  destruct (readBytes_transfers 2 heap8 heap8 heap8_wf heap8_wf ltac:(lia)) as [H _].
  destruct H as (b & d & E & H); [split; vm_compute; discriminate|].
  exists b, d. split; [exact E | exact H].
Defined.

Lemma writeBytes_transfers_witness :
  exists d b, writeBytesFromLen 3 (dynamic2, heap8) = (Ok tt, (d, b)) /\ wf d /\ wf b /\
    [3; -4; 5] = [3; -4; 5] ++ queue b /\ queue d = [] ++ [3; -4; 5].
Proof.
  destruct (writeBytes_transfers 3 dynamic2 heap8) as (d & b & E & H);
    [exact dynamic2_wf | exact heap8_wf | split; vm_compute; discriminate | vm_compute; discriminate |].
  exists d, b. split; [exact E | exact H].
Defined.

Lemma growth_keeps_bytes_witness :
  exists d, DynamicChannelBuffer.ensureWritableBytes 100 dynamic2 = (Ok tt, d) /\ wf d /\
    queue d = queue dynamic2 /\ indexes d = MkIndexes 0 0 0 0 /\ order d = BYTE_ORDER_LITTLE /\
    writerIndex d + 100 <= capacity d.
Proof.
  destruct (growth_keeps_bytes dynamic2 100) as (d & E & H);
    [exact dynamic2_wf | discriminate | vm_compute; discriminate | exists d; split; [exact E | exact H]].
Defined.

Lemma growth_diverges_witness : DynamicChannelBuffer.grow 1000 2 1073741825 = None.
Proof.
  pose proof (growth_diverges dynamic2 1 1073741825 1000 eq_refl ltac:(lia)) as H.
  assert (i32 (writerIndex dynamic2 + 1073741825) = 1073741825) as E by (vm_compute; reflexivity).
  rewrite E in H. change (capacity dynamic2) with 2 in H. apply H.
  split; [reflexivity | discriminate].
Defined.

End Witnesses.
