(* ===== verification/BufferUtil.v ===== *)
(** * Searching, comparing, hashing and dumping buffers

    The static functions of [src/src/cetty/buffer/ChannelBuffers.cpp] on the
    bytes of a buffer, the finders of
    [src/src/cetty/buffer/ChannelBufferIndexFinder.cpp], and the members of
    [AbstractChannelBuffer.cpp] that call them.  They only read, through
    [RawBuffer]; the theorems hold of every class with [ReadSpec]. *)

From S2P Require Import Prelude MachineInt Buffer AbstractBuffer BufferTheory HeapBuffer.
Import AbstractChannelBuffer.

(** ** Byte swapping *)

Module Swap.

Definition swapShort (value : Z) : Z :=
  i16 (Z.lor (Z.shiftl value 8) (Z.land (Z.shiftr value 8) 0xff)).

Definition swapMedium (value : Z) : Z :=
  Z.lor (Z.lor (Z.land (Z.shiftl value 16) 0xff0000) (Z.land value 0xff00))
        (Z.land (Z.shiftr value 16) 0xff).

Definition swapInt (value : Z) : Z :=
  i32 (Z.lor (Z.shiftl (swapShort (i16 value)) 16)
             (Z.land (swapShort (i16 (Z.shiftr value 16))) 0xffff)).

Definition swapLong (value : Z) : Z :=
  i64 (Z.lor (Z.shiftl (swapInt (i32 value)) 32)
             (Z.land (swapInt (i32 (Z.shiftr value 32))) 0xffffffff)).

End Swap.

Module BufferUtil.
Import Swap.

(** ** Index finders *)

Section Search.
Context {B : Type} {RB : RawBuffer B}.

Definition Finder : Type := B -> Z -> result bool.

Definition byte_finder (p : Z -> bool) : Finder := fun b i =>
  let? v := getByte b i in Ok (p v).

Definition NUL : Finder := byte_finder (fun v => v =? 0).
Definition NOT_NUL : Finder := byte_finder (fun v => negb (v =? 0)).
Definition CR : Finder := byte_finder (fun v => v =? 13).
Definition NOT_CR : Finder := byte_finder (fun v => negb (v =? 13)).
Definition LF : Finder := byte_finder (fun v => v =? 10).
Definition NOT_LF : Finder := byte_finder (fun v => negb (v =? 10)).
Definition CRLF : Finder := byte_finder (fun v => (v =? 13) || (v =? 10)).
Definition NOT_CRLF : Finder := byte_finder (fun v => negb (v =? 13) && negb (v =? 10)).
Definition LINEAR_WHITESPACE : Finder := byte_finder (fun v => (v =? 32) || (v =? 9)).
Definition NOT_LINEAR_WHITESPACE : Finder := byte_finder (fun v => negb (v =? 32) && negb (v =? 9)).

(** [for (int i = ...; i < toIndex; ++i)]. *)
Fixpoint scanUp (n : nat) (find : Z -> result bool) (i : Z) : result Z :=
  match n with
  | O => Ok (-1)
  | S n =>
      let? found := find i in
      if (found : bool) then Ok i else scanUp n find (i + 1)
  end.

(** [for (int i = ...; i >= toIndex; --i)]. *)
Fixpoint scanDown (n : nat) (find : Z -> result bool) (i : Z) : result Z :=
  match n with
  | O => Ok (-1)
  | S n =>
      let? found := find i in
      if (found : bool) then Ok i else scanDown n find (i - 1)
  end.

Definition firstIndexOf (b : B) (fromIndex toIndex : Z) (indexFinder : Finder) : result Z :=
  let fromIndex := Z.max fromIndex 0 in
  if (fromIndex >=? toIndex) || (capacity b =? 0) then Ok (-1)
  else scanUp (Z.to_nat (toIndex - fromIndex)) (indexFinder b) fromIndex.

Definition lastIndexOf (b : B) (fromIndex toIndex : Z) (indexFinder : Finder) : result Z :=
  let fromIndex := Z.min fromIndex (capacity b) in
  if (fromIndex <? 0) || (capacity b =? 0) then Ok (-1)
  else scanDown (Z.to_nat (fromIndex - toIndex)) (indexFinder b) (fromIndex - 1).

Definition indexOf (b : B) (fromIndex toIndex : Z) (indexFinder : Finder) : result Z :=
  if fromIndex <=? toIndex then firstIndexOf b fromIndex toIndex indexFinder
  else lastIndexOf b fromIndex toIndex indexFinder.

(** The overloads that take the byte: [buffer.getByte(i) == value]. *)
Definition indexOfByte (b : B) (fromIndex toIndex value : Z) : result Z :=
  indexOf b fromIndex toIndex (byte_finder (fun v => v =? value)).

Definition bytesBeforeAt (b : B) (index len : Z) (indexFinder : Finder) : result Z :=
  let? endIndex := indexOf b index (i32 (index + len)) indexFinder in
  if endIndex <? 0 then Ok (-1) else Ok (i32 (endIndex - index)).

Definition bytesBefore (b : B) (indexFinder : Finder) : result Z :=
  bytesBeforeAt b (readerIndex b) (readableBytes b) indexFinder.

Definition bytesBeforeLen (b : B) (len : Z) (indexFinder : Finder) : result Z :=
  if readableBytes b <? len then Err RangeException
  else bytesBeforeAt b (readerIndex b) len indexFinder.

End Search.

(** ** Hash code *)

Section Hash.
Context {B : Type} {RB : RawBuffer B}.

Fixpoint hashInts (n : nat) (b : B) (swap : Z -> Z) (arrayIndex hashCode : Z) : result (Z * Z) :=
  match n with
  | O => Ok (arrayIndex, hashCode)
  | S n =>
      let? v := getInt b arrayIndex in
      hashInts n b swap (i32 (arrayIndex + 4)) (i32 (31 * hashCode + swap v))
  end.

Fixpoint hashBytes (n : nat) (b : B) (arrayIndex hashCode : Z) : result Z :=
  match n with
  | O => Ok hashCode
  | S n =>
      let? v := getByte b arrayIndex in
      hashBytes n b (i32 (arrayIndex + 1)) (i32 (31 * hashCode + v))
  end.

Definition hashCode (b : B) : result Z :=
  let aLen := readableBytes b in
  let intCount := Z.shiftr aLen 2 in
  let byteCount := Z.land aLen 3 in
  let swap := match order b with BYTE_ORDER_BIG => id | BYTE_ORDER_LITTLE => swapInt end in
  let? r := hashInts (Z.to_nat intCount) b swap (readerIndex b) 1 in
  let? h := hashBytes (Z.to_nat byteCount) b (fst r) (snd r) in
  Ok (if h =? 0 then 1 else h).

(** ** Hex dump *)

Definition DIGITS : list Z := [48; 49; 50; 51; 52; 53; 54; 55; 56; 57; 97; 98; 99; 100; 101; 102].

(** [HexDumpTableInitializer]. *)
Definition HEXDUMP_TABLE : list Z :=
  concat (map (fun i => [znth 0 DIGITS (Z.land (Z.shiftr i 4) 0x0F);
                         znth 0 DIGITS (Z.land (Z.shiftr i 0) 0x0F)])
    (map Z.of_nat (seq 0 256))).

Fixpoint hexDumpLoop (n : nat) (b : B) (srcIdx : Z) : result (list Z) :=
  match n with
  | O => Ok []
  | S n =>
      let? v := getUnsignedByte b srcIdx in
      let? rest := hexDumpLoop n b (srcIdx + 1) in
      Ok (znth 0 HEXDUMP_TABLE (Z.shiftl v 1) :: znth 0 HEXDUMP_TABLE (Z.shiftl v 1 + 1) :: rest)
  end.

Definition hexDumpAt (b : B) (fromIndex length : Z) : result (list Z) :=
  if length <? 0 then Err InvalidArgumentException
  else if length =? 0 then Ok []
  else hexDumpLoop (Z.to_nat (i32 (fromIndex + length) - fromIndex)) b fromIndex.

Definition hexDump (b : B) : result (list Z) := hexDumpAt b (readerIndex b) (readableBytes b).

End Hash.

(** ** Equality and order *)

Section Compare.
Context {A : Type} {RA : RawBuffer A} {B : Type} {RB : RawBuffer B}.

(** The loops leave with [None] when the code returns [false]. *)
Fixpoint equalsLongs (n : nat) (a : A) (b : B) (swap : Z -> Z) (aIndex bIndex : Z)
  : result (option (Z * Z)) :=
  match n with
  | O => Ok (Some (aIndex, bIndex))
  | S n =>
      let? va := getLong a aIndex in
      let? vb := getLong b bIndex in
      if negb (va =? swap vb) then Ok None
      else equalsLongs n a b swap (i32 (aIndex + 8)) (i32 (bIndex + 8))
  end.

Fixpoint equalsBytes (n : nat) (a : A) (b : B) (aIndex bIndex : Z) : result bool :=
  match n with
  | O => Ok true
  | S n =>
      let? va := getByte a aIndex in
      let? vb := getByte b bIndex in
      if negb (va =? vb) then Ok false
      else equalsBytes n a b (i32 (aIndex + 1)) (i32 (bIndex + 1))
  end.

Definition equals (a : A) (b : B) : result bool :=
  let aLen := readableBytes a in
  if negb (aLen =? readableBytes b) then Ok false
  else
    let longCount := Z.shiftr aLen 3 in
    let byteCount := Z.land aLen 7 in
    let swap := if ByteOrder_eqb (order a) (order b) then id else swapLong in
    let? r := equalsLongs (Z.to_nat longCount) a b swap (readerIndex a) (readerIndex b) in
    match r with
    | None => Ok false
    | Some (aIndex, bIndex) => equalsBytes (Z.to_nat byteCount) a b aIndex bIndex
    end.

(** The loops leave with [inl r] when the code returns [r]. *)
Fixpoint compareInts (n : nat) (a : A) (b : B) (valueB : Z -> result Z) (aIndex bIndex : Z)
  : result (Z + Z * Z) :=
  match n with
  | O => Ok (inr (aIndex, bIndex))
  | S n =>
      let? va := getUnsignedInt a aIndex in
      let? vb := valueB bIndex in
      if va >? vb then Ok (inl 1)
      else if va <? vb then Ok (inl (-1))
      else compareInts n a b valueB (i32 (aIndex + 4)) (i32 (bIndex + 4))
  end.

Fixpoint compareBytes (n : nat) (a : A) (b : B) (aIndex bIndex : Z) : result (option Z) :=
  match n with
  | O => Ok None
  | S n =>
      let? va := getByte a aIndex in
      let? vb := getByte b bIndex in
      if va >? vb then Ok (Some 1)
      else if va <? vb then Ok (Some (-1))
      else compareBytes n a b (i32 (aIndex + 1)) (i32 (bIndex + 1))
  end.

Definition compare (a : A) (b : B) : result Z :=
  let aLen := readableBytes a in
  let bLen := readableBytes b in
  let minLength := if aLen <? bLen then aLen else bLen in
  let uintCount := Z.shiftr minLength 2 in
  let byteCount := Z.land minLength 3 in
  let valueB (i : Z) : result Z :=
    if ByteOrder_eqb (order a) (order b) then getUnsignedInt b i
    else let? v := getInt b i in Ok (u32 (Z.land (swapInt v) 0xFFFFFFFF)) in
  let? r := compareInts (Z.to_nat uintCount) a b valueB (readerIndex a) (readerIndex b) in
  match r with
  | inl c => Ok c
  | inr (aIndex, bIndex) =>
      let? r := compareBytes (Z.to_nat byteCount) a b aIndex bIndex in
      match r with
      | Some c => Ok c
      | None => Ok (i32 (aLen - bLen))
      end
  end.

End Compare.
End BufferUtil.

(** ** Swapping the bytes of a value is reversing its encoding *)

Section SwapTheory.
Import Swap.

Definition sw16 (v : Z) : Z := 256 * (v mod 256) + v / 256 mod 256.
Definition sw32 (v : Z) : Z := 65536 * sw16 v + sw16 (v / 65536).
Definition sw64 (v : Z) : Z := 2 ^ 32 * sw32 v + sw32 (v / 2 ^ 32).

Lemma sw16_bound v : 0 <= sw16 v < 65536.
Proof.
  unfold sw16. pose proof (Z.mod_pos_bound v 256 eq_refl).
  pose proof (Z.mod_pos_bound (v / 256) 256 eq_refl). lia.
Qed.

Lemma sw32_bound v : 0 <= sw32 v < 2 ^ 32.
Proof.
  unfold sw32. pose proof (sw16_bound v). pose proof (sw16_bound (v / 65536)).
  change (2 ^ 32) with (65536 * 65536). lia.
Qed.

Lemma mod_shift v w m : 0 < m -> v mod m = w mod m -> exists k, v = w + k * m.
Proof.
  intros Hm E. exists (v / m - w / m).
  pose proof (Z.div_mod v m ltac:(lia)). pose proof (Z.div_mod w m ltac:(lia)). lia.
Qed.

Lemma sw16_mod v w : v mod 65536 = w mod 65536 -> sw16 v = sw16 w.
Proof.
  intros E. apply mod_shift in E as [k ->]; [|lia]. unfold sw16.
  replace (w + k * 65536) with (w + k * 256 * 256) by lia.
  rewrite Z.mod_add, Z.div_add, Z.mod_add by lia. reflexivity.
Qed.

Lemma sw32_mod v w : v mod 2 ^ 32 = w mod 2 ^ 32 -> sw32 v = sw32 w.
Proof.
  intros E. apply mod_shift in E as [k ->]; [|lia]. unfold sw32.
  change (2 ^ 32) with (65536 * 65536). rewrite Z.mul_assoc, Z.div_add by lia.
  f_equal; [f_equal|]; apply sw16_mod; apply Z.mod_add; lia.
Qed.

Lemma sw64_mod v w : v mod 2 ^ 64 = w mod 2 ^ 64 -> sw64 v = sw64 w.
Proof.
  intros E. apply mod_shift in E as [k ->]; [|lia]. unfold sw64.
  change (2 ^ 64) with (2 ^ 32 * 2 ^ 32). rewrite Z.mul_assoc, Z.div_add by lia.
  f_equal; [f_equal|]; apply sw32_mod; apply Z.mod_add; lia.
Qed.

Lemma swapShort_sw v : swapShort v mod 65536 = sw16 v.
Proof.
  unfold swapShort. change 65536 with (2 ^ 16). unfold i16. rewrite swrap_mod by lia.
  rewrite land_255, Z.shiftl_mul_pow2, Z.shiftr_div_pow2 by lia. change (2 ^ 8) with 256.
  pose proof (Z.mod_pos_bound (v / 256) 256 eq_refl).
  rewrite (lor_add 8) by (lia || apply Z.mod_mul; lia).
  unfold sw16. change (2 ^ 16) with 65536. dlia.
Qed.

Lemma swapInt_sw v : swapInt v = i32 (sw32 v).
Proof.
  unfold swapInt. apply swrap_cong.
  change 0xffff with (Z.ones 16). rewrite Z.land_ones, Z.shiftl_mul_pow2 by lia.
  change (2 ^ 16) with 65536. rewrite swapShort_sw.
  pose proof (sw16_bound (i16 (Z.shiftr v 16))).
  rewrite (lor_add 16); change (2 ^ 16) with 65536; [| lia | apply Z.mod_mul; lia | lia].
  unfold sw32. rewrite <- (Z.mul_comm 65536).
  rewrite <- (sw16_mod (i16 v) v) by exact (swrap_mod 16 v eq_refl).
  rewrite <- (sw16_mod (i16 (Z.shiftr v 16)) (v / 65536)).
  - rewrite <- (swapShort_sw (i16 v)).
    rewrite (Z.div_mod (swapShort (i16 v)) 65536) at 1 by lia.
    change (2 ^ 32) with (65536 * 65536).
    replace (65536 * (65536 * (swapShort (i16 v) / 65536) + swapShort (i16 v) mod 65536)
             + sw16 (i16 (Z.shiftr v 16)))
      with (65536 * (swapShort (i16 v) mod 65536) + sw16 (i16 (Z.shiftr v 16))
            + (swapShort (i16 v) / 65536) * (65536 * 65536)) by lia.
    apply Z.mod_add. lia.
  - rewrite Z.shiftr_div_pow2 by lia. exact (swrap_mod 16 (v / 2 ^ 16) eq_refl).
Qed.

Lemma swapLong_sw v : swapLong v = i64 (sw64 v).
Proof.
  unfold swapLong. apply swrap_cong.
  change 0xffffffff with (Z.ones 32). rewrite Z.land_ones, Z.shiftl_mul_pow2 by lia.
  rewrite !swapInt_sw. unfold i32 at 3. rewrite swrap_mod by lia.
  rewrite (Z.mod_small (sw32 (i32 (Z.shiftr v 32)))) by apply sw32_bound.
  rewrite (lor_add 32); [| lia | apply Z.mod_mul; lia | apply sw32_bound].
  unfold sw64. rewrite <- (Z.mul_comm (2 ^ 32)).
  rewrite <- (sw32_mod (i32 v) v) by exact (swrap_mod 32 v eq_refl).
  rewrite <- (sw32_mod (i32 (Z.shiftr v 32)) (v / 2 ^ 32)).
  - change (2 ^ 64) with (2 ^ 32 * 2 ^ 32). pose proof (swrap_mod 32 (sw32 (i32 v)) eq_refl) as E.
    apply mod_shift in E as [k E]; [|lia]. unfold i32 at 1. rewrite E.
    replace (2 ^ 32 * (sw32 (i32 v) + k * 2 ^ 32) + sw32 (i32 (Z.shiftr v 32)))
      with (2 ^ 32 * sw32 (i32 v) + sw32 (i32 (Z.shiftr v 32)) + k * (2 ^ 32 * 2 ^ 32)) by lia.
    apply Z.mod_add. lia.
  - rewrite Z.shiftr_div_pow2 by lia. exact (swrap_mod 32 (v / 2 ^ 32) eq_refl).
Qed.

Lemma le_decode_cons_mod b l : le_decode (b :: l) mod 256 = b mod 256.
Proof. cbn [le_decode]. rewrite Z.mul_comm, Z.mod_add, Z.mod_mod by lia. reflexivity. Qed.

Lemma le_decode_cons_div b l : le_decode (b :: l) / 256 = le_decode l.
Proof.
  cbn [le_decode]. rewrite Z.mul_comm, Z.div_add, Z.div_small by (try apply Z.mod_pos_bound; lia).
  reflexivity.
Qed.

Lemma sw16_le b0 b1 l : sw16 (le_decode (b0 :: b1 :: l)) = 256 * (b0 mod 256) + b1 mod 256.
Proof. unfold sw16. rewrite le_decode_cons_mod, le_decode_cons_div, le_decode_cons_mod. reflexivity. Qed.

Lemma le_decode_div16 b0 b1 l : le_decode (b0 :: b1 :: l) / 65536 = le_decode l.
Proof.
  change 65536 with (256 * 256). rewrite <- Z.div_div by lia.
  rewrite !le_decode_cons_div. reflexivity.
Qed.

Lemma sw32_le b0 b1 b2 b3 l :
  sw32 (le_decode (b0 :: b1 :: b2 :: b3 :: l)) = le_decode [b3; b2; b1; b0].
Proof.
  unfold sw32. rewrite le_decode_div16, !sw16_le. cbn [le_decode]. lia.
Qed.

Lemma sw64_le b0 b1 b2 b3 b4 b5 b6 b7 :
  sw64 (le_decode [b0; b1; b2; b3; b4; b5; b6; b7]) = le_decode [b7; b6; b5; b4; b3; b2; b1; b0].
Proof.
  unfold sw64. change (2 ^ 32) with (65536 * 65536). rewrite <- Z.div_div by lia.
  rewrite !le_decode_div16, !sw32_le. cbn [le_decode]. lia.
Qed.

(** [swapInt] turns the value of four bytes in one order into their value in the
    other order. *)
Lemma swapInt_rev l : length l = 4%nat -> swapInt (i32 (le_decode l)) = i32 (le_decode (rev l)).
Proof.
  intros H. do 4 (destruct l as [|? l]; [discriminate|]). destruct l; [|discriminate].
  rewrite swapInt_sw, (sw32_mod _ _ (swrap_mod 32 _ eq_refl)), sw32_le. reflexivity.
Qed.

Lemma swapLong_rev l : length l = 8%nat -> swapLong (i64 (le_decode l)) = i64 (le_decode (rev l)).
Proof.
  intros H. do 8 (destruct l as [|? l]; [discriminate|]). destruct l; [|discriminate].
  rewrite swapLong_sw, (sw64_mod _ _ (swrap_mod 64 _ eq_refl)), sw64_le. reflexivity.
Qed.

Definition flip (o : ByteOrder) : ByteOrder :=
  match o with BYTE_ORDER_BIG => BYTE_ORDER_LITTLE | BYTE_ORDER_LITTLE => BYTE_ORDER_BIG end.

Lemma swapInt_decode o l :
  length l = 4%nat -> swapInt (i32 (decode o l)) = i32 (decode (flip o) l).
Proof.
  intros H. destruct o; cbn.
  - rewrite swapInt_rev by (rewrite length_rev; exact H). rewrite rev_involutive. reflexivity.
  - apply swapInt_rev, H.
Qed.

Lemma swapLong_decode o l :
  length l = 8%nat -> swapLong (i64 (decode o l)) = i64 (decode (flip o) l).
Proof.
  intros H. destruct o; cbn.
  - rewrite swapLong_rev by (rewrite length_rev; exact H). rewrite rev_involutive. reflexivity.
  - apply swapLong_rev, H.
Qed.

(** Values of bytes determine the bytes. *)
Lemma decode_inj w o l1 l2 :
  0 < w -> w = 8 * zlen l1 -> zlen l1 = zlen l2 -> Forall is_i8 l1 -> Forall is_i8 l2 ->
  swrap w (decode o l1) = swrap w (decode o l2) -> l1 = l2.
Proof.
  intros Hw -> Hl H1 H2 E.
  apply (f_equal (fun z => z mod 2 ^ (8 * zlen l1))) in E. rewrite !swrap_mod in E by exact Hw.
  rewrite Z.mod_small in E by apply decode_bound.
  rewrite Hl, Z.mod_small in E by apply decode_bound.
  rewrite <- (encode_decode o l1 H1), <- (encode_decode o l2 H2), E. f_equal.
  unfold zlen in Hl. lia.
Qed.

End SwapTheory.

(** ** Accesses inside the readable bytes *)

Section QueueAccess.
Context {B : Type} {RB : RawBuffer B} {RS : ReadSpec B}.

Lemma queue_i8 (b : B) : wf b -> Forall is_i8 (queue b).
Proof. intros H. apply Forall_zsub, content_i8, H. Qed.

Lemma queue_max (b : B) : wf b -> readerIndex b + zlen (queue b) <= INT_MAX.
Proof.
  intros H. rewrite zlen_queue by exact H. destruct H as [Hv [Hr Hw]].
  pose proof (content_max b Hv). lia.
Qed.

Lemma bytes_at_queue (b : B) k n :
  wf b -> 0 <= k -> 0 <= n -> k + n <= zlen (queue b) ->
  bytes_at (content b) (readerIndex b + k) n = Ok (zsub (queue b) k n).
Proof.
  intros H Hk Hn Hl. rewrite zlen_queue in Hl by exact H. destruct H as [Hv [Hr Hw]].
  rewrite bytes_at_ok by (unfold in_range; lia). unfold queue.
  rewrite zsub_zsub by lia. reflexivity.
Qed.

Lemma queue_index (b : B) k : wf b -> 0 <= k <= zlen (queue b) -> is_i32 (readerIndex b + k).
Proof. intros H Hk. pose proof (queue_max b H). destruct H as [_ [Hr _]]. solve_range. Qed.

Lemma getLong_queue (b : B) k : wf b -> 0 <= k -> k + 8 <= zlen (queue b) ->
  getLong b (readerIndex b + k) = Ok (i64 (decode (order b) (zsub (queue b) k 8))).
Proof.
  intros H Hk Hl. rewrite getLong_law by (apply H || apply queue_index; (exact H || lia)).
  unfold signed_at. rewrite bytes_at_queue by (exact H || lia). reflexivity.
Qed.

Lemma getInt_queue (b : B) k : wf b -> 0 <= k -> k + 4 <= zlen (queue b) ->
  getInt b (readerIndex b + k) = Ok (i32 (decode (order b) (zsub (queue b) k 4))).
Proof.
  intros H Hk Hl. rewrite getInt_law by (apply H || apply queue_index; (exact H || lia)).
  unfold signed_at. rewrite bytes_at_queue by (exact H || lia). reflexivity.
Qed.

Lemma decode_1 o v : is_i8 v -> i8 (decode o [v]) = v.
Proof.
  intros Hv. rewrite <- (i8_id v Hv) at 2. apply swrap_cong.
  destruct o; cbn; rewrite Z.add_0_r; apply Z.mod_mod; discriminate.
Qed.

Lemma znth_i8 l k : Forall is_i8 l -> 0 <= k < zlen l -> is_i8 (znth 0 l k).
Proof.
  intros H Hk. rewrite Forall_forall in H. apply H, nth_In. unfold zlen in Hk. lia.
Qed.

Lemma getByte_queue (b : B) k : wf b -> 0 <= k < zlen (queue b) ->
  getByte b (readerIndex b + k) = Ok (znth 0 (queue b) k).
Proof.
  intros H Hl. rewrite getByte_law by (apply H || apply queue_index; (exact H || lia)).
  unfold signed_at. rewrite bytes_at_queue by (exact H || lia). cbn [rbind].
  rewrite (zsub_1 0) by exact Hl. f_equal. apply decode_1, znth_i8; [apply queue_i8, H | exact Hl].
Qed.

(** The counters of the loops. *)
Lemma shiftr_land_split n k : 0 <= k -> 0 <= n ->
  n = 2 ^ k * Z.shiftr n k + Z.land n (Z.ones k) /\ 0 <= Z.shiftr n k /\ 0 <= Z.land n (Z.ones k) < 2 ^ k.
Proof.
  intros Hk Hn. pose proof (Z.pow_pos_nonneg 2 k eq_refl Hk).
  rewrite Z.shiftr_div_pow2, Z.land_ones by exact Hk.
  pose proof (Z.div_mod n (2 ^ k) ltac:(lia)). pose proof (Z.mod_pos_bound n (2 ^ k) ltac:(lia)).
  split; [assumption|]. split; [apply Z.div_pos; lia | assumption].
Qed.

End QueueAccess.

(** ** Equality *)

Section EqualsTheory.
Context {A : Type} {RA : RawBuffer A} {RSA : ReadSpec A}.
Context {B : Type} {RB : RawBuffer B} {RSB : ReadSpec B}.
Import BufferUtil Swap.

(** [swap] brings the longs of [b] to the byte order of [a]. *)
Lemma long_eq o o' xs ys :
  zlen xs = 8 -> zlen ys = 8 -> Forall is_i8 xs -> Forall is_i8 ys ->
  (i64 (decode o xs) =? (if ByteOrder_eqb o o' then id else swapLong) (i64 (decode o' ys)))
  = bool_decide (xs = ys).
Proof.
  intros Hx Hy Fx Fy.
  assert ((if ByteOrder_eqb o o' then id else swapLong) (i64 (decode o' ys)) = i64 (decode o ys)) as ->.
  { assert (length ys = 8%nat) as Hl by (unfold zlen in Hy; lia).
    destruct o, o'; cbn [ByteOrder_eqb]; try reflexivity; apply swapLong_decode, Hl. }
  destruct (decide (xs = ys)) as [->|Hne].
  - rewrite bool_decide_true, Z.eqb_refl by reflexivity. reflexivity.
  - rewrite bool_decide_false by exact Hne. apply Z.eqb_neq. intros E. apply Hne.
    apply (decode_inj 64 o); try assumption; lia.
Qed.

Lemma zsub_app_eq (l l' : list Z) k n m :
  0 <= k -> 0 <= n -> 0 <= m -> k + n + m <= zlen l -> k + n + m <= zlen l' ->
  bool_decide (zsub l k (n + m) = zsub l' k (n + m))
  = (bool_decide (zsub l k n = zsub l' k n) && bool_decide (zsub l (k + n) m = zsub l' (k + n) m))%bool.
Proof.
  intros Hk Hn Hm Hl Hl'. rewrite !zsub_split by assumption.
  rewrite <- bool_decide_and. apply bool_decide_ext. split; [|intros [-> ->]; reflexivity].
  intros E. apply app_inj_1 in E; [exact E|].
  pose proof (zlen_zsub l k n). pose proof (zlen_zsub l' k n). unfold zlen in *. lia.
Qed.

Lemma equalsLongs_spec n (a : A) (b : B) k :
  wf a -> wf b -> 0 <= k -> k + 8 * Z.of_nat n <= zlen (queue a) ->
  k + 8 * Z.of_nat n <= zlen (queue b) ->
  equalsLongs n a b (if ByteOrder_eqb (order a) (order b) then id else swapLong)
    (readerIndex a + k) (readerIndex b + k)
  = Ok (if bool_decide (zsub (queue a) k (8 * Z.of_nat n) = zsub (queue b) k (8 * Z.of_nat n))
        then Some (readerIndex a + (k + 8 * Z.of_nat n), readerIndex b + (k + 8 * Z.of_nat n)) else None).
Proof.
  intros Ha Hb. revert k. induction n as [|n IH]; intros k Hk Hla Hlb; cbn [equalsLongs].
  - rewrite bool_decide_true by reflexivity. rewrite Z.add_0_r. reflexivity.
  - rewrite !getLong_queue by (assumption || lia). cbn [rbind].
    assert (forall l : list Z, k + 8 <= zlen l -> zlen (zsub l k 8) = 8) as Hz by (intros; apply zlen_zsub; lia).
    rewrite long_eq by (first [apply Hz; lia | apply Forall_zsub, queue_i8; assumption]).
    replace (8 * Z.of_nat (S n)) with (8 + 8 * Z.of_nat n) by lia.
    rewrite zsub_app_eq by lia.
    destruct (bool_decide (zsub (queue a) k 8 = zsub (queue b) k 8)); cbn [negb andb]; [|reflexivity].
    pose proof (queue_index a (k + 8) Ha ltac:(lia)). pose proof (queue_index b (k + 8) Hb ltac:(lia)).
    rewrite !i32_id, <- !Z.add_assoc by (rewrite <- Z.add_assoc; assumption).
    rewrite IH by lia. replace (k + 8 + 8 * Z.of_nat n) with (k + (8 + 8 * Z.of_nat n)) by lia.
    reflexivity.
Qed.

Lemma equalsBytes_spec n (a : A) (b : B) k :
  wf a -> wf b -> 0 <= k -> k + Z.of_nat n <= zlen (queue a) -> k + Z.of_nat n <= zlen (queue b) ->
  equalsBytes n a b (readerIndex a + k) (readerIndex b + k)
  = Ok (bool_decide (zsub (queue a) k (Z.of_nat n) = zsub (queue b) k (Z.of_nat n))).
Proof.
  intros Ha Hb. revert k. induction n as [|n IH]; intros k Hk Hla Hlb; cbn [equalsBytes]; [reflexivity|].
  rewrite !getByte_queue by (assumption || lia). cbn [rbind].
  replace (Z.of_nat (S n)) with (1 + Z.of_nat n) by lia.
  rewrite zsub_app_eq, !(zsub_1 0) by lia.
  assert (bool_decide ([znth 0 (queue a) k] = [znth 0 (queue b) k])
    = (znth 0 (queue a) k =? znth 0 (queue b) k)) as ->.
  { destruct (Z.eqb_spec (znth 0 (queue a) k) (znth 0 (queue b) k)) as [->|Hne].
    - apply bool_decide_true. reflexivity.
    - apply bool_decide_false. congruence. }
  destruct (_ =? _); cbn [negb andb]; [|reflexivity].
  pose proof (queue_index a (k + 1) Ha ltac:(lia)). pose proof (queue_index b (k + 1) Hb ltac:(lia)).
  rewrite !i32_id, <- !Z.add_assoc by (rewrite <- Z.add_assoc; assumption).
  apply IH; lia.
Qed.

(** C32: two buffers are equal exactly when their readable bytes are, whatever
    their classes, byte orders and indexes: the comparison by longs with the
    longs of one side swapped decides equality of the byte sequences. *)
Theorem equals_queue (a : A) (b : B) :
  wf a -> wf b -> equals a b = Ok (bool_decide (queue a = queue b)).
Proof.
  intros Ha Hb. unfold equals. rewrite !readableBytes_queue by assumption.
  destruct (zlen (queue a) =? zlen (queue b)) eqn:E; cbn [negb]; zbool.
  2:{ rewrite bool_decide_false; [reflexivity|]. intros Hq. apply E. rewrite Hq. reflexivity. }
  change 7 with (Z.ones 3).
  destruct (shiftr_land_split (zlen (queue a)) 3) as (D & H1 & H2); [lia | apply zlen_nonneg |].
  change (2 ^ 3) with 8 in *.
  set (n := Z.shiftr (zlen (queue a)) 3) in *. set (m := Z.land _ _) in *.
  rewrite <- (Z.add_0_r (readerIndex a)), <- (Z.add_0_r (readerIndex b)).
  rewrite equalsLongs_spec by (assumption || lia). rewrite Z2Nat.id, Z.add_0_l by lia. cbn [rbind].
  assert (bool_decide (queue a = queue b)
    = bool_decide (zsub (queue a) 0 (8 * n + m) = zsub (queue b) 0 (8 * n + m))) as ->.
  { rewrite <- D. rewrite zsub_all, E, zsub_all. reflexivity. }
  rewrite zsub_app_eq, Z.add_0_l by lia.
  destruct (bool_decide (zsub (queue a) 0 (8 * n) = _)); cbn [andb]; [|reflexivity].
  rewrite equalsBytes_spec, Z2Nat.id by (assumption || lia). reflexivity.
Qed.

End EqualsTheory.

(** ** Hashing *)

Section HashTheory.
Context {B : Type} {RB : RawBuffer B} {RS : ReadSpec B}.
Import BufferUtil Swap.

(** The hash of a byte sequence: big-endian ints, then single bytes. *)
Fixpoint hash_of_ints (n : nat) (q : list Z) (k h : Z) : Z :=
  match n with
  | O => h
  | S n => hash_of_ints n q (k + 4) (i32 (31 * h + i32 (decode BYTE_ORDER_BIG (zsub q k 4))))
  end.

Fixpoint hash_of_bytes (n : nat) (q : list Z) (k h : Z) : Z :=
  match n with
  | O => h
  | S n => hash_of_bytes n q (k + 1) (i32 (31 * h + znth 0 q k))
  end.

Definition hash_of (q : list Z) : Z :=
  let h := hash_of_bytes (Z.to_nat (Z.land (zlen q) 3)) q (4 * Z.shiftr (zlen q) 2)
             (hash_of_ints (Z.to_nat (Z.shiftr (zlen q) 2)) q 0 1) in
  if h =? 0 then 1 else h.

Lemma hashInts_spec n (b : B) k h :
  wf b -> 0 <= k -> k + 4 * Z.of_nat n <= zlen (queue b) ->
  hashInts n b (match order b with BYTE_ORDER_BIG => id | BYTE_ORDER_LITTLE => swapInt end)
    (readerIndex b + k) h
  = Ok (readerIndex b + (k + 4 * Z.of_nat n), hash_of_ints n (queue b) k h).
Proof.
  intros H. revert k h. induction n as [|n IH]; intros k h Hk Hl; cbn [hashInts hash_of_ints].
  - rewrite Z.add_0_r. reflexivity.
  - rewrite getInt_queue by (assumption || lia). cbn [rbind].
    pose proof (queue_index b (k + 4) H ltac:(lia)).
    rewrite (i32_id (readerIndex b + k + 4)), <- !Z.add_assoc by (rewrite <- Z.add_assoc; assumption).
    rewrite IH by lia. do 3 f_equal; [lia|]. do 2 f_equal.
    destruct (order b); [reflexivity|]. apply swapInt_decode.
    assert (zlen (zsub (queue b) k 4) = 4) as Hz by (apply zlen_zsub; lia).
    unfold zlen in Hz. lia.
Qed.

Lemma hashBytes_spec n (b : B) k h :
  wf b -> 0 <= k -> k + Z.of_nat n <= zlen (queue b) ->
  hashBytes n b (readerIndex b + k) h = Ok (hash_of_bytes n (queue b) k h).
Proof.
  intros H. revert k h. induction n as [|n IH]; intros k h Hk Hl; cbn [hashBytes hash_of_bytes]; [reflexivity|].
  rewrite getByte_queue by (assumption || lia). cbn [rbind].
  pose proof (queue_index b (k + 1) H ltac:(lia)).
  rewrite (i32_id (readerIndex b + k + 1)), <- !Z.add_assoc by (rewrite <- Z.add_assoc; assumption).
  apply IH; lia.
Qed.

Lemma hashCode_queue (b : B) : wf b -> hashCode b = Ok (hash_of (queue b)).
Proof.
  intros H. unfold hashCode, hash_of. rewrite readableBytes_queue by exact H.
  change 3 with (Z.ones 2).
  destruct (shiftr_land_split (zlen (queue b)) 2) as (D & H1 & H2); [lia | apply zlen_nonneg |].
  change (2 ^ 2) with 4 in *. rewrite <- (Z.add_0_r (readerIndex b)).
  rewrite hashInts_spec, Z2Nat.id by (assumption || lia). cbn [rbind fst snd].
  rewrite Z.add_0_l, hashBytes_spec by (assumption || lia). reflexivity.
Qed.

End HashTheory.

Section HashContract.
Context {A : Type} {RA : RawBuffer A} {RSA : ReadSpec A}.
Context {B : Type} {RB : RawBuffer B} {RSB : ReadSpec B}.
Import BufferUtil.

(** The hash code contract: buffers that [equals] finds equal have the same
    hash code, across classes and byte orders, and it is never 0. *)
Theorem equals_hashCode (a : A) (b : B) :
  wf a -> wf b -> equals a b = Ok true ->
  exists h, hashCode a = Ok h /\ hashCode b = Ok h /\ h <> 0.
Proof.
  intros Ha Hb E. rewrite equals_queue in E by assumption. injection E as E.
  apply bool_decide_eq_true in E. rewrite !hashCode_queue, E by assumption.
  eexists. repeat split. unfold hash_of. destruct (_ =? 0) eqn:Z; zbool; lia.
Qed.

End HashContract.

(** ** Searching *)

Section SearchTheory.
Context {B : Type} {RB : RawBuffer B} {RS : ReadSpec B}.
Import BufferUtil.

(** The position of the first byte that satisfies [p], or -1. *)
Fixpoint index_of (p : Z -> bool) (l : list Z) : Z :=
  match l with
  | [] => -1
  | x :: l => if p x then 0 else let r := index_of p l in if r <? 0 then -1 else r + 1
  end.

Lemma index_of_range p l : index_of p l = -1 \/ 0 <= index_of p l < zlen l.
Proof.
  induction l as [|x l IH]; [left; reflexivity|]. rewrite zlen_cons. cbn [index_of].
  pose proof (zlen_nonneg l). destruct (p x); [right; lia|].
  destruct (index_of p l <? 0) eqn:E; zbool; [left; reflexivity | right; lia].
Qed.

Lemma scanUp_spec n p (b : B) k :
  wf b -> 0 <= k -> k + Z.of_nat n <= zlen (queue b) ->
  scanUp n (byte_finder p b) (readerIndex b + k)
  = Ok (let j := index_of p (zsub (queue b) k (Z.of_nat n)) in
        if j <? 0 then -1 else readerIndex b + k + j).
Proof.
  intros H. revert k. induction n as [|n IH]; intros k Hk Hl; cbn [scanUp]; [reflexivity|].
  unfold byte_finder at 1. rewrite getByte_queue by (assumption || lia). cbn [rbind].
  rewrite zsub_cons by lia. cbn [index_of]. destruct (p _).
  - change (0 <? 0) with false. cbn iota. rewrite Z.add_0_r. reflexivity.
  - rewrite <- Z.add_assoc, IH by lia. replace (Z.of_nat (S n) - 1) with (Z.of_nat n) by lia.
    destruct (index_of_range p (zsub (queue b) (k + 1) (Z.of_nat n))) as [->|R]; [reflexivity|].
    cbv zeta. set (j := index_of p _) in *.
    assert ((j <? 0) = false) as -> by (apply Z.ltb_ge; lia).
    assert ((j + 1 <? 0) = false) as -> by (apply Z.ltb_ge; lia). f_equal. lia.
Qed.

(** A search of all readable bytes. *)
Lemma indexOf_queue (p : Z -> bool) (b : B) :
  wf b -> indexOf b (readerIndex b) (readerIndex b + zlen (queue b)) (byte_finder p)
  = Ok (let j := index_of p (queue b) in if j <? 0 then -1 else readerIndex b + j).
Proof.
  intros H. pose proof (zlen_nonneg (queue b)) as Hz.
  pose proof H as [Hv [Hr Hw]]. pose proof (capacity_content b Hv) as Hc.
  pose proof (zlen_queue b H) as Hq. unfold indexOf. zif.
  unfold firstIndexOf. rewrite Z.max_l by lia. destruct (_ || _)%bool eqn:T; zbool.
  - assert (zlen (queue b) = 0) as E0 by (destruct T; zbool; lia). rewrite (zlen_0 _ E0). reflexivity.
  - rewrite Z.add_simpl_l.
    pose proof (scanUp_spec (Z.to_nat (zlen (queue b))) p b 0 H) as Hs.
    rewrite Z.add_0_r, Z2Nat.id, zsub_all in Hs by lia. apply Hs; lia.
Qed.

(** [bytesBefore] is the number of readable bytes before the first one the
    finder accepts, -1 when there is none; it never throws. *)
Theorem bytesBefore_queue (p : Z -> bool) (b : B) :
  wf b -> bytesBefore b (byte_finder p) = Ok (index_of p (queue b)).
Proof.
  intros H. pose proof (queue_max b H) as Hm. pose proof (zlen_nonneg (queue b)) as Hz.
  pose proof H as [_ [Hr _]].
  unfold bytesBefore, bytesBeforeAt. rewrite readableBytes_queue, i32_id by (exact H || solve_range).
  rewrite indexOf_queue by exact H. cbn [rbind].
  destruct (index_of_range p (queue b)) as [->|R]; [reflexivity|]. cbv zeta.
  set (j := index_of p (queue b)) in *.
  assert ((j <? 0) = false) as -> by (apply Z.ltb_ge; lia).
  assert ((readerIndex b + j <? 0) = false) as -> by (apply Z.ltb_ge; lia).
  rewrite i32_id by solve_range. f_equal. lia.
Qed.

Lemma index_of_none p l : List.Forall (fun x => p x = false) l -> index_of p l = -1.
Proof. induction 1 as [|x l Hx _ IH]; [reflexivity|]. cbn [index_of]. rewrite Hx, IH. reflexivity. Qed.

Lemma index_of_first p l x rest : List.Forall (fun x => p x = false) l -> p x = true ->
  index_of p (l ++ x :: rest) = zlen l.
Proof.
  intros H Hx. induction H as [|y l Hy _ IH]; cbn [app index_of]; [rewrite Hx; reflexivity|].
  rewrite Hy, IH, zlen_cons. pose proof (zlen_nonneg l). cbv zeta. zif. lia.
Qed.

(** ** Hex dump *)

Definition hex_value (c : Z) : option Z :=
  if (48 <=? c) && (c <=? 57) then Some (c - 48)
  else if (97 <=? c) && (c <=? 102) then Some (c - 87)
  else None.

(** Reading a dump back. *)
Fixpoint parse_hex (s : list Z) : option (list Z) :=
  match s with
  | [] => Some []
  | c1 :: c2 :: s =>
      match hex_value c1, hex_value c2, parse_hex s with
      | Some h, Some l, Some bs => Some (i8 (16 * h + l) :: bs)
      | _, _, _ => None
      end
  | _ => None
  end.

Lemma hexdump_table v : is_i8 v ->
  hex_value (znth 0 HEXDUMP_TABLE (Z.shiftl (u8 (Z.land v 255)) 1)) = Some (v mod 256 / 16) /\
  hex_value (znth 0 HEXDUMP_TABLE (Z.shiftl (u8 (Z.land v 255)) 1 + 1)) = Some (v mod 256 mod 16).
Proof.
  intros Hv.
  pose (p v := match hex_value (znth 0 HEXDUMP_TABLE (Z.shiftl (u8 (Z.land v 255)) 1)),
    hex_value (znth 0 HEXDUMP_TABLE (Z.shiftl (u8 (Z.land v 255)) 1 + 1)) with
    | Some h, Some l => (h =? v mod 256 / 16) && (l =? v mod 256 mod 16)
    | _, _ => false end).
  assert (p v = true) as E by (apply all_bytes_spec; [vm_compute; reflexivity | exact Hv]).
  unfold p in E. do 2 destruct (hex_value _); try discriminate.
  apply andb_true_iff in E as [E1 E2]. apply Z.eqb_eq in E1, E2. subst. split; reflexivity.
Qed.

Lemma hexDumpLoop_spec n (b : B) k :
  wf b -> 0 <= k -> k + Z.of_nat n <= zlen (queue b) ->
  exists s, hexDumpLoop n b (readerIndex b + k) = Ok s /\ zlen s = 2 * Z.of_nat n /\
    parse_hex s = Some (zsub (queue b) k (Z.of_nat n)).
Proof.
  intros H. revert k. induction n as [|n IH]; intros k Hk Hl; cbn [hexDumpLoop].
  - exists []. repeat split.
  - unfold getUnsignedByte. rewrite getByte_queue by (assumption || lia). cbn [rbind].
    destruct (IH (k + 1)) as (s & E & Hs & Hp); [lia | lia |].
    rewrite <- Z.add_assoc, E. cbn [rbind]. eexists. split; [reflexivity|].
    rewrite !zlen_cons, Hs. split; [lia|]. cbn [parse_hex].
    assert (is_i8 (znth 0 (queue b) k)) as Hb by (apply znth_i8; [apply queue_i8, H | lia]).
    destruct (hexdump_table _ Hb) as [-> ->]. rewrite Hp, (zsub_cons (queue b) k) by lia.
    replace (Z.of_nat (S n) - 1) with (Z.of_nat n) by lia. do 2 f_equal.
    rewrite <- Z.div_mod by lia. rewrite <- (i8_id _ Hb) at 2.
    apply swrap_cong. apply Z.mod_mod. lia.
Qed.

(** The hex dump of a buffer has two lowercase digits per readable byte and
    reading it back gives the bytes. *)
Theorem hexDump_roundtrip (b : B) :
  wf b -> exists s, hexDump b = Ok s /\ zlen s = 2 * zlen (queue b) /\ parse_hex s = Some (queue b).
Proof.
  intros H. pose proof (queue_max b H) as Hm. pose proof (zlen_nonneg (queue b)) as Hz.
  pose proof H as [_ [Hr _]].
  unfold hexDump, hexDumpAt. rewrite readableBytes_queue by exact H. zif.
  destruct (zlen (queue b) =? 0) eqn:E0; zbool.
  - exists []. rewrite (zlen_0 _ E0). repeat split.
  - rewrite i32_id by solve_range. rewrite Z.add_simpl_l.
    destruct (hexDumpLoop_spec (Z.to_nat (zlen (queue b))) b 0)
      as (s & Es & Hs & Hp); [exact H | lia | lia |].
    rewrite Z2Nat.id, zsub_all in * by lia. rewrite Z.add_0_r in Es. exists s. auto.
Qed.

End SearchTheory.

(** ** Comparison *)

Section CompareTheory.
Context {A : Type} {RA : RawBuffer A} {RSA : ReadSpec A}.
Context {B : Type} {RB : RawBuffer B} {RSB : ReadSpec B}.
Import BufferUtil Swap.

Lemma u32_int o l : zlen l = 4 -> u32 (Z.land (i32 (decode o l)) 0xFFFFFFFF) = decode o l.
Proof.
  intros Hl. change 0xFFFFFFFF with (Z.ones 32). rewrite Z.land_ones by lia.
  unfold u32. rewrite Z.mod_mod by lia. unfold i32. rewrite swrap_mod by lia.
  apply Z.mod_small. pose proof (decode_bound o l) as Hb. rewrite Hl in Hb. exact Hb.
Qed.

Lemma getUnsignedInt_queue {C} {RC : RawBuffer C} {RSC : ReadSpec C} (c : C) k :
  wf c -> 0 <= k -> k + 4 <= zlen (queue c) ->
  getUnsignedInt c (readerIndex c + k) = Ok (decode (order c) (zsub (queue c) k 4)).
Proof.
  intros H Hk Hl. unfold getUnsignedInt. rewrite getInt_queue by assumption. cbn [rbind].
  rewrite u32_int; [reflexivity | apply zlen_zsub; lia].
Qed.

(** The int of [b] in the byte order of [a]. *)
Definition valueB (a : A) (b : B) (i : Z) : result Z :=
  if ByteOrder_eqb (order a) (order b) then getUnsignedInt b i
  else let? v := getInt b i in Ok (u32 (Z.land (swapInt v) 0xFFFFFFFF)).

Lemma valueB_queue (a : A) (b : B) k :
  wf b -> 0 <= k -> k + 4 <= zlen (queue b) ->
  valueB a b (readerIndex b + k) = Ok (decode (order a) (zsub (queue b) k 4)).
Proof.
  intros H Hk Hl. unfold valueB. destruct (ByteOrder_eqb _ _) eqn:E.
  - apply ByteOrder_eqb_eq in E. rewrite E. apply getUnsignedInt_queue; assumption.
  - rewrite getInt_queue by assumption. cbn [rbind].
    assert (zlen (zsub (queue b) k 4) = 4) as Hz by (apply zlen_zsub; lia).
    rewrite swapInt_decode by (unfold zlen in Hz; lia). rewrite u32_int by exact Hz.
    destruct (order a), (order b); try discriminate; reflexivity.
Qed.

Lemma decode_inj4 o l1 l2 :
  zlen l1 = 4 -> zlen l2 = 4 -> Forall is_i8 l1 -> Forall is_i8 l2 ->
  decode o l1 = decode o l2 -> l1 = l2.
Proof. intros H1 H2 F1 F2 E. apply (decode_inj 32 o); try assumption; try lia. rewrite E. reflexivity. Qed.

Lemma compareInts_spec n (a : A) (b : B) k :
  wf a -> wf b -> 0 <= k -> k + 4 * Z.of_nat n <= zlen (queue a) ->
  k + 4 * Z.of_nat n <= zlen (queue b) ->
  exists r, compareInts n a b (valueB a b) (readerIndex a + k) (readerIndex b + k) = Ok r /\
    match r with
    | inl c => (c = 1 \/ c = -1) /\
        zsub (queue a) k (4 * Z.of_nat n) <> zsub (queue b) k (4 * Z.of_nat n)
    | inr (ai, bi) => zsub (queue a) k (4 * Z.of_nat n) = zsub (queue b) k (4 * Z.of_nat n) /\
        ai = readerIndex a + (k + 4 * Z.of_nat n) /\ bi = readerIndex b + (k + 4 * Z.of_nat n)
    end.
Proof.
  intros Ha Hb. revert k. induction n as [|n IH]; intros k Hk Hla Hlb; cbn [compareInts].
  - eexists. split; [reflexivity|]. cbn beta iota. rewrite Z.add_0_r. auto.
  - rewrite getUnsignedInt_queue, valueB_queue by (assumption || lia). cbn [rbind].
    replace (4 * Z.of_nat (S n)) with (4 + 4 * Z.of_nat n) by lia. rewrite !zsub_split by lia.
    assert (zlen (zsub (queue a) k 4) = 4) as La by (apply zlen_zsub; lia).
    assert (zlen (zsub (queue b) k 4) = 4) as Lb by (apply zlen_zsub; lia).
    destruct (decide (zsub (queue a) k 4 = zsub (queue b) k 4)) as [E|Hne].
    + rewrite E. rewrite Z.gtb_ltb, Z.ltb_irrefl.
      pose proof (queue_index a (k + 4) Ha ltac:(lia)). pose proof (queue_index b (k + 4) Hb ltac:(lia)).
      rewrite !i32_id, <- !Z.add_assoc by (rewrite <- Z.add_assoc; assumption).
      destruct (IH (k + 4)) as (r & Er & Hr); [lia .. |]. exists r. split; [exact Er|].
      destruct r as [c|[ai bi]].
      * destruct Hr as [Hc Hn]. split; [exact Hc|]. intros Heq. apply app_inv_head in Heq. auto.
      * destruct Hr as (Hs & -> & ->). rewrite Hs. repeat split; lia.
    + assert (decode (order a) (zsub (queue a) k 4) <> decode (order a) (zsub (queue b) k 4)) as Hd.
      { intros Heq. apply Hne, (decode_inj4 (order a)); try assumption; apply Forall_zsub, queue_i8; assumption. }
      assert (zsub (queue a) k 4 ++ zsub (queue a) (k + 4) (4 * Z.of_nat n)
        <> zsub (queue b) k 4 ++ zsub (queue b) (k + 4) (4 * Z.of_nat n)) as Hn.
      { intros Heq. apply app_inj_1 in Heq as [Heq _]; [auto|]. unfold zlen in La, Lb. lia. }
      rewrite Z.gtb_ltb.
      set (x := decode _ (zsub (queue a) k 4)) in *. set (y := decode _ (zsub (queue b) k 4)) in *.
      destruct (y <? x) eqn:E1; [exists (inl 1); split; [reflexivity | split; [auto | exact Hn]]|].
      destruct (x <? y) eqn:E2; [exists (inl (-1)); split; [reflexivity | split; [auto | exact Hn]]|].
      zbool. lia.
Qed.

Lemma compareBytes_spec n (a : A) (b : B) k :
  wf a -> wf b -> 0 <= k -> k + Z.of_nat n <= zlen (queue a) -> k + Z.of_nat n <= zlen (queue b) ->
  exists r, compareBytes n a b (readerIndex a + k) (readerIndex b + k) = Ok r /\
    match r with
    | Some c => (c = 1 \/ c = -1) /\ zsub (queue a) k (Z.of_nat n) <> zsub (queue b) k (Z.of_nat n)
    | None => zsub (queue a) k (Z.of_nat n) = zsub (queue b) k (Z.of_nat n)
    end.
Proof.
  intros Ha Hb. revert k. induction n as [|n IH]; intros k Hk Hla Hlb; cbn [compareBytes].
  - eexists. split; reflexivity.
  - rewrite !getByte_queue by (assumption || lia). cbn [rbind].
    rewrite (zsub_cons (queue a) k), (zsub_cons (queue b) k) by lia.
    replace (Z.of_nat (S n) - 1) with (Z.of_nat n) by lia.
    rewrite Z.gtb_ltb. set (x := znth 0 (queue a) k). set (y := znth 0 (queue b) k).
    destruct (y <? x) eqn:E1; zbool.
    { exists (Some 1). split; [reflexivity|]. split; [auto|]. intros Heq. injection Heq as Heq _. lia. }
    destruct (x <? y) eqn:E2; zbool.
    { exists (Some (-1)). split; [reflexivity|]. split; [auto|]. intros Heq. injection Heq as Heq _. lia. }
    pose proof (queue_index a (k + 1) Ha ltac:(lia)). pose proof (queue_index b (k + 1) Hb ltac:(lia)).
    rewrite !i32_id, <- !Z.add_assoc by (rewrite <- Z.add_assoc; assumption).
    destruct (IH (k + 1)) as (r & Er & Hr); [lia .. |]. exists r. split; [exact Er|].
    destruct r as [c|]; [destruct Hr as [Hc Hn]; split; [exact Hc | congruence]|].
    rewrite Hr. f_equal. lia.
Qed.

(** [compare] never throws and answers 0 exactly when [equals] would answer
    true: when the readable bytes are the same. *)
Theorem compare_zero (a : A) (b : B) :
  wf a -> wf b -> exists c, compare a b = Ok c /\ (c = 0 <-> queue a = queue b).
Proof.
  intros Ha Hb. unfold compare. rewrite !readableBytes_queue by assumption.
  pose proof (zlen_nonneg (queue a)). pose proof (zlen_nonneg (queue b)).
  pose proof (queue_max a Ha). pose proof (queue_max b Hb).
  pose proof Ha as [_ [Hra _]]. pose proof Hb as [_ [Hrb _]].
  set (m := if _ <? _ then _ else _).
  assert (m = Z.min (zlen (queue a)) (zlen (queue b))) as Em
    by (unfold m; destruct (_ <? _) eqn:E; zbool; lia).
  change 3 with (Z.ones 2).
  destruct (shiftr_land_split m 2) as (Dm & Hn0 & Hr0); [lia | lia |]. change (2 ^ 2) with 4 in *.
  set (n := Z.shiftr m 2) in *. set (r := Z.land m _) in *. fold (valueB a b).
  destruct (compareInts_spec (Z.to_nat n) a b 0) as (x & Ex & Hx); [assumption | assumption | lia .. |].
  rewrite Z2Nat.id, !Z.add_0_r, ?Z.add_0_l in * by lia. rewrite Ex. cbn [rbind].
  destruct x as [c|[ai bi]].
  { destruct Hx as [Hc Hn]. exists c. split; [reflexivity|]. split; [lia|].
    intros Heq. exfalso. apply Hn. rewrite Heq. reflexivity. }
  destruct Hx as (Hs & -> & ->).
  destruct (compareBytes_spec (Z.to_nat r) a b (4 * n)) as (y & Ey & Hy); [assumption | assumption | lia .. |].
  rewrite Z2Nat.id in Hy by lia. rewrite Ey. cbn [rbind].
  destruct y as [c|].
  { destruct Hy as [Hc Hn]. exists c. split; [reflexivity|]. split; [lia|].
    intros Heq. exfalso. apply Hn. rewrite Heq. reflexivity. }
  eexists. split; [reflexivity|]. rewrite i32_id by solve_range. split.
  - intros Hz. assert (zlen (queue a) = 4 * n + r /\ zlen (queue b) = 4 * n + r) as [La Lb] by lia.
    rewrite <- (zsub_all (queue a)), <- (zsub_all (queue b)), La, Lb, !zsub_split, Z.add_0_l by lia.
    congruence.
  - intros ->. lia.
Qed.

End CompareTheory.

(** ** What [compare] does not promise *)

Section CompareExamples.

(** A heap buffer with the given readable bytes. *)
Definition heap_of (o : ByteOrder) (l : list Z) : HeapChannelBuffer.t :=
  HeapChannelBuffer.wrap o (Array.Data l) true.

Lemma heap_of_wf o l : Forall is_i8 l -> zlen l <= INT_MAX -> wf (heap_of o l).
Proof. apply wrap_wf. Qed.

(** [compare] is not the order of [memcmp] its documentation announces: the
    last bytes are compared as signed ones, and the ints of little-endian buffers
    by their last byte first; between byte orders it is not antisymmetric. *)
Theorem compare_not_memcmp :
  BufferUtil.compare (heap_of BYTE_ORDER_BIG [-128]) (heap_of BYTE_ORDER_BIG [1]) = Ok (-1) /\
  BufferUtil.compare (heap_of BYTE_ORDER_LITTLE [1; 0; 0; 2]) (heap_of BYTE_ORDER_LITTLE [2; 0; 0; 1]) = Ok 1 /\
  BufferUtil.compare (heap_of BYTE_ORDER_BIG [1; 0; 0; 2]) (heap_of BYTE_ORDER_LITTLE [2; 0; 0; 1]) = Ok (-1) /\
  BufferUtil.compare (heap_of BYTE_ORDER_LITTLE [2; 0; 0; 1]) (heap_of BYTE_ORDER_BIG [1; 0; 0; 2]) = Ok (-1).
Proof. vm_compute. repeat split. Qed.

(** *** Concrete runs *)

Definition big9 : HeapChannelBuffer.t := heap_of BYTE_ORDER_BIG [1; -2; 3; 4; 5; 6; 7; 8; 9].
Definition little9 : HeapChannelBuffer.t := heap_of BYTE_ORDER_LITTLE [1; -2; 3; 4; 5; 6; 7; 8; 9].

Lemma big9_wf : wf big9.
Proof. apply heap_of_wf; [repeat constructor; solve_range | discriminate]. Defined.
Lemma little9_wf : wf little9.
Proof. apply heap_of_wf; [repeat constructor; solve_range | discriminate]. Defined.

Lemma equals_queue_witness : BufferUtil.equals big9 little9 = Ok true.
Proof.
  assert (bool_decide (queue big9 = queue little9) = true) as E by (vm_compute; reflexivity).
  rewrite <- E. exact (equals_queue big9 little9 big9_wf little9_wf).
Defined.

Lemma equals_hashCode_witness :
  exists h, BufferUtil.hashCode big9 = Ok h /\ BufferUtil.hashCode little9 = Ok h /\ h <> 0.
Proof.
  apply (equals_hashCode big9 little9 big9_wf little9_wf). vm_compute. reflexivity.
Defined.

Lemma bytesBefore_queue_witness :
  BufferUtil.bytesBefore big9 BufferUtil.LF = Ok (index_of (fun v => v =? 10) (queue big9)) /\
  BufferUtil.bytesBefore little9 (BufferUtil.byte_finder (fun v => v =? 5)) = Ok 4.
Proof.
  split.
  - exact (bytesBefore_queue (fun v => v =? 10) big9 big9_wf).
  - exact (bytesBefore_queue (fun v => v =? 5) little9 little9_wf).
Defined.

Lemma hexDump_roundtrip_witness :
  exists s, BufferUtil.hexDump big9 = Ok s /\ zlen s = 18 /\
    parse_hex s = Some [1; -2; 3; 4; 5; 6; 7; 8; 9].
Proof. exact (hexDump_roundtrip big9 big9_wf). Defined.

Lemma compare_zero_witness :
  exists c, BufferUtil.compare big9 little9 = Ok c /\ (c = 0 <-> queue big9 = queue little9).
Proof. exact (compare_zero big9 little9 big9_wf little9_wf). Defined.

End CompareExamples.
