(* ===== verification/DerivedBuffers.v ===== *)
(** * Derived buffers

    [SlicedChannelBuffer], [TruncatedChannelBuffer], [DuplicatedChannelBuffer]
    and [ReadOnlyChannelBuffer] of [src/include/cetty/buffer] and
    [src/src/cetty/buffer], and the [slice] functions that make them.  A derived
    buffer carries the state of the buffer it wraps, of any class [B]; a write
    through it is a write to that state ([view_put]). *)

From S2P Require Import Prelude MachineInt Buffer AbstractBuffer BufferTheory HeapBuffer.
Import AbstractChannelBuffer.

(** A derived buffer: its own indexes, the window of the parent it shows
    ([adjustment] and [length], where the class has them), and the parent. *)
Record view (B : Type) := MkView {
  view_ix : Indexes;
  adjustment : Z;
  view_length : Z;
  buffer : B;
}.
Arguments MkView {B} _ _ _ _.
Arguments view_ix {B} _.
Arguments adjustment {B} _.
Arguments view_length {B} _.
Arguments buffer {B} _.

Definition view_put {B} (p : B) (s : view B) : view B :=
  MkView (view_ix s) (adjustment s) (view_length s) p.
Definition view_put_ix {B} (i : Indexes) (s : view B) : view B :=
  MkView i (adjustment s) (view_length s) (buffer s).

(** The indexes of a new object, before the constructor sets them. *)
Definition zeroIndexes : Indexes := MkIndexes 0 0 0 0.

(** A constructor: the object, then a call that may throw. *)
Definition construct {S} (s : S) (m : M S unit) : result S :=
  match m s with
  | (Ok _, s) => Ok s
  | (Err e, _) => Err e
  end.

(** ** SlicedChannelBuffer *)

Module SlicedChannelBuffer.
Section Sliced.
Context {B : Type} {RB : RawBuffer B}.

Inductive t := MkSliced (s : view B).
Definition v (s : t) : view B := let 'MkSliced s := s in s.
Definition on_view (f : view B -> view B) (s : t) : t := MkSliced (f (v s)).

Definition capacity (s : t) : Z := view_length (v s).

Definition checkIndex (s : t) (index : Z) : result unit :=
  if (index <? 0) || (index >=? capacity s) then Err RangeException else Ok tt.

Definition checkIndexes (s : t) (startIndex length : Z) : result unit :=
  if length <? 0 then Err InvalidArgumentException
  else if startIndex <? 0 then Err RangeException
  else if i32 (startIndex + length) >? capacity s then Err RangeException
  else Ok tt.

(** The index in the parent. *)
Definition at_parent (s : t) (index : Z) : Z := i32 (index + adjustment (v s)).

Definition getByte (s : t) (index : Z) : result Z :=
  let? _ := checkIndex s index in Buffer.getByte (buffer (v s)) (at_parent s index).
Definition getShort (s : t) (index : Z) : result Z :=
  let? _ := checkIndexes s index 2 in Buffer.getShort (buffer (v s)) (at_parent s index).
Definition getUnsignedMedium (s : t) (index : Z) : result Z :=
  let? _ := checkIndexes s index 3 in Buffer.getUnsignedMedium (buffer (v s)) (at_parent s index).
Definition getInt (s : t) (index : Z) : result Z :=
  let? _ := checkIndexes s index 4 in Buffer.getInt (buffer (v s)) (at_parent s index).
Definition getLong (s : t) (index : Z) : result Z :=
  let? _ := checkIndexes s index 8 in Buffer.getLong (buffer (v s)) (at_parent s index).

Definition getBytes (s : t) : Reader := fun index dst dstIndex length =>
  let? _ := checkIndexes s index length in
  Buffer.getBytes (buffer (v s)) (at_parent s index) dst dstIndex length.

Definition getBytesTo {D} (wr : Writer D) (s : t) (index dstIndex length : Z) : M D unit :=
  match checkIndexes s index length with
  | Ok _ => Buffer.getBytesTo wr (buffer (v s)) (at_parent s index) dstIndex length
  | Err e => throw e
  end.

(** A write to the parent. *)
Definition delegate {A} (m : M B A) : M t A :=
  zoom (fun s => buffer (v s)) (fun p => on_view (view_put p)) m.

Definition setByte (index value : Z) : M t unit :=
  let! s := gets id in
  let! _ := reads (fun s => checkIndex s index) in
  delegate (Buffer.setByte (at_parent s index) value).
Definition setShort (index value : Z) : M t unit :=
  let! s := gets id in
  let! _ := reads (fun s => checkIndexes s index 2) in
  delegate (Buffer.setShort (at_parent s index) value).
Definition setMedium (index value : Z) : M t unit :=
  let! s := gets id in
  let! _ := reads (fun s => checkIndexes s index 3) in
  delegate (Buffer.setMedium (at_parent s index) value).
Definition setInt (index value : Z) : M t unit :=
  let! s := gets id in
  let! _ := reads (fun s => checkIndexes s index 4) in
  delegate (Buffer.setInt (at_parent s index) value).
Definition setLong (index value : Z) : M t unit :=
  let! s := gets id in
  let! _ := reads (fun s => checkIndexes s index 8) in
  delegate (Buffer.setLong (at_parent s index) value).
Definition setBytes : Writer t := fun index src srcIndex length =>
  let! s := gets id in
  let! _ := reads (fun s => checkIndexes s index length) in
  delegate (Buffer.setBytes (at_parent s index) src srcIndex length).
Definition setBytesFrom (index : Z) (src : Reader) (srcIndex length : Z) : M t unit :=
  let! s := gets id in
  let! _ := reads (fun s => checkIndexes s index length) in
  delegate (Buffer.setBytesFrom (at_parent s index) src srcIndex length).

#[global] Instance SlicedRaw : RawBuffer t := {|
  Buffer.order s := order (buffer (v s));
  Buffer.capacity := capacity;
  Buffer.indexes s := view_ix (v s);
  Buffer.put_indexes i := on_view (view_put_ix i);
  Buffer.getByte := getByte;
  Buffer.getShort := getShort;
  Buffer.getUnsignedMedium := getUnsignedMedium;
  Buffer.getInt := getInt;
  Buffer.getLong := getLong;
  Buffer.getBytes := getBytes;
  Buffer.getBytesTo D := getBytesTo;
  Buffer.setByte := setByte;
  Buffer.setShort := setShort;
  Buffer.setMedium := setMedium;
  Buffer.setInt := setInt;
  Buffer.setLong := setLong;
  Buffer.setBytes := setBytes;
  Buffer.setBytesFrom := setBytesFrom;
|}.

#[global] Instance SlicedWrite : WriteBuffer t := abstractWriteBuffer t.

(** The constructor. *)
Definition new (p : B) (index length : Z) : result t :=
  if (index <? 0) || (index >? Buffer.capacity p) then Err RangeException
  else if i32 (index + length) >? Buffer.capacity p then Err RangeException
  else construct (MkSliced (MkView zeroIndexes index length p)) (setWriterIndex length).

Definition duplicate (s : t) : result t :=
  let? d := new (buffer (v s)) (adjustment (v s)) (view_length (v s)) in
  construct d (setIndex (readerIndex s) (writerIndex s)).

Definition copy {N} {CB : CopyBuffer B N} (s : t) (index length : Z) : result N :=
  let? _ := checkIndexes s index length in
  Buffer.copy (buffer (v s)) (at_parent s index) length.

(** [None] is the shared empty buffer. *)
Definition slice (s : t) (index length : Z) : result (option t) :=
  let? _ := checkIndexes s index length in
  if length =? 0 then Ok None
  else let? d := new (buffer (v s)) (at_parent s index) length in Ok (Some d).

End Sliced.
Arguments t : clear implicits.
End SlicedChannelBuffer.

(** ** TruncatedChannelBuffer *)

Module TruncatedChannelBuffer.
Section Truncated.
Context {B : Type} {RB : RawBuffer B}.

Inductive t := MkTruncated (s : view B).
Definition v (s : t) : view B := let 'MkTruncated s := s in s.
Definition on_view (f : view B -> view B) (s : t) : t := MkTruncated (f (v s)).

Definition capacity (s : t) : Z := view_length (v s).

Definition checkIndex (s : t) (index : Z) : result unit :=
  if (index <? 0) || (index >=? capacity s) then Err RangeException else Ok tt.

(** A negative index is left to the parent. *)
Definition checkIndexes (s : t) (index length : Z) : result unit :=
  if length <? 0 then Err InvalidArgumentException
  else if i32 (index + length) >? view_length (v s) then Err RangeException
  else Ok tt.

Definition getByte (s : t) (index : Z) : result Z :=
  let? _ := checkIndex s index in Buffer.getByte (buffer (v s)) index.
Definition getShort (s : t) (index : Z) : result Z :=
  let? _ := checkIndexes s index 2 in Buffer.getShort (buffer (v s)) index.
Definition getUnsignedMedium (s : t) (index : Z) : result Z :=
  let? _ := checkIndexes s index 3 in Buffer.getUnsignedMedium (buffer (v s)) index.
Definition getInt (s : t) (index : Z) : result Z :=
  let? _ := checkIndexes s index 4 in Buffer.getInt (buffer (v s)) index.
Definition getLong (s : t) (index : Z) : result Z :=
  let? _ := checkIndexes s index 8 in Buffer.getLong (buffer (v s)) index.

Definition getBytes (s : t) : Reader := fun index dst dstIndex length =>
  let? _ := checkIndexes s index length in
  Buffer.getBytes (buffer (v s)) index dst dstIndex length.

Definition getBytesTo {D} (wr : Writer D) (s : t) (index dstIndex length : Z) : M D unit :=
  match checkIndexes s index length with
  | Ok _ => Buffer.getBytesTo wr (buffer (v s)) index dstIndex length
  | Err e => throw e
  end.

Definition delegate {A} (m : M B A) : M t A :=
  zoom (fun s => buffer (v s)) (fun p => on_view (view_put p)) m.

Definition setByte (index value : Z) : M t unit :=
  let! _ := reads (fun s => checkIndex s index) in
  delegate (Buffer.setByte index value).
Definition setShort (index value : Z) : M t unit :=
  let! _ := reads (fun s => checkIndexes s index 2) in
  delegate (Buffer.setShort index value).
Definition setMedium (index value : Z) : M t unit :=
  let! _ := reads (fun s => checkIndexes s index 3) in
  delegate (Buffer.setMedium index value).
Definition setInt (index value : Z) : M t unit :=
  let! _ := reads (fun s => checkIndexes s index 4) in
  delegate (Buffer.setInt index value).
Definition setLong (index value : Z) : M t unit :=
  let! _ := reads (fun s => checkIndexes s index 8) in
  delegate (Buffer.setLong index value).
Definition setBytes : Writer t := fun index src srcIndex length =>
  let! _ := reads (fun s => checkIndexes s index length) in
  delegate (Buffer.setBytes index src srcIndex length).
Definition setBytesFrom (index : Z) (src : Reader) (srcIndex length : Z) : M t unit :=
  let! _ := reads (fun s => checkIndexes s index length) in
  delegate (Buffer.setBytesFrom index src srcIndex length).

#[global] Instance TruncatedRaw : RawBuffer t := {|
  Buffer.order s := order (buffer (v s));
  Buffer.capacity := capacity;
  Buffer.indexes s := view_ix (v s);
  Buffer.put_indexes i := on_view (view_put_ix i);
  Buffer.getByte := getByte;
  Buffer.getShort := getShort;
  Buffer.getUnsignedMedium := getUnsignedMedium;
  Buffer.getInt := getInt;
  Buffer.getLong := getLong;
  Buffer.getBytes := getBytes;
  Buffer.getBytesTo D := getBytesTo;
  Buffer.setByte := setByte;
  Buffer.setShort := setShort;
  Buffer.setMedium := setMedium;
  Buffer.setInt := setInt;
  Buffer.setLong := setLong;
  Buffer.setBytes := setBytes;
  Buffer.setBytesFrom := setBytesFrom;
|}.

#[global] Instance TruncatedWrite : WriteBuffer t := abstractWriteBuffer t.

Definition new (p : B) (length : Z) : result t :=
  if length >? Buffer.capacity p then Err RangeException
  else construct (MkTruncated (MkView zeroIndexes 0 length p)) (setWriterIndex length).

Definition duplicate (s : t) : result t :=
  let? d := new (buffer (v s)) (view_length (v s)) in
  construct d (setIndex (readerIndex s) (writerIndex s)).

Definition copy {N} {CB : CopyBuffer B N} (s : t) (index length : Z) : result N :=
  let? _ := checkIndexes s index length in
  Buffer.copy (buffer (v s)) index length.

End Truncated.
Arguments t : clear implicits.
End TruncatedChannelBuffer.

(** ** DuplicatedChannelBuffer *)

Module DuplicatedChannelBuffer.
Section Duplicated.
Context {B : Type} {RB : RawBuffer B}.

(** The window of a duplicate is the whole parent. *)
Inductive t := MkDuplicated (ix : Indexes) (p : B).
Definition ix (s : t) : Indexes := let 'MkDuplicated i _ := s in i.
Definition parent (s : t) : B := let 'MkDuplicated _ p := s in p.
Definition with_ix (i : Indexes) (s : t) : t := MkDuplicated i (parent s).
Definition with_parent (p : B) (s : t) : t := MkDuplicated (ix s) p.

Definition delegate {A} (m : M B A) : M t A := zoom parent with_parent m.

#[global] Instance DuplicatedRaw : RawBuffer t := {|
  Buffer.order s := order (parent s);
  Buffer.capacity s := capacity (parent s);
  Buffer.indexes := ix;
  Buffer.put_indexes := with_ix;
  Buffer.getByte s := getByte (parent s);
  Buffer.getShort s := getShort (parent s);
  Buffer.getUnsignedMedium s := getUnsignedMedium (parent s);
  Buffer.getInt s := getInt (parent s);
  Buffer.getLong s := getLong (parent s);
  Buffer.getBytes s := getBytes (parent s);
  Buffer.getBytesTo D wr s := getBytesTo wr (parent s);
  Buffer.setByte i x := delegate (setByte i x);
  Buffer.setShort i x := delegate (setShort i x);
  Buffer.setMedium i x := delegate (setMedium i x);
  Buffer.setInt i x := delegate (setInt i x);
  Buffer.setLong i x := delegate (setLong i x);
  Buffer.setBytes i src si n := delegate (setBytes i src si n);
  Buffer.setBytesFrom i src si n := delegate (setBytesFrom i src si n);
|}.

#[global] Instance DuplicatedWrite : WriteBuffer t := abstractWriteBuffer t.

(** [DuplicatedChannelBuffer(const ChannelBufferPtr&)]. *)
Definition new (p : B) : result t :=
  construct (MkDuplicated zeroIndexes p) (setIndex (readerIndex p) (writerIndex p)).

(** The copy constructor takes the indexes of the wrapped buffer, not those of
    the duplicate it copies. *)
Definition duplicate (s : t) : result t := new (parent s).

Definition copy {N} {CB : CopyBuffer B N} (s : t) (index length : Z) : result N :=
  Buffer.copy (parent s) index length.

End Duplicated.
Arguments t : clear implicits.
End DuplicatedChannelBuffer.

(** ** ReadOnlyChannelBuffer *)

Module ReadOnlyChannelBuffer.
Section ReadOnly.
Context {B : Type} {RB : RawBuffer B}.

Inductive t := MkReadOnly (ix : Indexes) (p : B).
Definition ix (s : t) : Indexes := let 'MkReadOnly i _ := s in i.
Definition unwrap (s : t) : B := let 'MkReadOnly _ p := s in p.
Definition with_ix (i : Indexes) (s : t) : t := MkReadOnly i (unwrap s).

Definition discardReadBytes : M t unit := throw ReadOnlyBufferException.
Definition setByte (index value : Z) : M t unit := throw ReadOnlyBufferException.
Definition setShort (index value : Z) : M t unit := throw ReadOnlyBufferException.
Definition setMedium (index value : Z) : M t unit := throw ReadOnlyBufferException.
Definition setInt (index value : Z) : M t unit := throw ReadOnlyBufferException.
Definition setLong (index value : Z) : M t unit := throw ReadOnlyBufferException.
Definition setBytes : Writer t := fun _ _ _ _ => throw ReadOnlyBufferException.
Definition setBytesFrom (index : Z) (src : Reader) (srcIndex length : Z) : M t unit :=
  throw ReadOnlyBufferException.

#[global] Instance ReadOnlyRaw : RawBuffer t := {|
  Buffer.order s := order (unwrap s);
  Buffer.capacity s := capacity (unwrap s);
  Buffer.indexes := ix;
  Buffer.put_indexes := with_ix;
  Buffer.getByte s := getByte (unwrap s);
  Buffer.getShort s := getShort (unwrap s);
  Buffer.getUnsignedMedium s := getUnsignedMedium (unwrap s);
  Buffer.getInt s := getInt (unwrap s);
  Buffer.getLong s := getLong (unwrap s);
  Buffer.getBytes s := getBytes (unwrap s);
  Buffer.getBytesTo D wr s := getBytesTo wr (unwrap s);
  Buffer.setByte := setByte;
  Buffer.setShort := setShort;
  Buffer.setMedium := setMedium;
  Buffer.setInt := setInt;
  Buffer.setLong := setLong;
  Buffer.setBytes := setBytes;
  Buffer.setBytesFrom := setBytesFrom;
|}.

#[global] Instance ReadOnlyWrite : WriteBuffer t := {|
  Buffer.ensureWritableBytes := AbstractChannelBuffer.ensureWritableBytes;
  Buffer.writeByte := AbstractChannelBuffer.writeByte;
  Buffer.writeShort := AbstractChannelBuffer.writeShort;
  Buffer.writeMedium := AbstractChannelBuffer.writeMedium;
  Buffer.writeInt := AbstractChannelBuffer.writeInt;
  Buffer.writeLong := AbstractChannelBuffer.writeLong;
  Buffer.writeBytesArray := AbstractChannelBuffer.writeBytesArray;
  Buffer.writeBytesBuffer := AbstractChannelBuffer.writeBytesBuffer;
  Buffer.discardReadBytes := discardReadBytes;
|}.

Definition new (p : B) : result t :=
  construct (MkReadOnly zeroIndexes p) (setIndex (readerIndex p) (writerIndex p)).

(** The copy constructor takes the indexes of the wrapped buffer. *)
Definition duplicate (s : t) : result t := new (unwrap s).

Definition copy {N} {CB : CopyBuffer B N} (s : t) (index length : Z) : result N :=
  Buffer.copy (unwrap s) index length.

End ReadOnly.
Arguments t : clear implicits.
End ReadOnlyChannelBuffer.

(** ** A window of a byte sequence *)

Section Window.

Lemma bytes_at_window l a len i n :
  0 <= a -> a + len <= zlen l -> in_range len i n ->
  bytes_at l (i + a) n = bytes_at (zsub l a len) i n.
Proof.
  intros Ha Hl (H1 & H2 & H3).
  assert (zlen (zsub l a len) = len) as Hz by (apply zlen_zsub; lia).
  rewrite !bytes_at_ok by (unfold in_range; lia). rewrite zsub_zsub by lia.
  do 2 f_equal. lia.
Qed.

Lemma zsub_overwrite_inside (l : list Z) a len i bs :
  0 <= a -> 0 <= i -> i + zlen bs <= len -> a + len <= zlen l ->
  zsub (overwrite l (i + a) bs) a len = overwrite (zsub l a len) i bs.
Proof.
  intros Ha Hi Hb Hl. pose proof (zlen_nonneg bs).
  assert (zlen (overwrite l (i + a) bs) = zlen l) as Ho by (apply zlen_overwrite; lia).
  replace len with (i + (zlen bs + (len - i - zlen bs))) at 1 by lia.
  rewrite zsub_split by lia. rewrite zsub_split by lia.
  rewrite zsub_overwrite_before by lia. replace (a + i) with (i + a) by lia.
  rewrite zsub_overwrite_same by lia. rewrite zsub_overwrite_after by lia.
  unfold overwrite. f_equal; [|f_equal].
  - unfold zsub. rewrite take_take. f_equal. lia.
  - unfold zsub. rewrite skipn_firstn_comm, drop_drop. f_equal; [unfold zlen in *; lia|].
    f_equal. unfold zlen in *. lia.
Qed.

End Window.

(** ** A slice is a buffer whose bytes are a window of its parent *)

Section SlicedTheory.
Context {B : Type} {RB : RawBuffer B} {RS : ReadSpec B}.
Import SlicedChannelBuffer.
Abbreviation slice_of := (SlicedChannelBuffer.t B).

Definition sliced_valid (s : slice_of) : Prop :=
  valid (buffer (v s)) /\ 0 <= adjustment (v s) /\ 0 <= view_length (v s) /\
  adjustment (v s) + view_length (v s) <= zlen (content (buffer (v s))).

Definition sliced_content (s : slice_of) : list Z :=
  zsub (content (buffer (v s))) (adjustment (v s)) (view_length (v s)).

Lemma sliced_zlen (s : slice_of) : sliced_valid s -> zlen (sliced_content s) = view_length (v s).
Proof. intros (Hv & Ha & Hl & Hc). apply zlen_zsub; assumption. Qed.

Lemma sliced_at (s : slice_of) i n :
  sliced_valid s -> is_i32 i -> in_range (view_length (v s)) i n ->
  at_parent s i = i + adjustment (v s) /\
  is_i32 (at_parent s i) /\ bytes_at (content (buffer (v s))) (at_parent s i) n = bytes_at (sliced_content s) i n.
Proof.
  intros (Hv & Ha & Hl & Hc) Hi (H1 & H2 & H3). pose proof (content_max _ Hv).
  assert (at_parent s i = i + adjustment (v s)) as E by (apply i32_id; solve_range).
  rewrite E. split; [reflexivity|]. split; [solve_range|].
  apply bytes_at_window; [lia | lia | unfold in_range; lia].
Qed.

Lemma checkIndex_spec (s : slice_of) i :
  checkIndex s i = if decide (in_range (view_length (v s)) i 1) then Ok tt else Err RangeException.
Proof.
  unfold checkIndex, capacity, in_range. destruct (_ || _)%bool eqn:E; zbool.
  - rewrite decide_False; [reflexivity|]. destruct E; zbool; lia.
  - rewrite decide_True by lia. reflexivity.
Qed.

(** [index + length] may overflow an [int] and let a bad index through; the
    parent throws then, since the region ends beyond what an [int] can index. *)
Lemma checkIndexes_spec (s : slice_of) i n :
  sliced_valid s -> is_i32 i -> 0 < n <= INT_MAX -> ~ in_range (view_length (v s)) i n ->
  checkIndexes s i n = Err RangeException \/
  (checkIndexes s i n = Ok tt /\ is_i32 (at_parent s i) /\ 0 <= i /\
   ~ in_range (zlen (content (buffer (v s)))) (at_parent s i) n /\
   (at_parent s i = i + adjustment (v s) \/ at_parent s i < 0)).
Proof.
  intros (Hv & Ha & Hl & Hc) Hi Hn R. pose proof (content_max _ Hv) as Hm.
  unfold checkIndexes, capacity. zif. destruct (i <? 0) eqn:E0; zbool; [left; reflexivity|].
  destruct (i32 (i + n) >? _) eqn:E1; zbool; [left; reflexivity|]. right. split; [reflexivity|].
  split; [apply i32_range|]. split; [exact E0|].
  assert (INT_MAX < i + n) as Ho.
  { destruct (Z.le_gt_cases (i + n) INT_MAX); [|lia]. exfalso. apply R.
    rewrite i32_id in E1 by solve_range. unfold in_range. lia. }
  unfold at_parent. destruct (Z.le_gt_cases (i + adjustment (v s)) INT_MAX).
  - rewrite i32_id by solve_range. split; [|auto]. intros (_ & _ & ?). lia.
  - rewrite i32_over by solve_range. split; [|right; solve_range].
    intros (? & _ & _). solve_range.
Qed.

Lemma checkIndexes_ok (s : slice_of) i n :
  sliced_valid s -> in_range (view_length (v s)) i n -> checkIndexes s i n = Ok tt.
Proof.
  intros (Hv & Ha & Hl & Hc) (R1 & R2 & R3). pose proof (content_max _ Hv).
  unfold checkIndexes, capacity. rewrite i32_id by solve_range. repeat zif. reflexivity.
Qed.

(** The shape of [getShort] ... [getLong]. *)
Lemma sliced_get (s : slice_of) i n (g : Z -> result Z) (f : list Z -> Z) :
  sliced_valid s -> is_i32 i -> 0 < n <= INT_MAX ->
  (forall j, is_i32 j -> g j = let? bs := bytes_at (content (buffer (v s))) j n in Ok (f bs)) ->
  (let? _ := checkIndexes s i n in g (at_parent s i))
  = let? bs := bytes_at (sliced_content s) i n in Ok (f bs).
Proof.
  intros Hs Hi Hn Hg. destruct (decide (in_range (view_length (v s)) i n)) as [R|R].
  - rewrite checkIndexes_ok by assumption. cbn [rbind].
    destruct (sliced_at s i n Hs Hi R) as (E & Hj & Hb). rewrite Hg, Hb by exact Hj. reflexivity.
  - rewrite (bytes_at_err (sliced_content s)) by (rewrite sliced_zlen; assumption).
    destruct (checkIndexes_spec s i n Hs Hi Hn R) as [->|(-> & Hj & _ & Hp & _)]; [reflexivity|].
    cbn [rbind]. rewrite Hg, bytes_at_err by assumption. reflexivity.
Qed.

Lemma sliced_reader (s : slice_of) : sliced_valid s -> reader_of (sliced_content s) (getBytes s).
Proof.
  intros Hs i d di n Hd R1 R2. rewrite sliced_zlen in R1 by exact Hs.
  unfold getBytes. rewrite checkIndexes_ok by assumption. cbn [rbind].
  assert (is_i32 i) as Hi.
  { destruct Hs as (Hv & Ha & Hl & Hc). pose proof (content_max _ Hv).
    destruct R1 as (? & ? & ?). solve_range. }
  destruct (sliced_at s i n Hs Hi R1) as (E & Hj & _). rewrite E.
  destruct Hs as (Hv & Ha & Hl & Hc). destruct R1 as (A1 & A2 & A3).
  rewrite (getBytes_law _ Hv) by (try assumption; unfold in_range; lia).
  unfold sliced_content. rewrite zsub_zsub by lia. do 4 f_equal. lia.
Qed.

#[global] Instance SlicedReadSpec : ReadSpec slice_of.
Proof.
  refine {| valid := sliced_valid; content := sliced_content |}; cbn.
  - intros s (Hv & _). apply Forall_zsub, content_i8, Hv.
  - intros s Hs. rewrite sliced_zlen by exact Hs. reflexivity.
  - intros s (Hv & Ha & Hl & Hc). pose proof (content_max _ Hv). unfold capacity. lia.
  - intros i [s] H. exact H.
  - intros i [s]. reflexivity.
  - intros i [s]. reflexivity.
  - intros i [s]. reflexivity.
  - intros [[]]. reflexivity.
  - intros i j [s]. reflexivity.
  - intros s i Hs Hi. unfold getByte, checkIndex, capacity.
    pose proof Hs as (Hv & Ha & Hl & Hc). pose proof (content_max _ Hv).
    destruct (_ || _)%bool eqn:E; zbool.
    + unfold signed_at. rewrite bytes_at_err; [reflexivity|].
      rewrite sliced_zlen by exact Hs. unfold in_range. destruct E; zbool; lia.
    + assert (in_range (view_length (v s)) i 1) as R by (unfold in_range; lia).
      destruct (sliced_at s i 1 Hs Hi R) as (E' & Hj & Hb). cbn [rbind].
      rewrite getByte_law by assumption. unfold signed_at. rewrite Hb. reflexivity.
  - intros s i Hs Hi. apply (sliced_get s i 2 _ (fun bs => i16 (decode (order (buffer (v s))) bs)));
      [exact Hs | exact Hi | solve_range | intros j Hj; apply getShort_law; [apply Hs | exact Hj]].
  - intros s i Hs Hi. apply (sliced_get s i 3 _ (decode (order (buffer (v s)))));
      [exact Hs | exact Hi | solve_range | intros j Hj; apply getUnsignedMedium_law; [apply Hs | exact Hj]].
  - intros s i Hs Hi. apply (sliced_get s i 4 _ (fun bs => i32 (decode (order (buffer (v s))) bs)));
      [exact Hs | exact Hi | solve_range | intros j Hj; apply getInt_law; [apply Hs | exact Hj]].
  - intros s i Hs Hi. apply (sliced_get s i 8 _ (fun bs => i64 (decode (order (buffer (v s))) bs)));
      [exact Hs | exact Hi | solve_range | intros j Hj; apply getLong_law; [apply Hs | exact Hj]].
  - intros s Hs. apply sliced_reader, Hs.
Defined.

(** *** Writing through a slice *)

Lemma delegate_run {A} (m : M B A) (s : slice_of) :
  delegate m s = (fst (m (buffer (v s))), on_view (view_put (snd (m (buffer (v s))))) s).
Proof. unfold delegate, zoom. destruct (m (buffer (v s))). reflexivity. Qed.

(** The parent updated inside the window. *)
Lemma sliced_updated (s : slice_of) i bs p :
  sliced_valid s -> in_range (view_length (v s)) i (zlen bs) ->
  updated (buffer (v s)) (overwrite (content (buffer (v s))) (i + adjustment (v s)) bs) p ->
  updated s (overwrite (content s) i bs) (on_view (view_put p) s).
Proof.
  intros (Hv & Ha & Hl & Hc) (R1 & R2 & R3) [Hv' Hc' Hi' Ho'].
  destruct s as [[ixs a l b]]. cbn in *. split; cbn; try reflexivity; [| |exact Ho'].
  - unfold sliced_valid. cbn. rewrite Hc', zlen_overwrite by lia. auto.
  - unfold sliced_content. cbn. rewrite Hc'. apply zsub_overwrite_inside; lia.
Qed.

(** The parent after a store that failed outside of the window. *)
Lemma sliced_failed (s : slice_of) i l p :
  sliced_valid s -> 0 <= i -> zlen l = zlen (content (buffer (v s))) ->
  (at_parent s i = i + adjustment (v s) \/ at_parent s i < 0) ->
  take (Z.to_nat (at_parent s i)) l = take (Z.to_nat (at_parent s i)) (content (buffer (v s))) ->
  (0 <= at_parent s i < zlen (content (buffer (v s))) \/ l = content (buffer (v s))) ->
  updated (buffer (v s)) l p ->
  exists l', updated s l' (on_view (view_put p) s) /\ zlen l' = zlen (content s) /\
    take (Z.to_nat i) l' = take (Z.to_nat i) (content s) /\ (0 <= i < zlen (content s) \/ l' = content s).
Proof.
  intros (Hv & Ha & Hl & Hc) Hi Hz Hat Ht Hor [Hv' Hc' Hi' Ho'].
  destruct s as [[ixs a n b]]. cbn in *. exists (zsub l a n).
  assert (take (Z.to_nat i) (zsub l a n) = take (Z.to_nat i) (zsub (content b) a n)) as Hw.
  { destruct Hat as [E|E]; [|destruct Hor as [Hr|Hr]; [lia | rewrite Hr; reflexivity]].
    rewrite E in Ht. apply (f_equal (drop (Z.to_nat a))) in Ht.
    rewrite !skipn_firstn_comm in Ht.
    replace (Z.to_nat (i + a) - Z.to_nat a)%nat with (Z.to_nat i) in Ht by lia.
    unfold zsub. rewrite !take_take, (Nat.min_comm (Z.to_nat i)), <- !take_take. congruence. }
  split; [|split; [|split; [exact Hw|]]].
  - split; cbn; try reflexivity; [| |exact Ho'].
    + unfold sliced_valid. cbn. rewrite Hc', Hz. auto.
    + unfold sliced_content. cbn. rewrite Hc'. reflexivity.
  - unfold sliced_content. cbn. rewrite !zlen_zsub by lia. reflexivity.
  - unfold sliced_content in *. cbn. rewrite zlen_zsub by lia.
    destruct (Z.lt_ge_cases i n); [left; lia | right].
    rewrite !take_ge in Hw; [exact Hw | |].
    all: pose proof (zlen_zsub l a n); pose proof (zlen_zsub (content b) a n); unfold zlen in *; lia.
Qed.

Context {WS : WriteSpec B}.

(** The shape of [setShort] ... [setLong]. *)
Lemma sliced_stores (s : slice_of) i n bs (set : Z -> M B unit) :
  sliced_valid s -> is_i32 i -> 0 < n <= INT_MAX -> zlen bs = n ->
  (forall j, is_i32 j -> stores (set j) (buffer (v s)) j bs) ->
  stores (let! s := gets id in
          let! _ := reads (fun s => checkIndexes s i n) in
          delegate (set (at_parent s i))) s i bs.
Proof.
  intros Hs Hi Hn <- Hset. unfold stores. change (content s) with (sliced_content s).
  rewrite sliced_zlen by exact Hs. mstep. unfold id. split; intros R.
  - rewrite checkIndexes_ok by assumption. rewrite delegate_run.
    destruct (sliced_at s i _ Hs Hi R) as (E & Hj & _).
    destruct (Hset (at_parent s i) Hj) as [Hok _].
    destruct Hok as (p & Ep & Hu).
    { rewrite E. destruct Hs as (Hv & Ha & Hl & Hc), R as (A1 & A2 & A3). unfold in_range. lia. }
    rewrite E in Hu. rewrite Ep. eexists. split; [reflexivity|].
    exact (sliced_updated s i bs p Hs R Hu).
  - destruct (checkIndexes_spec s i _ Hs Hi Hn R) as [->|(-> & Hj & Hi0 & Hp & Hat)].
    + exists s, (content s). split; [reflexivity|]. split; [split; try reflexivity; exact Hs|].
      rewrite <- sliced_zlen by exact Hs. auto.
    + destruct (Hset (at_parent s i) Hj) as [_ Herr].
      destruct (Herr Hp) as (p & l & Ep & Hu & Hz & Ht & Hor).
      destruct (sliced_failed s i l p Hs Hi0 Hz Hat Ht Hor Hu) as (l' & Hu' & Hz' & Ht' & Hor').
      rewrite delegate_run, Ep. eexists _, l'. split; [reflexivity|]. split; [exact Hu'|].
      rewrite <- sliced_zlen by exact Hs. auto.
Qed.

Lemma sliced_put (s : slice_of) i bs n (m : Z -> M B unit) :
  sliced_valid s -> zlen bs = n -> in_range (view_length (v s)) i n ->
  (in_range (zlen (content (buffer (v s)))) (i + adjustment (v s)) n ->
    exists p, m (i + adjustment (v s)) (buffer (v s)) = (Ok tt, p) /\
    updated (buffer (v s)) (overwrite (content (buffer (v s))) (i + adjustment (v s)) bs) p) ->
  exists s', (let! s := gets id in
              let! _ := reads (fun s => checkIndexes s i n) in
              delegate (m (at_parent s i))) s = (Ok tt, s') /\
    updated s (overwrite (content s) i bs) s'.
Proof.
  intros Hs Hz R Hm. pose proof Hs as (Hv & Ha & Hl & Hc). pose proof (content_max _ Hv).
  pose proof R as (R1 & R2 & R3). mstep. unfold id. rewrite checkIndexes_ok by assumption.
  assert (at_parent s i = i + adjustment (v s)) as E by (apply i32_id; solve_range).
  destruct Hm as (p & Ep & Hu); [unfold in_range; lia|].
  rewrite delegate_run, E, Ep. eexists. split; [reflexivity|].
  apply sliced_updated; [exact Hs | rewrite Hz; exact R | exact Hu].
Qed.

(** [setByte] checks its index without a sum. *)
Lemma sliced_setByte (s : slice_of) i val :
  sliced_valid s -> is_i32 i -> stores (setByte i val) s i [i8 val].
Proof.
  intros Hs Hi. unfold stores. change (content s) with (sliced_content s).
  rewrite sliced_zlen, zlen_1 by exact Hs. unfold setByte. mstep. unfold id.
  rewrite checkIndex_spec. split; intros R.
  - rewrite decide_True by exact R. destruct (sliced_at s i 1 Hs Hi R) as (E & Hj & _).
    destruct (setByte_law (buffer (v s)) (at_parent s i) val) as [Hok _]; [apply Hs | exact Hj |].
    destruct Hok as (p & Ep & Hu).
    { rewrite E, zlen_1. destruct Hs as (Hv & Ha & Hl & Hc), R as (A1 & A2 & A3). unfold in_range. lia. }
    rewrite E in Hu. rewrite delegate_run, Ep. eexists. split; [reflexivity|].
    exact (sliced_updated s i [i8 val] p Hs R Hu).
  - rewrite decide_False by exact R. exists s, (content s).
    split; [reflexivity|]. split; [split; try reflexivity; exact Hs|].
    rewrite <- sliced_zlen by exact Hs. auto.
Qed.

#[global] Instance SlicedWriteSpec : WriteSpec slice_of.
Proof.
  split; cbn.
  - apply sliced_setByte.
  - intros s i val Hs Hi.
    apply (sliced_stores s i 2 (encode (order (buffer (v s))) 2 val) (fun j => Buffer.setShort j val));
      [exact Hs | exact Hi | solve_range | apply zlen_encode
      | intros j Hj; apply setShort_law; [apply Hs | exact Hj]].
  - intros s i val Hs Hi.
    apply (sliced_stores s i 3 (encode (order (buffer (v s))) 3 val) (fun j => Buffer.setMedium j val));
      [exact Hs | exact Hi | solve_range | apply zlen_encode
      | intros j Hj; apply setMedium_law; [apply Hs | exact Hj]].
  - intros s i val Hs Hi.
    apply (sliced_stores s i 4 (encode (order (buffer (v s))) 4 val) (fun j => Buffer.setInt j val));
      [exact Hs | exact Hi | solve_range | apply zlen_encode
      | intros j Hj; apply setInt_law; [apply Hs | exact Hj]].
  - intros s i val Hs Hi.
    apply (sliced_stores s i 8 (encode (order (buffer (v s))) 8 val) (fun j => Buffer.setLong j val));
      [exact Hs | exact Hi | solve_range | apply zlen_encode
      | intros j Hj; apply setLong_law; [apply Hs | exact Hj]].
  - intros s i src si n Hs Hf Hm R1 R2. pose proof R2 as (A & C & D).
    rewrite sliced_zlen in R1 by exact Hs.
    apply (sliced_put s i _ n (fun j => Buffer.setBytes j (Array.Data src) si n));
      [exact Hs | apply zlen_zsub; assumption | exact R1 |].
    intros R. apply setBytes_law; try assumption. apply Hs.
  - intros s i rd src si n Hs Hf Hrd R1 R2. pose proof R2 as (A & C & D).
    rewrite sliced_zlen in R1 by exact Hs.
    apply (sliced_put s i _ n (fun j => Buffer.setBytesFrom j rd si n));
      [exact Hs | apply zlen_zsub; assumption | exact R1 |].
    intros R. apply setBytesFrom_law; try assumption. apply Hs.
Qed.

End SlicedTheory.

(** ** The other derived buffers *)

Section OtherTheory.
Context {B : Type} {RB : RawBuffer B} {RS : ReadSpec B}.
Abbreviation trunc := (TruncatedChannelBuffer.t B).
Abbreviation tv := (TruncatedChannelBuffer.v (B := B)).

Definition truncated_valid (s : trunc) : Prop :=
  valid (buffer (tv s)) /\ 0 <= view_length (tv s) <= zlen (content (buffer (tv s))).

Definition truncated_content (s : trunc) : list Z := zsub (content (buffer (tv s))) 0 (view_length (tv s)).

Lemma truncated_zlen (s : trunc) : truncated_valid s -> zlen (truncated_content s) = view_length (tv s).
Proof. intros (Hv & Hl). apply zlen_zsub; lia. Qed.

Lemma truncated_bytes (s : trunc) i n :
  truncated_valid s -> in_range (view_length (tv s)) i n ->
  bytes_at (content (buffer (tv s))) i n = bytes_at (truncated_content s) i n.
Proof.
  intros (Hv & Hl) R. assert (0 + view_length (tv s) <= zlen (content (buffer (tv s)))) as Hz by lia.
  pose proof (bytes_at_window _ 0 _ i n (Z.le_refl 0) Hz R) as E. rewrite Z.add_0_r in E. exact E.
Qed.

Lemma truncated_get (s : trunc) i n (g : Z -> result Z) (f : list Z -> Z) :
  truncated_valid s -> is_i32 i -> 0 < n <= INT_MAX ->
  (forall j, is_i32 j -> g j = let? bs := bytes_at (content (buffer (tv s))) j n in Ok (f bs)) ->
  (let? _ := TruncatedChannelBuffer.checkIndexes s i n in g i)
  = let? bs := bytes_at (truncated_content s) i n in Ok (f bs).
Proof.
  intros Hs Hi Hn Hg. pose proof Hs as (Hv & Hl). pose proof (content_max _ Hv) as Hm.
  unfold TruncatedChannelBuffer.checkIndexes. zif.
  destruct (decide (in_range (view_length (tv s)) i n)) as [R|R].
  - pose proof R as (R1 & R2 & R3). rewrite i32_id by solve_range. zif. cbn [rbind].
    rewrite Hg, (truncated_bytes s) by assumption. reflexivity.
  - rewrite (bytes_at_err (truncated_content s)) by (rewrite truncated_zlen; assumption).
    destruct (_ >? _) eqn:E1; zbool; [reflexivity|]. cbn [rbind]. rewrite Hg by exact Hi.
    rewrite bytes_at_err; [reflexivity|]. intros (P1 & P2 & P3).
    destruct (Z.le_gt_cases (i + n) INT_MAX); [|lia].
    rewrite i32_id in E1 by solve_range. apply R. unfold in_range. lia.
Qed.

#[global] Instance TruncatedReadSpec : ReadSpec trunc.
Proof.
  refine {| valid := truncated_valid; content := truncated_content |}; cbn.
  - intros s (Hv & _). apply Forall_zsub, content_i8, Hv.
  - intros s Hs. rewrite truncated_zlen by exact Hs. reflexivity.
  - intros s (Hv & Hl). pose proof (content_max _ Hv). unfold TruncatedChannelBuffer.capacity. lia.
  - intros i [s] H. exact H.
  - intros i [s]. reflexivity.
  - intros i [s]. reflexivity.
  - intros i [s]. reflexivity.
  - intros [[]]. reflexivity.
  - intros i j [s]. reflexivity.
  - intros s i Hs Hi. unfold TruncatedChannelBuffer.getByte, TruncatedChannelBuffer.checkIndex,
      TruncatedChannelBuffer.capacity. pose proof Hs as (Hv & Hl).
    destruct (_ || _)%bool eqn:E; zbool.
    + unfold signed_at. rewrite bytes_at_err; [reflexivity|].
      rewrite truncated_zlen by exact Hs. unfold in_range. destruct E; zbool; lia.
    + cbn [rbind]. rewrite getByte_law by assumption. unfold signed_at.
      rewrite (truncated_bytes s) by (assumption || (unfold in_range; lia)). reflexivity.
  - intros s i Hs Hi. apply (truncated_get s i 2 _ (fun bs => i16 (decode (order (buffer (tv s))) bs)));
      [exact Hs | exact Hi | solve_range | intros j Hj; apply getShort_law; [apply Hs | exact Hj]].
  - intros s i Hs Hi. apply (truncated_get s i 3 _ (decode (order (buffer (tv s)))));
      [exact Hs | exact Hi | solve_range | intros j Hj; apply getUnsignedMedium_law; [apply Hs | exact Hj]].
  - intros s i Hs Hi. apply (truncated_get s i 4 _ (fun bs => i32 (decode (order (buffer (tv s))) bs)));
      [exact Hs | exact Hi | solve_range | intros j Hj; apply getInt_law; [apply Hs | exact Hj]].
  - intros s i Hs Hi. apply (truncated_get s i 8 _ (fun bs => i64 (decode (order (buffer (tv s))) bs)));
      [exact Hs | exact Hi | solve_range | intros j Hj; apply getLong_law; [apply Hs | exact Hj]].
  - intros s Hs i d di n Hd R1 R2. rewrite truncated_zlen in R1 by exact Hs. pose proof R1 as (A1 & A2 & A3).
    pose proof Hs as (Hv & Hl). pose proof (content_max _ Hv).
    unfold TruncatedChannelBuffer.getBytes, TruncatedChannelBuffer.checkIndexes.
    rewrite i32_id by solve_range. repeat zif. cbn [rbind].
    rewrite (getBytes_law _ Hv) by (try assumption; unfold in_range; lia).
    unfold truncated_content. rewrite zsub_zsub by lia. reflexivity.
Defined.

#[global] Instance DuplicatedReadSpec : ReadSpec (DuplicatedChannelBuffer.t B).
Proof.
  refine {| valid s := valid (DuplicatedChannelBuffer.parent s);
            content s := content (DuplicatedChannelBuffer.parent s) |}; cbn.
  - intros s. apply content_i8.
  - intros s. apply capacity_content.
  - intros s. apply capacity_max.
  - intros i [j p] H. exact H.
  - intros i [j p]. reflexivity.
  - intros i [j p]. reflexivity.
  - intros i [j p]. reflexivity.
  - intros []. reflexivity.
  - intros i k [j p]. reflexivity.
  - intros s. apply getByte_law.
  - intros s. apply getShort_law.
  - intros s. apply getUnsignedMedium_law.
  - intros s. apply getInt_law.
  - intros s. apply getLong_law.
  - intros s. apply getBytes_law.
Defined.

#[global] Instance ReadOnlyReadSpec : ReadSpec (ReadOnlyChannelBuffer.t B).
Proof.
  refine {| valid s := valid (ReadOnlyChannelBuffer.unwrap s);
            content s := content (ReadOnlyChannelBuffer.unwrap s) |}; cbn.
  - intros s. apply content_i8.
  - intros s. apply capacity_content.
  - intros s. apply capacity_max.
  - intros i [j p] H. exact H.
  - intros i [j p]. reflexivity.
  - intros i [j p]. reflexivity.
  - intros i [j p]. reflexivity.
  - intros []. reflexivity.
  - intros i k [j p]. reflexivity.
  - intros s. apply getByte_law.
  - intros s. apply getShort_law.
  - intros s. apply getUnsignedMedium_law.
  - intros s. apply getInt_law.
  - intros s. apply getLong_law.
  - intros s. apply getBytes_law.
Defined.

(** ** New views *)

(** The constructors set the writer index of a new object. *)
Lemma construct_setWriterIndex {S} {RWS : RawBuffer S} {RSS : ReadSpec S} (s : S) n :
  valid s -> indexes s = zeroIndexes -> 0 <= n <= zlen (content s) ->
  exists s', construct s (setWriterIndex n) = Ok s' /\ wf s' /\ content s' = content s /\
    order s' = order s /\ queue s' = zsub (content s) 0 n.
Proof.
  intros Hv Hi Hn. unfold construct, setWriterIndex, readerIndex. mstep. unfold id.
  rewrite capacity_content, Hi by exact Hv. cbn [readerIdx zeroIndexes]. zif.
  unfold upd, modify. eexists. split; [reflexivity|].
  split; [apply wf_put; cbn; rewrite ?Hi; cbn; [exact Hv | lia | lia]|].
  rewrite content_put, order_put. repeat split.
  unfold queue. rewrite readerIndex_put, writerIndex_put, content_put. cbn. rewrite Hi. cbn.
  rewrite Z.sub_0_r. reflexivity.
Qed.

Lemma sliced_new (p : B) i n :
  valid p -> in_range (zlen (content p)) i n ->
  exists s, SlicedChannelBuffer.new p i n = Ok s /\ wf s /\ order s = order p /\
    queue s = zsub (content p) i n /\ content s = zsub (content p) i n.
Proof.
  intros Hv (R1 & R2 & R3). pose proof (content_max _ Hv).
  unfold SlicedChannelBuffer.new. rewrite capacity_content, i32_id by (exact Hv || solve_range).
  zif. zif.
  set (s0 := SlicedChannelBuffer.MkSliced (MkView zeroIndexes i n p)).
  assert (valid s0) as Hs0 by (unfold valid; cbn; unfold sliced_valid; cbn; auto).
  assert (zlen (content s0) = n) as Hz by (apply zlen_zsub; assumption).
  destruct (construct_setWriterIndex s0 n Hs0 eq_refl) as (s & Es & Hw & Hc & Ho & Hq); [lia|].
  exists s. split; [exact Es|]. split; [exact Hw|]. split; [exact Ho|].
  rewrite Hc. split; [|reflexivity]. rewrite Hq.
  pose proof (zsub_all (content s0)) as Ha. rewrite Hz in Ha. exact Ha.
Qed.

Lemma truncated_new (p : B) n :
  valid p -> 0 <= n <= zlen (content p) ->
  exists s, TruncatedChannelBuffer.new p n = Ok s /\ wf s /\ order s = order p /\
    queue s = zsub (content p) 0 n /\ content s = zsub (content p) 0 n.
Proof.
  intros Hv Hn. unfold TruncatedChannelBuffer.new. rewrite capacity_content by exact Hv. zif.
  set (s0 := TruncatedChannelBuffer.MkTruncated (MkView zeroIndexes 0 n p)).
  assert (valid s0) as Hs0 by (unfold valid; cbn; unfold truncated_valid; cbn; auto).
  assert (zlen (content s0) = n) as Hz by (apply (zlen_zsub (content p) 0 n); lia).
  destruct (construct_setWriterIndex s0 n Hs0 eq_refl) as (s & Es & Hw & Hc & Ho & Hq); [lia|].
  exists s. split; [exact Es|]. split; [exact Hw|]. split; [exact Ho|].
  rewrite Hc. split; [|reflexivity]. rewrite Hq.
  pose proof (zsub_all (content s0)) as Ha. rewrite Hz in Ha. exact Ha.
Qed.

Lemma duplicated_new (p : B) :
  wf p -> exists s, DuplicatedChannelBuffer.new p = Ok s /\ wf s /\ order s = order p /\
    queue s = queue p /\ content s = content p.
Proof.
  intros [Hv [Hr Hw]]. unfold DuplicatedChannelBuffer.new, construct, setIndex. mstep.
  change (capacity (DuplicatedChannelBuffer.MkDuplicated zeroIndexes p)) with (capacity p).
  rewrite capacity_content by exact Hv. zif.
  eexists. split; [reflexivity|]. split; [|repeat split].
  split; [exact Hv|].
  change (0 <= readerIndex p <= writerIndex p /\ writerIndex p <= zlen (content p)). auto.
Qed.

End OtherTheory.
(** ** The slice functions *)

(** The buffer a [slice] function returns. *)
Inductive derived (B : Type) :=
  | Empty  (* ChannelBuffers::EMPTY_BUFFER *)
  | Duplicated (s : DuplicatedChannelBuffer.t B)
  | Truncated (s : TruncatedChannelBuffer.t B)
  | Sliced (s : SlicedChannelBuffer.t B).
Arguments Empty {B}.
Arguments Duplicated {B} _.
Arguments Truncated {B} _.
Arguments Sliced {B} _.

(** [HeapChannelBuffer::slice]. *)
Definition heap_slice (h : HeapChannelBuffer.t) (index length : Z)
  : result (derived HeapChannelBuffer.t) :=
  if index =? 0 then
    if length =? 0 then Ok Empty
    else if length =? Array.length (HeapChannelBuffer.arry h) then
      let? d := DuplicatedChannelBuffer.new h in
      let? d := construct d (setIndex 0 length) in
      Ok (Duplicated d)
    else let? d := TruncatedChannelBuffer.new h length in Ok (Truncated d)
  else if length =? 0 then Ok Empty
  else let? d := SlicedChannelBuffer.new h index length in Ok (Sliced d).

(** [DynamicChannelBuffer::slice]. *)
Definition dynamic_slice {N} {RN : RawBuffer N} (b : N) (index length : Z) : result (derived N) :=
  if index =? 0 then
    if length =? 0 then Ok Empty
    else let? d := TruncatedChannelBuffer.new b length in Ok (Truncated d)
  else if length =? 0 then Ok Empty
  else let? d := SlicedChannelBuffer.new b index length in Ok (Sliced d).

(** [AbstractChannelBuffer::readSlice(int)] over the [slice] of the class: the
    reader index moves over the slice, whatever is readable. *)
Definition readSlice {B N} {RB : RawBuffer B} (slice : B -> Z -> Z -> result N) (length : Z) : M B N :=
  let! d := reads (fun b => slice b (readerIndex b) length) in
  advance length ;! ret d.

Section SliceTheory.
Context {B : Type} {RB : RawBuffer B} {RS : ReadSpec B}.

Definition derived_queue (d : derived B) : list Z :=
  match d with
  | Empty => []
  | Duplicated s => queue s
  | Truncated s => queue s
  | Sliced s => queue s
  end.

Definition derived_wf (d : derived B) : Prop :=
  match d with
  | Empty => True
  | Duplicated s => wf s
  | Truncated s => wf s
  | Sliced s => wf s
  end.

(** Outside of the parent the constructors throw, unless the sum overflows. *)
Lemma sliced_new_err (p : B) i n :
  valid p -> is_i32 i -> is_i32 n -> is_i32 (i + n) -> ~ in_range (zlen (content p)) i n ->
  SlicedChannelBuffer.new p i n = Err RangeException.
Proof.
  intros Hv Hi Hn Hs R. unfold SlicedChannelBuffer.new. rewrite capacity_content, i32_id by assumption.
  destruct (_ || _)%bool eqn:E1; zbool; [reflexivity|].
  destruct (_ >? _) eqn:E2; zbool; [reflexivity|].
  unfold construct, setWriterIndex. mstep. unfold id, readerIndex, capacity. cbn.
  destruct (_ || _)%bool eqn:E3; [reflexivity|]. zbool. exfalso. apply R. unfold in_range. lia.
Qed.

Lemma truncated_new_err (p : B) n :
  valid p -> ~ 0 <= n <= zlen (content p) -> TruncatedChannelBuffer.new p n = Err RangeException.
Proof.
  intros Hv R. unfold TruncatedChannelBuffer.new. rewrite capacity_content by exact Hv.
  destruct (_ >? _) eqn:E2; zbool; [reflexivity|].
  unfold construct, setWriterIndex. mstep. unfold id, readerIndex, capacity. cbn.
  destruct (_ || _)%bool eqn:E3; [reflexivity|]. zbool. lia.
Qed.

End SliceTheory.

Lemma heap_slice_ok (h : HeapChannelBuffer.t) i n :
  wf h -> in_range (zlen (content h)) i n -> n <> 0 ->
  exists d, heap_slice h i n = Ok d /\ derived_wf d /\ derived_queue d = zsub (content h) i n.
Proof.
  intros H R Hn0. pose proof H as [Hv _]. unfold heap_slice.
  change (Array.length (HeapChannelBuffer.arry h)) with (zlen (content h)).
  assert ((n =? 0) = false) as -> by (apply Z.eqb_neq; exact Hn0).
  destruct (i =? 0) eqn:E0; zbool; [subst i|].
  - destruct (n =? zlen (content h)) eqn:E1; zbool.
    + destruct (duplicated_new h H) as (d & Ed & Hd & _ & _ & Hc). rewrite Ed. cbn [rbind].
      pose proof Hd as [Hvd _]. pose proof R as (R1 & R2 & R3).
      unfold construct, setIndex. mstep. rewrite capacity_content, Hc by exact Hvd. zif.
      eexists. split; [reflexivity|]. cbn [derived_wf derived_queue].
      split; [apply wf_put; [exact Hvd | cbn; lia | rewrite Hc; cbn [writerIdx with_writerIdx]; lia]|].
      unfold queue. rewrite readerIndex_put, writerIndex_put, content_put, Hc. cbn.
      rewrite Z.sub_0_r. reflexivity.
    + destruct R as (R1 & R2 & R3).
      destruct (truncated_new h n Hv) as (d & Ed & Hd & _ & Hq & _); [lia|].
      rewrite Ed. exists (Truncated d). auto.
  - destruct (sliced_new h i n Hv R) as (d & Ed & Hd & _ & Hq & _). rewrite Ed. exists (Sliced d). auto.
Qed.

Lemma dynamic_slice_ok {B} {RB : RawBuffer B} {RS : ReadSpec B} (b : B) i n :
  valid b -> in_range (zlen (content b)) i n -> n <> 0 ->
  exists d, dynamic_slice b i n = Ok d /\ derived_wf d /\ derived_queue d = zsub (content b) i n.
Proof.
  intros Hv R Hn0. unfold dynamic_slice.
  assert ((n =? 0) = false) as -> by (apply Z.eqb_neq; exact Hn0).
  destruct (i =? 0) eqn:E0; zbool; [subst i|].
  - destruct R as (R1 & R2 & R3).
    destruct (truncated_new b n Hv) as (d & Ed & Hd & _ & Hq & _); [lia|].
    rewrite Ed. exists (Truncated d). auto.
  - destruct (sliced_new b i n Hv R) as (d & Ed & Hd & _ & Hq & _). rewrite Ed. exists (Sliced d). auto.
Qed.

(** [slice] of a heap buffer shows exactly the region asked for: whichever
    kind of view it chooses (the shared empty buffer, a duplicate, a truncated or
    a sliced buffer) is well-formed and its readable bytes are the bytes of the
    region; a non-empty region that leaves the buffer is refused with
    RangeException. *)
Theorem heap_slice_region (h : HeapChannelBuffer.t) (i n : Z) :
  wf h -> is_i32 i -> is_i32 n -> is_i32 (i + n) -> n <> 0 ->
  (in_range (zlen (content h)) i n ->
    exists d, heap_slice h i n = Ok d /\ derived_wf d /\ derived_queue d = zsub (content h) i n) /\
  (~ in_range (zlen (content h)) i n -> heap_slice h i n = Err RangeException).
Proof.
  intros H Hi Hn Hs Hn0. split; [intros R; apply heap_slice_ok; assumption|].
  intros R. pose proof H as [Hv _]. unfold heap_slice.
  change (Array.length (HeapChannelBuffer.arry h)) with (zlen (content h)).
  assert ((n =? 0) = false) as -> by (apply Z.eqb_neq; exact Hn0).
  destruct (i =? 0) eqn:E0; zbool; [subst i|].
  - assert ((n =? zlen (content h)) = false) as ->.
    { apply Z.eqb_neq. intros ->. apply R. pose proof (zlen_nonneg (content h)). unfold in_range. lia. }
    rewrite truncated_new_err; [reflexivity | exact Hv |].
    intros R'. apply R. unfold in_range. lia.
  - rewrite sliced_new_err by assumption. reflexivity.
Qed.

(** ** Writes go through, or not at all *)

Section WriteThrough.
Context {B : Type} {RB : RawBuffer B} {RS : ReadSpec B} {WS : WriteSpec B}.

(** A slice shares its parent's bytes: an int stored through the slice at
    position [i] is stored in the parent at [i + adjustment], and nothing else of
    the parent changes; outside the window the store throws and the bytes of the
    window are kept. *)
Theorem slice_writes_through (s : SlicedChannelBuffer.t B) (i v : Z) :
  valid s -> is_i32 i ->
  let parent (s : SlicedChannelBuffer.t B) := buffer (SlicedChannelBuffer.v s) in
  let a := adjustment (SlicedChannelBuffer.v s) in
  let n := view_length (SlicedChannelBuffer.v s) in
  (in_range n i 4 ->
    exists s', SlicedChannelBuffer.setInt i v s = (Ok tt, s') /\
      content (parent s') = overwrite (content (parent s)) (i + a) (encode (order (parent s)) 4 v) /\
      content s' = overwrite (content s) i (encode (order s) 4 v)) /\
  (~ in_range n i 4 ->
    exists s', SlicedChannelBuffer.setInt i v s = (Err RangeException, s') /\
      take (Z.to_nat i) (content s') = take (Z.to_nat i) (content s)).
Proof.
  intros Hs Hi parent a n.
  destruct (setInt_law s i v Hs Hi) as [Hok Herr]. pose proof (sliced_zlen s Hs) as Hz.
  rewrite zlen_encode in Hok, Herr. change (content s) with (sliced_content s) in Hok, Herr.
  rewrite Hz in Hok, Herr. split; intros R.
  - destruct (Hok R) as (s' & E & Hu). exists s'. split; [exact E|]. split; [|apply Hu].
    pose proof (sliced_at s i 4 Hs Hi R) as (Ea & Hj & _).
    change (setInt i v) with (SlicedChannelBuffer.setInt (RB := RB) i v) in E.
    unfold SlicedChannelBuffer.setInt in E. revert E. mstep. unfold id.
    rewrite checkIndexes_ok, delegate_run, Ea by assumption. intros E.
    destruct (setInt_law (parent s) (i + a) v) as [Hp _]; [apply Hs | unfold a; rewrite <- Ea; exact Hj |].
    destruct Hp as (p & Ep & Hpu).
    { rewrite zlen_encode. destruct Hs as (Hv & Ha & Hl & Hc), R as (R1 & R2 & R3).
      unfold in_range, parent, a. cbn in *. lia. }
    unfold parent, a in Ep. rewrite Ep in E. injection E as <-. apply Hpu.
  - destruct (Herr R) as (s' & l & E & Hu & _ & Ht & _). exists s'. split; [exact E|].
    rewrite (updated_content _ _ _ Hu). exact Ht.
Qed.

(** The writing operations of a read-only buffer. *)
Inductive mutator : M (ReadOnlyChannelBuffer.t B) unit -> Prop :=
  | mut_setByte i v : mutator (setByte i v)
  | mut_setShort i v : mutator (setShort i v)
  | mut_setMedium i v : mutator (setMedium i v)
  | mut_setInt i v : mutator (setInt i v)
  | mut_setLong i v : mutator (setLong i v)
  | mut_setBytes i s si n : mutator (setBytes i s si n)
  | mut_setBytesFrom i rd si n : mutator (setBytesFrom i rd si n)
  | mut_discard : mutator Buffer.discardReadBytes
  | mut_writeByte v : mutator (Buffer.writeByte v)
  | mut_writeShort v : mutator (Buffer.writeShort v)
  | mut_writeMedium v : mutator (Buffer.writeMedium v)
  | mut_writeInt v : mutator (Buffer.writeInt v)
  | mut_writeLong v : mutator (Buffer.writeLong v)
  | mut_writeBytesArray s si n : mutator (Buffer.writeBytesArray s si n)
  | mut_writeBytesBuffer rd si n : mutator (Buffer.writeBytesBuffer rd si n).

(** A read-only buffer cannot be modified: every operation that would store
    bytes throws ReadOnlyBufferException and leaves the wrapped buffer as it
    was. *)
Theorem readonly_immutable (m : M (ReadOnlyChannelBuffer.t B) unit) (s : ReadOnlyChannelBuffer.t B) :
  mutator m ->
  fst (m s) = Err ReadOnlyBufferException /\
  ReadOnlyChannelBuffer.unwrap (snd (m s)) = ReadOnlyChannelBuffer.unwrap s.
Proof. intros []; destruct s; split; reflexivity. Qed.

(** ... but [writeByte] moves the writer index of a read-only buffer before
    it throws. *)
Theorem readonly_writeByte_moves (v : Z) (s : ReadOnlyChannelBuffer.t B) :
  fst (Buffer.writeByte v s) = Err ReadOnlyBufferException /\
  writerIndex (snd (Buffer.writeByte v s)) = i32 (writerIndex s + 1).
Proof. destruct s; split; reflexivity. Qed.

End WriteThrough.

(** ** Concrete runs *)

Section Witnesses.

Definition parent6 : HeapChannelBuffer.t :=
  HeapChannelBuffer.MkHeap BYTE_ORDER_LITTLE (MkIndexes 1 5 0 0) true
    (Array.Data [10; 11; 12; 13; 14; 15]).

Lemma parent6_wf : wf parent6.
Proof. apply heap_wf; [repeat constructor; solve_range | discriminate | lia | discriminate]. Defined.

Lemma heap_slice_region_witness :
  (exists d, heap_slice parent6 2 3 = Ok d /\ derived_wf d /\ derived_queue d = [12; 13; 14]) /\
  heap_slice parent6 2 7 = Err RangeException.
Proof.
  split.
  - destruct (heap_slice_region parent6 2 3 parent6_wf) as [H _]; [solve_range.. | lia |].
    destruct H as (d & E & Hw & Hq); [vm_compute; repeat split; discriminate|].
    exists d. split; [exact E|]. split; [exact Hw | exact Hq].
  - destruct (heap_slice_region parent6 2 7 parent6_wf) as [_ H]; [solve_range.. | lia |].
    apply H. intros (_ & _ & R). revert R. vm_compute. intros R. exact (R eq_refl).
Defined.

Definition slice6 : SlicedChannelBuffer.t HeapChannelBuffer.t :=
  SlicedChannelBuffer.MkSliced (MkView (MkIndexes 0 5 0 0) 1 5 parent6).

Lemma slice6_valid : valid slice6.
Proof.
  split; [apply parent6_wf|]. split; [discriminate|]. split; [discriminate | discriminate].
Defined.

Lemma slice_writes_through_witness :
  exists s, SlicedChannelBuffer.setInt 1 1 slice6 = (Ok tt, s) /\
    content (buffer (SlicedChannelBuffer.v s)) = [10; 11; 1; 0; 0; 0] /\ content s = [11; 1; 0; 0; 0].
Proof.
  destruct (slice_writes_through slice6 1 1 slice6_valid) as [H _]; [solve_range|].
  destruct H as (s & E & H1 & H2); [vm_compute; repeat split; discriminate|].
  exists s. split; [exact E|]. split; [exact H1 | exact H2].
Defined.

Lemma readonly_immutable_witness :
  let s := ReadOnlyChannelBuffer.MkReadOnly (MkIndexes 1 5 0 0) parent6 in
  fst (Buffer.writeInt 7 s) = Err ReadOnlyBufferException /\
  ReadOnlyChannelBuffer.unwrap (snd (Buffer.writeInt 7 s)) = parent6.
Proof. exact (readonly_immutable _ _ (mut_writeInt 7)). Defined.

End Witnesses.
