(* ===== verification/CompositeBuffer.v ===== *)
(** * The composite buffer

    [src/src/cetty/buffer/CompositeChannelBuffer.cpp] and its header, and the
    functions of [ChannelBuffers.cpp] that make composite buffers: a buffer that
    shows several others, its components, as one.  An index is looked up in the
    table of the offsets of the components, from the component that was accessed
    last; a value that lies across components is put together from its parts.
    The class of the components is any [B] that can be duplicated and sliced; for
    components of several classes it is their sum ([MixedBuffer]). *)

From S2P Require Import Prelude MachineInt Buffer AbstractBuffer.

Module CompositeChannelBuffer.

(** The members; the two vectors have a component, or an offset, for every index
    below their size. *)
Record t (B : Type) := MkComposite {
  byteOrder : ByteOrder;
  components : list B;
  indices : list Z;
  lastAccessedComponentId : Z;
  ix : Indexes;
}.
Arguments MkComposite {B} _ _ _ _ _.
Arguments byteOrder {B} _.
Arguments components {B} _.
Arguments indices {B} _.
Arguments lastAccessedComponentId {B} _.
Arguments ix {B} _.

Section Composite.
Context {B : Type} {RB : RawBuffer B} {DB : DuplicateBuffer B} {SB : SliceBuffer B B}.
Abbreviation composite := (t B).
Abbreviation CM := (M composite).

Definition with_components (cs : list B) (s : composite) : composite :=
  MkComposite (byteOrder s) cs (indices s) (lastAccessedComponentId s) (ix s).
Definition with_indices (l : list Z) (s : composite) : composite :=
  MkComposite (byteOrder s) (components s) l (lastAccessedComponentId s) (ix s).
Definition with_last (n : Z) (s : composite) : composite :=
  MkComposite (byteOrder s) (components s) (indices s) n (ix s).
Definition with_ix (i : Indexes) (s : composite) : composite :=
  MkComposite (byteOrder s) (components s) (indices s) (lastAccessedComponentId s) i.

(** An element of a vector; outside of it the access is undefined. *)
Definition element {A} (l : list A) (i : Z) : result A :=
  if i <? 0 then Err Undefined
  else match l !! Z.to_nat i with Some a => Ok a | None => Err Undefined end.
Definition indice (i : Z) : CM Z := reads (fun s => element (indices s) i).
Definition component (i : Z) : CM B := reads (fun s => element (components s) i).

(** A function of a component, and an operation that changes it. *)
Definition ask {A} (i : Z) (f : B -> result A) : CM A := reads (fun s => let? c := element (components s) i in f c).
Definition on_component {A} (i : Z) (m : M B A) : CM A := fun s =>
  match element (components s) i with
  | Ok c => let '(r, c) := m c in (r, with_components (<[Z.to_nat i := c]> (components s)) s)
  | Err e => (Err e, s)
  end.

Definition size (s : composite) : Z := zlen (components s).

(** [indices[components.size()]]; a composite buffer has that offset. *)
Definition capacity (s : composite) : Z :=
  match element (indices s) (size s) with Ok n => n | Err _ => 0 end.

(** *** The look-up of a component *)

Fixpoint searchRight (n : nat) (i index : Z) : CM Z :=
  match n with
  | O => throw RangeException
  | S n =>
      let! high := indice (i + 1) in
      if index <? high then modify (with_last i) ;! ret i else searchRight n (i + 1) index
  end.

Fixpoint searchLeft (i : nat) (index : Z) : CM Z :=
  match i with
  | O => throw RangeException
  | S i =>
      let! low := indice (Z.of_nat i) in
      if index >=? low then modify (with_last (Z.of_nat i)) ;! ret (Z.of_nat i) else searchLeft i index
  end.

Definition getComponentId (index : Z) : CM Z :=
  throw_if (index <? 0) RangeException ;!
  let! lastComponentId := gets lastAccessedComponentId in
  let! low := indice lastComponentId in
  if index >=? low then
    let! high := indice (lastComponentId + 1) in
    if index <? high then ret lastComponentId
    else
      let! n := gets (fun s => Z.to_nat (size s - (lastComponentId + 1))) in
      searchRight n (lastComponentId + 1) index
  else searchLeft (Z.to_nat lastComponentId) index.

(** The component of an index, whether [n] bytes from there on lie inside it, and
    the index in it. *)
Definition locate (index n : Z) : CM (Z * bool * Z) :=
  let! componentId := getComponentId index in
  let! next := indice (componentId + 1) in
  let! low := indice componentId in
  ret (componentId, i32 (index + n) <=? next, i32 (index - low)).

(** *** Get

    The operands of [|] are evaluated from left to right here; the order changes
    nothing but the component accessed last. *)

Definition getByte (index : Z) : CM Z :=
  let! componentId := getComponentId index in
  let! low := indice componentId in
  ask componentId (fun c => Buffer.getByte c (i32 (index - low))).

Definition getShort (index : Z) : CM Z :=
  let! l := locate index 2 in
  let '(componentId, inside, i) := l in
  if inside : bool then ask componentId (fun c => Buffer.getShort c i)
  else
    let! o := gets byteOrder in
    match o with
    | BYTE_ORDER_BIG =>
        let! b0 := getByte index in
        let! b1 := getByte (i32 (index + 1)) in
        ret (i16 (Z.lor (Z.shiftl (Z.land b0 0xff) 8) (Z.land b1 0xff)))
    | BYTE_ORDER_LITTLE =>
        let! b0 := getByte index in
        let! b1 := getByte (i32 (index + 1)) in
        ret (i16 (Z.lor (Z.land b0 0xff) (Z.shiftl (Z.land b1 0xff) 8)))
    end.

Definition getUnsignedMedium (index : Z) : CM Z :=
  let! l := locate index 3 in
  let '(componentId, inside, i) := l in
  if inside : bool then ask componentId (fun c => Buffer.getUnsignedMedium c i)
  else
    let! o := gets byteOrder in
    match o with
    | BYTE_ORDER_BIG =>
        let! s := getShort index in
        let! b := getByte (i32 (index + 2)) in
        ret (Z.lor (Z.shiftl (Z.land s 0xffff) 8) (Z.land b 0xff))
    | BYTE_ORDER_LITTLE =>
        let! s := getShort index in
        let! b := getByte (i32 (index + 2)) in
        ret (Z.lor (Z.land s 0xffff) (Z.shiftl (Z.land b 0xff) 16))
    end.

Definition getInt (index : Z) : CM Z :=
  let! l := locate index 4 in
  let '(componentId, inside, i) := l in
  if inside : bool then ask componentId (fun c => Buffer.getInt c i)
  else
    let! o := gets byteOrder in
    match o with
    | BYTE_ORDER_BIG =>
        let! s0 := getShort index in
        let! s1 := getShort (i32 (index + 2)) in
        ret (i32 (Z.lor (Z.shiftl (Z.land s0 0xffff) 16) (Z.land s1 0xffff)))
    | BYTE_ORDER_LITTLE =>
        let! s0 := getShort index in
        let! s1 := getShort (i32 (index + 2)) in
        ret (i32 (Z.lor (Z.land s0 0xffff) (Z.shiftl (Z.land s1 0xffff) 16)))
    end.

Definition getLong (index : Z) : CM Z :=
  let! l := locate index 8 in
  let '(componentId, inside, i) := l in
  if inside : bool then ask componentId (fun c => Buffer.getLong c i)
  else
    let! o := gets byteOrder in
    match o with
    | BYTE_ORDER_BIG =>
        let! n0 := getInt index in
        let! n1 := getInt (i32 (index + 4)) in
        ret (i64 (Z.lor (Z.shiftl (Z.land n0 0xffffffff) 32) (Z.land n1 0xffffffff)))
    | BYTE_ORDER_LITTLE =>
        let! n0 := getInt index in
        let! n1 := getInt (i32 (index + 4)) in
        ret (i64 (Z.lor (Z.land n0 0xffffffff) (Z.shiftl (Z.land n1 0xffffffff) 32)))
    end.

(** *** Set *)

Definition setByte (index value : Z) : CM unit :=
  let! componentId := getComponentId index in
  let! low := indice componentId in
  on_component componentId (Buffer.setByte (i32 (index - low)) value).

Definition setShort (index value : Z) : CM unit :=
  let! l := locate index 2 in
  let '(componentId, inside, i) := l in
  if inside : bool then on_component componentId (Buffer.setShort i value)
  else
    let! o := gets byteOrder in
    match o with
    | BYTE_ORDER_BIG => setByte index (Z.shiftr value 8) ;! setByte (i32 (index + 1)) value
    | BYTE_ORDER_LITTLE => setByte index value ;! setByte (i32 (index + 1)) (Z.shiftr value 8)
    end.

Definition setMedium (index value : Z) : CM unit :=
  let! l := locate index 3 in
  let '(componentId, inside, i) := l in
  if inside : bool then on_component componentId (Buffer.setMedium i value)
  else
    let! o := gets byteOrder in
    match o with
    | BYTE_ORDER_BIG => setShort index (Z.shiftr value 8) ;! setByte (i32 (index + 2)) value
    | BYTE_ORDER_LITTLE => setShort index value ;! setByte (i32 (index + 2)) (Z.shiftr value 16)
    end.

Definition setInt (index value : Z) : CM unit :=
  let! l := locate index 4 in
  let '(componentId, inside, i) := l in
  if inside : bool then on_component componentId (Buffer.setInt i value)
  else
    let! o := gets byteOrder in
    match o with
    | BYTE_ORDER_BIG => setShort index (Z.shiftr value 16) ;! setShort (i32 (index + 2)) value
    | BYTE_ORDER_LITTLE => setShort index value ;! setShort (i32 (index + 2)) (Z.shiftr value 16)
    end.

Definition setLong (index value : Z) : CM unit :=
  let! l := locate index 8 in
  let '(componentId, inside, i) := l in
  if inside : bool then on_component componentId (Buffer.setLong i value)
  else
    let! o := gets byteOrder in
    match o with
    | BYTE_ORDER_BIG => setInt index (i32 (Z.shiftr value 32)) ;! setInt (i32 (index + 4)) (i32 value)
    | BYTE_ORDER_LITTLE => setInt index (i32 value) ;! setInt (i32 (index + 4)) (i32 (Z.shiftr value 32))
    end.

(** *** Regions *)

(** How many bytes of a region lie in the component [s] that starts at [low]. *)
Definition localLength (s : B) (index low length : Z) : Z :=
  Z.min length (i32 (Buffer.capacity s - i32 (index - low))).

(** The loops over the components of a region; each takes at most one turn for a
    component. *)
Fixpoint getLoop (fuel : nat) (i index : Z) (dst : Array.t) (dstIndex length : Z) : CM Array.t :=
  if length >? 0 then
    match fuel with
    | O => throw Undefined
    | S fuel =>
        let! s := component i in
        let! adjustment := indice i in
        let n := localLength s index adjustment length in
        let! dst := reads (fun _ => Buffer.getBytes s (i32 (index - adjustment)) dst dstIndex n) in
        getLoop fuel (i + 1) (i32 (index + n)) dst (i32 (dstIndex + n)) (i32 (length - n))
    end
  else ret dst.

Definition turns : CM nat := gets (fun s => S (Z.to_nat (size s))).

Definition getBytes (index : Z) (dst : Array.t) (dstIndex length : Z) : CM Array.t :=
  let! componentId := getComponentId index in
  let! c := gets capacity in
  throw_if ((index >? i32 (c - length)) || (dstIndex >? i32 (Array.length dst - length))) RangeException ;!
  let! fuel := turns in
  getLoop fuel componentId index dst dstIndex length.

Fixpoint setLoop (fuel : nat) (i index : Z) (src : Array.t) (srcIndex length : Z) : CM unit :=
  if length >? 0 then
    match fuel with
    | O => throw Undefined
    | S fuel =>
        let! s := component i in
        let! adjustment := indice i in
        let n := localLength s index adjustment length in
        on_component i (Buffer.setBytes (i32 (index - adjustment)) src srcIndex n) ;!
        setLoop fuel (i + 1) (i32 (index + n)) src (i32 (srcIndex + n)) (i32 (length - n))
    end
  else ret tt.

Definition setBytes (index : Z) (src : Array.t) (srcIndex length : Z) : CM unit :=
  let! componentId := getComponentId index in
  let! c := gets capacity in
  throw_if ((index >? i32 (c - length)) || (srcIndex >? i32 (Array.length src - length))) RangeException ;!
  let! fuel := turns in
  setLoop fuel componentId index src srcIndex length.

(** The loop of [getBytes] into another buffer, and of [copyTo]: the components
    are written to the other buffer. *)
Fixpoint getLoopTo {D} (wr : Writer D) (fuel : nat) (s : composite) (i index dstIndex length : Z) : M D unit :=
  if length >? 0 then
    match fuel with
    | O => throw Undefined
    | S fuel =>
        let! c := reads (fun _ => element (components s) i) in
        let! adjustment := reads (fun _ => element (indices s) i) in
        let n := localLength c index adjustment length in
        Buffer.getBytesTo wr c (i32 (index - adjustment)) dstIndex n ;!
        getLoopTo wr fuel s (i + 1) (i32 (index + n)) (i32 (dstIndex + n)) (i32 (length - n))
    end
  else ret tt.

(** [getBytes(int, ChannelBuffer&, int, int)]. *)
Definition getBytesBuffer {D} {RD : RawBuffer D} (index dstIndex length : Z) : M (composite * D) unit :=
  let! componentId := zoom fst (fun s x => (s, snd x)) (getComponentId index) in
  let! x := gets id in
  throw_if ((index >? i32 (capacity (fst x) - length)) || (dstIndex >? i32 (Buffer.capacity (snd x) - length)))
    RangeException ;!
  zoom snd (fun d x => (fst x, d))
    (getLoopTo Buffer.setBytes (S (Z.to_nat (size (fst x)))) (fst x) componentId index dstIndex length).

Fixpoint setLoopFrom (fuel : nat) (i index : Z) (src : Reader) (srcIndex length : Z) : CM unit :=
  if length >? 0 then
    match fuel with
    | O => throw Undefined
    | S fuel =>
        let! s := component i in
        let! adjustment := indice i in
        let n := localLength s index adjustment length in
        on_component i (Buffer.setBytesFrom (i32 (index - adjustment)) src srcIndex n) ;!
        setLoopFrom fuel (i + 1) (i32 (index + n)) src (i32 (srcIndex + n)) (i32 (length - n))
    end
  else ret tt.

(** [setBytes(int, const ChannelBuffer&, int, int)]. *)
Definition setBytesBuffer {D} {RD : RawBuffer D} (index : Z) (src : D) (srcIndex length : Z) : CM unit :=
  let! componentId := getComponentId index in
  let! c := gets capacity in
  throw_if ((index >? i32 (c - length)) || (srcIndex >? i32 (Buffer.capacity src - length))) RangeException ;!
  let! fuel := turns in
  setLoopFrom fuel componentId index (Buffer.getBytes src) srcIndex length.

(** The buffer as one of the interface, for the index arithmetic of
    [AbstractChannelBuffer]: the accesses without the component accessed last,
    and those of another buffer without the look at its capacity, which the
    interface does not tell. *)
#[global] Instance CompositeRaw : RawBuffer composite := {|
  Buffer.order := byteOrder;
  Buffer.capacity := capacity;
  Buffer.indexes := ix;
  Buffer.put_indexes := with_ix;
  Buffer.getByte s i := fst (getByte i s);
  Buffer.getShort s i := fst (getShort i s);
  Buffer.getUnsignedMedium s i := fst (getUnsignedMedium i s);
  Buffer.getInt s i := fst (getInt i s);
  Buffer.getLong s i := fst (getLong i s);
  Buffer.getBytes s i dst dstIndex n := fst (getBytes i dst dstIndex n s);
  Buffer.getBytesTo D wr s i dstIndex n :=
    let! componentId := reads (fun _ => fst (getComponentId i s)) in
    throw_if (i >? i32 (capacity s - n)) RangeException ;!
    getLoopTo wr (S (Z.to_nat (size s))) s componentId i dstIndex n;
  Buffer.setByte := setByte;
  Buffer.setShort := setShort;
  Buffer.setMedium := setMedium;
  Buffer.setInt := setInt;
  Buffer.setLong := setLong;
  Buffer.setBytes := setBytes;
  Buffer.setBytesFrom i rd si n :=
    let! componentId := getComponentId i in
    let! c := gets capacity in
    throw_if (i >? i32 (c - n)) RangeException ;!
    let! fuel := turns in
    setLoopFrom fuel componentId i rd si n;
|}.

(** *** The components *)

(** The first loop of [setComponents]: a component of the wrong byte order throws
    after those before it were stored; the assertions ask that a component has
    nothing but readable bytes. *)
Fixpoint pushComponents (newComponents : list B) : CM unit :=
  match newComponents with
  | [] => ret tt
  | c :: newComponents =>
      let! o := gets byteOrder in
      throw_if (negb (ByteOrder_eqb (order c) o)) InvalidArgumentException ;!
      throw_if (negb (AbstractChannelBuffer.readerIndex c =? 0)) Undefined ;!
      throw_if (negb (AbstractChannelBuffer.writerIndex c =? Buffer.capacity c)) Undefined ;!
      modify (fun s => with_components (components s ++ [c]) s) ;!
      pushComponents newComponents
  end.

(** The table of the offsets. *)
Fixpoint table (indice : Z) (cs : list B) : list Z :=
  indice :: match cs with [] => [] | c :: cs => table (i32 (indice + Buffer.capacity c)) cs end.

Definition setComponents (newComponents : list B) : CM unit :=
  throw_if (match newComponents with [] => true | _ => false end) Undefined ;!
  modify (with_last 0) ;!
  modify (with_components []) ;!
  pushComponents newComponents ;!
  modify (with_indices (table 0 newComponents)) ;!
  let! c := gets capacity in
  AbstractChannelBuffer.setIndex 0 c.

(** The constructors; the offsets of the second are those of the buffer copied. *)
Definition new (endianness : ByteOrder) (buffers : list B) : result composite :=
  let '(r, s) := setComponents buffers (MkComposite endianness [] [] 0 (MkIndexes 0 0 0 0)) in
  let? _ := r in Ok s.

Definition duplicate (s : composite) : result composite :=
  let copied := MkComposite (byteOrder s) (components s) (indices s) 0 (MkIndexes 0 0 0 0) in
  let '(r, d) := (AbstractChannelBuffer.setIndex (readerIdx (ix s)) (writerIdx (ix s)) ;!
                  AbstractChannelBuffer.setIndex (readerIdx (ix s)) (writerIdx (ix s))) copied in
  let? _ := r in Ok d.

(** *** Slices *)

(** [slice()] of a component. *)
Definition sliceAll (b : B) : result B :=
  slice b (AbstractChannelBuffer.readerIndex b) (AbstractChannelBuffer.readableBytes b).

Definition run_on {A} (m : M B A) (b : B) : result B := let '(r, b) := m b in let? _ := r in Ok b.

(** The duplicates of the components of a region, each with the region as its
    readable bytes. *)
Fixpoint decomposeLoop (fuel : nat) (s : composite) (componentId : Z) (buf : B) (bytesToSlice : Z) : result (list B) :=
  match fuel with
  | O => Err Undefined
  | S fuel =>
      let readableBytes := AbstractChannelBuffer.readableBytes buf in
      if bytesToSlice <=? readableBytes then
        let? buf := run_on (AbstractChannelBuffer.setWriterIndex
          (i32 (AbstractChannelBuffer.readerIndex buf + bytesToSlice))) buf in
        Ok [buf]
      else
        let? c := element (components s) (componentId + 1) in
        let? next := Buffer.duplicate c in
        let? l := decomposeLoop fuel s (componentId + 1) next (i32 (bytesToSlice - readableBytes)) in
        Ok (buf :: l)
  end.

Fixpoint map_result {A A'} (f : A -> result A') (l : list A) : result (list A') :=
  match l with
  | [] => Ok []
  | a :: l => let? a := f a in let? l := map_result f l in Ok (a :: l)
  end.

Definition decompose (index length : Z) : CM (list B) :=
  if length =? 0 then ret []
  else
    let! c := gets capacity in
    throw_if (i32 (index + length) >? c) RangeException ;!
    let! componentId := getComponentId index in
    let! low := indice componentId in
    let! c := component componentId in
    let! first := reads (fun _ =>
      let? d := Buffer.duplicate c in run_on (AbstractChannelBuffer.setReaderIndex (i32 (index - low))) d) in
    let! fuel := turns in
    let! l := reads (fun s => decomposeLoop fuel s componentId first length) in
    reads (fun _ => map_result sliceAll l).

(** What [slice] and [wrappedBuffer] give: the shared empty buffer, a single
    buffer or a composite one. *)
Inductive joined :=
  | Empty
  | Single (b : B)
  | Composite (c : composite).

Definition join (o : ByteOrder) (l : list B) : result joined :=
  match l with
  | [] => Ok Empty
  | [b] => Ok (Single b)
  | _ => let? c := new o l in Ok (Composite c)
  end.

Definition slice (index length : Z) : CM joined :=
  let! c := gets capacity in
  throw_if (negb (index =? 0) && ((index <? 0) || (index >? i32 (c - length)))) RangeException ;!
  if length =? 0 then ret Empty
  else
    let! l := decompose index length in
    let! o := gets byteOrder in
    reads (fun _ => join o l).

(** *** copy and discardReadBytes *)

(** [copyTo] a buffer of the factory. *)
Definition copy {N} {RN : RawBuffer N} {CF : ChannelBufferFactory N} (index length : Z) : CM N :=
  let! componentId := getComponentId index in
  let! c := gets capacity in
  throw_if (index >? i32 (c - length)) RangeException ;!
  let! s := gets id in
  reads (fun _ =>
    let? dst := getBuffer (byteOrder s) length in
    let '(r, dst) := (getLoopTo Buffer.setBytes (S (Z.to_nat (size s))) s componentId index 0 length ;!
                      let! c := gets Buffer.capacity in AbstractChannelBuffer.setWriterIndex c) dst in
    let? _ := r in Ok dst).

(** [try { m } catch (const RangeException&) { }]: the value that is left, or the
    one there was. *)
Definition catchRange {A} (m : CM A) (otherwise : A) : CM A := fun s =>
  match m s with
  | (Err RangeException, s) => (Ok otherwise, s)
  | r => r
  end.

Definition shifted (i localReaderIndex : Z) : Z := if i >? localReaderIndex then i32 (i - localReaderIndex) else 0.

(** [ChannelBuffers::buffer] makes the padding. *)
Definition discardReadBytes (buffer : ByteOrder -> Z -> result B) : CM unit :=
  let! s := gets id in
  let localReaderIndex := AbstractChannelBuffer.readerIndex s in
  if localReaderIndex =? 0 then ret tt
  else
    let localWriterIndex := AbstractChannelBuffer.writerIndex s in
    let bytesToMove := i32 (capacity s - localReaderIndex) in
    let! list := decompose localReaderIndex bytesToMove in
    let! padding := reads (fun _ =>
      let? p := buffer (byteOrder s) localReaderIndex in
      run_on (AbstractChannelBuffer.setWriterIndex localReaderIndex) p) in
    let! localMarkedReaderIndex :=
      catchRange (AbstractChannelBuffer.resetReaderIndex ;! gets AbstractChannelBuffer.readerIndex) localReaderIndex in
    let! localMarkedWriterIndex :=
      catchRange (AbstractChannelBuffer.resetWriterIndex ;! gets AbstractChannelBuffer.writerIndex) localWriterIndex in
    setComponents (list ++ [padding]) ;!
    AbstractChannelBuffer.setIndex (shifted localMarkedReaderIndex localReaderIndex)
      (shifted localMarkedWriterIndex localReaderIndex) ;!
    AbstractChannelBuffer.markReaderIndex ;!
    AbstractChannelBuffer.markWriterIndex ;!
    AbstractChannelBuffer.setIndex 0 (shifted localWriterIndex localReaderIndex).

(** *** Wrapping *)

(** A buffer that is wrapped: a composite one is taken apart. *)
Inductive wrapped :=
  | Plain (b : B)
  | Nested (c : composite).

Definition wrapped_order (w : wrapped) : ByteOrder :=
  match w with Plain b => order b | Nested c => byteOrder c end.
Definition wrapped_readable (w : wrapped) : bool :=
  match w with Plain b => AbstractChannelBuffer.readable b | Nested c => AbstractChannelBuffer.readable c end.
Definition parts (w : wrapped) : result (list B) :=
  match w with
  | Plain b => let? b := sliceAll b in Ok [b]
  | Nested c =>
      fst (decompose (AbstractChannelBuffer.readerIndex c) (AbstractChannelBuffer.readableBytes c) c)
  end.

(** The loop of [wrappedBuffer] of buffers; [buffs] is what was collected. *)
Fixpoint collect (buffs : list B) (buffers : list wrapped) : result (list B) :=
  match buffers with
  | [] => Ok buffs
  | w :: buffers =>
      if negb (wrapped_readable w) then collect buffs buffers
      else if match buffs with [] => false | b :: _ => negb (ByteOrder_eqb (wrapped_order w) (order b)) end
      then Err InvalidArgumentException
      else let? l := parts w in collect (buffs ++ l) buffers
  end.

(** [wrappedBuffer(const std::vector<ChannelBufferPtr>&)], with
    [compositeBuffer] at its end. *)
Definition wrappedBuffer (buffers : list wrapped) : result joined :=
  let? buffs := collect [] buffers in
  join (match buffs with [] => BYTE_ORDER_BIG | b :: _ => order b end) buffs.

End Composite.
End CompositeChannelBuffer.
