(* ===== verification/CompositeProperties.v ===== *)
(** * What the composite buffer does

    A composite buffer answers every sequence of accesses as one array of the
    bytes of all its components, wherever the component that was accessed last
    is; what is left of it after [discardReadBytes]; what a wrapped list of
    buffers reads as. *)

From S2P Require Import Prelude MachineInt Buffer AbstractBuffer BufferTheory HeapBuffer DerivedBuffers CompositeBuffer.
Import CompositeChannelBuffer.

(** ** Values put together from two parts *)

Lemma le_decode_app l1 l2 : le_decode (l1 ++ l2) = le_decode l1 + 2 ^ (8 * zlen l1) * le_decode l2.
Proof.
  induction l1 as [|b l1 IH]; [change (zlen (@nil Z)) with 0; cbn [app le_decode]; lia|].
  cbn [app le_decode]. rewrite IH. unfold zlen. cbn [length].
  replace (8 * Z.of_nat (S (length l1))) with (8 + 8 * Z.of_nat (length l1)) by lia.
  rewrite Z.pow_add_r by lia. change (2 ^ 8) with 256. lia.
Qed.

Lemma zlen_rev {A} (l : list A) : zlen (rev l) = zlen l.
Proof. unfold zlen. rewrite length_rev. reflexivity. Qed.

Lemma decode_app_big l1 l2 :
  decode BYTE_ORDER_BIG (l1 ++ l2) = decode BYTE_ORDER_BIG l2 + 2 ^ (8 * zlen l2) * decode BYTE_ORDER_BIG l1.
Proof. cbn [decode]. rewrite rev_app_distr, le_decode_app, zlen_rev. reflexivity. Qed.

(** The part of a value that lies in the bytes [l], with the sign bits masked. *)
Lemma masked_part o l n : zlen l = n -> 0 < n ->
  Z.land (swrap (8 * n) (decode o l)) (2 ^ (8 * n) - 1) = decode o l.
Proof.
  intros <- Hn. replace (2 ^ (8 * zlen l) - 1) with (Z.ones (8 * zlen l)) by (rewrite Z.ones_equiv; lia).
  rewrite Z.land_ones, swrap_mod by lia. apply Z.mod_small, decode_bound.
Qed.

(** [f] puts the parts together that the two values read. *)
Definition joins (o : ByteOrder) (n1 n2 : Z) (f : Z -> Z -> Z) : Prop :=
  forall l1 l2, zlen l1 = n1 -> zlen l2 = n2 ->
    f (swrap (8 * n1) (decode o l1)) (swrap (8 * n2) (decode o l2)) = decode o (l1 ++ l2).

Lemma joins_big n1 n2 f : 0 < n1 -> 0 < n2 ->
  (forall a b, f a b = Z.lor (Z.shiftl (Z.land a (2 ^ (8 * n1) - 1)) (8 * n2)) (Z.land b (2 ^ (8 * n2) - 1))) ->
  joins BYTE_ORDER_BIG n1 n2 f.
Proof.
  intros H1 H2 Hf l1 l2 E1 E2. rewrite Hf, !masked_part by assumption. rewrite decode_app_big, E2.
  rewrite Z.shiftl_mul_pow2 by lia. pose proof (decode_bound BYTE_ORDER_BIG l2) as Hb. rewrite E2 in Hb.
  rewrite (lor_add (8 * n2)) by (try exact Hb; try lia; apply Z_mod_mult). lia.
Qed.

Lemma joins_little n1 n2 f : 0 < n1 -> 0 < n2 ->
  (forall a b, f a b = Z.lor (Z.land a (2 ^ (8 * n1) - 1)) (Z.shiftl (Z.land b (2 ^ (8 * n2) - 1)) (8 * n1))) ->
  joins BYTE_ORDER_LITTLE n1 n2 f.
Proof.
  intros H1 H2 Hf l1 l2 E1 E2. rewrite Hf, !masked_part by assumption. cbn [decode]. rewrite le_decode_app, E1.
  rewrite Z.shiftl_mul_pow2 by lia. pose proof (le_decode_bound l1) as Hb. rewrite E1 in Hb. rewrite Z.lor_comm.
  rewrite (lor_add (8 * n1)) by (try exact Hb; try lia; apply Z_mod_mult). lia.
Qed.

(** An encoding in two parts. *)
Lemma le_encode_add n m v : le_encode (n + m) v = le_encode n v ++ le_encode m (Z.shiftr v (8 * Z.of_nat n)).
Proof.
  revert v. induction n as [|n IH]; intros v; [cbn; rewrite Z.shiftr_0_r; reflexivity|].
  cbn [Nat.add le_encode app]. rewrite IH, Z.shiftr_shiftr by lia. do 4 f_equal. lia.
Qed.

Lemma encode_big_add n m v :
  encode BYTE_ORDER_BIG (n + m) v = encode BYTE_ORDER_BIG n (Z.shiftr v (8 * Z.of_nat m)) ++ encode BYTE_ORDER_BIG m v.
Proof. cbn [encode]. rewrite Nat.add_comm, le_encode_add. apply rev_app_distr. Qed.

Lemma encode_little_add n m v :
  encode BYTE_ORDER_LITTLE (n + m) v = encode BYTE_ORDER_LITTLE n v ++ encode BYTE_ORDER_LITTLE m (Z.shiftr v (8 * Z.of_nat n)).
Proof. apply le_encode_add. Qed.

Lemma le_encode_cong n v w : v mod 2 ^ (8 * Z.of_nat n) = w mod 2 ^ (8 * Z.of_nat n) -> le_encode n v = le_encode n w.
Proof.
  revert v w. induction n as [|n IH]; intros v w H; [reflexivity|]. cbn [le_encode].
  replace (8 * Z.of_nat (S n)) with (8 + 8 * Z.of_nat n) in H by lia. rewrite Z.pow_add_r in H by lia.
  rewrite !Z.rem_mul_r in H by lia.
  pose proof (Z.mod_pos_bound v (2 ^ 8) eq_refl). pose proof (Z.mod_pos_bound w (2 ^ 8) eq_refl).
  f_equal; [apply swrap_cong; lia|]. apply IH. rewrite !Z.shiftr_div_pow2 by lia. lia.
Qed.

Lemma encode_i32 o v : encode o 4 (i32 v) = encode o 4 v.
Proof.
  assert (le_encode 4 (i32 v) = le_encode 4 v) as E by (apply le_encode_cong; exact (swrap_mod 32 v eq_refl)).
  destruct o; cbn [encode]; rewrite E; reflexivity.
Qed.

(** ** One array of bytes *)

(** The value of [n] bytes, made with [f]. *)
Definition value_at (f : list Z -> Z) (l : list Z) (i n : Z) : result Z := let? bs := bytes_at l i n in Ok (f bs).

Lemma value_cross (o : ByteOrder) (g : Z -> Z) (f : Z -> Z -> Z) l i n1 n2 : joins o n1 n2 f -> 0 < n1 -> 0 < n2 ->
  (let? a := signed_at (8 * n1) o l i n1 in let? b := signed_at (8 * n2) o l (i + n1) n2 in Ok (g (f a b)))
  = value_at (fun bs => g (decode o bs)) l i (n1 + n2).
Proof.
  intros Hj H1 H2. unfold signed_at, value_at.
  destruct (decide (in_range (zlen l) i (n1 + n2))) as [R|R].
  - rewrite !bytes_at_ok by (unfold in_range in *; lia). cbn [rbind].
    rewrite (zsub_split l i n1 n2) by (unfold in_range in R; lia). do 2 f_equal.
    apply Hj; apply zlen_zsub; unfold in_range in R; lia.
  - rewrite (bytes_at_err l i (n1 + n2) R). unfold in_range in R.
    destruct (decide (in_range (zlen l) i n1)) as [R1|R1]; [rewrite bytes_at_ok by exact R1 | rewrite bytes_at_err by exact R1; reflexivity].
    cbn [rbind]. rewrite bytes_at_err by (unfold in_range in *; lia). reflexivity.
Qed.

(** The store of bytes: those that fit are stored, when the first one does. *)
Definition put_at (i : Z) (bs : list Z) : M (list Z) unit := fun l =>
  if (0 <=? i) && (i <? zlen l) then
    if i + zlen bs <=? zlen l then (Ok tt, overwrite l i bs)
    else (Err RangeException, overwrite l i (take (Z.to_nat (zlen l - i)) bs))
  else (Err RangeException, l).

Lemma zlen_take {A} (l : list A) n : 0 <= n <= zlen l -> zlen (take (Z.to_nat n) l) = n.
Proof. unfold zlen. rewrite length_take. lia. Qed.

Lemma zlen_put_at i bs l : zlen (snd (put_at i bs l)) = zlen l.
Proof.
  unfold put_at. destruct (_ && _) eqn:E; [|reflexivity]. zbool. destruct (_ <=? _) eqn:E2; zbool; cbn [snd].
  - apply zlen_overwrite; lia.
  - apply zlen_overwrite; [lia|]. rewrite zlen_take by (pose proof (zlen_nonneg bs); lia). lia.
Qed.

Lemma put_at_app i bs1 bs2 l : bs1 <> [] -> bs2 <> [] ->
  (put_at i bs1 ;! put_at (i + zlen bs1) bs2) l = put_at i (bs1 ++ bs2) l.
Proof.
  intros H1 H2. assert (0 < zlen bs1) by (destruct bs1; [contradiction | unfold zlen; cbn; lia]).
  assert (0 < zlen bs2) by (destruct bs2; [contradiction | unfold zlen; cbn; lia]).
  unfold bind, put_at at 1 3. destruct (_ && _) eqn:E; [|reflexivity]. zbool. rewrite zlen_app.
  destruct (i + zlen bs1 <=? zlen l) eqn:E1; zbool.
  - unfold put_at. assert (zlen (overwrite l i bs1) = zlen l) as -> by (apply zlen_overwrite; lia).
    destruct (_ && _) eqn:E2; zbool.
    + rewrite Z.add_assoc. destruct (i + zlen bs1 + zlen bs2 <=? zlen l) eqn:E3; zbool.
      * rewrite overwrite_overwrite_adjacent by lia. reflexivity.
      * rewrite overwrite_overwrite_adjacent by (rewrite ?zlen_take by lia; lia). f_equal. f_equal.
        rewrite take_app, (take_ge bs1) by (unfold zlen in *; lia). do 2 f_equal. unfold zlen in *. lia.
    + rewrite (proj2 (Z.leb_gt _ _)) by lia. f_equal. f_equal.
      assert (Z.to_nat (zlen l - i) = length bs1) as -> by (unfold zlen in *; lia). symmetry. apply take_app_length.
  - rewrite (proj2 (Z.leb_gt _ _)) by lia. f_equal. f_equal. symmetry. apply take_app_le. unfold zlen in *. lia.
Qed.

(** ** The offsets of the components *)

Section Composite.
Context {B : Type} {RB : RawBuffer B} {RS : ReadSpec B} {WS : WriteSpec B}.
Abbreviation composite := (CompositeChannelBuffer.t B).
Implicit Types (cs : list B) (s : composite).

Definition bytes_of cs : list Z := concat (map content cs).

(** Where the component [k] starts. *)
Definition offset cs (k : nat) : Z := zlen (bytes_of (take k cs)).

Lemma bytes_of_app cs1 cs2 : bytes_of (cs1 ++ cs2) = bytes_of cs1 ++ bytes_of cs2.
Proof. unfold bytes_of. rewrite map_app, concat_app. reflexivity. Qed.

Lemma bytes_of_cons c cs : bytes_of (c :: cs) = content c ++ bytes_of cs.
Proof. reflexivity. Qed.

Lemma offset_0 cs : offset cs 0 = 0.
Proof. reflexivity. Qed.

Lemma offset_all cs : offset cs (length cs) = zlen (bytes_of cs).
Proof. unfold offset. rewrite take_ge by lia. reflexivity. Qed.

Lemma offset_S cs k c : cs !! k = Some c -> offset cs (S k) = offset cs k + zlen (content c).
Proof.
  intros Hk. unfold offset. rewrite (take_S_r _ _ _ Hk), bytes_of_app, zlen_app, bytes_of_cons.
  rewrite zlen_app. change (zlen (bytes_of [])) with 0. lia.
Qed.

Lemma offset_le cs j k : (j <= k)%nat -> offset cs j <= offset cs k.
Proof.
  intros Hjk. unfold offset. rewrite <- (take_drop j (take k cs)), take_take, Nat.min_l, bytes_of_app, zlen_app by lia.
  pose proof (zlen_nonneg (bytes_of (drop j (take k cs)))). lia.
Qed.

Lemma offset_total cs k : offset cs k <= zlen (bytes_of cs).
Proof.
  unfold offset. rewrite <- (take_drop k cs) at 2. rewrite bytes_of_app, zlen_app.
  pose proof (zlen_nonneg (bytes_of (drop k cs))). lia.
Qed.

(** Every index lies in one component. *)
Lemma offset_find cs i : 0 <= i < zlen (bytes_of cs) -> exists k c, cs !! k = Some c /\ offset cs k <= i < offset cs (S k).
Proof.
  revert i. induction cs as [|c cs IH]; intros i Hi; [change (zlen (bytes_of [])) with 0 in Hi; lia|].
  rewrite bytes_of_cons, zlen_app in Hi. destruct (Z.lt_ge_cases i (zlen (content c))) as [L|G].
  - exists O, c. split; [reflexivity|]. rewrite (offset_S (c :: cs) 0 c) by reflexivity. rewrite offset_0. lia.
  - destruct (IH (i - zlen (content c))) as (k & d & Hk & Hr); [lia|]. exists (S k), d. split; [exact Hk|].
    assert (forall j, offset (c :: cs) (S j) = zlen (content c) + offset cs j) as E.
    { intros j. unfold offset. cbn [take]. rewrite bytes_of_cons, zlen_app. reflexivity. }
    rewrite !E. lia.
Qed.

Lemma offset_unique cs i j k : offset cs j <= i < offset cs (S j) -> offset cs k <= i < offset cs (S k) -> j = k.
Proof.
  intros Hj Hk. destruct (Nat.lt_total j k) as [L|[E|L]]; [|exact E|].
  - pose proof (offset_le cs (S j) k). lia.
  - pose proof (offset_le cs (S k) j). lia.
Qed.

(** The bytes of a component are a part of all the bytes. *)
Lemma zsub_component cs k c i n : cs !! k = Some c -> 0 <= n -> offset cs k <= i -> i + n <= offset cs (S k) ->
  zsub (bytes_of cs) i n = zsub (content c) (i - offset cs k) n.
Proof.
  intros Hk Hn Hi Hn2. rewrite (offset_S _ _ _ Hk) in Hn2. rewrite <- (take_drop_middle _ _ _ Hk) at 1.
  rewrite bytes_of_app, bytes_of_cons. fold (offset cs k). unfold offset in *. unfold zsub.
  set (l := bytes_of (take k cs)) in *. rewrite drop_app_ge by (unfold zlen in *; lia).
  rewrite drop_app_le by (unfold zlen in *; lia). rewrite take_app_le by (rewrite length_drop; unfold zlen in *; lia).
  do 2 f_equal. unfold zlen. lia.
Qed.

(** A component with other bytes. *)
Lemma bytes_of_insert cs k c c' i bs : cs !! k = Some c ->
  content c' = overwrite (content c) (i - offset cs k) bs -> offset cs k <= i -> i + zlen bs <= offset cs (S k) ->
  bytes_of (<[k := c']> cs) = overwrite (bytes_of cs) i bs.
Proof.
  intros Hk Hc Hi Hn. rewrite (offset_S _ _ _ Hk) in Hn. pose proof (lookup_lt_Some _ _ _ Hk) as Hlt.
  rewrite insert_take_drop by exact Hlt. rewrite <- (take_drop_middle _ _ _ Hk) at 3.
  rewrite !bytes_of_app, !bytes_of_cons, Hc. unfold offset in *. set (l := bytes_of (take k cs)) in *.
  unfold overwrite. unfold zlen in *. rewrite take_app, (take_ge l) by lia.
  rewrite take_app_le by lia. rewrite <- !app_assoc. f_equal. f_equal; [f_equal; lia|]. f_equal.
  rewrite drop_app_ge by lia. rewrite drop_app_le by lia. f_equal. f_equal. lia.
Qed.

(** ** Composite buffers *)

(** A component has nothing but readable bytes, in the order of the whole. *)
Record whole (o : ByteOrder) (c : B) : Prop := MkWhole {
  whole_valid : valid c;
  whole_order : order c = o;
  whole_reader : AbstractChannelBuffer.readerIndex c = 0;
  whole_writer : AbstractChannelBuffer.writerIndex c = zlen (content c);
}.

(** The invariant; the eight bytes of a [long] behind the last index are indexes
    too. *)
Record composed s (l : list Z) : Prop := MkComposed {
  composed_whole : Forall (whole (byteOrder s)) (components s);
  composed_bytes : bytes_of (components s) = l;
  composed_table : indices s = table 0 (components s);
  composed_some : components s <> [];
  composed_last : 0 <= lastAccessedComponentId s < size s;
  composed_max : zlen l <= INT_MAX - 8;
}.

(** Nothing but the component accessed last has changed. *)
Definition moved s s' : Prop := exists n, s' = with_last n s /\ 0 <= n < size s.

Lemma moved_composed s s' l : composed s l -> moved s s' -> composed s' l.
Proof. intros [] (n & -> & Hn). split; assumption. Qed.

Lemma moved_refl s l : composed s l -> moved s s.
Proof. intros Hs. exists (lastAccessedComponentId s). split; [destruct s; reflexivity | apply (composed_last _ _ Hs)]. Qed.

Lemma moved_trans s1 s2 s3 : moved s1 s2 -> moved s2 s3 -> moved s1 s3.
Proof. intros (n & -> & Hn) (m & -> & Hm). exists m. auto. Qed.

Lemma element_lookup {A} (l : list A) (k : nat) a : l !! k = Some a -> element l (Z.of_nat k) = Ok a.
Proof. intros E. unfold element. rewrite (proj2 (Z.ltb_ge _ _)) by lia. rewrite Nat2Z.id, E. reflexivity. Qed.

Lemma table_lookup cs a k : Forall (fun c => valid c) cs -> 0 <= a -> a + zlen (bytes_of cs) <= INT_MAX -> (k <= length cs)%nat ->
  table a cs !! k = Some (a + offset cs k).
Proof.
  revert a k. induction cs as [|c cs IH]; intros a k Hv Ha Hmax Hk.
  - cbn in Hk. destruct k; [|lia]. cbn. f_equal. rewrite offset_0. lia.
  - apply List.Forall_cons_iff in Hv as [Hc Hv]. destruct k as [|k]; [cbn; rewrite offset_0; f_equal; lia|].
    rewrite bytes_of_cons, zlen_app in Hmax. pose proof (zlen_nonneg (content c)). pose proof (zlen_nonneg (bytes_of cs)).
    cbn [table lookup list_lookup]. fold (@lookup _ _ _ (@list_lookup Z)).
    rewrite capacity_content by exact Hc. rewrite i32_id by (unfold is_signed, INT_MAX in *; lia).
    rewrite IH; [|exact Hv | lia | lia | cbn in Hk; lia]. f_equal. unfold offset. cbn [take].
    rewrite bytes_of_cons, zlen_app. lia.
Qed.

Lemma indice_offset s l k : composed s l -> (k <= length (components s))%nat ->
  element (indices s) (Z.of_nat k) = Ok (offset (components s) k).
Proof.
  intros Hs Hk. apply element_lookup. rewrite (composed_table _ _ Hs). pose proof (composed_max _ _ Hs) as Hm.
  rewrite <- (composed_bytes _ _ Hs) in Hm. rewrite table_lookup; [f_equal; lia | | lia | lia | exact Hk].
  refine (List.Forall_impl _ _ (composed_whole _ _ Hs)). apply whole_valid.
Qed.

Lemma capacity_eq s l : composed s l -> capacity s = zlen l.
Proof.
  intros Hs. unfold capacity, size, zlen at 1. rewrite (indice_offset s l) by (auto; lia).
  rewrite offset_all, (composed_bytes _ _ Hs). reflexivity.
Qed.

Lemma composed_component s l k c : composed s l -> components s !! k = Some c -> whole (byteOrder s) c.
Proof.
  intros Hs Hk. pose proof (composed_whole _ _ Hs) as H. rewrite List.Forall_forall in H. apply H.
  apply list_elem_of_In. eapply list_elem_of_lookup_2. exact Hk.
Qed.

(** *** The look-up *)

Lemma searchRight_spec s l i : composed s l -> forall n j, (j + n = length (components s))%nat -> offset (components s) j <= i ->
  (i < zlen l -> exists k c, components s !! k = Some c /\ offset (components s) k <= i < offset (components s) (S k) /\
    searchRight n (Z.of_nat j) i s = (Ok (Z.of_nat k), with_last (Z.of_nat k) s)) /\
  (zlen l <= i -> searchRight n (Z.of_nat j) i s = (Err RangeException, s)).
Proof.
  intros Hs. induction n as [|n IH]; intros j Hj Hi.
  - cbn [searchRight]. split; [|reflexivity]. intros Hl. exfalso.
    replace j with (length (components s)) in Hi by lia. rewrite offset_all, (composed_bytes _ _ Hs) in Hi. lia.
  - cbn [searchRight]. replace (Z.of_nat j + 1) with (Z.of_nat (S j)) by lia.
    unfold indice. rewrite !bind_reads, (indice_offset s l) by (auto; lia).
    destruct (i <? offset (components s) (S j)) eqn:E; zbool.
    + split; [|intros Hl; exfalso; pose proof (offset_total (components s) (S j)) as Ht; rewrite (composed_bytes _ _ Hs) in Ht; lia].
      intros _. destruct (lookup_lt_is_Some_2 (components s) j) as [c Hc]; [lia|]. exists j, c.
      split; [exact Hc|]. split; [lia | reflexivity].
    + apply IH; [lia | exact E].
Qed.

Lemma searchLeft_spec s l i : composed s l -> 0 <= i -> forall j, (j <= length (components s))%nat -> i < offset (components s) j ->
  exists k c, components s !! k = Some c /\ offset (components s) k <= i < offset (components s) (S k) /\
    searchLeft j i s = (Ok (Z.of_nat k), with_last (Z.of_nat k) s).
Proof.
  intros Hs Hi. induction j as [|j IH]; intros Hj Hlt; [rewrite offset_0 in Hlt; lia|].
  cbn [searchLeft]. unfold indice. rewrite bind_reads, (indice_offset s l) by (auto; lia).
  destruct (i >=? offset (components s) j) eqn:E; zbool; [|apply IH; lia].
  destruct (lookup_lt_is_Some_2 (components s) j) as [c Hc]; [lia|]. exists j, c. split; [exact Hc|]. split; [lia | reflexivity].
Qed.

(** The component of an index, wherever the one accessed last is. *)
Lemma getComponentId_in s l i : composed s l -> 0 <= i < zlen l ->
  exists k c s', components s !! k = Some c /\ offset (components s) k <= i < offset (components s) (S k) /\
    getComponentId i s = (Ok (Z.of_nat k), s') /\ moved s s'.
Proof.
  intros Hs Hi. unfold getComponentId. rewrite bind_throw_if, (proj2 (Z.ltb_ge _ _)), bind_gets by lia.
  pose proof (composed_last _ _ Hs) as Hlast. set (last := lastAccessedComponentId s) in *.
  unfold size, zlen in Hlast. assert (last = Z.of_nat (Z.to_nat last)) as El by lia.
  unfold indice. rewrite bind_reads, El, (indice_offset s l) by (auto; lia). rewrite <- El.
  assert (forall k c, components s !! k = Some c -> moved s (with_last (Z.of_nat k) s)) as Hmoved.
  { intros k c Hk. exists (Z.of_nat k). split; [reflexivity|]. apply lookup_lt_Some in Hk. unfold size, zlen. lia. }
  destruct (i >=? _) eqn:E1; zbool.
  - rewrite bind_reads. replace (last + 1) with (Z.of_nat (S (Z.to_nat last))) by lia.
    rewrite (indice_offset s l) by (auto; lia). destruct (i <? _) eqn:E2; zbool.
    + destruct (lookup_lt_is_Some_2 (components s) (Z.to_nat last)) as [c Hc]; [lia|]. exists (Z.to_nat last), c, s.
      split; [exact Hc|]. split; [lia|]. split; [rewrite <- El; reflexivity | exact (moved_refl _ _ Hs)].
    + rewrite bind_gets. destruct (searchRight_spec s l i Hs (length (components s) - S (Z.to_nat last)) (S (Z.to_nat last)))
        as [Hin _]; [lia | exact E2 |]. destruct (Hin (proj2 Hi)) as (k & c & Hk & Hr & E). exists k, c, (with_last (Z.of_nat k) s).
      split; [exact Hk|]. split; [exact Hr|]. split; [|exact (Hmoved k c Hk)]. rewrite <- E. f_equal. unfold size, zlen. lia.
  - destruct (searchLeft_spec s l i Hs (proj1 Hi) (Z.to_nat last)) as (k & c & Hk & Hr & E); [lia | exact E1 |].
    exists k, c, (with_last (Z.of_nat k) s). split; [exact Hk|]. split; [exact Hr|]. split; [exact E | exact (Hmoved k c Hk)].
Qed.

Lemma getComponentId_out s l i : composed s l -> ~ 0 <= i < zlen l -> getComponentId i s = (Err RangeException, s).
Proof.
  intros Hs Hi. unfold getComponentId. rewrite bind_throw_if. destruct (i <? 0) eqn:E0; zbool; [reflexivity|].
  rewrite bind_gets. pose proof (composed_last _ _ Hs) as Hlast. set (last := lastAccessedComponentId s) in *.
  unfold size, zlen in Hlast. assert (last = Z.of_nat (Z.to_nat last)) as El by lia.
  assert (forall k, offset (components s) k <= i) as Hoff.
  { intros k. pose proof (offset_total (components s) k) as Ht. rewrite (composed_bytes _ _ Hs) in Ht. lia. }
  unfold indice. rewrite bind_reads, El, (indice_offset s l) by (auto; lia). rewrite <- El.
  rewrite Z.geb_leb, (proj2 (Z.leb_le _ _)) by apply Hoff. rewrite bind_reads.
  replace (last + 1) with (Z.of_nat (S (Z.to_nat last))) by lia.
  rewrite (indice_offset s l), (proj2 (Z.ltb_ge _ _)), bind_gets by (auto; lia).
  destruct (searchRight_spec s l i Hs (Z.to_nat (size s - Z.of_nat (S (Z.to_nat last)))) (S (Z.to_nat last))) as [_ Hout];
    [unfold size, zlen; lia | apply Hoff | apply Hout; lia].
Qed.

(** *** Reads *)

(** [m] gives [r] and changes nothing but the component accessed last. *)
Definition answers {A} (m : M composite A) s (r : result A) : Prop := exists s', m s = (r, s') /\ moved s s'.

Lemma answers_seq {A A' C} (m1 : M composite A) (m2 : M composite A') (f : A -> A' -> C) s l r1 r2 :
  composed s l -> answers m1 s r1 -> (forall s', composed s' l -> byteOrder s' = byteOrder s -> answers m2 s' r2) ->
  answers (let! a := m1 in let! b := m2 in ret (f a b)) s (let? a := r1 in let? b := r2 in Ok (f a b)).
Proof.
  intros Hs (s1 & E1 & H1) H2. assert (byteOrder s1 = byteOrder s) as Ho by (destruct H1 as (n & -> & _); reflexivity).
  destruct r1 as [a|e]; [|exists s1; split; [apply (bind_err _ _ _ _ _ E1) | exact H1]].
  destruct (H2 s1 (moved_composed _ _ _ Hs H1) Ho) as (s2 & E2 & H12). exists s2.
  split; [|exact (moved_trans _ _ _ H1 H12)]. rewrite (bind_ok _ _ _ _ _ E1). cbn [rbind].
  destruct r2 as [b|e]; [rewrite (bind_ok _ _ _ _ _ E2) | rewrite (bind_err _ _ _ _ _ E2)]; reflexivity.
Qed.

Lemma locate_in s l i n : composed s l -> 0 <= i < zlen l -> 0 < n <= 8 ->
  exists k c s', components s !! k = Some c /\ offset (components s) k <= i < offset (components s) (S k) /\
    locate i n s = (Ok (Z.of_nat k, i + n <=? offset (components s) (S k), i - offset (components s) k), s') /\ moved s s'.
Proof.
  intros Hs Hi Hn. destruct (getComponentId_in s l i Hs Hi) as (k & c & s' & Hk & Hr & E & Hm). exists k, c, s'.
  split; [exact Hk|]. split; [exact Hr|]. split; [|exact Hm]. pose proof (moved_composed _ _ _ Hs Hm) as Hs'.
  assert (components s' = components s) as Ec by (destruct Hm as (m & -> & _); reflexivity).
  pose proof (lookup_lt_Some _ _ _ Hk) as Hlt. unfold locate, indice. rewrite (bind_ok _ _ _ _ _ E).
  replace (Z.of_nat k + 1) with (Z.of_nat (S k)) by lia.
  rewrite bind_reads, (indice_offset s' l), bind_reads, (indice_offset s' l) by (rewrite ?Ec; auto; lia). rewrite Ec. pose proof (composed_max _ _ Hs). pose proof (offset_le (components s) 0 k (Nat.le_0_l k)). rewrite offset_0 in *.
  unfold is_signed, INT_MAX in *. rewrite !i32_id by (unfold is_signed; lia). reflexivity.
Qed.

Lemma locate_out s l i n : composed s l -> ~ 0 <= i < zlen l -> locate i n s = (Err RangeException, s).
Proof. intros Hs Hi. apply bind_err, (getComponentId_out s l i Hs Hi). Qed.

(** A component's answer about bytes that lie in it. *)
Lemma component_value s l k c i n f (g : B -> Z -> result Z) :
  composed s l -> components s !! k = Some c -> offset (components s) k <= i -> i + n <= offset (components s) (S k) -> 0 < n ->
  (forall j, is_i32 j -> g c j = value_at f (content c) j n) ->
  (let? c := element (components s) (Z.of_nat k) in g c (i - offset (components s) k)) = value_at f l i n.
Proof.
  intros Hs Hk Hi Hn Hn0 Hg. rewrite (element_lookup _ _ _ Hk). cbn [rbind].
  pose proof (composed_max _ _ Hs) as Hmax. pose proof (offset_total (components s) (S k)) as Ht.
  rewrite (composed_bytes _ _ Hs) in Ht. pose proof (offset_le (components s) 0 k (Nat.le_0_l k)) as H0. rewrite offset_0 in H0.
  pose proof (offset_S _ _ _ Hk) as HS. rewrite Hg by (unfold is_signed, INT_MAX in *; lia). unfold value_at.
  rewrite !bytes_at_ok by (unfold in_range; lia). cbn [rbind]. rewrite <- (composed_bytes _ _ Hs).
  rewrite (zsub_component _ _ _ _ _ Hk) by lia. reflexivity.
Qed.

Lemma value_out f (l : list Z) i n : 0 < n -> ~ 0 <= i < zlen l -> value_at f l i n = Err RangeException.
Proof. intros Hn Hi. unfold value_at. rewrite bytes_at_err by (unfold in_range; lia). reflexivity. Qed.

Lemma getByte_answers s l i : composed s l -> answers (getByte i) s (signed_at 8 (byteOrder s) l i 1).
Proof.
  intros Hs. destruct (decide (0 <= i < zlen l)) as [Hi|Hi].
  2:{ exists s. split; [|exact (moved_refl _ _ Hs)]. change (signed_at 8 (byteOrder s) l i 1) with
        (value_at (fun bs => swrap 8 (decode (byteOrder s) bs)) l i 1). rewrite value_out by (auto; lia).
      apply bind_err, (getComponentId_out s l i Hs Hi). }
  destruct (getComponentId_in s l i Hs Hi) as (k & c & s' & Hk & Hr & E & Hm). exists s'. split; [|exact Hm].
  pose proof (moved_composed _ _ _ Hs Hm) as Hs'. assert (components s' = components s) as Ec by (destruct Hm as (m & -> & _); reflexivity).
  pose proof (lookup_lt_Some _ _ _ Hk) as Hlt. unfold getByte, indice, ask.
  rewrite (bind_ok _ _ _ _ _ E), bind_reads, (indice_offset s' l) by (rewrite ?Ec; auto; lia). rewrite Ec.
  pose proof (composed_max _ _ Hs). pose proof (offset_le (components s) 0 k (Nat.le_0_l k)). rewrite offset_0 in *.
  rewrite i32_id by (unfold is_signed, INT_MAX in *; lia). unfold reads. rewrite Ec. f_equal.
  apply (component_value s l k c i 1 (fun bs => swrap 8 (decode (byteOrder s) bs)) Buffer.getByte Hs Hk); try lia.
  intros j Hj. destruct (composed_component s l k c Hs Hk) as [Hv Ho _ _]. rewrite getByte_law, Ho by assumption. reflexivity.
Qed.

(** The reads of several bytes: from one component, or from two parts. *)
Lemma get_answers s l i n f (g : B -> Z -> result Z) (cross : M composite Z) :
  composed s l -> 0 < n <= 8 ->
  (forall c j, whole (byteOrder s) c -> is_i32 j -> g c j = value_at f (content c) j n) ->
  (forall s', composed s' l -> byteOrder s' = byteOrder s -> 0 <= i -> is_i32 (i + 8) -> answers cross s' (value_at f l i n)) ->
  answers (let! r := locate i n in let '(componentId, inside, j) := r in
           if inside : bool then ask componentId (fun c => g c j) else cross) s (value_at f l i n).
Proof.
  intros Hs Hn Hg Hc. destruct (decide (0 <= i < zlen l)) as [Hi|Hi].
  2:{ exists s. split; [|exact (moved_refl _ _ Hs)]. rewrite value_out by (auto; lia). apply bind_err, (locate_out s l i n Hs Hi). }
  destruct (locate_in s l i n Hs Hi Hn) as (k & c & s' & Hk & Hr & E & Hm).
  pose proof (moved_composed _ _ _ Hs Hm) as Hs'. assert (components s' = components s) as Ec by (destruct Hm as (m & -> & _); reflexivity).
  destruct (i + n <=? offset (components s) (S k)) eqn:En; zbool.
  - exists s'. split; [|exact Hm]. rewrite (bind_ok _ _ _ _ _ E). unfold ask, reads. rewrite Ec. f_equal.
    apply (component_value s l k c i n f g Hs Hk); try lia. intros j Hj. apply Hg; [|exact Hj].
    exact (composed_component s l k c Hs Hk).
  - destruct (Hc s' Hs') as (s2 & E2 & Hm2); [destruct Hm as (m & -> & _); reflexivity | lia | |].
    { pose proof (composed_max _ _ Hs). unfold is_signed, INT_MAX in *. lia. }
    exists s2. split; [rewrite (bind_ok _ _ _ _ _ E); exact E2 | exact (moved_trans _ _ _ Hm Hm2)].
Qed.

(** The two parts, in either order of bytes. *)
Lemma cross_answers s l i n1 n2 (g : Z -> Z) (big little : Z -> Z -> Z) (m1 m2 : M composite Z) :
  composed s l -> 0 < n1 -> 0 < n2 -> joins BYTE_ORDER_BIG n1 n2 big -> joins BYTE_ORDER_LITTLE n1 n2 little ->
  (forall s', composed s' l -> answers m1 s' (signed_at (8 * n1) (byteOrder s') l i n1)) ->
  (forall s', composed s' l -> answers m2 s' (signed_at (8 * n2) (byteOrder s') l (i + n1) n2)) ->
  answers (let! o := gets byteOrder in
           match o with
           | BYTE_ORDER_BIG => let! a := m1 in let! b := m2 in ret (g (big a b))
           | BYTE_ORDER_LITTLE => let! a := m1 in let! b := m2 in ret (g (little a b))
           end) s (value_at (fun bs => g (decode (byteOrder s) bs)) l i (n1 + n2)).
Proof.
  intros Hs H1 H2 Hb Hl A1 A2. unfold answers. rewrite bind_gets. destruct (byteOrder s) eqn:Eo.
  - rewrite <- (value_cross BYTE_ORDER_BIG g big l i n1 n2 Hb H1 H2).
    apply (answers_seq m1 m2 (fun a b => g (big a b)) s l _ _ Hs); [rewrite <- Eo; apply A1, Hs|].
    intros s' Hs' Ho. rewrite <- Eo, <- Ho. apply A2, Hs'.
  - rewrite <- (value_cross BYTE_ORDER_LITTLE g little l i n1 n2 Hl H1 H2).
    apply (answers_seq m1 m2 (fun a b => g (little a b)) s l _ _ Hs); [rewrite <- Eo; apply A1, Hs|].
    intros s' Hs' Ho. rewrite <- Eo, <- Ho. apply A2, Hs'.
Qed.

Lemma getShort_answers s l i : composed s l -> answers (getShort i) s (signed_at 16 (byteOrder s) l i 2).
Proof.
  intros Hs. apply (get_answers s l i 2 (fun bs => i16 (decode (byteOrder s) bs)) Buffer.getShort); [exact Hs | lia | |].
  { intros c j [Hv Ho _ _] Hj. rewrite getShort_law, Ho by assumption. reflexivity. }
  intros s' Hs' Ho H0 Hi. rewrite <- Ho. rewrite i32_id by (unfold is_signed in *; lia).
  apply (cross_answers s' l i 1 1 i16 _ _ _ _ Hs'); try lia;
    [apply joins_big | apply joins_little | |]; try lia; try reflexivity; intros; apply getByte_answers; assumption.
Qed.

Lemma getUnsignedMedium_answers s l i : composed s l -> answers (getUnsignedMedium i) s (unsigned_at (byteOrder s) l i 3).
Proof.
  intros Hs. apply (get_answers s l i 3 (decode (byteOrder s)) Buffer.getUnsignedMedium); [exact Hs | lia | |].
  { intros c j [Hv Ho _ _] Hj. rewrite getUnsignedMedium_law, Ho by assumption. reflexivity. }
  intros s' Hs' Ho H0 Hi. rewrite <- Ho. rewrite i32_id by (unfold is_signed in *; lia).
  apply (cross_answers s' l i 2 1 (fun z => z) _ _ _ _ Hs'); try lia;
    [apply joins_big | apply joins_little | |]; try lia; try reflexivity; intros;
    [apply getShort_answers | apply getByte_answers]; assumption.
Qed.

Lemma getInt_answers s l i : composed s l -> answers (getInt i) s (signed_at 32 (byteOrder s) l i 4).
Proof.
  intros Hs. apply (get_answers s l i 4 (fun bs => i32 (decode (byteOrder s) bs)) Buffer.getInt); [exact Hs | lia | |].
  { intros c j [Hv Ho _ _] Hj. rewrite getInt_law, Ho by assumption. reflexivity. }
  intros s' Hs' Ho H0 Hi. rewrite <- Ho. rewrite i32_id by (unfold is_signed in *; lia).
  apply (cross_answers s' l i 2 2 i32 _ _ _ _ Hs'); try lia;
    [apply joins_big | apply joins_little | |]; try lia; try reflexivity; intros; apply getShort_answers; assumption.
Qed.

Lemma getLong_answers s l i : composed s l -> answers (getLong i) s (signed_at 64 (byteOrder s) l i 8).
Proof.
  intros Hs. apply (get_answers s l i 8 (fun bs => i64 (decode (byteOrder s) bs)) Buffer.getLong); [exact Hs | lia | |].
  { intros c j [Hv Ho _ _] Hj. rewrite getLong_law, Ho by assumption. reflexivity. }
  intros s' Hs' Ho H0 Hi. rewrite <- Ho. rewrite i32_id by (unfold is_signed in *; lia).
  apply (cross_answers s' l i 4 4 i64 _ _ _ _ Hs'); try lia;
    [apply joins_big | apply joins_little | |]; try lia; try reflexivity; intros; apply getInt_answers; assumption.
Qed.

(** *** Writes *)

(** [m] stores [bs] at [i]: what fits, and the exception if not all of it does. *)
Definition writes (m : M composite unit) s (l : list Z) (i : Z) (bs : list Z) : Prop :=
  exists s', m s = (fst (put_at i bs l), s') /\ composed s' (snd (put_at i bs l)) /\
    byteOrder s' = byteOrder s /\ ix s' = ix s.

Lemma whole_updated o c l c' : whole o c -> updated c l c' -> zlen l = zlen (content c) -> whole o c'.
Proof.
  intros [Hv Ho Hr Hw] [Hv' Hc Hi Ho'] Hz. split; [exact Hv' | congruence | |];
    unfold AbstractChannelBuffer.readerIndex, AbstractChannelBuffer.writerIndex in *; rewrite Hi; [exact Hr | rewrite Hw, Hc; lia].
Qed.

Lemma composed_insert s l k c c' i bs : composed s l -> components s !! k = Some c ->
  offset (components s) k <= i -> i + zlen bs <= offset (components s) (S k) ->
  updated c (overwrite (content c) (i - offset (components s) k) bs) c' ->
  composed (with_components (<[k := c']> (components s)) s) (overwrite l i bs).
Proof.
  intros Hs Hk Hi Hn Hu. pose proof (offset_S _ _ _ Hk) as HS. pose proof (zlen_nonneg bs) as Hz.
  assert (zlen (overwrite (content c) (i - offset (components s) k) bs) = zlen (content c)) as Hzc by (apply zlen_overwrite; lia).
  pose proof (composed_component s l k c Hs Hk) as Hw. pose proof Hw as [Hv _ _ _].
  pose proof (offset_total (components s) (S k)) as Ht. rewrite (composed_bytes _ _ Hs) in Ht.
  pose proof (offset_le (components s) 0 k (Nat.le_0_l k)) as H0. rewrite offset_0 in H0.
  pose proof (whole_updated _ _ _ _ Hw Hu Hzc) as Hw'. pose proof Hw' as [Hv' _ _ _].
  destruct Hs as [A1 A2 A3 A4 A5 A6]. split; cbn.
  - apply Forall_insert; assumption.
  - rewrite <- A2. apply (bytes_of_insert _ _ c); [exact Hk | apply (updated_content _ _ _ Hu) | exact Hi | exact Hn].
  - rewrite A3. assert (zlen (content c') = zlen (content c)) as Hcc by (rewrite (updated_content _ _ _ Hu); exact Hzc).
    clear - Hk Hv Hv' Hcc. generalize 0 as a. revert k Hk. induction (components s) as [|d cs IH]; intros k Hk a; [discriminate|].
    destruct k as [|k]; cbn in Hk |- *.
    + injection Hk as ->. rewrite !capacity_content, Hcc by assumption. reflexivity.
    + f_equal. apply IH; assumption.
  - intros E. apply A4. destruct (components s); [reflexivity|]. destruct k; discriminate.
  - unfold size. cbn. unfold zlen. rewrite length_insert. exact A5.
  - rewrite zlen_overwrite by lia. exact A6.
Qed.

Lemma on_component_writes s l k c i bs (m : M B unit) : composed s l -> components s !! k = Some c ->
  offset (components s) k <= i -> i + zlen bs <= offset (components s) (S k) ->
  (exists c', m c = (Ok tt, c') /\ updated c (overwrite (content c) (i - offset (components s) k) bs) c') ->
  exists s', on_component (Z.of_nat k) m s = (Ok tt, s') /\ composed s' (overwrite l i bs) /\ byteOrder s' = byteOrder s /\ ix s' = ix s.
Proof.
  intros Hs Hk Hi Hn (c' & E & Hu). exists (with_components (<[k := c']> (components s)) s).
  split; [|split; [exact (composed_insert _ _ _ _ _ _ _ Hs Hk Hi Hn Hu) | split; reflexivity]].
  unfold on_component. rewrite (element_lookup _ _ _ Hk), E, Nat2Z.id. reflexivity.
Qed.

Lemma moved_kept s s' : moved s s' -> byteOrder s' = byteOrder s /\ ix s' = ix s /\ components s' = components s.
Proof. intros (n & -> & _). repeat split; reflexivity. Qed.

Lemma put_at_out i bs (l : list Z) : ~ 0 <= i < zlen l -> put_at i bs l = (Err RangeException, l).
Proof. intros Hi. unfold put_at. destruct (_ && _) eqn:E; zbool; [exfalso; lia | reflexivity]. Qed.

Lemma put_at_in i bs (l : list Z) : 0 <= i < zlen l -> i + zlen bs <= zlen l -> put_at i bs l = (Ok tt, overwrite l i bs).
Proof. intros Hi Hn. unfold put_at. rewrite (proj2 (Z.leb_le 0 i)), (proj2 (Z.ltb_lt _ _)), (proj2 (Z.leb_le _ _)) by lia. reflexivity. Qed.

Lemma writes_out (m : M composite unit) s l i bs : composed s l -> ~ 0 <= i < zlen l -> m s = (Err RangeException, s) -> writes m s l i bs.
Proof. intros Hs Hi E. exists s. rewrite put_at_out by exact Hi. auto. Qed.

(** A store of one component's range. *)
Lemma component_writes s l k c i n bs (set : Z -> M B unit) : composed s l -> components s !! k = Some c ->
  offset (components s) k <= i -> i + n <= offset (components s) (S k) -> 0 < n -> zlen bs = n ->
  (forall j, is_i32 j -> stores (set j) c j bs) -> writes (on_component (Z.of_nat k) (set (i - offset (components s) k))) s l i bs.
Proof.
  intros Hs Hk Hi Hn H0 Hz Hset. pose proof (offset_S _ _ _ Hk) as HS. pose proof (composed_max _ _ Hs) as Hmax.
  pose proof (offset_total (components s) (S k)) as Ht. rewrite (composed_bytes _ _ Hs) in Ht.
  pose proof (offset_le (components s) 0 k (Nat.le_0_l k)) as Hk0. rewrite offset_0 in Hk0.
  destruct (on_component_writes s l k c i bs (set (i - offset (components s) k)) Hs Hk Hi) as (s' & E & A); [lia | |].
  - apply Hset; [unfold is_signed, INT_MAX in *; lia | unfold in_range; lia].
  - exists s'. rewrite put_at_in by lia. split; [exact E | exact A].
Qed.

Lemma setByte_writes s l i v : composed s l -> writes (setByte i v) s l i [i8 v].
Proof.
  intros Hs. destruct (decide (0 <= i < zlen l)) as [Hi|Hi].
  2:{ apply writes_out; [exact Hs | exact Hi | apply bind_err, (getComponentId_out s l i Hs Hi)]. }
  destruct (getComponentId_in s l i Hs Hi) as (k & c & s' & Hk & Hr & E & Hm).
  pose proof (moved_composed _ _ _ Hs Hm) as Hs'. destruct (moved_kept _ _ Hm) as (Ho & Hx & Ec).
  pose proof (lookup_lt_Some _ _ _ Hk) as Hlt. rewrite <- Ec in Hk, Hr, Hlt.
  pose proof (composed_max _ _ Hs). pose proof (offset_le (components s') 0 k (Nat.le_0_l k)). rewrite offset_0 in *.
  destruct (component_writes s' l k c i 1 [i8 v] (fun j => Buffer.setByte j v) Hs' Hk) as (s2 & E2 & A & Ho2 & Hx2);
    try lia; [reflexivity | intros j Hj; apply setByte_law; [apply (composed_component _ _ _ _ Hs' Hk) | exact Hj] |].
  exists s2. split; [|split; [exact A | split; congruence]]. unfold setByte, indice.
  rewrite (bind_ok _ _ _ _ _ E), bind_reads, (indice_offset s' l) by (auto; lia).
  rewrite i32_id by (unfold is_signed, INT_MAX in *; lia). exact E2.
Qed.

Lemma set_writes s l i n bs (set : Z -> M B unit) (cross : M composite unit) :
  composed s l -> 0 < n <= 8 -> zlen bs = n ->
  (forall c j, whole (byteOrder s) c -> is_i32 j -> stores (set j) c j bs) ->
  (forall s', composed s' l -> byteOrder s' = byteOrder s -> 0 <= i -> is_i32 (i + 8) -> writes cross s' l i bs) ->
  writes (let! r := locate i n in let '(componentId, inside, j) := r in
          if inside : bool then on_component componentId (set j) else cross) s l i bs.
Proof.
  intros Hs Hn Hz Hset Hc. destruct (decide (0 <= i < zlen l)) as [Hi|Hi].
  2:{ apply writes_out; [exact Hs | exact Hi | apply bind_err, (locate_out s l i n Hs Hi)]. }
  destruct (locate_in s l i n Hs Hi Hn) as (k & c & s' & Hk & Hr & E & Hm).
  pose proof (moved_composed _ _ _ Hs Hm) as Hs'. destruct (moved_kept _ _ Hm) as (Ho & Hx & Ec).
  enough (writes (if i + n <=? offset (components s) (S k) then on_component (Z.of_nat k) (set (i - offset (components s) k)) else cross) s' l i bs)
    as (s2 & E2 & A & Ho2 & Hx2) by (exists s2; split; [rewrite (bind_ok _ _ _ _ _ E); exact E2 | split; [exact A | split; congruence]]).
  destruct (i + n <=? _) eqn:En; zbool.
  - rewrite <- Ec in *. apply (component_writes s' l k c i n bs set Hs' Hk); try lia; try exact Hz.
    intros j Hj. apply Hset; [rewrite <- Ho; apply (composed_component _ _ _ _ Hs' Hk) | exact Hj].
  - apply Hc; [exact Hs' | exact Ho | lia |]. pose proof (composed_max _ _ Hs). unfold is_signed, INT_MAX in *. lia.
Qed.

Lemma writes_app (m1 m2 : M composite unit) s l i j bs1 bs2 bs : bs = bs1 ++ bs2 -> bs1 <> [] -> bs2 <> [] -> j = i + zlen bs1 ->
  writes m1 s l i bs1 -> (forall s' l', composed s' l' -> byteOrder s' = byteOrder s -> writes m2 s' l' j bs2) ->
  writes (m1 ;! m2) s l i bs.
Proof.
  intros -> H1 H2 -> (s1 & E1 & A1 & Ho1 & Hx1) W2. unfold writes. rewrite <- (put_at_app i bs1 bs2 l H1 H2). unfold bind.
  rewrite E1. destruct (put_at i bs1 l) as [[[]|e] l1] eqn:Ep; cbn [fst snd] in *.
  - destruct (W2 s1 l1 A1 Ho1) as (s2 & E2 & A2 & Ho2 & Hx2). exists s2. split; [exact E2|]. split; [exact A2 | split; congruence].
  - exists s1. auto.
Qed.

(** The two orders of the parts. *)
Lemma cross_writes s l i (n1 n2 : nat) v (b1 b2 l1 l2 : M composite unit) :
  (0 < n1)%nat -> (0 < n2)%nat -> composed s l ->
  (forall s', composed s' l -> byteOrder s' = BYTE_ORDER_BIG -> writes b1 s' l i (encode BYTE_ORDER_BIG n1 (Z.shiftr v (8 * Z.of_nat n2)))) ->
  (forall s' l', composed s' l' -> byteOrder s' = BYTE_ORDER_BIG -> writes b2 s' l' (i + Z.of_nat n1) (encode BYTE_ORDER_BIG n2 v)) ->
  (forall s', composed s' l -> byteOrder s' = BYTE_ORDER_LITTLE -> writes l1 s' l i (encode BYTE_ORDER_LITTLE n1 v)) ->
  (forall s' l', composed s' l' -> byteOrder s' = BYTE_ORDER_LITTLE ->
    writes l2 s' l' (i + Z.of_nat n1) (encode BYTE_ORDER_LITTLE n2 (Z.shiftr v (8 * Z.of_nat n1)))) ->
  writes (let! o := gets byteOrder in
          match o with BYTE_ORDER_BIG => b1 ;! b2 | BYTE_ORDER_LITTLE => l1 ;! l2 end) s l i (encode (byteOrder s) (n1 + n2) v).
Proof.
  intros H1 H2 Hs B1 B2 L1 L2. assert (forall o n w, (0 < n)%nat -> encode o n w <> []) as Hne.
  { intros o n w Hn E. pose proof (length_encode o n w) as Hl. rewrite E in Hl. cbn in Hl. lia. }
  enough (forall o, byteOrder s = o ->
    writes match o with BYTE_ORDER_BIG => b1 ;! b2 | BYTE_ORDER_LITTLE => l1 ;! l2 end s l i (encode o (n1 + n2) v)) as W
    by (exact (W (byteOrder s) eq_refl)).
  intros [] Ho; [rewrite encode_big_add | rewrite encode_little_add];
    eapply writes_app with (j := i + Z.of_nat n1); try reflexivity; try (apply Hne; assumption); try (rewrite zlen_encode; reflexivity).
  - apply B1; assumption.
  - intros s' l' Hs' Ho'. apply B2; congruence.
  - apply L1; assumption.
  - intros s' l' Hs' Ho'. apply L2; congruence.
Qed.

Lemma byte_encode o v : [i8 v] = encode o 1 v.
Proof. destruct o; reflexivity. Qed.

Lemma setShort_writes s l i v : composed s l -> writes (setShort i v) s l i (encode (byteOrder s) 2 v).
Proof.
  intros Hs. apply (set_writes s l i 2 _ (fun j => Buffer.setShort j v)); [exact Hs | lia | apply zlen_encode | |].
  { intros c j [Hv Ho _ _] Hj. rewrite <- Ho. apply setShort_law; assumption. }
  intros s' Hs' Ho H0 Hi. rewrite <- Ho, i32_id by (unfold is_signed in *; lia).
  apply (cross_writes s' l i 1 1); try lia; try exact Hs'; intros; rewrite <- byte_encode; apply setByte_writes; assumption.
Qed.

Lemma setMedium_writes s l i v : composed s l -> writes (setMedium i v) s l i (encode (byteOrder s) 3 v).
Proof.
  intros Hs. apply (set_writes s l i 3 _ (fun j => Buffer.setMedium j v)); [exact Hs | lia | apply zlen_encode | |].
  { intros c j [Hv Ho _ _] Hj. rewrite <- Ho. apply setMedium_law; assumption. }
  intros s' Hs' Ho H0 Hi. rewrite <- Ho, i32_id by (unfold is_signed in *; lia).
  apply (cross_writes s' l i 2 1); try lia; try exact Hs'; intros ? ? Hx;
    [rewrite <- Hx; apply setShort_writes; assumption | | rewrite <- Hx; apply setShort_writes; assumption |];
    intros; rewrite <- byte_encode; apply setByte_writes; assumption.
Qed.

Lemma setInt_writes s l i v : composed s l -> writes (setInt i v) s l i (encode (byteOrder s) 4 v).
Proof.
  intros Hs. apply (set_writes s l i 4 _ (fun j => Buffer.setInt j v)); [exact Hs | lia | apply zlen_encode | |].
  { intros c j [Hv Ho _ _] Hj. rewrite <- Ho. apply setInt_law; assumption. }
  intros s' Hs' Ho H0 Hi. rewrite <- Ho, i32_id by (unfold is_signed in *; lia).
  apply (cross_writes s' l i 2 2); try lia; try exact Hs'; intros;
    match goal with H : byteOrder _ = _ |- _ => rewrite <- H end; apply setShort_writes; assumption.
Qed.

Lemma setLong_writes s l i v : composed s l -> writes (setLong i v) s l i (encode (byteOrder s) 8 v).
Proof.
  intros Hs. apply (set_writes s l i 8 _ (fun j => Buffer.setLong j v)); [exact Hs | lia | apply zlen_encode | |].
  { intros c j [Hv Ho _ _] Hj. rewrite <- Ho. apply setLong_law; assumption. }
  intros s' Hs' Ho H0 Hi. rewrite <- Ho, (i32_id (i + 4)) by (unfold is_signed in *; lia).
  apply (cross_writes s' l i 4 4); try lia; try exact Hs'; intros; rewrite <- encode_i32;
    match goal with H : byteOrder _ = _ |- _ => rewrite <- H end; apply setInt_writes; assumption.
Qed.

(** *** Regions *)

Lemma overwrite_nil {A} (l : list A) i : overwrite l i [] = l.
Proof. unfold overwrite. cbn [app length]. rewrite Nat.add_0_r. apply take_drop. Qed.

Lemma zsub_nil {A} (l : list A) i : zsub l i 0 = [].
Proof. reflexivity. Qed.

Lemma overwrite_zsub_split d di (l : list Z) i n m : 0 <= di -> 0 <= i -> 0 <= n -> 0 <= m -> i + (n + m) <= zlen l -> di + (n + m) <= zlen d ->
  overwrite (overwrite d di (zsub l i n)) (di + n) (zsub l (i + n) m) = overwrite d di (zsub l i (n + m)).
Proof.
  intros. assert (zlen (zsub l i n) = n) as E by (apply zlen_zsub; lia).
  rewrite <- E at 2. rewrite overwrite_overwrite_adjacent by (rewrite ?E, ?zlen_zsub by lia; lia).
  rewrite (zsub_split l i n m) by lia. reflexivity.
Qed.

(** A region that starts in the component [k] or at its end. *)
Definition region s (l : list Z) (k : nat) (i n : Z) : Prop :=
  0 <= i /\ 0 <= n /\ i + n <= zlen l /\
  (n = 0 \/ exists c, components s !! k = Some c /\ offset (components s) k <= i <= offset (components s) (S k)).

(** What is in the component, and what is left. *)
Lemma region_step s l k i n c : composed s l -> region s l k i n -> 0 < n -> components s !! k = Some c ->
  exists m, localLength c i (offset (components s) k) n = m /\ i32 (i - offset (components s) k) = i - offset (components s) k /\
    0 <= m <= n /\ offset (components s) k <= i /\ i + m <= offset (components s) (S k) /\ i32 (i + m) = i + m /\ i32 (n - m) = n - m /\
    region s l (S k) (i + m) (n - m).
Proof.
  intros Hs (Hi & Hn & Hl & Hk) Hpos Hc. destruct Hk as [->|(c' & Hc' & Hr)]; [lia|]. rewrite Hc in Hc'. injection Hc' as <-.
  pose proof (composed_max _ _ Hs) as Hmax. pose proof (offset_S _ _ _ Hc) as HS.
  pose proof (offset_le (components s) 0 k (Nat.le_0_l k)) as H0. rewrite offset_0 in H0.
  pose proof (offset_total (components s) (S k)) as Ht. rewrite (composed_bytes _ _ Hs) in Ht.
  destruct (composed_component _ _ _ _ Hs Hc) as [Hv _ _ _].
  unfold localLength. rewrite capacity_content by exact Hv. unfold INT_MAX in *.
  rewrite (i32_id (i - _)), i32_id by (unfold is_signed; lia).
  eexists. split; [reflexivity|]. split; [reflexivity|]. set (m := Z.min n _). assert (0 <= m <= n) as Hm by (unfold m; lia).
  split; [exact Hm|]. split; [lia|]. split; [unfold m; lia|].
  split; [apply i32_id; unfold is_signed; lia|]. split; [apply i32_id; unfold is_signed; lia|].
  split; [lia|]. split; [lia|]. split; [lia|]. destruct (Z.eq_dec m n) as [->|Hne]; [left; lia|]. right.
  assert (i + m = offset (components s) (S k)) as -> by (unfold m in *; lia).
  destruct (lookup_lt_is_Some_2 (components s) (S k)) as [c2 Hc2].
  { destruct (Nat.lt_ge_cases (S k) (length (components s))) as [L|G]; [exact L|]. exfalso.
    pose proof (lookup_lt_Some _ _ _ Hc). assert (S k = length (components s)) as E by lia.
    pose proof (offset_all (components s)) as Ha. rewrite <- E, (composed_bytes _ _ Hs) in Ha. unfold m in *. lia. }
  exists c2. split; [exact Hc2|]. pose proof (offset_le (components s) (S k) (S (S k))). lia.
Qed.

Lemma getLoop_spec s l : composed s l -> forall fuel k i d di n, region s l k i n -> (length (components s) - k < fuel)%nat ->
  0 <= di -> di + n <= zlen d -> zlen d <= INT_MAX ->
  getLoop fuel (Z.of_nat k) i (Array.Data d) di n s = (Ok (Array.Data (overwrite d di (zsub l i n))), s).
Proof.
  intros Hs. induction fuel as [|fuel IH]; intros k i d di n Hr Hf Hdi Hd Hmax; [lia|]. pose proof Hr as (Hi & Hn & Hl & Hk).
  cbn [getLoop]. destruct (n >? 0) eqn:En; zbool.
  2:{ assert (n = 0) as -> by lia. rewrite zsub_nil, overwrite_nil. reflexivity. }
  destruct Hk as [->|(c & Hc & _)]; [lia|]. pose proof (lookup_lt_Some _ _ _ Hc) as Hlt.
  unfold component, indice. rewrite bind_reads, (element_lookup _ _ _ Hc), bind_reads, (indice_offset s l) by (auto; lia).
  destruct (region_step s l k i n c Hs Hr) as (m & -> & -> & Hm & Ho & Hin & E1 & E2 & Hr'); [lia | exact Hc |].
  rewrite E1, E2. pose proof (offset_S _ _ _ Hc) as HS. destruct (composed_component _ _ _ _ Hs Hc) as [Hv _ _ _].
  rewrite bind_reads. rewrite (getBytes_law c Hv) by (unfold in_range; lia).
  rewrite <- (zsub_component _ _ _ _ _ Hc) by lia. rewrite (composed_bytes _ _ Hs).
  rewrite (i32_id (di + m)) by (unfold is_signed, INT_MAX in *; lia).
  assert (zlen (overwrite d di (zsub l i m)) = zlen d) as Hzd by (apply zlen_overwrite; rewrite ?zlen_zsub by lia; lia).
  replace (Z.of_nat k + 1) with (Z.of_nat (S k)) by lia.
  rewrite (IH (S k)); [|exact Hr' | lia | lia | lia | lia]. do 3 f_equal.
  rewrite overwrite_zsub_split by lia. do 2 f_equal. lia.
Qed.

Lemma offset_indices s s' l l' k : composed s l -> composed s' l' -> indices s' = indices s -> size s' = size s -> (k <= length (components s))%nat ->
  offset (components s') k = offset (components s) k.
Proof.
  intros Hs Hs' Hi Hz Hk. pose proof (indice_offset s l k Hs Hk) as E. rewrite <- Hi in E.
  rewrite (indice_offset s' l') in E; [injection E as E; exact E | exact Hs' | unfold size, zlen in Hz; lia].
Qed.

(** The stores of the components one after the other. *)
Lemma setLoop_spec src si0 : Forall is_i8 src -> zlen src <= INT_MAX -> forall fuel s l k i si n,
  composed s l -> region s l k i n -> (length (components s) - k < fuel)%nat -> 0 <= si0 <= si -> si + n <= zlen src ->
  exists s', setLoop fuel (Z.of_nat k) i (Array.Data src) si n s = (Ok tt, s') /\
    composed s' (overwrite l i (zsub src si n)) /\ byteOrder s' = byteOrder s /\ ix s' = ix s.
Proof.
  intros Hsrc Hmax. induction fuel as [|fuel IH]; intros s l k i si n Hs Hr Hf Hsi Hz; [lia|]. pose proof Hr as (Hi & Hn & Hl & Hk).
  cbn [setLoop]. destruct (n >? 0) eqn:En; zbool.
  2:{ assert (n = 0) as -> by lia. rewrite zsub_nil, overwrite_nil. exists s. auto. }
  destruct Hk as [->|(c & Hc & _)]; [lia|]. pose proof (lookup_lt_Some _ _ _ Hc) as Hlt.
  unfold component, indice. rewrite bind_reads, (element_lookup _ _ _ Hc), bind_reads, (indice_offset s l) by (auto; lia).
  destruct (region_step s l k i n c Hs Hr) as (m & -> & -> & Hm & Ho & Hin & E1 & E2 & Hr'); [lia | exact Hc |].
  rewrite E1, E2. pose proof (offset_S _ _ _ Hc) as HS. destruct (composed_component _ _ _ _ Hs Hc) as [Hv _ _ _].
  assert (zlen (zsub src si m) = m) as Hzm by (apply zlen_zsub; lia).
  destruct (Buffer.setBytes_law c (i - offset (components s) k) src si m Hv Hsrc Hmax) as (c' & Ec & Hu);
    [unfold in_range; lia | unfold in_range; lia |].
  set (s1 := with_components (<[k := c']> (components s)) s).
  assert (composed s1 (overwrite l i (zsub src si m))) as Hs1 by (apply (composed_insert s l k c c' i _ Hs Hc); [lia | lia | exact Hu]).
  assert (on_component (Z.of_nat k) (Buffer.setBytes (i - offset (components s) k) (Array.Data src) si m) s = (Ok tt, s1)) as E.
  { unfold on_component. rewrite (element_lookup _ _ _ Hc), Ec, Nat2Z.id. reflexivity. }
  rewrite (bind_ok _ _ _ _ _ E). rewrite (i32_id (si + m)) by (unfold is_signed, INT_MAX in *; lia).
  replace (Z.of_nat k + 1) with (Z.of_nat (S k)) by lia.
  assert (size s1 = size s) as Hsz by (unfold size, zlen, s1; cbn; rewrite length_insert; reflexivity).
  assert (zlen (overwrite l i (zsub src si m)) = zlen l) as Hzl by (apply zlen_overwrite; lia).
  destruct (IH s1 _ (S k) (i + m) (si + m) (n - m) Hs1) as (s2 & E3 & A & Ho2 & Hx2); [| | lia | lia |].
  - destruct Hr' as (R1 & R2 & R3 & R4). split; [exact R1|]. split; [exact R2|]. split; [lia|]. destruct R4 as [->|(c2 & Hc2 & R5)]; [left; reflexivity|].
    right. exists c2. split; [unfold s1; cbn; rewrite list_lookup_insert_ne by lia; exact Hc2|]. pose proof (lookup_lt_Some _ _ _ Hc2).
    rewrite !(offset_indices s s1 l _ _ Hs Hs1) by (auto; lia). exact R5.
  - unfold s1. cbn. rewrite length_insert. lia.
  - exists s2. split; [exact E3|]. split; [|exact (conj Ho2 Hx2)]. rewrite overwrite_zsub_split in A by lia.
    replace (m + (n - m)) with n in A by lia. exact A.
Qed.

(** The transfers of one array. *)
Definition get_region (i : Z) (d : list Z) (di n : Z) (l : list Z) : result (list Z) :=
  if (0 <=? i) && (i <? zlen l) then
    if (i + n <=? zlen l) && (di + n <=? zlen d) then Ok (overwrite d di (zsub l i n)) else Err RangeException
  else Err RangeException.
Definition put_region (i : Z) (src : list Z) (si n : Z) : M (list Z) unit := fun l =>
  if (0 <=? i) && (i <? zlen l) then
    if (i + n <=? zlen l) && (si + n <=? zlen src) then (Ok tt, overwrite l i (zsub src si n)) else (Err RangeException, l)
  else (Err RangeException, l).

Lemma region_start s l k c i n : components s !! k = Some c -> offset (components s) k <= i < offset (components s) (S k) ->
  0 <= i -> 0 <= n -> i + n <= zlen l -> region s l k i n.
Proof. intros Hc Hr Hi Hn Hl. split; [exact Hi|]. split; [exact Hn|]. split; [exact Hl|]. right. exists c. split; [exact Hc | lia]. Qed.

Lemma transfer_test c n i a b : c <= INT_MAX -> 0 <= c -> a <= INT_MAX -> 0 <= a -> 0 <= n <= INT_MAX ->
  ((i >? i32 (c - n)) || (b >? i32 (a - n)))%bool = negb ((i + n <=? c) && (b + n <=? a)).
Proof.
  intros. rewrite !i32_id by (unfold is_signed, INT_MAX in *; lia). rewrite negb_andb, !Z.gtb_ltb.
  f_equal; apply Bool.eq_true_iff_eq; rewrite negb_true_iff, Z.ltb_lt, Z.leb_gt; lia.
Qed.

Lemma getBytes_answers s l i d di n : composed s l -> zlen d <= INT_MAX -> 0 <= di -> 0 <= n <= INT_MAX ->
  answers (getBytes i (Array.Data d) di n) s (let? bs := get_region i d di n l in Ok (Array.Data bs)).
Proof.
  intros Hs Hd Hdi Hn. unfold get_region. pose proof (composed_max _ _ Hs) as Hmax. pose proof (zlen_nonneg l).
  pose proof (zlen_nonneg d). destruct (_ && _) eqn:Ei; zbool.
  2:{ exists s. split; [|exact (moved_refl _ _ Hs)]. apply bind_err, (getComponentId_out s l i Hs). lia. }
  destruct (getComponentId_in s l i Hs) as (k & c & s' & Hc & Hr & E & Hm); [lia|]. exists s'. split; [|exact Hm].
  pose proof (moved_composed _ _ _ Hs Hm) as Hs'. destruct (moved_kept _ _ Hm) as (_ & _ & Ec). rewrite <- Ec in Hc, Hr.
  unfold getBytes. rewrite (bind_ok _ _ _ _ _ E), bind_gets, bind_throw_if, (capacity_eq s' l Hs').
  change (Array.length (Array.Data d)) with (zlen d). rewrite transfer_test by (unfold INT_MAX in *; lia).
  destruct (_ && _) eqn:Et; [|reflexivity]. zbool. cbn [negb rbind]. unfold turns. rewrite bind_gets.
  apply (getLoop_spec s' l Hs'); try lia; [apply (region_start s' l k c); try assumption; lia | unfold size, zlen; lia].
Qed.

Lemma setBytes_spec s l i src si n : composed s l -> Forall is_i8 src -> zlen src <= INT_MAX -> 0 <= si -> 0 <= n <= INT_MAX ->
  exists s', setBytes i (Array.Data src) si n s = (fst (put_region i src si n l), s') /\
    composed s' (snd (put_region i src si n l)) /\ byteOrder s' = byteOrder s /\ ix s' = ix s.
Proof.
  intros Hs Hsrc Hd Hsi Hn. unfold put_region. pose proof (composed_max _ _ Hs) as Hmax. pose proof (zlen_nonneg l).
  pose proof (zlen_nonneg src). destruct (_ && _) eqn:Ei; zbool.
  2:{ exists s. split; [apply bind_err, (getComponentId_out s l i Hs); lia | auto]. }
  destruct (getComponentId_in s l i Hs) as (k & c & s' & Hc & Hr & E & Hm); [lia|].
  pose proof (moved_composed _ _ _ Hs Hm) as Hs'. destruct (moved_kept _ _ Hm) as (Ho & Hx & Ec). rewrite <- Ec in Hc, Hr.
  unfold setBytes. rewrite (bind_ok _ _ _ _ _ E), bind_gets, bind_throw_if, (capacity_eq s' l Hs').
  change (Array.length (Array.Data src)) with (zlen src). rewrite transfer_test by (unfold INT_MAX in *; lia).
  destruct (_ && _) eqn:Et; [|exists s'; auto]. zbool. cbn [negb]. unfold turns. rewrite bind_gets.
  destruct (setLoop_spec src 0 Hsrc Hd (S (Z.to_nat (size s'))) s' l k i si n Hs') as (s2 & E2 & A & Ho2 & Hx2); try lia;
    [apply (region_start s' l k c); try assumption; lia | unfold size, zlen; lia |].
  exists s2. split; [exact E2 | split; [exact A | split; congruence]].
Qed.

(** ** The buffer is one array *)

(** The accesses by index of the interface. *)
Inductive access :=
  | GetByte (i : Z)
  | GetShort (i : Z)
  | GetUnsignedMedium (i : Z)
  | GetInt (i : Z)
  | GetLong (i : Z)
  | GetBytes (i : Z) (dst : list Z) (dstIndex n : Z)
  | SetByte (i value : Z)
  | SetShort (i value : Z)
  | SetMedium (i value : Z)
  | SetInt (i value : Z)
  | SetLong (i value : Z)
  | SetBytes (i : Z) (src : list Z) (srcIndex n : Z).

(** What a caller sees: a value, the bytes of its array, or that it is done; or the
    exception, after which it may go on with the buffer. *)
Inductive reply :=
  | Value (v : Z)
  | Filled (d : Array.t)
  | Done.

Definition map_reply {A} (f : A -> reply) (r : result A) : result reply := let? a := r in Ok (f a).

Definition saw {S A} (f : A -> reply) (m : M S A) (s : S) : result reply * S := (map_reply f (fst (m s)), snd (m s)).

Definition perform (a : access) : composite -> result reply * composite :=
  match a with
  | GetByte i => saw Value (getByte i)
  | GetShort i => saw Value (getShort i)
  | GetUnsignedMedium i => saw Value (getUnsignedMedium i)
  | GetInt i => saw Value (getInt i)
  | GetLong i => saw Value (getLong i)
  | GetBytes i dst di n => saw Filled (getBytes i (Array.Data dst) di n)
  | SetByte i v => saw (fun _ => Done) (setByte i v)
  | SetShort i v => saw (fun _ => Done) (setShort i v)
  | SetMedium i v => saw (fun _ => Done) (setMedium i v)
  | SetInt i v => saw (fun _ => Done) (setInt i v)
  | SetLong i v => saw (fun _ => Done) (setLong i v)
  | SetBytes i src si n => saw (fun _ => Done) (setBytes i (Array.Data src) si n)
  end.

(** The same on one list of bytes. *)
Definition perform_flat (o : ByteOrder) (a : access) : list Z -> result reply * list Z :=
  match a with
  | GetByte i => saw Value (reads (fun l => signed_at 8 o l i 1))
  | GetShort i => saw Value (reads (fun l => signed_at 16 o l i 2))
  | GetUnsignedMedium i => saw Value (reads (fun l => unsigned_at o l i 3))
  | GetInt i => saw Value (reads (fun l => signed_at 32 o l i 4))
  | GetLong i => saw Value (reads (fun l => signed_at 64 o l i 8))
  | GetBytes i dst di n => saw (fun d => Filled (Array.Data d)) (reads (get_region i dst di n))
  | SetByte i v => saw (fun _ => Done) (put_at i [i8 v])
  | SetShort i v => saw (fun _ => Done) (put_at i (encode o 2 v))
  | SetMedium i v => saw (fun _ => Done) (put_at i (encode o 3 v))
  | SetInt i v => saw (fun _ => Done) (put_at i (encode o 4 v))
  | SetLong i v => saw (fun _ => Done) (put_at i (encode o 8 v))
  | SetBytes i src si n => saw (fun _ => Done) (put_region i src si n)
  end.

Fixpoint perform_all {S} (step : access -> S -> result reply * S) (accesses : list access) (s : S) : list (result reply) * S :=
  match accesses with
  | [] => ([], s)
  | a :: accesses =>
      let '(r, s) := step a s in
      let '(rs, s) := perform_all step accesses s in (r :: rs, s)
  end.

(** The arrays of an access, and the range in them. *)
Definition sane (a : access) : Prop :=
  match a with
  | GetBytes _ dst di n => zlen dst <= INT_MAX /\ 0 <= di /\ 0 <= n <= INT_MAX
  | SetBytes _ src si n => Forall is_i8 src /\ zlen src <= INT_MAX /\ 0 <= si /\ 0 <= n <= INT_MAX
  | _ => True
  end.

Definition flat_step (a : access) s l : Prop :=
  exists s', perform a s = (fst (perform_flat (byteOrder s) a l), s') /\
    composed s' (snd (perform_flat (byteOrder s) a l)) /\ byteOrder s' = byteOrder s /\ ix s' = ix s.

Lemma answers_saw {A C} (m : M composite A) (f : A -> reply) (g : C -> reply) (r : list Z -> result C) (h : C -> A) s l :
  composed s l -> answers m s (let? c := r l in Ok (h c)) -> (forall c, g c = f (h c)) ->
  exists s', saw f m s = (fst (saw g (reads r) l), s') /\ composed s' (snd (saw g (reads r) l)) /\ byteOrder s' = byteOrder s /\ ix s' = ix s.
Proof.
  intros Hs (s' & E & Hm) Hg. exists s'. destruct (moved_kept _ _ Hm) as (Ho & Hx & _). unfold saw, reads. rewrite E. cbn [fst snd].
  split; [f_equal; destruct (r l) as [c|e]; [cbn; rewrite Hg|]; reflexivity|]. split; [exact (moved_composed _ _ _ Hs Hm) | split; assumption].
Qed.

Lemma value_saw m (r : list Z -> result Z) s l : composed s l -> answers m s (r l) ->
  exists s', saw Value m s = (fst (saw Value (reads r) l), s') /\ composed s' (snd (saw Value (reads r) l)) /\ byteOrder s' = byteOrder s /\ ix s' = ix s.
Proof.
  intros Hs Ha. apply (answers_saw m Value Value r (fun v => v) s l Hs); [|reflexivity].
  destruct (r l); exact Ha.
Qed.

Lemma writes_saw (m : M composite unit) s l (p : M (list Z) unit) (f : unit -> reply) :
  (exists s', m s = (fst (p l), s') /\ composed s' (snd (p l)) /\ byteOrder s' = byteOrder s /\ ix s' = ix s) ->
  exists s', saw f m s = (fst (saw f p l), s') /\ composed s' (snd (saw f p l)) /\ byteOrder s' = byteOrder s /\ ix s' = ix s.
Proof. intros (s' & E & A). exists s'. unfold saw. rewrite E. split; [reflexivity | exact A]. Qed.

Lemma perform_step a s l : composed s l -> sane a -> flat_step a s l.
Proof.
  intros Hs Ha. destruct a; unfold flat_step; cbn [perform perform_flat].
  - apply value_saw, getByte_answers; exact Hs.
  - apply value_saw, getShort_answers; exact Hs.
  - apply value_saw, getUnsignedMedium_answers; exact Hs.
  - apply value_saw, getInt_answers; exact Hs.
  - apply value_saw, getLong_answers; exact Hs.
  - destruct Ha as (Hd & Hdi & Hn). apply (answers_saw _ _ _ _ Array.Data); [exact Hs | apply getBytes_answers; assumption | reflexivity].
  - apply writes_saw, setByte_writes; exact Hs.
  - apply writes_saw, setShort_writes; exact Hs.
  - apply writes_saw, setMedium_writes; exact Hs.
  - apply writes_saw, setInt_writes; exact Hs.
  - apply writes_saw, setLong_writes; exact Hs.
  - destruct Ha as (Hsrc & Hd & Hsi & Hn). apply writes_saw, setBytes_spec; assumption.
Qed.

Lemma perform_steps accesses : forall s l, composed s l -> Forall sane accesses ->
  exists s', perform_all perform accesses s = (fst (perform_all (perform_flat (byteOrder s)) accesses l), s') /\
    composed s' (snd (perform_all (perform_flat (byteOrder s)) accesses l)).
Proof.
  induction accesses as [|a accesses IH]; intros s l Hs Ha; [exists s; auto|].
  apply List.Forall_cons_iff in Ha as [H1 Ha]. destruct (perform_step a s l Hs H1) as (s1 & E1 & A1 & Ho & _).
  cbn [perform_all]. rewrite E1. destruct (perform_flat (byteOrder s) a l) as [r l1]. cbn [fst snd] in *.
  destruct (IH s1 l1 A1 Ha) as (s2 & E2 & A2). rewrite E2. rewrite Ho in *. exists s2.
  destruct (perform_all _ accesses l1) as [rs l2]. cbn [fst snd] in *. auto.
Qed.

(** *** A new buffer *)

Lemma pushComponents_ok buffers : forall s, Forall (whole (byteOrder s)) buffers ->
  pushComponents buffers s = (Ok tt, with_components (components s ++ buffers) s).
Proof.
  induction buffers as [|c buffers IH]; intros s Hw; [rewrite app_nil_r; destruct s; reflexivity|].
  apply List.Forall_cons_iff in Hw as [[Hv Ho Hr Hwr] Hw]. cbn [pushComponents]. rewrite bind_gets, !bind_throw_if.
  rewrite Ho, (proj2 (ByteOrder_eqb_eq _ _) eq_refl), Hr, Hwr, capacity_content, !Z.eqb_refl by exact Hv. cbn [negb].
  unfold modify. erewrite bind_ok by reflexivity. rewrite (IH (with_components _ s)) by exact Hw. cbn.
  rewrite <- app_assoc. reflexivity.
Qed.

Lemma setComponents_ok buffers s : Forall (whole (byteOrder s)) buffers -> buffers <> [] -> zlen (bytes_of buffers) <= INT_MAX - 8 ->
  exists s', setComponents buffers s = (Ok tt, s') /\ composed s' (bytes_of buffers) /\ byteOrder s' = byteOrder s /\
    components s' = buffers /\ ix s' = with_writerIdx (zlen (bytes_of buffers)) (with_readerIdx 0 (ix s)).
Proof.
  intros Hw Hne Hmax. set (s1 := with_indices (table 0 buffers) (with_components buffers (with_last 0 s))).
  assert (composed s1 (bytes_of buffers)) as Hs1.
  { split; cbn; try assumption; try reflexivity. unfold size. cbn. destruct buffers; [contradiction | unfold zlen; cbn; lia]. }
  exists (with_ix (with_writerIdx (zlen (bytes_of buffers)) (with_readerIdx 0 (ix s))) s1).
  split; [|split; [destruct Hs1; split; assumption | repeat split; reflexivity]].
  unfold setComponents. rewrite bind_throw_if.
  replace (match buffers with [] => true | _ => false end) with false by (destruct buffers; [contradiction | reflexivity]).
  unfold modify. erewrite bind_ok by reflexivity. erewrite bind_ok by reflexivity.
  erewrite bind_ok by (apply pushComponents_ok; exact Hw). erewrite bind_ok by reflexivity.
  rewrite bind_gets. change (AbstractChannelBuffer.setIndex 0 (capacity s1) s1 = (Ok tt, with_ix (with_writerIdx (zlen (bytes_of buffers)) (with_readerIdx 0 (ix s))) s1)).
  unfold AbstractChannelBuffer.setIndex. rewrite bind_gets, bind_throw_if. change (Buffer.capacity s1) with (capacity s1).
  rewrite (capacity_eq _ _ Hs1). pose proof (zlen_nonneg (bytes_of buffers)). rewrite !Z.gtb_ltb, !(proj2 (Z.ltb_ge _ _)) by lia. reflexivity.
Qed.

Lemma new_composed o buffers : Forall (whole o) buffers -> buffers <> [] -> zlen (bytes_of buffers) <= INT_MAX - 8 ->
  exists s, new o buffers = Ok s /\ composed s (bytes_of buffers) /\ byteOrder s = o /\ components s = buffers /\
    AbstractChannelBuffer.readerIndex s = 0 /\ AbstractChannelBuffer.writerIndex s = zlen (bytes_of buffers).
Proof.
  intros Hw Hne Hmax. destruct (setComponents_ok buffers (MkComposite o [] [] 0 (MkIndexes 0 0 0 0)) Hw Hne Hmax) as (s & E & A & Ho & Hc & Hx).
  exists s. unfold new. rewrite E. do 4 (split; [first [reflexivity | assumption]|]).
  split; [exact (f_equal readerIdx Hx) | exact (f_equal writerIdx Hx)].
Qed.

(** C11: a composite buffer is one array of the bytes of its components.  Every
    sequence of single- and multi-byte reads and writes and of transfers of byte
    arrays answers as it does on the list of all the bytes: the same values, the
    same exceptions at the same accesses, the same bytes left by a write that does
    not fit, whichever component was accessed last and wherever the values cross
    from one component to the next; and the bytes of its components are that list
    at the end. *)
Theorem composite_is_flat o buffers accesses :
  Forall (whole o) buffers -> buffers <> [] -> zlen (bytes_of buffers) <= INT_MAX - 8 -> Forall sane accesses ->
  exists s s', new o buffers = Ok s /\
    perform_all perform accesses s = (fst (perform_all (perform_flat o) accesses (bytes_of buffers)), s') /\
    bytes_of (components s') = snd (perform_all (perform_flat o) accesses (bytes_of buffers)).
Proof.
  intros Hw Hne Hmax Ha. destruct (new_composed o buffers Hw Hne Hmax) as (s & E & A & Ho & _).
  destruct (perform_steps accesses s _ A Ha) as (s' & E2 & A2). rewrite Ho in *. exists s, s'.
  split; [exact E|]. split; [exact E2 | exact (composed_bytes _ _ A2)].
Qed.

End Composite.

(** ** Instances of the hypotheses *)

Section Witnesses.

Definition heap_part (l : list Z) : HeapChannelBuffer.t :=
  HeapChannelBuffer.MkHeap BYTE_ORDER_LITTLE (MkIndexes 0 (zlen l) 0 0) true (Array.Data l).

Lemma heap_part_whole l : Forall is_i8 l -> zlen l <= INT_MAX -> whole BYTE_ORDER_LITTLE (heap_part l).
Proof. intros Hl Hm. split; try reflexivity. exists l. auto. Defined.

Definition parts3 : list HeapChannelBuffer.t := [heap_part [1; 2; 3]; heap_part [4]; heap_part [5; 6; 7; 8; 9]].

Lemma parts3_whole : Forall (whole BYTE_ORDER_LITTLE) parts3.
Proof. repeat constructor; apply heap_part_whole; try (repeat constructor; solve_range); discriminate. Defined.

(** A value across three components, a store that does not fit and a transfer. *)
Lemma composite_is_flat_witness :
  exists s s', new BYTE_ORDER_LITTLE parts3 = Ok s /\
    perform_all perform [GetInt 2; SetLong 3 (-2); GetBytes 2 [0; 0; 0] 1 2; GetByte 9] s =
      ([Ok (Value 100992003); Err RangeException; Ok (Filled (Array.Data [0; 3; -2])); Err RangeException], s') /\
    bytes_of (components s') = [1; 2; 3; -2; -1; -1; -1; -1; -1].
Proof.
  destruct (composite_is_flat BYTE_ORDER_LITTLE parts3 [GetInt 2; SetLong 3 (-2); GetBytes 2 [0; 0; 0] 1 2; GetByte 9])
    as (s & s' & E & E1 & E2); [exact parts3_whole | discriminate | discriminate | |].
  - repeat constructor; cbn; try discriminate.
  - exists s, s'. split; [exact E|]. split; [rewrite E1; vm_compute; reflexivity | rewrite E2; vm_compute; reflexivity].
Defined.

End Witnesses.
