(* ===== verification/CompositeParts.v ===== *)
(** * Taking composite buffers apart

    What [decompose], [discardReadBytes] and the wrapping of buffers do to the
    bytes: the components of a region are whole buffers with the bytes of the
    region, the discarded bytes are the ones that were read, and wrapped buffers
    read as their readable bytes one after the other.  The class of the components
    promises what its duplicates and slices are. *)

From S2P Require Import Prelude MachineInt Buffer AbstractBuffer BufferTheory HeapBuffer DerivedBuffers CompositeBuffer CompositeProperties.
Import CompositeChannelBuffer.

(** What the components promise: a duplicate has the bytes and the indexes of the
    buffer; a slice that is not empty has the bytes of the region, all readable. *)
Class ComponentSpec (B : Type) `{RS : ReadSpec B} {DB : DuplicateBuffer B} {SB : SliceBuffer B B} := {
  duplicate_law b : wf b ->
    exists d, Buffer.duplicate b = Ok d /\ valid d /\ order d = order b /\ content d = content b /\
      AbstractChannelBuffer.readerIndex d = AbstractChannelBuffer.readerIndex b /\
      AbstractChannelBuffer.writerIndex d = AbstractChannelBuffer.writerIndex b;
  part_law b i n : valid b -> in_range (zlen (content b)) i n -> 0 < n ->
    exists c, Buffer.slice b i n = Ok c /\ whole (order b) c /\ content c = zsub (content b) i n;
}.

Section Parts.
Context {B : Type} {RB : RawBuffer B} {RS : ReadSpec B} {WS : WriteSpec B}.
Context {DB : DuplicateBuffer B} {SB : SliceBuffer B B} {CS : ComponentSpec B}.
Abbreviation composite := (CompositeChannelBuffer.t B).
Implicit Types (cs : list B) (s : composite).

Lemma whole_wf o c : whole o c -> wf c.
Proof.
  intros [Hv Ho Hr Hw]. split; [exact Hv|]. unfold wf_indexes. rewrite Hr, Hw. pose proof (zlen_nonneg (content c)). lia.
Qed.

Lemma run_on_ok (m : M B unit) b b' : m b = (Ok tt, b') -> run_on m b = Ok b'.
Proof. unfold run_on. intros ->. reflexivity. Qed.

Lemma setReaderIndex_ok (b : B) r : 0 <= r <= AbstractChannelBuffer.writerIndex b ->
  AbstractChannelBuffer.setReaderIndex r b = (Ok tt, put_indexes (with_readerIdx r (indexes b)) b).
Proof.
  intros Hr. unfold AbstractChannelBuffer.setReaderIndex. rewrite bind_gets, bind_throw_if, Z.gtb_ltb, !(proj2 (Z.ltb_ge _ _)) by lia. reflexivity.
Qed.

Lemma setWriterIndex_ok (b : B) w : valid b -> AbstractChannelBuffer.readerIndex b <= w <= zlen (content b) ->
  AbstractChannelBuffer.setWriterIndex w b = (Ok tt, put_indexes (with_writerIdx w (indexes b)) b).
Proof.
  intros Hv Hw. unfold AbstractChannelBuffer.setWriterIndex. rewrite bind_gets, bind_throw_if. unfold id.
  rewrite capacity_content, Z.gtb_ltb, !(proj2 (Z.ltb_ge _ _)) by (exact Hv || lia). reflexivity.
Qed.

(** The slice of the readable bytes. *)
Lemma sliceAll_ok (b : B) : wf b -> 0 < zlen (queue b) ->
  exists c, sliceAll b = Ok c /\ whole (order b) c /\ content c = queue b.
Proof.
  intros Hw Hq. unfold sliceAll. rewrite readableBytes_queue by exact Hw. pose proof (zlen_queue b Hw) as Hz.
  destruct Hw as [Hv [Hr Hwr]]. destruct (part_law b (AbstractChannelBuffer.readerIndex b) (zlen (queue b)) Hv) as (c & E & A & Ec);
    [unfold in_range; lia | exact Hq |]. exists c. split; [exact E|]. split; [exact A|]. rewrite Ec, Hz. reflexivity.
Qed.

(** No component is empty. *)
Definition filled s : Prop := Forall (fun c => 0 < zlen (content c)) (components s).

Lemma filled_component s k c : filled s -> components s !! k = Some c -> 0 < zlen (content c).
Proof. intros Hf Hk. unfold filled in Hf. rewrite Forall_lookup in Hf. exact (Hf k c Hk). Qed.

(** *** decompose *)

(** The buffers of the region and their slices. *)
Lemma decomposeLoop_spec s l : composed s l -> filled s -> forall fuel k c b i n,
  components s !! k = Some c -> (length (components s) - k < fuel)%nat ->
  wf b -> order b = byteOrder s -> content b = content c -> AbstractChannelBuffer.readerIndex b = i - offset (components s) k ->
  AbstractChannelBuffer.writerIndex b = zlen (content c) -> i < offset (components s) (S k) -> 0 < n -> i + n <= zlen l ->
  exists bs ds, decomposeLoop fuel s (Z.of_nat k) b n = Ok bs /\ map_result sliceAll bs = Ok ds /\
    Forall (whole (byteOrder s)) ds /\ bytes_of ds = zsub l i n /\ ds <> [].
Proof.
  intros Hs Hf. induction fuel as [|fuel IH]; intros k c b i n Hk Hfuel Hb Ho Hc Hr Hw Hi Hn Hl; [lia|].
  pose proof (offset_S _ _ _ Hk) as HS. pose proof (zlen_queue b Hb) as Hz. cbn [decomposeLoop]. rewrite readableBytes_queue by exact Hb.
  pose proof (content_max b (proj1 Hb)) as Hmax. pose proof Hb as [Hv [Hx1 Hx2]].
  pose proof (offset_le (components s) 0 k (Nat.le_0_l k)) as H0. rewrite offset_0 in H0.
  assert (queue b = zsub (bytes_of (components s)) i (zlen (queue b))) as Hq.
  { unfold queue at 1. rewrite Hz, Hc, Hr, (zsub_component _ _ _ _ _ Hk) by lia. reflexivity. }
  rewrite (composed_bytes _ _ Hs) in Hq. destruct (n <=? zlen (queue b)) eqn:E; zbool.
  - rewrite i32_id by solve_range.
    rewrite (run_on_ok _ _ _ (setWriterIndex_ok b (AbstractChannelBuffer.readerIndex b + n) Hv ltac:(rewrite Hc; lia))). cbn [rbind].
    set (b' := put_indexes _ b). assert (wf b') as Hb' 
      by (apply wf_put; cbn; [exact Hv | |]; fold (AbstractChannelBuffer.readerIndex b); rewrite ?Hc; lia).
    assert (queue b' = zsub l i n) as Hq'.
    { unfold queue, b'. rewrite readerIndex_put, writerIndex_put, content_put. cbn.
      fold (AbstractChannelBuffer.readerIndex b). rewrite Hc, Hr, Z.add_simpl_l.
      rewrite <- (composed_bytes _ _ Hs), (zsub_component _ _ _ _ _ Hk) by lia. reflexivity. }
    destruct (sliceAll_ok b' Hb') as (d & Ed & Hd & Hcd); [rewrite Hq', zlen_zsub by lia; exact Hn|].
    exists [b'], [d]. split; [reflexivity|]. cbn [map_result]. rewrite Ed. split; [reflexivity|].
    unfold b' in Hd. rewrite order_put, Ho in Hd. split; [constructor; [exact Hd | constructor]|]. split; [|discriminate].
    rewrite bytes_of_cons, Hcd, Hq'. apply app_nil_r.
  - assert (offset (components s) (S k) < zlen l) as Hlt by lia.
    destruct (lookup_lt_is_Some_2 (components s) (S k)) as [c2 Hc2].
    { destruct (Nat.lt_ge_cases (S k) (length (components s))) as [L|G]; [exact L|]. exfalso.
      pose proof (lookup_lt_Some _ _ _ Hk). pose proof (offset_all (components s)) as Ha.
      replace (length (components s)) with (S k) in Ha by lia. rewrite (composed_bytes _ _ Hs) in Ha. lia. }
    replace (Z.of_nat k + 1) with (Z.of_nat (S k)) by lia. rewrite (element_lookup _ _ _ Hc2). cbn [rbind].
    pose proof (composed_component _ _ _ _ Hs Hc2) as Hw2. pose proof Hw2 as [Hv2 Ho2 Hr2 Hwr2].
    destruct (duplicate_law c2 (whole_wf _ _ Hw2)) as (d2 & -> & Hvd & Hod & Hcd & Hrd & Hwd). cbn [rbind].
    pose proof (composed_max _ _ Hs). rewrite i32_id by solve_range. pose proof (filled_component _ _ _ Hf Hc2) as H2.
    pose proof (offset_S _ _ _ Hc2) as HS2.
    destruct (IH (S k) c2 d2 (offset (components s) (S k)) (n - zlen (queue b))) as (bs & ds & E1 & E2 & Hds & Hby & _); try assumption; try lia; try congruence.
    { pose proof (lookup_lt_Some _ _ _ Hc2). lia. }
    { split; [exact Hvd|]. unfold wf_indexes. rewrite Hrd, Hwd, Hr2, Hwr2, Hcd. lia. }
    destruct (sliceAll_ok b Hb) as (d & Ed & Hd & Hcd'); [lia|]. rewrite E1. cbn [rbind].
    exists (b :: bs), (d :: ds). split; [reflexivity|]. cbn [map_result]. rewrite Ed, E2. split; [reflexivity|].
    split; [constructor; [rewrite <- Ho; exact Hd | exact Hds]|]. split; [|discriminate].
    rewrite bytes_of_cons, Hcd', Hby. replace (offset (components s) (S k)) with (i + zlen (queue b)) by lia. rewrite Hq at 1.
    rewrite <- zsub_split by lia. f_equal. lia.
Qed.

Lemma decompose_spec s l i n : composed s l -> filled s -> 0 <= i -> 0 < n -> i + n <= zlen l ->
  exists ds s', decompose i n s = (Ok ds, s') /\ moved s s' /\ Forall (whole (byteOrder s)) ds /\ bytes_of ds = zsub l i n /\ ds <> [].
Proof.
  intros Hs Hf Hi Hn Hl. pose proof (composed_max _ _ Hs) as Hmax. unfold decompose. rewrite (proj2 (Z.eqb_neq _ _)) by lia.
  rewrite bind_gets, bind_throw_if, (capacity_eq _ _ Hs), i32_id, Z.gtb_ltb, (proj2 (Z.ltb_ge _ _)) by solve_range.
  destruct (getComponentId_in s l i Hs) as (k & c & s' & Hk & Hr & E & Hm); [lia|]. rewrite (bind_ok _ _ _ _ _ E).
  pose proof (moved_composed _ _ _ Hs Hm) as Hs'. destruct (moved_kept _ _ Hm) as (Ho & _ & Ec).
  assert (filled s') as Hf' by (unfold filled; rewrite Ec; exact Hf). rewrite <- Ec in Hk, Hr.
  pose proof (lookup_lt_Some _ _ _ Hk) as Hlt. unfold indice, component.
  rewrite bind_reads, (indice_offset s' l), bind_reads, (element_lookup _ _ _ Hk) by (auto; lia).
  pose proof (composed_component _ _ _ _ Hs' Hk) as Hwc. pose proof (offset_S _ _ _ Hk) as HS.
  pose proof (offset_le (components s') 0 k (Nat.le_0_l k)) as H0. rewrite offset_0 in H0.
  destruct (duplicate_law c (whole_wf _ _ Hwc)) as (d & Ed & Hvd & Hod & Hcd & Hrd & Hwd). destruct Hwc as [Hv Hoc Hrc Hwrc].
  rewrite bind_reads, Ed. cbn [rbind]. rewrite i32_id by solve_range.
  rewrite (run_on_ok _ _ _ (setReaderIndex_ok d (i - offset (components s') k) ltac:(rewrite Hwd, Hwrc; lia))).
  unfold turns. rewrite bind_gets, bind_reads. set (b := put_indexes _ d).
  destruct (decomposeLoop_spec s' l Hs' Hf' (S (Z.to_nat (size s'))) k c b i n) as (bs & ds & E1 & E2 & Hds & Hby & Hne);
    try exact Hk; try exact Hn; try exact Hl; try lia.
  - unfold size, zlen. lia.
  - unfold b. apply wf_put; cbn; [exact Hvd | |]; fold (AbstractChannelBuffer.writerIndex d); rewrite ?Hcd, Hwd, Hwrc; lia.
  - unfold b. rewrite order_put. congruence.
  - unfold b. rewrite content_put. exact Hcd.
  - unfold b. apply readerIndex_put.
  - unfold b. rewrite writerIndex_put. cbn. fold (AbstractChannelBuffer.writerIndex d). congruence.
  - rewrite E1. exists ds, s'. unfold reads. rewrite E2. rewrite <- Ho. auto.
Qed.

(** *** discardReadBytes *)

Abbreviation marked s := (markedReaderIndex (ix s)).
Abbreviation markedWriter s := (markedWriterIndex (ix s)).

Lemma composed_with_ix s l x : composed s l -> composed (with_ix x s) l.
Proof. intros []. split; assumption. Qed.

Lemma setIndex_spec s l r w : composed s l -> 0 <= r -> w <= zlen l ->
  AbstractChannelBuffer.setIndex r w s =
  if r <=? w then (Ok tt, with_ix (with_writerIdx w (with_readerIdx r (ix s))) s) else (Err RangeException, s).
Proof.
  intros Hs Hr Hw. unfold AbstractChannelBuffer.setIndex. rewrite bind_gets, bind_throw_if.
  change (Buffer.capacity s) with (capacity s). rewrite (capacity_eq _ _ Hs), !Z.gtb_ltb, (proj2 (Z.ltb_ge r 0)), (proj2 (Z.ltb_ge (zlen l) w)) by lia.
  rewrite orb_false_r, orb_false_l, Z.ltb_antisym. destruct (r <=? w); reflexivity.
Qed.

(** The value of the reader mark: the mark, when it could be the reader index. *)
Definition reader_mark s : Z :=
  if (0 <=? marked s) && (marked s <=? AbstractChannelBuffer.writerIndex s) then marked s else AbstractChannelBuffer.readerIndex s.

Lemma reset_reader s :
  catchRange (AbstractChannelBuffer.resetReaderIndex ;! gets AbstractChannelBuffer.readerIndex) (AbstractChannelBuffer.readerIndex s) s
  = (Ok (reader_mark s), with_ix (with_readerIdx (reader_mark s) (ix s)) s).
Proof.
  unfold catchRange, AbstractChannelBuffer.resetReaderIndex, AbstractChannelBuffer.setReaderIndex, reader_mark.
  rewrite bind_assoc, bind_gets, bind_assoc, bind_gets, bind_assoc, bind_throw_if.
  change (markedReaderIndex (indexes s)) with (marked s). rewrite Z.gtb_ltb, !Z.ltb_antisym, <- negb_andb.
  destruct (_ && _); [reflexivity|]. destruct s as [? ? ? ? []]. reflexivity.
Qed.

Lemma reset_writer s (otherwise : Z) :
  catchRange (AbstractChannelBuffer.resetWriterIndex ;! gets AbstractChannelBuffer.writerIndex) otherwise s
  = (Ok (markedWriter s), with_ix (with_writerIdx (markedWriter s) (ix s)) s).
Proof. reflexivity. Qed.

Lemma shifted_eq i r : is_i32 i -> 0 <= r <= INT_MAX -> shifted i r = Z.max 0 (i - r).
Proof.
  intros Hi Hr. unfold shifted. rewrite Z.gtb_ltb. destruct (r <? i) eqn:E; zbool; [rewrite i32_id by solve_range|]; lia.
Qed.

(** A buffer of the factory, of [n] bytes. *)
Definition makes_padding (buffer : ByteOrder -> Z -> result B) : Prop := forall o n, 0 < n <= INT_MAX ->
  exists p, buffer o n = Ok p /\ valid p /\ order p = o /\ zlen (content p) = n /\ AbstractChannelBuffer.readerIndex p = 0.

Lemma padding_ok buffer o n : makes_padding buffer -> 0 < n <= INT_MAX ->
  exists p, (let? p := buffer o n in run_on (AbstractChannelBuffer.setWriterIndex n) p) = Ok p /\ whole o p /\ zlen (content p) = n.
Proof.
  intros Hb Hn. destruct (Hb o n Hn) as (p & -> & Hv & Ho & Hz & Hr). cbn [rbind].
  rewrite (run_on_ok _ _ _ (setWriterIndex_ok p n Hv ltac:(lia))). eexists. split; [reflexivity|].
  split; [|rewrite content_put; exact Hz]. split; rewrite ?order_put, ?content_put, ?readerIndex_put, ?writerIndex_put;
    [apply valid_put; exact Hv | exact Ho | exact Hr | symmetry; exact Hz].
Qed.

Record wf_marks s (l : list Z) : Prop := MkWfMarks {
  marks_indexes : 0 <= AbstractChannelBuffer.readerIndex s <= AbstractChannelBuffer.writerIndex s;
  marks_writer : AbstractChannelBuffer.writerIndex s <= zlen l;
  marks_reader : 0 <= marked s <= zlen l;
  marks_marked : 0 <= markedWriter s <= zlen l;
}.

(** The components after the read bytes are gone. *)
Lemma discarded_parts s l r : composed s l -> filled s -> 0 < r <= zlen l ->
  exists ds s', decompose r (i32 (zlen l - r)) s = (Ok ds, s') /\ moved s s' /\ Forall (whole (byteOrder s)) ds /\
    bytes_of ds = drop (Z.to_nat r) l.
Proof.
  intros Hs Hf Hr. pose proof (composed_max _ _ Hs). rewrite i32_id by solve_range. destruct (decide (r = zlen l)) as [->|Hne].
  - exists [], s. rewrite Z.sub_diag. split; [reflexivity|]. split; [exact (moved_refl _ _ Hs)|]. split; [constructor|].
    rewrite drop_ge by (unfold zlen; lia). reflexivity.
  - destruct (decompose_spec s l r (zlen l - r) Hs Hf) as (ds & s' & E & Hm & Hd & Hb & _); try lia. exists ds, s'.
    split; [exact E|]. split; [exact Hm|]. split; [exact Hd|]. rewrite Hb. unfold zsub. apply take_ge. rewrite length_drop. unfold zlen. lia.
Qed.

(** The marks and the indexes at the end. *)
Definition set_marks (a b w : Z) : M composite unit :=
  AbstractChannelBuffer.setIndex a b ;!
  AbstractChannelBuffer.markReaderIndex ;!
  AbstractChannelBuffer.markWriterIndex ;!
  AbstractChannelBuffer.setIndex 0 w.

Lemma set_marks_spec s l a b w : composed s l -> 0 <= a -> b <= zlen l -> 0 <= w <= zlen l ->
  set_marks a b w s =
  if a <=? b then (Ok tt, with_ix (MkIndexes 0 w a b) s) else (Err RangeException, s).
Proof.
  intros Hs Ha Hb Hw. unfold set_marks. destruct (a <=? b) eqn:E.
  - erewrite bind_ok by (rewrite (setIndex_spec s l) by assumption; rewrite E; reflexivity).
    erewrite bind_ok by reflexivity. erewrite bind_ok by reflexivity.
    erewrite setIndex_spec; [|repeat (apply composed_with_ix || exact Hs) | lia | lia].
    rewrite (proj2 (Z.leb_le 0 w)) by lia. reflexivity.
  - apply bind_err. rewrite (setIndex_spec s l) by assumption. rewrite E. reflexivity.
Qed.

(** Up to there: the new components, with the indexes still to be set. *)
Lemma discard_components buffer s l : makes_padding buffer -> composed s l -> filled s -> wf_marks s l ->
  let r := AbstractChannelBuffer.readerIndex s in 0 < r ->
  exists s' pad, composed s' (drop (Z.to_nat r) l ++ pad) /\ zlen pad = r /\ byteOrder s' = byteOrder s /\
    discardReadBytes buffer s =
    set_marks (Z.max 0 (reader_mark s - r)) (Z.max 0 (markedWriter s - r)) (Z.max 0 (AbstractChannelBuffer.writerIndex s - r)) s'.
Proof.
  intros Hp Hs Hf [Hx1 Hx2 Hx3 Hx4] r Hr. fold r in Hx1. pose proof (composed_max _ _ Hs) as Hmax.
  destruct (discarded_parts s l r Hs Hf) as (ds & s1 & E1 & Hm & Hd & Hb); [lia|].
  destruct (moved_kept _ _ Hm) as (Ho & Hx & _). destruct (padding_ok buffer (byteOrder s) r Hp) as (p & Ep & Hwp & Hzp); [solve_range|].
  set (s2 := with_ix (with_writerIdx (markedWriter s) (with_readerIdx (reader_mark s) (ix s))) s1).
  assert (bytes_of (ds ++ [p]) = drop (Z.to_nat r) l ++ content p) as Hbytes
    by (rewrite bytes_of_app, Hb, bytes_of_cons; do 2 f_equal; apply app_nil_r).
  destruct (setComponents_ok (ds ++ [p]) s2) as (s3 & E3 & A3 & Ho3 & _ & Hx3').
  - change (byteOrder s2) with (byteOrder s1). rewrite Ho. apply Forall_app. split; [exact Hd | constructor; [exact Hwp | constructor]].
  - destruct ds; discriminate.
  - rewrite Hbytes, zlen_app, Hzp. unfold zlen in *. rewrite length_drop. lia.
  - rewrite Hbytes in A3. exists s3, (content p). split; [exact A3|]. split; [exact Hzp|].
    split; [rewrite Ho3; exact Ho|]. unfold discardReadBytes. rewrite bind_gets. unfold id. fold r. cbv zeta.
    rewrite (proj2 (Z.eqb_neq r 0)), (capacity_eq _ _ Hs), (bind_ok _ _ _ _ _ E1), bind_reads, Ep by lia.
    assert (reader_mark s1 = reader_mark s) as Hrm.
    { unfold reader_mark, AbstractChannelBuffer.readerIndex, AbstractChannelBuffer.writerIndex. cbn. rewrite Hx. reflexivity. }
    assert (AbstractChannelBuffer.readerIndex s1 = r) as Hr1 by (exact (f_equal readerIdx Hx)).
    pose proof (reset_reader s1) as Er. rewrite Hr1, Hrm, Hx in Er. rewrite (bind_ok _ _ _ _ _ Er).
    erewrite bind_ok by apply reset_writer. cbn [ix with_ix markedWriterIndex with_readerIdx].
    rewrite (bind_ok _ _ _ _ _ E3). rewrite !shifted_eq; [reflexivity | ..]; unfold reader_mark; try (destruct (_ && _)); fold r; solve_range.
Qed.

(** C37: [discardReadBytes] of a composite buffer drops the bytes that were read:
    the buffer has the bytes from the reader index on, in their order, followed by
    as many new ones as were dropped, its reader index is 0 and its writer index has
    moved by as many, so that the bytes to read are the same and so is the capacity.
    That holds when the reader mark is not behind the writer mark, or was no index to
    go back to; a reader mark to go back to that is behind the reader index and the
    writer mark makes the operation throw. *)
Theorem composite_discards buffer s l : makes_padding buffer -> composed s l -> filled s -> wf_marks s l ->
  let r := AbstractChannelBuffer.readerIndex s in
  let w := AbstractChannelBuffer.writerIndex s in
  (marked s <= markedWriter s \/ w < marked s ->
    exists s' pad, discardReadBytes buffer s = (Ok tt, s') /\ composed s' (drop (Z.to_nat r) l ++ pad) /\ zlen pad = r /\
      byteOrder s' = byteOrder s /\ AbstractChannelBuffer.readerIndex s' = 0 /\ AbstractChannelBuffer.writerIndex s' = w - r) /\
  (0 < r < marked s -> markedWriter s < marked s <= w -> fst (discardReadBytes buffer s) = Err RangeException).
Proof.
  intros Hp Hs Hf Hx r w. pose proof Hx as [Hx1 Hx2 Hx3 Hx4]. fold r w in Hx1, Hx2. destruct (Z.eq_dec r 0) as [E0|Hne].
  - split; [|lia]. intros _. exists s, []. rewrite E0, app_nil_r, Z.sub_0_r. split; [|auto].
    unfold discardReadBytes. rewrite bind_gets. unfold id. fold r. rewrite E0. reflexivity.
  - destruct (discard_components buffer s l Hp Hs Hf Hx) as (s' & pad & A & Hz & Ho & ->); [fold r; lia|]. fold r w.
    assert (zlen (drop (Z.to_nat r) l ++ pad) = zlen l) as Hzl.
    { rewrite zlen_app, Hz. fold r. unfold zlen in *. rewrite length_drop. lia. }
    fold r in A, Hz. rewrite (set_marks_spec _ _ _ _ _ A), Z.leb_antisym by (rewrite ?Hzl; lia). unfold reader_mark. fold r w.
    split; [intros Hmarks | intros H1 H2].
    + rewrite (proj2 (Z.ltb_ge _ _)) by (destruct (_ && _) eqn:E; zbool; lia). cbn [negb]. eexists _, pad.
      split; [reflexivity|]. split; [apply composed_with_ix; exact A|]. split; [exact Hz|]. split; [exact Ho|].
      split; [reflexivity|]. cbn. lia.
    + rewrite (proj2 (Z.leb_le _ _)), (proj2 (Z.leb_le _ _)), (proj2 (Z.ltb_lt _ _)) by (cbn [andb]; lia). reflexivity.
Qed.

(** *** Wrapping *)

(** What a composite buffer has to read. *)
Definition composite_queue s : list Z :=
  zsub (bytes_of (components s)) (AbstractChannelBuffer.readerIndex s)
    (AbstractChannelBuffer.writerIndex s - AbstractChannelBuffer.readerIndex s).

Record composite_wf s : Prop := MkCompositeWf {
  cwf_composed : composed s (bytes_of (components s));
  cwf_filled : filled s;
  cwf_indexes : 0 <= AbstractChannelBuffer.readerIndex s <= AbstractChannelBuffer.writerIndex s;
  cwf_writer : AbstractChannelBuffer.writerIndex s <= zlen (bytes_of (components s));
}.

Definition wrapped_wf (o : ByteOrder) (w : wrapped) : Prop :=
  wrapped_order w = o /\ match w with Plain b => wf b | Nested c => composite_wf c end.

Definition wrapped_queue (w : wrapped) : list Z :=
  match w with Plain b => queue b | Nested c => composite_queue c end.

Definition wrapped_queues (ws : list wrapped) : list Z := concat (map wrapped_queue ws).

Lemma zlen_composite_queue s : composite_wf s ->
  zlen (composite_queue s) = AbstractChannelBuffer.writerIndex s - AbstractChannelBuffer.readerIndex s /\
  AbstractChannelBuffer.readableBytes s = AbstractChannelBuffer.writerIndex s - AbstractChannelBuffer.readerIndex s.
Proof.
  intros [Hc _ Hi Hw]. pose proof (composed_max _ _ Hc). split; [apply zlen_zsub; lia|].
  unfold AbstractChannelBuffer.readableBytes. apply i32_id. solve_range.
Qed.

Lemma wrapped_readable_queue o w : wrapped_wf o w -> wrapped_readable w = (0 <? zlen (wrapped_queue w)).
Proof.
  intros [_ Hw]. destruct w as [b|c]; cbn; unfold AbstractChannelBuffer.readable; rewrite Z.gtb_ltb.
  - rewrite readableBytes_queue by exact Hw. reflexivity.
  - destruct (zlen_composite_queue c Hw) as [-> ->]. reflexivity.
Qed.

Lemma parts_spec o w : wrapped_wf o w -> 0 < zlen (wrapped_queue w) ->
  exists ds, parts w = Ok ds /\ Forall (whole o) ds /\ bytes_of ds = wrapped_queue w /\ ds <> [].
Proof.
  intros [Ho Hw] Hq. destruct w as [b|c]; cbn in *.
  - destruct (sliceAll_ok b Hw Hq) as (d & -> & Hd & Hc). exists [d]. rewrite <- Ho.
    split; [reflexivity|]. split; [constructor; [exact Hd | constructor]|]. split; [|discriminate].
    rewrite bytes_of_cons, Hc. apply app_nil_r.
  - destruct (zlen_composite_queue c Hw) as [Ez Er]. pose proof Hw as [Hc Hf Hi Hwr]. rewrite Er.
    destruct (decompose_spec c _ (AbstractChannelBuffer.readerIndex c) (AbstractChannelBuffer.writerIndex c - AbstractChannelBuffer.readerIndex c) Hc Hf)
      as (ds & c' & E & _ & Hd & Hb & Hne); try lia. rewrite E. exists ds. rewrite <- Ho. auto.
Qed.

(** What was collected so far, and what is still to come. *)
Lemma collect_spec o ws : Forall (wrapped_wf o) ws -> forall buffs, Forall (whole o) buffs ->
  exists ds, collect buffs ws = Ok ds /\ Forall (whole o) ds /\ bytes_of ds = bytes_of buffs ++ wrapped_queues ws.
Proof.
  induction 1 as [|w ws Hw Hws IH]; intros buffs Hb; [exists buffs; unfold wrapped_queues; cbn; rewrite app_nil_r; auto|].
  cbn [collect]. rewrite (wrapped_readable_queue o) by exact Hw. destruct (0 <? zlen (wrapped_queue w)) eqn:E; zbool; cbn [negb].
  - assert (match buffs with [] => false | b :: _ => negb (ByteOrder_eqb (wrapped_order w) (order b)) end = false) as ->.
    { destruct Hb as [|b bs [_ Hob _ _] _]; [reflexivity|]. rewrite Hob, (proj1 Hw), (proj2 (ByteOrder_eqb_eq _ _) eq_refl). reflexivity. }
    destruct (parts_spec o w Hw E) as (ds & -> & Hds & Hby & _). cbn [rbind].
    destruct (IH (buffs ++ ds)) as (es & -> & Hes & Hbe); [apply Forall_app; auto|]. exists es. split; [reflexivity|]. split; [exact Hes|].
    rewrite Hbe, bytes_of_app, Hby. unfold wrapped_queues. cbn [map concat]. symmetry. apply app_assoc.
  - destruct (IH buffs Hb) as (es & -> & Hes & Hbe). exists es. split; [reflexivity|]. split; [exact Hes|]. rewrite Hbe.
    unfold wrapped_queues. cbn [map concat]. rewrite (nil_length_inv (wrapped_queue w)) by (pose proof (zlen_nonneg (wrapped_queue w)); unfold zlen in *; lia).
    reflexivity.
Qed.

(** The bytes of what the code gives back, all of them readable. *)
Definition joined_reads (o : ByteOrder) (j : joined) (l : list Z) : Prop :=
  match j with
  | Empty => l = []
  | Single b => whole o b /\ content b = l
  | Composite c => composed c l /\ byteOrder c = o /\ AbstractChannelBuffer.readerIndex c = 0 /\ AbstractChannelBuffer.writerIndex c = zlen l
  end.

Lemma join_spec o ds : Forall (whole o) ds -> zlen (bytes_of ds) <= INT_MAX - 8 ->
  exists j, join o ds = Ok j /\ joined_reads o j (bytes_of ds).
Proof.
  intros Hd Hm. destruct ds as [|d [|d2 ds]].
  - exists Empty. split; reflexivity.
  - exists (Single d). apply List.Forall_cons_iff in Hd as [Hd _]. split; [reflexivity|]. split; [exact Hd|].
    rewrite bytes_of_cons. symmetry. apply app_nil_r.
  - destruct (new_composed o (d :: d2 :: ds) Hd ltac:(discriminate) Hm) as (c & E & A & Ho & _ & Hr & Hw). exists (Composite c).
    split; [cbn [join]; rewrite E; reflexivity | cbn; auto].
Qed.

(** A buffer of the other byte order behind readable bytes. *)
Lemma collect_mixed o ws w ws' : Forall (wrapped_wf o) ws -> wrapped_queues ws <> [] ->
  wrapped_wf (wrapped_order w) w -> wrapped_order w <> o -> wrapped_queue w <> [] ->
  collect [] (ws ++ w :: ws') = Err InvalidArgumentException.
Proof.
  intros Hws Hq Hw Ho Hqw.
  assert (forall xs buffs, collect buffs (xs ++ w :: ws') = let? buffs := collect buffs xs in collect buffs (w :: ws')) as Happ.
  { induction xs as [|x xs IH]; intros buffs; [reflexivity|]. cbn [app collect]. destruct (negb _); [apply IH|].
    destruct (match buffs with [] => false | _ => _ end); [reflexivity|]. destruct (parts x); [apply IH | reflexivity]. }
  destruct (collect_spec o ws Hws []) as (ds & E & Hd & Hb); [constructor|]. rewrite Happ, E. cbn [rbind collect].
  rewrite (wrapped_readable_queue _ _ Hw), (proj2 (Z.ltb_lt 0 _)) by (destruct (wrapped_queue w); [contradiction | unfold zlen; cbn; lia]).
  cbn [negb]. destruct Hd as [|d ds [_ Hod _ _] _]; [contradiction Hq; exact (eq_sym Hb)|].
  assert (ByteOrder_eqb (wrapped_order w) (order d) = false) as ->; [|reflexivity].
  apply not_true_iff_false. intros Ht. apply ByteOrder_eqb_eq in Ht. congruence.
Qed.

(** C12: [wrappedBuffer] of buffers of one byte order, composite or not, gives a
    buffer that reads as the readable bytes of them all, one after the other: the
    empty buffer when there are none, the slice of the only part, or a composite
    buffer of the parts, none of which is itself composite.  A buffer with readable
    bytes of the other byte order behind readable bytes is refused. *)
Theorem wrapped_concatenates o ws w ws' : Forall (wrapped_wf o) ws -> zlen (wrapped_queues ws) <= INT_MAX - 8 ->
  (exists j, wrappedBuffer ws = Ok j /\ joined_reads o j (wrapped_queues ws)) /\
  (wrapped_queues ws <> [] -> wrapped_wf (wrapped_order w) w -> wrapped_order w <> o -> wrapped_queue w <> [] ->
    wrappedBuffer (ws ++ w :: ws') = Err InvalidArgumentException).
Proof.
  intros Hw Hm. split.
  - destruct (collect_spec o ws Hw []) as (ds & E & Hd & Hb); [constructor|]. cbn [app bytes_of map concat] in Hb.
    unfold wrappedBuffer. rewrite E. cbn [rbind]. rewrite <- Hb in *.
    assert (join (match ds with [] => BYTE_ORDER_BIG | b :: _ => order b end) ds = join o ds) as ->
      by (destruct Hd as [|d ds [_ -> _ _] _]; reflexivity).
    apply join_spec; assumption.
  - intros Hq Hww Ho Hqw. unfold wrappedBuffer. rewrite (collect_mixed o) by assumption. reflexivity.
Qed.

End Parts.

(** ** Slices as components *)

Section SlicedParts.
Context {B : Type} {RB : RawBuffer B} {RS : ReadSpec B}.
Abbreviation slice_of := (SlicedChannelBuffer.t B).

(** A slice of no bytes would be the shared empty buffer, which is of another class. *)
#[local] Instance SlicedDuplicate : DuplicateBuffer slice_of := {| Buffer.duplicate := SlicedChannelBuffer.duplicate |}.
#[local] Instance SlicedSlice : SliceBuffer slice_of slice_of := {|
  Buffer.slice b i n := let? d := SlicedChannelBuffer.slice b i n in match d with Some d => Ok d | None => Err Undefined end;
|}.

Lemma sliced_new_is (p : B) i n : valid p -> in_range (zlen (content p)) i n ->
  SlicedChannelBuffer.new p i n = Ok (SlicedChannelBuffer.MkSliced (MkView (MkIndexes 0 n 0 0) i n p)).
Proof.
  intros Hv (R1 & R2 & R3). pose proof (content_max _ Hv). unfold SlicedChannelBuffer.new.
  rewrite capacity_content, i32_id by (exact Hv || solve_range). zif. zif.
  unfold construct, AbstractChannelBuffer.setWriterIndex. rewrite bind_gets, bind_throw_if. cbn.
  rewrite Z.gtb_ltb, !(proj2 (Z.ltb_ge _ _)) by lia. reflexivity.
Qed.

#[local] Instance SlicedParts : ComponentSpec slice_of.
Proof.
  split.
  - intros b Hw. pose proof Hw as [Hv [Hr Hwr]]. pose proof Hv as (Hp & Ha & Hl & Hc). cbn. unfold SlicedChannelBuffer.duplicate.
    rewrite sliced_new_is by (try exact Hp; unfold in_range; lia). cbn [rbind].
    unfold construct, AbstractChannelBuffer.setIndex. rewrite bind_gets, bind_throw_if. cbn.
    cbn [content SlicedReadSpec] in Hwr. rewrite sliced_zlen in Hwr by exact Hv.
    rewrite !Z.gtb_ltb, !(proj2 (Z.ltb_ge _ _)) by lia. eexists. split; [reflexivity|]. split; [exact Hv|]. auto.
  - intros b i n Hv R Hn. pose proof Hv as (Hp & Ha & Hl & Hc). pose proof (content_max _ Hp). pose proof (content_max b Hv).
    cbn [content SlicedReadSpec] in R. rewrite sliced_zlen in R by exact Hv. cbn. unfold SlicedChannelBuffer.slice.
    rewrite checkIndexes_ok by assumption. cbn [rbind]. rewrite (proj2 (Z.eqb_neq _ _)) by lia. destruct R as (R1 & R2 & R3).
    unfold SlicedChannelBuffer.at_parent. rewrite i32_id by solve_range. rewrite sliced_new_is by (try exact Hp; unfold in_range; lia).
    cbn [rbind]. eexists. split; [reflexivity|].
    assert (zlen (zsub (content (buffer (SlicedChannelBuffer.v b))) (i + adjustment (SlicedChannelBuffer.v b)) n) = n) as Hz by (apply zlen_zsub; lia).
    split; [split|]; try reflexivity; [repeat split; cbn; (exact Hp || lia) | exact (eq_sym Hz) |].
    cbn. unfold sliced_content. cbn. rewrite zsub_zsub by lia. f_equal. lia.
Qed.

End SlicedParts.

(** ** Instances of the hypotheses *)

Section Witnesses.
#[local] Existing Instance SlicedDuplicate.
#[local] Existing Instance SlicedSlice.
#[local] Existing Instance SlicedParts.

(** Slices of heap buffers, whole ones and one with a byte read. *)
Definition heap_with (o : ByteOrder) (l : list Z) : HeapChannelBuffer.t :=
  HeapChannelBuffer.MkHeap o (MkIndexes 0 (zlen l) 0 0) true (Array.Data l).
Definition slice_with (o : ByteOrder) (r : Z) (l : list Z) : SlicedChannelBuffer.t HeapChannelBuffer.t :=
  SlicedChannelBuffer.MkSliced (MkView (MkIndexes r (zlen l) 0 0) 0 (zlen l) (heap_with o l)).

Lemma slice_with_valid o r l : Forall is_i8 l -> zlen l <= INT_MAX -> valid (slice_with o r l).
Proof. intros Hl Hm. pose proof (zlen_nonneg l). repeat split; cbn; try lia. exists l. auto. Defined.

Lemma slice_with_content o r l : content (slice_with o r l) = l.
Proof. exact (zsub_all l). Defined.

Lemma slice_with_whole o l : Forall is_i8 l -> zlen l <= INT_MAX -> whole o (slice_with o 0 l).
Proof. intros Hl Hm. split; [apply slice_with_valid; assumption | reflexivity | reflexivity | rewrite slice_with_content; reflexivity]. Defined.

Definition two_parts (r w mr mw : Z) : CompositeChannelBuffer.t (SlicedChannelBuffer.t HeapChannelBuffer.t) :=
  MkComposite BYTE_ORDER_BIG [slice_with BYTE_ORDER_BIG 0 [1; 2; 3]; slice_with BYTE_ORDER_BIG 0 [4; 5]] [0; 3; 5] 1 (MkIndexes r w mr mw).

Lemma two_parts_composed r w mr mw : composed (two_parts r w mr mw) [1; 2; 3; 4; 5].
Proof.
  split; try reflexivity; try discriminate.
  - repeat constructor; apply slice_with_whole; try (repeat constructor; solve_range); discriminate.
  - split; [discriminate | reflexivity].
Defined.

Lemma two_parts_filled r w mr mw : filled (two_parts r w mr mw).
Proof. repeat constructor. Defined.

Definition zeros_buffer (o : ByteOrder) (n : Z) : result (SlicedChannelBuffer.t HeapChannelBuffer.t) :=
  SlicedChannelBuffer.new (heap_with o (repeat 0 (Z.to_nat n))) 0 n.

Lemma zeros_buffer_padding : makes_padding zeros_buffer.
Proof.
  intros o n Hn. set (l := repeat 0 (Z.to_nat n)). assert (zlen l = n) as Hz by (unfold zlen, l; rewrite repeat_length; lia).
  assert (Forall is_i8 l) as Hl by (apply List.Forall_forall; intros x Hx; rewrite (repeat_spec _ _ _ Hx); solve_range).
  assert (valid (heap_with o l)) as Hv by (exists l; repeat split; [exact Hl | lia]). unfold zeros_buffer. fold l.
  rewrite sliced_new_is; [|exact Hv | unfold in_range; cbn; lia]. rewrite <- Hz.
  eexists. split; [reflexivity|]. split; [repeat split; cbn; (exact Hv || lia)|]. split; [reflexivity|].
  split; [cbn; rewrite Hz; cbn; unfold sliced_content; cbn; rewrite <- Hz, zsub_all; reflexivity | reflexivity].
Defined.

Lemma composite_discards_witness :
  (exists s' pad, discardReadBytes zeros_buffer (two_parts 2 4 0 0) = (Ok tt, s') /\ composed s' ([3; 4; 5] ++ pad) /\ zlen pad = 2 /\
    byteOrder s' = BYTE_ORDER_BIG /\ AbstractChannelBuffer.readerIndex s' = 0 /\ AbstractChannelBuffer.writerIndex s' = 2) /\
  fst (discardReadBytes zeros_buffer (two_parts 2 4 3 0)) = Err RangeException.
Proof.
  split.
  - destruct (composite_discards zeros_buffer (two_parts 2 4 0 0) [1; 2; 3; 4; 5] zeros_buffer_padding (two_parts_composed 2 4 0 0) (two_parts_filled 2 4 0 0))
      as [H _]; [split; cbn; unfold zlen; cbn; lia | apply H; left; discriminate].
  - apply (composite_discards zeros_buffer (two_parts 2 4 3 0) [1; 2; 3; 4; 5] zeros_buffer_padding (two_parts_composed 2 4 3 0) (two_parts_filled 2 4 3 0));
      [split; cbn; unfold zlen; cbn; lia | split; reflexivity | split; [reflexivity | discriminate]].
Defined.

(** A slice with a byte read, a composite buffer with two, and a little-endian slice. *)
Definition wrapped3 : list wrapped := [Plain (slice_with BYTE_ORDER_BIG 1 [9; 8; 7]); Nested (two_parts 2 4 0 0)].

Lemma wrapped_concatenates_witness :
  (exists j, wrappedBuffer wrapped3 = Ok j /\ joined_reads BYTE_ORDER_BIG j [8; 7; 3; 4]) /\
  wrappedBuffer (wrapped3 ++ [Plain (slice_with BYTE_ORDER_LITTLE 0 [6])]) = Err InvalidArgumentException.
Proof.
  assert (forall o r l, Forall is_i8 l -> zlen l <= INT_MAX -> 0 <= r <= zlen l -> wrapped_wf o (Plain (slice_with o r l))) as Hp.
  { intros o r l Hl Hm Hr. split; [reflexivity|]. split; [apply slice_with_valid; assumption|]. unfold wf_indexes.
    rewrite slice_with_content. cbn. lia. }
  assert (wrapped_wf BYTE_ORDER_BIG (Nested (two_parts 2 4 0 0))) as Hn.
  { split; [reflexivity|]. split; [exact (two_parts_composed 2 4 0 0) | exact (two_parts_filled 2 4 0 0) | vm_compute; split; discriminate | vm_compute; discriminate]. }
  destruct (wrapped_concatenates BYTE_ORDER_BIG wrapped3 (Plain (slice_with BYTE_ORDER_LITTLE 0 [6])) []) as [H1 H2].
  - constructor; [|constructor; [exact Hn | constructor]]. apply Hp; [repeat constructor; solve_range | discriminate | unfold zlen; cbn; lia].
  - discriminate.
  - split; [exact H1|]. apply H2; try discriminate. apply Hp; [repeat constructor; solve_range | discriminate | unfold zlen; cbn; lia].
Defined.

End Witnesses.
