(* ===== verification/Replay.v ===== *)
(** * Replaying decoders

    [src/src/cetty/handler/codec/replay] and [src/include/cetty/handler/codec/replay]:
    the buffer that a replaying decoder reads from, which answers a read beyond the
    data with zero and raises a flag instead of throwing, and the decode loop that
    goes back to the last checkpoint when the flag is up.  The loop is modelled over
    any [decode] ([ReplayDecoding]). *)

From S2P Require Import Prelude MachineInt Buffer AbstractBuffer BufferUtil.

(** ** ReplayingDecoderBuffer *)

Module ReplayingDecoderBuffer.

Record t (B : Type) := MkReplay {
  buffer : B;
  needMore : bool;
  terminated : bool;
}.
Arguments MkReplay {B} _ _ _.
Arguments buffer {B} _.
Arguments needMore {B} _.
Arguments terminated {B} _.

Section Ops.
Context {B : Type} {RB : RawBuffer B} {WB : WriteBuffer B}.
Abbreviation RM := (M (t B)).

Definition new (b : B) : t B := MkReplay b false false.
Definition with_buffer (b : B) (r : t B) : t B := MkReplay b (needMore r) (terminated r).
Definition set_needMore (n : bool) : RM unit :=
  modify (fun r => MkReplay (buffer r) n (terminated r)).
Definition terminate (r : t B) : t B := MkReplay (buffer r) (needMore r) true.
Definition needMoreBytes (r : t B) : bool := needMore r.

(** An operation of the buffer behind. *)
Definition on_buffer {A} (m : M B A) : RM A := zoom buffer with_buffer m.
Definition of_buffer {A} (f : B -> result A) : RM A := reads (fun r => f (buffer r)).

(** *** The checks *)

Definition checkIndex (index : Z) : RM bool :=
  let! r := gets id in
  let ok := index <=? AbstractChannelBuffer.writerIndex (buffer r) in
  set_needMore (negb ok) ;! ret ok.

Definition checkIndexLen (index length : Z) : RM bool :=
  let! r := gets id in
  let ok := i32 (index + length) <=? AbstractChannelBuffer.writerIndex (buffer r) in
  set_needMore (negb ok) ;! ret ok.

Definition checkReadableBytes (readableBytes : Z) : RM bool :=
  let! r := gets id in
  let ok := AbstractChannelBuffer.readableBytes (buffer r) >=? readableBytes in
  set_needMore (negb ok) ;! ret ok.

(** [if (check) return m; return dflt;] *)
Definition guarded {A} (check : RM bool) (m : RM A) (dflt : A) : RM A :=
  let! ok := check in if ok then m else ret dflt.

(** *** Sizes *)

Definition capacity (r : t B) : Z :=
  if terminated r then Buffer.capacity (buffer r) else INT_MAX.
Definition readable (r : t B) : bool :=
  if terminated r then AbstractChannelBuffer.readable (buffer r) else true.
Definition readableBytes (r : t B) : Z :=
  if terminated r then AbstractChannelBuffer.readableBytes (buffer r)
  else INT_MAX - AbstractChannelBuffer.readerIndex (buffer r).
Definition readerIndex (r : t B) : Z := AbstractChannelBuffer.readerIndex (buffer r).
Definition writerIndex (r : t B) : Z := AbstractChannelBuffer.writerIndex (buffer r).
Definition setReaderIndex (i : Z) : RM unit := on_buffer (AbstractChannelBuffer.setReaderIndex i).
Definition order (r : t B) : ByteOrder := Buffer.order (buffer r).
Definition writable (r : t B) : bool := false.
Definition writableBytes (r : t B) : Z := 0.
Definition markReaderIndex : RM unit := on_buffer AbstractChannelBuffer.markReaderIndex.
Definition resetReaderIndex : RM unit := on_buffer AbstractChannelBuffer.resetReaderIndex.

(** *** Reads at an index *)

Definition getByte (i : Z) : RM Z := guarded (checkIndex i) (of_buffer (fun b => Buffer.getByte b i)) 0.
Definition getUnsignedByte (i : Z) : RM Z :=
  guarded (checkIndex i) (of_buffer (fun b => AbstractChannelBuffer.getUnsignedByte b i)) 0.
Definition getShort (i : Z) : RM Z :=
  guarded (checkIndexLen i 2) (of_buffer (fun b => Buffer.getShort b i)) 0.
Definition getUnsignedShort (i : Z) : RM Z :=
  guarded (checkIndexLen i 2) (of_buffer (fun b => AbstractChannelBuffer.getUnsignedShort b i)) 0.
Definition getMedium (i : Z) : RM Z :=
  guarded (checkIndexLen i 3) (of_buffer (fun b => AbstractChannelBuffer.getMedium b i)) 0.
Definition getUnsignedMedium (i : Z) : RM Z :=
  guarded (checkIndexLen i 3) (of_buffer (fun b => Buffer.getUnsignedMedium b i)) 0.
Definition getInt (i : Z) : RM Z :=
  guarded (checkIndexLen i 4) (of_buffer (fun b => Buffer.getInt b i)) 0.
Definition getUnsignedInt (i : Z) : RM Z :=
  guarded (checkIndexLen i 4) (of_buffer (fun b => AbstractChannelBuffer.getUnsignedInt b i)) 0.
Definition getLong (i : Z) : RM Z :=
  guarded (checkIndexLen i 8) (of_buffer (fun b => Buffer.getLong b i)) 0.
Definition getChar (i : Z) : RM Z :=
  guarded (checkIndexLen i 2) (of_buffer (fun b => AbstractChannelBuffer.getChar b i)) 0.
Definition getBytes (i : Z) (dst : Array.t) (dstIndex length : Z) : RM Array.t :=
  guarded (checkIndexLen i length) (of_buffer (fun b => Buffer.getBytes b i dst dstIndex length)) dst.
Definition getBytesArray (i : Z) (dst : Array.t) : RM Array.t :=
  guarded (checkIndexLen i (Array.length dst))
    (of_buffer (fun b => AbstractChannelBuffer.getBytesArray b i dst)) dst.

(** *** Search *)

Definition search (f : B -> result Z) : RM Z :=
  let! endIndex := of_buffer f in set_needMore (endIndex <? 0) ;! ret endIndex.

Definition indexOf (fromIndex toIndex value : Z) : RM Z :=
  search (fun b => BufferUtil.indexOfByte b fromIndex toIndex value).
Definition indexOfFinder (fromIndex toIndex : Z) (f : BufferUtil.Finder) : RM Z :=
  search (fun b => BufferUtil.indexOf b fromIndex toIndex f).
Definition bytesBefore (f : BufferUtil.Finder) : RM Z := search (fun b => BufferUtil.bytesBefore b f).
Definition bytesBeforeLen (length : Z) (f : BufferUtil.Finder) : RM Z :=
  guarded (checkReadableBytes length) (search (fun b => BufferUtil.bytesBeforeLen b length f)) (-1).
Definition bytesBeforeAt (index length : Z) (f : BufferUtil.Finder) : RM Z :=
  search (fun b => BufferUtil.bytesBeforeAt b index length f).

(** *** Reads that advance *)

Definition readByte : RM Z := guarded (checkReadableBytes 1) (on_buffer AbstractChannelBuffer.readByte) 0.
Definition readUnsignedByte : RM Z :=
  guarded (checkReadableBytes 1) (on_buffer AbstractChannelBuffer.readUnsignedByte) 0.
Definition readShort : RM Z := guarded (checkReadableBytes 2) (on_buffer AbstractChannelBuffer.readShort) 0.
Definition readUnsignedShort : RM Z :=
  guarded (checkReadableBytes 2) (on_buffer AbstractChannelBuffer.readUnsignedShort) 0.
Definition readMedium : RM Z := guarded (checkReadableBytes 3) (on_buffer AbstractChannelBuffer.readMedium) 0.
Definition readUnsignedMedium : RM Z :=
  guarded (checkReadableBytes 3) (on_buffer AbstractChannelBuffer.readUnsignedMedium) 0.
Definition readInt : RM Z := guarded (checkReadableBytes 4) (on_buffer AbstractChannelBuffer.readInt) 0.
Definition readUnsignedInt : RM Z :=
  guarded (checkReadableBytes 4) (on_buffer AbstractChannelBuffer.readUnsignedInt) 0.
Definition readLong : RM Z := guarded (checkReadableBytes 8) (on_buffer AbstractChannelBuffer.readLong) 0.
Definition readChar : RM Z := guarded (checkReadableBytes 2) (on_buffer AbstractChannelBuffer.readChar) 0.
Definition readBytesArrayAt (dst : Array.t) (dstIndex length : Z) : RM Array.t :=
  guarded (checkReadableBytes length)
    (on_buffer (AbstractChannelBuffer.readBytesArrayAt dst dstIndex length)) dst.
Definition readBytesArray (dst : Array.t) : RM Array.t :=
  guarded (checkReadableBytes (Array.length dst))
    (on_buffer (AbstractChannelBuffer.readBytesArray dst)) dst.
Definition readBytesStringLen (dst : list Z) (length : Z) : RM (list Z) :=
  guarded (checkReadableBytes length) (on_buffer (AbstractChannelBuffer.readBytesStringLen dst length)) dst.
Definition readBytesString (dst : list Z) : RM (list Z) :=
  let! r := gets id in
  guarded (checkReadableBytes (readableBytes r)) (on_buffer (AbstractChannelBuffer.readBytesString dst)) dst.
Definition skipBytes (length : Z) : RM unit :=
  guarded (checkReadableBytes length) (on_buffer (AbstractChannelBuffer.skipBytes length)) tt.

Section New.
Context {N : Type} {RN : RawBuffer N} {WN : WriteBuffer N} {FN : ChannelBufferFactory N}.

Definition readBytesLen (length : Z) : RM N :=
  guarded (checkReadableBytes length) (on_buffer (AbstractChannelBuffer.readBytesLen length)) EMPTY_BUFFER.
Definition readBytes : RM N := let! r := gets id in readBytesLen (readableBytes r).

Definition copy {CB : CopyBuffer B N} (index length : Z) : RM N :=
  guarded (checkIndexLen index length) (of_buffer (fun b => Buffer.copy b index length)) EMPTY_BUFFER.
End New.

(** A slice is a view of the buffer behind, or the shared empty buffer. *)
Section View.
Context {V : Type} {SB : SliceBuffer B V}.

Definition readSlice (length : Z) : RM (option V) :=
  guarded (checkReadableBytes length)
    (let! v := on_buffer (AbstractChannelBuffer.readSliceLen length) in ret (Some v)) None.
Definition readSliceAll : RM (option V) := let! r := gets id in readSlice (readableBytes r).
Definition slice (index length : Z) : RM (option V) :=
  guarded (checkIndexLen index length)
    (let! v := of_buffer (fun b => Buffer.slice b index length) in ret (Some v)) None.
End View.

(** *** What cannot be replayed *)

Definition unreplayable {A} : RM A := throw UnreplayableOperationException.

Definition clear : RM unit := unreplayable.
Definition compareTo : RM Z := unreplayable.
Definition copyAll : RM B := unreplayable.
Definition discardReadBytes : RM unit := unreplayable.
Definition ensureWritableBytes (writableBytes : Z) : RM unit := unreplayable.
Definition duplicate : RM B := unreplayable.
Definition hashCode : RM Z := unreplayable.
Definition markWriterIndex : RM unit := unreplayable.
Definition resetWriterIndex : RM unit := unreplayable.
Definition setWriterIndex (i : Z) : RM unit := unreplayable.
Definition setIndex (readerIndex writerIndex : Z) : RM unit := unreplayable.
Definition setByte (index value : Z) : RM unit := unreplayable.
Definition setShort (index value : Z) : RM unit := unreplayable.
Definition setMedium (index value : Z) : RM unit := unreplayable.
Definition setInt (index value : Z) : RM unit := unreplayable.
Definition setLong (index value : Z) : RM unit := unreplayable.
Definition setBytes (index : Z) (src : Array.t) (srcIndex length : Z) : RM unit := unreplayable.
Definition setZero (index length : Z) : RM unit := unreplayable.
Definition writeByte (value : Z) : RM unit := unreplayable.
Definition writeShort (value : Z) : RM unit := unreplayable.
Definition writeMedium (value : Z) : RM unit := unreplayable.
Definition writeInt (value : Z) : RM unit := unreplayable.
Definition writeLong (value : Z) : RM unit := unreplayable.
Definition writeBytes (src : Array.t) (srcIndex length : Z) : RM unit := unreplayable.
Definition writeZero (length : Z) : RM unit := unreplayable.

End Ops.
End ReplayingDecoderBuffer.

(** ** ReplayingDecoder *)

Module ReplayingDecoder.

(** [ChannelMessage]: empty, a message, or a vector of messages. *)
Inductive message (F : Type) :=
  | EMPTY_MESSAGE
  | Message (f : F)
  | Messages (fs : list F).
Arguments EMPTY_MESSAGE {F}.
Arguments Message {F} _.
Arguments Messages {F} _.

Definition empty {F} (m : message F) : bool :=
  match m with EMPTY_MESSAGE => true | _ => false end.

(** The decoder: the object of the subclass, the replaying buffer with the
    cumulation behind it, whether the member [cumulation] still holds that
    buffer, the members [state] and [checkedPoint], and what was sent upstream. *)
Record dstate (D B F : Type) := MkD {
  decoder : D;
  replayable : ReplayingDecoderBuffer.t B;
  cumulated : bool;
  state : Z;
  checkedPoint : Z;
  fired : list (message F);
}.
Arguments MkD {D B F} _ _ _ _ _ _.
Arguments decoder {D B F} _.
Arguments replayable {D B F} _.
Arguments cumulated {D B F} _.
Arguments state {D B F} _.
Arguments checkedPoint {D B F} _.
Arguments fired {D B F} _.

Section State.
Context {D B F : Type} {RB : RawBuffer B}.
Abbreviation DM := (M (dstate D B F)).

Definition with_decoder (d : D) (s : dstate D B F) : dstate D B F :=
  MkD d (replayable s) (cumulated s) (state s) (checkedPoint s) (fired s).
Definition with_replayable (r : ReplayingDecoderBuffer.t B) (s : dstate D B F) : dstate D B F :=
  MkD (decoder s) r (cumulated s) (state s) (checkedPoint s) (fired s).
Definition with_cumulated (c : bool) (s : dstate D B F) : dstate D B F :=
  MkD (decoder s) (replayable s) c (state s) (checkedPoint s) (fired s).
Definition with_state (n : Z) (s : dstate D B F) : dstate D B F :=
  MkD (decoder s) (replayable s) (cumulated s) n (checkedPoint s) (fired s).
Definition with_checkedPoint (p : Z) (s : dstate D B F) : dstate D B F :=
  MkD (decoder s) (replayable s) (cumulated s) (state s) p (fired s).
Definition fire (m : message F) : DM unit :=
  modify (fun s => MkD (decoder s) (replayable s) (cumulated s) (state s) (checkedPoint s) (fired s ++ [m])).

(** An operation of the replaying buffer. *)
Definition on_replayable {A} (m : M (ReplayingDecoderBuffer.t B) A) : DM A :=
  zoom replayable with_replayable m.
(** The cumulation. *)
Definition cumulation (s : dstate D B F) : B := ReplayingDecoderBuffer.buffer (replayable s).
Definition with_cumulation (b : B) (s : dstate D B F) : dstate D B F :=
  with_replayable (ReplayingDecoderBuffer.with_buffer b (replayable s)) s.
Definition on_cumulation {A} (m : M B A) : DM A := zoom cumulation with_cumulation m.

(** *** What a subclass uses *)

Definition setState (newState : Z) : DM Z :=
  let! oldState := gets state in
  modify (with_state newState) ;!
  ret oldState.

Definition checkpoint : DM unit :=
  let! s := gets id in
  modify (with_checkedPoint
    (if cumulated s then AbstractChannelBuffer.readerIndex (cumulation s) else -1)).

Definition checkpointState (newState : Z) : DM unit :=
  checkpoint ;!
  setState newState ;!
  ret tt.

(** [internalBuffer()->readableBytes()], with the empty buffer when there is no
    cumulation. *)
Definition actualReadableBytes (s : dstate D B F) : Z :=
  if cumulated s then AbstractChannelBuffer.readableBytes (cumulation s) else 0.

End State.

(** The virtual [decode] and [decodeLast], with their argument [state]. *)
Class ReplayDecoding (D B F : Type) := {
  decode : Z -> M (dstate D B F) (message F);
  decodeLast : Z -> M (dstate D B F) (message F);
}.

Section Loop.
Context {D B F : Type} {RB : RawBuffer B} {WB : WriteBuffer B} {RD : ReplayDecoding D B F}.
Abbreviation DM := (M (dstate D B F)).
(** The constructor's [unfold]. *)
Context (unfold : bool).

Fixpoint fireAll (fs : list F) : DM unit :=
  match fs with
  | [] => ret tt
  | f :: fs => fire (Message f) ;! fireAll fs
  end.

Definition unfoldAndfireMessageReceived (m : message F) : DM unit :=
  match m with
  | Messages fs => if unfold then fireAll fs else fire m
  | _ => fire m
  end.

(** The loop of [callDecode], with a bound on its turns: a decoder may change
    its state for ever without reading a byte. *)
Fixpoint callDecode (fuel : nat) : DM unit :=
  match fuel with
  | O => throw Undefined
  | S fuel =>
      let! s := gets id in
      if negb (AbstractChannelBuffer.readable (cumulation s)) then ret tt
      else
        let oldReaderIndex := AbstractChannelBuffer.readerIndex (cumulation s) in
        modify (with_checkedPoint oldReaderIndex) ;!
        let oldState := state s in
        let! result := decode oldState in
        let! s := gets id in
        let still := (oldReaderIndex =? AbstractChannelBuffer.readerIndex (cumulation s))
          && (oldState =? state s) in
        if empty result then
          if ReplayingDecoderBuffer.needMoreBytes (replayable s) then
            if checkedPoint s >=? 0
            then on_cumulation (AbstractChannelBuffer.setReaderIndex (checkedPoint s))
            else ret tt
          else if still then throw IllegalStateException
          else callDecode fuel
        else if still then throw IllegalStateException
        else unfoldAndfireMessageReceived result ;! callDecode fuel
  end.
End Loop.

Section Receive.
Context {D C I F : Type} {RC : RawBuffer C} {WC : WriteBuffer C} {RI : RawBuffer I} {WI : WriteBuffer I}
  {RD : ReplayDecoding D C F}.
(** [new UnsafeDynamicChannelBuffer( *factory)]. *)
Context (newCumulation : result C) (unfold : bool).

(** The handler between two events: there is no replaying buffer before the
    first message. *)
Record handler := MkHandler {
  self : D;
  buffers : option (ReplayingDecoderBuffer.t C);
  held : bool;
  handlerState : Z;
  handlerCheckedPoint : Z;
  sent : list (message F);
}.

Definition new (d : D) (initialState : Z) : handler := MkHandler d None false initialState (-1) [].

Definition enter (r : ReplayingDecoderBuffer.t C) (c : bool) (h : handler) : dstate D C F :=
  MkD (self h) r c (handlerState h) (handlerCheckedPoint h) (sent h).
Definition leave (s : dstate D C F) : handler :=
  MkHandler (decoder s) (Some (replayable s)) (cumulated s) (state s) (checkedPoint s) (fired s).

(** The replaying buffer over the cumulation, a new one when there is none. *)
Definition getReplayable (h : handler) : result (ReplayingDecoderBuffer.t C) :=
  match held h, buffers h with
  | true, Some r => Ok r
  | _, _ => let? c := newCumulation in Ok (ReplayingDecoderBuffer.new c)
  end.

(** [getCumulation] for a channel that does not own the buffer it reads into. *)
Definition getCumulation : M (dstate D C F * I) unit :=
  zoom fst (fun s p => (s, snd p)) (on_cumulation Buffer.discardReadBytes) ;!
  zoom (fun p => (cumulation (fst p), snd p))
    (fun q p => (with_cumulation (fst q) (fst p), snd q))
    AbstractChannelBuffer.writeBytesFrom.

(** [messageReceived] of a buffer. *)
Definition messageReceived (fuel : nat) : M (handler * I) unit := fun '(h, input) =>
  if negb (AbstractChannelBuffer.readable input) then (Ok tt, (h, input))
  else
    match getReplayable h with
    | Err e => (Err e, (h, input))
    | Ok r =>
        let '(res, (s, input)) :=
          (getCumulation ;! zoom fst (fun s p => (s, snd p)) (callDecode unfold fuel))
            (enter r true h, input) in
        (res, (leave s, input))
    end.

(** The same for a channel that owns its buffer, which becomes the cumulation
    unless the bytes to read are those of the cumulation held: [same] tells
    whether the input is the very buffer object held. *)
Definition getOwnReplayable (same : bool) (h : handler) (input : C) : result (ReplayingDecoderBuffer.t C) :=
  match held h, buffers h with
  | true, Some r =>
      if same then Ok (ReplayingDecoderBuffer.with_buffer input r)
      else
        let? eq := BufferUtil.equals (ReplayingDecoderBuffer.buffer r) input in
        if eq : bool then Ok r else Ok (ReplayingDecoderBuffer.new input)
  | _, _ => Ok (ReplayingDecoderBuffer.new input)
  end.

Definition messageReceivedOwn (fuel : nat) (same : bool) (input : C) : M handler unit := fun h =>
  if negb (AbstractChannelBuffer.readable input) then (Ok tt, h)
  else
    match getOwnReplayable same h input with
    | Err e => (Err e, h)
    | Ok r => let '(res, s) := callDecode unfold fuel (enter r true h) in (res, leave s)
    end.

(** [cleanup], the body of [channelDisconnected] and [channelClosed]: the result
    tells whether the state event was passed on. *)
Definition cleanup (fuel : nat) : M handler bool := fun h =>
  match held h, buffers h with
  | true, Some r =>
      let '(res, s) :=
        ((let! s := gets id in
          if AbstractChannelBuffer.readable (cumulation s) then callDecode unfold fuel else ret tt) ;!
         let! s := gets id in
         let! partiallyDecoded := decodeLast (state s) in
         (if empty partiallyDecoded then ret tt else unfoldAndfireMessageReceived unfold partiallyDecoded) ;!
         ret true) (enter (ReplayingDecoderBuffer.terminate r) false h) in
      (res, leave s)
  | _, _ => (Ok false, MkHandler (self h) (buffers h) false (handlerState h) (handlerCheckedPoint h) (sent h))
  end.

End Receive.
Arguments handler : clear implicits.
End ReplayingDecoder.
