(* ===== verification/FrameDecoders.v ===== *)
(** * Frame decoders

    [src/src/cetty/handler/codec/frame] and [src/include/cetty/handler/codec/frame]:
    the cumulation and the decode loop of [FrameDecoder], over any [decode]
    ([Decoding]); the delimiter, fixed-length and length-field decoders; the
    length-field prepender.  [DecoderSpec] states what a decoder does to the bytes
    of the stream, and the loop is proved against it. *)

From S2P Require Import Prelude MachineInt Buffer AbstractBuffer BufferTheory.

(** ** FrameDecoder *)

Module FrameDecoder.

(** What a decoder sends upstream: a frame, or the TooLongFrameException of
    its [fail] with the length it reports. *)
Inductive event (F : Type) :=
  | MessageReceived (frame : F)
  | ExceptionCaught (tooLongFrameLength : Z).
Arguments MessageReceived {F} _.
Arguments ExceptionCaught {F} _.

(** The state [decode] works on: the decoder object, the buffer it is given, and
    what was sent upstream so far. *)
Record dstate (D B F : Type) := MkD {
  decoder : D;
  buf : B;
  fired : list (event F);
}.
Arguments MkD {D B F} _ _ _.
Arguments decoder {D B F} _.
Arguments buf {D B F} _.
Arguments fired {D B F} _.

Section State.
Context {D B F : Type}.

Definition with_decoder (d : D) (s : dstate D B F) : dstate D B F := MkD d (buf s) (fired s).
Definition with_buf (b : B) (s : dstate D B F) : dstate D B F := MkD (decoder s) b (fired s).
Definition fire (e : event F) : M (dstate D B F) unit :=
  modify (fun s => MkD (decoder s) (buf s) (fired s ++ [e])).

(** An operation of the buffer. *)
Definition on_buf {A} (m : M B A) : M (dstate D B F) A := zoom buf with_buf m.
End State.

(** The pure virtual [decode(ChannelHandlerContext&, Channel&, const
    ChannelBufferPtr&)]; [None] is the empty message. *)
Class Decoding (D B F : Type) := {
  decode : M (dstate D B F) (option F);
}.

Section Loop.
Context {D B F : Type} {RB : RawBuffer B} {DC : Decoding D B F}.

(** The loop of [callDecode].  A decoder sends single frames, so that
    [unfoldAndFireMessageReceived] fires the frame itself. *)
Fixpoint decodeLoop (fuel : nat) : M (dstate D B F) unit :=
  match fuel with
  | O => throw Undefined
  | S fuel =>
      let! s := gets id in
      if negb (AbstractChannelBuffer.readable (buf s)) then ret tt
      else
        let oldReaderIndex := AbstractChannelBuffer.readerIndex (buf s) in
        let! frame := decode in
        let! s := gets id in
        match frame with
        | None =>
            if oldReaderIndex =? AbstractChannelBuffer.readerIndex (buf s) then ret tt
            else decodeLoop fuel
        | Some frame =>
            if oldReaderIndex =? AbstractChannelBuffer.readerIndex (buf s)
            then throw IllegalStateException
            else fire (MessageReceived frame) ;! decodeLoop fuel
        end
  end.

(** Every turn of the loop that does not end it takes bytes from the buffer. *)
Definition loopFuel (s : dstate D B F) : nat :=
  S (Z.to_nat (AbstractChannelBuffer.readableBytes (buf s))).

Definition callDecode {WB : WriteBuffer B} (channelOwnBuffer : bool) : M (dstate D B F) unit :=
  (fun s => decodeLoop (loopFuel s) s) ;!
  if channelOwnBuffer then on_buf Buffer.discardReadBytes else ret tt.
End Loop.

Section Receive.
Context {D C I F : Type} {RC : RawBuffer C} {WC : WriteBuffer C} {RI : RawBuffer I} {WI : WriteBuffer I}
  {DC : Decoding D C F} {DI : Decoding D I F}.
(** [ChannelBuffers::dynamicBuffer( *factory)]. *)
Context (dynamicBuffer : result C).

(** The handler: the decoder object with its cumulation buffer, and what was
    sent upstream. *)
Record handler := MkHandler {
  self : D;
  cumulation : option C;
  sent : list (event F);
}.

Definition getCumulation (h : handler) : result C :=
  match cumulation h with
  | Some c => Ok c
  | None => dynamicBuffer
  end.

(** [callDecode] on the cumulation and on the input buffer. *)
Definition decodeCumulation (own : bool) (h : handler) (c : C) : result unit * handler :=
  let '(r, s) := callDecode own (MkD (self h) c (sent h)) in
  (r, MkHandler (decoder s) (Some (buf s)) (fired s)).

Definition decodeInput (own : bool) (h : handler) (i : I) : result unit * (handler * I) :=
  let '(r, s) := callDecode own (MkD (self h) i (sent h)) in
  (r, (MkHandler (decoder s) (cumulation h) (fired s), buf s)).

(** [cumulation->writeBytes( *input)]. *)
Definition append (c : C) (i : I) : result unit * (C * I) := AbstractChannelBuffer.writeBytesFrom (c, i).

(** [messageReceived] of a buffer; the state is the handler and the input. *)
Definition messageReceived (channelOwnBuffer : bool) : M (handler * I) unit := fun '(h, input) =>
  if negb (AbstractChannelBuffer.readable input) then (Ok tt, (h, input))
  else if channelOwnBuffer then decodeInput true h input
  else
    match getCumulation h with
    | Err e => (Err e, (h, input))
    | Ok c =>
        let h := MkHandler (self h) (Some c) (sent h) in
        if AbstractChannelBuffer.readable c then
          match Buffer.discardReadBytes c with
          | (Err e, c) => (Err e, (MkHandler (self h) (Some c) (sent h), input))
          | (Ok _, c) =>
              match append c input with
              | (Err e, (c, input)) => (Err e, (MkHandler (self h) (Some c) (sent h), input))
              | (Ok _, (c, input)) =>
                  let '(r, h) := decodeCumulation false h c in (r, (h, input))
              end
          end
        else
          match decodeInput false h input with
          | (Err e, s) => (Err e, s)
          | (Ok _, (h, input)) =>
              if AbstractChannelBuffer.readable input then
                let '(r, (c, input)) := append c input in
                (r, (MkHandler (self h) (Some c) (sent h), input))
              else (Ok tt, (h, input))
          end
    end.

(** [cleanup], the body of [channelDisconnected] and [channelClosed]: the
    result tells whether the state event was passed on, which the code does
    when an exception ends the body only. *)
Definition cleanup (channelOwnBuffer : bool) (h : handler) : bool * handler :=
  match cumulation h with
  | None => (false, h)
  | Some c =>
      let '(r, s) :=
        ((let! s := gets id in
          if AbstractChannelBuffer.readable (buf s) then callDecode channelOwnBuffer else ret tt) ;!
         let! partialFrame := decode in
         match partialFrame with
         | Some frame => fire (MessageReceived frame)
         | None => ret tt
         end ;!
         on_buf AbstractChannelBuffer.clear) (MkD (self h) c (sent h)) in
      (negb (is_ok r), MkHandler (decoder s) (Some (buf s)) (fired s))
  end.

End Receive.
Arguments handler : clear implicits.
End FrameDecoder.

Import FrameDecoder.

(** ** FixedLengthFrameDecoder *)

Module FixedLengthFrameDecoder.

Record t := MkFixed { frameLength : Z }.

Definition new (frameLength : Z) : result t :=
  if frameLength <=? 0 then Err InvalidArgumentException else Ok (MkFixed frameLength).

Section Decode.
Context {B V : Type} {RB : RawBuffer B} {SB : SliceBuffer B V}.

#[global] Instance decode : Decoding t B V := {|
  FrameDecoder.decode :=
    let! s := gets id in
    let frameLength := frameLength (decoder s) in
    if AbstractChannelBuffer.readableBytes (buf s) <? frameLength then ret None
    else
      let! sub := reads (fun s =>
        slice (buf s) (AbstractChannelBuffer.readerIndex (buf s)) frameLength) in
      let! s := gets id in
      on_buf (AbstractChannelBuffer.setReaderIndex
        (i32 (AbstractChannelBuffer.readerIndex (buf s) + frameLength))) ;!
      ret (Some sub)
|}.
End Decode.
End FixedLengthFrameDecoder.

(** ** DelimiterBasedFrameDecoder *)

Module DelimiterBasedFrameDecoder.
Section Delimiter.
(** The class of the delimiters, slices of the buffers of the constructor. *)
Context {K : Type} {RK : RawBuffer K}.

Record t := MkDelimiter {
  delimiters : list K;
  maxFrameLength : Z;
  stripDelimiter : bool;
  discardingTooLongFrame : bool;
  tooLongFrameLength : Z;
}.

Definition with_discarding (b : bool) (n : Z) (d : t) : t :=
  MkDelimiter (delimiters d) (maxFrameLength d) (stripDelimiter d) b n.

Definition validateMaxFrameLength (maxFrameLength : Z) : result unit :=
  if maxFrameLength <=? 0 then Err InvalidArgumentException else Ok tt.

Definition validateDelimiter {P} {RP : RawBuffer P} (delimiter : P) : result unit :=
  if negb (AbstractChannelBuffer.readable delimiter) then Err InvalidArgumentException else Ok tt.

Fixpoint initdelimiters {P} {RP : RawBuffer P} {SP : SliceBuffer P K} (ds : list P) : result (list K) :=
  match ds with
  | [] => Ok []
  | d :: ds =>
      let? _ := validateDelimiter d in
      let? k := slice d (AbstractChannelBuffer.readerIndex d) (AbstractChannelBuffer.readableBytes d) in
      let? ks := initdelimiters ds in
      Ok (k :: ks)
  end.

(** [DelimiterBasedFrameDecoder(int, bool, const std::vector<ChannelBufferPtr>&)]. *)
Definition new {P} {RP : RawBuffer P} {SP : SliceBuffer P K}
    (maxFrameLength : Z) (stripDelimiter : bool) (delimiters : list P) : result t :=
  let? _ := validateMaxFrameLength maxFrameLength in
  if (length delimiters =? 0)%nat then Err InvalidArgumentException
  else
    let? ks := initdelimiters delimiters in
    Ok (MkDelimiter ks maxFrameLength stripDelimiter false 0).

(** [DelimiterBasedFrameDecoder(int, bool, const ChannelBufferPtr&)]. *)
Definition newOne {P} {RP : RawBuffer P} {SP : SliceBuffer P K}
    (maxFrameLength : Z) (stripDelimiter : bool) (delimiter : P) : result t :=
  let? _ := validateMaxFrameLength maxFrameLength in
  let? _ := validateDelimiter delimiter in
  let? k := slice delimiter (AbstractChannelBuffer.readerIndex delimiter)
    (AbstractChannelBuffer.readableBytes delimiter) in
  Ok (MkDelimiter [k] maxFrameLength stripDelimiter false 0).

Section IndexOf.
Context {B : Type} {RB : RawBuffer B}.

(** The loop over the needle: [None] when the code returns -1, otherwise the
    [needleIndex] at its end. *)
Fixpoint matchNeedle (n : nat) (haystack : B) (needle : K) (haystackIndex needleIndex : Z)
  : result (option Z) :=
  match n with
  | O => Ok (Some needleIndex)
  | S n =>
      let? x := getByte haystack haystackIndex in
      let? y := getByte needle needleIndex in
      if negb (x =? y) then Ok (Some needleIndex)
      else
        let haystackIndex := haystackIndex + 1 in
        if (haystackIndex =? AbstractChannelBuffer.writerIndex haystack)
           && negb (needleIndex =? capacity needle - 1)
        then Ok None
        else matchNeedle n haystack needle haystackIndex (needleIndex + 1)
  end.

Fixpoint indexOfLoop (n : nat) (haystack : B) (needle : K) (i : Z) : result Z :=
  match n with
  | O => Ok (-1)
  | S n =>
      let? r := matchNeedle (Z.to_nat (capacity needle)) haystack needle i 0 in
      match r with
      | None => Ok (-1)
      | Some needleIndex =>
          if needleIndex =? capacity needle
          then Ok (i32 (i - AbstractChannelBuffer.readerIndex haystack))
          else indexOfLoop n haystack needle (i + 1)
      end
  end.

Definition indexOf (haystack : B) (needle : K) : result Z :=
  indexOfLoop
    (Z.to_nat (AbstractChannelBuffer.writerIndex haystack - AbstractChannelBuffer.readerIndex haystack))
    haystack needle (AbstractChannelBuffer.readerIndex haystack).

(** The delimiter which yields the shortest frame. *)
Fixpoint minDelimiter (haystack : B) (ds : list K) (minFrameLength : Z) (minDelim : option K)
  : result (Z * option K) :=
  match ds with
  | [] => Ok (minFrameLength, minDelim)
  | d :: ds =>
      let? frameLength := indexOf haystack d in
      if (frameLength >=? 0) && (frameLength <? minFrameLength)
      then minDelimiter haystack ds frameLength (Some d)
      else minDelimiter haystack ds minFrameLength minDelim
  end.
End IndexOf.

Section Decode.
Context {B N : Type} {RB : RawBuffer B} {RN : RawBuffer N} {WN : WriteBuffer N}
  {FN : ChannelBufferFactory N}.
Abbreviation DM := (M (dstate t B N)).

Definition skip (n : Z) : DM unit := on_buf (AbstractChannelBuffer.skipBytes n).
Definition set_discarding (b : bool) (n : Z) : DM unit :=
  modify (fun s => with_decoder (with_discarding b n (decoder s)) s).

Definition decodeFrame (minFrameLength : Z) (minDelim : K) : DM (option N) :=
  let! s := gets id in
  let d := decoder s in
  let minDelimLength := capacity minDelim in
  if discardingTooLongFrame d then
    set_discarding false (tooLongFrameLength d) ;!
    skip (i32 (minFrameLength + minDelimLength)) ;!
    set_discarding false 0 ;!
    fire (ExceptionCaught (tooLongFrameLength d)) ;!
    ret None
  else if minFrameLength >? maxFrameLength d then
    skip (i32 (minFrameLength + minDelimLength)) ;!
    fire (ExceptionCaught minFrameLength) ;!
    ret None
  else if stripDelimiter d then
    let! frame := on_buf (AbstractChannelBuffer.readBytesLen minFrameLength) in
    skip minDelimLength ;!
    ret (Some frame)
  else
    let! frame := on_buf (AbstractChannelBuffer.readBytesLen (i32 (minFrameLength + minDelimLength))) in
    ret (Some frame).

Definition decodeNone : DM (option N) :=
  let! s := gets id in
  let d := decoder s in
  let n := AbstractChannelBuffer.readableBytes (buf s) in
  (if negb (discardingTooLongFrame d) then
     if n >? maxFrameLength d then
       set_discarding (discardingTooLongFrame d) n ;!
       skip n ;!
       set_discarding true n
     else ret tt
   else
     set_discarding (discardingTooLongFrame d) (i32 (tooLongFrameLength d + n)) ;!
     skip n) ;!
  ret None.

#[global] Instance decode : Decoding t B N := {|
  FrameDecoder.decode :=
    let! s := gets id in
    let! m := reads (fun s => minDelimiter (buf s) (delimiters (decoder s)) INT_MAX None) in
    match m with
    | (minFrameLength, Some minDelim) => decodeFrame minFrameLength minDelim
    | (_, None) => decodeNone
    end
|}.
End Decode.
End Delimiter.
Arguments t : clear implicits.
End DelimiterBasedFrameDecoder.

(** ** LengthFieldBasedFrameDecoder *)

Module LengthFieldBasedFrameDecoder.

Record t := MkLengthField {
  discardingTooLongFrame : bool;
  maxFrameLength : Z;
  lengthFieldOffset : Z;
  lengthFieldLength : Z;
  lengthFieldEndOffset : Z;
  lengthAdjustment : Z;
  initialBytesToStrip : Z;
  tooLongFrameLength : Z;
  bytesToDiscard : Z;
}.

Definition with_discarding (b : bool) (n k : Z) (d : t) : t :=
  MkLengthField b (maxFrameLength d) (lengthFieldOffset d) (lengthFieldLength d)
    (lengthFieldEndOffset d) (lengthAdjustment d) (initialBytesToStrip d) n k.

Definition validateParameters (d : t) : result unit :=
  if maxFrameLength d <=? 0 then Err InvalidArgumentException
  else if lengthFieldOffset d <? 0 then Err InvalidArgumentException
  else if initialBytesToStrip d <? 0 then Err InvalidArgumentException
  else if negb (lengthFieldLength d =? 1) && negb (lengthFieldLength d =? 2)
       && negb (lengthFieldLength d =? 3) && negb (lengthFieldLength d =? 4)
       && negb (lengthFieldLength d =? 8) then Err InvalidArgumentException
  else if lengthFieldOffset d >? i32 (maxFrameLength d - lengthFieldLength d)
       then Err InvalidArgumentException
  else Ok tt.

(** The constructor with all the parameters.  It does not initialise
    [tooLongFrameLength] and [bytesToDiscard]: their values are those of the
    memory, [mem1] and [mem2]. *)
Definition new (mem1 mem2 : Z) (maxFrameLength lengthFieldOffset lengthFieldLength lengthAdjustment
    initialBytesToStrip : Z) : result t :=
  let d := MkLengthField true maxFrameLength lengthFieldOffset lengthFieldLength
    (i32 (lengthFieldOffset + lengthFieldLength)) lengthAdjustment initialBytesToStrip mem1 mem2 in
  let? _ := validateParameters d in
  Ok d.

(** The constructor with three parameters. *)
Definition new3 (mem1 mem2 : Z) (maxFrameLength lengthFieldOffset lengthFieldLength : Z) : result t :=
  new mem1 mem2 maxFrameLength lengthFieldOffset lengthFieldLength 0 0.

(** [clone], through the copy constructor, which leaves the same members
    uninitialised. *)
Definition clone (mem1 mem2 : Z) (d : t) : t :=
  MkLengthField (discardingTooLongFrame d) (maxFrameLength d) (lengthFieldOffset d) (lengthFieldLength d)
    (lengthFieldEndOffset d) (lengthAdjustment d) (initialBytesToStrip d) mem1 mem2.

Section Decode.
Context {B N : Type} {RB : RawBuffer B} {RN : RawBuffer N} {WN : WriteBuffer N}.
(** [factory().getBuffer(length)]: a buffer in the default order of the
    factory. *)
Context (getDefaultBuffer : Z -> result N).
Abbreviation DM := (M (dstate t B N)).

Definition skip (n : Z) : DM unit := on_buf (AbstractChannelBuffer.skipBytes n).
Definition set_discarding (b : bool) (n k : Z) : DM unit :=
  modify (fun s => with_decoder (with_discarding b n k (decoder s)) s).

Definition extractFrame (index length : Z) : DM N := reads (fun s =>
  let? frame := getDefaultBuffer length in
  match Buffer.writeBytesBuffer (getBytes (buf s)) index length frame with
  | (Ok _, frame) => Ok frame
  | (Err e, _) => Err e
  end).

Definition discard : DM (option N) :=
  let! s := gets id in
  let d := decoder s in
  let localBytesToDiscard := Z.min (bytesToDiscard d) (AbstractChannelBuffer.readableBytes (buf s)) in
  skip localBytesToDiscard ;!
  let bytesToDiscard := i32 (bytesToDiscard d - localBytesToDiscard) in
  set_discarding (discardingTooLongFrame d) (tooLongFrameLength d) bytesToDiscard ;!
  if bytesToDiscard =? 0 then
    set_discarding (discardingTooLongFrame d) 0 bytesToDiscard ;!
    fire (ExceptionCaught (tooLongFrameLength d)) ;!
    ret None
  else ret None.

(** The value of the length field, converted to [int]. *)
Definition readLengthField (b : B) (lengthFieldLength index : Z) : result Z :=
  if lengthFieldLength =? 1 then AbstractChannelBuffer.getUnsignedByte b index
  else if lengthFieldLength =? 2 then AbstractChannelBuffer.getUnsignedShort b index
  else if lengthFieldLength =? 3 then getUnsignedMedium b index
  else if lengthFieldLength =? 4 then
    let? v := AbstractChannelBuffer.getUnsignedInt b index in Ok (i32 v)
  else if lengthFieldLength =? 8 then
    let? v := getLong b index in Ok (i32 v)
  else Err SystemException.

Definition decodeField : DM (option N) :=
  let! s := gets id in
  let d := decoder s in
  if AbstractChannelBuffer.readableBytes (buf s) <? lengthFieldEndOffset d then ret None
  else
    let actualLengthFieldOffset := i32 (AbstractChannelBuffer.readerIndex (buf s) + lengthFieldOffset d) in
    let! frameLength := reads (fun s =>
      readLengthField (buf s) (lengthFieldLength d) actualLengthFieldOffset) in
    if frameLength <? 0 then skip (lengthFieldEndOffset d) ;! throw CorruptedFrameException
    else
      let frameLength := i32 (frameLength + i32 (lengthAdjustment d + lengthFieldEndOffset d)) in
      if frameLength <? lengthFieldEndOffset d
      then skip (lengthFieldEndOffset d) ;! throw CorruptedFrameException
      else if frameLength >? maxFrameLength d then
        let n := AbstractChannelBuffer.readableBytes (buf s) in
        set_discarding true frameLength (i32 (frameLength - n)) ;!
        skip n ;!
        ret None
      else if AbstractChannelBuffer.readableBytes (buf s) <? frameLength then ret None
      else if initialBytesToStrip d >? frameLength
      then skip frameLength ;! throw CorruptedFrameException
      else
        skip (initialBytesToStrip d) ;!
        let! s := gets id in
        let readerIndex := AbstractChannelBuffer.readerIndex (buf s) in
        let actualFrameLength := i32 (frameLength - initialBytesToStrip d) in
        let! frame := extractFrame readerIndex actualFrameLength in
        on_buf (AbstractChannelBuffer.setReaderIndex (i32 (readerIndex + actualFrameLength))) ;!
        ret (Some frame).

Definition decode : Decoding t B N := {|
  FrameDecoder.decode :=
    let! s := gets id in
    if discardingTooLongFrame (decoder s) then discard else decodeField
|}.
End Decode.
End LengthFieldBasedFrameDecoder.

(** ** LengthFieldPrepender *)

Module LengthFieldPrepender.

Record t := MkPrepender {
  lengthFieldLength : Z;
  lengthIncludesLengthFieldLength : bool;
}.

Definition new (lengthFieldLength : Z) (includes : bool) : result t :=
  if negb (lengthFieldLength =? 1) && negb (lengthFieldLength =? 2) && negb (lengthFieldLength =? 3)
     && negb (lengthFieldLength =? 4) && negb (lengthFieldLength =? 8)
  then Err InvalidArgumentException
  else Ok (MkPrepender lengthFieldLength includes).

Section Encode.
Context {B H : Type} {RB : RawBuffer B} {RH : RawBuffer H} {WH : WriteBuffer H}
  {FH : ChannelBufferFactory H}.

(** The header the code wraps together with the body. *)
Definition encodeHeader (p : t) (body : B) : result H :=
  let? header := getBuffer (order body) (lengthFieldLength p) in
  let length := if lengthIncludesLengthFieldLength p
                then i32 (AbstractChannelBuffer.readableBytes body + lengthFieldLength p)
                else AbstractChannelBuffer.readableBytes body in
  let write (m : M H unit) : result H :=
    match m header with (Ok _, h) => Ok h | (Err e, _) => Err e end in
  if lengthFieldLength p =? 1 then
    if length >=? 256 then Err InvalidArgumentException else write (Buffer.writeByte length)
  else if lengthFieldLength p =? 2 then
    if length >=? 65536 then Err InvalidArgumentException else write (Buffer.writeShort length)
  else if lengthFieldLength p =? 3 then
    if length >=? 16777216 then Err InvalidArgumentException else write (Buffer.writeMedium length)
  else if lengthFieldLength p =? 4 then write (Buffer.writeInt length)
  else if lengthFieldLength p =? 8 then write (Buffer.writeLong length)
  else Err RuntimeException.

(** The message that goes downstream: the header and the body, wrapped. *)
Definition encode (p : t) (body : B) : result (H * B) :=
  let? header := encodeHeader p body in Ok (header, body).

End Encode.
End LengthFieldPrepender.

(** ** Delimiters *)

Module Delimiters.
Section Delims.
Context {N : Type} {RN : RawBuffer N} {WN : WriteBuffer N} {FN : ChannelBufferFactory N}.

Definition write_all (n : Z) (bytes : list Z) : result N :=
  let? b := getBuffer BYTE_ORDER_BIG n in
  match fold_right (fun v m => Buffer.writeByte v ;! m) (ret tt) bytes b with
  | (Ok _, b) => Ok b
  | (Err e, _) => Err e
  end.

Definition nulDelimiter : result (list N) :=
  let? tmp := write_all 1 [0] in Ok [tmp].

Definition lineDelimiter : result (list N) :=
  let? cr := write_all 2 [13; 10] in
  let? lf := write_all 1 [10] in
  Ok [cr; lf].
End Delims.
End Delimiters.

(** ** What a decoder does to the stream *)

Inductive spec_event :=
  | SFrame (bytes : list Z)
  | STooLong (n : Z).

(** One call of [decode] on the readable bytes [q]: the next state, what is
    reported, the frame if there is one, and the number of bytes taken. *)
Record outcome (D : Type) := MkOutcome {
  next_state : D;
  reported : list spec_event;
  frame_of : option (list Z);
  taken : Z;
}.
Arguments MkOutcome {D} _ _ _ _.
Arguments next_state {D} _.
Arguments reported {D} _.
Arguments frame_of {D} _.
Arguments taken {D} _.

Section Spec.

Class DecoderSpec (D F : Type) := {
  frame_bytes : F -> list Z;
  decoder_ok : D -> Prop;
  next : D -> list Z -> outcome D;
  next_taken d q : decoder_ok d -> 0 <= taken (next d q) <= zlen q;
  next_frame d q l : decoder_ok d -> frame_of (next d q) = Some l -> 0 < taken (next d q);
  next_wait d q : decoder_ok d -> q <> [] -> taken (next d q) = 0 ->
    next_state (next d q) = d /\ reported (next d q) = [];
  next_ok d q : decoder_ok d -> decoder_ok (next_state (next d q));
}.

Definition event_bytes {D F} `{DS : DecoderSpec D F} (e : event F) : spec_event :=
  match e with
  | MessageReceived f => SFrame (frame_bytes f)
  | ExceptionCaught n => STooLong n
  end.

(** [decode] on buffers of class [B] does what [next] says. *)
Class DecodesAs (D B F : Type) {RB : RawBuffer B} {RS : ReadSpec B} {DC : Decoding D B F}
    {DS : DecoderSpec D F} := {
  decode_next d (b : B) l : decoder_ok d -> wf b -> queue b <> [] ->
    exists fr evs, decode (MkD d b l)
      = (Ok fr, MkD (next_state (next d (queue b))) (consume (taken (next d (queue b))) b) (l ++ evs)) /\
    map event_bytes evs = reported (next d (queue b)) /\
    option_map frame_bytes fr = frame_of (next d (queue b));
}.

(** The decode loop on a byte sequence: what is sent upstream, the state, and
    the bytes left. *)
Fixpoint run {D F} `{DS : DecoderSpec D F} (fuel : nat) (d : D) (q : list Z)
  : list spec_event * D * list Z :=
  match fuel, q with
  | O, _ | _, [] => ([], d, q)
  | S fuel, _ =>
      let o := next d q in
      let head := reported o ++ match frame_of o with Some l => [SFrame l] | None => [] end in
      if taken o =? 0 then (head, next_state o, q)
      else
        let '(evs, d', q') := run fuel (next_state o) (drop (Z.to_nat (taken o)) q) in
        (head ++ evs, d', q')
  end.

Context {D F : Type} {DS : DecoderSpec D F}.

(** Enough fuel is enough. *)
Lemma run_fuel fuel1 fuel2 d q :
  decoder_ok d -> (length q < fuel1)%nat -> (length q < fuel2)%nat -> run fuel1 d q = run fuel2 d q.
Proof.
  revert fuel2 d q. induction fuel1 as [|fuel1 IH]; intros fuel2 d q Hd H1 H2; [lia|].
  destruct fuel2 as [|fuel2]; [lia|]. cbn [run]. destruct q as [|x q]; [reflexivity|].
  pose proof (next_taken d (x :: q) Hd) as Ht. destruct (taken _ =? 0) eqn:E; [reflexivity|]. zbool.
  rewrite (IH fuel2); [reflexivity | apply next_ok, Hd | |];
    rewrite length_drop; unfold zlen in *; cbn in *; lia.
Qed.

Definition runAll (d : D) (q : list Z) := run (S (length q)) d q.

Lemma runAll_cons d q :
  decoder_ok d -> q <> [] ->
  runAll d q =
    let o := next d q in
    let head := reported o ++ match frame_of o with Some l => [SFrame l] | None => [] end in
    if taken o =? 0 then (head, next_state o, q)
    else
      let '(evs, d', q') := runAll (next_state o) (drop (Z.to_nat (taken o)) q) in
      (head ++ evs, d', q').
Proof.
  intros Hd Hq. unfold runAll at 1. destruct q as [|x q]; [congruence|]. cbn [run].
  destruct (taken _ =? 0) eqn:E; [reflexivity|]. zbool.
  pose proof (next_taken d (x :: q) Hd) as Ht.
  unfold runAll. rewrite (run_fuel _ (S (length (drop (Z.to_nat (taken (next d (x :: q)))) (x :: q)))));
    [reflexivity | apply next_ok, Hd | |]; rewrite length_drop; unfold zlen in *; cbn in *; lia.
Qed.

Lemma runAll_nil d : runAll d [] = ([], d, []).
Proof. reflexivity. Qed.

(** ** The loop of callDecode *)

Context {B : Type} {RB : RawBuffer B} {RS : ReadSpec B} {DC : Decoding D B F} {DA : DecodesAs D B F}.

Lemma readable_queue (b : B) : wf b -> AbstractChannelBuffer.readable b = negb (zlen (queue b) =? 0).
Proof.
  intros H. unfold AbstractChannelBuffer.readable. rewrite readableBytes_queue by exact H.
  pose proof (zlen_nonneg (queue b)). destruct (zlen (queue b) =? 0) eqn:E; zbool; cbn.
  - rewrite E. reflexivity.
  - rewrite Z.gtb_ltb. apply Z.ltb_lt. lia.
Qed.

Lemma consume_readerIndex k (b : B) :
  AbstractChannelBuffer.readerIndex (consume k b) = AbstractChannelBuffer.readerIndex b + k.
Proof. unfold consume. rewrite readerIndex_put. reflexivity. Qed.

Lemma decodeLoop_run fuel d (b : B) l :
  decoder_ok d -> wf b -> (length (queue b) < fuel)%nat ->
  exists b' evs, decodeLoop fuel (MkD d b l)
    = (Ok tt, MkD (snd (fst (runAll d (queue b)))) b' (l ++ evs)) /\
    map event_bytes evs = fst (fst (runAll d (queue b))) /\
    wf b' /\ queue b' = snd (runAll d (queue b)) /\ decoder_ok (snd (fst (runAll d (queue b)))) /\
    order b' = order b /\ content b' = content b /\
    AbstractChannelBuffer.writerIndex b' = AbstractChannelBuffer.writerIndex b.
Proof.
  revert d b l. induction fuel as [|fuel IH]; intros d b l Hd H Hf; [lia|].
  cbn [decodeLoop]. mstep. unfold id. cbn [buf]. rewrite readable_queue by exact H.
  destruct (zlen (queue b) =? 0) eqn:E0; cbn [negb]; zbool.
  { apply zlen_0 in E0. rewrite E0, runAll_nil. exists b, []. rewrite app_nil_r. auto 9. }
  assert (queue b <> []) as Hq by (intros Heq; rewrite Heq in E0; apply E0; reflexivity).
  destruct (decode_next d b l Hd H Hq) as (fr & evs & Ed & He & Hfr).
  rewrite (bind_ok _ _ _ _ _ Ed), bind_gets. unfold id. cbn [buf].
  rewrite consume_readerIndex, (runAll_cons d _ Hd Hq).
  set (o := next d (queue b)) in *. cbv zeta.
  pose proof (next_taken d (queue b) Hd : 0 <= taken o <= _) as Ht.
  assert ((AbstractChannelBuffer.readerIndex b =? AbstractChannelBuffer.readerIndex b + taken o)
    = (taken o =? 0)) as -> by (destruct (Z.eqb_spec (taken o) 0); [apply Z.eqb_eq | apply Z.eqb_neq]; lia).
  pose proof (next_ok d (queue b) Hd : decoder_ok (next_state o)) as Hok.
  destruct (taken o =? 0) eqn:Et; zbool.
  - destruct fr as [f|].
    { exfalso. cbn in Hfr. symmetry in Hfr. pose proof (next_frame d (queue b) _ Hd Hfr) as Hpos.
      fold o in Hpos. lia. }
    cbn in Hfr. rewrite <- Hfr, app_nil_r. cbn [fst snd]. exists (consume (taken o) b), evs.
    split; [reflexivity|]. split; [exact He|].
    split; [apply consume_wf; [exact H | lia]|]. rewrite consume_queue, Et by (exact H || lia).
    split; [reflexivity|]. split; [exact Hok|]. unfold consume. rewrite order_put, content_put, writerIndex_put. auto.
  - assert (wf (consume (taken o) b)) as Hw by (apply consume_wf; [exact H | lia]).
    assert (queue (consume (taken o) b) = drop (Z.to_nat (taken o)) (queue b)) as Hqc
      by (apply consume_queue; [exact H | lia]).
    assert (length (queue (consume (taken o) b)) < fuel)%nat as Hfl.
    { rewrite Hqc, length_drop. unfold zlen in Ht. lia. }
    set (l' := match fr with Some f => (l ++ evs) ++ [MessageReceived f] | None => l ++ evs end).
    destruct (IH (next_state o) (consume (taken o) b) l' Hok Hw Hfl)
      as (b' & evs' & El & He' & Hw' & Hq' & Hok' & Ho' & Hc' & Hwi').
    rewrite Hqc in El, He', Hq', Hok'. destruct (runAll (next_state o) _) as [[evs2 d2] q2] eqn:Er.
    cbn [fst snd] in *.
    exists b', (evs ++ match fr with Some f => [MessageReceived f] | None => [] end ++ evs').
    split; [|split; [|split; [exact Hw' | split; [exact Hq' | split; [exact Hok'|]]]]].
    + unfold l' in El. destruct fr as [f|]; cbn [app]; rewrite (app_assoc l evs); [|exact El].
      unfold fire. rewrite bind_modify. cbn [decoder buf fired].
      rewrite <- (app_assoc (l ++ evs)) in El. exact El.
    + rewrite !map_app, He, He', <- app_assoc. do 2 f_equal. rewrite <- Hfr. destruct fr; reflexivity.
    + rewrite Ho', Hc', Hwi'. unfold consume. rewrite order_put, content_put, writerIndex_put. auto.
Qed.

End Spec.

(** ** Segmentation

    A decoder is stable on a stream when the bytes that follow do not change
    what it does with the bytes it has. *)
Class StableDecoder (D F : Type) `{DS : DecoderSpec D F} := {
  stable : D -> list Z -> Prop;
  stable_more d q x : decoder_ok d -> stable d (q ++ x) -> q <> [] -> taken (next d q) <> 0 ->
    next d (q ++ x) = next d q;
  stable_next d q : decoder_ok d -> stable d q -> taken (next d q) <> 0 ->
    stable (next_state (next d q)) (drop (Z.to_nat (taken (next d q))) q);
}.

Section Segments.
Context {D F : Type} {DS : DecoderSpec D F} {SD : StableDecoder D F}.

(** A run on two segments is a run on the first, and then one on what it left
    and the second. *)
Lemma runAll_app (d : D) q x :
  decoder_ok d -> stable d (q ++ x) ->
  stable (snd (fst (runAll d q))) (snd (runAll d q) ++ x) /\
  runAll d (q ++ x) =
    let '(e1, d1, q1) := runAll d q in
    let '(e2, d2, q2) := runAll d1 (q1 ++ x) in (e1 ++ e2, d2, q2).
Proof.
  remember (length q) as n eqn:Hn. revert d q Hn.
  induction (lt_wf n) as [n _ IH]. intros d q -> Hd Hs.
  destruct (decide (q = [])) as [->|Hq].
  { rewrite runAll_nil. cbn [app fst snd]. split; [exact Hs|]. destruct (runAll d x) as [[e d'] q']. reflexivity. }
  rewrite (runAll_cons d q Hd Hq). set (o := next d q). cbv zeta.
  destruct (taken o =? 0) eqn:E; zbool.
  - destruct (next_wait d q Hd Hq E) as [Hst Hrep]. fold o in Hst, Hrep. rewrite Hst, Hrep.
    destruct (frame_of o) as [l|] eqn:Ef.
    { pose proof (next_frame d q l Hd Ef) as Hpos. fold o in Hpos. lia. }
    cbn [app fst snd]. split; [exact Hs|]. destruct (runAll d (q ++ x)) as [[e d'] q']. reflexivity.
  - pose proof (next_taken d q Hd : 0 <= taken o <= _) as Ht. pose proof (next_ok d q Hd) as Hok.
    assert (drop (Z.to_nat (taken o)) (q ++ x) = drop (Z.to_nat (taken o)) q ++ x) as Hdrop
      by (apply drop_app_le; unfold zlen in Ht; lia).
    pose proof (stable_more d q x Hd Hs Hq E) as Hmore. fold o in Hmore.
    pose proof (stable_next d (q ++ x) Hd Hs) as Hnext. rewrite Hmore, Hdrop in Hnext.
    assert (length (drop (Z.to_nat (taken o)) q) < length q)%nat as Hl
      by (rewrite length_drop; unfold zlen in Ht; lia).
    specialize (IH _ Hl _ _ eq_refl Hok (Hnext E)) as [IHs IHr]. fold o in IHs, IHr.
    rewrite (runAll_cons d (q ++ x) Hd) by (intros Heq; apply app_eq_nil in Heq as [? _]; contradiction).
    rewrite Hmore. cbv zeta. rewrite (proj2 (Z.eqb_neq _ _) E), Hdrop, IHr.
    destruct (runAll (next_state o) (drop (Z.to_nat (taken o)) q)) as [[e1 d1] q1].
    cbn [fst snd] in *. split; [exact IHs|].
    destruct (runAll d1 (q1 ++ x)) as [[e2 d2] q2]. rewrite app_assoc. reflexivity.
Qed.

End Segments.

(** ** messageReceived and sequences of messages *)

Section Receiving.
Context {D F : Type} {DS : DecoderSpec D F}.
Context {C : Type} {RC : RawBuffer C} {RSC : ReadSpec C} {WC : WriteBuffer C} {QC : QueueSpec C}
  {DC : Decoding D C F} {DAC : DecodesAs D C F}.
Context {I : Type} {RI : RawBuffer I} {RSI : ReadSpec I} {WI : WriteBuffer I}
  {DI : Decoding D I F} {DAI : DecodesAs D I F}.
Context (dynamicBuffer : result C).
Abbreviation handler := (FrameDecoder.handler D C F).

(** The bytes the handler holds back. *)
Definition pending (h : handler) : list Z :=
  match cumulation h with Some c => queue c | None => [] end.

(** The cumulation buffer can take [n] more bytes. *)
Definition room (h : handler) (n : Z) : Prop :=
  exists c, getCumulation dynamicBuffer h = Ok c /\ AbstractChannelBuffer.writerIndex c + n <= limit c.

(** The new buffers of the factory are empty. *)
Definition fresh_cumulation : Prop :=
  exists c, dynamicBuffer = Ok c /\ wf c /\ queue c = [].

(** The handler between two messages: what it holds back is not a frame yet. *)
Record handler_ok (h : handler) : Prop := {
  ok_decoder : decoder_ok (self h);
  ok_cumulation c : cumulation h = Some c -> wf c;
  ok_settled : runAll (self h) (pending h) = ([], self h, pending h);
}.

(** The stream semantics of a handler. *)
Definition stream (h : handler) (q : list Z) := runAll (self h) (pending h ++ q).

(** [h'] is the handler after it received [q]. *)
Record received (h : handler) (q : list Z) (h' : handler) : Prop := {
  rcv_ok : handler_ok h';
  rcv_sent : exists evs, sent h' = sent h ++ evs /\ map event_bytes evs = fst (fst (stream h q));
  rcv_self : self h' = snd (fst (stream h q));
  rcv_pending : pending h' = snd (stream h q);
  rcv_room n : 0 <= n -> room h (zlen q + n) -> room h' n;
}.

Lemma runAll_ok (d : D) q : decoder_ok d -> decoder_ok (snd (fst (runAll d q))).
Proof.
  remember (length q) as n eqn:Hn. revert d q Hn.
  induction (lt_wf n) as [n _ IH]. intros d q -> Hd.
  destruct (decide (q = [])) as [->|Hq]; [exact Hd|].
  rewrite (runAll_cons d q Hd Hq). set (o := next d q). cbv zeta.
  pose proof (next_ok d q Hd : decoder_ok (next_state o)) as Hok.
  destruct (taken o =? 0) eqn:E; zbool; cbn [fst snd]; [exact Hok|].
  pose proof (next_taken d q Hd : 0 <= taken o <= _) as Ht.
  specialize (IH (length (drop (Z.to_nat (taken o)) q))).
  specialize (IH ltac:(rewrite length_drop; unfold zlen in Ht; lia) _ _ eq_refl Hok).
  destruct (runAll (next_state o) _) as [[evs d2] q2]. exact IH.
Qed.

(** A run ends in a state in which the bytes left are not a frame. *)
Lemma runAll_settled (d : D) q :
  decoder_ok d -> runAll (snd (fst (runAll d q))) (snd (runAll d q))
    = ([], snd (fst (runAll d q)), snd (runAll d q)).
Proof.
  remember (length q) as n eqn:Hn. revert d q Hn.
  induction (lt_wf n) as [n _ IH]. intros d q -> Hd.
  destruct (decide (q = [])) as [->|Hq]; [reflexivity|].
  rewrite (runAll_cons d q Hd Hq). set (o := next d q). cbv zeta.
  destruct (taken o =? 0) eqn:E; zbool; cbn [fst snd].
  - destruct (next_wait d q Hd Hq E) as [Hs Hr]. fold o in Hs, Hr. rewrite Hs, (runAll_cons d q Hd Hq).
    fold o. cbv zeta. rewrite (proj2 (Z.eqb_eq _ _) E), Hr, Hs.
    destruct (frame_of o) as [l|] eqn:Ef; [|reflexivity].
    pose proof (next_frame d q l Hd Ef). fold o in H. lia.
  - pose proof (next_taken d q Hd : 0 <= taken o <= _) as Ht.
    specialize (IH (length (drop (Z.to_nat (taken o)) q))).
    specialize (IH ltac:(rewrite length_drop; unfold zlen in Ht; lia) _ _ eq_refl (next_ok d q Hd)).
    fold o in IH. destruct (runAll (next_state o) _) as [[evs d2] q2]. exact IH.
Qed.

Lemma queue_nil (b : I) : wf b -> AbstractChannelBuffer.readable b = false -> queue b = [].
Proof.
  intros H. rewrite readable_queue by exact H. intros E. apply zlen_0.
  destruct (zlen (queue b) =? 0) eqn:E0; zbool; [exact E0 | discriminate].
Qed.

(** [cumulation->writeBytes( *input)]. *)
Lemma append_spec (c : C) (i : I) :
  wf c -> wf i -> AbstractChannelBuffer.writerIndex c + zlen (queue i) <= limit c ->
  exists c' i', append c i = (Ok tt, (c', i')) /\ appended c (queue i) c' /\ wf i'.
Proof.
  intros Hc Hi Hl. pose proof (zlen_nonneg (queue i)) as Hz. pose proof (zlen_queue i Hi) as Hq.
  pose proof Hi as [Hv [Hr Hw]]. pose proof (content_max i Hv) as Hm.
  unfold append, AbstractChannelBuffer.writeBytesFrom, AbstractChannelBuffer.writeBytesFromLen. mstep.
  unfold id. cbn [fst snd]. rewrite readableBytes_queue, Z.gtb_ltb, Z.ltb_irrefl by exact Hi.
  destruct (writeBytesBuffer_queue c (getBytes i) (content i) (AbstractChannelBuffer.readerIndex i)
    (zlen (queue i)) Hc) as (c' & E & Ha);
    [apply content_i8, Hv | apply getBytes_law, Hv | unfold in_range; lia | exact Hl |].
  assert (zsub (content i) (AbstractChannelBuffer.readerIndex i) (zlen (queue i)) = queue i) as Es
    by (rewrite Hq; reflexivity).
  rewrite Es in Ha. unfold bind at 1, zoom at 1. cbn [fst snd]. rewrite E. mstep. cbn [fst snd].
  assert (AbstractChannelBuffer.setReaderIndex
    (i32 (AbstractChannelBuffer.readerIndex i + zlen (queue i))) i = (Ok tt, consume (zlen (queue i)) i)) as E2.
  { rewrite i32_id by solve_range. apply setReaderIndex_consume; [exact Hi | lia]. }
  unfold zoom. cbn [fst snd]. rewrite E2. exists c', (consume (zlen (queue i)) i).
  split; [reflexivity|]. split; [exact Ha|]. apply consume_wf; [exact Hi | lia].
Qed.

(** The two ways [callDecode] is used. *)
Lemma decodeCumulation_spec (h : handler) (c : C) :
  decoder_ok (self h) -> wf c ->
  exists c' evs, decodeCumulation false h c
    = (Ok tt, MkHandler (snd (fst (runAll (self h) (queue c)))) (Some c') (sent h ++ evs)) /\
    map event_bytes evs = fst (fst (runAll (self h) (queue c))) /\ wf c' /\
    queue c' = snd (runAll (self h) (queue c)) /\ decoder_ok (snd (fst (runAll (self h) (queue c)))) /\
    content c' = content c /\ AbstractChannelBuffer.writerIndex c' = AbstractChannelBuffer.writerIndex c.
Proof.
  intros Hd Hc. unfold decodeCumulation, callDecode, bind at 1, loopFuel. cbn [buf].
  destruct (decodeLoop_run (S (Z.to_nat (AbstractChannelBuffer.readableBytes c))) (self h) c (sent h) Hd Hc)
    as (c' & evs & E & He & Hw & Hq & Hok & Ho & Hct & Hwi).
  { rewrite readableBytes_queue by exact Hc. unfold zlen. lia. }
  rewrite E. cbn [ret decoder buf fired]. exists c', evs. auto 9.
Qed.

Lemma decodeInput_spec (h : handler) (i : I) :
  decoder_ok (self h) -> wf i ->
  exists i' evs, decodeInput false h i
    = (Ok tt, (MkHandler (snd (fst (runAll (self h) (queue i)))) (cumulation h) (sent h ++ evs), i')) /\
    map event_bytes evs = fst (fst (runAll (self h) (queue i))) /\ wf i' /\
    queue i' = snd (runAll (self h) (queue i)) /\ decoder_ok (snd (fst (runAll (self h) (queue i)))).
Proof.
  intros Hd Hi. unfold decodeInput, callDecode, bind at 1, loopFuel. cbn [buf].
  destruct (decodeLoop_run (S (Z.to_nat (AbstractChannelBuffer.readableBytes i))) (self h) i (sent h) Hd Hi)
    as (i' & evs & E & He & Hw & Hq & Hok & _).
  { rewrite readableBytes_queue by exact Hi. unfold zlen. lia. }
  rewrite E. cbn [ret decoder buf fired]. exists i', evs. auto 9.
Qed.

(** The bytes left are a suffix. *)
Lemma runAll_left (d : D) q : decoder_ok d -> zlen (snd (runAll d q)) <= zlen q.
Proof.
  remember (length q) as n eqn:Hn. revert d q Hn.
  induction (lt_wf n) as [n _ IH]. intros d q -> Hd.
  destruct (decide (q = [])) as [->|Hq]; [reflexivity|].
  rewrite (runAll_cons d q Hd Hq). set (o := next d q). cbv zeta.
  destruct (taken o =? 0) eqn:E; zbool; cbn [snd]; [lia|].
  pose proof (next_taken d q Hd : 0 <= taken o <= _) as Ht.
  assert (length (drop (Z.to_nat (taken o)) q) < length q)%nat as Hl
    by (rewrite length_drop; unfold zlen in Ht; lia).
  specialize (IH _ Hl _ _ eq_refl (next_ok d q Hd)). fold o in IH.
  destruct (runAll (next_state o) _) as [[evs d2] q2]. cbn [snd] in *. unfold zlen in *. lia.
Qed.

(** The new buffers of the factory are empty. *)
Context (fresh : forall c, dynamicBuffer = Ok c -> wf c /\ queue c = []).

Lemma cumulation_ok (h : handler) c :
  handler_ok h -> getCumulation dynamicBuffer h = Ok c -> wf c /\ queue c = pending h.
Proof.
  unfold getCumulation, pending. intros Hh. destruct (cumulation h) as [c0|] eqn:E.
  - intros [= <-]. split; [exact (ok_cumulation _ Hh c0 E) | reflexivity].
  - intros Hc. exact (fresh c Hc).
Qed.

(** The message is appended to the bytes held back, and decoded. *)
Lemma received_cumulation (h : handler) (c c1 : C) q :
  handler_ok h -> getCumulation dynamicBuffer h = Ok c -> wf c1 ->
  queue c1 = pending h ++ q -> limit c <= limit c1 ->
  AbstractChannelBuffer.writerIndex c1 <= AbstractChannelBuffer.writerIndex c + zlen q ->
  exists h', decodeCumulation false (MkHandler (self h) (Some c) (sent h)) c1 = (Ok tt, h') /\
    received h q h'.
Proof.
  intros Hh Hg Hc1 Hq1 Hl1 Hw1.
  destruct (decodeCumulation_spec (MkHandler (self h) (Some c) (sent h)) c1 (ok_decoder _ Hh) Hc1)
    as (c2 & evs & E & He & Hc2 & Hq2 & Hok & Hct & Hwi).
  cbn [self sent] in *. rewrite Hq1 in *. fold (stream h q) in *.
  eexists. split; [exact E|]. split; cbn [self cumulation sent]; try reflexivity.
  - split; unfold pending; cbn [self cumulation]; [exact Hok | intros ? [= <-]; exact Hc2 |].
    rewrite Hq2. apply runAll_settled, (ok_decoder _ Hh).
  - exists evs. split; [reflexivity | exact He].
  - exact Hq2.
  - intros n Hn (c' & Hg' & Hr). rewrite Hg in Hg'. injection Hg' as <-.
    exists c2. split; [reflexivity|]. rewrite Hwi.
    assert (limit c1 <= limit c2) by (apply limit_mono; rewrite Hct; reflexivity). lia.
Qed.

Lemma discardReadBytes_writerIndex (c c1 : C) :
  wf c -> wf c1 -> queue c1 = queue c -> AbstractChannelBuffer.readerIndex c1 = 0 ->
  AbstractChannelBuffer.writerIndex c1 <= AbstractChannelBuffer.writerIndex c.
Proof.
  intros H H1 Hq Hr. pose proof (zlen_queue c H). pose proof (zlen_queue c1 H1).
  destruct H as [_ [? _]]. rewrite Hq in *. lia.
Qed.

Lemma received_nil (h : handler) : handler_ok h -> received h [] h.
Proof.
  intros Hh. assert (stream h [] = ([], self h, pending h)) as Hs
    by (unfold stream; rewrite app_nil_r; apply (ok_settled _ Hh)).
  split; rewrite ?Hs; [exact Hh | exists []; rewrite app_nil_r; auto | reflexivity | reflexivity |].
  intros n Hn Hr. exact Hr.
Qed.

(** The bytes held back are decoded with the message. *)
Lemma messageReceived_readable (h : handler) c (i : I) :
  handler_ok h -> getCumulation dynamicBuffer h = Ok c -> wf i ->
  AbstractChannelBuffer.readable i = true -> AbstractChannelBuffer.readable c = true ->
  AbstractChannelBuffer.writerIndex c + zlen (queue i) <= limit c ->
  exists h' i', messageReceived dynamicBuffer false (h, i) = (Ok tt, (h', i')) /\ received h (queue i) h'.
Proof.
  intros Hh Hg Hi Ei Ec Hl. destruct (cumulation_ok h c Hh Hg) as [Hc Hqc].
  destruct (discardReadBytes_queue c Hc) as (c1 & E1 & Hc1 & Hq1 & Hr1 & _ & Hl1).
  pose proof (discardReadBytes_writerIndex c c1 Hc Hc1 Hq1 Hr1) as Hw1.
  destruct (append_spec c1 i Hc1 Hi) as (c2 & i2 & E2 & Ha & Hi2); [lia|].
  destruct (received_cumulation h c c2 (queue i) Hh Hg (appended_wf _ _ _ Ha)) as (h' & E3 & Hrcv).
  - rewrite (appended_queue _ _ _ Ha), Hq1, Hqc. reflexivity.
  - pose proof (limit_appended _ _ _ Ha). lia.
  - rewrite (appended_writerIndex _ _ _ Hc1 Ha). lia.
  - exists h', i2. split; [|exact Hrcv].
    unfold messageReceived. rewrite Ei, Hg, Ec. cbn [negb]. rewrite E1, E2. cbn [self sent].
    rewrite E3. reflexivity.
Qed.

(** Nothing is held back: the message is decoded, and what is left of it is
    held back. *)
Lemma messageReceived_unreadable (h : handler) c (i : I) :
  handler_ok h -> getCumulation dynamicBuffer h = Ok c -> wf i ->
  AbstractChannelBuffer.readable i = true -> AbstractChannelBuffer.readable c = false ->
  AbstractChannelBuffer.writerIndex c + zlen (queue i) <= limit c ->
  exists h' i', messageReceived dynamicBuffer false (h, i) = (Ok tt, (h', i')) /\ received h (queue i) h'.
Proof.
  intros Hh Hg Hi Ei Ec Hl. destruct (cumulation_ok h c Hh Hg) as [Hc Hqc].
  assert (queue c = []) as Hnil.
  { apply zlen_0. rewrite readable_queue in Ec by exact Hc. zbool. exact Ec. }
  rewrite Hnil in Hqc.
  destruct (decodeInput_spec (MkHandler (self h) (Some c) (sent h)) i (ok_decoder _ Hh) Hi)
    as (i1 & evs & E & He & Hi1 & Hq1 & Hok).
  cbn [self sent cumulation] in *. pose proof (runAll_left (self h) (queue i) (ok_decoder _ Hh)) as Hle.
  pose proof (runAll_settled (self h) (queue i) (ok_decoder _ Hh)) as Hset.
  assert (stream h (queue i) = runAll (self h) (queue i)) as Hs by (unfold stream; rewrite <- Hqc; reflexivity).
  unfold messageReceived. rewrite Ei, Hg, Ec. cbn [negb]. cbn [self sent]. rewrite E.
  destruct (AbstractChannelBuffer.readable i1) eqn:E1.
  - destruct (append_spec c i1 Hc Hi1) as (c2 & i2 & E2 & Ha & Hi2); [rewrite Hq1; lia|].
    rewrite E2. eexists _, _. split; [reflexivity|].
    assert (queue c2 = snd (runAll (self h) (queue i))) as Hq2
      by (rewrite (appended_queue _ _ _ Ha), Hnil, Hq1; reflexivity).
    split; unfold pending; cbn [self cumulation sent]; rewrite ?Hs; try reflexivity.
    + split; unfold pending; cbn [self cumulation]; [exact Hok | intros ? [= <-]; apply Ha |].
      rewrite Hq2. exact Hset.
    + exists evs. split; [reflexivity | exact He].
    + exact Hq2.
    + intros n Hn (c' & Hg' & Hr). rewrite Hg in Hg'. injection Hg' as <-.
      exists c2. split; [reflexivity|]. rewrite (appended_writerIndex _ _ _ Hc Ha), Hq1.
      pose proof (limit_appended _ _ _ Ha). lia.
  - pose proof (queue_nil i1 Hi1 E1) as Hn1. rewrite Hq1 in Hn1.
    eexists _, _. split; [reflexivity|].
    split; unfold pending; cbn [self cumulation sent]; rewrite ?Hs; try reflexivity.
    + split; unfold pending; cbn [self cumulation]; [exact Hok | intros ? [= <-]; exact Hc |].
      rewrite Hnil, <- Hn1. exact Hset.
    + exists evs. split; [reflexivity | exact He].
    + rewrite Hnil, Hn1. reflexivity.
    + intros n Hn (c' & Hg' & Hr). rewrite Hg in Hg'. injection Hg' as <-.
      exists c. split; [reflexivity|]. pose proof (zlen_nonneg (queue i)). lia.
Qed.

(** [messageReceived] on every message. *)
Lemma messageReceived_spec (h : handler) (i : I) :
  handler_ok h -> wf i -> room h (zlen (queue i)) ->
  exists h' i', messageReceived dynamicBuffer false (h, i) = (Ok tt, (h', i')) /\ received h (queue i) h'.
Proof.
  intros Hh Hi (c & Hg & Hl). destruct (AbstractChannelBuffer.readable i) eqn:Ei.
  - destruct (AbstractChannelBuffer.readable c) eqn:Ec;
      [eapply messageReceived_readable | eapply messageReceived_unreadable]; eassumption.
  - unfold messageReceived. rewrite Ei. exists h, i. split; [reflexivity|].
    rewrite (queue_nil i Hi Ei). apply received_nil, Hh.
Qed.

(** The messages of a connection, one after the other. *)
Fixpoint receiveAll (messages : list I) (h : handler) : result unit * handler :=
  match messages with
  | [] => (Ok tt, h)
  | i :: messages =>
      match messageReceived dynamicBuffer false (h, i) with
      | (Ok _, (h, _)) => receiveAll messages h
      | (Err e, (h, _)) => (Err e, h)
      end
  end.

Lemma received_app {SD : StableDecoder D F} (h h1 h2 : handler) q x :
  handler_ok h -> stable (self h) (pending h ++ q ++ x) ->
  received h q h1 -> received h1 x h2 ->
  received h (q ++ x) h2.
Proof.
  intros Hh Hs H1 H2.
  pose proof (runAll_app (self h) (pending h ++ q) x (ok_decoder _ Hh)) as Happ.
  rewrite <- app_assoc in Happ. destruct (Happ Hs) as [_ Hrun].
  fold (stream h q) in Hrun. fold (stream h (q ++ x)) in Hrun.
  pose proof (rcv_self _ _ _ H1) as Hs1. pose proof (rcv_pending _ _ _ H1) as Hp1.
  destruct (rcv_sent _ _ _ H1) as (e1 & Hsent1 & He1).
  destruct (rcv_sent _ _ _ H2) as (e2 & Hsent2 & He2).
  destruct (stream h q) as [[ev1 d1] q1]. cbn [fst snd] in *. subst d1 q1.
  fold (stream h1 x) in Hrun.
  pose proof (rcv_self _ _ _ H2) as Hs2. pose proof (rcv_pending _ _ _ H2) as Hp2.
  destruct (stream h1 x) as [[ev2 d2] q2]. cbn [fst snd] in *. subst d2 q2.
  split; rewrite ?Hrun; cbn [fst snd]; try reflexivity; [exact (rcv_ok _ _ _ H2) | |].
  - exists (e1 ++ e2). rewrite Hsent2, Hsent1, map_app, He1, He2, app_assoc. auto.
  - intros n Hn Hr. apply (rcv_room _ _ _ H2); [exact Hn|]. apply (rcv_room _ _ _ H1).
    + pose proof (zlen_nonneg x). lia.
    + rewrite zlen_app in Hr. replace (zlen q + (zlen x + n)) with (zlen q + zlen x + n) by lia. exact Hr.
Qed.

Lemma receiveAll_spec {SD : StableDecoder D F} (messages : list I) (h : handler) :
  handler_ok h -> Forall wf messages -> room h (zlen (concat (map queue messages))) ->
  stable (self h) (pending h ++ concat (map queue messages)) ->
  exists h', receiveAll messages h = (Ok tt, h') /\ received h (concat (map queue messages)) h'.
Proof.
  revert h. induction messages as [|i messages IH]; intros h Hh Hw Hr Hs; cbn [map concat receiveAll] in *.
  { exists h. split; [reflexivity|]. apply received_nil, Hh. }
  inversion Hw as [|? ? Hi Hms]; subst. rewrite zlen_app in Hr.
  pose proof (zlen_nonneg (concat (map queue messages))) as Hz.
  assert (room h (zlen (queue i))) as Hri by (destruct Hr as (c & ? & ?); exists c; split; [assumption|lia]).
  destruct (messageReceived_spec h i Hh Hi Hri) as (h1 & i1 & E1 & H1). rewrite E1.
  pose proof (runAll_app (self h) (pending h ++ queue i) (concat (map queue messages)) (ok_decoder _ Hh)) as Happ.
  rewrite <- app_assoc in Happ. destruct (Happ Hs) as [Hst _]. fold (stream h (queue i)) in Hst.
  rewrite <- (rcv_self _ _ _ H1), <- (rcv_pending _ _ _ H1) in Hst.
  destruct (IH h1 (rcv_ok _ _ _ H1) Hms) as (h2 & E2 & H2); [|exact Hst|].
  - apply (rcv_room _ _ _ H1); [exact Hz | exact Hr].
  - exists h2. split; [exact E2|]. exact (received_app h h1 h2 _ _ Hh Hs H1 H2).
Qed.

End Receiving.
