(* ===== verification/FrameProperties.v ===== *)
(** * What the frame decoders and encoders do

    The decoders of [FrameDecoders] as instances of [DecoderSpec]: which frames
    they report for a stream, whatever segments the stream arrives in; what the
    length-field codec does; the close of a connection. *)

From S2P Require Import Prelude MachineInt Buffer AbstractBuffer BufferTheory.
From S2P Require Import HeapBuffer DynamicBuffer BufferUtil DerivedBuffers FrameDecoders.
Import FrameDecoder.

(** ** FixedLengthFrameDecoder *)

(** What [slice] of a non-empty region promises: a view with the bytes of the
    region. *)
Class SliceSpec (B V : Type) (view_bytes : V -> list Z) `{RS : ReadSpec B} {SB : SliceBuffer B V} := {
  slice_law b i n : wf b -> in_range (zlen (content b)) i n -> 0 < n ->
    exists v, slice b i n = Ok v /\ view_bytes v = zsub (content b) i n;
}.

Section FixedLength.
Context {V : Type} (view_bytes : V -> list Z).

Definition fixed_next (d : FixedLengthFrameDecoder.t) (q : list Z) : outcome FixedLengthFrameDecoder.t :=
  let n := FixedLengthFrameDecoder.frameLength d in
  if zlen q <? n then MkOutcome d [] None 0
  else MkOutcome d [] (Some (zsub q 0 n)) n.

#[local] Instance FixedSpec : DecoderSpec FixedLengthFrameDecoder.t V.
Proof.
  refine {| frame_bytes := view_bytes; next := fixed_next;
    decoder_ok d := 0 < FixedLengthFrameDecoder.frameLength d <= INT_MAX |};
    intros d q; intros; unfold fixed_next in *; destruct (zlen q <? _) eqn:E; zbool; cbn in *;
    try (pose proof (zlen_nonneg q)); first [lia | discriminate | auto].
Defined.

#[local] Instance FixedStable : StableDecoder FixedLengthFrameDecoder.t V.
Proof.
  refine {| stable _ _ := True |}; [|auto].
  intros d q x Hd _ Hq Ht. cbn in *. unfold fixed_next in *.
  destruct (zlen q <? FixedLengthFrameDecoder.frameLength d) eqn:E; [contradiction|].
  rewrite zlen_app. pose proof (zlen_nonneg x). zbool. zif.
  do 2 f_equal. unfold zsub. change (Z.to_nat 0) with 0%nat. rewrite !drop_0.
  apply take_app_le. unfold zlen in *. lia.
Defined.

Context {B : Type} {RB : RawBuffer B} {RS : ReadSpec B} {SB : SliceBuffer B V}
  {SS : SliceSpec B V view_bytes}.

#[local] Instance FixedDecodes : DecodesAs FixedLengthFrameDecoder.t B V.
Proof.
  split. intros d b l Hd H Hq. pose proof H as [Hv [Hr Hw]]. pose proof (content_max b Hv) as Hm.
  pose proof (zlen_queue b H) as Hz. cbn in Hd. cbn. unfold fixed_next. mstep. unfold id. cbn [decoder buf].
  rewrite readableBytes_queue by exact H.
  destruct (zlen (queue b) <? FixedLengthFrameDecoder.frameLength d) eqn:E; zbool.
  - exists None, []. cbn. rewrite app_nil_r. split; [|auto]. unfold ret. do 2 f_equal.
    rewrite consume_0. reflexivity.
  - mstep. cbn [buf].
    destruct (slice_law b (AbstractChannelBuffer.readerIndex b) (FixedLengthFrameDecoder.frameLength d) H)
      as (v & Ev & Hb); [unfold in_range; lia | lia |].
    rewrite Ev. mstep. unfold id. cbn [buf decoder].
    exists (Some v), []. rewrite app_nil_r. split; [|split; [reflexivity|]].
    + rewrite i32_id by solve_range. unfold on_buf, bind at 1, zoom. cbn [buf].
      rewrite setReaderIndex_consume by (exact H || lia). reflexivity.
    + cbn. f_equal. rewrite Hb. unfold queue. rewrite zsub_zsub by lia. f_equal. lia.
Qed.
End FixedLength.

(** ** Searching bytes *)

Fixpoint starts (k l : list Z) : bool :=
  match k, l with
  | [], _ => true
  | y :: k, x :: l => (x =? y) && starts k l
  | _ :: _, [] => false
  end.

(** The position of the first occurrence of [k] in [l]. *)
Fixpoint find_sub (k l : list Z) : option Z :=
  if starts k l then Some 0
  else match l with
       | [] => None
       | _ :: l => option_map Z.succ (find_sub k l)
       end.

Section FindSub.
Implicit Types k l : list Z.

Lemma find_sub_cons k x l :
  find_sub k (x :: l) = if starts k (x :: l) then Some 0 else option_map Z.succ (find_sub k l).
Proof. reflexivity. Qed.

Lemma starts_length k l : starts k l = true -> (length k <= length l)%nat.
Proof.
  revert l. induction k as [|y k IH]; intros [|x l]; cbn; try (discriminate || lia).
  intros H. apply andb_true_iff in H as [_ H]. specialize (IH l H). lia.
Qed.

Lemma starts_app k l x : starts k l = true -> starts k (l ++ x) = true.
Proof.
  revert l. induction k as [|y k IH]; intros [|z l]; cbn; try (discriminate || reflexivity).
  intros H. apply andb_true_iff in H as [-> H]. exact (IH l H).
Qed.

Lemma starts_app_inv k l x : starts k (l ++ x) = true -> (length k <= length l)%nat -> starts k l = true.
Proof.
  revert l. induction k as [|y k IH]; intros [|z l]; cbn; try (lia || reflexivity).
  intros H Hl. apply andb_true_iff in H as [-> H]. cbn. apply (IH l H). lia.
Qed.

Lemma starts_refl k x : starts k (k ++ x) = true.
Proof. induction k as [|y k IH]; [destruct x; reflexivity|]. cbn. rewrite Z.eqb_refl. exact IH. Qed.

Lemma find_short k l : (length l < length k)%nat -> find_sub k l = None.
Proof.
  induction l as [|x l IH]; intros Hl; cbn [find_sub].
  - destruct (starts k []) eqn:E; [|reflexivity]. apply starts_length in E. lia.
  - destruct (starts k (x :: l)) eqn:E; [apply starts_length in E; lia|].
    cbn in Hl. rewrite IH by lia. reflexivity.
Qed.

Lemma find_range k l m : find_sub k l = Some m -> 0 <= m /\ m + zlen k <= zlen l.
Proof.
  revert m. induction l as [|x l IH]; intros m; cbn [find_sub].
  - destruct (starts k []) eqn:E; [|discriminate]. apply starts_length in E. intros [= <-].
    unfold zlen. lia.
  - destruct (starts k (x :: l)) eqn:E.
    { apply starts_length in E. intros [= <-]. unfold zlen. lia. }
    destruct (find_sub k l) as [m'|]; [|discriminate]. intros [= <-].
    specialize (IH m' eq_refl). rewrite zlen_cons. lia.
Qed.

(** Bytes that follow do not move the first occurrence. *)
Lemma find_app k l m x : find_sub k l = Some m -> find_sub k (l ++ x) = Some m.
Proof.
  revert m. induction l as [|z l IH]; intros m; [cbn [find_sub app]|rewrite <- app_comm_cons, !find_sub_cons].
  - destruct (starts k []) eqn:E; [|discriminate]. intros [= <-].
    apply (starts_app _ _ x) in E. cbn [app] in E. destruct x; cbn [find_sub]; rewrite E; reflexivity.
  - destruct (starts k (z :: l)) eqn:E.
    { apply (starts_app _ _ x) in E. cbn [app] in E. rewrite E. auto. }
    destruct (find_sub k l) as [m'|] eqn:Ef; [|discriminate]. intros [= <-].
    rewrite (IH m' eq_refl). destruct (starts k (z :: l ++ x)) eqn:E2; [|reflexivity].
    pose proof (find_range _ _ _ Ef) as Hr. rewrite app_comm_cons in E2.
    apply starts_app_inv in E2; [congruence | unfold zlen in *; cbn; lia].
Qed.

End FindSub.

(** ** DelimiterBasedFrameDecoder *)

Section IndexOf.
Import DelimiterBasedFrameDecoder.
Context {B : Type} {RB : RawBuffer B} {RS : ReadSpec B}.
Context {K : Type} {RK : RawBuffer K} {RSK : ReadSpec K}.

Lemma getByte_content (k : K) j : valid k -> 0 <= j < zlen (content k) ->
  getByte k j = Ok (znth 0 (content k) j).
Proof.
  intros H Hj. pose proof (content_max k H) as Hm. rewrite getByte_law by (exact H || solve_range).
  unfold signed_at. rewrite bytes_at_ok by (unfold in_range; lia). cbn [rbind].
  rewrite (zsub_1 0) by exact Hj. f_equal. apply decode_1, znth_i8; [apply content_i8, H | exact Hj].
Qed.

Lemma drop_znth (l : list Z) i : 0 <= i < zlen l ->
  drop (Z.to_nat i) l = znth 0 l i :: drop (Z.to_nat (i + 1)) l.
Proof.
  intros Hi. destruct (lookup_lt_is_Some_2 l (Z.to_nat i)) as [x Hx]; [unfold zlen in Hi; lia|].
  rewrite (drop_S _ _ _ Hx). unfold znth. rewrite nth_lookup, Hx. cbn. f_equal. f_equal. lia.
Qed.

Lemma matchNeedle_spec n (b : B) (k : K) i j :
  wf b -> valid k -> 0 <= i -> 0 <= j <= zlen (content k) -> n = length (drop (Z.to_nat j) (content k)) ->
  i < zlen (queue b) \/ n = O ->
  exists r, matchNeedle n b k (AbstractChannelBuffer.readerIndex b + i) j = Ok r /\
    match r with
    | None => (length (drop (Z.to_nat i) (queue b)) < n)%nat
    | Some m => (m =? capacity k) = starts (drop (Z.to_nat j) (content k)) (drop (Z.to_nat i) (queue b))
    end.
Proof.
  intros H Hk. pose proof (zlen_queue b H) as Hz. pose proof (capacity_content k Hk) as Hc.
  revert i j. induction n as [|n IH]; intros i j Hi Hj Hn Hor; cbn [matchNeedle].
  - exists (Some j). split; [reflexivity|]. symmetry in Hn. apply nil_length_inv in Hn. rewrite Hn. cbn.
    apply (f_equal length) in Hn. rewrite length_drop in Hn. cbn in Hn. unfold zlen in *.
    rewrite Hc. apply Z.eqb_eq. lia.
  - assert (j < zlen (content k)) as Hjl by (rewrite length_drop in Hn; unfold zlen; lia).
    destruct Hor as [Hil|Hor]; [|discriminate Hor].
    rewrite getByte_queue by (exact H || lia). cbn [rbind]. rewrite getByte_content by (exact Hk || lia).
    cbn [rbind]. rewrite (drop_znth (content k) j), (drop_znth (queue b) i) by lia.
    cbn [starts]. set (x := znth 0 (queue b) i). set (y := znth 0 (content k) j).
    assert (n = length (drop (Z.to_nat (j + 1)) (content k))) as Hn'.
    { rewrite length_drop in *. lia. }
    destruct (x =? y) eqn:E; cbn [negb].
    2:{ exists (Some j). split; [reflexivity|]. cbn. apply Z.eqb_neq. lia. }
    cbn [andb]. destruct (_ && _)%bool eqn:Et.
    + exists None. split; [reflexivity|]. zbool. cbn.
      rewrite length_drop in *. unfold zlen in *. lia.
    + destruct (IH (i + 1) (j + 1)) as (r & Er & Hr); [lia .. | exact Hn' | |].
      { apply andb_false_iff in Et as [Et|Et]; zbool; [left; lia | right]. rewrite Hn', length_drop. unfold zlen in *. lia. }
      rewrite Z.add_assoc in Er. exists r. split; [exact Er|]. destruct r; [exact Hr | cbn; lia].
Qed.

Lemma indexOfLoop_spec n (b : B) (k : K) i :
  wf b -> valid k -> content k <> [] -> 0 <= i -> n = length (drop (Z.to_nat i) (queue b)) ->
  indexOfLoop n b k (AbstractChannelBuffer.readerIndex b + i)
  = Ok (match find_sub (content k) (drop (Z.to_nat i) (queue b)) with Some m => i + m | None => -1 end).
Proof.
  intros H Hk Hne. pose proof (zlen_queue b H) as Hz. pose proof (capacity_content k Hk) as Hc.
  pose proof (content_max k Hk) as Hm. pose proof H as [Hv [Hr Hw]]. pose proof (content_max b Hv) as Hm'.
  pose proof (zlen_nonneg (content k)) as Hzk.
  revert i. induction n as [|n IH]; intros i Hi Hn; cbn [indexOfLoop].
  - symmetry in Hn. apply nil_length_inv in Hn. rewrite Hn. cbn. destruct (content k); [congruence | reflexivity].
  - assert (i < zlen (queue b)) as Hil by (rewrite length_drop in Hn; unfold zlen; lia).
    destruct (matchNeedle_spec (Z.to_nat (capacity k)) b k i 0 H Hk Hi) as (r & Er & Hrs); [lia | | lia |].
    { change (Z.to_nat 0) with 0%nat. rewrite Hc, drop_0. unfold zlen. lia. }
    rewrite Er. cbn [rbind]. change (Z.to_nat 0) with 0%nat in Hrs. rewrite drop_0 in Hrs. destruct r as [m|].
    + rewrite Hrs, (drop_znth (queue b) i) by lia. rewrite find_sub_cons.
      case (starts _ _).
      * rewrite i32_id by solve_range. f_equal. lia.
      * rewrite <- Z.add_assoc, IH; [|lia | rewrite ?length_drop in *; lia]. f_equal.
        destruct (find_sub _ _); cbn; [lia | reflexivity].
    + rewrite find_short; [reflexivity|]. rewrite Hc in Hrs. unfold zlen in Hrs. lia.
Qed.

(** [indexOf] is the search for the first occurrence. *)
Lemma indexOf_find (b : B) (k : K) :
  wf b -> valid k -> content k <> [] ->
  indexOf b k = Ok (match find_sub (content k) (queue b) with Some m => m | None => -1 end).
Proof.
  intros H Hk Hne. unfold indexOf.
  pose proof (indexOfLoop_spec (length (queue b)) b k 0 H Hk Hne) as Hs.
  rewrite Z.add_0_r in Hs. pose proof (zlen_queue b H) as Hz. unfold zlen in Hz.
  replace (Z.to_nat (AbstractChannelBuffer.writerIndex b - AbstractChannelBuffer.readerIndex b))
    with (length (queue b)) by lia.
  rewrite Hs by (reflexivity || lia). change (Z.to_nat 0) with 0%nat. rewrite drop_0. reflexivity.
Qed.

End IndexOf.

Section DelimiterSpec.
Import DelimiterBasedFrameDecoder.
Context {K : Type} {RK : RawBuffer K} {RSK : ReadSpec K}.
Abbreviation dec := (DelimiterBasedFrameDecoder.t K).

(** The delimiter that yields the shortest frame: the length of the frame and
    of the delimiter. *)
Fixpoint earliest (ds : list (list Z)) (q : list Z) (m : Z) (found : option Z) : Z * option Z :=
  match ds with
  | [] => (m, found)
  | k :: ds =>
      match find_sub k q with
      | Some f => if f <? m then earliest ds q f (Some (zlen k)) else earliest ds q m found
      | None => earliest ds q m found
      end
  end.

Definition delims (d : dec) : list (list Z) := map content (delimiters d).

Definition delimiter_ok (d : dec) : Prop :=
  Forall (fun k => valid k /\ content k <> []) (delimiters d) /\ stripDelimiter d = true /\
  0 <= maxFrameLength d.

Definition delimiter_next (d : dec) (q : list Z) : outcome dec :=
  match earliest (delims d) q INT_MAX None with
  | (m, Some n) =>
      if discardingTooLongFrame d
      then MkOutcome (with_discarding false 0 d) [STooLong (tooLongFrameLength d)] None (m + n)
      else if maxFrameLength d <? m then MkOutcome d [STooLong m] None (m + n)
      else MkOutcome d [] (Some (zsub q 0 m)) (m + n)
  | (_, None) =>
      if discardingTooLongFrame d
      then MkOutcome (with_discarding true (i32 (tooLongFrameLength d + zlen q)) d) [] None (zlen q)
      else if maxFrameLength d <? zlen q
      then MkOutcome (with_discarding true (zlen q) d) [] None (zlen q)
      else MkOutcome d [] None 0
  end.

Lemma earliest_range ds q m found m' n' :
  Forall (fun k => k <> []) ds ->
  match found with Some n => 0 <= m /\ 0 < n /\ m + n <= zlen q | None => True end ->
  earliest ds q m found = (m', Some n') -> 0 <= m' /\ 0 < n' /\ m' + n' <= zlen q.
Proof.
  revert m found. induction ds as [|k ds IH]; intros m found Hf H; cbn [earliest].
  { intros [= -> ->]. exact H. }
  inversion Hf as [|? ? Hk Hds]; subst.
  destruct (find_sub k q) as [f|] eqn:Ef; [|apply IH; assumption].
  destruct (f <? m); [|apply IH; assumption].
  apply IH; [exact Hds|]. apply find_range in Ef.
  assert (0 < zlen k) by (destruct k; [congruence | rewrite zlen_cons; pose proof (zlen_nonneg k); lia]). lia.
Qed.

Lemma delims_nonempty (d : dec) : delimiter_ok d -> Forall (fun k => k <> []) (delims d).
Proof. intros [H _]. apply Forall_map. revert H. apply Forall_impl. intros k [_ Hk]. exact Hk. Qed.

Lemma delimiter_ok_with d b n : delimiter_ok d -> delimiter_ok (with_discarding b n d).
Proof. intros H. exact H. Qed.

Section Spec.
Context {N : Type} {RN : RawBuffer N} {RSN : ReadSpec N}.

#[local] Instance DelimiterSpec : DecoderSpec dec N.
Proof.
  refine {| frame_bytes := queue; next := delimiter_next; decoder_ok := delimiter_ok |};
    intros d q; intros; unfold delimiter_next in *;
    pose proof (zlen_nonneg q) as Hq;
    destruct (earliest (delims d) q INT_MAX None) as [m [n|]] eqn:E;
    try (eapply earliest_range in E; [|apply delims_nonempty; assumption | exact I]);
    destruct (discardingTooLongFrame d) eqn:Ed;
    try destruct (maxFrameLength d <? _) eqn:Em; zbool; cbn in *; try discriminate; try lia; auto.
  all: exfalso; destruct q; [congruence|]; rewrite zlen_cons in *; pose proof (zlen_nonneg q); lia.
Defined.
End Spec.

(** *** decode implements it *)

Definition same_delim (md : option K) (found : option Z) : Prop :=
  match md, found with
  | None, None => True
  | Some k, Some n => capacity k = n
  | _, _ => False
  end.

Lemma minDelimiter_spec {B} {RB : RawBuffer B} {RS : ReadSpec B} (b : B) ds m md found :
  wf b -> Forall (fun k => valid k /\ content k <> []) ds -> same_delim md found ->
  exists md', minDelimiter b ds m md = Ok (fst (earliest (map content ds) (queue b) m found), md') /\
    same_delim md' (snd (earliest (map content ds) (queue b) m found)).
Proof.
  intros H. revert m md found. induction ds as [|k ds IH]; intros m md found Hf Hs; cbn [minDelimiter map earliest].
  { exists md. auto. }
  inversion Hf as [|? ? [Hk Hne] Hds]; subst.
  rewrite (indexOf_find b k H Hk Hne). cbn [rbind].
  destruct (find_sub (content k) (queue b)) as [f|] eqn:Ef.
  - apply find_range in Ef. assert ((f >=? 0) = true) as -> by (rewrite Z.geb_leb; apply Z.leb_le; lia).
    cbn [andb]. destruct (f <? m); apply IH; try assumption. apply capacity_content, Hk.
  - change (-1 >=? 0) with false. cbn [andb]. apply IH; assumption.
Qed.

Section Decodes.
Context {B : Type} {RB : RawBuffer B} {RS : ReadSpec B}.
Context {N : Type} {RN : RawBuffer N} {RSN : ReadSpec N} {WN : WriteBuffer N}
  {QN : QueueSpec N} {FN : ChannelBufferFactory N} {FSN : FactorySpec N}.
#[local] Existing Instance DelimiterSpec.
Import AbstractChannelBuffer (readerIndex, writerIndex, readBytesLen, upd).

(** [readBytes(int)] empties a buffer by moving both indexes to 0. *)
Lemma readBytesLen_spec (b : B) n : wf b -> 0 <= n <= zlen (queue b) ->
  exists f b', readBytesLen (N := N) n b = (Ok f, b') /\ (wf f /\ queue f = zsub (queue b) 0 n) /\
    (n < zlen (queue b) -> b' = consume n b) /\
    (0 < n -> n = zlen (queue b) -> readerIndex b' = 0).
Proof.
  intros H Hn. pose proof H as [Hv [Hr Hw]]. pose proof (content_max b Hv) as Hm.
  pose proof (zlen_queue b H) as Hz. unfold readBytesLen.
  destruct (0 =? n) eqn:E0; zbool.
  { subst n. exists EMPTY_BUFFER, b. rewrite consume_0. split; [reflexivity|].
    split; [apply EMPTY_BUFFER_empty | auto with lia]. }
  erewrite bind_ok by (rewrite checkReadableBytes_spec by exact H; zif; reflexivity).
  mstep. unfold id.
  destruct (getBuffer_fresh (N := N) (order b) n) as (f & Ef & Hf & Hqf & Hrf & Hof & Hcf); [lia|].
  rewrite Ef. mstep.
  pose proof (zlen_queue f Hf) as Hzf. rewrite Hqf in Hzf. change (zlen []) with 0 in Hzf.
  destruct (writeBytesBuffer_queue f (getBytes b) (content b) (readerIndex b) n Hf)
    as (f' & Ew & Ha); [apply content_i8, Hv | apply getBytes_law, Hv | unfold in_range; lia | |].
  { pose proof (limit_capacity f Hf). lia. }
  rewrite Ew. erewrite bind_ok by (apply advance_spec; [exact H | lia]). mstep. unfold id.
  assert (readerIndex (consume n b) = readerIndex b + n) as Er by apply consume_readerIndex.
  assert (writerIndex (consume n b) = writerIndex b) as Ewr by (unfold consume; apply writerIndex_put).
  assert (queue f' = zsub (queue b) 0 n) as Hqf'.
  { rewrite (appended_queue _ _ _ Ha), Hqf. cbn [app]. unfold queue. rewrite zsub_zsub by lia. f_equal. lia. }
  rewrite Er, Ewr. destruct (_ =? _) eqn:E; zbool; unfold upd; mstep;
    (eexists f', _; split; [reflexivity|]; split; [exact (conj (appended_wf _ _ _ Ha) Hqf')|]; split; intros; try lia; try reflexivity).
  unfold readerIndex at 1. rewrite indexes_put. reflexivity.
Qed.

(** [skipBytes] inside of [decode]. *)
Lemma skip_consume {A} (d : dec) (b : B) (l : list (event N)) n (f : unit -> M (dstate dec B N) A) :
  wf b -> 0 <= n <= zlen (queue b) ->
  bind (skip n) f (MkD d b l) = f tt (MkD d (consume n b) l).
Proof.
  intros H Hn. pose proof (zlen_queue b H) as Hz. pose proof H as [Hv [Hr Hw]].
  pose proof (content_max b Hv) as Hm. apply bind_ok. unfold skip, on_buf, zoom. cbn [buf].
  rewrite skipBytes_spec by (exact H || lia). zif. reflexivity.
Qed.

Lemma decodeNone_next (d : dec) (b : B) l :
  delimiter_ok d -> wf b -> zlen (queue b) <> 0 ->
  snd (earliest (delims d) (queue b) INT_MAX None) = None ->
  let o := delimiter_next d (queue b) in
  decodeNone (N := N) (MkD d b l) = (Ok None, MkD (next_state o) (consume (taken o) b) l) /\
  reported o = [] /\ frame_of o = None.
Proof.
  intros Hd H Hq He o. subst o. unfold delimiter_next.
  destruct (earliest _ _ _ _) as [m found]. cbn in He. subst found.
  pose proof (zlen_nonneg (queue b)) as Hz.
  unfold decodeNone. mstep. unfold id. cbn [decoder buf].
  rewrite readableBytes_queue by exact H. rewrite Z.gtb_ltb.
  destruct (discardingTooLongFrame d) eqn:Ed; cbn [negb].
  - unfold set_discarding at 1. mstep. unfold with_decoder at 1. cbn [decoder buf fired].
    rewrite skip_consume by (exact H || lia). cbn. auto.
  - destruct (maxFrameLength d <? zlen (queue b)) eqn:Em; zbool; cbn [next_state taken reported frame_of].
    + unfold set_discarding at 1. mstep. unfold with_decoder at 1. cbn [decoder buf fired].
      rewrite skip_consume by (exact H || lia). auto.
    + rewrite bind_ret_l, consume_0. auto.
Qed.

Lemma decodeFrame_next (d : dec) (b : B) l m k :
  delimiter_ok d -> wf b -> 0 <= m -> 0 < capacity k -> m + capacity k <= zlen (queue b) ->
  earliest (delims d) (queue b) INT_MAX None = (m, Some (capacity k)) ->
  let o := delimiter_next d (queue b) in
  exists fr evs, decodeFrame (N := N) m k (MkD d b l)
    = (Ok fr, MkD (next_state o) (consume (taken o) b) (l ++ evs)) /\
    map event_bytes evs = reported o /\ option_map queue fr = frame_of o.
Proof.
  intros Hd H Hm Hk Hl He o. subst o. unfold delimiter_next. rewrite He.
  pose proof H as [Hv [Hr Hw]]. pose proof (content_max b Hv) as Hmax. pose proof (zlen_queue b H) as Hz.
  unfold decodeFrame. mstep. unfold id. cbn [decoder]. rewrite i32_id by solve_range.
  destruct (discardingTooLongFrame d) eqn:Ed.
  - unfold set_discarding at 1. mstep. unfold with_decoder at 1. cbn [decoder buf fired].
    rewrite skip_consume by (exact H || lia). exists None, [ExceptionCaught (tooLongFrameLength d)].
    split; [reflexivity | auto].
  - rewrite Z.gtb_ltb. destruct (maxFrameLength d <? m) eqn:Em; cbn [next_state taken reported frame_of].
    + rewrite skip_consume by (exact H || lia). exists None, [ExceptionCaught m]. split; [reflexivity | auto].
    + destruct Hd as (_ & -> & _).
      destruct (readBytesLen_spec b m H) as (f & b' & Ef & [_ Hf] & Hb & _); [lia|].
      rewrite Hb in Ef by lia.
      erewrite bind_ok by (unfold on_buf, zoom; cbn [buf]; rewrite Ef; reflexivity). unfold with_buf. cbn [decoder fired].
      rewrite skip_consume.
      2:{ apply consume_wf; [exact H | lia]. }
      2:{ rewrite consume_queue by (exact H || lia). unfold zlen in *. rewrite length_drop. lia. }
      exists (Some f), []. rewrite consume_consume, app_nil_r. split; [reflexivity|].
      split; [reflexivity|]. cbn. rewrite Hf. reflexivity.
Qed.

#[local] Instance DelimiterDecodes : DecodesAs dec B N.
Proof.
  split. intros d b l Hd H Hq.
  pose proof (zlen_nonneg (queue b)) as Hz0.
  assert (zlen (queue b) <> 0) as Hq0 by (intros E; apply Hq, zlen_0, E).
  destruct Hd as [Hds Hd'] eqn:EHd. clear EHd.
  destruct (minDelimiter_spec b (delimiters d) INT_MAX None None H Hds I) as (md & Em & Hs).
  fold (delims d) in Em, Hs. cbn [FrameDecoder.decode DelimiterBasedFrameDecoder.decode].
  mstep. cbn [buf decoder]. rewrite Em.
  pose proof (delims_nonempty d (conj Hds Hd')) as Hne.
  destruct (earliest (delims d) (queue b) INT_MAX None) as [m found] eqn:E. cbn [fst snd] in *.
  destruct md as [k|], found as [n|]; try contradiction; cbn in Hs.
  - subst n. pose proof (earliest_range _ _ _ None _ _ Hne I E) as (R1 & R2 & R3).
    destruct (decodeFrame_next d b l m k (conj Hds Hd') H R1 R2 R3 E) as (fr & evs & Ef & He & Hf).
    exists fr, evs. split; [exact Ef | split; [exact He | exact Hf]].
  - pose proof (decodeNone_next d b l (conj Hds Hd') H Hq0) as Hn. rewrite E in Hn.
    destruct (Hn eq_refl) as (En & Hr & Hf).
    exists None, []. rewrite app_nil_r. split; [exact En | split; [symmetry; exact Hr | symmetry; exact Hf]].
Qed.

(** With [stripDelimiter] off, a frame whose delimiter is the end of the
    buffer is never reported when the buffer is read from its start: [readBytes]
    moves the reader index back to 0, and [callDecode] takes that for a decoder
    that has read nothing and throws IllegalStateException. *)
Theorem unstripped_frame_throws (d : dec) (k f : list Z) (b : B) (l : list (event N)) (fuel : nat) :
  Forall (fun k => valid k /\ content k <> []) (delimiters d) -> delims d = [k] ->
  stripDelimiter d = false -> discardingTooLongFrame d = false ->
  wf b -> readerIndex b = 0 -> queue b = f ++ k -> find_sub k (f ++ k) = Some (zlen f) ->
  zlen f <= maxFrameLength d ->
  fst (decodeLoop (S fuel) (MkD d b l)) = Err IllegalStateException.
Proof.
  intros Hds Hk Hstrip Hdis H Hr0 Hq Hfind Hlen. pose proof H as [Hv [Hr Hw]].
  pose proof (content_max b Hv) as Hmax. pose proof (zlen_queue b H) as Hz.
  assert (0 < zlen k) as Hkz.
  { assert (Forall (fun k => k <> []) (delims d)) as Hne
      by (apply Forall_map; revert Hds; apply Forall_impl; intros ? [_ ?]; assumption).
    rewrite Hk in Hne. inversion Hne as [|? ? Hne' _]. destruct k; [congruence|].
    rewrite zlen_cons. pose proof (zlen_nonneg k). lia. }
  pose proof (zlen_nonneg f) as Hfz. rewrite Hq, zlen_app in Hz.
  cbn [decodeLoop]. mstep. unfold id. cbn [buf]. rewrite readable_queue by exact H.
  rewrite Hq, zlen_app. destruct (zlen f + zlen k =? 0) eqn:E0; zbool; [lia|]. cbn [negb].
  destruct (minDelimiter_spec b (delimiters d) INT_MAX None None H Hds Logic.I) as (md & Em & Hs).
  fold (delims d) in Em, Hs. rewrite Hk, Hq in Em, Hs. cbn [earliest] in Em, Hs. rewrite Hfind in Em, Hs.
  assert ((zlen f <? INT_MAX) = true) as El by (apply Z.ltb_lt; lia).
  rewrite El in Em, Hs. cbn [fst snd same_delim] in Em, Hs. destruct md as [kb|]; [|contradiction].
  unfold bind at 1. cbn [FrameDecoder.decode DelimiterBasedFrameDecoder.decode].
  mstep. cbn [buf decoder]. rewrite Em. unfold decodeFrame. mstep. unfold id. cbn [decoder].
  rewrite Hdis, Hs, i32_id, Z.gtb_ltb by solve_range.
  rewrite (proj2 (Z.ltb_ge _ _) Hlen), Hstrip.
  destruct (readBytesLen_spec b (zlen f + zlen k) H) as (fr & b' & Ef & _ & _ & Hb');
    [rewrite Hq, zlen_app; lia|].
  unfold on_buf, bind at 1, zoom. cbn [buf]. rewrite Ef. unfold with_buf.
  unfold ret at 1. rewrite bind_gets. cbn [buf]. rewrite Hr0, Hb' by (rewrite ?Hq, ?zlen_app; lia). reflexivity.
Qed.
End Decodes.

End DelimiterSpec.

(** ** The frames of a stream *)

Section Frames.
Context {D F : Type} {DS : DecoderSpec D F}.

(** The decoder leaves its state alone and reports one frame after the other. *)
Lemma runAll_frames (d : D) (enc : list Z -> list Z) (ok : list Z -> list Z -> Prop) fs t :
  decoder_ok d ->
  (forall f s, ok f s -> enc f ++ s <> [] /\ next d (enc f ++ s) = MkOutcome d [] (Some f) (zlen (enc f))) ->
  runAll d t = ([], d, t) ->
  (forall f fs1 fs2, fs = fs1 ++ f :: fs2 -> ok f (concat (map enc fs2) ++ t)) ->
  runAll d (concat (map enc fs) ++ t) = (map SFrame fs, d, t).
Proof.
  intros Hd Hn Ht. induction fs as [|f fs IH]; intros Hok; [exact Ht|].
  cbn [map concat]. rewrite <- app_assoc.
  destruct (Hn f (concat (map enc fs) ++ t)) as [Hne Hnx]; [apply (Hok f [] fs); reflexivity|].
  rewrite (runAll_cons d _ Hd Hne), Hnx. cbv zeta. cbn [taken reported frame_of next_state app].
  assert (0 < zlen (enc f)) as Hpos.
  { pose proof (next_frame d (enc f ++ concat (map enc fs) ++ t) f Hd) as Hp. rewrite Hnx in Hp. exact (Hp eq_refl). }
  rewrite (proj2 (Z.eqb_neq _ 0)) by lia.
  assert (drop (Z.to_nat (zlen (enc f))) (enc f ++ concat (map enc fs) ++ t) = concat (map enc fs) ++ t) as ->
    by (unfold zlen; rewrite Nat2Z.id; apply drop_app_length).
  rewrite IH; [reflexivity|]. intros g fs1 fs2 ->. apply (Hok g (f :: fs1) fs2). reflexivity.
Qed.
End Frames.

(** A connection: the cumulation is a dynamic buffer, the messages are buffers of
    class [I]. *)
Section Connection.
Context {N : Type} {RN : RawBuffer N} {RSN : ReadSpec N} {WSN : WriteSpec N} {WN : WriteBuffer N}
  {QN : QueueSpec N} {FN : ChannelBufferFactory N} {FSN : FactorySpec N}.
Abbreviation C := (DynamicChannelBuffer.t N).
Context {I : Type} {RI : RawBuffer I} {RSI : ReadSpec I} {WI : WriteBuffer I}.
Context {D F : Type} {DS : DecoderSpec D F} {SD : StableDecoder D F} {DC : Decoding D C F}
  {DAC : DecodesAs D C F} {DI : Decoding D I F} {DAI : DecodesAs D I F}.

(** A new handler decodes a stream as [runAll] does, whatever the messages. *)
Lemma connection_spec o (d : D) (messages : list I) q :
  decoder_ok d -> stable d q -> Forall wf messages -> concat (map queue messages) = q -> zlen q <= 2 ^ 30 ->
  exists h, receiveAll (DynamicChannelBuffer.dynamicBuffer o) messages (MkHandler d None []) = (Ok tt, h) /\
    map event_bytes (sent h) = fst (fst (runAll d q)) /\ pending h = snd (runAll d q).
Proof.
  intros Hd Hs Hw <- Hq.
  assert (handler_ok (C := C) (MkHandler d None [])) as Hh by (split; [exact Hd | discriminate | reflexivity]).
  destruct (dynamicBuffer_fresh (N := N) o) as (c & Ec & Hc & Hqc & Hwc & Hlc).
  assert (forall c', DynamicChannelBuffer.dynamicBuffer o = Ok c' -> wf c' /\ queue c' = []) as Hfresh
    by (intros c' Ec'; rewrite Ec in Ec'; injection Ec' as <-; auto).
  destruct (receiveAll_spec (C := C) (DynamicChannelBuffer.dynamicBuffer o) Hfresh messages
    (MkHandler (C := C) (F := F) d None [])) as (h & E & Hr); try assumption.
  - exists c. split; [exact Ec|]. change (limit c) with (dynamic_limit c). lia.
  - exists h. split; [exact E|]. destruct Hr as [_ (evs & Hsent & He) _ Hp _].
    cbn [sent app] in Hsent. subst evs. split; [exact He | exact Hp].
Qed.

End Connection.

(** ** Streams of fixed-length frames and of delimited frames *)

Section FixedFrames.
Context {N : Type} {RN : RawBuffer N} {RSN : ReadSpec N} {WSN : WriteSpec N} {WN : WriteBuffer N}
  {QN : QueueSpec N} {FN : ChannelBufferFactory N} {FSN : FactorySpec N}.
Context {I : Type} {RI : RawBuffer I} {RSI : ReadSpec I} {WI : WriteBuffer I}.
Context {V : Type} (view_bytes : V -> list Z).
Context {SC : SliceBuffer (DynamicChannelBuffer.t N) V} {SSC : SliceSpec (DynamicChannelBuffer.t N) V view_bytes}
  {SI : SliceBuffer I V} {SSI : SliceSpec I V view_bytes}.

(** A fixed-length decoder reports the frames of the stream, in order and
    nothing else, however the stream is cut into messages, and holds back the
    incomplete frame at its end. *)
Theorem fixed_length_frames (o : ByteOrder) (n : Z) (d : FixedLengthFrameDecoder.t) (messages : list I)
    (frames : list (list Z)) (tail : list Z) :
  FixedLengthFrameDecoder.new n = Ok d -> n <= INT_MAX ->
  Forall (fun f => zlen f = n) frames -> zlen tail < n ->
  Forall wf messages -> concat (map queue messages) = concat frames ++ tail ->
  zlen (concat frames ++ tail) <= 2 ^ 30 ->
  exists h : handler FixedLengthFrameDecoder.t (DynamicChannelBuffer.t N) V,
    receiveAll (DynamicChannelBuffer.dynamicBuffer o) messages (MkHandler d None []) = (Ok tt, h) /\
    map (event_bytes (DS := FixedSpec view_bytes)) (sent h) = map SFrame frames /\ pending h = tail.
Proof.
  intros Hnew Hn Hf Ht Hw Hc Hz. unfold FixedLengthFrameDecoder.new in Hnew.
  destruct (n <=? 0) eqn:E; [discriminate|]. injection Hnew as <-. zbool.
  set (d := FixedLengthFrameDecoder.MkFixed n).
  pose (DSp := FixedSpec view_bytes). pose (DSt := FixedStable view_bytes).
  pose (DDc := FixedDecodes view_bytes (B := DynamicChannelBuffer.t N)).
  pose (DDi := FixedDecodes view_bytes (B := I)).
  assert (decoder_ok d) as Hd by (cbn; lia).
  assert (stable d (concat frames ++ tail)) as Hs by exact Logic.I.
  destruct (connection_spec o d messages (concat frames ++ tail) Hd Hs Hw Hc Hz) as (h & Eh & He & Hp).
  assert (runAll d (concat frames ++ tail) = (map SFrame frames, d, tail)) as Hr.
  { clear Eh He Hp Hc Hz Hs. rewrite <- (map_id frames) at 1.
    apply (runAll_frames d id (fun f _ => zlen f = n)); [exact Hd | | |].
    - unfold id. intros f s Hl. pose proof (zlen_nonneg s). split.
      { intros En. apply (f_equal zlen) in En. rewrite zlen_app in En. change (zlen []) with 0 in En. lia. }
      cbn. unfold fixed_next. cbn. rewrite zlen_app, Hl. zif. do 2 f_equal.
      unfold zsub. rewrite drop_0, <- Hl. unfold zlen. rewrite Nat2Z.id. apply take_app_length.
    - destruct (decide (tail = [])) as [->|Hne]; [reflexivity|].
      rewrite (runAll_cons d tail Hd Hne). cbn. unfold fixed_next. cbn.
      rewrite (proj2 (Z.ltb_lt _ _) Ht). reflexivity.
    - intros f fs1 fs2 ->. apply Forall_app in Hf as [_ Hf]. inversion Hf. assumption. }
  rewrite Hr in He, Hp. exists h. split; [exact Eh | split; [exact He | exact Hp]].
Qed.
End FixedFrames.

(** A stream of frames, each followed by the delimiter [k]: the delimiter of a
    frame is the first occurrence of [k], and a frame that lacks only the last
    byte of its delimiter is not longer than [max]. *)
Section Lines.
Context (k : list Z) (max : Z).

Definition line_ok (f : list Z) : Prop :=
  find_sub k (f ++ k) = Some (zlen f) /\ zlen f + zlen k <= max + 1.

Definition tail_ok (t : list Z) : Prop := find_sub k t = None /\ zlen t <= max.

Definition lines (fs : list (list Z)) : list Z := concat (map (fun f => f ++ k) fs).

Definition framed (q : list Z) : Prop := exists fs t, Forall line_ok fs /\ tail_ok t /\ q = lines fs ++ t.

Lemma framed_inv q :
  framed q -> tail_ok q \/ exists f s, line_ok f /\ framed s /\ q = (f ++ k) ++ s.
Proof.
  intros (fs & t & Hfs & Ht & ->). destruct fs as [|f fs]; [left; exact Ht | right].
  inversion Hfs as [|? ? Hf Hfs']; subst. exists f, (lines fs ++ t).
  split; [exact Hf|]. split; [exists fs, t; auto|]. unfold lines. cbn. symmetry. apply app_assoc.
Qed.

(** The delimiter found in a prefix, or not. *)
Lemma framed_prefix q x :
  framed (q ++ x) -> 0 < zlen k -> find_sub k q = None -> zlen q <= max.
Proof.
  intros Hf Hk Hq. pose proof (zlen_nonneg x) as Hx. pose proof (zlen_app q x) as Hz.
  apply framed_inv in Hf as [[_ Ht] | (f & s & [Hf Hl] & _ & E)]; [lia|].
  destruct (Z.le_gt_cases (zlen q) (zlen f + zlen k - 1)) as [|Hgt]; [lia|]. exfalso.
  assert (q = (f ++ k) ++ take (length q - length (f ++ k)) s) as Eq.
  { rewrite <- (take_app_length q x), E at 1. rewrite take_app_ge; [reflexivity|].
    rewrite length_app. unfold zlen in *. lia. }
  rewrite Eq in Hq. rewrite (find_app _ _ _ _ Hf) in Hq. discriminate.
Qed.
End Lines.

Section DelimiterFrames.
Import DelimiterBasedFrameDecoder.
Context {K : Type} {RK : RawBuffer K} {RSK : ReadSpec K}.
Abbreviation dec := (DelimiterBasedFrameDecoder.t K).

(** [next] with one delimiter, outside of a frame that is too long. *)
Lemma next_single (d : dec) k q :
  delims d = [k] -> discardingTooLongFrame d = false -> maxFrameLength d < INT_MAX ->
  delimiter_next d q =
    match find_sub k q with
    | Some m =>
        if m <? INT_MAX then
          if maxFrameLength d <? m then MkOutcome d [STooLong m] None (m + zlen k)
          else MkOutcome d [] (Some (zsub q 0 m)) (m + zlen k)
        else delimiter_next d q
    | None =>
        if maxFrameLength d <? zlen q
        then MkOutcome (with_discarding true (zlen q) d) [] None (zlen q)
        else MkOutcome d [] None 0
    end.
Proof.
  intros Hk Hd Hm. unfold delimiter_next. rewrite Hk, Hd. cbn [earliest].
  destruct (find_sub k q) as [m|]; [|reflexivity]. destruct (m <? INT_MAX) eqn:E; reflexivity.
Qed.

Context {N : Type} {RN : RawBuffer N} {RSN : ReadSpec N}.
#[local] Existing Instance DelimiterSpec.

Definition delimiter_stable (d : dec) (q : list Z) : Prop :=
  discardingTooLongFrame d = false /\ maxFrameLength d < INT_MAX /\
  exists k, delims d = [k] /\ framed k (maxFrameLength d) q.

Lemma next_line (d : dec) k f s :
  delimiter_ok d -> delims d = [k] -> discardingTooLongFrame d = false -> maxFrameLength d < INT_MAX ->
  line_ok k (maxFrameLength d) f ->
  delimiter_next d ((f ++ k) ++ s) = MkOutcome d [] (Some f) (zlen (f ++ k)).
Proof.
  intros Hd Hk Hdis Hm [Hf Hl]. rewrite (next_single d k _ Hk Hdis Hm), (find_app _ _ _ _ Hf).
  pose proof (delims_nonempty d Hd) as Hne. rewrite Hk in Hne. inversion Hne as [|? ? Hne' _]; subst.
  assert (0 < zlen k) by (destruct k; [congruence | rewrite zlen_cons; pose proof (zlen_nonneg k); lia]).
  assert ((zlen f <? INT_MAX) = true) as -> by (apply Z.ltb_lt; lia).
  assert ((maxFrameLength d <? zlen f) = false) as -> by (apply Z.ltb_ge; lia).
  rewrite zlen_app. do 2 f_equal. unfold zsub. rewrite drop_0. unfold zlen. rewrite Nat2Z.id, <- app_assoc.
  apply take_app_length.
Qed.

#[local] Instance DelimiterStable : StableDecoder dec N.
Proof.
  refine {| stable := delimiter_stable |}.
  - intros d q x Hd (Hdis & Hm & k & Hk & Hf) Hq Ht. cbn in *.
    rewrite (next_single d k q Hk Hdis Hm) in Ht.
    pose proof (delims_nonempty d Hd) as Hne. rewrite Hk in Hne. inversion Hne as [|? ? Hne' _]; subst.
    assert (0 < zlen k) as Hkz
      by (destruct k; [congruence | rewrite zlen_cons; pose proof (zlen_nonneg k); lia]).
    destruct (find_sub k q) as [m|] eqn:Ef.
    + unfold delimiter_next. rewrite Hk. cbn [earliest]. rewrite Ef, (find_app _ _ _ x Ef), Hdis.
      pose proof (find_range _ _ _ Ef) as Hr.
      assert (zsub (q ++ x) 0 m = zsub q 0 m) as Ez.
      { unfold zsub. rewrite !drop_0. apply take_app_le. unfold zlen in *. lia. }
      destruct (m <? INT_MAX) eqn:E; [rewrite Ez; reflexivity|]. zbool.
      exfalso. apply (find_app _ _ _ x) in Ef.
      apply framed_inv in Hf as [[Hn _] | (f & s & [Hf Hl] & _ & E')]; [congruence|].
      rewrite E', (find_app _ _ _ s Hf) in Ef. injection Ef as <-. lia.
    + pose proof (framed_prefix k _ q x Hf Hkz Ef) as Hl.
      rewrite (proj2 (Z.ltb_ge _ _) Hl) in Ht. contradiction.
  - intros d q Hd (Hdis & Hm & k & Hk & Hf) Ht. cbn in *.
    apply framed_inv in Hf as [[Hn Hl] | (f & s & Hf & Hs & ->)].
    + rewrite (next_single d k q Hk Hdis Hm), Hn, (proj2 (Z.ltb_ge _ _) Hl) in Ht. contradiction.
    + rewrite (next_line d k f s Hd Hk Hdis Hm Hf). cbn [next_state taken].
      split; [exact Hdis | split; [exact Hm|]]. exists k. split; [exact Hk|].
      unfold zlen. rewrite Nat2Z.id, drop_app_length. exact Hs.
Defined.

Section Connected.
Context {WSN : WriteSpec N} {WN : WriteBuffer N} {QN : QueueSpec N} {FN : ChannelBufferFactory N}
  {FSN : FactorySpec N}.
Context {I : Type} {RI : RawBuffer I} {RSI : ReadSpec I} {WI : WriteBuffer I}.
#[local] Existing Instance DelimiterDecodes.

(** C27: a decoder with one delimiter reports the frames of the stream without
    their delimiters, in order and nothing else, however the stream is cut into
    messages - also within a delimiter -, and holds back the unfinished frame at
    its end; the bound on the frames counts the delimiter but for its last byte. *)
Theorem delimiter_frames (o : ByteOrder) (d : dec) (k : list Z) (messages : list I)
    (frames : list (list Z)) (tail : list Z) :
  delimiter_ok d -> delims d = [k] -> discardingTooLongFrame d = false -> maxFrameLength d < INT_MAX ->
  Forall (line_ok k (maxFrameLength d)) frames -> tail_ok k (maxFrameLength d) tail ->
  Forall wf messages -> concat (map queue messages) = lines k frames ++ tail ->
  zlen (lines k frames ++ tail) <= 2 ^ 30 ->
  exists h : handler dec (DynamicChannelBuffer.t N) N,
    receiveAll (DynamicChannelBuffer.dynamicBuffer o) messages (MkHandler d None []) = (Ok tt, h) /\
    map event_bytes (sent h) = map SFrame frames /\ pending h = tail.
Proof.
  intros Hd Hk Hdis Hm Hf Ht Hw Hc Hz. pose (St := DelimiterStable).
  assert (stable (StableDecoder := St) d (lines k frames ++ tail)) as Hs.
  { split; [exact Hdis | split; [exact Hm|]]. exists k. split; [exact Hk|]. exists frames, tail. auto. }
  destruct (connection_spec (N := N) (I := I) (D := dec) (F := N) (DS := DelimiterSpec (N := N))
    o d messages _ Hd Hs Hw Hc Hz) as (h & Eh & He & Hp).
  assert (runAll (DS := DelimiterSpec (N := N)) d (lines k frames ++ tail) = (map SFrame frames, d, tail)) as Hr.
  { clear Eh He Hp Hc Hz Hs.
    apply (runAll_frames (DS := DelimiterSpec (N := N)) d (fun f => f ++ k) (fun f _ => line_ok k (maxFrameLength d) f)); [exact Hd | | |].
    - intros f s Hl. cbn. rewrite (next_line d k f s Hd Hk Hdis Hm Hl). split; [|reflexivity].
      intros En. apply (f_equal zlen) in En. rewrite zlen_app in En. change (zlen []) with 0 in En.
      pose proof (next_frame (DecoderSpec := DelimiterSpec (N := N)) d ((f ++ k) ++ s) f Hd) as Hp. cbn in Hp.
      rewrite (next_line d k f s Hd Hk Hdis Hm Hl) in Hp. specialize (Hp eq_refl). cbn in Hp.
      pose proof (zlen_nonneg s). lia.
    - destruct Ht as [Hn Hl]. destruct (decide (tail = [])) as [->|Hne]; [reflexivity|].
      rewrite (runAll_cons (DS := DelimiterSpec (N := N)) d tail Hd Hne). cbn [next DelimiterSpec].
      rewrite (next_single d k tail Hk Hdis Hm), Hn, (proj2 (Z.ltb_ge _ _) Hl). reflexivity.
    - intros f fs1 fs2 ->. apply Forall_app in Hf as [_ Hf]. inversion Hf. assumption. }
  rewrite Hr in He, Hp. exists h. split; [exact Eh | split; [exact He | exact Hp]].
Qed.
End Connected.
End DelimiterFrames.

(** ** LengthFieldBasedFrameDecoder *)

Section LengthField.
Import LengthFieldBasedFrameDecoder.

Definition is_frame {F} (e : event F) : bool :=
  match e with MessageReceived _ => true | ExceptionCaught _ => false end.

(** The decoder discards, and nothing but exceptions was sent. *)
Definition discards {B F} (s : dstate t B F) : Prop :=
  discardingTooLongFrame (decoder s) = true /\ existsb is_frame (fired s) = false.

Section Discard.
Context {B F : Type} {RB : RawBuffer B}.

Lemma on_buf_discards {A} (m : M B A) : preserves (discards (F := F)) (on_buf m).
Proof. intros s Hs. unfold on_buf, zoom. destruct (m (buf s)) as [r b]. exact Hs. Qed.

Lemma fire_exception_discards n : preserves (discards (B := B)) (fire (F := F) (ExceptionCaught n)).
Proof.
  intros s [Hd Hf]. split; [exact Hd|]. cbn. rewrite existsb_app, Hf. reflexivity.
Qed.

Lemma discard_discards (s : dstate t B F) :
  discards s -> discards (snd (discard s)) /\
  match fst (discard s) with Ok (Some _) => False | _ => True end.
Proof.
  intros [Hd Hf].
  set (P := fun r : result (option F) * dstate t B F =>
    discards (snd r) /\ match fst r with Ok (Some _) => False | _ => True end).
  change (P (discard s)). unfold discard. rewrite bind_gets. unfold id. cbv zeta.
  set (n := Z.min _ _). unfold skip, bind at 1.
  pose proof (on_buf_discards (AbstractChannelBuffer.skipBytes n) s (conj Hd Hf)) as Hs.
  destruct (on_buf _ s) as [[[]|e] s']; cbn [snd] in Hs; [|split; [exact Hs | exact Logic.I]].
  destruct Hs as [_ Hf']. unfold set_discarding. rewrite bind_modify. unfold with_decoder. cbn [decoder].
  destruct (_ =? 0); [|split; [split; [exact Hd | exact Hf'] | exact Logic.I]].
  unfold fire. rewrite !bind_modify. cbn [decoder buf fired].
  split; [|exact Logic.I]. split; [exact Hd|]. cbn. rewrite existsb_app, Hf'. reflexivity.
Qed.

End Discard.

Section Handler.
Context {F : Type} {RF : RawBuffer F} {WF : WriteBuffer F} (getDefaultBuffer : Z -> result F).
#[local] Instance lf_decode {B} {RB : RawBuffer B} : Decoding t B F :=
  LengthFieldBasedFrameDecoder.decode getDefaultBuffer.

Section Loop.
Context {B : Type} {RB : RawBuffer B}.

Lemma decodeLoop_discards fuel (s : dstate t B F) : discards s -> discards (snd (decodeLoop fuel s)).
Proof.
  revert s. induction fuel as [|fuel IH]; intros s Hs; [exact Hs|].
  cbn [decodeLoop]. mstep. unfold id. destruct (negb _); [exact Hs|].
  assert (FrameDecoder.decode s = discard s) as Ed.
  { unfold FrameDecoder.decode, lf_decode, LengthFieldBasedFrameDecoder.decode. mstep. unfold id.
    destruct Hs as [-> _]. reflexivity. }
  unfold bind at 1. rewrite Ed. destruct (discard_discards s Hs) as [Hd Hn].
  destruct (discard s) as [[[f|]|e] s']; cbn [fst snd] in *; [contradiction | | exact Hd].
  mstep. unfold id. destruct (_ =? _); [exact Hd | apply IH, Hd].
Qed.

Lemma callDecode_discards {WB : WriteBuffer B} own (s : dstate t B F) :
  discards s -> discards (snd (callDecode own s)).
Proof.
  intros Hs. unfold callDecode, bind. pose proof (decodeLoop_discards (loopFuel s) s Hs) as Hd.
  destruct (decodeLoop (loopFuel s) s) as [[[]|e] s']; [|exact Hd].
  destruct own; [apply on_buf_discards, Hd | exact Hd].
Qed.
End Loop.

Context {C I : Type} {RC : RawBuffer C} {WC : WriteBuffer C} {RI : RawBuffer I} {WI : WriteBuffer I}
  (dynamicBuffer : result C).

Definition handler_discards (h : handler t C F) : Prop :=
  discardingTooLongFrame (self h) = true /\ existsb is_frame (sent h) = false.

Lemma decodeCumulation_discards own h c :
  handler_discards h -> handler_discards (snd (decodeCumulation own h c)).
Proof.
  intros Hh. unfold decodeCumulation.
  pose proof (callDecode_discards own (MkD (self h) c (sent h)) Hh) as Hd.
  destruct (callDecode own _) as [r s]. exact Hd.
Qed.

Lemma decodeInput_discards own h i :
  handler_discards h -> handler_discards (fst (snd (decodeInput own h i))).
Proof.
  intros Hh. unfold decodeInput.
  pose proof (callDecode_discards own (MkD (self h) i (sent h)) Hh) as Hd.
  destruct (callDecode own _) as [r s]. exact Hd.
Qed.

Lemma messageReceived_discards own h i :
  handler_discards h -> handler_discards (fst (snd (messageReceived dynamicBuffer own (h, i)))).
Proof.
  intros Hh. unfold messageReceived. destruct (negb _); [exact Hh|].
  destruct own; [apply decodeInput_discards, Hh|].
  destruct (getCumulation dynamicBuffer h) as [c|e]; [|exact Hh].
  assert (handler_discards (MkHandler (self h) (Some c) (sent h))) as Hh1 by exact Hh.
  destruct (AbstractChannelBuffer.readable c).
  - destruct (Buffer.discardReadBytes c) as [[[]|e] c1]; [|exact Hh].
    destruct (append c1 i) as [[[]|e] [c2 i2]]; [|exact Hh].
    pose proof (decodeCumulation_discards false _ c2 Hh1) as Hd.
    destruct (decodeCumulation _ _ _) as [r h2]. exact Hd.
  - pose proof (decodeInput_discards false _ i Hh1) as Hd.
    destruct (decodeInput _ _ _) as [[[]|e] [h2 i2]]; [|exact Hd]. cbn [fst snd] in Hd.
    destruct (AbstractChannelBuffer.readable i2); [|exact Hd].
    destruct (cumulation h2) as [c2|]; destruct (append _ i2) as [r [c3 i3]]; exact Hd.
Qed.

(** A length-field decoder made by its constructor never reports a frame: it
    starts in the mode that discards a frame that is too long and nothing ever
    leaves that mode, whatever is received and whatever the members the
    constructor leaves uninitialised hold. *)
Theorem length_field_never_decodes (mem1 mem2 : Z)
    (maxFrameLength lengthFieldOffset lengthFieldLength lengthAdjustment initialBytesToStrip : Z)
    (d : t) (messages : list I) :
  new mem1 mem2 maxFrameLength lengthFieldOffset lengthFieldLength lengthAdjustment initialBytesToStrip
    = Ok d ->
  let h := MkHandler d None [] in
  existsb is_frame (sent (snd (receiveAll (DC := LengthFieldBasedFrameDecoder.decode getDefaultBuffer)
    (DI := LengthFieldBasedFrameDecoder.decode getDefaultBuffer) dynamicBuffer messages h))) = false.
Proof.
  intros Hnew h. subst h. assert (handler_discards (MkHandler d None [])) as Hh.
  { split; [|reflexivity]. unfold new in Hnew. destruct (validateParameters _); [|discriminate].
    injection Hnew as <-. reflexivity. }
  revert Hh. generalize (MkHandler (C := C) (F := F) d None []). clear Hnew.
  induction messages as [|i messages IH]; intros h Hh; [apply Hh|]. cbn [receiveAll].
  pose proof (messageReceived_discards false h i Hh) as Hd.
  destruct (messageReceived _ _ _) as [[[]|e] [h' i']]; [apply IH, Hd | apply Hd].
Qed.
End Handler.
End LengthField.

(** ** LengthFieldPrepender *)

Section Prepender.
Import LengthFieldPrepender.
Context {B : Type} {RB : RawBuffer B} {RS : ReadSpec B}.
Context {H : Type} {RH : RawBuffer H} {RSH : ReadSpec H} {WH : WriteBuffer H} {QH : QueueSpec H}
  {FH : ChannelBufferFactory H} {FSH : FactorySpec H}.
Import AbstractChannelBuffer (readerIndex).
Import LengthFieldBasedFrameDecoder (readLengthField).

(** The number the header carries. *)
Definition announced (p : t) (body : B) : Z :=
  zlen (queue body) + (if lengthIncludesLengthFieldLength p then lengthFieldLength p else 0).

Lemma encode_1 o v : MachineInt.encode o 1 v = [i8 v].
Proof. destruct o; reflexivity. Qed.

Lemma fresh_header o n bs (m : M H unit) :
  0 < n <= INT_MAX -> zlen bs = n ->
  (forall h, wf h -> order h = o -> AbstractChannelBuffer.writerIndex h + n <= limit h ->
    exists h', m h = (Ok tt, h') /\ appended h bs h') ->
  exists h h', getBuffer o n = Ok h /\ m h = (Ok tt, h') /\ wf h' /\ order h' = o /\ queue h' = bs.
Proof.
  intros Hn Hb Hm. destruct (getBuffer_fresh (N := H) o n Hn) as (h & E & Hh & Hq & Hr & Ho & Hl).
  pose proof (zlen_queue h Hh) as Hz. rewrite Hq in Hz. change (zlen []) with 0 in Hz.
  pose proof (limit_capacity h Hh) as Hlim.
  destruct (Hm h Hh Ho) as (h' & E' & Ha); [lia|].
  exists h, h'. split; [exact E|]. split; [exact E'|]. destruct Ha as [Hw' Hq' _ Ho' _].
  split; [exact Hw'|]. split; [congruence|]. rewrite Hq', Hq. reflexivity.
Qed.

Lemma bytes_at_front (h : H) bs n : wf h -> queue h = bs -> zlen bs = n ->
  bytes_at (content h) (readerIndex h) n = Ok bs.
Proof.
  intros Hh Hq Hn. pose proof (bytes_at_queue h 0 n Hh) as E. rewrite Z.add_0_r in E.
  pose proof (zlen_nonneg bs). rewrite E by (rewrite ?Hq; lia). rewrite Hq, <- Hn, zsub_all. reflexivity.
Qed.

(** Reading back the five widths. *)
Lemma readLengthField_encoded (h : H) n v :
  wf h -> n = 1 \/ n = 2 \/ n = 3 \/ n = 4 \/ n = 8 ->
  queue h = MachineInt.encode (order h) (Z.to_nat n) v -> 0 <= v <= INT_MAX -> v < 2 ^ (8 * n) ->
  readLengthField h n (readerIndex h) = Ok v.
Proof.
  intros Hh Hn Hq Hv Hl.
  assert (is_i32 (readerIndex h)) as Hi.
  { destruct Hh as [Hv' [Hr Hw]]. pose proof (content_max h Hv'). solve_range. }
  assert (0 <= n) as Hn0 by lia.
  pose proof (bytes_at_front h _ n Hh Hq) as Hb. rewrite zlen_encode, Z2Nat.id in Hb by lia.
  specialize (Hb eq_refl).
  assert (MachineInt.decode (order h) (MachineInt.encode (order h) (Z.to_nat n) v) = v) as Hd
    by (rewrite decode_encode, Z2Nat.id by lia; apply Z.mod_small; lia).
  assert (forall w, 0 < w -> n * 8 <= w -> swrap w v mod 2 ^ w = v) as Hs.
  { intros w Hw Hnw. rewrite swrap_mod by lia. apply Z.mod_small.
    pose proof (Z.pow_le_mono_r 2 (8 * n) w). lia. }
  destruct Hn as [->|[->|[->|[->| ->]]]]; unfold readLengthField; cbn [Z.eqb Pos.eqb].
  - unfold AbstractChannelBuffer.getUnsignedByte. rewrite getByte_law by (apply Hh || exact Hi).
    unfold signed_at. rewrite Hb. cbn [rbind]. rewrite Hd. change 0xFF with (Z.ones 8).
    rewrite Z.land_ones by lia. unfold u8. rewrite !Hs, Z.mod_small by lia. reflexivity.
  - unfold AbstractChannelBuffer.getUnsignedShort. rewrite getShort_law by (apply Hh || exact Hi).
    unfold signed_at. rewrite Hb. cbn [rbind]. rewrite Hd. change 0xFFFF with (Z.ones 16).
    rewrite Z.land_ones by lia. unfold u16. rewrite !Hs, Z.mod_small by lia. reflexivity.
  - rewrite getUnsignedMedium_law by (apply Hh || exact Hi). unfold unsigned_at. rewrite Hb. cbn [rbind].
    rewrite Hd. reflexivity.
  - unfold AbstractChannelBuffer.getUnsignedInt. rewrite getInt_law by (apply Hh || exact Hi).
    unfold signed_at. rewrite Hb. cbn [rbind]. rewrite Hd. change 0xFFFFFFFF with (Z.ones 32).
    rewrite Z.land_ones by lia. unfold u32. rewrite !Hs, Z.mod_small, i32_id by (lia || solve_range). reflexivity.
  - rewrite getLong_law by (apply Hh || exact Hi). unfold signed_at. rewrite Hb. cbn [rbind].
    rewrite Hd, swrap_id, i32_id by (lia || solve_range). reflexivity.
Qed.

(** A header of [n] bytes: the new buffer, then the write [m]. *)
Ltac header_case ord n L m El :=
  destruct (fresh_header ord n (MachineInt.encode ord (Z.to_nat n) L) m) as (h & h' & Eg & Em & Hw & Ho & Hq);
  [ unfold INT_MAX; lia | rewrite zlen_encode; reflexivity
  | intros h Hh Ho Hl; rewrite <- Ho
  | rewrite Eg; cbn [rbind]; rewrite El, ?Z.geb_leb, ?(proj2 (Z.leb_gt _ _)), Em by assumption;
    exists h'; auto ].

(** The prepender announces the length of the body (and of the header itself,
    when asked) in the byte order of the body, in a form the length-field decoder
    reads back, for every width; a length that does not fit the 1, 2 or 3 bytes
    of the header is refused. *)
Theorem prepender_roundtrip (n : Z) (includes : bool) (p : t) (body : B) :
  new n includes = Ok p -> wf body -> announced p body <= INT_MAX ->
  (n <= 3 -> 2 ^ (8 * n) <= announced p body -> encodeHeader (H := H) p body = Err InvalidArgumentException) /\
  (announced p body < 2 ^ (8 * n) ->
    exists h, encode p body = Ok (h, body) /\ wf h /\ zlen (queue h) = n /\ order h = order body /\
      readLengthField h n (readerIndex h) = Ok (announced p body)).
Proof.
  intros Hnew Hb Hmax. unfold new in Hnew. pose proof (zlen_nonneg (queue body)) as Hz.
  destruct (_ && _)%bool eqn:E in Hnew; [discriminate|]. injection Hnew as <-.
  assert (n = 1 \/ n = 2 \/ n = 3 \/ n = 4 \/ n = 8) as Hn by lia. clear E.
  set (p := MkPrepender n includes) in *.
  assert (0 <= announced p body) as Hpos by (unfold announced; cbn; destruct includes; lia).
  assert ((if includes then i32 (AbstractChannelBuffer.readableBytes body + n)
    else AbstractChannelBuffer.readableBytes body) = announced p body) as El.
  { unfold announced in *. cbn in *. rewrite readableBytes_queue by exact Hb.
    destruct includes; [apply i32_id; solve_range | lia]. }
  set (L := announced p body) in *.
  split.
  - intros H3 HL. unfold encodeHeader. cbn [lengthFieldLength lengthIncludesLengthFieldLength p].
    destruct (getBuffer_fresh (N := H) (order body) n) as (h & -> & _); [unfold INT_MAX; lia|].
    cbn [rbind]. rewrite El.
    destruct Hn as [->|[->|[->|[->| ->]]]]; cbn [Z.eqb Pos.eqb]; try lia;
      rewrite (proj2 (Z.geb_le _ _)) by exact HL; reflexivity.
  - intros HL. assert (exists h', encodeHeader p body = Ok h' /\ wf h' /\ order h' = order body /\
      queue h' = MachineInt.encode (order body) (Z.to_nat n) L) as (h' & Eh & Hw & Ho & Hq).
    { unfold encodeHeader. cbn [lengthFieldLength lengthIncludesLengthFieldLength p].
      destruct Hn as [->|[->|[->|[->| ->]]]]; cbn [Z.eqb Pos.eqb].
      - header_case (order body) 1 L (Buffer.writeByte (B := H) L) El.
        change (Z.to_nat 1) with 1%nat. rewrite encode_1. apply writeByte_queue; assumption.
      - header_case (order body) 2 L (Buffer.writeShort (B := H) L) El. apply writeShort_queue; assumption.
      - header_case (order body) 3 L (Buffer.writeMedium (B := H) L) El. apply writeMedium_queue; assumption.
      - header_case (order body) 4 L (Buffer.writeInt (B := H) L) El. apply writeInt_queue; assumption.
      - header_case (order body) 8 L (Buffer.writeLong (B := H) L) El. apply writeLong_queue; assumption. }
    exists h'. unfold encode. rewrite Eh. split; [reflexivity|]. split; [exact Hw|].
    split; [rewrite Hq, zlen_encode; lia|]. split; [exact Ho|].
    apply readLengthField_encoded; try assumption; [rewrite Ho; exact Hq | lia].
Qed.
End Prepender.

(** ** Concrete connections

    Messages in heap buffers, the cumulation a dynamic buffer over heap buffers. *)

Section Witnesses.
#[local] Existing Instances zeroAllocator DelimiterSpec.
Abbreviation heap := HeapChannelBuffer.t.
Abbreviation dyn := (DynamicChannelBuffer.t HeapChannelBuffer.t).

(** The frames of a fixed-length decoder are slices of either. *)
Abbreviation frame_view := (derived HeapChannelBuffer.t + derived (DynamicChannelBuffer.t HeapChannelBuffer.t))%type.

Definition view_bytes (v : frame_view) : list Z :=
  match v with inl d => derived_queue d | inr d => derived_queue d end.

#[local] Instance heap_slices : SliceBuffer heap frame_view := {|
  slice b i n := let? d := heap_slice b i n in Ok (inl d)
|}.
#[local] Instance dynamic_slices : SliceBuffer dyn frame_view := {|
  slice b i n := let? d := dynamic_slice b i n in Ok (inr d)
|}.

#[local] Instance heap_slice_spec : SliceSpec heap frame_view view_bytes.
Proof.
  split. intros b i n H Hr Hn. destruct (heap_slice_ok b i n H Hr) as (d & E & _ & Hq); [lia|].
  exists (inl d). cbn. rewrite E. split; [reflexivity | exact Hq].
Qed.

#[local] Instance dynamic_slice_spec : SliceSpec dyn frame_view view_bytes.
Proof.
  split. intros b i n [Hv _] Hr Hn. destruct (dynamic_slice_ok b i n Hv Hr) as (d & E & _ & Hq); [lia|].
  exists (inr d). cbn. rewrite E. split; [reflexivity | exact Hq].
Qed.

Abbreviation big := (heap_of BYTE_ORDER_BIG).

Lemma big_wf l : forallb (fun v => (-128 <=? v) && (v <? 128)) l = true -> (length l < 100)%nat -> wf (big l).
Proof.
  intros H Hl. apply heap_of_wf; [|unfold zlen, INT_MAX; lia].
  apply Forall_forall. intros v Hv. rewrite forallb_forall in H.
  specialize (H v Hv). zbool. solve_range.
Qed.

Lemma bigs_wf ls :
  forallb (fun l => forallb (fun v => (-128 <=? v) && (v <? 128)) l && (length l <? 100)%nat) ls = true ->
  Forall wf (map big ls).
Proof.
  intros H. apply Forall_map, Forall_forall. intros l Hl.
  rewrite forallb_forall in H. specialize (H l Hl). apply andb_true_iff in H as [H1 H2].
  apply big_wf; [exact H1 | apply Nat.ltb_lt, H2].
Qed.

Lemma fixed_length_frames_witness :
  exists h : handler FixedLengthFrameDecoder.t dyn frame_view,
    receiveAll (DynamicChannelBuffer.dynamicBuffer BYTE_ORDER_BIG)
      (map big [[1; 2]; [3; 4; 5; 6; 7]]) (MkHandler (FixedLengthFrameDecoder.MkFixed 3) None [])
      = (Ok tt, h) /\
    map (event_bytes (DS := FixedSpec view_bytes)) (sent h) = [SFrame [1; 2; 3]; SFrame [4; 5; 6]] /\
    pending h = [7].
Proof.
  exact (fixed_length_frames view_bytes BYTE_ORDER_BIG 3 (FixedLengthFrameDecoder.MkFixed 3)
    (map big [[1; 2]; [3; 4; 5; 6; 7]]) [[1; 2; 3]; [4; 5; 6]] [7]
    eq_refl ltac:(vm_compute; discriminate) ltac:(repeat constructor) eq_refl
    (bigs_wf [[1; 2]; [3; 4; 5; 6; 7]] eq_refl) eq_refl ltac:(vm_compute; discriminate)).
Defined.

Definition crlf (maxFrameLength : Z) (strip : bool) : DelimiterBasedFrameDecoder.t heap :=
  DelimiterBasedFrameDecoder.MkDelimiter [big [13; 10]] maxFrameLength strip false 0.

Lemma crlf_ok n : 0 <= n -> delimiter_ok (crlf n true).
Proof.
  intros Hn. split; [|split; [reflexivity | exact Hn]]. constructor; [|constructor].
  split; [apply big_wf; [reflexivity | cbn; lia] | discriminate].
Qed.

Lemma delimiter_frames_witness :
  exists h : handler (DelimiterBasedFrameDecoder.t heap) dyn heap,
    receiveAll (DynamicChannelBuffer.dynamicBuffer BYTE_ORDER_BIG)
      (map big [[97; 98; 13]; [10; 13; 99; 13; 10; 13; 10; 100]]) (MkHandler (crlf 8 true) None [])
      = (Ok tt, h) /\
    map event_bytes (sent h) = [SFrame [97; 98]; SFrame [13; 99]; SFrame []] /\ pending h = [100].
Proof.
  refine (delimiter_frames BYTE_ORDER_BIG (crlf 8 true) [13; 10]
    (map big [[97; 98; 13]; [10; 13; 99; 13; 10; 13; 10; 100]]) [[97; 98]; [13; 99]; []] [100]
    (crlf_ok 8 _) eq_refl eq_refl eq_refl _ (conj eq_refl _)
    (bigs_wf [[97; 98; 13]; [10; 13; 99; 13; 10; 13; 10; 100]] eq_refl) eq_refl _);
    [discriminate | | vm_compute; discriminate | vm_compute; discriminate].
  repeat constructor; vm_compute; first [reflexivity | discriminate].
Defined.

(** A frame of exactly [maxFrameLength] bytes is reported, or discarded as too
    long, depending on where the messages are cut. *)
Theorem longest_frame_segmentation :
  let run ms := snd (receiveAll (F := heap) (C := dyn) (DynamicChannelBuffer.dynamicBuffer BYTE_ORDER_BIG)
    (map big ms) (MkHandler (crlf 4 true) None [])) in
  map event_bytes (sent (run [[97; 98; 99; 100; 13; 10]])) = [SFrame [97; 98; 99; 100]] /\
  map event_bytes (sent (run [[97; 98; 99; 100; 13]; [10]])) = [] /\
  DelimiterBasedFrameDecoder.discardingTooLongFrame (self (run [[97; 98; 99; 100; 13]; [10]])) = true.
Proof. vm_compute. auto. Qed.

Lemma unstripped_frame_throws_witness :
  fst (decodeLoop (F := heap) 9 (MkD (crlf 8 false) (big [97; 98; 13; 10]) [])) = Err IllegalStateException.
Proof.
  apply (unstripped_frame_throws (crlf 8 false) [13; 10] [97; 98]);
    [apply (crlf_ok 8); discriminate | reflexivity | reflexivity | reflexivity
    | apply big_wf; [reflexivity | cbn; lia] | reflexivity | reflexivity | reflexivity | discriminate].
Defined.

Lemma length_field_never_decodes_witness :
  let d := LengthFieldBasedFrameDecoder.MkLengthField true 1024 0 2 2 0 2 7 0 in
  existsb is_frame (sent (snd (receiveAll
    (DC := LengthFieldBasedFrameDecoder.decode (getBuffer BYTE_ORDER_BIG))
    (DI := LengthFieldBasedFrameDecoder.decode (getBuffer BYTE_ORDER_BIG))
    (C := dyn) (F := heap) (DynamicChannelBuffer.dynamicBuffer BYTE_ORDER_BIG)
    (map big [[0; 1; 65]]) (MkHandler d None [])))) = false.
Proof.
  exact (length_field_never_decodes (getBuffer BYTE_ORDER_BIG)
    (DynamicChannelBuffer.dynamicBuffer BYTE_ORDER_BIG) 7 0 1024 0 2 0 2
    (LengthFieldBasedFrameDecoder.MkLengthField true 1024 0 2 2 0 2 7 0) (map big [[0; 1; 65]]) eq_refl).
Defined.

Lemma prepender_roundtrip_witness :
  exists h : heap, LengthFieldPrepender.encode (LengthFieldPrepender.MkPrepender 2 true) (big [65; 66; 67])
      = Ok (h, big [65; 66; 67]) /\ wf h /\ zlen (queue h) = 2 /\ order h = BYTE_ORDER_BIG /\
    LengthFieldBasedFrameDecoder.readLengthField h 2 (AbstractChannelBuffer.readerIndex h) = Ok 5.
Proof.
  assert (wf (big [65; 66; 67])) as H by (apply big_wf; [reflexivity | cbn; lia]).
  destruct (prepender_roundtrip (H := heap) 2 true (LengthFieldPrepender.MkPrepender 2 true)
    (big [65; 66; 67]) eq_refl H) as [_ E]; [vm_compute; discriminate|].
  exact (E eq_refl).
Defined.

End Witnesses.
