(* ===== verification/ReplayProperties.v ===== *)
(** * What a replaying decoder does

    The loop of [ReplayingDecoder] against the stream specification of the frame
    decoders: a decoder that reads through the replaying buffer and gives up when
    bytes are missing reports the same frames however the stream is cut; what the
    documented way to write such a decoder does instead. *)

From S2P Require Import Prelude MachineInt Buffer AbstractBuffer BufferTheory.
From S2P Require Import HeapBuffer DynamicBuffer BufferUtil Replay FrameDecoders FrameProperties.
Import ReplayingDecoder.
Import AbstractChannelBuffer (readerIndex, writerIndex, setReaderIndex).
Abbreviation MkReplay := ReplayingDecoderBuffer.MkReplay.

(** ** What the loop needs of a decoder *)

Section Contract.
Context {D F : Type} {DS : DecoderSpec (D * Z) F}.

(** What the decoder does with [q] when no byte follows: nothing. *)
Definition settled (d : D * Z) (q : list Z) : Prop := runAll d q = ([], d, q).

(** [decode] does what [next] says of the decoder and its state.  It may read on
    past the checkpoint before it finds that bytes are missing. *)
Class ReplaysAs (B : Type) {RB : RawBuffer B} {RS : ReadSpec B} {RD : ReplayDecoding D B F} := {
  replays d st (b : B) need l : decoder_ok (d, st) -> wf b -> queue b <> [] ->
    let o := next (d, st) (queue b) in
    exists m k need' ck,
      decode st (MkD d (MkReplay b need false) true st (readerIndex b) l)
        = (Ok m, MkD (fst (next_state o)) (MkReplay (consume k b) need' false) true
            (snd (next_state o)) ck l) /\
      0 <= k <= zlen (queue b) /\ reported o = [] /\
      match m with
      | EMPTY_MESSAGE => frame_of o = None /\
          if need' : bool
          then ck = readerIndex b + taken o /\ settled (next_state o) (drop (Z.to_nat (taken o)) (queue b))
          else k = taken o /\ 0 < k
      | Message f => frame_of o = Some (frame_bytes f) /\ k = taken o
      | Messages _ => False
      end;
}.

(** ** The loop *)

Context {B : Type} {RB : RawBuffer B} {RS : ReadSpec B} {WB : WriteBuffer B}
  {RD : ReplayDecoding D B F} {RA : ReplaysAs B}.
Context (unfold : bool).

Lemma setReaderIndex_back (b : B) k t : wf b -> 0 <= t <= zlen (queue b) ->
  setReaderIndex (readerIndex b + t) (consume k b) = (Ok tt, consume t b).
Proof.
  intros H Ht. pose proof (zlen_queue b H) as Hq. destruct H as [Hv [Hr Hw]].
  unfold setReaderIndex. mstep. unfold consume at 1.
  change (AbstractChannelBuffer.writerIndex ?x) with (writerIndex x). rewrite writerIndex_put.
  cbn [writerIdx with_readerIdx]. fold (writerIndex b). zif.
  unfold AbstractChannelBuffer.upd, modify, consume. rewrite put_put, indexes_put. reflexivity.
Qed.

(** One turn of the loop. *)
Lemma callDecode_turn fuel d st (b : B) need ck l m d' b' need' st' ck' l' :
  wf b -> queue b <> [] ->
  decode st (MkD d (MkReplay b need false) true st (readerIndex b) l)
    = (Ok m, MkD d' (MkReplay b' need' false) true st' ck' l') ->
  let s' := MkD d' (MkReplay b' need' false) true st' ck' l' in
  let still := (readerIndex b =? readerIndex b') && (st =? st') in
  callDecode unfold (S fuel) (MkD d (MkReplay b need false) true st ck l) =
  if empty m && need'
  then (if ck' >=? 0 then on_cumulation (setReaderIndex ck') else ret tt) s'
  else if still then (Err IllegalStateException, s')
  else (if empty m then callDecode unfold fuel
        else unfoldAndfireMessageReceived unfold m ;! callDecode unfold fuel) s'.
Proof.
  intros H Hq Ed s' still. cbn [callDecode]. rewrite bind_gets. unfold id.
  unfold cumulation at 1. cbn [replayable ReplayingDecoderBuffer.buffer].
  rewrite readable_queue by exact H. destruct (zlen (queue b) =? 0) eqn:E0; cbn [negb]; zbool.
  { apply zlen_0 in E0. contradiction. }
  rewrite bind_modify. unfold with_checkedPoint, cumulation.
  cbn [decoder replayable cumulated state fired ReplayingDecoderBuffer.buffer].
  fold (readerIndex b). rewrite (bind_ok _ _ _ _ _ Ed), bind_gets. unfold id.
  cbn [decoder replayable cumulated state checkedPoint fired ReplayingDecoderBuffer.buffer
    ReplayingDecoderBuffer.needMoreBytes ReplayingDecoderBuffer.needMore].
  fold (readerIndex b'). fold still. destruct m, need', still; reflexivity.
Qed.

Lemma callDecode_run fuel d st (b : B) need ck l :
  decoder_ok (d, st) -> wf b -> (length (queue b) < fuel)%nat ->
  let r := runAll (d, st) (queue b) in
  exists b' need' ck' frames,
    callDecode unfold fuel (MkD d (MkReplay b need false) true st ck l)
    = (Ok tt, MkD (fst (snd (fst r))) (MkReplay b' need' false) true (snd (snd (fst r))) ck'
        (l ++ map Message frames)) /\
    map (fun f => SFrame (frame_bytes f)) frames = fst (fst r) /\
    wf b' /\ queue b' = snd r /\ content b' = content b /\ writerIndex b' = writerIndex b.
Proof.
  revert d st b need ck l. induction fuel as [|fuel IH]; intros d st b need ck l Hd H Hf; [lia|].
  destruct (decide (queue b = [])) as [Hq|Hq].
  { cbn [callDecode]. rewrite bind_gets. unfold id, cumulation at 1.
    cbn [replayable ReplayingDecoderBuffer.buffer]. rewrite readable_queue, Hq, runAll_nil by exact H.
    exists b, need, ck, []. rewrite app_nil_r. cbn. auto 9. }
  destruct (replays d st b need l Hd H Hq) as (m & k & need' & ck' & Ed & Hk & Hrep & Hm).
  rewrite (callDecode_turn _ _ _ _ _ _ _ _ _ _ _ _ _ _ H Hq Ed), (runAll_cons (d, st) _ Hd Hq).
  set (o := next (d, st) (queue b)) in *. cbv zeta. rewrite Hrep. cbn [app].
  pose proof (next_taken (d, st) (queue b) Hd : 0 <= taken o <= _) as Ht.
  pose proof (next_ok (d, st) (queue b) Hd : decoder_ok (next_state o)) as Hok.
  destruct (next_state o) as [d' st'] eqn:Es. cbn [fst snd] in *.
  assert (forall k0, 0 <= k0 <= zlen (queue b) -> wf (consume k0 b) /\ queue (consume k0 b) = drop (Z.to_nat k0) (queue b) /\
    content (consume k0 b) = content b /\ writerIndex (consume k0 b) = writerIndex b) as Hcons.
  { intros k0 Hk0. split; [apply consume_wf; [exact H | lia]|]. split; [apply consume_queue; [exact H | lia]|].
    unfold consume. rewrite content_put. auto using writerIndex_put. }
  destruct (match m with EMPTY_MESSAGE => need' | _ => false end) eqn:Ebreak.
  - (* bytes are missing: back to the checkpoint *)
    destruct m; [subst need'|discriminate..]. cbn [empty andb]. destruct Hm as (Hfr & -> & Hset).
    rewrite Hfr. pose proof H as [_ [Hr _]].
    replace (readerIndex b + taken o >=? 0) with true by (symmetry; rewrite Z.geb_leb; apply Z.leb_le; lia).
    destruct (Hcons (taken o) Ht) as (Hw & Hqc & Hcc & Hwc).
    exists (consume (taken o) b), true, (readerIndex b + taken o), []. rewrite app_nil_r.
    unfold on_cumulation, zoom. unfold cumulation at 1. cbn [replayable ReplayingDecoderBuffer.buffer].
    rewrite setReaderIndex_back by assumption. destruct (taken o =? 0) eqn:E0; zbool.
    + rewrite E0 in *. cbn [fst snd map]. rewrite Hqc. auto 9.
    + unfold settled in Hset. rewrite Hset. cbn [fst snd map app]. rewrite Hqc. auto 9.
  - (* a frame, or bytes dropped: once more *)
    assert (k = taken o /\ 0 < k /\ match m with EMPTY_MESSAGE => frame_of o = None
      | Message f => frame_of o = Some (frame_bytes f) | Messages _ => False end) as (-> & Hpos & Hfr).
    { destruct m as [|f|fs]; [subst need'; destruct Hm as (? & -> & ?); auto | | contradiction].
      destruct Hm as [Hfr ->]. pose proof (next_frame (d, st) (queue b) _ Hd Hfr). auto. }
    destruct (Hcons (taken o) Ht) as (Hw & Hqc & Hcc & Hwc).
    rewrite (proj2 (Z.eqb_neq (taken o) 0)) by lia.
    rewrite (proj2 (Z.eqb_neq _ _)) by (rewrite consume_readerIndex; lia).
    cbn [andb].
    assert (length (queue (consume (taken o) b)) < fuel)%nat as Hfl
      by (rewrite Hqc, length_drop; unfold zlen in Ht; lia).
    set (l' := match m with Message f => l ++ [Message f] | _ => l end).
    destruct (IH d' st' (consume (taken o) b) need' ck' l' Hok Hw Hfl)
      as (b' & need2 & ck2 & frames & E & He & Hw' & Hq' & Hc' & Hwi').
    rewrite Hqc in E, He, Hq'. destruct (runAll (d', st') _) as [[evs2 [d2 st2]] q2] eqn:Er. cbn [fst snd] in *.
    exists b', need2, ck2, (match m with Message f => [f] | _ => [] end ++ frames).
    rewrite !map_app, He, Hc', Hwi', Hcc, Hwc. split; [|split; [|auto]].
    + unfold l' in E. destruct m as [|f|fs]; [|clear Ebreak|contradiction]; cbn [empty andb].
      * subst need'. exact E.
      * cbn [unfoldAndfireMessageReceived]. unfold fire. rewrite bind_modify.
        cbn [decoder replayable cumulated state checkedPoint fired map]. rewrite app_assoc. exact E.
    + destruct m as [|f|fs]; [rewrite Hfr; reflexivity | rewrite Hfr; reflexivity | contradiction].
Qed.

End Contract.

(** ** messageReceived and sequences of messages

    A handler is seen as a handler of a frame decoder whose decoder is the object
    with its state. *)
Section Receiving.
Context {D F : Type} {DS : DecoderSpec (D * Z) F} {SD : StableDecoder (D * Z) F}.
Context {C : Type} {RC : RawBuffer C} {RSC : ReadSpec C} {WC : WriteBuffer C} {QC : QueueSpec C}
  {RD : ReplayDecoding D C F} {RA : ReplaysAs (DS := DS) C}.
Context {I : Type} {RI : RawBuffer I} {RSI : ReadSpec I} {WI : WriteBuffer I}.
Context (newCumulation : result C) (unfold : bool).
(** The new buffers of the factory are empty. *)
Context (fresh : forall c, newCumulation = Ok c -> wf c /\ queue c = []).

Definition message_event (m : message F) : list (FrameDecoder.event F) :=
  match m with Message f => [FrameDecoder.MessageReceived f] | _ => [] end.

Definition heldBuffer (h : handler D C F) : option C :=
  if held h then option_map ReplayingDecoderBuffer.buffer (buffers h) else None.

Definition view (h : handler D C F) : FrameDecoder.handler (D * Z) C F :=
  FrameDecoder.MkHandler (self h, handlerState h) (heldBuffer h) (concat (map message_event (sent h))).

(** The replaying buffer of a connection that is open. *)
Definition replay_ok (h : handler D C F) : Prop :=
  held h = true -> exists b need, buffers h = Some (MkReplay b need false).

Lemma getReplayable_ok (h : handler D C F) c :
  replay_ok h -> FrameDecoder.getCumulation newCumulation (view h) = Ok c ->
  exists need, getReplayable newCumulation h = Ok (MkReplay c need false).
Proof.
  unfold FrameDecoder.getCumulation, getReplayable, view, heldBuffer, replay_ok. cbn [FrameDecoder.cumulation].
  destruct (held h).
  - intros Hr. destruct (Hr eq_refl) as (b & need & ->). cbn. intros [= ->]. exists need. reflexivity.
  - intros _ ->. exists false. reflexivity.
Qed.

(** [getCumulation] appends the message to the bytes held. *)
Lemma getCumulation_spec (h : handler D C F) c need (i : I) :
  wf c -> wf i -> zlen (queue c) + zlen (queue i) <= limit c ->
  exists c' i', getCumulation (enter (MkReplay c need false) true h, i)
    = (Ok tt, (enter (MkReplay c' need false) true h, i')) /\
    wf c' /\ queue c' = queue c ++ queue i /\ limit c <= limit c' /\
    writerIndex c' <= writerIndex c + zlen (queue i).
Proof.
  intros Hc Hi Hl.
  destruct (discardReadBytes_queue c Hc) as (c1 & E1 & Hc1 & Hq1 & Hr1 & _ & Hl1).
  pose proof (discardReadBytes_writerIndex c c1 Hc Hc1 Hq1 Hr1) as Hw1.
  pose proof (zlen_queue c1 Hc1) as Hz1. rewrite Hq1 in Hz1.
  destruct (append_spec c1 i Hc1 Hi) as (c2 & i2 & E2 & Ha & Hi2); [lia|].
  exists c2, i2. unfold FrameDecoder.append in E2. split; [|split; [apply Ha|split; [|split]]].
  - unfold getCumulation, enter, bind, zoom, on_cumulation, zoom, cumulation, with_cumulation,
      ReplayingDecoderBuffer.with_buffer, with_replayable.
    cbn [fst snd replayable ReplayingDecoderBuffer.buffer]. rewrite E1.
    cbn [fst snd replayable ReplayingDecoderBuffer.buffer]. rewrite E2. reflexivity.
  - rewrite (appended_queue _ _ _ Ha), Hq1. reflexivity.
  - pose proof (limit_appended _ _ _ Ha). lia.
  - rewrite (appended_writerIndex _ _ _ Hc1 Ha). lia.
Qed.

(** The handler that decoded the cumulation [c1]. *)
Lemma decoded_received (h : handler D C F) c c1 c2 need ck frames q :
  handler_ok (view h) -> FrameDecoder.getCumulation newCumulation (view h) = Ok c ->
  queue c1 = pending (view h) ++ q -> limit c <= limit c1 -> writerIndex c1 <= writerIndex c + zlen q ->
  let r := runAll (self h, handlerState h) (queue c1) in
  map (fun f => SFrame (frame_bytes f)) frames = fst (fst r) -> wf c2 -> queue c2 = snd r ->
  content c2 = content c1 -> writerIndex c2 = writerIndex c1 ->
  received newCumulation (view h) q (view (MkHandler (fst (snd (fst r))) (Some (MkReplay c2 need false)) true
    (snd (snd (fst r))) ck (sent h ++ map Message frames))).
Proof.
  intros Hh Hg Hq1 Hl1 Hw1 r He Hc2 Hq2 Hct Hwi.
  pose proof (runAll_settled (self h, handlerState h) (queue c1) (ok_decoder _ Hh)) as Hset.
  pose proof (runAll_ok (self h, handlerState h) (queue c1) (ok_decoder _ Hh)) as Hok.
  assert (r = stream (view h) q) as Er by (unfold stream, r; rewrite Hq1; reflexivity).
  fold r in Hset, Hok. destruct (snd (fst r)) as [d' st'] eqn:Ed. cbn [fst snd].
  set (v := view h) in *. change (FrameDecoder.sent v) with (concat (map message_event (sent h))).
  split; unfold view, heldBuffer; cbn [FrameDecoder.cumulation FrameDecoder.self FrameDecoder.sent self
    handlerState held buffers sent option_map ReplayingDecoderBuffer.buffer].
  - split; unfold pending; cbn [FrameDecoder.cumulation FrameDecoder.self]; rewrite ?Hq2;
      [exact Hok | intros ? [= <-]; exact Hc2 | exact Hset].
  - exists (map FrameDecoder.MessageReceived frames).
    rewrite <- Er, <- He, map_app, concat_app, map_map. split.
    + f_equal. clear. induction frames as [|f fs IH]; [reflexivity|]. cbn. f_equal. exact IH.
    + rewrite map_map. reflexivity.
  - rewrite <- Er, Ed. reflexivity.
  - rewrite <- Er, <- Hq2. reflexivity.
  - intros n Hn (c' & Hg' & Hr). rewrite Hg in Hg'. injection Hg' as <-.
    exists c2. split; [reflexivity|]. unfold writerIndex in *. rewrite Hwi.
    assert (limit c1 <= limit c2) by (apply limit_mono; rewrite Hct; reflexivity). lia.
Qed.

Lemma messageReceived_replay fuel (h : handler D C F) (i : I) :
  replay_ok h -> handler_ok (view h) -> wf i -> room newCumulation (view h) (zlen (queue i)) ->
  (length (pending (view h) ++ queue i) < fuel)%nat ->
  exists h' i', messageReceived newCumulation unfold fuel (h, i) = (Ok tt, (h', i')) /\
    replay_ok h' /\ received newCumulation (view h) (queue i) (view h').
Proof.
  intros Hr Hh Hi (c & Hg & Hl) Hfuel. unfold messageReceived.
  destruct (AbstractChannelBuffer.readable i) eqn:Ei; cbn [negb].
  2:{ exists h, i. split; [reflexivity|]. split; [exact Hr|]. rewrite (queue_nil i Hi Ei). apply received_nil, Hh. }
  destruct (getReplayable_ok h c Hr Hg) as (need & ->).
  destruct (cumulation_ok newCumulation fresh (view h) c Hh Hg) as [Hc Hqc].
  destruct (getCumulation_spec h c need i Hc Hi) as (c1 & i1 & E1 & Hc1 & Hq1 & Hl1 & Hw1).
  { pose proof (zlen_queue c Hc). pose proof Hc as [_ [Hr0 _]]. lia. }
  rewrite Hqc in Hq1.
  destruct (callDecode_run (RA := RA) unfold fuel (self h) (handlerState h) c1 need
    (handlerCheckedPoint h) (sent h) (ok_decoder _ Hh) Hc1)
    as (c2 & need' & ck' & frames & E2 & He & Hc2 & Hq2 & Hct & Hwi).
  { rewrite Hq1. exact Hfuel. }
  rewrite (bind_ok _ _ _ _ _ E1). unfold zoom. cbn [fst snd]. unfold enter at 1. rewrite E2.
  eexists _, _. split; [reflexivity|]. split; [intros _; eexists _, _; reflexivity|].
  apply (decoded_received h c c1 c2 need' ck' frames); assumption.
Qed.

(** The messages of a connection, one after the other. *)
Fixpoint receiveAll (fuel : nat) (messages : list I) (h : handler D C F) : result unit * handler D C F :=
  match messages with
  | [] => (Ok tt, h)
  | i :: messages =>
      match messageReceived newCumulation unfold fuel (h, i) with
      | (Ok _, (h, _)) => receiveAll fuel messages h
      | (Err e, (h, _)) => (Err e, h)
      end
  end.

Lemma receiveAll_replay fuel (messages : list I) (h : handler D C F) :
  replay_ok h -> handler_ok (view h) -> Forall wf messages ->
  room newCumulation (view h) (zlen (concat (map queue messages))) ->
  stable (self h, handlerState h) (pending (view h) ++ concat (map queue messages)) ->
  (length (pending (view h) ++ concat (map queue messages)) < fuel)%nat ->
  exists h', receiveAll fuel messages h = (Ok tt, h') /\
    received newCumulation (view h) (concat (map queue messages)) (view h').
Proof.
  intros Hro Hh Hw Hr Hs Hfuel. revert h Hro Hh Hr Hs Hfuel.
  induction messages as [|i messages IH]; intros h Hro Hh Hr Hs Hfuel; cbn [map concat receiveAll] in *.
  { exists h. split; [reflexivity|]. apply received_nil, Hh. }
  inversion Hw as [|? ? Hi Hms]; subst. rewrite zlen_app in Hr.
  pose proof (zlen_nonneg (concat (map queue messages))) as Hz.
  assert (room newCumulation (view h) (zlen (queue i))) as Hri
    by (destruct Hr as (c & ? & ?); exists c; split; [assumption|lia]).
  rewrite !length_app in Hfuel.
  destruct (messageReceived_replay fuel h i Hro Hh Hi Hri) as (h1 & i1 & E1 & Hro1 & H1);
    [rewrite length_app; lia|]. rewrite E1.
  pose proof (runAll_app (self h, handlerState h) (pending (view h) ++ queue i)
    (concat (map queue messages)) (ok_decoder _ Hh)) as Happ.
  rewrite <- app_assoc in Happ. destruct (Happ Hs) as [Hst _].
  change (runAll (self h, handlerState h) _) with (stream (view h) (queue i)) in Hst.
  rewrite <- (rcv_self _ _ _ _ H1), <- (rcv_pending _ _ _ _ H1) in Hst.
  destruct (IH Hms h1 Hro1 (rcv_ok _ _ _ _ H1)) as (h2 & E2 & H2); [|exact Hst| |].
  - apply (rcv_room _ _ _ _ H1); [exact Hz | exact Hr].
  - pose proof (runAll_left (self h, handlerState h) (pending (view h) ++ queue i) (ok_decoder _ Hh)) as Hle.
    rewrite (rcv_pending _ _ _ _ H1). unfold zlen in Hle.
    change (runAll (self h, handlerState h) _) with (stream (view h) (queue i)) in Hle.
    rewrite length_app in *. lia.
  - exists h2. split; [exact E2|]. exact (received_app newCumulation (view h) (view h1) (view h2) _ _ Hh Hs H1 H2).
Qed.

End Receiving.

(** ** Connections *)

Section Connection.
Context {N : Type} {RN : RawBuffer N} {RSN : ReadSpec N} {WSN : WriteSpec N} {WN : WriteBuffer N}
  {QN : QueueSpec N} {FN : ChannelBufferFactory N} {FSN : FactorySpec N}.
Context {D F : Type} {DS : DecoderSpec (D * Z) F} {SD : StableDecoder (D * Z) F}.
Abbreviation C := (DynamicChannelBuffer.t N).
Context {RD : ReplayDecoding D C F} {RA : ReplaysAs (DS := DS) C}.
Context {I : Type} {RI : RawBuffer I} {RSI : ReadSpec I} {WI : WriteBuffer I}.

(** C28: a replaying decoder whose [decode] gives up when the replaying buffer
    lacks bytes, and leaves its object and state as they were at the checkpoint,
    reports the frames of the stream, in order and nothing else, however the
    stream is cut into messages; it ends with the object, the state and the bytes
    held back of the uncut stream, and no message raises an exception. *)
Theorem replaying_segments (o : ByteOrder) (unfold : bool) (fuel : nat) (d : D) (st : Z)
    (messages : list I) (q : list Z) :
  decoder_ok (d, st) -> stable (d, st) q -> Forall wf messages -> concat (map queue messages) = q ->
  zlen q <= 2 ^ 30 -> (length q < fuel)%nat ->
  exists h, receiveAll (DynamicChannelBuffer.dynamicBuffer o) unfold fuel messages (new d st) = (Ok tt, h) /\
    map event_bytes (concat (map message_event (sent h))) = fst (fst (runAll (d, st) q)) /\
    (self h, handlerState h) = snd (fst (runAll (d, st) q)) /\
    pending (view h) = snd (runAll (d, st) q).
Proof.
  intros Hd Hs Hw <- Hq Hfuel.
  destruct (dynamicBuffer_fresh (N := N) o) as (c & Ec & Hc & Hqc & Hwc & Hlc).
  assert (forall c', DynamicChannelBuffer.dynamicBuffer o = Ok c' -> wf c' /\ queue c' = []) as Hfresh
    by (intros c' Ec'; rewrite Ec in Ec'; injection Ec' as <-; auto).
  assert (handler_ok (view (new (C := C) (F := F) d st))) as Hh
    by (split; [exact Hd | discriminate | reflexivity]).
  destruct (receiveAll_replay (RA := RA) (DynamicChannelBuffer.dynamicBuffer o) unfold Hfresh fuel messages
    (new (C := C) (F := F) d st)) as (h & E & Hr); try assumption; [discriminate | |].
  - exists c. split; [exact Ec|]. change (limit c) with (dynamic_limit c). lia.
  - exists h. split; [exact E|]. destruct Hr as [_ (evs & Hsent & He) Hself Hp _].
    cbn in Hsent. subst evs. split; [exact He | split; [exact Hself | exact Hp]].
Qed.
End Connection.

(** ** What a decoder reads

    The operations of the replaying buffer on a buffer with enough bytes, and
    without. *)
Section Reads.
Context {D B F : Type} {RB : RawBuffer B} {RS : ReadSpec B} {WB : WriteBuffer B}.
Abbreviation ST := (dstate D B F).

Lemma guarded_readable {A} n (m : M (ReplayingDecoderBuffer.t B) A) dflt b need term :
  wf b ->
  ReplayingDecoderBuffer.guarded (ReplayingDecoderBuffer.checkReadableBytes n) m dflt (MkReplay b need term)
  = if zlen (queue b) <? n then (Ok dflt, MkReplay b true term) else m (MkReplay b false term).
Proof.
  intros H. unfold ReplayingDecoderBuffer.guarded, ReplayingDecoderBuffer.checkReadableBytes. mstep.
  unfold id. cbn [ReplayingDecoderBuffer.buffer]. rewrite readableBytes_queue, Z.geb_leb by exact H.
  unfold ReplayingDecoderBuffer.set_needMore. mstep. unfold bind, ret.
  destruct (Z.leb_spec n (zlen (queue b))), (Z.ltb_spec (zlen (queue b)) n); try lia; reflexivity.
Qed.

Lemma on_replayable_eq {A} (m : M (ReplayingDecoderBuffer.t B) A) d r c st ck (l : list (message F)) :
  on_replayable m (MkD d r c st ck l : ST) = (fst (m r), MkD d (snd (m r)) c st ck l).
Proof. unfold on_replayable, zoom. cbn. destruct (m r). reflexivity. Qed.

Lemma consume_cons (b : B) v q : wf b -> queue b = v :: q ->
  wf (consume 1 b) /\ queue (consume 1 b) = q.
Proof.
  intros H Hq. pose proof (zlen_nonneg q).
  assert (zlen (queue b) = 1 + zlen q) as Hz by (rewrite Hq; apply zlen_cons).
  split; [apply consume_wf; [exact H | lia]|]. rewrite consume_queue by (exact H || lia).
  rewrite Hq. reflexivity.
Qed.

Lemma replay_readByte (b : B) v q d need term c st ck (l : list (message F)) :
  wf b -> queue b = v :: q ->
  on_replayable ReplayingDecoderBuffer.readByte (MkD d (MkReplay b need term) c st ck l : ST)
  = (Ok v, MkD d (MkReplay (consume 1 b) false term) c st ck l).
Proof.
  intros H Eq. assert (zlen (queue b) = 1 + zlen q) as Hz by (rewrite Eq; apply zlen_cons).
  pose proof (zlen_nonneg q).
  assert (i8 (front b 1) = v) as Ev.
  { unfold front. rewrite Eq. change (zsub (v :: q) 0 1) with [v]. apply decode_1.
    pose proof (queue_i8 b H) as Hi. rewrite Eq in Hi. inversion Hi. assumption. }
  rewrite on_replayable_eq. unfold ReplayingDecoderBuffer.readByte. rewrite guarded_readable by exact H. zif.
  unfold ReplayingDecoderBuffer.on_buffer, zoom. cbn [ReplayingDecoderBuffer.buffer].
  rewrite readByte_spec by exact H. zif. cbn [fst snd]. rewrite Ev. reflexivity.
Qed.

Lemma replay_skipBytes (b : B) n d need term c st ck (l : list (message F)) :
  wf b -> 0 <= n <= zlen (queue b) ->
  on_replayable (ReplayingDecoderBuffer.skipBytes n) (MkD d (MkReplay b need term) c st ck l : ST)
  = (Ok tt, MkD d (MkReplay (consume n b) false term) c st ck l).
Proof.
  intros H Hn. pose proof (queue_max b H).
  rewrite on_replayable_eq. unfold ReplayingDecoderBuffer.skipBytes. rewrite guarded_readable by exact H. zif.
  unfold ReplayingDecoderBuffer.on_buffer, zoom. cbn [ReplayingDecoderBuffer.buffer].
  rewrite skipBytes_spec by (exact H || lia). zif. reflexivity.
Qed.

Context {N : Type} {RN : RawBuffer N} {RSN : ReadSpec N} {WN : WriteBuffer N} {QN : QueueSpec N}
  {FN : ChannelBufferFactory N} {FSN : FactorySpec N}.

Lemma replay_readBytesLen (b : B) n d need term c st ck (l : list (message F)) :
  wf b -> 0 <= n <= zlen (queue b) ->
  exists f b', on_replayable (ReplayingDecoderBuffer.readBytesLen (N := N) n) (MkD d (MkReplay b need term) c st ck l : ST)
    = (Ok f, MkD d (MkReplay b' false term) c st ck l) /\ (wf f /\ queue f = zsub (queue b) 0 n) /\
    (n < zlen (queue b) -> b' = consume n b) /\
    (0 < n -> n = zlen (queue b) -> readerIndex b' = 0).
Proof.
  intros H Hn. destruct (readBytesLen_spec (N := N) b n H Hn) as (f & b' & Ef & Hf).
  exists f, b'. split; [|exact Hf].
  rewrite on_replayable_eq. unfold ReplayingDecoderBuffer.readBytesLen. rewrite guarded_readable by exact H. zif.
  unfold ReplayingDecoderBuffer.on_buffer, zoom. cbn [ReplayingDecoderBuffer.buffer]. rewrite Ef. reflexivity.
Qed.
End Reads.

(** ** The documented way to write one

    [IntegerHeaderFrameDecoder] of the class comment of [ReplayingDecoder]:
    [return buf.readBytes(buf.readInt())]. *)
Module IntegerHeaderFrameDecoder.
Section Decode.
Context {D B N : Type} {RB : RawBuffer B} {RN : RawBuffer N} {WN : WriteBuffer N} {FN : ChannelBufferFactory N}.

Definition decode (st : Z) : M (dstate D B N) (message N) :=
  let! length := on_replayable ReplayingDecoderBuffer.readInt in
  let! frame := on_replayable (ReplayingDecoderBuffer.readBytesLen length) in
  ret (Message frame).

#[global] Instance decoding : ReplayDecoding D B N := {|
  ReplayingDecoder.decode := decode;
  ReplayingDecoder.decodeLast := decode;
|}.
End Decode.
End IntegerHeaderFrameDecoder.

Section Documented.
Context {D B N : Type} {RB : RawBuffer B} {RS : ReadSpec B} {WB : WriteBuffer B}.
Context {RN : RawBuffer N} {RSN : ReadSpec N} {WN : WriteBuffer N} {QN : QueueSpec N}
  {FN : ChannelBufferFactory N} {FSN : FactorySpec N}.
Abbreviation ST := (dstate D B N).

(** The documented replaying decoder works for no frame on its own: with less
    than the four bytes of the header it does not wait for more but makes the
    connection fail, and a frame that arrives whole in a buffer read from its
    first byte makes it fail as well, since the last read empties the buffer by
    moving its indexes to 0. *)
Theorem documented_decoder_throws (unfold : bool) (fuel : nat) (d : D) (b : B) (need : bool)
    (st ck : Z) (l : list (message N)) :
  wf b -> queue b <> [] ->
  zlen (queue b) < 4 \/ (readerIndex b = 0 /\ zlen (queue b) = 4 + i32 (front b 4) /\ 0 < i32 (front b 4)) ->
  exists s, callDecode (RD := IntegerHeaderFrameDecoder.decoding) unfold (S fuel)
    (MkD d (MkReplay b need false) true st ck l) = (Err IllegalStateException, s) /\ fired s = l.
Proof.
  intros H Hq Hcase. pose proof (zlen_nonneg (queue b)) as Hz.
  assert (exists f b' need', IntegerHeaderFrameDecoder.decode st (MkD d (MkReplay b need false) true st (readerIndex b) l)
    = (Ok (Message f), MkD d (MkReplay b' need' false) true st (readerIndex b) l) /\
    readerIndex b' = readerIndex b) as (f & b' & need' & Ed & Hr').
  { unfold IntegerHeaderFrameDecoder.decode. unfold bind at 1. rewrite on_replayable_eq.
    unfold ReplayingDecoderBuffer.readInt at 1 2. rewrite guarded_readable by exact H.
    destruct Hcase as [Hlt|(Hr0 & Hlen & Hpos)].
    - zif. cbn [fst snd]. unfold bind at 1. rewrite on_replayable_eq.
      unfold ReplayingDecoderBuffer.readBytesLen. rewrite guarded_readable by exact H. zif.
      eexists _, _, _. split; reflexivity.
    - zif. unfold ReplayingDecoderBuffer.on_buffer at 1 2, zoom. cbn [ReplayingDecoderBuffer.buffer].
      rewrite readInt_spec by exact H. zif. cbn [fst snd].
      assert (wf (consume 4 b)) as Hw4 by (apply consume_wf; [exact H | lia]).
      assert (zlen (queue (consume 4 b)) = i32 (front b 4)) as Hq4.
      { rewrite consume_queue by (exact H || lia). unfold zlen in *. rewrite length_drop. lia. }
      destruct (readBytesLen_spec (N := N) (consume 4 b) (i32 (front b 4)) Hw4) as (f & b' & Ef & _ & _ & H0); [lia|].
      unfold bind at 1. rewrite on_replayable_eq. unfold ReplayingDecoderBuffer.readBytesLen, ReplayingDecoderBuffer.with_buffer.
      cbn [ReplayingDecoderBuffer.needMore ReplayingDecoderBuffer.terminated]. rewrite guarded_readable by exact Hw4. zif.
      unfold ReplayingDecoderBuffer.on_buffer, zoom. cbn [ReplayingDecoderBuffer.buffer]. rewrite Ef. cbn [fst snd].
      eexists _, _, _. split; [reflexivity|]. rewrite Hr0. apply H0; lia. }
  rewrite (callDecode_turn (RD := IntegerHeaderFrameDecoder.decoding) _ _ _ _ _ _ _ _ _ _ _ _ _ _ _ H Hq Ed).
  rewrite Hr', !Z.eqb_refl. eexists. split; reflexivity.
Qed.

End Documented.

(** ** A decoder of pairs

    A frame is two bytes; the first one is kept in the decoder behind a
    checkpoint. *)
Section Pairs.
Context {B : Type} {RB : RawBuffer B} {RS : ReadSpec B}.

Definition decode_pair (st : Z) : M (dstate Z B (list Z)) (message (list Z)) :=
  let! v := on_replayable ReplayingDecoderBuffer.readByte in
  let! s := gets id in
  if ReplayingDecoderBuffer.needMoreBytes (replayable s) then ret EMPTY_MESSAGE
  else if st =? 0 then
    modify (with_decoder v) ;!
    checkpointState 1 ;!
    ret EMPTY_MESSAGE
  else
    checkpointState 0 ;!
    ret (Message [decoder s; v]).

#[local] Instance pair_decoding : ReplayDecoding Z B (list Z) := {|
  ReplayingDecoder.decode := decode_pair;
  ReplayingDecoder.decodeLast := decode_pair;
|}.

Definition pair_next (d : Z * Z) (q : list Z) : outcome (Z * Z) :=
  match q with
  | [] => MkOutcome d [] None 0
  | v :: _ =>
      if snd d =? 0 then MkOutcome (v, 1) [] None 1
      else MkOutcome (fst d, 0) [] (Some [fst d; v]) 1
  end.

#[local] Instance pair_spec : DecoderSpec (Z * Z) (list Z).
Proof.
  refine {| frame_bytes := id; next := pair_next; decoder_ok _ := True |}; intros d q; intros; destruct q as [|v q];
    unfold pair_next in *; try destruct (snd d =? 0); cbn in *; rewrite ?zlen_cons; try pose proof (zlen_nonneg q);
    change (@zlen Z []) with 0 in *; first [discriminate | congruence | lia | solve [auto]].
Defined.

#[local] Instance pair_stable : StableDecoder (Z * Z) (list Z).
Proof.
  refine {| stable _ _ := True |}; [|auto].
  intros d [|v q] x _ _ Hq _; [contradiction | reflexivity].
Defined.

#[local] Instance pair_replays : ReplaysAs B.
Proof.
  split. intros d st b need l _ H Hq o. subst o.
  destruct (queue b) as [|v q] eqn:Eq; [contradiction|]. pose proof (zlen_nonneg q).
  cbn [decode pair_decoding]. unfold decode_pair. erewrite bind_ok by (eapply replay_readByte; eassumption).
  unfold pair_next. cbn [fst snd].
  destruct (st =? 0) eqn:Est; zbool.
  - eexists EMPTY_MESSAGE, 1, false, _. mstep. cbn.
    rewrite (proj2 (Z.eqb_eq st 0)) by exact Est. cbn. split; [reflexivity|].
    rewrite zlen_cons. split; [lia | auto with lia].
  - eexists (Message [d; v]), 1, false, _. mstep. cbn.
    rewrite (proj2 (Z.eqb_neq st 0)) by exact Est. cbn. split; [reflexivity|].
    rewrite zlen_cons. split; [lia | auto with lia].
Qed.
End Pairs.

(** ** Witnesses *)

Section Witnesses.
Abbreviation heap := HeapChannelBuffer.t.
Abbreviation big := (heap_of BYTE_ORDER_BIG).
#[local] Existing Instances zeroAllocator pair_decoding pair_spec pair_stable pair_replays.

Lemma replaying_segments_witness :
  exists h, receiveAll (DynamicChannelBuffer.dynamicBuffer BYTE_ORDER_BIG) false 9
      (map big [[1]; [2; 3; 4; 5]; []; [6; 7]]) (new 0 0) = (Ok tt, h) /\
    map event_bytes (concat (map message_event (sent h))) = [SFrame [1; 2]; SFrame [3; 4]; SFrame [5; 6]] /\
    (self h, handlerState h) = (7, 1) /\ pending (view h) = @nil Z.
Proof.
  exact (replaying_segments BYTE_ORDER_BIG false 9 0 0 (map big [[1]; [2; 3; 4; 5]; []; [6; 7]])
    [1; 2; 3; 4; 5; 6; 7] Logic.I Logic.I (bigs_wf [[1]; [2; 3; 4; 5]; []; [6; 7]] eq_refl) eq_refl
    ltac:(vm_compute; discriminate) ltac:(cbn; lia)).
Defined.

Lemma documented_decoder_throws_witness :
  exists s : dstate unit heap heap, callDecode (RD := IntegerHeaderFrameDecoder.decoding) false 5
    (MkD tt (MkReplay (big [0; 0]) false false) true (-1) (-1) [])
    = (Err IllegalStateException, s) /\ fired s = [].
Proof.
  apply (documented_decoder_throws false 4 tt (big [0; 0]) false (-1) (-1) []);
    [apply big_wf; [reflexivity | cbn; lia] | discriminate | left; reflexivity].
Defined.
End Witnesses.
