(* ===== verification/Pipeline.v ===== *)
(** * DefaultChannelPipeline

    [src/src/cetty/channel/DefaultChannelPipeline.cpp] and
    [src/include/cetty/channel/DefaultChannelPipeline.h]: the doubly linked list
    of handler contexts, the map from names to contexts, the two single lists that
    events follow, and the delivery of events.  The contexts live in a store that
    pointers point into: [delete] removes a context, and the use of a pointer to
    a context that is gone is [Undefined].  The mutex is not modelled: the calls
    of a pipeline are taken one after the other. *)

From stdpp Require Import gmap strings.
From S2P Require Import Prelude.

(** ** Handlers *)

(** The four callbacks of [LifeCycleAwareChannelHandler]: whether they return or
    throw. *)
Record LifeCycle := MkLifeCycle {
  beforeAdd : result unit;
  afterAdd : result unit;
  beforeRemove : result unit;
  afterRemove : result unit;
}.

(** What the pipeline asks of a handler: the identity of the object, and the
    interfaces that its [dynamic_cast]s find. *)
Class ChannelHandler (H : Type) := {
  #[global] handler_eq_dec :: EqDecision H;
  isUpstream : H -> bool;
  isDownstream : H -> bool;
  lifeCycle : H -> option LifeCycle;
  handler_toString : H -> string;
}.

Module DefaultChannelPipeline.

Abbreviation addr := positive.

(** [DefaultChannelHandlerContext]. *)
Record context (H : Type) := MkContext {
  next : option addr;
  prev : option addr;
  nextUpstream : option addr;
  nextDownstream : option addr;
  canHandleUps : bool;
  canHandleDowns : bool;
  name : string;
  handler : H;
}.
Arguments MkContext {H} _ _ _ _ _ _ _ _.
Arguments next {H} _.
Arguments prev {H} _.
Arguments nextUpstream {H} _.
Arguments nextDownstream {H} _.
Arguments canHandleUps {H} _.
Arguments canHandleDowns {H} _.
Arguments name {H} _.
Arguments handler {H} _.

(** The sink: the null pointer, the shared [discardingSink], or the sink of a
    transport. *)
Inductive channelSink (S : Type) :=
  | NullSink
  | DiscardingSink
  | Sink (s : S).
Arguments NullSink {S}.
Arguments DiscardingSink {S}.
Arguments Sink {S} _.

(** The pipeline, with the store of its contexts and the next address of the
    store. *)
Record t (H C S : Type) := MkPipeline {
  store : gmap addr (context H);
  fresh : addr;
  name2ctx : gmap string addr;
  channel : option C;
  sink : channelSink S;
  head : option addr;
  tail : option addr;
  upstreamHead : option addr;
  downstreamHead : option addr;
}.
Arguments MkPipeline {H C S} _ _ _ _ _ _ _ _ _.
Arguments store {H C S} _.
Arguments fresh {H C S} _.
Arguments name2ctx {H C S} _.
Arguments channel {H C S} _.
Arguments sink {H C S} _.
Arguments head {H C S} _.
Arguments tail {H C S} _.
Arguments upstreamHead {H C S} _.
Arguments downstreamHead {H C S} _.

Section Pipeline.
Context {H : Type} {CH : ChannelHandler H} {C S : Type}.
Abbreviation context := (context H).
Abbreviation t := (t H C S).
Abbreviation PM := (M t).

Definition new : t := MkPipeline ∅ 1 ∅ None DiscardingSink None None None None.

(** *** Assignments to the members *)

Definition with_store (f : gmap addr context -> gmap addr context) (p : t) : t :=
  MkPipeline (f (store p)) (fresh p) (name2ctx p) (channel p) (sink p) (head p) (tail p)
    (upstreamHead p) (downstreamHead p).
Definition with_name2ctx (f : gmap string addr -> gmap string addr) (p : t) : t :=
  MkPipeline (store p) (fresh p) (f (name2ctx p)) (channel p) (sink p) (head p) (tail p)
    (upstreamHead p) (downstreamHead p).
Definition with_head (a : option addr) (p : t) : t :=
  MkPipeline (store p) (fresh p) (name2ctx p) (channel p) (sink p) a (tail p)
    (upstreamHead p) (downstreamHead p).
Definition with_tail (a : option addr) (p : t) : t :=
  MkPipeline (store p) (fresh p) (name2ctx p) (channel p) (sink p) (head p) a
    (upstreamHead p) (downstreamHead p).
Definition with_upstreamHead (a : option addr) (p : t) : t :=
  MkPipeline (store p) (fresh p) (name2ctx p) (channel p) (sink p) (head p) (tail p)
    a (downstreamHead p).
Definition with_downstreamHead (a : option addr) (p : t) : t :=
  MkPipeline (store p) (fresh p) (name2ctx p) (channel p) (sink p) (head p) (tail p)
    (upstreamHead p) a.

Definition with_next (a : option addr) (c : context) : context :=
  MkContext a (prev c) (nextUpstream c) (nextDownstream c) (canHandleUps c) (canHandleDowns c)
    (name c) (handler c).
Definition with_prev (a : option addr) (c : context) : context :=
  MkContext (next c) a (nextUpstream c) (nextDownstream c) (canHandleUps c) (canHandleDowns c)
    (name c) (handler c).
Definition with_nextUpstream (a : option addr) (c : context) : context :=
  MkContext (next c) (prev c) a (nextDownstream c) (canHandleUps c) (canHandleDowns c)
    (name c) (handler c).
Definition with_nextDownstream (a : option addr) (c : context) : context :=
  MkContext (next c) (prev c) (nextUpstream c) a (canHandleUps c) (canHandleDowns c)
    (name c) (handler c).

(** *** Pointers *)

Definition lookup_ctx (a : addr) (p : t) : result context :=
  match store p !! a with Some c => Ok c | None => Err Undefined end.

(** [*ptr]; the null pointer has no object. *)
Definition deref (a : addr) : PM context := reads (lookup_ctx a).
Definition non_null (a : option addr) : PM addr :=
  match a with Some a => ret a | None => throw Undefined end.

(** [ptr->member = value]. *)
Definition assign (a : addr) (f : context -> context) : PM unit :=
  let! c := deref a in modify (with_store (insert a (f c))).

Definition delete_ctx (a : addr) : PM unit :=
  let! _ := deref a in modify (with_store (base.delete a)).

(** [catch (const Exception&)]. *)
Definition try_catch {A} (m : PM A) (h : error -> PM A) : PM A := fun p =>
  match m p with
  | (Err Undefined, p) => (Err Undefined, p)
  | (Err e, p) => h e p
  | r => r
  end.

(** [new DefaultChannelHandlerContext(...)]. *)
Definition newContext (name : string) (handler : H) (prev next : option addr) : PM addr :=
  if negb (isUpstream handler) && negb (isDownstream handler) then throw InvalidArgumentException
  else
    let! p := gets id in
    modify (fun p => MkPipeline
      (<[fresh p := MkContext next prev None None (isUpstream handler) (isDownstream handler) name handler]>
        (store p)) (Pos.succ (fresh p)) (name2ctx p) (channel p) (sink p) (head p) (tail p)
      (upstreamHead p) (downstreamHead p)) ;!
    ret (fresh p).

(** *** The channel and the sink *)

Definition getChannel (p : t) : result C :=
  match channel p with None => Err IllegalStateException | Some c => Ok c end.

Definition getSink (p : t) : channelSink S :=
  match sink p with NullSink => DiscardingSink | s => s end.

Definition attach (newChannel : option C) (newSink : option S) : PM unit :=
  match newChannel, newSink with
  | None, _ => throw NullPointerException
  | Some _, None => throw NullPointerException
  | Some c, Some s =>
      let! p := gets id in
      match channel p, sink p with
      | None, DiscardingSink =>
          modify (fun p => MkPipeline (store p) (fresh p) (name2ctx p) (Some c) (Sink s) (head p) (tail p)
            (upstreamHead p) (downstreamHead p))
      | _, _ => throw IllegalStateException
      end
  end.

Definition isAttached (p : t) : bool :=
  match sink p with Sink _ => true | _ => false end.

(** *** The lists of the upstream and of the downstream handlers *)

(** Walks the list from its end. *)
Fixpoint updateUpstreamLoop (fuel : nat) (up : option addr) : PM unit :=
  match fuel, up with
  | _, None => ret tt
  | O, Some _ => throw Undefined
  | Datatypes.S fuel, Some a =>
      let! c := deref a in
      (if canHandleUps c then
         let! p := gets id in
         match upstreamHead p with
         | Some h => assign a (with_nextUpstream (Some h))
         | None => ret tt
         end ;!
         modify (with_upstreamHead (Some a))
       else ret tt) ;!
      let! c := deref a in updateUpstreamLoop fuel (prev c)
  end.

Fixpoint updateDownstreamLoop (fuel : nat) (down : option addr) : PM unit :=
  match fuel, down with
  | _, None => ret tt
  | O, Some _ => throw Undefined
  | Datatypes.S fuel, Some a =>
      let! c := deref a in
      (if canHandleDowns c then
         let! p := gets id in
         match downstreamHead p with
         | Some h => assign a (with_nextDownstream (Some h))
         | None => ret tt
         end ;!
         modify (with_downstreamHead (Some a))
       else ret tt) ;!
      let! c := deref a in updateDownstreamLoop fuel (next c)
  end.

(** A walk that meets more contexts than the store has does not end. *)
Definition walkFuel (p : t) : nat := size (store p).

Definition updateUpstreamList : PM unit :=
  let! p := gets id in
  modify (with_upstreamHead None) ;! updateUpstreamLoop (walkFuel p) (tail p).

Definition updateDownstreamList : PM unit :=
  let! p := gets id in
  modify (with_downstreamHead None) ;! updateDownstreamLoop (walkFuel p) (head p).

Definition updateLists (ups downs : bool) : PM unit :=
  (if ups then updateUpstreamList else ret tt) ;!
  (if downs then updateDownstreamList else ret tt).

(** *** Look-up *)

Definition getContextByName (n : string) (p : t) : option addr := name2ctx p !! n.

Fixpoint findHandler (fuel : nat) (h : H) (ctx : option addr) (p : t) : result (option addr) :=
  match fuel, ctx with
  | _, None => Ok None
  | O, Some _ => Err Undefined
  | Datatypes.S fuel, Some a =>
      let? c := lookup_ctx a p in
      if decide (handler c = h) then Ok (Some a) else findHandler fuel h (next c) p
  end.

(** [getContextNoLock(const ChannelHandlerPtr&)]; the loop dereferences the head
    before it tests it. *)
Definition getContextByHandler (h : option H) (p : t) : result (option addr) :=
  match h with
  | None => Err NullPointerException
  | Some h =>
      if decide (name2ctx p = ∅) then Ok None
      else match head p with
           | None => Err Undefined
           | a => findHandler (walkFuel p) h a p
           end
  end.

Definition getContextOrDie (n : string) : PM addr :=
  let! p := gets id in
  match getContextByName n p with None => throw RangeException | Some a => ret a end.

Definition getContextOrDieHandler (h : option H) : PM addr :=
  let! r := reads (getContextByHandler h) in
  match r with None => throw RangeException | Some a => ret a end.

Definition checkDuplicateName (n : string) : PM unit :=
  let! p := gets id in
  match name2ctx p !! n with Some _ => throw InvalidArgumentException | None => ret tt end.

(** *** The callbacks *)

Definition callback (which : LifeCycle -> result unit) (a : addr) : PM unit :=
  let! c := deref a in
  match lifeCycle (handler c) with
  | None => ret tt
  | Some l => try_catch (reads (fun _ => which l)) (fun _ => throw ChannelHandlerLifeCycleException)
  end.

Definition callBeforeAdd : addr -> PM unit := callback beforeAdd.
Definition callBeforeRemove : addr -> PM unit := callback beforeRemove.
Definition callAfterRemove : addr -> PM unit := callback afterRemove.

(** *** Removal *)

Definition removeFirst : PM H :=
  let! p := gets id in
  if decide (name2ctx p = ∅) then throw RangeException
  else match head p with
  | None => throw RangeException
  | Some oldHead =>
      callBeforeRemove oldHead ;!
      let! c := deref oldHead in
      match next c with
      | None => modify (fun p => with_name2ctx (fun _ => ∅) (with_head None (with_tail None p)))
      | Some n =>
          assign n (with_prev None) ;!
          modify (with_head (Some n)) ;!
          modify (with_name2ctx (base.delete (name c)))
      end ;!
      updateLists (canHandleUps c) (canHandleDowns c) ;!
      callAfterRemove oldHead ;!
      delete_ctx oldHead ;!
      ret (handler c)
  end.

Definition removeLast : PM H :=
  let! p := gets id in
  if decide (name2ctx p = ∅) then throw RangeException
  else match tail p with
  | None => throw RangeException
  | Some oldTail =>
      callBeforeRemove oldTail ;!
      let! c := deref oldTail in
      match prev c with
      | None => modify (fun p => with_name2ctx (fun _ => ∅) (with_head None (with_tail None p)))
      | Some n =>
          assign n (with_next None) ;!
          modify (with_tail (Some n)) ;!
          modify (with_name2ctx (base.delete (name c)))
      end ;!
      updateLists (canHandleUps c) (canHandleDowns c) ;!
      callAfterRemove oldTail ;!
      delete_ctx oldTail ;!
      ret (handler c)
  end.

(** [remove(DefaultChannelHandlerContext* )]. *)
Definition removeCtx (a : addr) : PM H :=
  let! p := gets id in
  if decide (head p = tail p) then
    modify (fun p => with_name2ctx (fun _ => ∅) (with_head None (with_tail None p))) ;!
    let! c := deref a in
    delete_ctx a ;! ret (handler c)
  else if decide (Some a = head p) then removeFirst
  else if decide (Some a = tail p) then removeLast
  else
    callBeforeRemove a ;!
    let! c := deref a in
    let! prev := non_null (prev c) in
    let! next := non_null (next c) in
    assign prev (with_next (Some next)) ;!
    assign next (with_prev (Some prev)) ;!
    updateLists (canHandleUps c) (canHandleDowns c) ;!
    modify (with_name2ctx (base.delete (name c))) ;!
    callAfterRemove a ;!
    delete_ctx a ;!
    ret (handler c).

Definition remove (n : string) : PM H := let! a := getContextOrDie n in removeCtx a.
Definition removeHandler (h : option H) : PM unit :=
  let! a := getContextOrDieHandler h in removeCtx a ;! ret tt.

(** *** Addition *)

(** A context whose [afterAdd] throws is removed again. *)
Definition callAfterAdd (a : addr) : PM unit :=
  let! c := deref a in
  match lifeCycle (handler c) with
  | None => ret tt
  | Some l =>
      try_catch (reads (fun _ => afterAdd l)) (fun _ =>
        try_catch (removeCtx a ;! ret tt) (fun _ => throw ChannelHandlerLifeCycleException))
  end.

Definition init (n : string) (h : H) : PM unit :=
  let! ctx := newContext n h None None in
  callBeforeAdd ctx ;!
  modify (fun p => with_head (Some ctx) (with_tail (Some ctx) p)) ;!
  let! c := deref ctx in
  (if canHandleUps c then modify (with_upstreamHead (Some ctx)) else ret tt) ;!
  (if canHandleDowns c then modify (with_downstreamHead (Some ctx)) else ret tt) ;!
  modify (with_name2ctx (fun _ => {[ n := ctx ]})) ;!
  callAfterAdd ctx.

(** The end of every addition. *)
Definition finishAdd (n : string) (ctx : addr) : PM unit :=
  let! c := deref ctx in
  updateLists (canHandleUps c) (canHandleDowns c) ;!
  modify (with_name2ctx (insert n ctx)) ;!
  callAfterAdd ctx.

Definition addFirst (n : string) (h : option H) : PM unit :=
  match h with
  | None => ret tt
  | Some h =>
      let! p := gets id in
      if decide (name2ctx p = ∅) then init n h
      else
        checkDuplicateName n ;!
        let oldHead := head p in
        let! newHead := newContext n h None oldHead in
        callBeforeAdd newHead ;!
        let! oldHead := non_null oldHead in
        assign oldHead (with_prev (Some newHead)) ;!
        modify (with_head (Some newHead)) ;!
        finishAdd n newHead
  end.

Definition addLast (n : string) (h : option H) : PM unit :=
  match h with
  | None => ret tt
  | Some h =>
      let! p := gets id in
      if decide (name2ctx p = ∅) then init n h
      else
        checkDuplicateName n ;!
        let oldTail := tail p in
        let! newTail := newContext n h oldTail None in
        callBeforeAdd newTail ;!
        let! oldTail := non_null oldTail in
        assign oldTail (with_next (Some newTail)) ;!
        modify (with_tail (Some newTail)) ;!
        finishAdd n newTail
  end.

Definition addBefore (baseName n : string) (h : option H) : PM unit :=
  match h with
  | None => ret tt
  | Some h =>
      let! ctx := getContextOrDie baseName in
      let! p := gets id in
      if decide (Some ctx = head p) then addFirst n (Some h)
      else
        checkDuplicateName n ;!
        let! c := deref ctx in
        let! newCtx := newContext n h (prev c) (Some ctx) in
        callBeforeAdd newCtx ;!
        let! before := non_null (prev c) in
        assign before (with_next (Some newCtx)) ;!
        assign ctx (with_prev (Some newCtx)) ;!
        finishAdd n newCtx
  end.

Definition addAfter (baseName n : string) (h : option H) : PM unit :=
  match h with
  | None => ret tt
  | Some h =>
      let! ctx := getContextOrDie baseName in
      let! p := gets id in
      if decide (Some ctx = tail p) then addLast n (Some h)
      else
        checkDuplicateName n ;!
        let! c := deref ctx in
        let! newCtx := newContext n h (Some ctx) (next c) in
        callBeforeAdd newCtx ;!
        let! after := non_null (next c) in
        assign after (with_prev (Some newCtx)) ;!
        assign ctx (with_next (Some newCtx)) ;!
        finishAdd n newCtx
  end.

(** *** Replacement *)

(** [try { m; ok = true; } catch (const ChannelHandlerLifeCycleException&)]. *)
Definition succeeded (m : PM unit) : PM bool := fun p =>
  match m p with
  | (Ok _, p) => (Ok true, p)
  | (Err ChannelHandlerLifeCycleException, p) => (Ok false, p)
  | (Err e, p) => (Err e, p)
  end.

(** The branch of a context in the middle of the list; the context is deleted
    by the caller. *)
Definition replaceMiddle (ctx : addr) (newName : string) (h : H) : PM H :=
  let! c := deref ctx in
  let sameName := bool_decide (name c = newName) in
  (if sameName then ret tt else checkDuplicateName newName) ;!
  let! newCtx := newContext newName h (prev c) (next c) in
  callBeforeRemove ctx ;!
  callBeforeAdd newCtx ;!
  let! before := non_null (prev c) in
  assign before (with_next (Some newCtx)) ;!
  let! after := non_null (next c) in
  assign after (with_prev (Some newCtx)) ;!
  let! new := deref newCtx in
  updateLists (canHandleUps new || canHandleUps c) (canHandleDowns new || canHandleDowns c) ;!
  (if sameName then ret tt
   else modify (fun p => with_name2ctx (fun m => <[newName := newCtx]> (base.delete (name c) m)) p)) ;!
  let! removed := succeeded (callAfterRemove ctx) in
  let! added := succeeded (callAfterAdd newCtx) in
  (if negb removed || negb added then delete_ctx ctx else ret tt) ;!
  if negb removed && negb added then deref ctx ;! throw ChannelHandlerLifeCycleException
  else if negb removed || negb added then throw ChannelHandlerLifeCycleException
  else let! c := deref ctx in ret (handler c).

Definition replaceCtx (ctx : addr) (newName : string) (newHandler : option H) : PM (option H) :=
  match newHandler with
  | None => ret None
  | Some h =>
      let! p := gets id in
      let! replaced :=
        (if decide (Some ctx = head p) then
           let! r := removeFirst in addFirst newName (Some h) ;! ret r
         else if decide (Some ctx = tail p) then
           let! r := removeLast in addLast newName (Some h) ;! ret r
         else replaceMiddle ctx newName h) in
      delete_ctx ctx ;!
      ret (Some replaced)
  end.

Definition replace (oldName newName : string) (newHandler : option H) : PM (option H) :=
  let! ctx := getContextOrDie oldName in replaceCtx ctx newName newHandler.
Definition replaceHandler (oldHandler : option H) (newName : string) (newHandler : option H) : PM unit :=
  let! ctx := getContextOrDieHandler oldHandler in replaceCtx ctx newName newHandler ;! ret tt.

(** *** Reading the pipeline *)

Definition handler_of (a : option addr) (p : t) : result (option H) :=
  match a with
  | None => Ok None
  | Some a => let? c := lookup_ctx a p in Ok (Some (handler c))
  end.

Definition getFirst (p : t) : result (option H) := handler_of (head p) p.
Definition getLast (p : t) : result (option H) := handler_of (tail p) p.
Definition get (n : string) (p : t) : result (option H) := handler_of (name2ctx p !! n) p.

Fixpoint walk (fuel : nat) (ctx : option addr) (p : t) : result (list (string * H)) :=
  match fuel, ctx with
  | _, None => Ok []
  | O, Some _ => Err Undefined
  | Datatypes.S fuel, Some a =>
      let? c := lookup_ctx a p in
      let? l := walk fuel (next c) p in
      Ok ((name c, handler c) :: l)
  end.

Definition toMap (p : t) : result (list (string * H)) :=
  if decide (name2ctx p = ∅) then Ok []
  else match head p with
       | None => Err Undefined
       | a => walk (walkFuel p) a p
       end.

(** [toString] has no test for the empty pipeline. *)
Definition toString (p : t) : result string :=
  match head p with
  | None => Err Undefined
  | a =>
      let? l := walk (walkFuel p) a p in
      Ok ("DefaultChannelPipeline {" +:+
          String.concat ", " (map (fun x => "(" +:+ fst x +:+ " = " +:+ handler_toString (snd x) +:+ ")") l)
          +:+ " }")%string
  end.

End Pipeline.

(** *** Events

    What handlers and sinks do with an event is a parameter, a program: it reads and
    writes a state [W] of theirs, makes sends of [A], in some order, and returns or
    throws. *)

Inductive prog (A W R : Type) :=
  | Returns (r : R)
  | Throws (x : error)
  | Sends (s : A) (k : prog A W R)
  | Reads (k : W -> prog A W R)
  | Writes (w : W) (k : prog A W R).
Arguments Returns {A W R} _.
Arguments Throws {A W R} _.
Arguments Sends {A W R} _ _.
Arguments Reads {A W R} _.
Arguments Writes {A W R} _ _.

Fixpoint andThen {A W R R'} (h : prog A W R) (k : R -> prog A W R') : prog A W R' :=
  match h with
  | Returns r => k r
  | Throws x => Throws x
  | Sends s h => Sends s (andThen h k)
  | Reads f => Reads (fun w => andThen (f w) k)
  | Writes w h => Writes w (andThen h k)
  end.

Definition asks {A W R} (f : W -> R) : prog A W R := Reads (fun w => Returns (f w)).
Definition updates {A W} (f : W -> W) : prog A W unit := Reads (fun w => Writes (f w) (Returns tt)).

(** [try] with a [catch] of all exceptions. *)
Fixpoint tryCatch {A W R} (h : prog A W R) (k : error -> prog A W R) : prog A W R :=
  match h with
  | Returns r => Returns r
  | Throws Undefined => Throws Undefined
  | Throws x => k x
  | Sends s h => Sends s (tryCatch h k)
  | Reads f => Reads (fun w => tryCatch (f w) k)
  | Writes w h => Writes w (tryCatch h k)
  end.

(** What may throw, without a send. *)
Definition ofResult {A W R} (r : result R) : prog A W R :=
  match r with Ok r => Returns r | Err x => Throws x end.

Fixpoint mapSends {A B W R} (f : A -> B) (h : prog A W R) : prog B W R :=
  match h with
  | Returns r => Returns r
  | Throws x => Throws x
  | Sends s h => Sends (f s) (mapSends f h)
  | Reads k => Reads (fun w => mapSends f (k w))
  | Writes w h => Writes w (mapSends f h)
  end.

(** The sends of the pipeline of a channel, which start at the heads of the lists,
    and those of a context, for its handler. *)
Inductive pipelineSend (C E : Type) :=
  | PipelineUpstream (c : C) (e : E)
  | PipelineDownstream (c : C) (e : E).
Arguments PipelineUpstream {C E} _ _.
Arguments PipelineDownstream {C E} _ _.

Inductive send (C E : Type) :=
  | SendUpstream (e : E)
  | SendDownstream (e : E)
  | SendPipeline (s : pipelineSend C E).
Arguments SendUpstream {C E} _.
Arguments SendDownstream {C E} _.
Arguments SendPipeline {C E} _.

Abbreviation handling C E W := (prog (send C E) W unit).
Abbreviation sinking C E W := (prog (pipelineSend C E) W unit).

(** The sends of a list of events, and then a return. *)
Definition sendEach {C E W} (l : list (send C E)) : handling C E W := foldr Sends (Returns tt) l.

(** A program over a part of the state. *)
Fixpoint lift {A V W R} (part : W -> V) (with_part : V -> W -> W) (h : prog A V R) : prog A W R :=
  match h with
  | Returns r => Returns r
  | Throws x => Throws x
  | Sends s h => Sends s (lift part with_part h)
  | Reads f => Reads (fun w => lift part with_part (f (part w)))
  | Writes v h => Reads (fun w => Writes (with_part v w) (lift part with_part h))
  end.

(** What is seen of the delivery: a handler, by the name of its context, is
    called with an event; the sink is given an event or the exception of a
    handler; a message is logged. *)
Inductive visit (E : Type) :=
  | HandledUpstream (n : string) (e : E)
  | HandledDownstream (n : string) (e : E)
  | Sunk (e : E)
  | ExceptionSunk (e : E)
  | Logged (e : E).
Arguments HandledUpstream {E} _ _.
Arguments HandledDownstream {E} _ _.
Arguments Sunk {E} _.
Arguments ExceptionSunk {E} _.
Arguments Logged {E} _.

Class Behaviour (H C E W : Type) := {
  handleUpstream : H -> E -> handling C E W;
  handleDownstream : H -> E -> handling C E W;
  (** the event is an [ExceptionEvent] *)
  isExceptionEvent : E -> bool;
  (** [eventSunk], [writeRequested] and [stateChangeRequested] of the sink, and its
      [exceptionCaught], which is given the event of the handler that threw *)
  sinkCall : E -> sinking C E W;
  sinkException : E -> sinking C E W;
}.

Section Delivery.
Context {H : Type} {CH : ChannelHandler H} {C S E W : Type} {BE : Behaviour H C E W}.
Abbreviation visits := (M W (list (visit E))).

(** The run of a program whose sends are made by [f]: what is seen, and what it
    returns or throws. *)
Fixpoint execute {A R} (f : A -> visits) (h : prog A W R) : M W (list (visit E) * result R) :=
  match h with
  | Returns r => ret ([], Ok r)
  | Throws Undefined => throw Undefined
  | Throws x => ret ([], Err x)
  | Sends s h => let! t := f s in let! r := execute f h in ret (t ++ fst r, snd r)
  | Reads k => let! w := gets id in execute f (k w)
  | Writes w h => modify (fun _ => w) ;! execute f h
  end.

(** A call whose exceptions are caught. *)
Definition handle {A R} (f : A -> visits) (caught : visits) (h : prog A W R) : visits :=
  let! r := execute f h in
  match snd r with
  | Ok _ => ret (fst r)
  | Err _ => let! t := caught in ret (fst r ++ t)
  end.

(** [notifyHandlerException] and the call of a sink; [f] makes the sends of the sink.
    The exceptions of [exceptionCaught] are logged; the [discardingSink] logs the
    events, and throws the exceptions that it is given. *)
Definition notifyHandlerException (f : pipelineSend C E -> visits) (s : channelSink S) (e : E) : visits :=
  if isExceptionEvent e then ret [Logged e]
  else
    match s with
    | NullSink => throw Undefined
    | DiscardingSink => ret [ExceptionSunk e; Logged e]
    | Sink _ => let! t := handle f (ret [Logged e]) (sinkException e) in ret (ExceptionSunk e :: t)
    end.

Definition callSink (f : pipelineSend C E -> visits) (s : channelSink S) (e : E) : visits :=
  match s with
  | NullSink => throw Undefined
  | DiscardingSink => ret [Sunk e; Logged e]
  | Sink _ => let! t := handle f (notifyHandlerException f s e) (sinkCall e) in ret (Sunk e :: t)
  end.

(** Who is called, in the pipeline of a channel. *)
Inductive target :=
  | ToUpstream (a : addr)
  | ToDownstream (a : addr)
  | ToSink.

(** The pipelines of the channels. *)
Variable pipelines : C -> option (t H C S).

(** The sends of a pipeline and those of a context, over the calls [inv]. *)
Definition sendPipeline (inv : C -> target -> E -> visits) (s : pipelineSend C E) : visits :=
  match s with
  | PipelineUpstream c e =>
      match pipelines c with
      | None => throw Undefined
      | Some p => match upstreamHead p with Some a => inv c (ToUpstream a) e | None => ret [Logged e] end
      end
  | PipelineDownstream c e =>
      match pipelines c with
      | None => throw Undefined
      | Some p => match downstreamHead p with Some a => inv c (ToDownstream a) e | None => inv c ToSink e end
      end
  end.

Definition sendContext (inv : C -> target -> E -> visits) (c : C) (ctx : context H) (s : send C E) : visits :=
  match s with
  | SendUpstream e =>
      match nextUpstream ctx with Some a => inv c (ToUpstream a) e | None => ret [] end
  | SendDownstream e =>
      match nextDownstream ctx with Some a => inv c (ToDownstream a) e | None => inv c ToSink e end
  | SendPipeline s => sendPipeline inv s
  end.

(** A call, and all that follows from it, the calls that it makes in turn through
    pipelines included; [fuel] bounds how deep calls are nested. *)
Fixpoint invoke (fuel : nat) (c : C) (to : target) (e : E) : visits :=
  match fuel, pipelines c with
  | Datatypes.S fuel, Some p =>
      let inv := invoke fuel in
      let caught := notifyHandlerException (sendPipeline inv) (sink p) in
      match to with
      | ToUpstream a =>
          let! ctx := reads (fun _ => lookup_ctx a p) in
          let! t := handle (sendContext inv c ctx) (caught e) (handleUpstream (handler ctx) e) in
          ret (HandledUpstream (name ctx) e :: t)
      | ToDownstream a =>
          let! ctx := reads (fun _ => lookup_ctx a p) in
          let! t := handle (sendContext inv c ctx) (caught e) (handleDownstream (handler ctx) e) in
          ret (HandledDownstream (name ctx) e :: t)
      | ToSink => callSink (sendPipeline inv) (sink p) e
      end
  | _, _ => throw Undefined
  end.

Definition deliver (fuel : nat) : pipelineSend C E -> visits := sendPipeline (invoke fuel).
Definition sendUpstream (fuel : nat) (c : C) (e : E) : visits := deliver fuel (PipelineUpstream c e).
Definition sendDownstream (fuel : nat) (c : C) (e : E) : visits := deliver fuel (PipelineDownstream c e).

(** A program that uses the pipelines from outside. *)
Definition run {R} (fuel : nat) (h : prog (pipelineSend C E) W R) : M W R :=
  let! r := execute (deliver fuel) h in
  reads (fun _ => snd r).

End Delivery.
End DefaultChannelPipeline.

Notation "'let+' x ':=' h 'in' k" := (DefaultChannelPipeline.andThen h (fun x => k))
  (at level 10, x pattern, h at level 100, k at level 200) : cetty_scope.
Notation "h ';+' k" := (DefaultChannelPipeline.andThen h (fun _ => k)) (at level 100, right associativity) : cetty_scope.
