(* ===== verification/PipelineProperties.v ===== *)
(** * What the pipeline does

    The lists of a pipeline as one list of nodes ([inv]); the additions and the
    removals as operations of that list; and the runs in which a pipeline is left
    with pointers to contexts that are gone. *)

From stdpp Require Import gmap strings.
From S2P Require Import Prelude Pipeline.
Import DefaultChannelPipeline.

(** ** The shape of the lists *)

Section Shape.
Context {H : Type} {CH : ChannelHandler H} {C S : Type}.
Abbreviation pipeline := (DefaultChannelPipeline.t H C S).

Record node := MkNode {
  at_ : addr;
  named : string;
  has : H;
}.

(** The first node of a list, its first upstream handler; its last node, its last
    downstream handler; or what follows or comes before the list. *)
Definition addr_of (ns : list node) (nx : option addr) : option addr :=
  match ns with [] => nx | x :: _ => Some (at_ x) end.
Fixpoint first_up (ns : list node) (un : option addr) : option addr :=
  match ns with
  | [] => un
  | x :: ns => if isUpstream (has x) then Some (at_ x) else first_up ns un
  end.
Fixpoint last_of (pv : option addr) (ns : list node) : option addr :=
  match ns with [] => pv | x :: ns => last_of (Some (at_ x)) ns end.
Definition down_of (dn : option addr) (x : node) : option addr :=
  if isDownstream (has x) then Some (at_ x) else dn.
Fixpoint last_down (dn : option addr) (ns : list node) : option addr :=
  match ns with [] => dn | x :: ns => last_down (down_of dn x) ns end.

(** The members of a context but the pointers of the single lists, ... *)
Abbreviation core := (option addr * option addr * bool * bool * string * H)%type.
Definition core_of (c : context H) : core :=
  (next c, prev c, canHandleUps c, canHandleDowns c, name c, handler c).
Definition K (p : pipeline) (a : addr) : option core := core_of <$> store p !! a.
(** ... and these. *)
Definition U (p : pipeline) (a : addr) : option (option addr) := nextUpstream <$> store p !! a.
Definition D (p : pipeline) (a : addr) : option (option addr) := nextDownstream <$> store p !! a.

Definition node_core (x : node) (nx pv : option addr) : core :=
  (nx, pv, isUpstream (has x), isDownstream (has x), named x, has x).

Fixpoint linked (k : addr -> option core) (pv : option addr) (ns : list node) (nx : option addr) : Prop :=
  match ns with
  | [] => True
  | x :: ns => k (at_ x) = Some (node_core x (addr_of ns nx) pv) /\ linked k (Some (at_ x)) ns nx
  end.

Fixpoint ups (u : addr -> option (option addr)) (ns : list node) (un : option addr) : Prop :=
  match ns with
  | [] => True
  | x :: ns => u (at_ x) = Some (if isUpstream (has x) then first_up ns un else None) /\ ups u ns un
  end.

Fixpoint downs (d : addr -> option (option addr)) (dn : option addr) (ns : list node) : Prop :=
  match ns with
  | [] => True
  | x :: ns => d (at_ x) = Some (if isDownstream (has x) then dn else None) /\ downs d (down_of dn x) ns
  end.

Definition addrs (ns : list node) : list addr := map at_ ns.

(** The pipeline holds exactly the nodes [ns], in order. *)
Record inv (p : pipeline) (ns : list node) : Prop := MkInv {
  inv_nodup : NoDup (addrs ns);
  inv_names n a : name2ctx p !! n = Some a <-> exists x, x ∈ ns /\ named x = n /\ at_ x = a;
  inv_linked : linked (K p) None ns None;
  inv_ups : ups (U p) ns None;
  inv_downs : downs (D p) None ns;
  inv_head : head p = addr_of ns None;
  inv_tail : tail p = last_of None ns;
  inv_upstreamHead : upstreamHead p = first_up ns None;
  inv_downstreamHead : downstreamHead p = last_down None ns;
  inv_fresh a : K p a <> None -> (a < fresh p)%positive;
}.

Definition contents (ns : list node) : list (string * H) := map (fun x => (named x, has x)) ns.

(** *** Lists in two parts *)

Lemma addr_of_app l1 l2 nx : addr_of (l1 ++ l2) nx = addr_of l1 (addr_of l2 nx).
Proof. destruct l1; reflexivity. Qed.
Lemma first_up_app l1 l2 un : first_up (l1 ++ l2) un = first_up l1 (first_up l2 un).
Proof. induction l1 as [|x l1 IH]; [reflexivity|]. cbn. rewrite IH. reflexivity. Qed.
Lemma last_of_app pv l1 l2 : last_of pv (l1 ++ l2) = last_of (last_of pv l1) l2.
Proof. revert pv. induction l1 as [|x l1 IH]; intros pv; [reflexivity | apply IH]. Qed.
Lemma last_down_app dn l1 l2 : last_down dn (l1 ++ l2) = last_down (last_down dn l1) l2.
Proof. revert dn. induction l1 as [|x l1 IH]; intros dn; [reflexivity | apply IH]. Qed.

Lemma linked_app k pv l1 l2 nx :
  linked k pv (l1 ++ l2) nx <-> linked k pv l1 (addr_of l2 nx) /\ linked k (last_of pv l1) l2 nx.
Proof.
  revert pv. induction l1 as [|x l1 IH]; intros pv; cbn; [tauto|].
  rewrite addr_of_app, IH. tauto.
Qed.

Lemma ups_app u l1 l2 un : ups u (l1 ++ l2) un <-> ups u l1 (first_up l2 un) /\ ups u l2 un.
Proof. induction l1 as [|x l1 IH]; cbn; [tauto|]. rewrite first_up_app, IH. tauto. Qed.

Lemma downs_app d dn l1 l2 : downs d dn (l1 ++ l2) <-> downs d dn l1 /\ downs d (last_down dn l1) l2.
Proof. revert dn. induction l1 as [|x l1 IH]; intros dn; cbn; [tauto|]. rewrite IH. tauto. Qed.

(** *** The predicates depend on the nodes of the list only *)

Lemma linked_ext k k' pv ns nx :
  (forall a, a ∈ addrs ns -> k' a = k a) -> linked k pv ns nx -> linked k' pv ns nx.
Proof.
  revert pv. induction ns as [|x ns IH]; intros pv He; cbn; [auto|]. intros [H1 H2].
  split; [rewrite He by left; exact H1 | apply IH; [|exact H2]]. intros a Ha. apply He. right. exact Ha.
Qed.

Lemma ups_ext u u' ns un : (forall a, a ∈ addrs ns -> u' a = u a) -> ups u ns un -> ups u' ns un.
Proof.
  induction ns as [|x ns IH]; intros He; cbn; [auto|]. intros [H1 H2].
  split; [rewrite He by left; exact H1 | apply IH; [|exact H2]]. intros a Ha. apply He. right. exact Ha.
Qed.

Lemma downs_ext d d' dn ns : (forall a, a ∈ addrs ns -> d' a = d a) -> downs d dn ns -> downs d' dn ns.
Proof.
  revert dn. induction ns as [|x ns IH]; intros dn He; cbn; [auto|]. intros [H1 H2].
  split; [rewrite He by left; exact H1 | apply IH; [|exact H2]]. intros a Ha. apply He. right. exact Ha.
Qed.

Lemma linked_in k pv ns nx a : linked k pv ns nx -> a ∈ addrs ns -> k a <> None.
Proof.
  revert pv. induction ns as [|x ns IH]; intros pv; cbn; [intros _ Ha; inversion Ha|].
  intros [H1 H2] Ha. apply elem_of_cons in Ha as [->|Ha]; [congruence | exact (IH _ H2 Ha)].
Qed.

(** The walks have enough fuel. *)
Lemma linked_size (p : pipeline) pv ns nx :
  NoDup (addrs ns) -> linked (K p) pv ns nx -> (length ns <= walkFuel p)%nat.
Proof.
  intros Hn Hl. unfold walkFuel. rewrite <- (length_map at_). change (map at_ ns) with (addrs ns).
  rewrite <- size_dom. rewrite <- (size_list_to_set (C := gset addr)) by exact Hn.
  apply subseteq_size. intros a Ha. apply elem_of_list_to_set in Ha.
  apply elem_of_dom. pose proof (linked_in _ _ _ _ a Hl Ha) as Hk. unfold K in Hk.
  destruct (store p !! a); [eauto | contradiction].
Qed.

End Shape.
Arguments node : clear implicits.

(** ** The walks that rebuild the single lists *)

Section Walks.
Context {H : Type} {CH : ChannelHandler H} {C S : Type}.
Abbreviation pipeline := (DefaultChannelPipeline.t H C S).
Abbreviation node := (node H).

Lemma K_insert a c (p : pipeline) b :
  K (with_store (insert a c) p) b = if decide (b = a) then Some (core_of c) else K p b.
Proof. unfold K. cbn. destruct (decide (b = a)) as [->|]; simplify_map_eq; reflexivity. Qed.
Lemma U_insert a c (p : pipeline) b :
  U (with_store (insert a c) p) b = if decide (b = a) then Some (nextUpstream c) else U p b.
Proof. unfold U. cbn. destruct (decide (b = a)) as [->|]; simplify_map_eq; reflexivity. Qed.
Lemma D_insert a c (p : pipeline) b :
  D (with_store (insert a c) p) b = if decide (b = a) then Some (nextDownstream c) else D p b.
Proof. unfold D. cbn. destruct (decide (b = a)) as [->|]; simplify_map_eq; reflexivity. Qed.

Lemma K_store (p : pipeline) a nx pv ups downs n h :
  K p a = Some (nx, pv, ups, downs, n, h) ->
  exists c, store p !! a = Some c /\ next c = nx /\ prev c = pv /\ canHandleUps c = ups /\
    canHandleDowns c = downs /\ name c = n /\ handler c = h.
Proof.
  unfold K, core_of. destruct (store p !! a) as [c|]; cbn; [|discriminate].
  intros [= <- <- <- <- <- <-]. exists c. auto 7.
Qed.

Lemma deref_ok (p : pipeline) a c : store p !! a = Some c -> deref a p = (Ok c, p).
Proof. unfold deref, reads, lookup_ctx. intros ->. reflexivity. Qed.

Lemma bind_deref {A} (p : pipeline) a c (k : context H -> M pipeline A) :
  store p !! a = Some c -> bind (deref a) k p = k c p.
Proof. intros E. apply bind_ok, deref_ok, E. Qed.

Lemma assign_ok (p : pipeline) a c f :
  store p !! a = Some c -> assign a f p = (Ok tt, with_store (insert a (f c)) p).
Proof. intros E. unfold assign. rewrite (bind_deref _ _ _ _ E). reflexivity. Qed.

Lemma bind_assign {A} (p : pipeline) a c f (k : unit -> M pipeline A) :
  store p !! a = Some c -> bind (assign a f) k p = k tt (with_store (insert a (f c)) p).
Proof. intros E. apply bind_ok, assign_ok, E. Qed.

(** Equal but for the single lists. *)
Record same_lists (p p' : pipeline) : Prop := MkSame {
  same_K a : K p' a = K p a;
  same_fresh : fresh p' = fresh p;
  same_names : name2ctx p' = name2ctx p;
  same_channel : channel p' = channel p;
  same_sink : sink p' = sink p;
  same_head : head p' = head p;
  same_tail : tail p' = tail p;
}.

Lemma same_refl p : same_lists p p.
Proof. split; reflexivity. Qed.
Lemma same_trans p q r : same_lists p q -> same_lists q r -> same_lists p r.
Proof. intros [] []. split; intros; congruence. Qed.

(** What the upstream walk does to the pointers of a list: the handlers that have
    a next one point to it, the others keep what they had. *)
Fixpoint ups_upd (u u' : addr -> option (option addr)) (ns : list node) (un : option addr) : Prop :=
  match ns with
  | [] => True
  | x :: ns =>
      u' (at_ x) = (if isUpstream (has x)
                    then match first_up ns un with Some b => Some (Some b) | None => u (at_ x) end
                    else u (at_ x)) /\
      ups_upd u u' ns un
  end.

Fixpoint downs_upd (d d' : addr -> option (option addr)) (dn : option addr) (ns : list node) : Prop :=
  match ns with
  | [] => True
  | x :: ns =>
      d' (at_ x) = (if isDownstream (has x)
                    then match dn with Some b => Some (Some b) | None => d (at_ x) end
                    else d (at_ x)) /\
      downs_upd d d' (down_of dn x) ns
  end.

Lemma ups_upd_app u u' l1 l2 un :
  ups_upd u u' (l1 ++ l2) un <-> ups_upd u u' l1 (first_up l2 un) /\ ups_upd u u' l2 un.
Proof. induction l1 as [|x l1 IH]; cbn; [tauto|]. rewrite first_up_app, IH. tauto. Qed.

Lemma ups_upd_ext u v u' ns un :
  (forall a, a ∈ addrs ns -> v a = u a) -> ups_upd v u' ns un -> ups_upd u u' ns un.
Proof.
  induction ns as [|x ns IH]; intros He; cbn; [auto|]. intros [H1 H2].
  split; [rewrite H1, He by left; reflexivity | apply IH; [|exact H2]]. intros a Ha. apply He. right. exact Ha.
Qed.

Lemma downs_upd_ext d e d' dn ns :
  (forall a, a ∈ addrs ns -> e a = d a) -> downs_upd e d' dn ns -> downs_upd d d' dn ns.
Proof.
  revert dn. induction ns as [|x ns IH]; intros dn He; cbn; [auto|]. intros [H1 H2].
  split; [rewrite H1, He by left; reflexivity | apply IH; [|exact H2]]. intros a Ha. apply He. right. exact Ha.
Qed.

(** One turn of the upstream walk. *)
Definition up_turn (a : addr) (c : context H) : M pipeline unit :=
  if canHandleUps c then
    let! p := gets id in
    match upstreamHead p with
    | Some h => assign a (with_nextUpstream (Some h))
    | None => ret tt
    end ;!
    modify (with_upstreamHead (Some a))
  else ret tt.

Lemma up_turn_spec (p : pipeline) a c :
  store p !! a = Some c ->
  exists p', up_turn a c p = (Ok tt, p') /\ same_lists p p' /\ downstreamHead p' = downstreamHead p /\
    (forall b, D p' b = D p b) /\
    upstreamHead p' = (if canHandleUps c then Some a else upstreamHead p) /\
    (forall b, U p' b = if decide (b = a) then
       (if canHandleUps c then match upstreamHead p with Some h => Some (Some h) | None => U p a end else U p a)
       else U p b).
Proof.
  intros E. unfold up_turn. destruct (canHandleUps c).
  - rewrite bind_gets. unfold id. destruct (upstreamHead p) as [h|] eqn:Eh.
    + rewrite (bind_assign _ _ _ _ _ E). eexists. split; [reflexivity|].
      split; [split; try reflexivity|]; [|split; [reflexivity | split; [|split; [reflexivity|]]]]; intros b;
        rewrite ?(K_insert a), ?(D_insert a), ?(U_insert a).
      * unfold K. cbn. destruct (decide (b = a)) as [->|Hb]; simplify_map_eq; reflexivity.
      * unfold D. cbn. destruct (decide (b = a)) as [->|Hb]; simplify_map_eq; reflexivity.
      * unfold U. cbn. destruct (decide (b = a)) as [->|Hb]; simplify_map_eq; reflexivity.
    + rewrite bind_ret_l. eexists. split; [reflexivity|].
      split; [split; reflexivity|]. split; [reflexivity|]. split; [reflexivity|]. split; [reflexivity|].
      intros b. destruct (decide (b = a)) as [->|]; reflexivity.
  - exists p. split; [reflexivity|]. split; [apply same_refl|].
    repeat (split; [reflexivity|]). intros b. destruct (decide (b = a)) as [->|]; reflexivity.
Qed.

Lemma updateUpstreamLoop_S fuel a (p : pipeline) c :
  store p !! a = Some c ->
  updateUpstreamLoop (Datatypes.S fuel) (Some a) p =
    (up_turn a c ;! let! c := deref a in updateUpstreamLoop fuel (prev c)) p.
Proof. intros E. cbn [updateUpstreamLoop]. rewrite (bind_deref _ _ _ _ E). reflexivity. Qed.

Lemma updateUpstreamLoop_spec fuel ns pv (p : pipeline) nx :
  linked (K p) None ns nx -> NoDup (addrs ns) -> (length ns <= fuel)%nat -> last_of None ns = pv ->
  exists p', updateUpstreamLoop fuel pv p = (Ok tt, p') /\ same_lists p p' /\
    downstreamHead p' = downstreamHead p /\ (forall b, D p' b = D p b) /\
    upstreamHead p' = first_up ns (upstreamHead p) /\
    ups_upd (U p) (U p') ns (upstreamHead p) /\
    (forall b, b ∉ addrs ns -> U p' b = U p b).
Proof.
  revert fuel pv p nx. induction ns as [|x ns IH] using rev_ind; intros fuel pv p nx Hl Hn Hf <-.
  { exists p. destruct fuel; (split; [reflexivity|]; split; [apply same_refl|]; cbn; auto 7). }
  rewrite length_app in Hf. cbn in Hf. destruct fuel as [|fuel]; [lia|].
  rewrite last_of_app. cbn [last_of]. apply linked_app in Hl as [Hl [Hx _]]. cbn [addr_of] in Hl, Hx.
  unfold addrs in Hn. rewrite map_app in Hn. cbn [map] in Hn. apply list.NoDup_app in Hn as (Hn & Hdis & _).
  assert (at_ x ∉ addrs ns) as Hnotin.
  { intros Hin. apply (Hdis _ Hin). left. }
  destruct (K_store _ _ _ _ _ _ _ _ Hx) as (c & Ec & _ & Epv & Eups & _).
  rewrite (updateUpstreamLoop_S _ _ _ _ Ec).
  destruct (up_turn_spec p (at_ x) c Ec) as (p1 & E1 & Hs1 & Hd1 & HD1 & Hu1 & HU1).
  rewrite (bind_ok _ _ _ _ _ E1).
  assert (K p1 (at_ x) = K p (at_ x)) as Hk1 by apply Hs1. rewrite Hx in Hk1.
  destruct (K_store _ _ _ _ _ _ _ _ Hk1) as (c1 & Ec1 & _ & Epv1 & _).
  rewrite (bind_deref _ _ _ _ Ec1), Epv1. rewrite Eups in Hu1.
  destruct (IH fuel (last_of None ns) p1 (Some (at_ x))) as (p2 & E2 & Hs2 & Hd2 & HD2 & Hu2 & HU2 & HF2);
    [eapply linked_ext; [|exact Hl]; intros a _; apply Hs1 | exact Hn | lia | reflexivity |].
  exists p2. split; [exact E2|]. split; [exact (same_trans _ _ _ Hs1 Hs2)|].
  split; [congruence|]. split; [intros b; rewrite HD2; apply HD1|].
  rewrite first_up_app. cbn [first_up]. rewrite <- Hu1. split; [exact Hu2|]. split.
  - apply ups_upd_app. cbn [first_up ups_upd]. rewrite <- Hu1. split.
    + eapply ups_upd_ext; [|exact HU2]. intros a Ha. rewrite HU1. destruct (decide (a = at_ x)) as [->|]; [contradiction | reflexivity].
    + split; [|exact Logic.I]. rewrite HF2 by exact Hnotin. rewrite HU1, Eups.
      destruct (decide (at_ x = at_ x)); [reflexivity | contradiction].
  - intros b Hb. unfold addrs in Hb. rewrite map_app in Hb. apply not_elem_of_app in Hb as [Hb1 Hb2].
    rewrite HF2 by exact Hb1. rewrite HU1. destruct (decide (b = at_ x)) as [->|]; [|reflexivity].
    exfalso. apply Hb2. left.
Qed.

(** One turn of the downstream walk. *)
Definition down_turn (a : addr) (c : context H) : M pipeline unit :=
  if canHandleDowns c then
    let! p := gets id in
    match downstreamHead p with
    | Some h => assign a (with_nextDownstream (Some h))
    | None => ret tt
    end ;!
    modify (with_downstreamHead (Some a))
  else ret tt.

Lemma down_turn_spec (p : pipeline) a c :
  store p !! a = Some c ->
  exists p', down_turn a c p = (Ok tt, p') /\ same_lists p p' /\ upstreamHead p' = upstreamHead p /\
    (forall b, U p' b = U p b) /\
    downstreamHead p' = (if canHandleDowns c then Some a else downstreamHead p) /\
    (forall b, D p' b = if decide (b = a) then
       (if canHandleDowns c then match downstreamHead p with Some h => Some (Some h) | None => D p a end else D p a)
       else D p b).
Proof.
  intros E. unfold down_turn. destruct (canHandleDowns c).
  - rewrite bind_gets. unfold id. destruct (downstreamHead p) as [h|] eqn:Eh.
    + rewrite (bind_assign _ _ _ _ _ E). eexists. split; [reflexivity|].
      split; [split; try reflexivity|]; [|split; [reflexivity | split; [|split; [reflexivity|]]]]; intros b.
      * unfold K. cbn. destruct (decide (b = a)) as [->|Hb]; simplify_map_eq; reflexivity.
      * unfold U. cbn. destruct (decide (b = a)) as [->|Hb]; simplify_map_eq; reflexivity.
      * unfold D. cbn. destruct (decide (b = a)) as [->|Hb]; simplify_map_eq; reflexivity.
    + rewrite bind_ret_l. eexists. split; [reflexivity|].
      split; [split; reflexivity|]. split; [reflexivity|]. split; [reflexivity|]. split; [reflexivity|].
      intros b. destruct (decide (b = a)) as [->|]; reflexivity.
  - exists p. split; [reflexivity|]. split; [apply same_refl|].
    repeat (split; [reflexivity|]). intros b. destruct (decide (b = a)) as [->|]; reflexivity.
Qed.

Lemma updateDownstreamLoop_S fuel a (p : pipeline) c :
  store p !! a = Some c ->
  updateDownstreamLoop (Datatypes.S fuel) (Some a) p =
    (down_turn a c ;! let! c := deref a in updateDownstreamLoop fuel (next c)) p.
Proof. intros E. cbn [updateDownstreamLoop]. rewrite (bind_deref _ _ _ _ E). reflexivity. Qed.

Lemma updateDownstreamLoop_spec fuel ns pv (p : pipeline) :
  linked (K p) pv ns None -> NoDup (addrs ns) -> (length ns <= fuel)%nat ->
  exists p', updateDownstreamLoop fuel (addr_of ns None) p = (Ok tt, p') /\ same_lists p p' /\
    upstreamHead p' = upstreamHead p /\ (forall b, U p' b = U p b) /\
    downstreamHead p' = last_down (downstreamHead p) ns /\
    downs_upd (D p) (D p') (downstreamHead p) ns /\
    (forall b, b ∉ addrs ns -> D p' b = D p b).
Proof.
  revert fuel pv p. induction ns as [|x ns IH]; intros fuel pv p Hl Hn Hf.
  { exists p. destruct fuel; (split; [reflexivity|]; split; [apply same_refl|]; cbn; auto 7). }
  cbn in Hf. destruct fuel as [|fuel]; [lia|]. cbn [addr_of]. destruct Hl as [Hx Hl].
  cbn [addrs map] in Hn. apply list.NoDup_cons in Hn as [Hnotin Hn].
  destruct (K_store _ _ _ _ _ _ _ _ Hx) as (c & Ec & _ & _ & _ & Edown & _).
  rewrite (updateDownstreamLoop_S _ _ _ _ Ec).
  destruct (down_turn_spec p (at_ x) c Ec) as (p1 & E1 & Hs1 & Hu1 & HU1 & Hd1 & HD1).
  rewrite (bind_ok _ _ _ _ _ E1).
  assert (K p1 (at_ x) = K p (at_ x)) as Hk1 by apply Hs1. rewrite Hx in Hk1.
  destruct (K_store _ _ _ _ _ _ _ _ Hk1) as (c1 & Ec1 & Enx1 & _).
  rewrite (bind_deref _ _ _ _ Ec1), Enx1. rewrite Edown in Hd1. fold (down_of (downstreamHead p) x) in Hd1.
  destruct (IH fuel (Some (at_ x)) p1) as (p2 & E2 & Hs2 & Hu2 & HU2 & Hd2 & HD2 & HF2);
    [eapply linked_ext; [|exact Hl]; intros a _; apply Hs1 | exact Hn | lia |].
  exists p2. split; [exact E2|]. split; [exact (same_trans _ _ _ Hs1 Hs2)|].
  split; [congruence|]. split; [intros b; rewrite HU2; apply HU1|].
  cbn [last_down downs_upd]. rewrite <- Hd1. split; [exact Hd2|]. split; [split|].
  - rewrite HF2 by exact Hnotin. rewrite HD1, Edown. destruct (decide (at_ x = at_ x)); [reflexivity | contradiction].
  - eapply downs_upd_ext; [|exact HD2]. intros a Ha. rewrite HD1.
    destruct (decide (a = at_ x)) as [->|]; [contradiction | reflexivity].
  - intros b Hb. cbn [addrs map] in Hb. apply not_elem_of_cons in Hb as [Hb1 Hb2].
    rewrite HF2 by exact Hb2. rewrite HD1. destruct (decide (b = at_ x)); [contradiction | reflexivity].
Qed.

(** [updateLists] on a well-linked list. *)
Lemma updateLists_spec (p : pipeline) ns (doUps doDowns : bool) :
  linked (K p) None ns None -> NoDup (addrs ns) -> head p = addr_of ns None -> tail p = last_of None ns ->
  exists p', updateLists doUps doDowns p = (Ok tt, p') /\ same_lists p p' /\
    upstreamHead p' = (if doUps then first_up ns None else upstreamHead p) /\
    downstreamHead p' = (if doDowns then last_down None ns else downstreamHead p) /\
    (if doUps then ups_upd (U p) (U p') ns None else forall b, U p' b = U p b) /\
    (if doDowns then downs_upd (D p) (D p') None ns else forall b, D p' b = D p b).
Proof.
  intros Hl Hn Hh Ht.
  assert (exists p1, (if doUps then updateUpstreamList else ret tt) p = (Ok tt, p1) /\ same_lists p p1 /\
    downstreamHead p1 = downstreamHead p /\ (forall b, D p1 b = D p b) /\
    upstreamHead p1 = (if doUps then first_up ns None else upstreamHead p) /\
    (if doUps then ups_upd (U p) (U p1) ns None else forall b, U p1 b = U p b)) as
    (p1 & E1 & Hs1 & Hd1 & HD1 & Hu1 & HU1).
  { destruct doUps; [|exists p; split; [reflexivity|]; split; [apply same_refl|]; auto].
    unfold updateUpstreamList. rewrite bind_gets, bind_modify.
    destruct (updateUpstreamLoop_spec (walkFuel p) ns (tail p) (with_upstreamHead None p) None)
      as (p1 & E1 & Hs & Hd & HD & Hu & HU & _); [exact Hl | exact Hn | | congruence |].
    { exact (linked_size p None ns None Hn Hl). }
    exists p1. split; [exact E1|]. split; [|auto 6].
    eapply same_trans; [|exact Hs]. split; reflexivity. }
  assert (linked (K p1) None ns None) as Hl1 by (eapply linked_ext; [|exact Hl]; intros a _; apply Hs1).
  unfold updateLists. rewrite (bind_ok _ _ _ _ _ E1).
  destruct doDowns.
  - unfold updateDownstreamList. rewrite bind_gets, bind_modify.
    destruct (updateDownstreamLoop_spec (walkFuel p1) ns None (with_downstreamHead None p1))
      as (p2 & E2 & Hs2 & Hu2 & HU2 & Hd2 & HD2 & _); [exact Hl1 | exact Hn | exact (linked_size p1 None ns None Hn Hl1) |].
    exists p2. change (head p1) with (head (with_downstreamHead None p1)) in *.
    assert (head p1 = addr_of ns None) as Eh by (rewrite (same_head _ _ Hs1); exact Hh).
    unfold id. rewrite Eh. split; [exact E2|].
    split; [eapply same_trans; [exact Hs1|]; eapply same_trans; [|exact Hs2]; split; reflexivity|].
    split; [rewrite Hu2; exact Hu1|]. split; [exact Hd2|]. split.
    + destruct doUps.
      * clear - HU1 HU2. induction ns as [|x ns IH]; cbn in *; [auto|]. destruct HU1 as [H1 H2].
        split; [rewrite HU2; exact H1 | exact (IH H2)].
      * intros b. rewrite HU2. apply HU1.
    + eapply downs_upd_ext; [|exact HD2]. intros a _. apply HD1.
  - exists p1. split; [reflexivity|]. split; [exact Hs1|]. split; [exact Hu1|]. split; [exact Hd1|]. auto.
Qed.

(** *** A new node in the single lists *)

Lemma downs_upd_app d d' dn (l1 l2 : list node) :
  downs_upd d d' dn (l1 ++ l2) <-> downs_upd d d' dn l1 /\ downs_upd d d' (last_down dn l1) l2.
Proof. revert dn. induction l1 as [|x l1 IH]; intros dn; cbn; [tauto|]. rewrite IH. tauto. Qed.

Lemma ups_insert u u' (l1 l2 : list node) x :
  ups u (l1 ++ l2) None -> u (at_ x) = Some None ->
  (if isUpstream (has x) then ups_upd u u' (l1 ++ x :: l2) None else forall b, u' b = u b) ->
  ups u' (l1 ++ x :: l2) None.
Proof.
  intros Hu Hx. apply ups_app in Hu as [H1 H2]. destruct (isUpstream (has x)) eqn:Ex.
  - intros Hupd. apply ups_upd_app in Hupd as [Hupd1 [Hupdx Hupd2]]. cbn [first_up] in Hupd1. rewrite Ex in *.
    apply ups_app. cbn [first_up ups]. rewrite Ex. split; [|split].
    + clear - Hupd1 H1. induction l1 as [|y l1 IH]; [exact Logic.I|]. cbn in *.
      destruct Hupd1 as [Hy Hupd1], H1 as [Hy' H1]. split; [|exact (IH H1 Hupd1)].
      rewrite Hy, Hy'. destruct (isUpstream (has y)); [|reflexivity].
      destruct (first_up l1 (Some (at_ x))) as [b|] eqn:E; [reflexivity|].
      exfalso. clear - E. induction l1 as [|z l1 IH]; [discriminate|]. cbn in E.
      destruct (isUpstream (has z)); [discriminate | exact (IH E)].
    + rewrite Hupdx, Hx. destruct (first_up l2 None); reflexivity.
    + clear - Hupd2 H2. induction l2 as [|y l2 IH]; [exact Logic.I|]. cbn in *.
      destruct Hupd2 as [Hy Hupd2], H2 as [Hy' H2]. split; [|exact (IH H2 Hupd2)].
      rewrite Hy, Hy'. destruct (isUpstream (has y)); [|reflexivity].
      destruct (first_up l2 None); reflexivity.
  - intros Hsame. apply (ups_ext u); [intros a _; apply Hsame|].
    apply ups_app. cbn. rewrite Ex. auto.
Qed.

Lemma downs_upd_same d d' dn (l : list node) : downs d dn l -> downs_upd d d' dn l -> downs d' dn l.
Proof.
  revert dn. induction l as [|y l IH]; intros dn; cbn; [auto|]. intros [H1 H2] [Hy Hupd].
  split; [|exact (IH _ H2 Hupd)]. rewrite Hy, H1. destruct (isDownstream (has y)); [|reflexivity].
  destruct dn; reflexivity.
Qed.

Lemma downs_upd_some d d' dn b (l : list node) :
  downs d dn l -> downs_upd d d' (Some b) l -> downs d' (Some b) l.
Proof.
  revert dn b. induction l as [|y l IH]; intros dn b; cbn; [auto|]. intros [H1 H2] [Hy Hupd].
  split; [rewrite Hy, H1; destruct (isDownstream (has y)); reflexivity|].
  assert (exists b', down_of (Some b) y = Some b') as [b' Eb]
    by (unfold down_of; destruct (isDownstream (has y)); eauto).
  rewrite Eb in *. exact (IH _ _ H2 Hupd).
Qed.

Lemma downs_insert d d' (l1 l2 : list node) x :
  downs d None (l1 ++ l2) -> d (at_ x) = Some None ->
  (if isDownstream (has x) then downs_upd d d' None (l1 ++ x :: l2) else forall b, d' b = d b) ->
  downs d' None (l1 ++ x :: l2).
Proof.
  intros Hd Hx. apply downs_app in Hd as [H1 H2]. destruct (isDownstream (has x)) eqn:Ex.
  - intros Hupd. apply downs_upd_app in Hupd as [Hupd1 [Hupdx Hupd2]]. apply downs_app. cbn [downs].
    unfold down_of in *. rewrite Ex in *. split; [exact (downs_upd_same _ _ _ _ H1 Hupd1)|].
    split; [|exact (downs_upd_some _ _ _ _ _ H2 Hupd2)].
    rewrite Hupdx, Hx. destruct (last_down None l1); reflexivity.
  - intros Hsame. apply (downs_ext d); [intros a _; apply Hsame|].
    apply downs_app. cbn. unfold down_of. rewrite Ex. auto.
Qed.

End Walks.

(** ** Additions *)

Section Additions.
Context {H : Type} {CH : ChannelHandler H} {C S : Type}.
Abbreviation pipeline := (DefaultChannelPipeline.t H C S).
Abbreviation node := (node H).

(** How a callback of a handler ends. *)
Definition cb (which : LifeCycle -> result unit) (h : H) : result unit :=
  match lifeCycle h with
  | None => Ok tt
  | Some l => match which l with
              | Ok _ => Ok tt
              | Err Undefined => Err Undefined
              | Err _ => Err ChannelHandlerLifeCycleException
              end
  end.

Lemma callback_cb which a (p : pipeline) c :
  store p !! a = Some c -> callback which a p = (cb which (handler c), p).
Proof.
  intros E. unfold callback, cb. rewrite (bind_deref _ _ _ _ E).
  destruct (lifeCycle (handler c)) as [l|]; [|reflexivity].
  unfold try_catch, reads. destruct (which l) as [[]|[]]; reflexivity.
Qed.

Lemma callAfterAdd_ok a (p : pipeline) c :
  store p !! a = Some c -> cb afterAdd (handler c) = Ok tt -> callAfterAdd a p = (Ok tt, p).
Proof.
  intros E Hcb. unfold callAfterAdd, cb in *. rewrite (bind_deref _ _ _ _ E).
  destruct (lifeCycle (handler c)) as [l|]; [|reflexivity].
  unfold try_catch, reads. destruct (afterAdd l) as [[]|[]]; discriminate || reflexivity.
Qed.

Lemma first_up_skip (l1 l2 : list node) x un :
  isUpstream (has x) = false -> first_up (l1 ++ x :: l2) un = first_up (l1 ++ l2) un.
Proof. intros Hx. rewrite !first_up_app. cbn. rewrite Hx. reflexivity. Qed.

Lemma last_down_skip dn (l1 l2 : list node) x :
  isDownstream (has x) = false -> last_down dn (l1 ++ x :: l2) = last_down dn (l1 ++ l2).
Proof. intros Hx. rewrite !last_down_app. cbn. unfold down_of. rewrite Hx. reflexivity. Qed.

Definition named_by (p : pipeline) (ns : list node) : Prop :=
  forall n a, name2ctx p !! n = Some a <-> exists x, x ∈ ns /\ named x = n /\ at_ x = a.

(** The state between the relinking and the end of an addition: [x] is linked
    between [l1] and [l2] but not in the single lists and the map. *)
Record pending (p : pipeline) (l1 : list node) (x : node) (l2 : list node) : Prop := MkPending {
  pd_nodup : NoDup (addrs (l1 ++ x :: l2));
  pd_names : named_by p (l1 ++ l2);
  pd_name : name2ctx p !! named x = None;
  pd_linked : linked (K p) None (l1 ++ x :: l2) None;
  pd_ups : ups (U p) (l1 ++ l2) None;
  pd_up : U p (at_ x) = Some None;
  pd_downs : downs (D p) None (l1 ++ l2);
  pd_down : D p (at_ x) = Some None;
  pd_head : head p = addr_of (l1 ++ x :: l2) None;
  pd_tail : tail p = last_of None (l1 ++ x :: l2);
  pd_upstreamHead : upstreamHead p = first_up (l1 ++ l2) None;
  pd_downstreamHead : downstreamHead p = last_down None (l1 ++ l2);
  pd_fresh a : K p a <> None -> (a < fresh p)%positive;
}.

Lemma linked_at k pv (l1 l2 : list node) x nx :
  linked k pv (l1 ++ x :: l2) nx -> k (at_ x) = Some (node_core x (addr_of l2 nx) (last_of pv l1)).
Proof. intros Hl. apply linked_app in Hl as [_ [Hx _]]. exact Hx. Qed.

Lemma named_by_insert (p : pipeline) l1 x l2 m :
  named_by p (l1 ++ l2) -> name2ctx p !! named x = None -> m = <[named x := at_ x]> (name2ctx p) ->
  forall n a, m !! n = Some a <-> exists y, y ∈ l1 ++ x :: l2 /\ named y = n /\ at_ y = a.
Proof.
  intros Hn Hx -> n a. rewrite lookup_insert_Some. split.
  - intros [[<- <-]|[Hne Hl]].
    + exists x. split; [apply elem_of_app; right; left | auto].
    + apply Hn in Hl as (y & Hy & Hy'). exists y. split; [|exact Hy'].
      apply elem_of_app. apply elem_of_app in Hy as [Hy|Hy]; [left; exact Hy | right; right; exact Hy].
  - intros (y & Hy & <- & <-). destruct (decide (named x = named y)) as [E|E].
    + left. split; [exact E|]. apply elem_of_app in Hy as [Hy|Hy].
      * exfalso. assert (name2ctx p !! named y = Some (at_ y)) as Hl
          by (apply Hn; exists y; split; [apply elem_of_app; left; exact Hy | auto]). congruence.
      * apply elem_of_cons in Hy as [->|Hy]; [reflexivity|].
        exfalso. assert (name2ctx p !! named y = Some (at_ y)) as Hl
          by (apply Hn; exists y; split; [apply elem_of_app; right; exact Hy | auto]). congruence.
    + right. split; [exact E|]. apply Hn. exists y. split; [|auto].
      apply elem_of_app. apply elem_of_app in Hy as [Hy|Hy]; [left; exact Hy|].
      apply elem_of_cons in Hy as [->|Hy]; [contradiction | right; exact Hy].
Qed.

Lemma finishAdd_spec (p : pipeline) l1 x l2 :
  pending p l1 x l2 -> cb afterAdd (has x) = Ok tt ->
  exists p', finishAdd (named x) (at_ x) p = (Ok tt, p') /\ inv p' (l1 ++ x :: l2).
Proof.
  intros [] Hcb.
  destruct (K_store _ _ _ _ _ _ _ _ (linked_at _ _ _ _ _ _ pd_linked0)) as (c & Ec & _ & _ & Eu & Ed & _).
  unfold finishAdd. rewrite (bind_deref _ _ _ _ Ec), Eu, Ed.
  destruct (updateLists_spec p (l1 ++ x :: l2) (isUpstream (has x)) (isDownstream (has x)) pd_linked0
    pd_nodup0 pd_head0 pd_tail0) as (p1 & E1 & Hs & Hu & Hd & HU & HD).
  rewrite (bind_ok _ _ _ _ _ E1), bind_modify.
  assert (linked (K p1) None (l1 ++ x :: l2) None) as Hl1
    by (eapply linked_ext; [|exact pd_linked0]; intros a _; apply Hs).
  destruct (K_store _ _ _ _ _ _ _ _ (linked_at _ _ _ _ _ _ Hl1)) as (c1 & Ec1 & _ & _ & _ & _ & _ & Eh1).
  set (p2 := with_name2ctx (insert (named x) (at_ x)) p1).
  rewrite (callAfterAdd_ok (at_ x) p2 c1 Ec1) by (rewrite Eh1; exact Hcb).
  exists p2. split; [reflexivity|]. split.
  - exact pd_nodup0.
  - apply (named_by_insert p l1 x l2); [exact pd_names0 | exact pd_name0|].
    cbn. rewrite (same_names _ _ Hs). reflexivity.
  - exact Hl1.
  - apply (ups_insert (U p)); assumption.
  - apply (downs_insert (D p)); assumption.
  - cbn. rewrite (same_head _ _ Hs). exact pd_head0.
  - cbn. rewrite (same_tail _ _ Hs). exact pd_tail0.
  - cbn. rewrite Hu. destruct (isUpstream (has x)) eqn:E; [reflexivity|].
    rewrite first_up_skip by exact E. exact pd_upstreamHead0.
  - cbn. rewrite Hd. destruct (isDownstream (has x)) eqn:E; [reflexivity|].
    rewrite last_down_skip by exact E. exact pd_downstreamHead0.
  - intros a Ha. cbn. rewrite (same_fresh _ _ Hs). apply pd_fresh0. rewrite <- (same_K _ _ Hs). exact Ha.
Qed.

(** *** Relinking *)

Lemma linked_set_next k k' pv (l : list node) y nx nx' :
  NoDup (addrs (l ++ [y])) -> linked k pv (l ++ [y]) nx ->
  (forall a, a ∈ addrs (l ++ [y]) -> k' a = if decide (a = at_ y) then Some (node_core y nx' (last_of pv l)) else k a) ->
  linked k' pv (l ++ [y]) nx'.
Proof.
  intros Hn Hl Hk. apply linked_app in Hl as [Hl [Hy _]]. apply linked_app.
  unfold addrs in *. rewrite map_app in *. apply list.NoDup_app in Hn as (_ & Hdis & _). split.
  - eapply linked_ext; [|exact Hl]. intros a Ha. rewrite Hk by (apply elem_of_app; left; exact Ha).
    destruct (decide (a = at_ y)) as [->|]; [|reflexivity]. exfalso. apply (Hdis _ Ha). left.
  - cbn. split; [|exact Logic.I]. rewrite Hk by (apply elem_of_app; right; left).
    destruct (decide (at_ y = at_ y)); [reflexivity | contradiction].
Qed.

Lemma linked_set_prev k k' pv pv' y (l : list node) nx :
  NoDup (addrs (y :: l)) -> linked k pv (y :: l) nx ->
  (forall a, a ∈ addrs (y :: l) -> k' a = if decide (a = at_ y) then Some (node_core y (addr_of l nx) pv') else k a) ->
  linked k' pv' (y :: l) nx.
Proof.
  intros Hn [Hy Hl] Hk. cbn [addrs map] in *. apply list.NoDup_cons in Hn as [Hnotin _]. split.
  - rewrite Hk by left. destruct (decide (at_ y = at_ y)); [reflexivity | contradiction].
  - eapply linked_ext; [|exact Hl]. intros a Ha. rewrite Hk by (right; exact Ha).
    destruct (decide (a = at_ y)) as [->|]; [contradiction | reflexivity].
Qed.

(** *** A new context *)

Definition allocated (c : context H) (p : pipeline) : pipeline :=
  MkPipeline (<[fresh p := c]> (store p)) (Pos.succ (fresh p)) (name2ctx p) (channel p) (sink p) (head p)
    (tail p) (upstreamHead p) (downstreamHead p).

Definition new_ctx (n : string) (h : H) (pv nx : option addr) : context H :=
  MkContext nx pv None None (isUpstream h) (isDownstream h) n h.

Lemma newContext_spec (p : pipeline) n h pv nx :
  newContext n h pv nx p =
    if negb (isUpstream h) && negb (isDownstream h) then (Err InvalidArgumentException, p)
    else (Ok (fresh p), allocated (new_ctx n h pv nx) p).
Proof. unfold newContext. destruct (_ && _); reflexivity. Qed.

Lemma K_allocated c (p : pipeline) a :
  K (allocated c p) a = if decide (a = fresh p) then Some (core_of c) else K p a.
Proof. unfold K. cbn. destruct (decide (a = fresh p)) as [->|]; simplify_map_eq; reflexivity. Qed.
Lemma U_allocated c (p : pipeline) a :
  U (allocated c p) a = if decide (a = fresh p) then Some (nextUpstream c) else U p a.
Proof. unfold U. cbn. destruct (decide (a = fresh p)) as [->|]; simplify_map_eq; reflexivity. Qed.
Lemma D_allocated c (p : pipeline) a :
  D (allocated c p) a = if decide (a = fresh p) then Some (nextDownstream c) else D p a.
Proof. unfold D. cbn. destruct (decide (a = fresh p)) as [->|]; simplify_map_eq; reflexivity. Qed.

Lemma inv_notin (p : pipeline) ns : inv p ns -> fresh p ∉ addrs ns.
Proof.
  intros Hi Hin. pose proof (inv_fresh _ _ Hi _ (linked_in _ _ _ _ _ (inv_linked _ _ Hi) Hin)). lia.
Qed.

(** A context that is not linked is not in the pipeline. *)
Lemma inv_allocated c (p : pipeline) ns : inv p ns -> inv (allocated c p) ns.
Proof.
  intros Hi. pose proof (inv_notin p ns Hi) as Hnotin. destruct Hi. split; try assumption.
  - eapply linked_ext; [|exact inv_linked0]. intros a Ha. rewrite K_allocated.
    destruct (decide (a = fresh p)) as [->|]; [contradiction | reflexivity].
  - eapply ups_ext; [|exact inv_ups0]. intros a Ha. rewrite U_allocated.
    destruct (decide (a = fresh p)) as [->|]; [contradiction | reflexivity].
  - eapply downs_ext; [|exact inv_downs0]. intros a Ha. rewrite D_allocated.
    destruct (decide (a = fresh p)) as [->|]; [contradiction | reflexivity].
  - intros a. rewrite K_allocated. cbn. destruct (decide (a = fresh p)) as [->|]; [lia|].
    intros Ha. apply inv_fresh0 in Ha. lia.
Qed.

Lemma pending_intro (p0 p : pipeline) l1 x l2 :
  inv p0 (l1 ++ l2) -> at_ x = fresh p0 -> name2ctx p0 !! named x = None ->
  linked (K p) None (l1 ++ x :: l2) None ->
  head p = addr_of (l1 ++ x :: l2) None -> tail p = last_of None (l1 ++ x :: l2) ->
  (forall a, U p a = if decide (a = fresh p0) then Some None else U p0 a) ->
  (forall a, D p a = if decide (a = fresh p0) then Some None else D p0 a) ->
  (forall a, K p a <> None -> a = fresh p0 \/ K p0 a <> None) ->
  fresh p = Pos.succ (fresh p0) -> name2ctx p = name2ctx p0 ->
  upstreamHead p = upstreamHead p0 -> downstreamHead p = downstreamHead p0 ->
  pending p l1 x l2.
Proof.
  intros Hi Hx Hname Hl Hh Ht HU HD HK Hf Hnames Huh Hdh.
  pose proof (inv_notin p0 _ Hi) as Hnotin. destruct Hi. split; try assumption.
  - unfold addrs in *. rewrite map_app in *. cbn [map].
    apply list.NoDup_app in inv_nodup0 as (N1 & N12 & N2). rewrite Hx.
    apply not_elem_of_app in Hnotin as [F1 F2].
    apply list.NoDup_app. split; [exact N1|]. split; [|apply list.NoDup_cons; auto].
    intros a Ha Ha'. apply elem_of_cons in Ha' as [->|Ha']; [contradiction | exact (N12 a Ha Ha')].
  - unfold named_by. rewrite Hnames. exact inv_names0.
  - rewrite Hnames. exact Hname.
  - eapply ups_ext; [|exact inv_ups0]. intros a Ha. rewrite HU.
    destruct (decide (a = fresh p0)) as [->|]; [contradiction | reflexivity].
  - rewrite HU, Hx. destruct (decide (fresh p0 = fresh p0)); [reflexivity | contradiction].
  - eapply downs_ext; [|exact inv_downs0]. intros a Ha. rewrite HD.
    destruct (decide (a = fresh p0)) as [->|]; [contradiction | reflexivity].
  - rewrite HD, Hx. destruct (decide (fresh p0 = fresh p0)); [reflexivity | contradiction].
  - congruence.
  - congruence.
  - intros a Ha. rewrite Hf. destruct (HK a Ha) as [->|Ha']; [lia|]. apply inv_fresh0 in Ha'. lia.
Qed.

Lemma linked_insert k k' (l1 l2 : list node) x :
  NoDup (addrs (l1 ++ l2)) -> at_ x ∉ addrs (l1 ++ l2) -> linked k None (l1 ++ l2) None ->
  k' (at_ x) = Some (node_core x (addr_of l2 None) (last_of None l1)) ->
  (forall l y, l1 = l ++ [y] -> k' (at_ y) = Some (node_core y (Some (at_ x)) (last_of None l))) ->
  (forall z l, l2 = z :: l -> k' (at_ z) = Some (node_core z (addr_of l None) (Some (at_ x)))) ->
  (forall a, a <> at_ x -> (forall l y, l1 = l ++ [y] -> a <> at_ y) ->
     (forall z l, l2 = z :: l -> a <> at_ z) -> k' a = k a) ->
  linked k' None (l1 ++ x :: l2) None.
Proof.
  intros Hn Hx Hl Hkx Hky Hkz Hka. unfold addrs in *. rewrite map_app in *.
  apply list.NoDup_app in Hn as (N1 & N12 & N2). apply not_elem_of_app in Hx as [X1 X2].
  apply linked_app in Hl as [Hl1 Hl2]. apply linked_app. split; [|split; [exact Hkx|]].
  - destruct l1 as [|y l1 _] using rev_ind; [exact Logic.I|].
    apply (linked_set_next k k' None l1 y (addr_of l2 None)); [exact N1 | exact Hl1 |].
    intros a Ha. destruct (decide (a = at_ y)) as [->|Hay]; [exact (Hky l1 y eq_refl)|].
    apply Hka; [intros ->; contradiction | | ].
    + intros l y' E. apply app_inj_tail in E as [_ <-]. exact Hay.
    + intros z l -> ->. exact (N12 _ Ha ltac:(left)).
  - destruct l2 as [|z l2]; [exact Logic.I|].
    apply (linked_set_prev k k' (last_of None l1)); [exact N2 | exact Hl2 |].
    intros a Ha. destruct (decide (a = at_ z)) as [->|Haz]; [exact (Hkz z l2 eq_refl)|].
    apply Hka; [intros ->; contradiction | |].
    + intros l y -> ->. refine (N12 _ _ Ha). rewrite map_app. apply elem_of_app. right. left.
    + intros z' l [= <- <-]. exact Haz.
Qed.

Lemma U_assign (p : pipeline) a c f b :
  store p !! a = Some c -> nextUpstream (f c) = nextUpstream c ->
  U (with_store (insert a (f c)) p) b = U p b.
Proof.
  intros E Ef. rewrite U_insert. destruct (decide (b = a)) as [->|]; [|reflexivity].
  unfold U. rewrite E, Ef. reflexivity.
Qed.
Lemma D_assign (p : pipeline) a c f b :
  store p !! a = Some c -> nextDownstream (f c) = nextDownstream c ->
  D (with_store (insert a (f c)) p) b = D p b.
Proof.
  intros E Ef. rewrite D_insert. destruct (decide (b = a)) as [->|]; [|reflexivity].
  unfold D. rewrite E, Ef. reflexivity.
Qed.
Lemma K_assign (p : pipeline) a c f b :
  store p !! a = Some c -> K (with_store (insert a (f c)) p) b <> None -> K p b <> None.
Proof.
  intros E. rewrite K_insert. destruct (decide (b = a)) as [->|]; [|auto].
  unfold K. rewrite E. discriminate.
Qed.

(** The three views of a new context. *)
Lemma U_new (p : pipeline) n h pv nx a :
  U (allocated (new_ctx n h pv nx) p) a = if decide (a = fresh p) then Some None else U p a.
Proof. apply U_allocated. Qed.
Lemma D_new (p : pipeline) n h pv nx a :
  D (allocated (new_ctx n h pv nx) p) a = if decide (a = fresh p) then Some None else D p a.
Proof. apply D_allocated. Qed.
Lemma K_new (p : pipeline) n h pv nx a :
  K (allocated (new_ctx n h pv nx) p) a <> None -> a = fresh p \/ K p a <> None.
Proof. rewrite K_allocated. destruct (decide (a = fresh p)); auto. Qed.

(** The common part: the new context, and the callback. *)
Definition admissible (h : H) : Prop :=
  (isUpstream h || isDownstream h = true)%bool /\ cb beforeAdd h = Ok tt /\ cb afterAdd h = Ok tt.

Lemma begin_add {A} (p : pipeline) n h pv nx (k : addr -> M pipeline A) :
  admissible h ->
  (let! a := newContext n h pv nx in callBeforeAdd a ;! k a) p
    = k (fresh p) (allocated (new_ctx n h pv nx) p).
Proof.
  intros (Hud & Hb & _). unfold bind at 1. rewrite newContext_spec.
  assert (negb (isUpstream h) && negb (isDownstream h) = false)%bool as ->
    by (destruct (isUpstream h), (isDownstream h); reflexivity || discriminate).
  erewrite bind_ok; [reflexivity|]. unfold callBeforeAdd.
  rewrite (callback_cb _ _ _ (new_ctx n h pv nx)) by (cbn; apply lookup_insert_eq).
  cbn. rewrite Hb. reflexivity.
Qed.

Lemma names_empty (p : pipeline) ns : inv p ns -> name2ctx p = ∅ <-> ns = [].
Proof.
  intros Hi. split.
  - intros E. destruct ns as [|x ns]; [reflexivity|].
    assert (name2ctx p !! named x = Some (at_ x)) as Hl
      by (apply (inv_names _ _ Hi); exists x; split; [left | auto]).
    rewrite E in Hl. discriminate.
  - intros ->. apply map_eq. intros n. rewrite lookup_empty.
    destruct (name2ctx p !! n) as [a|] eqn:E; [|reflexivity].
    apply (inv_names _ _ Hi) in E as (x & Hx & _). inversion Hx.
Qed.

Lemma addFirst_cons (p : pipeline) y l n h :
  inv p (y :: l) -> name2ctx p !! n = None -> admissible h ->
  exists p', addFirst n (Some h) p = (Ok tt, p') /\ inv p' (MkNode (fresh p) n h :: y :: l).
Proof.
  intros Hi Hn Hh. set (x := MkNode (fresh p) n h). pose proof (inv_notin p _ Hi) as Hnotin.
  pose proof (inv_head _ _ Hi) as Hhd. pose proof (linked_at _ _ [] l y _ (inv_linked _ _ Hi)) as Hy.
  cbn in Hhd. cbn [addrs map] in Hnotin. apply not_elem_of_cons in Hnotin as [Hne Hnotin].
  unfold addFirst. rewrite bind_gets. unfold id.
  destruct (decide (name2ctx p = ∅)) as [E|_]; [apply (names_empty _ _ Hi) in E; discriminate|].
  unfold checkDuplicateName. mstep. unfold id. rewrite Hn, bind_ret_l, begin_add by exact Hh.
  rewrite Hhd. cbn [non_null]. rewrite bind_ret_l.
  set (p1 := allocated _ p).
  assert (K p1 (at_ y) = K p (at_ y)) as Ey.
  { unfold p1. rewrite K_allocated. destruct (decide (at_ y = fresh p)); [congruence | reflexivity]. }
  rewrite Hy in Ey. destruct (K_store _ _ _ _ _ _ _ _ Ey) as (c & Ec & Enx & Epv & Eu & Ed & En & Eh).
  rewrite (bind_assign _ _ _ _ _ Ec), bind_modify.
  destruct Hh as (Hud & Hb & Ha). subst x.
  apply (finishAdd_spec _ [] (MkNode (fresh p) n h) (y :: l)); [|exact Ha].
  apply (pending_intro p); cbn [app]; try reflexivity; try assumption.
  - apply (linked_insert (K p) _ [] (y :: l)); [apply Hi | apply (inv_notin p _ Hi) | apply Hi | | | |].
    + change (K (with_store (insert (at_ y) (with_prev (Some (fresh p)) c)) p1) (fresh p)
        = Some (node_core (MkNode (fresh p) n h) (Some (at_ y)) None)).
      rewrite K_insert. destruct (decide (fresh p = at_ y)); [congruence|]. unfold p1. rewrite K_allocated.
      destruct (decide (fresh p = fresh p)); [reflexivity | contradiction].
    + intros l0 y0 E0. destruct l0; discriminate.
    + intros z l0 [= <- <-].
      change (K (with_store (insert (at_ y) (with_prev (Some (fresh p)) c)) p1) (at_ y)
        = Some (node_core y (addr_of l None) (Some (fresh p)))).
      rewrite K_insert. destruct (decide (at_ y = at_ y)); [|contradiction].
      unfold core_of, node_core. cbn. congruence.
    + intros a Ha1 _ Ha3. specialize (Ha3 y l eq_refl).
      change (K (with_store (insert (at_ y) (with_prev (Some (fresh p)) c)) p1) a = K p a).
      rewrite K_insert. destruct (decide (a = at_ y)); [contradiction|]. unfold p1. rewrite K_allocated.
      destruct (decide (a = fresh p)); [contradiction | reflexivity].
  - cbn. apply (inv_tail _ _ Hi).
  - intros a. rewrite <- (U_new p n h None (Some (at_ y))). apply (U_assign p1 (at_ y) c); [exact Ec | reflexivity].
  - intros a. rewrite <- (D_new p n h None (Some (at_ y))). apply (D_assign p1 (at_ y) c); [exact Ec | reflexivity].
  - intros a Ha1. eapply K_new, (K_assign p1 (at_ y) c); [exact Ec | exact Ha1].
Qed.

Lemma addLast_snoc (p : pipeline) l y n h :
  inv p (l ++ [y]) -> name2ctx p !! n = None -> admissible h ->
  exists p', addLast n (Some h) p = (Ok tt, p') /\ inv p' ((l ++ [y]) ++ [MkNode (fresh p) n h]).
Proof.
  intros Hi Hn Hh. pose proof (inv_notin p _ Hi) as Hnotin.
  pose proof (inv_tail _ _ Hi) as Htl. pose proof (linked_at _ _ l [] y _ (inv_linked _ _ Hi)) as Hy.
  rewrite last_of_app in Htl. cbn in Htl.
  assert (fresh p <> at_ y) as Hne.
  { intros E. apply Hnotin. rewrite E. unfold addrs. rewrite map_app. apply elem_of_app. right. left. }
  unfold addLast. rewrite bind_gets. unfold id.
  destruct (decide (name2ctx p = ∅)) as [E|_];
    [apply (names_empty _ _ Hi) in E; apply app_eq_nil in E as [_ E]; discriminate|].
  unfold checkDuplicateName. mstep. unfold id. rewrite Hn, bind_ret_l, begin_add by exact Hh.
  rewrite Htl. cbn [non_null]. rewrite bind_ret_l.
  set (p1 := allocated _ p).
  assert (K p1 (at_ y) = K p (at_ y)) as Ey.
  { unfold p1. rewrite K_allocated. destruct (decide (at_ y = fresh p)); [congruence | reflexivity]. }
  rewrite Hy in Ey. destruct (K_store _ _ _ _ _ _ _ _ Ey) as (c & Ec & Enx & Epv & Eu & Ed & En & Eh).
  rewrite (bind_assign _ _ _ _ _ Ec), bind_modify.
  destruct Hh as (Hud & Hb & Ha).
  apply (finishAdd_spec _ (l ++ [y]) (MkNode (fresh p) n h) []); [|exact Ha].
  apply (pending_intro p); rewrite ?app_nil_r; try reflexivity; try assumption.
  - apply (linked_insert (K p) _ (l ++ [y]) []); rewrite ?app_nil_r;
      [apply Hi | apply (inv_notin p _ Hi) | apply Hi | | | |].
    + change (K (with_store (insert (at_ y) (with_next (Some (fresh p)) c)) p1) (fresh p)
        = Some (node_core (MkNode (fresh p) n h) None (last_of None (l ++ [y])))).
      rewrite K_insert. destruct (decide (fresh p = at_ y)); [congruence|]. unfold p1. rewrite K_allocated.
      destruct (decide (fresh p = fresh p)); [|contradiction]. rewrite last_of_app. reflexivity.
    + intros l0 y0 E0. apply app_inj_tail in E0 as [<- <-].
      change (K (with_store (insert (at_ y) (with_next (Some (fresh p)) c)) p1) (at_ y)
        = Some (node_core y (Some (fresh p)) (last_of None l))).
      rewrite K_insert. destruct (decide (at_ y = at_ y)); [|contradiction].
      unfold core_of, node_core. cbn. congruence.
    + discriminate.
    + intros a Ha1 Ha2 _. specialize (Ha2 l y eq_refl).
      change (K (with_store (insert (at_ y) (with_next (Some (fresh p)) c)) p1) a = K p a).
      rewrite K_insert. destruct (decide (a = at_ y)); [contradiction|]. unfold p1. rewrite K_allocated.
      destruct (decide (a = fresh p)); [contradiction | reflexivity].
  - etransitivity; [apply (inv_head _ _ Hi)|]. rewrite !addr_of_app. destruct l; reflexivity.
  - rewrite last_of_app. reflexivity.
  - intros a. rewrite <- (U_new p n h (Some (at_ y)) None). apply (U_assign p1 (at_ y) c); [exact Ec | reflexivity].
  - intros a. rewrite <- (D_new p n h (Some (at_ y)) None). apply (D_assign p1 (at_ y) c); [exact Ec | reflexivity].
  - intros a Ha1. eapply K_new, (K_assign p1 (at_ y) c); [exact Ec | exact Ha1].
Qed.

(** A context linked between two others. *)
Definition linked_between (p1 : pipeline) (a y z : addr) (cy cz : context H) : pipeline :=
  with_store (insert z (with_prev (Some a) cz)) (with_store (insert y (with_next (Some a) cy)) p1).

Lemma pending_between (p : pipeline) l y z r n h cy cz :
  inv p ((l ++ [y]) ++ z :: r) -> name2ctx p !! n = None ->
  let p1 := allocated (new_ctx n h (Some (at_ y)) (Some (at_ z))) p in
  store p1 !! at_ y = Some cy -> store p1 !! at_ z = Some cz ->
  pending (linked_between p1 (fresh p) (at_ y) (at_ z) cy cz) (l ++ [y]) (MkNode (fresh p) n h) (z :: r).
Proof.
  intros Hi Hn p1 Ecy Ecz. pose proof (inv_notin p _ Hi) as Hnotin.
  unfold addrs in Hnotin. rewrite !map_app in Hnotin. cbn [map] in Hnotin.
  apply not_elem_of_app in Hnotin as [Hny Hnz]. apply not_elem_of_app in Hny as [_ Hny].
  apply not_elem_of_cons in Hny as [Hney _]. apply not_elem_of_cons in Hnz as [Hnez _].
  assert (at_ y <> at_ z) as Hyz.
  { pose proof (inv_nodup _ _ Hi) as N. unfold addrs in N. rewrite !map_app in N.
    apply list.NoDup_app in N as (_ & N & _). intros E. apply (N (at_ y));
      [apply elem_of_app; right; left | rewrite E; left]. }
  pose proof (inv_linked _ _ Hi) as Hl. pose proof Hl as Hl0. apply linked_app in Hl0 as [Hly [Hz _]].
  pose proof (linked_at _ _ l [] y _ Hly) as Hy. cbn [addr_of] in Hy. rewrite last_of_app in Hz. cbn in Hz.
  assert (K p1 (at_ y) = K p (at_ y)) as Ky.
  { unfold p1. rewrite K_allocated. destruct (decide (at_ y = fresh p)); [congruence | reflexivity]. }
  assert (K p1 (at_ z) = K p (at_ z)) as Kz.
  { unfold p1. rewrite K_allocated. destruct (decide (at_ z = fresh p)); [congruence | reflexivity]. }
  rewrite Hy in Ky. rewrite Hz in Kz.
  set (q := with_store (insert (at_ y) (with_next (Some (fresh p)) cy)) p1).
  assert (store q !! at_ z = Some cz) as Eqz by (cbn; rewrite lookup_insert_ne by exact Hyz; exact Ecz).
  assert (forall b, K (linked_between p1 (fresh p) (at_ y) (at_ z) cy cz) b =
    if decide (b = at_ z) then Some (node_core z (addr_of r None) (Some (fresh p)))
    else if decide (b = at_ y) then Some (node_core y (Some (fresh p)) (last_of None l)) else K p1 b) as HK.
  { intros b. unfold linked_between. rewrite !K_insert.
    destruct (decide (b = at_ z)); [|destruct (decide (b = at_ y)); [|reflexivity]].
    - unfold K in Kz. rewrite Ecz in Kz. injection Kz as E1 E2 E3 E4 E5 E6.
      unfold core_of, node_core. cbn. congruence.
    - unfold K in Ky. rewrite Ecy in Ky. injection Ky as E1 E2 E3 E4 E5 E6.
      unfold core_of, node_core. cbn. congruence. }
  apply (pending_intro p); try reflexivity; try assumption.
  - apply (linked_insert (K p)); [apply Hi | apply (inv_notin p _ Hi) | exact Hl | | | |]; cbn [at_].
    + rewrite HK. destruct (decide (fresh p = at_ z)); [congruence|]. destruct (decide (fresh p = at_ y)); [congruence|].
      unfold p1. rewrite K_allocated. destruct (decide (fresh p = fresh p)); [|contradiction].
      rewrite last_of_app. reflexivity.
    + intros l0 y0 E0. apply app_inj_tail in E0 as [<- <-]. rewrite HK.
      destruct (decide (at_ y = at_ z)); [contradiction|]. destruct (decide (at_ y = at_ y)); [reflexivity | contradiction].
    + intros z0 l0 [= <- <-]. rewrite HK. destruct (decide (at_ z = at_ z)); [reflexivity | contradiction].
    + intros a Ha1 Ha2 Ha3. specialize (Ha2 l y eq_refl). specialize (Ha3 z r eq_refl). rewrite HK.
      destruct (decide (a = at_ z)); [contradiction|]. destruct (decide (a = at_ y)); [contradiction|].
      unfold p1. rewrite K_allocated. destruct (decide (a = fresh p)); [contradiction | reflexivity].
  - etransitivity; [apply (inv_head _ _ Hi)|]. rewrite !addr_of_app. destruct l; reflexivity.
  - etransitivity; [apply (inv_tail _ _ Hi)|]. rewrite !last_of_app. reflexivity.
  - intros a. rewrite <- (U_new p n h (Some (at_ y)) (Some (at_ z))). fold p1.
    etransitivity; [apply (U_assign q (at_ z) cz); [exact Eqz | reflexivity]|].
    apply (U_assign p1 (at_ y) cy); [exact Ecy | reflexivity].
  - intros a. rewrite <- (D_new p n h (Some (at_ y)) (Some (at_ z))). fold p1.
    etransitivity; [apply (D_assign q (at_ z) cz); [exact Eqz | reflexivity]|].
    apply (D_assign p1 (at_ y) cy); [exact Ecy | reflexivity].
  - intros a Ha1. eapply K_new, (K_assign p1 (at_ y) cy); [exact Ecy|].
    eapply (K_assign q (at_ z) cz); [exact Eqz | exact Ha1].
Qed.

(** *** The contexts of an invariant *)

Lemma inv_split (p : pipeline) ns n a :
  inv p ns -> name2ctx p !! n = Some a ->
  exists l1 x l2, ns = l1 ++ x :: l2 /\ named x = n /\ at_ x = a.
Proof.
  intros Hi E. apply (inv_names _ _ Hi) in E as (x & Hx & Hn & Ha).
  apply list_elem_of_split in Hx as (l1 & l2 & ->). exists l1, x, l2. auto.
Qed.

Lemma inv_lookup (p : pipeline) l1 x l2 : inv p (l1 ++ x :: l2) -> name2ctx p !! named x = Some (at_ x).
Proof. intros Hi. apply (inv_names _ _ Hi). exists x. split; [apply elem_of_app; right; left | auto]. Qed.

(** The addresses, and so the names, are distinct. *)
Lemma inv_distinct (p : pipeline) l1 x l2 y :
  inv p (l1 ++ x :: l2) -> y ∈ l1 \/ y ∈ l2 -> at_ y <> at_ x /\ named y <> named x.
Proof.
  intros Hi Hy. assert (at_ y <> at_ x) as Ha.
  { pose proof (inv_nodup _ _ Hi) as N. unfold addrs in N. rewrite map_app in N. cbn [map] in N.
    apply list.NoDup_app in N as (_ & N12 & N2). apply list.NoDup_cons in N2 as [N2 _].
    destruct Hy as [Hy|Hy]; apply (list_elem_of_fmap_2 at_) in Hy.
    - intros E. rewrite E in Hy. apply (N12 _ Hy). left.
    - intros E. rewrite E in Hy. exact (N2 Hy). }
  split; [exact Ha|]. intros E. apply Ha. pose proof (inv_lookup _ _ _ _ Hi) as Hx.
  assert (name2ctx p !! named y = Some (at_ y)) as Hl.
  { apply (inv_names _ _ Hi). exists y. split; [|auto]. apply elem_of_app.
    destruct Hy as [Hy|Hy]; [left; exact Hy | right; right; exact Hy]. }
  rewrite E in Hl. congruence.
Qed.

Lemma inv_distinct_at (p : pipeline) l1 x l2 y :
  inv p (l1 ++ x :: l2) -> y ∈ l1 \/ y ∈ l2 -> at_ y <> at_ x.
Proof. intros Hi Hy. apply (inv_distinct p l1 x l2 y Hi Hy). Qed.

Lemma head_not_inner (p : pipeline) l y z r : inv p ((l ++ [y]) ++ z :: r) -> head p <> Some (at_ z).
Proof.
  intros Hi. rewrite (inv_head _ _ Hi). intros E. destruct l as [|w l]; injection E as E.
  - apply (inv_distinct_at p [y] z r y Hi); [left; left | exact E].
  - apply (inv_distinct_at p _ z r w Hi); [left; left | exact E].
Qed.

Lemma tail_not_inner (p : pipeline) l y z r : inv p ((l ++ [y]) ++ z :: r) -> tail p <> Some (at_ y).
Proof.
  intros Hi. rewrite <- app_assoc in Hi. rewrite (inv_tail _ _ Hi), last_of_app. cbn.
  destruct r as [|w r _] using rev_ind.
  - cbn. intros [= E]. apply (inv_distinct_at p l y [z] z Hi); [right; left | exact E].
  - rewrite last_of_app. cbn. intros [= E].
    apply (inv_distinct_at p l y (z :: r ++ [w]) w Hi); [right; right; apply elem_of_app; right; left | exact E].
Qed.

Lemma addBefore_mid (p : pipeline) l y z r n h :
  inv p ((l ++ [y]) ++ z :: r) -> name2ctx p !! n = None -> admissible h ->
  exists p', addBefore (named z) n (Some h) p = (Ok tt, p') /\
    inv p' ((l ++ [y]) ++ MkNode (fresh p) n h :: z :: r).
Proof.
  intros Hi Hn Hh. unfold addBefore, getContextOrDie, getContextByName. mstep. unfold id.
  rewrite (inv_lookup _ _ _ _ Hi), bind_ret_l. mstep. unfold id.
  pose proof (inv_linked _ _ Hi) as Hl. pose proof (linked_at _ _ _ _ _ _ Hl) as Hz.
  rewrite last_of_app in Hz. cbn in Hz.
  pose proof (head_not_inner p l y z r Hi) as Hhd.
  destruct (decide (Some (at_ z) = head p)) as [E|_]; [congruence|].
  unfold checkDuplicateName. mstep. unfold id. rewrite Hn, bind_ret_l.
  destruct (K_store _ _ _ _ _ _ _ _ Hz) as (c & Ec & _ & Epv & _).
  rewrite (bind_deref _ _ _ _ Ec), Epv, begin_add by exact Hh. cbn [non_null]. rewrite bind_ret_l.
  pose proof Hl as Hly. apply linked_app in Hly as [Hly _]. apply linked_at in Hly.
  destruct (K_store _ _ _ _ _ _ _ _ Hly) as (cy & Ecy & _).
  set (p1 := allocated _ p).
  assert (forall b d, store p !! b = Some d -> store p1 !! b = Some d) as Hp1.
  { intros b d E. cbn. rewrite lookup_insert_ne; [exact E|]. intros <-.
    assert (fresh p < fresh p)%positive; [|lia]. apply (inv_fresh _ _ Hi). unfold K. rewrite E. discriminate. }
  assert (at_ y <> at_ z) as Hyz
    by (apply (inv_distinct_at p (l ++ [y]) z r y Hi); left; apply elem_of_app; right; left).
  rewrite (bind_assign _ _ _ _ _ (Hp1 _ _ Ecy)).
  erewrite bind_assign by (cbn; rewrite lookup_insert_ne by exact Hyz; exact (Hp1 _ _ Ec)).
  apply (finishAdd_spec _ (l ++ [y]) (MkNode (fresh p) n h) (z :: r)); [|apply Hh].
  apply (pending_between p l y z r n h cy c Hi Hn); [exact (Hp1 _ _ Ecy) | exact (Hp1 _ _ Ec)].
Qed.

Lemma addAfter_mid (p : pipeline) l y z r n h :
  inv p ((l ++ [y]) ++ z :: r) -> name2ctx p !! n = None -> admissible h ->
  exists p', addAfter (named y) n (Some h) p = (Ok tt, p') /\
    inv p' ((l ++ [y]) ++ MkNode (fresh p) n h :: z :: r).
Proof.
  intros Hi Hn Hh. unfold addAfter, getContextOrDie, getContextByName. mstep. unfold id.
  pose proof Hi as Hi'. rewrite <- app_assoc in Hi'. cbn [app] in Hi'.
  rewrite (inv_lookup _ _ _ _ Hi'), bind_ret_l. mstep. unfold id.
  pose proof (inv_linked _ _ Hi') as Hl. pose proof (linked_at _ _ _ _ _ _ Hl) as Hy. cbn [addr_of] in Hy.
  pose proof (tail_not_inner p l y z r Hi) as Htl.
  destruct (decide (Some (at_ y) = tail p)) as [E|_]; [congruence|].
  unfold checkDuplicateName. mstep. unfold id. rewrite Hn, bind_ret_l.
  destruct (K_store _ _ _ _ _ _ _ _ Hy) as (c & Ec & Enx & _).
  rewrite (bind_deref _ _ _ _ Ec), Enx, begin_add by exact Hh. cbn [non_null]. rewrite bind_ret_l.
  pose proof (linked_at _ _ _ _ _ _ (inv_linked _ _ Hi)) as Hz.
  destruct (K_store _ _ _ _ _ _ _ _ Hz) as (cz & Ecz & _).
  set (p1 := allocated _ p).
  assert (forall b d, store p !! b = Some d -> store p1 !! b = Some d) as Hp1.
  { intros b d E. cbn. rewrite lookup_insert_ne; [exact E|]. intros <-.
    assert (fresh p < fresh p)%positive; [|lia]. apply (inv_fresh _ _ Hi). unfold K. rewrite E. discriminate. }
  assert (at_ y <> at_ z) as Hyz
    by (apply (inv_distinct_at p (l ++ [y]) z r y Hi); left; apply elem_of_app; right; left).
  rewrite (bind_assign _ _ _ _ _ (Hp1 _ _ Ecz)).
  erewrite bind_assign by (cbn; rewrite lookup_insert_ne by congruence; exact (Hp1 _ _ Ec)).
  pose proof (pending_between p l y z r n h c cz Hi Hn (Hp1 _ _ Ec) (Hp1 _ _ Ecz)) as Hp.
  replace (with_store (insert (at_ y) (with_next (Some (fresh p)) c))
    (with_store (insert (at_ z) (with_prev (Some (fresh p)) cz)) p1))
    with (linked_between p1 (fresh p) (at_ y) (at_ z) c cz)
    by (unfold linked_between, with_store; cbn; f_equal; apply insert_insert_ne; congruence).
  apply (finishAdd_spec _ (l ++ [y]) (MkNode (fresh p) n h) (z :: r)); [exact Hp | apply Hh].
Qed.

Lemma init_spec (p : pipeline) n h :
  inv p [] -> admissible h ->
  exists p', init n h p = (Ok tt, p') /\ inv p' [MkNode (fresh p) n h].
Proof.
  intros Hi Hh. unfold init. rewrite begin_add by exact Hh. rewrite bind_modify.
  set (c := new_ctx n h None None).
  set (p1 := with_head (Some (fresh p)) _).
  assert (store p1 !! fresh p = Some c) as Ec by apply lookup_insert_eq.
  rewrite (bind_deref _ _ _ _ Ec). cbn [canHandleUps canHandleDowns c new_ctx].
  set (p2 := if isUpstream h then with_upstreamHead (Some (fresh p)) p1 else p1).
  assert ((if isUpstream h then modify (with_upstreamHead (Some (fresh p))) else ret tt) p1 = (Ok tt, p2)) as E2
    by (unfold p2; destruct (isUpstream h); reflexivity).
  rewrite (bind_ok _ _ _ _ _ E2).
  set (p3 := if isDownstream h then with_downstreamHead (Some (fresh p)) p2 else p2).
  assert ((if isDownstream h then modify (with_downstreamHead (Some (fresh p))) else ret tt) p2 = (Ok tt, p3)) as E3
    by (unfold p3; destruct (isDownstream h); reflexivity).
  rewrite (bind_ok _ _ _ _ _ E3), bind_modify. unfold with_name2ctx.
  assert (store p3 = store p1 /\ fresh p3 = Pos.succ (fresh p) /\ head p3 = Some (fresh p) /\
    tail p3 = Some (fresh p) /\ upstreamHead p3 = (if isUpstream h then Some (fresh p) else None) /\
    downstreamHead p3 = (if isDownstream h then Some (fresh p) else None)) as (Es & Ef & Eh & Et & Eu & Ed).
  { pose proof (inv_upstreamHead _ _ Hi) as E4. pose proof (inv_downstreamHead _ _ Hi) as E5. cbn in E4, E5.
    unfold p3, p2. destruct (isUpstream h), (isDownstream h); cbn; auto 7. }
  set (p4 := MkPipeline _ _ _ _ _ _ _ _ _).
  assert (store p4 !! fresh p = Some c) as Ec4 by (cbn; rewrite Es; exact Ec).
  rewrite (callAfterAdd_ok _ _ _ Ec4) by apply Hh. exists p4. split; [reflexivity|].
  split; cbn [linked ups downs at_ addr_of last_of first_up last_down has]; try assumption.
  - apply NoDup_singleton.
  - intros m a. cbn. rewrite lookup_singleton_Some. split.
    + intros [<- <-]. exists (MkNode (fresh p) n h). split; [left | auto].
    + intros (x & Hx & <- & <-). apply list_elem_of_singleton in Hx as ->. auto.
  - split; [|exact Logic.I]. unfold K. rewrite Ec4. reflexivity.
  - split; [|exact Logic.I]. unfold U. rewrite Ec4. destruct (isUpstream h); reflexivity.
  - split; [|exact Logic.I]. unfold D. rewrite Ec4. destruct (isDownstream h); reflexivity.
  - intros a. unfold K. cbn. rewrite Es, Ef. change (K p1 a <> None -> (a < Pos.succ (fresh p))%positive).
    change (K p1 a) with (K (allocated c p) a). rewrite K_allocated.
    destruct (decide (a = fresh p)) as [->|]; [lia|]. intros Ha. apply (inv_fresh _ _ Hi) in Ha. lia.
Qed.

End Additions.

(** ** The additions as operations of a list *)

Section Specification.
Context {H : Type} {CH : ChannelHandler H}.
Abbreviation entry := (string * H)%type.

Definition has_name (n : string) (l : list entry) : bool := existsb (fun x => bool_decide (fst x = n)) l.

(** Why a handler is refused: the name is taken, it is neither an upstream nor a
    downstream handler, or its [beforeAdd] throws. *)
Definition refuse (n : string) (h : H) (l : list entry) : option error :=
  if has_name n l then Some InvalidArgumentException
  else if negb (isUpstream h) && negb (isDownstream h) then Some InvalidArgumentException
  else match cb beforeAdd h with Err e => Some e | Ok _ => None end.

Fixpoint insert_before (base : string) (x : entry) (l : list entry) : option (list entry) :=
  match l with
  | [] => None
  | y :: l =>
      if bool_decide (fst y = base) then Some (x :: y :: l)
      else option_map (cons y) (insert_before base x l)
  end.

Fixpoint insert_after (base : string) (x : entry) (l : list entry) : option (list entry) :=
  match l with
  | [] => None
  | y :: l =>
      if bool_decide (fst y = base) then Some (y :: x :: l)
      else option_map (cons y) (insert_after base x l)
  end.

Inductive addition :=
  | AddFirst (n : string) (h : option H)
  | AddLast (n : string) (h : option H)
  | AddBefore (base n : string) (h : option H)
  | AddAfter (base n : string) (h : option H).

Definition handler_added (o : addition) : option H :=
  match o with AddFirst _ h | AddLast _ h | AddBefore _ _ h | AddAfter _ _ h => h end.

Definition spec_add (o : addition) (l : list entry) : result (list entry) :=
  let accept n h r := match refuse n h l with Some e => Err e | None => Ok r end in
  match o with
  | AddFirst _ None | AddLast _ None | AddBefore _ _ None | AddAfter _ _ None => Ok l
  | AddFirst n (Some h) => accept n h ((n, h) :: l)
  | AddLast n (Some h) => accept n h (l ++ [(n, h)])
  | AddBefore base n (Some h) =>
      match insert_before base (n, h) l with None => Err RangeException | Some r => accept n h r end
  | AddAfter base n (Some h) =>
      match insert_after base (n, h) l with None => Err RangeException | Some r => accept n h r end
  end.

Definition perform {C S} (o : addition) : M (DefaultChannelPipeline.t H C S) unit :=
  match o with
  | AddFirst n h => addFirst n h
  | AddLast n h => addLast n h
  | AddBefore base n h => addBefore base n h
  | AddAfter base n h => addAfter base n h
  end.
End Specification.

Section Refinement.
Context {H : Type} {CH : ChannelHandler H} {C S : Type}.
Abbreviation pipeline := (DefaultChannelPipeline.t H C S).
Abbreviation node := (node H).

Lemma has_name_spec (p : pipeline) ns n :
  inv p ns -> has_name n (contents ns) = match name2ctx p !! n with Some _ => true | None => false end.
Proof.
  intros Hi. destruct (name2ctx p !! n) as [a|] eqn:E.
  - apply (inv_split _ _ _ _ Hi) in E as (l1 & x & l2 & -> & <- & _).
    apply existsb_exists. exists (named x, has x). split; [|apply bool_decide_eq_true; reflexivity].
    apply in_map_iff. exists x. split; [reflexivity|]. apply in_app_iff. right. left. reflexivity.
  - destruct (has_name n (contents ns)) eqn:Eh; [|reflexivity]. exfalso.
    apply existsb_exists in Eh as (y & Hy & Hn). apply in_map_iff in Hy as (x & <- & Hx).
    apply bool_decide_eq_true in Hn. cbn in Hn. apply list_elem_of_In in Hx.
    assert (name2ctx p !! n = Some (at_ x)) as Hl by (apply (inv_names _ _ Hi); eauto). congruence.
Qed.

Lemma accepted (p : pipeline) ns n h :
  inv p ns -> refuse n h (contents ns) = None -> cb afterAdd h = Ok tt ->
  name2ctx p !! n = None /\ admissible h.
Proof.
  intros Hi Hr Ha. unfold refuse in Hr. rewrite (has_name_spec p ns n Hi) in Hr.
  destruct (name2ctx p !! n); [discriminate|]. split; [reflexivity|].
  destruct (isUpstream h) eqn:Eu, (isDownstream h) eqn:Ed; cbn in Hr; try discriminate;
    (split; [rewrite Eu, Ed; reflexivity|]; split; [|exact Ha]);
    destruct (cb beforeAdd h) as [[]|]; congruence.
Qed.

Lemma refused (p : pipeline) ns n h e :
  inv p ns -> refuse n h (contents ns) = Some e ->
  match name2ctx p !! n with
  | Some _ => e = InvalidArgumentException
  | None => forall A pv nx (k : addr -> M pipeline A), exists p',
      (let! a := newContext n h pv nx in callBeforeAdd a ;! k a) p = (Err e, p') /\ inv p' ns
  end.
Proof.
  intros Hi Hr. unfold refuse in Hr. rewrite (has_name_spec p ns n Hi) in Hr.
  destruct (name2ctx p !! n); [congruence|]. intros A pv nx k.
  unfold bind at 1. rewrite newContext_spec. destruct (_ && _).
  - exists p. split; [congruence | exact Hi].
  - exists (allocated (new_ctx n h pv nx) p). split; [|apply inv_allocated, Hi].
    apply bind_err. unfold callBeforeAdd.
    rewrite (callback_cb _ _ _ (new_ctx n h pv nx)) by apply lookup_insert_eq. cbn.
    destruct (cb beforeAdd h); congruence.
Qed.

Lemma checkDuplicateName_spec (p : pipeline) n :
  checkDuplicateName n p =
    match name2ctx p !! n with Some _ => (Err InvalidArgumentException, p) | None => (Ok tt, p) end.
Proof. unfold checkDuplicateName. mstep. unfold id. destruct (name2ctx p !! n); reflexivity. Qed.

(** What [spec_add] and an addition have in common. *)
Definition refines (m : M pipeline unit) (p : pipeline) (ns : list node) (r : result (list (string * H))) : Prop :=
  exists p' ns', inv p' ns' /\
    match r with
    | Ok l => m p = (Ok tt, p') /\ contents ns' = l
    | Err e => m p = (Err e, p') /\ ns' = ns
    end.

Lemma addFirst_refines (p : pipeline) ns n h :
  inv p ns -> cb afterAdd h = Ok tt ->
  refines (addFirst n (Some h)) p ns (spec_add (AddFirst n (Some h)) (contents ns)).
Proof.
  intros Hi Ha. unfold refines. cbn [spec_add]. destruct (refuse n h (contents ns)) as [e|] eqn:Er.
  - pose proof (refused p ns n h e Hi Er) as Hrf.
    cut (exists p', addFirst n (Some h) p = (Err e, p') /\ inv p' ns);
      [intros (p' & E & Hi'); exists p', ns; auto|].
    unfold addFirst. rewrite bind_gets. unfold id.
    destruct (decide (name2ctx p = ∅)) as [E|_].
    + rewrite E, lookup_empty in Hrf. apply Hrf.
    + unfold bind at 1. rewrite checkDuplicateName_spec. destruct (name2ctx p !! n); [|apply Hrf].
      subst e. exists p. auto.
  - destruct (accepted p ns n h Hi Er Ha) as [Hn Hh]. destruct ns as [|y l].
    + destruct (init_spec p n h Hi Hh) as (p' & E & Hi'). exists p', [MkNode (fresh p) n h].
      split; [exact Hi'|]. split; [|reflexivity]. unfold addFirst. rewrite bind_gets. unfold id.
      destruct (decide (name2ctx p = ∅)) as [_|E']; [exact E|].
      exfalso. apply E', (names_empty _ _ Hi). reflexivity.
    + destruct (addFirst_cons p y l n h Hi Hn Hh) as (p' & E & Hi').
      exists p', (MkNode (fresh p) n h :: y :: l). auto.
Qed.

Lemma contents_app (l1 l2 : list node) : contents (l1 ++ l2) = contents l1 ++ contents l2.
Proof. apply map_app. Qed.

Lemma addLast_refines (p : pipeline) ns n h :
  inv p ns -> cb afterAdd h = Ok tt ->
  refines (addLast n (Some h)) p ns (spec_add (AddLast n (Some h)) (contents ns)).
Proof.
  intros Hi Ha. unfold refines. cbn [spec_add]. destruct (refuse n h (contents ns)) as [e|] eqn:Er.
  - pose proof (refused p ns n h e Hi Er) as Hrf.
    cut (exists p', addLast n (Some h) p = (Err e, p') /\ inv p' ns);
      [intros (p' & E & Hi'); exists p', ns; auto|].
    unfold addLast. rewrite bind_gets. unfold id.
    destruct (decide (name2ctx p = ∅)) as [E|_].
    + rewrite E, lookup_empty in Hrf. apply Hrf.
    + unfold bind at 1. rewrite checkDuplicateName_spec. destruct (name2ctx p !! n); [|apply Hrf].
      subst e. exists p. auto.
  - destruct (accepted p ns n h Hi Er Ha) as [Hn Hh]. destruct ns as [|y l _] using rev_ind.
    + destruct (init_spec p n h Hi Hh) as (p' & E & Hi'). exists p', [MkNode (fresh p) n h].
      split; [exact Hi'|]. split; [|reflexivity]. unfold addLast. rewrite bind_gets. unfold id.
      destruct (decide (name2ctx p = ∅)) as [_|E']; [exact E|].
      exfalso. apply E', (names_empty _ _ Hi). reflexivity.
    + destruct (addLast_snoc p l y n h Hi Hn Hh) as (p' & E & Hi').
      exists p', ((l ++ [y]) ++ [MkNode (fresh p) n h]). split; [exact Hi'|]. split; [exact E|].
      rewrite contents_app. reflexivity.
Qed.

(** The base of an insertion. *)
Lemma insert_before_none (p : pipeline) ns b x :
  inv p ns -> name2ctx p !! b = None -> insert_before b x (contents ns) = None.
Proof.
  intros Hi E. pose proof (has_name_spec p ns b Hi) as Hh. rewrite E in Hh. clear Hi E.
  induction ns as [|y ns IH]; [reflexivity|]. cbn in *. destruct (bool_decide _); [discriminate|].
  fold (contents ns) in *. rewrite IH by exact Hh. reflexivity.
Qed.

Lemma insert_after_none (p : pipeline) ns b x :
  inv p ns -> name2ctx p !! b = None -> insert_after b x (contents ns) = None.
Proof.
  intros Hi E. pose proof (has_name_spec p ns b Hi) as Hh. rewrite E in Hh. clear Hi E.
  induction ns as [|y ns IH]; [reflexivity|]. cbn in *. destruct (bool_decide _); [discriminate|].
  fold (contents ns) in *. rewrite IH by exact Hh. reflexivity.
Qed.

Lemma inv_base_fresh (p : pipeline) l1 z l2 y :
  inv p (l1 ++ z :: l2) -> y ∈ l1 -> bool_decide (named y = named z) = false.
Proof. intros Hi Hy. apply bool_decide_eq_false. apply (inv_distinct p l1 z l2 y Hi). left. exact Hy. Qed.

Lemma insert_before_some (p : pipeline) l1 z l2 x :
  inv p (l1 ++ z :: l2) ->
  insert_before (named z) x (contents (l1 ++ z :: l2)) = Some (contents l1 ++ x :: contents (z :: l2)).
Proof.
  intros Hi. pose proof (fun y => inv_base_fresh p l1 z l2 y Hi) as Hf. clear Hi.
  induction l1 as [|y l1 IH]; cbn.
  - rewrite bool_decide_true by reflexivity. reflexivity.
  - rewrite Hf by left. fold (contents (l1 ++ z :: l2)). rewrite IH; [reflexivity|]. intros w Hw. apply Hf. right. exact Hw.
Qed.

Lemma insert_after_some (p : pipeline) l1 z l2 x :
  inv p (l1 ++ z :: l2) ->
  insert_after (named z) x (contents (l1 ++ z :: l2)) = Some (contents (l1 ++ [z]) ++ x :: contents l2).
Proof.
  intros Hi. pose proof (fun y => inv_base_fresh p l1 z l2 y Hi) as Hf. clear Hi.
  induction l1 as [|y l1 IH]; cbn.
  - rewrite bool_decide_true by reflexivity. reflexivity.
  - rewrite Hf by left. fold (contents (l1 ++ z :: l2)). rewrite IH; [reflexivity|]. intros w Hw. apply Hf. right. exact Hw.
Qed.

Lemma addBefore_refines (p : pipeline) ns b n h :
  inv p ns -> cb afterAdd h = Ok tt ->
  refines (addBefore b n (Some h)) p ns (spec_add (AddBefore b n (Some h)) (contents ns)).
Proof.
  intros Hi Ha. unfold refines. cbn [spec_add]. destruct (name2ctx p !! b) as [a|] eqn:Eb.
  2:{ rewrite (insert_before_none p ns b _ Hi Eb). exists p, ns. split; [exact Hi|]. split; [|reflexivity].
      unfold addBefore, getContextOrDie, getContextByName. mstep. unfold id. rewrite Eb. reflexivity. }
  apply (inv_split _ _ _ _ Hi) in Eb as (l1 & z & l2 & -> & <- & <-).
  rewrite (insert_before_some p l1 z l2 _ Hi).
  destruct l1 as [|y l _] using rev_ind.
  - destruct (addFirst_refines p (z :: l2) n h Hi Ha) as (p' & ns' & Hi' & Hr). exists p', ns'.
    split; [exact Hi'|].
    assert (addBefore (named z) n (Some h) p = addFirst n (Some h) p) as ->; [|exact Hr].
    unfold addBefore, getContextOrDie, getContextByName. mstep. unfold id.
    rewrite (inv_lookup _ [] _ _ Hi), bind_ret_l. mstep. unfold id. rewrite (inv_head _ _ Hi).
    destruct (decide (Some (at_ z) = _)) as [_|E]; [reflexivity | exfalso; apply E; reflexivity].
  - destruct (refuse n h _) as [e|] eqn:Er.
    + pose proof (refused p _ n h e Hi Er) as Hrf.
      cut (exists p', addBefore (named z) n (Some h) p = (Err e, p') /\ inv p' ((l ++ [y]) ++ z :: l2));
        [intros (p' & E & Hi'); eexists p', _; eauto|].
      unfold addBefore, getContextOrDie, getContextByName. mstep. unfold id.
      rewrite (inv_lookup _ _ _ _ Hi), bind_ret_l. mstep. unfold id.
      pose proof (head_not_inner p l y z l2 Hi) as Hhd.
      destruct (decide (Some (at_ z) = head p)) as [E|_]; [congruence|].
      destruct (K_store _ _ _ _ _ _ _ _ (linked_at _ _ _ _ _ _ (inv_linked _ _ Hi))) as (c & Ec & _).
      unfold bind at 1. rewrite checkDuplicateName_spec. destruct (name2ctx p !! n).
      * subst e. exists p. auto.
      * rewrite (bind_deref _ _ _ _ Ec). apply Hrf.
    + destruct (accepted p _ n h Hi Er Ha) as [Hn Hh].
      destruct (addBefore_mid p l y z l2 n h Hi Hn Hh) as (p' & E & Hi').
      eexists p', _. split; [exact Hi'|]. split; [exact E|]. rewrite contents_app. reflexivity.
Qed.

Lemma addAfter_refines (p : pipeline) ns b n h :
  inv p ns -> cb afterAdd h = Ok tt ->
  refines (addAfter b n (Some h)) p ns (spec_add (AddAfter b n (Some h)) (contents ns)).
Proof.
  intros Hi Ha. unfold refines. cbn [spec_add]. destruct (name2ctx p !! b) as [a|] eqn:Eb.
  2:{ rewrite (insert_after_none p ns b _ Hi Eb). exists p, ns. split; [exact Hi|]. split; [|reflexivity].
      unfold addAfter, getContextOrDie, getContextByName. mstep. unfold id. rewrite Eb. reflexivity. }
  apply (inv_split _ _ _ _ Hi) in Eb as (l & y & l2 & -> & <- & <-).
  rewrite (insert_after_some p l y l2 _ Hi).
  destruct l2 as [|z r].
  - destruct (addLast_refines p (l ++ [y]) n h Hi Ha) as (p' & ns' & Hi' & Hr). exists p', ns'.
    split; [exact Hi'|].
    assert (addAfter (named y) n (Some h) p = addLast n (Some h) p) as ->; [|exact Hr].
    unfold addAfter, getContextOrDie, getContextByName. mstep. unfold id.
    rewrite (inv_lookup _ _ _ _ Hi), bind_ret_l. mstep. unfold id. rewrite (inv_tail _ _ Hi), last_of_app.
    destruct (decide (Some (at_ y) = _)) as [_|E]; [reflexivity | exfalso; apply E; reflexivity].
  - assert (inv p ((l ++ [y]) ++ z :: r)) as Him by (rewrite <- app_assoc; exact Hi).
    destruct (refuse n h _) as [e|] eqn:Er.
    + pose proof (refused p _ n h e Hi Er) as Hrf.
      cut (exists p', addAfter (named y) n (Some h) p = (Err e, p') /\ inv p' (l ++ y :: z :: r));
        [intros (p' & E & Hi'); eexists p', _; eauto|].
      unfold addAfter, getContextOrDie, getContextByName. mstep. unfold id.
      rewrite (inv_lookup _ _ _ _ Hi), bind_ret_l. mstep. unfold id.
      pose proof (tail_not_inner p l y z r Him) as Htl.
      destruct (decide (Some (at_ y) = tail p)) as [E|_]; [congruence|].
      destruct (K_store _ _ _ _ _ _ _ _ (linked_at _ _ _ _ _ _ (inv_linked _ _ Hi))) as (c & Ec & _).
      unfold bind at 1. rewrite checkDuplicateName_spec. destruct (name2ctx p !! n).
      * subst e. exists p. auto.
      * rewrite (bind_deref _ _ _ _ Ec). apply Hrf.
    + destruct (accepted p _ n h Hi Er Ha) as [Hn Hh].
      destruct (addAfter_mid p l y z r n h Him Hn Hh) as (p' & E & Hi').
      eexists p', _. split; [exact Hi'|]. split; [exact E|]. rewrite contents_app. reflexivity.
Qed.

Lemma perform_refines (o : addition) (p : pipeline) ns :
  inv p ns -> (forall h, handler_added o = Some h -> cb afterAdd h = Ok tt) ->
  refines (perform o) p ns (spec_add o (contents ns)).
Proof.
  intros Hi Ha.
  assert (refines (ret tt) p ns (Ok (contents ns))) as Hnone by (exists p, ns; auto).
  destruct o as [n [h|]|n [h|]|b n [h|]|b n [h|]]; try exact Hnone; specialize (Ha h eq_refl).
  - apply addFirst_refines; assumption.
  - apply addLast_refines; assumption.
  - apply addBefore_refines; assumption.
  - apply addAfter_refines; assumption.
Qed.

(** The whole pipeline can be read. *)
Lemma walk_spec fuel (p : pipeline) pv ns :
  linked (K p) pv ns None -> (length ns <= fuel)%nat -> walk fuel (addr_of ns None) p = Ok (contents ns).
Proof.
  revert fuel pv. induction ns as [|x ns IH]; intros fuel pv Hl Hf; [destruct fuel; reflexivity|].
  cbn in Hf. destruct fuel as [|fuel]; [lia|]. destruct Hl as [Hx Hl].
  destruct (K_store _ _ _ _ _ _ _ _ Hx) as (c & Ec & Enx & _ & _ & _ & En & Eh).
  cbn [walk addr_of]. unfold lookup_ctx. rewrite Ec. cbn [rbind]. rewrite Enx, (IH fuel _ Hl) by lia.
  cbn. rewrite En, Eh. reflexivity.
Qed.

Lemma toMap_spec (p : pipeline) ns : inv p ns -> toMap p = Ok (contents ns).
Proof.
  intros Hi. unfold toMap. destruct (decide (name2ctx p = ∅)) as [E|E].
  - apply (names_empty _ _ Hi) in E as ->. reflexivity.
  - rewrite (inv_head _ _ Hi). destruct ns as [|x ns]; [exfalso; apply E, (names_empty _ _ Hi); reflexivity|].
    apply (walk_spec _ p None (x :: ns)); [apply Hi|].
    exact (linked_size p None _ None (inv_nodup _ _ Hi) (inv_linked _ _ Hi)).
Qed.

Lemma inv_new : inv (new : pipeline) [].
Proof.
  split; try exact Logic.I; try reflexivity; [apply NoDup_nil_2 | |].
  - intros n a. cbn. rewrite lookup_empty. split; [discriminate | intros (x & Hx & _); inversion Hx].
  - intros a Ha. exfalso. apply Ha. unfold K. cbn. rewrite lookup_empty. reflexivity.
Qed.

End Refinement.

(** ** Removals *)

Section Removals.
Context {H : Type} {CH : ChannelHandler H} {C S : Type}.
Abbreviation pipeline := (DefaultChannelPipeline.t H C S).
Abbreviation node := (node H).

Lemma last_down_none dn (l : list node) :
  last_down dn l = match last_down None l with Some a => Some a | None => dn end.
Proof.
  revert dn. induction l as [|x l IH]; intros dn; [reflexivity|]. cbn. rewrite IH, (IH (down_of None x)).
  unfold down_of. destruct (isDownstream (has x)), (last_down None l); reflexivity.
Qed.

(** A removal leaves no pointer to the removed context when another upstream
    handler follows it, or none comes before it, and conversely downstream. *)
Definition safe_removal (l1 : list node) (x : node) (l2 : list node) : Prop :=
  (isUpstream (has x) = true -> first_up l2 None <> None \/ first_up l1 None = None) /\
  (isDownstream (has x) = true -> last_down None l1 <> None \/ last_down None l2 = None).

Lemma first_up_some (l : list node) b : first_up l (Some b) <> None.
Proof. induction l as [|x l IH]; [discriminate|]. cbn. destruct (isUpstream (has x)); [discriminate | exact IH]. Qed.

Lemma ups_relink u u' (l : list node) un un' :
  ups u l un -> ups_upd u u' l un' -> un' <> None \/ first_up l None = None -> ups u' l un'.
Proof.
  induction l as [|y l IH]; [auto|]. intros [H1 H2] [Hy Hupd] Hs. cbn [first_up] in Hs.
  assert (un' <> None \/ first_up l None = None) as Hs'
    by (destruct Hs as [Hs|Hs]; [left; exact Hs|]; destruct (isUpstream (has y)); [discriminate | right; exact Hs]).
  split; [|exact (IH H2 Hupd Hs')]. rewrite Hy, H1. destruct (isUpstream (has y)); [|reflexivity].
  destruct Hs as [Hs|Hs]; [|discriminate]. destruct un' as [b|]; [|contradiction].
  pose proof (first_up_some l b). destruct (first_up l (Some b)); [reflexivity | contradiction].
Qed.

Lemma ups_remove u u' (l1 l2 : list node) x :
  ups u (l1 ++ x :: l2) None ->
  (isUpstream (has x) = true -> first_up l2 None <> None \/ first_up l1 None = None) ->
  (if isUpstream (has x) then ups_upd u u' (l1 ++ l2) None else forall b, u' b = u b) ->
  ups u' (l1 ++ l2) None.
Proof.
  intros Hu Hs. apply ups_app in Hu as [H1 [_ H2]]. cbn [first_up] in H1.
  destruct (isUpstream (has x)).
  - intros Hupd. apply ups_upd_app in Hupd as [U1 U2]. apply ups_app. split.
    + exact (ups_relink _ _ _ _ _ H1 U1 (Hs eq_refl)).
    + clear - H2 U2. induction l2 as [|y l2 IH]; [exact Logic.I|]. destruct H2 as [H1 H2], U2 as [Hy U2].
      split; [|exact (IH H2 U2)]. rewrite Hy, H1. destruct (isUpstream (has y)); [|reflexivity].
      destruct (first_up l2 None); reflexivity.
  - intros Hsame. apply (ups_ext u); [intros a _; apply Hsame|]. apply ups_app. auto.
Qed.

Lemma downs_relink d d' (l : list node) dn dn' :
  downs d dn l -> downs_upd d d' dn' l -> dn' <> None \/ last_down None l = None -> downs d' dn' l.
Proof.
  intros H1 Hupd [Hs|Hs]; [destruct dn' as [b|]; [|contradiction]; exact (downs_upd_some _ _ _ _ _ H1 Hupd)|].
  revert dn dn' H1 Hupd. induction l as [|y l IH]; [auto|]. intros dn dn' [H1 H2] [Hy Hupd].
  cbn in Hs. rewrite last_down_none in Hs. unfold down_of in *. destruct (isDownstream (has y)) eqn:Ey.
  - destruct (last_down None l); discriminate.
  - cbn. unfold down_of. rewrite Ey. split; [rewrite Hy, H1; reflexivity|]. refine (IH _ _ _ H2 Hupd).
    destruct (last_down None l); [discriminate | reflexivity].
Qed.

Lemma downs_remove d d' (l1 l2 : list node) x :
  downs d None (l1 ++ x :: l2) ->
  (isDownstream (has x) = true -> last_down None l1 <> None \/ last_down None l2 = None) ->
  (if isDownstream (has x) then downs_upd d d' None (l1 ++ l2) else forall b, d' b = d b) ->
  downs d' None (l1 ++ l2).
Proof.
  intros Hd Hs. apply downs_app in Hd as [H1 [_ H2]]. unfold down_of in H2.
  destruct (isDownstream (has x)).
  - intros Hupd. apply downs_upd_app in Hupd as [U1 U2]. apply downs_app. split.
    + exact (downs_upd_same _ _ _ _ H1 U1).
    + exact (downs_relink _ _ _ _ _ H2 U2 (Hs eq_refl)).
  - intros Hsame. apply (downs_ext d); [intros a _; apply Hsame|]. apply downs_app. auto.
Qed.

Lemma named_by_remove (p : pipeline) l1 x l2 :
  inv p (l1 ++ x :: l2) ->
  forall n a, base.delete (named x) (name2ctx p) !! n = Some a
    <-> exists y, y ∈ l1 ++ l2 /\ named y = n /\ at_ y = a.
Proof.
  intros Hi n a. rewrite lookup_delete_Some, (inv_names _ _ Hi). split.
  - intros (Hne & y & Hy & <- & <-). exists y. split; [|auto]. apply elem_of_app.
    apply elem_of_app in Hy as [Hy|Hy]; [left; exact Hy | right].
    apply elem_of_cons in Hy as [->|Hy]; [contradiction | exact Hy].
  - intros (y & Hy & <- & <-). apply elem_of_app in Hy. split.
    + intros E. apply (inv_distinct p l1 x l2 y Hi Hy). congruence.
    + exists y. split; [|auto]. apply elem_of_app. destruct Hy as [Hy|Hy]; [left; exact Hy | right; right; exact Hy].
Qed.

(** The end of a removal: [q] is the state in which the neighbours of [x] are
    relinked. *)
Lemma finish_remove (p q : pipeline) l1 x l2 :
  inv p (l1 ++ x :: l2) -> safe_removal l1 x l2 ->
  linked (K q) None (l1 ++ l2) None -> head q = addr_of (l1 ++ l2) None -> tail q = last_of None (l1 ++ l2) ->
  (forall b, U q b = U p b) -> (forall b, D q b = D p b) ->
  upstreamHead q = upstreamHead p -> downstreamHead q = downstreamHead p ->
  (forall a, K q a <> None -> (a < fresh q)%positive) -> K q (at_ x) <> None ->
  exists r, updateLists (isUpstream (has x)) (isDownstream (has x)) q = (Ok tt, r) /\ same_lists q r /\
    forall s : pipeline, store s = base.delete (at_ x) (store r) -> fresh s = fresh r -> head s = head r -> tail s = tail r ->
      upstreamHead s = upstreamHead r -> downstreamHead s = downstreamHead r ->
      name2ctx s = base.delete (named x) (name2ctx p) -> inv s (l1 ++ l2).
Proof.
  intros Hi [Hsu Hsd] Hl Hh Ht HU HD Huh Hdh Hf Hx.
  assert (NoDup (addrs (l1 ++ l2)) /\ at_ x ∉ addrs (l1 ++ l2)) as [Hn Hnotin].
  { pose proof (inv_nodup _ _ Hi) as N. unfold addrs in *. rewrite map_app in *. cbn [map] in N.
    apply list.NoDup_app in N as (N1 & N12 & N2). apply list.NoDup_cons in N2 as [Nx N2]. split.
    - apply list.NoDup_app. split; [exact N1|]. split; [|exact N2]. intros a Ha Ha'. apply (N12 a Ha). right. exact Ha'.
    - apply not_elem_of_app. split; [|exact Nx]. intros Ha. apply (N12 _ Ha). left. }
  destruct (updateLists_spec q (l1 ++ l2) (isUpstream (has x)) (isDownstream (has x)) Hl Hn Hh Ht)
    as (r & Er & Hs & Hu & Hd & HUr & HDr).
  exists r. split; [exact Er|]. split; [exact Hs|].
  intros s Ess Efs Ehs Ets Euh Edh Ens.
  assert (forall a, a <> at_ x -> store s !! a = store r !! a) as Hst
    by (intros a Ha; rewrite Ess; apply lookup_delete_ne; congruence).
  assert (forall a, a ∈ addrs (l1 ++ l2) -> a <> at_ x) as Hne by (intros a Ha ->; contradiction).
  split.
  - exact Hn.
  - rewrite Ens. apply named_by_remove, Hi.
  - eapply linked_ext; [|exact Hl]. intros a Ha. unfold K at 1. rewrite Hst by auto. apply Hs.
  - apply (ups_ext (U r)); [intros a Ha; unfold U; rewrite Hst by auto; reflexivity|].
    apply (ups_remove (U q) _ _ _ x); [eapply ups_ext; [|apply (inv_ups _ _ Hi)]; intros; apply HU | exact Hsu | exact HUr].
  - apply (downs_ext (D r)); [intros a Ha; unfold D; rewrite Hst by auto; reflexivity|].
    apply (downs_remove (D q) _ _ _ x); [eapply downs_ext; [|apply (inv_downs _ _ Hi)]; intros; apply HD | exact Hsd | exact HDr].
  - rewrite Ehs, (same_head _ _ Hs). exact Hh.
  - rewrite Ets, (same_tail _ _ Hs). exact Ht.
  - rewrite Euh, Hu. destruct (isUpstream (has x)) eqn:E; [reflexivity|].
    rewrite Huh, (inv_upstreamHead _ _ Hi). apply first_up_skip, E.
  - rewrite Edh, Hd. destruct (isDownstream (has x)) eqn:E; [reflexivity|].
    rewrite Hdh, (inv_downstreamHead _ _ Hi). apply last_down_skip, E.
  - intros a Ha. rewrite Efs, (same_fresh _ _ Hs). apply Hf. rewrite <- (same_K _ _ Hs).
    intros E. apply Ha. destruct (decide (a = at_ x)) as [->|Hax].
    + unfold K. rewrite Ess, lookup_delete_eq. reflexivity.
    + unfold K. rewrite Hst by exact Hax. exact E.
Qed.

Definition removable (h : H) : Prop := cb beforeRemove h = Ok tt /\ cb afterRemove h = Ok tt.

(** The last steps of every removal of a context. *)
Lemma delete_last {A} (r : pipeline) x (pv nx : option addr) (k : unit -> M pipeline A) :
  K r (at_ x) = Some (node_core x nx pv) -> removable (has x) ->
  (callAfterRemove (at_ x) ;! (let! u := delete_ctx (at_ x) in k u)) r
    = k tt (with_store (base.delete (at_ x)) r).
Proof.
  intros Hk [_ Ha]. destruct (K_store _ _ _ _ _ _ _ _ Hk) as (c & Ec & _ & _ & _ & _ & _ & Eh).
  unfold callAfterRemove. unfold bind at 1. rewrite (callback_cb _ _ _ _ Ec), Eh, Ha.
  unfold delete_ctx. rewrite bind_assoc, (bind_deref _ _ _ _ Ec), bind_modify. reflexivity.
Qed.

Lemma removeFirst_spec (p : pipeline) x z r :
  inv p (x :: z :: r) -> removable (has x) -> safe_removal [] x (z :: r) ->
  exists p', removeFirst p = (Ok (has x), p') /\ inv p' (z :: r).
Proof.
  intros Hi Hr Hs. pose proof (inv_linked _ _ Hi) as [Hx Hl]. cbn [addr_of] in Hx.
  pose proof Hl as [Hz _].
  destruct (K_store _ _ _ _ _ _ _ _ Hx) as (c & Ec & Enx & _ & Eu & Ed & En & Eh).
  destruct (K_store _ _ _ _ _ _ _ _ Hz) as (cz & Ecz & _).
  assert (at_ z <> at_ x) as Hzx by (apply (inv_distinct_at p [] x (z :: r) z Hi); right; left).
  unfold removeFirst. rewrite bind_gets. unfold id.
  destruct (decide (name2ctx p = ∅)) as [E|_]; [apply (names_empty _ _ Hi) in E; discriminate|].
  rewrite (inv_head _ _ Hi). cbn [addr_of].
  unfold bind at 1, callBeforeRemove. rewrite (callback_cb _ _ _ _ Ec), Eh, (proj1 Hr).
  rewrite (bind_deref _ _ _ _ Ec), Enx, bind_assoc, (bind_assign _ _ _ _ _ Ecz), bind_assoc, !bind_modify.
  rewrite Eu, Ed, En, Eh. set (q := with_name2ctx _ _).
  assert (forall b, K q b = if decide (b = at_ z) then Some (core_of (with_prev None cz)) else K p b) as HK
    by (intros b; apply K_insert).
  destruct (finish_remove p q [] x (z :: r) Hi Hs) as (t & Et & Hst & Hfin); try reflexivity.
  - apply (linked_set_prev (K p) (K q) (Some (at_ x)) None z r); [|exact Hl|].
    + pose proof (inv_nodup _ _ Hi) as N. apply list.NoDup_cons in N as [_ N]. exact N.
    + intros a _. rewrite HK. destruct (decide (a = at_ z)); [|reflexivity].
      unfold K in Hz. rewrite Ecz in Hz. injection Hz as E1 E2 E3 E4 E5 E6.
      unfold core_of, node_core. cbn. congruence.
  - apply (inv_tail _ _ Hi).
  - intros b. apply (U_assign p (at_ z) cz); [exact Ecz | reflexivity].
  - intros b. apply (D_assign p (at_ z) cz); [exact Ecz | reflexivity].
  - intros a Ha. apply (inv_fresh _ _ Hi). eapply (K_assign p (at_ z) cz); [exact Ecz | exact Ha].
  - rewrite HK. destruct (decide (at_ x = at_ z)); [congruence|]. rewrite Hx. discriminate.
  - rewrite (bind_ok _ _ _ _ _ Et), (delete_last t x None (Some (at_ z))); [| |exact Hr].
    + eexists. split; [reflexivity|]. apply Hfin; try reflexivity. cbn. rewrite (same_names _ _ Hst). reflexivity.
    + rewrite (same_K _ _ Hst), HK. destruct (decide (at_ x = at_ z)); [congruence | exact Hx].
Qed.

Lemma removeLast_spec (p : pipeline) l y x :
  inv p ((l ++ [y]) ++ [x]) -> removable (has x) -> safe_removal (l ++ [y]) x [] ->
  exists p', removeLast p = (Ok (has x), p') /\ inv p' (l ++ [y]).
Proof.
  intros Hi Hr Hs. pose proof (inv_linked _ _ Hi) as Hl. apply linked_app in Hl as [Hl [Hx _]].
  cbn [addr_of] in Hl, Hx. rewrite last_of_app in Hx. cbn [last_of] in Hx.
  pose proof (linked_at _ _ _ _ _ _ Hl) as Hy.
  destruct (K_store _ _ _ _ _ _ _ _ Hx) as (c & Ec & _ & Epv & Eu & Ed & En & Eh).
  destruct (K_store _ _ _ _ _ _ _ _ Hy) as (cy & Ecy & _).
  assert (at_ y <> at_ x) as Hyx
    by (apply (inv_distinct_at p (l ++ [y]) x [] y Hi); left; apply elem_of_app; right; left).
  unfold removeLast. rewrite bind_gets. unfold id.
  destruct (decide (name2ctx p = ∅)) as [E|_];
    [apply (names_empty _ _ Hi) in E; apply app_eq_nil in E as [_ E]; discriminate|].
  rewrite (inv_tail _ _ Hi), last_of_app. cbn [last_of].
  unfold bind at 1, callBeforeRemove. rewrite (callback_cb _ _ _ _ Ec), Eh, (proj1 Hr).
  rewrite (bind_deref _ _ _ _ Ec), Epv, bind_assoc, (bind_assign _ _ _ _ _ Ecy), bind_assoc, !bind_modify.
  rewrite Eu, Ed, En, Eh. set (q := with_name2ctx _ _).
  assert (forall b, K q b = if decide (b = at_ y) then Some (core_of (with_next None cy)) else K p b) as HK
    by (intros b; apply K_insert).
  destruct (finish_remove p q (l ++ [y]) x [] Hi Hs) as (t & Et & Hst & Hfin); rewrite ?app_nil_r; try reflexivity.
  - apply (linked_set_next (K p) (K q) None l y (Some (at_ x))); [|exact Hl|].
    + pose proof (inv_nodup _ _ Hi) as N. unfold addrs in *. rewrite map_app in N.
      apply list.NoDup_app in N as (N & _). exact N.
    + intros a _. rewrite HK. destruct (decide (a = at_ y)); [|reflexivity].
      unfold K in Hy. rewrite Ecy in Hy. injection Hy as E1 E2 E3 E4 E5 E6.
      unfold core_of, node_core. cbn. congruence.
  - etransitivity; [apply (inv_head _ _ Hi)|]. rewrite !addr_of_app. destruct l; reflexivity.
  - cbn. rewrite last_of_app. reflexivity.
  - intros b. apply (U_assign p (at_ y) cy); [exact Ecy | reflexivity].
  - intros b. apply (D_assign p (at_ y) cy); [exact Ecy | reflexivity].
  - intros a Ha. apply (inv_fresh _ _ Hi). eapply (K_assign p (at_ y) cy); [exact Ecy | exact Ha].
  - rewrite HK. destruct (decide (at_ x = at_ y)); [congruence|]. rewrite Hx. discriminate.
  - rewrite app_nil_r in Hfin.
    rewrite (bind_ok _ _ _ _ _ Et), (delete_last t x (Some (at_ y)) None); [| |exact Hr].
    + eexists. split; [reflexivity|]. apply Hfin; try reflexivity. cbn. rewrite (same_names _ _ Hst). reflexivity.
    + rewrite (same_K _ _ Hst), HK. destruct (decide (at_ x = at_ y)); [congruence | exact Hx].
Qed.

Lemma removeCtx_mid (p : pipeline) l y x z r :
  inv p ((l ++ [y]) ++ x :: z :: r) -> removable (has x) -> safe_removal (l ++ [y]) x (z :: r) ->
  head p <> tail p ->
  exists p', removeCtx (at_ x) p = (Ok (has x), p') /\ inv p' ((l ++ [y]) ++ z :: r).
Proof.
  intros Hi Hr Hs Hht. pose proof (inv_linked _ _ Hi) as Hl. apply linked_app in Hl as [Hl1 [Hx Hl2]].
  cbn [addr_of] in Hl1, Hx. rewrite last_of_app in Hx. cbn [last_of] in Hx.
  pose proof (linked_at _ _ _ _ _ _ Hl1) as Hy. pose proof Hl2 as [Hz _].
  destruct (K_store _ _ _ _ _ _ _ _ Hx) as (c & Ec & Enx & Epv & Eu & Ed & En & Eh).
  destruct (K_store _ _ _ _ _ _ _ _ Hy) as (cy & Ecy & _).
  destruct (K_store _ _ _ _ _ _ _ _ Hz) as (cz & Ecz & _).
  assert (at_ y <> at_ x) as Hyx
    by (apply (inv_distinct_at p _ x _ y Hi); left; apply elem_of_app; right; left).
  assert (at_ z <> at_ x) as Hzx by (apply (inv_distinct_at p _ x _ z Hi); right; left).
  assert (inv p ((l ++ [y; x]) ++ z :: r)) as Hi' by (rewrite <- app_assoc in *; exact Hi).
  assert (at_ y <> at_ z) as Hyz
    by (apply (inv_distinct_at p _ z r y Hi'); left; apply elem_of_app; right; left).
  pose proof (head_not_inner p l y x (z :: r) Hi) as Hhx.
  assert (tail p <> Some (at_ x)) as Htx.
  { apply (tail_not_inner p (l ++ [y]) x z r). rewrite <- app_assoc. exact Hi. }
  unfold removeCtx. rewrite bind_gets. unfold id.
  destruct (decide (head p = tail p)); [contradiction|].
  destruct (decide (Some (at_ x) = head p)); [congruence|].
  destruct (decide (Some (at_ x) = tail p)); [congruence|].
  unfold bind at 1, callBeforeRemove. rewrite (callback_cb _ _ _ _ Ec), Eh, (proj1 Hr).
  rewrite (bind_deref _ _ _ _ Ec), Enx, Epv. cbn [non_null]. rewrite !bind_ret_l, (bind_assign _ _ _ _ _ Ecy).
  erewrite bind_assign by (cbn; rewrite lookup_insert_ne by exact Hyz; exact Ecz).
  rewrite Eu, Ed, En, Eh. set (q1 := with_store _ p). set (q := with_store _ q1).
  assert (store q1 !! at_ z = Some cz) as Eq1 by (cbn; rewrite lookup_insert_ne by exact Hyz; exact Ecz).
  assert (forall b, K q b = if decide (b = at_ z) then Some (core_of (with_prev (Some (at_ y)) cz))
    else if decide (b = at_ y) then Some (core_of (with_next (Some (at_ z)) cy)) else K p b) as HK.
  { intros b. unfold q. rewrite K_insert. destruct (decide (b = at_ z)); [reflexivity|]. apply K_insert. }
  pose proof (inv_nodup _ _ Hi) as N. unfold addrs in N. rewrite map_app in N. cbn [map] in N.
  apply list.NoDup_app in N as (N1 & N12 & N2). apply list.NoDup_cons in N2 as [_ N2].
  destruct (finish_remove p q (l ++ [y]) x (z :: r) Hi Hs) as (t & Et & Hst & Hfin); try reflexivity.
  - apply linked_app. split.
    + apply (linked_set_next (K p) (K q) None l y (Some (at_ x))); [exact N1 | exact Hl1 |].
      intros a Ha. rewrite HK. destruct (decide (a = at_ z)) as [->|].
      { exfalso. apply (N12 _ Ha). right. left. }
      destruct (decide (a = at_ y)); [|reflexivity].
      unfold K in Hy. rewrite Ecy in Hy. injection Hy as E1 E2 E3 E4 E5 E6.
      unfold core_of, node_core. cbn. congruence.
    + rewrite last_of_app. cbn [last_of].
      apply (linked_set_prev (K p) (K q) (Some (at_ x)) (Some (at_ y)) z r); [exact N2 | exact Hl2 |].
      intros a Ha. rewrite HK. destruct (decide (a = at_ z)).
      { unfold K in Hz. rewrite Ecz in Hz. injection Hz as E1 E2 E3 E4 E5 E6.
        unfold core_of, node_core. cbn. congruence. }
      destruct (decide (a = at_ y)) as [->|]; [|reflexivity].
      exfalso. apply (N12 (at_ y)); [rewrite map_app; apply elem_of_app; right; left | right; exact Ha].
  - etransitivity; [apply (inv_head _ _ Hi)|]. rewrite !addr_of_app. destruct l; reflexivity.
  - etransitivity; [apply (inv_tail _ _ Hi)|]. rewrite !last_of_app. reflexivity.
  - intros b. etransitivity; [apply (U_assign q1 (at_ z) cz); [exact Eq1 | reflexivity]|].
    apply (U_assign p (at_ y) cy); [exact Ecy | reflexivity].
  - intros b. etransitivity; [apply (D_assign q1 (at_ z) cz); [exact Eq1 | reflexivity]|].
    apply (D_assign p (at_ y) cy); [exact Ecy | reflexivity].
  - intros a Ha. apply (inv_fresh _ _ Hi). eapply (K_assign p (at_ y) cy); [exact Ecy|].
    eapply (K_assign q1 (at_ z) cz); [exact Eq1 | exact Ha].
  - rewrite HK. destruct (decide (at_ x = at_ z)); [congruence|]. destruct (decide (at_ x = at_ y)); [congruence|].
    rewrite Hx. discriminate.
  - rewrite (bind_ok _ _ _ _ _ Et), bind_modify.
    rewrite (delete_last _ x (Some (at_ y)) (Some (at_ z))); [| |exact Hr].
    + eexists. split; [reflexivity|]. apply Hfin; try reflexivity. cbn. rewrite (same_names _ _ Hst). reflexivity.
    + change (K t (at_ x) = Some (node_core x (Some (at_ z)) (Some (at_ y)))). rewrite (same_K _ _ Hst), HK.
      destruct (decide (at_ x = at_ z)); [congruence|]. destruct (decide (at_ x = at_ y)); [congruence | exact Hx].
Qed.

Lemma head_not_tail (p : pipeline) x z r : inv p (x :: z :: r) -> head p <> tail p.
Proof.
  intros Hi. rewrite (inv_head _ _ Hi), (inv_tail _ _ Hi). cbn [addr_of last_of].
  destruct r as [|w r _] using rev_ind.
  - cbn. intros [= E]. apply (inv_distinct_at p [] x [z] z Hi); [right; left | congruence].
  - rewrite last_of_app. cbn. intros [= E].
    apply (inv_distinct_at p [] x (z :: r ++ [w]) w Hi); [right; right; apply elem_of_app; right; left | congruence].
Qed.

(** [remove(name)] of a pipeline of at least two contexts. *)
Lemma remove_spec (p : pipeline) l1 x l2 :
  inv p (l1 ++ x :: l2) -> l1 ++ l2 <> [] -> removable (has x) -> safe_removal l1 x l2 ->
  exists p', remove (named x) p = (Ok (has x), p') /\ inv p' (l1 ++ l2).
Proof.
  intros Hi Hne Hr Hs.
  assert (remove (named x) p = removeCtx (at_ x) p) as ->.
  { unfold remove, getContextOrDie, getContextByName. mstep. unfold id.
    rewrite (inv_lookup _ _ _ _ Hi), bind_ret_l. reflexivity. }
  assert (head p <> tail p) as Hht.
  { destruct l1 as [|w [|w' l1]], l2 as [|z r]; try (contradiction Hne; reflexivity);
      apply (head_not_tail _ _ _ _ Hi). }
  destruct l1 as [|y l _] using rev_ind.
  - destruct l2 as [|z r]; [contradiction Hne; reflexivity|].
    destruct (removeFirst_spec p x z r Hi Hr Hs) as (p' & E & Hi'). exists p'. split; [|exact Hi'].
    unfold removeCtx. rewrite bind_gets. unfold id. destruct (decide (head p = tail p)); [contradiction|].
    rewrite (inv_head _ _ Hi). destruct (decide (Some (at_ x) = _)) as [_|E']; [exact E | exfalso; apply E'; reflexivity].
  - destruct l2 as [|z r].
    + rewrite app_nil_r. destruct (removeLast_spec p l y x Hi Hr Hs) as (p' & E & Hi'). exists p'.
      split; [|exact Hi']. unfold removeCtx. rewrite bind_gets. unfold id.
      destruct (decide (head p = tail p)); [contradiction|].
      pose proof (head_not_inner p l y x [] Hi). destruct (decide (Some (at_ x) = head p)); [congruence|].
      rewrite (inv_tail _ _ Hi), last_of_app. cbn [last_of].
      destruct (decide (Some (at_ x) = _)) as [_|E']; [exact E | exfalso; apply E'; reflexivity].
    + exact (removeCtx_mid p l y x z r Hi Hr Hs Hht).
Qed.

End Removals.

(** ** Every pipeline that is reached *)

(** ** The channel and the sink stay *)

Section Sink.
Context {H : Type} {CH : ChannelHandler H} {C S : Type}.
Abbreviation pipeline := (DefaultChannelPipeline.t H C S).

Definition attachment (p : pipeline) : option C * channelSink S := (channel p, sink p).
Definition keeps_sink {A} (m : M pipeline A) : Prop := forall p, attachment (snd (m p)) = attachment p.

Lemma keeps_bind {A B} (m : M pipeline A) (f : A -> M pipeline B) :
  keeps_sink m -> (forall a, keeps_sink (f a)) -> keeps_sink (bind m f).
Proof.
  intros Hm Hf p. specialize (Hm p). unfold bind. destruct (m p) as [[a|e] p']; cbn in *; [|exact Hm].
  rewrite (Hf a p'). exact Hm.
Qed.
Lemma keeps_gets {A} (f : pipeline -> A) : keeps_sink (gets f).
Proof. intros p. reflexivity. Qed.
Lemma keeps_ret {A} (a : A) : keeps_sink (ret a).
Proof. intros p. reflexivity. Qed.
Lemma keeps_throw {A} e : keeps_sink (throw (A := A) e).
Proof. intros p. reflexivity. Qed.
Lemma keeps_reads {A} (f : pipeline -> result A) : keeps_sink (reads f).
Proof. intros p. reflexivity. Qed.
Lemma keeps_modify f : (forall p : pipeline, attachment (f p) = attachment p) -> keeps_sink (modify f).
Proof. intros Hf p. apply Hf. Qed.
Lemma keeps_try_catch {A} (m : M pipeline A) h : keeps_sink m -> (forall e, keeps_sink (h e)) -> keeps_sink (try_catch m h).
Proof.
  intros Hm Hh p. specialize (Hm p). unfold try_catch. destruct (m p) as [[a|e] p']; cbn in *; [exact Hm|].
  destruct e; try (rewrite Hh); exact Hm.
Qed.
End Sink.

Ltac keeps_step :=
  match goal with
  | |- keeps_sink (bind _ _) => apply keeps_bind; [|intros ?]
  | |- keeps_sink (gets _) => apply keeps_gets
  | |- keeps_sink (ret _) => apply keeps_ret
  | |- keeps_sink (throw _) => apply keeps_throw
  | |- keeps_sink (reads _) => apply keeps_reads
  | |- keeps_sink (modify _) => apply keeps_modify; reflexivity
  | |- keeps_sink (try_catch _ _) => apply keeps_try_catch; [|intros ?]
  | |- keeps_sink (match ?x with _ => _ end) => destruct x
  | |- keeps_sink (let _ := _ in _) => cbv zeta
  | |- keeps_sink _ => progress eauto with keeps
  end.
Ltac keeps := repeat keeps_step.
Create HintDb keeps.

Section Additions.
Context {H : Type} {CH : ChannelHandler H} {C S : Type}.
Abbreviation pipeline := (DefaultChannelPipeline.t H C S).

Lemma keeps_upstreamLoop fuel a : keeps_sink (updateUpstreamLoop fuel a : M pipeline unit).
Proof. revert a. induction fuel as [|fuel IH]; intros [a|]; cbn; unfold deref, assign, deref; keeps; apply IH. Qed.
Lemma keeps_downstreamLoop fuel a : keeps_sink (updateDownstreamLoop fuel a : M pipeline unit).
Proof. revert a. induction fuel as [|fuel IH]; intros [a|]; cbn; unfold deref, assign, deref; keeps; apply IH. Qed.
#[local] Hint Resolve keeps_upstreamLoop keeps_downstreamLoop : keeps.

Lemma keeps_removeCtx a : keeps_sink (removeCtx a : M pipeline H).
Proof.
  unfold removeCtx, removeFirst, removeLast, updateLists, updateUpstreamList, updateDownstreamList, callBeforeRemove, callAfterRemove,
    callback, delete_ctx, assign, deref, non_null. keeps.
Qed.
#[local] Hint Resolve keeps_removeCtx : keeps.

(** An addition keeps the channel and the sink, also when it throws. *)
Lemma perform_keeps_sink (o : addition) : keeps_sink (perform o : M pipeline unit).
Proof.
  destruct o; unfold perform, addBefore, addAfter, addFirst, addLast, init, finishAdd, callAfterAdd, callBeforeAdd, callback,
    checkDuplicateName, getContextOrDie, newContext, updateLists, updateUpstreamList, updateDownstreamList, assign, deref, non_null,
    remove; keeps.
Qed.
End Additions.

Section Reached.
Context {H : Type} {CH : ChannelHandler H} {C S : Type}.
Abbreviation pipeline := (DefaultChannelPipeline.t H C S).
Abbreviation entry := (string * H)%type.

Definition some_up (l : list entry) : bool := existsb (fun x => isUpstream (snd x)) l.
Definition some_down (l : list entry) : bool := existsb (fun x => isDownstream (snd x)) l.

(** The removal of [h] between [a] and [b] is one that leaves no pointer to it. *)
Definition safe_entry (a : list entry) (h : H) (b : list entry) : Prop :=
  a ++ b <> [] /\ removable h /\
  (isUpstream h = true -> some_up b = true \/ some_up a = false) /\
  (isDownstream h = true -> some_down a = true \/ some_down b = false).

(** The afterAdd of the handler does not throw. *)
Definition settles (o : addition) : Prop := forall h : H, handler_added o = Some h -> cb afterAdd h = Ok tt.

(** The pipelines made by attachments, additions, refused ones included, and such removals;
    with the list they should hold. *)
Inductive reached : pipeline -> list entry -> Prop :=
  | reached_new : reached new []
  | reached_attach p l c s : reached p l -> reached (snd (attach c s p)) l
  | reached_add p l o :
      reached p l -> settles o ->
      reached (snd (perform o p)) (match spec_add o l with Ok l' => l' | Err _ => l end)
  | reached_remove p a n h b :
      reached p (a ++ (n, h) :: b) -> safe_entry a h b ->
      reached (snd (remove n p)) (a ++ b).

Lemma first_up_none (l : list (node H)) : first_up l None = None <-> some_up (contents l) = false.
Proof.
  induction l as [|x l IH]; [tauto|]. cbn. destruct (isUpstream (has x)); cbn; [split; discriminate | exact IH].
Qed.

Lemma last_down_none_iff (l : list (node H)) : last_down None l = None <-> some_down (contents l) = false.
Proof.
  induction l as [|x l IH]; [tauto|]. cbn. rewrite last_down_none. unfold down_of.
  destruct (isDownstream (has x)); cbn.
  - destruct (last_down None l); split; discriminate.
  - rewrite <- IH. destruct (last_down None l); split; congruence.
Qed.

Lemma safe_entry_nodes (l1 : list (node H)) x l2 :
  safe_entry (contents l1) (has x) (contents l2) ->
  l1 ++ l2 <> [] /\ removable (has x) /\ safe_removal l1 x l2.
Proof.
  intros (Hne & Hr & Hu & Hd). split; [|split; [exact Hr|split]].
  - intros E. apply Hne. apply app_eq_nil in E as [-> ->]. reflexivity.
  - intros E. destruct (Hu E) as [Hb|Ha]; [left | right; apply first_up_none, Ha].
    intros En. apply first_up_none in En. congruence.
  - intros E. destruct (Hd E) as [Ha|Hb]; [left | right; apply last_down_none_iff, Hb].
    intros En. apply last_down_none_iff in En. congruence.
Qed.

Lemma contents_split (ns : list (node H)) a n h b :
  contents ns = a ++ (n, h) :: b ->
  exists l1 x l2, ns = l1 ++ x :: l2 /\ contents l1 = a /\ named x = n /\ has x = h /\ contents l2 = b.
Proof.
  intros E. apply map_eq_app in E as (l1 & r & -> & E1 & E2).
  apply map_eq_cons in E2 as (x & l2 & -> & E2 & E3). injection E2 as E4 E5. exists l1, x, l2. auto.
Qed.

(** The lists do not depend on the channel and the sink. *)
Lemma inv_attach (p : pipeline) ns c s : inv p ns -> inv (snd (attach c s p)) ns.
Proof.
  intros Hi. unfold attach. destruct c as [c|]; [|exact Hi]. destruct s as [s|]; [|exact Hi].
  rewrite bind_gets. unfold id. destruct (channel p), (sink p); try exact Hi.
  destruct Hi as [H1 H2 H3 H4 H5 H6 H7 H8 H9 H10]. constructor; assumption.
Qed.

Lemma reached_inv p l : reached p l -> exists ns, inv p ns /\ contents ns = l.
Proof.
  induction 1 as [|p l c s _ (ns & Hi & <-)|p l o _ (ns & Hi & <-) Ho|p a n h b _ (ns & Hi & Hc) Hs].
  - exists []. split; [apply inv_new | reflexivity].
  - exists ns. split; [apply inv_attach, Hi | reflexivity].
  - destruct (perform_refines o p ns Hi Ho) as (p' & ns' & Hi' & Hr).
    destruct (spec_add o (contents ns)); destruct Hr as [-> Hc]; exists ns'; (split; [exact Hi'|]); [exact Hc | congruence].
  - apply contents_split in Hc as (l1 & x & l2 & -> & <- & <- & <- & <-).
    apply safe_entry_nodes in Hs as (Hne & Hr & Hs).
    destruct (remove_spec p l1 x l2 Hi Hne Hr Hs) as (p' & -> & Hi').
    exists (l1 ++ l2). split; [exact Hi' | apply map_app].
Qed.




(** [remove] of a handler that is not the only one, and not the last the events
    reach in a direction in which other handlers come before it, returns that
    handler and takes exactly it out of the list. *)
Theorem remove_takes_out (p : pipeline) (a : list entry) (n : string) (h : H) (b : list entry) :
  reached p (a ++ (n, h) :: b) -> safe_entry a h b ->
  fst (remove n p) = Ok h /\ toMap (snd (remove n p)) = Ok (a ++ b).
Proof.
  intros Hr Hs. destruct (reached_inv p _ Hr) as (ns & Hi & Hc).
  apply contents_split in Hc as (l1 & x & l2 & -> & <- & <- & <- & <-).
  apply safe_entry_nodes in Hs as (Hne & Hrm & Hs).
  destruct (remove_spec p l1 x l2 Hi Hne Hrm Hs) as (p' & -> & Hi').
  split; [reflexivity|]. cbn [snd]. rewrite (toMap_spec p' _ Hi'). f_equal. apply map_app.
Qed.

End Reached.

(** ** Concrete pipelines *)

Section Demo.

Inductive demo := Decoder | Encoder | Logging | Business.
#[export] Instance demo_eq_dec : EqDecision demo.
Proof. solve_decision. Defined.

#[export] Instance demo_handler : ChannelHandler demo := {|
  isUpstream h := match h with Encoder => false | _ => true end;
  isDownstream h := match h with Encoder | Logging => true | _ => false end;
  lifeCycle h := match h with Logging => Some (MkLifeCycle (Ok tt) (Ok tt) (Ok tt) (Ok tt)) | _ => None end;
  handler_toString _ := "handler"%string;
|}.

Abbreviation demo_pipeline := (DefaultChannelPipeline.t demo unit unit).

Definition build (os : list addition) : demo_pipeline := fold_left (fun p o => snd (perform o p)) os new.

Definition demo_ops : list addition :=
  [AddLast "decoder" (Some Decoder); AddLast "business" (Some Business);
   AddAfter "decoder" "encoder" (Some Encoder); AddFirst "decoder" (Some Logging);
   AddBefore "decoder" "log" (Some Logging)].

Definition demo_list : list (string * demo) :=
  [("log"%string, Logging); ("decoder"%string, Decoder); ("encoder"%string, Encoder); ("business"%string, Business)].

Lemma demo_settles (o : addition) : settles o.
Proof. intros [] _; reflexivity. Qed.

Definition listed (os : list addition) : list (string * demo) :=
  fold_left (fun l o => match spec_add o l with Ok l' => l' | Err _ => l end) os [].

Lemma build_reached os : reached (build os) (listed os).
Proof.
  induction os as [|o os IH] using rev_ind; [apply reached_new|].
  unfold build, listed. rewrite !fold_left_app. apply reached_add; [exact IH | apply demo_settles].
Qed.

Lemma demo_reached : reached (build demo_ops) demo_list.
Proof. assert (listed demo_ops = demo_list) as <- by reflexivity. apply build_reached. Qed.


Lemma remove_takes_out_witness :
  fst (remove "decoder" (build demo_ops)) = Ok Decoder /\
  toMap (snd (remove "decoder" (build demo_ops)))
    = Ok [("log"%string, Logging); ("encoder"%string, Encoder); ("business"%string, Business)].
Proof.
  apply (remove_takes_out (build demo_ops) [("log"%string, Logging)] "decoder" Decoder
    [("encoder"%string, Encoder); ("business"%string, Business)] demo_reached).
  split; [discriminate|]. split; [split; reflexivity|]. split; [left; reflexivity | discriminate].
Defined.

(** Replacing the first or the last handler deletes its context twice. *)
Theorem replaced_head_deleted_twice :
  let p := build [AddLast "decoder" (Some Decoder); AddLast "business" (Some Business)] in
  fst (replace "decoder" "log" (Some Logging) p) = Err Undefined /\
  fst (replace "business" "log" (Some Logging) p) = Err Undefined.
Proof. split; reflexivity. Qed.

(** Replacing a handler in the middle under its own name leaves the name at the
    deleted context. *)
Theorem replaced_same_name_dangles :
  let p := build demo_ops in
  fst (replace "encoder" "encoder" (Some Logging) p) = Ok (Some Encoder) /\
  get "encoder" (snd (replace "encoder" "encoder" (Some Logging) p)) = Err Undefined.
Proof. split; reflexivity. Qed.

(** [toString] of an empty pipeline dereferences a null pointer. *)
Theorem toString_empty : toString (new : demo_pipeline) = Err Undefined.
Proof. reflexivity. Qed.

End Demo.
