(* ===== verification/PipelineDelivery.v ===== *)
(** * The delivery of events

    An event follows the list of a pipeline: the delivery of
    [DefaultChannelPipeline] over its store of contexts is a walk over the list of
    its handlers, whatever they do. *)

From stdpp Require Import gmap strings.
From S2P Require Import Prelude Pipeline PipelineProperties.
Import DefaultChannelPipeline.

(** ** Delivery as a walk over the list *)

Section DeliverySpec.
Context {H : Type} {CH : ChannelHandler H} {C S E W : Type} {BE : Behaviour H C E W}.
Abbreviation entry := (string * H)%type.

(** The next entry that is selected, and the list around it. *)
Fixpoint find_next (sel : H -> bool) (passed rest : list entry) : option (list entry * entry * list entry) :=
  match rest with
  | [] => None
  | y :: rest => if sel (snd y) then Some (passed, y, rest) else find_next sel (y :: passed) rest
  end.

(** Who is called: [before] holds the entries before a handler, the nearest first,
    [after] those after it. *)
Inductive place :=
  | AtUpstream (before : list entry) (x : entry) (after : list entry)
  | AtDownstream (before : list entry) (x : entry) (after : list entry)
  | AtSink.

Abbreviation visits := (M W (list (visit E))).

(** The sinks of the channels, and the lists of their pipelines. *)
Section Lists.
Variable lists : C -> option (channelSink S * list entry).

Definition spec_pipeline (inv : C -> place -> E -> visits) (s : pipelineSend C E) : visits :=
  match s with
  | PipelineUpstream c e =>
      match lists c with
      | None => throw Undefined
      | Some (_, l) =>
          match find_next isUpstream [] l with
          | Some (before, x, after) => inv c (AtUpstream before x after) e
          | None => ret [Logged e]
          end
      end
  | PipelineDownstream c e =>
      match lists c with
      | None => throw Undefined
      | Some (_, l) =>
          match find_next isDownstream [] (rev l) with
          | Some (after, x, before) => inv c (AtDownstream before x after) e
          | None => inv c AtSink e
          end
      end
  end.

(** A handler that is not an upstream handler has no next upstream handler, one that
    is not a downstream handler sends to the sink. *)
Definition spec_context (inv : C -> place -> E -> visits) (c : C) (before : list entry) (x : entry) (after : list entry) (s : send C E)
  : visits :=
  match s with
  | SendUpstream e =>
      if isUpstream (snd x) then
        match find_next isUpstream (x :: before) after with
        | Some (before, y, after) => inv c (AtUpstream before y after) e
        | None => ret []
        end
      else ret []
  | SendDownstream e =>
      if isDownstream (snd x) then
        match find_next isDownstream (x :: after) before with
        | Some (after, y, before) => inv c (AtDownstream before y after) e
        | None => inv c AtSink e
        end
      else inv c AtSink e
  | SendPipeline s => spec_pipeline inv s
  end.

Fixpoint spec_invoke (fuel : nat) (c : C) (to : place) (e : E) : visits :=
  match fuel, lists c with
  | Datatypes.S fuel, Some (s, _) =>
      let inv := spec_invoke fuel in
      let caught := notifyHandlerException (spec_pipeline inv) s in
      match to with
      | AtUpstream before x after =>
          let! t := handle (spec_context inv c before x after) (caught e) (handleUpstream (snd x) e) in
          ret (HandledUpstream (fst x) e :: t)
      | AtDownstream before x after =>
          let! t := handle (spec_context inv c before x after) (caught e) (handleDownstream (snd x) e) in
          ret (HandledDownstream (fst x) e :: t)
      | AtSink => callSink (spec_pipeline inv) s e
      end
  | _, _ => throw Undefined
  end.

Definition spec_deliver (fuel : nat) : pipelineSend C E -> visits := spec_pipeline (spec_invoke fuel).
End Lists.

Lemma execute_ext {A R} (f g : A -> visits) (h : prog A W R) w :
  (forall s w, f s w = g s w) -> execute f h w = execute g h w.
Proof.
  intros Hfg. revert w. induction h as [r|x|s h IH|k IH|w' h IH]; intros w; cbn; try reflexivity.
  - rewrite (bind_ext_l (f s) (g s)) by apply Hfg. apply bind_ext. intros t w'. apply bind_ext_l, IH.
  - apply IH.
  - apply IH.
Qed.

Lemma handle_ext {A R} (f g : A -> visits) (c d : visits) (h : prog A W R) w :
  (forall s w, f s w = g s w) -> (forall w, c w = d w) -> handle f c h w = handle g d h w.
Proof.
  intros Hfg Hcd. unfold handle, bind. rewrite (execute_ext f g h w Hfg). destruct (execute g h w) as [[[t r]|err] w']; [|reflexivity].
  destruct r; cbn; [reflexivity|]. rewrite Hcd. reflexivity.
Qed.

Lemma notify_ext f g (s : channelSink S) e w : (forall s w, f s w = g s w) ->
  notifyHandlerException f s e w = notifyHandlerException g s e w.
Proof.
  intros Hfg. unfold notifyHandlerException. destruct (isExceptionEvent e), s; try reflexivity.
  unfold bind. rewrite (handle_ext f g _ _ _ w Hfg (fun _ => eq_refl)). reflexivity.
Qed.

Lemma callSink_ext f g (s : channelSink S) e w : (forall s w, f s w = g s w) -> callSink f s e w = callSink g s e w.
Proof.
  intros Hfg. unfold callSink. destruct s; try reflexivity. unfold bind.
  rewrite (handle_ext f g _ _ _ w Hfg (fun w => notify_ext f g _ e w Hfg)). reflexivity.
Qed.

Abbreviation pipeline := (DefaultChannelPipeline.t H C S).
Abbreviation node := (node H).

Lemma find_next_up (passed rest : list node) :
  match find_next isUpstream (contents passed) (contents rest) with
  | None => first_up rest None = None
  | Some (b, y, a) => exists bn yn an, b = contents bn /\ y = (named yn, has yn) /\ a = contents an /\
      first_up rest None = Some (at_ yn) /\ rev passed ++ rest = rev bn ++ yn :: an
  end.
Proof.
  revert passed. induction rest as [|z rest IH]; intros passed; [reflexivity|]. cbn.
  destruct (isUpstream (has z)) eqn:Ez.
  - exists passed, z, rest. auto 6.
  - specialize (IH (z :: passed)). change (contents (z :: passed)) with ((named z, has z) :: contents passed) in IH.
    destruct (find_next _ _ _) as [[[b y] a]|]; [|exact IH].
    destruct IH as (bn & yn & an & H1 & H2 & H3 & H4 & H5). exists bn, yn, an.
    cbn [rev] in H5. rewrite <- app_assoc in H5. auto 6.
Qed.

Lemma find_next_down (passed rest : list node) :
  match find_next isDownstream (contents passed) (contents rest) with
  | None => last_down None (rev rest) = None
  | Some (a, y, b) => exists an yn bn, a = contents an /\ y = (named yn, has yn) /\ b = contents bn /\
      last_down None (rev rest) = Some (at_ yn) /\ rev rest ++ passed = rev bn ++ yn :: an
  end.
Proof.
  revert passed. induction rest as [|z rest IH]; intros passed; [reflexivity|]. cbn.
  rewrite last_down_app. cbn. unfold down_of. destruct (isDownstream (has z)) eqn:Ez.
  - exists passed, z, rest. rewrite <- app_assoc. auto 6.
  - specialize (IH (z :: passed)). change (contents (z :: passed)) with ((named z, has z) :: contents passed) in IH.
    destruct (find_next _ _ _) as [[[a y] b]|]; [|exact IH].
    destruct IH as (an & yn & bn & H1 & H2 & H3 & H4 & H5). exists an, yn, bn.
    rewrite <- app_assoc. auto 6.
Qed.

Lemma ups_at u (l1 l2 : list node) x :
  ups u (l1 ++ x :: l2) None -> u (at_ x) = Some (if isUpstream (has x) then first_up l2 None else None).
Proof. intros Hu. apply ups_app in Hu as [_ [Hu _]]. exact Hu. Qed.
Lemma downs_at d (l1 l2 : list node) x :
  downs d None (l1 ++ x :: l2) -> d (at_ x) = Some (if isDownstream (has x) then last_down None l1 else None).
Proof. intros Hd. apply downs_app in Hd as [_ [Hd _]]. exact Hd. Qed.

(** The pipelines of the channels are reached, and these are their sinks and lists. *)
Definition described (pipelines : C -> option pipeline) (lists : C -> option (channelSink S * list entry)) : Prop :=
  forall c,
    match pipelines c, lists c with
    | Some p, Some (s, l) => sink p = s /\ reached p l
    | None, None => True
    | _, _ => False
    end.

Variables (pipelines : C -> option pipeline) (lists : C -> option (channelSink S * list entry)).
Hypothesis Hdescribed : described pipelines lists.

(** A call of the pipeline and the call in the list. *)
Definition at_place (c : C) (to : target) (pl : place) : Prop :=
  match to, pl with
  | ToUpstream a, AtUpstream b y l | ToDownstream a, AtDownstream b y l =>
      exists p bn yn an, pipelines c = Some p /\ inv p (rev bn ++ yn :: an) /\
        a = at_ yn /\ b = contents bn /\ y = (named yn, has yn) /\ l = contents an
  | ToSink, AtSink => True
  | _, _ => False
  end.

Section Sends.
Variables (inv1 : C -> target -> E -> visits) (inv2 : C -> place -> E -> visits).
Hypothesis Hinv : forall c to pl e w, at_place c to pl -> inv1 c to e w = inv2 c pl e w.

Lemma sendPipeline_spec s w : sendPipeline pipelines inv1 s w = spec_pipeline lists inv2 s w.
Proof.
  destruct s as [c e|c e]; cbn; pose proof (Hdescribed c) as Hl;
    destruct (pipelines c) as [p|] eqn:Ep, (lists c) as [[k l]|]; try contradiction; try reflexivity;
    destruct Hl as [_ Hr]; destruct (reached_inv p l Hr) as (ns & Hi & <-).
  - rewrite (inv_upstreamHead _ _ Hi). pose proof (find_next_up [] ns) as Hf. change (contents []) with (@nil entry) in Hf.
    destruct (find_next _ _ _) as [[[b y] a]|]; [|rewrite Hf; reflexivity].
    destruct Hf as (bn & yn & an & -> & -> & -> & -> & Hns). cbn in Hns. subst ns. apply Hinv. exists p, bn, yn, an. auto 6.
  - rewrite (inv_downstreamHead _ _ Hi). pose proof (find_next_down [] (rev ns)) as Hf. rewrite rev_involutive, app_nil_r in Hf.
    unfold contents in Hf at 2. rewrite map_rev in Hf. fold (contents ns) in Hf. change (contents []) with (@nil entry) in Hf.
    destruct (find_next _ _ _) as [[[a y] b]|]; [|rewrite Hf; apply Hinv; exact I].
    destruct Hf as (an & yn & bn & -> & -> & -> & -> & Hns). subst ns. apply Hinv. exists p, bn, yn, an. auto 6.
Qed.

(** The context of [x], which stands between [before] and [after]. *)
Lemma sendContext_spec c p before x after ctx s w :
  pipelines c = Some p -> inv p (rev before ++ x :: after) -> lookup_ctx (at_ x) p = Ok ctx ->
  sendContext pipelines inv1 c ctx s w
    = spec_context lists inv2 c (contents before) (named x, has x) (contents after) s w.
Proof.
  intros Hp Hi Hc. pose proof (ups_at _ _ _ _ (inv_ups _ _ Hi)) as Hu. pose proof (downs_at _ _ _ _ (inv_downs _ _ Hi)) as Hd.
  unfold U in Hu. unfold D in Hd. unfold lookup_ctx in Hc. destruct (store p !! at_ x) as [c'|]; [|discriminate].
  injection Hc as ->. cbn [fmap option_fmap option_map] in Hu, Hd. injection Hu as Hu. injection Hd as Hd.
  destruct s as [e|e|s]; cbn; [rewrite Hu | rewrite Hd | apply sendPipeline_spec].
  - destruct (isUpstream (has x)); [|reflexivity]. pose proof (find_next_up (x :: before) after) as Hf.
    change (contents (x :: before)) with ((named x, has x) :: contents before) in Hf.
    destruct (find_next _ _ _) as [[[b y] a]|]; [|rewrite Hf; reflexivity].
    destruct Hf as (bn & yn & an & -> & -> & -> & -> & Hf). cbn [rev] in Hf. rewrite <- app_assoc in Hf.
    apply Hinv. exists p, bn, yn, an. rewrite <- Hf. auto 6.
  - destruct (isDownstream (has x)); [|apply Hinv; exact I]. pose proof (find_next_down (x :: after) before) as Hf.
    change (contents (x :: after)) with ((named x, has x) :: contents after) in Hf.
    destruct (find_next _ _ _) as [[[a y] b]|]; [|rewrite Hf; apply Hinv; exact I].
    destruct Hf as (an & yn & bn & -> & -> & -> & -> & Hf). apply Hinv. exists p, bn, yn, an. rewrite <- Hf. auto 6.
Qed.
End Sends.

Lemma inv_context (p : pipeline) before x after : inv p (rev before ++ x :: after) ->
  exists c, lookup_ctx (at_ x) p = Ok c /\ name c = named x /\ handler c = has x.
Proof.
  intros Hi. destruct (K_store _ _ _ _ _ _ _ _ (linked_at _ _ _ _ _ _ (inv_linked _ _ Hi))) as (c & Ec & _ & _ & _ & _ & En & Eh).
  exists c. unfold lookup_ctx. rewrite Ec. auto.
Qed.

Lemma invoke_spec fuel c to pl e w : at_place c to pl ->
  invoke pipelines fuel c to e w = spec_invoke lists fuel c pl e w.
Proof.
  revert c to pl e w. induction fuel as [|fuel IH]; intros c to pl e w Hat; [reflexivity|].
  pose proof (sendPipeline_spec _ _ IH) as Hp. pose proof (sendContext_spec _ _ IH c) as Hc.
  cbn [invoke spec_invoke]. pose proof (Hdescribed c) as Hl.
  destruct (pipelines c) as [p|] eqn:Ep, (lists c) as [[k l]|]; try contradiction; [|reflexivity]. destruct Hl as [<- _].
  destruct to as [a|a|], pl as [b y m|b y m|]; cbn in Hat; try contradiction; [| |apply callSink_ext, Hp].
  all: destruct Hat as (p' & bn & yn & an & Ep' & Hi & -> & -> & -> & ->); rewrite Ep in Ep'; injection Ep' as <-;
    destruct (inv_context p bn yn an Hi) as (ctx & Ec & Enm & Eh);
    rewrite bind_reads, Ec, Enm, Eh; apply bind_ext_l, handle_ext;
    [intros s w'; apply (Hc p); auto | intros w'; apply notify_ext, Hp].
Qed.

Lemma deliver_described fuel s w : deliver pipelines fuel s w = spec_deliver lists fuel s w.
Proof. apply sendPipeline_spec. intros c to pl e w'. apply invoke_spec. Qed.

End DeliverySpec.


(** ** Pipelines that are reached *)

Section Reached.
Context {H : Type} {CH : ChannelHandler H} {C S : Type}.
Abbreviation pipeline := (DefaultChannelPipeline.t H C S).
Abbreviation entry := (string * H)%type.
Context {E W : Type} {BE : Behaviour H C E W}.

(** C5: events follow the lists of the pipelines: whatever the handlers and the sinks do
    with the events - pass them on, answer in the other direction, send several, send
    from the head of the pipeline of this or another channel while an event is on
    its way, keep a state, throw -, the calls of the handlers, of the sinks and the
    reported exceptions are those of a walk over the lists, each send of a context
    going from its handler to the next upstream handler after it or the next
    downstream handler before it. *)
Theorem delivery_follows_list (pipelines : C -> option pipeline) (lists : C -> option (channelSink S * list entry))
    (fuel : nat) (s : pipelineSend C E) (w : W) :
  described pipelines lists -> deliver pipelines fuel s w = spec_deliver lists fuel s w.
Proof. intros Hd. apply deliver_described, Hd. Qed.

Lemma described_one (p : pipeline) l : reached p l -> described (fun _ : C => Some p) (fun _ => Some (sink p, l)).
Proof. intros Hr c. auto. Qed.

Lemma find_next_filter (sel : H -> bool) passed rest :
  match find_next sel passed rest with
  | None => List.filter (fun x => sel (snd x)) rest = []
  | Some (_, y, a) => List.filter (fun x => sel (snd x)) rest = y :: List.filter (fun x => sel (snd x)) a /\
      (length a < length rest)%nat /\ sel (snd y) = true
  end.
Proof.
  revert passed. induction rest as [|y rest IH]; intros passed; [reflexivity|]. cbn.
  destruct (sel (snd y)) eqn:Ey; [auto with lia|]. specialize (IH (y :: passed)).
  destruct (find_next _ _ _) as [[[b z] a]|]; [|exact IH]. destruct IH as (H1 & H2 & H3). auto with lia.
Qed.

Section Forwarding.
Variables (lists : C -> option (channelSink S * list entry)) (c : C) (k : channelSink S) (l : list entry) (e : E).
Hypothesis Hlists : lists c = Some (k, l).

Lemma forward_handled {A} (f : A -> M W (list (visit E))) caught s (t : list (visit E)) w w' :
  f s w = (Ok t, w') -> handle f caught (Sends s (Returns tt)) w = (Ok t, w').
Proof.
  intros Ef. unfold handle. cbn [execute]. rewrite !bind_assoc, (bind_ok _ _ _ _ _ Ef). unfold bind, ret. cbn.
  rewrite app_nil_r. reflexivity.
Qed.

Lemma spec_invoke_up fuel before x after (w : W) :
  isUpstream (snd x) = true ->
  (forall h, isUpstream h = true -> handleUpstream h e = Sends (SendUpstream e) (Returns tt)) ->
  (length after < fuel)%nat ->
  spec_invoke lists fuel c (AtUpstream before x after) e w
    = (Ok (map (fun y => HandledUpstream (fst y) e) (x :: List.filter (fun y => isUpstream (snd y)) after)), w).
Proof.
  intros Hx Hf. revert before x after Hx. induction fuel as [|fuel IH]; intros before x after Hx Hl; [lia|].
  cbn [spec_invoke]. rewrite Hlists, (Hf _ Hx). pose proof (find_next_filter isUpstream (x :: before) after) as Hn.
  erewrite bind_ok; [reflexivity|]. apply forward_handled. cbn [spec_context]. rewrite Hx.
  destruct (find_next _ _ _) as [[[b y] a]|]; [|rewrite Hn; reflexivity].
  destruct Hn as (-> & Ha & Hy). apply IH; [exact Hy | lia].
Qed.

(** The sink takes the event without a send of its own. *)
Variables (s : S) (g : W -> W).
Hypotheses (Hk : k = Sink s) (Hg : forall (f : pipelineSend C E -> M W (list (visit E))) w, execute f (sinkCall e) w = (Ok ([], Ok tt), g w)).

Lemma sink_takes fuel w : spec_invoke lists (Datatypes.S fuel) c AtSink e w = (Ok [Sunk e], g w).
Proof. cbn [spec_invoke]. unfold callSink, handle. rewrite Hlists, Hk, bind_assoc, (bind_ok _ _ _ _ _ (Hg _ w)). reflexivity. Qed.

Lemma spec_invoke_down fuel before x after (w : W) :
  isDownstream (snd x) = true ->
  (forall h, isDownstream h = true -> handleDownstream h e = Sends (SendDownstream e) (Returns tt)) ->
  (Datatypes.S (length before) < fuel)%nat ->
  spec_invoke lists fuel c (AtDownstream before x after) e w
    = (Ok (map (fun y => HandledDownstream (fst y) e) (x :: List.filter (fun y => isDownstream (snd y)) before) ++ [Sunk e]), g w).
Proof.
  intros Hx Hf. revert before x after Hx. induction fuel as [|fuel IH]; intros before x after Hx Hl; [lia|].
  cbn [spec_invoke]. rewrite Hlists, (Hf _ Hx). pose proof (find_next_filter isDownstream (x :: after) before) as Hn.
  erewrite bind_ok; [reflexivity|]. apply forward_handled. cbn [spec_context]. rewrite Hx.
  destruct (find_next _ _ _) as [[[a y] b]|].
  - destruct Hn as (-> & Ha & Hy). apply IH; [exact Hy | lia].
  - rewrite Hn. destruct fuel as [|fuel]; [lia|]. apply sink_takes.
Qed.
End Forwarding.

(** C33: an event the handlers pass on visits every upstream handler once, from the
    first to the last, and downstream every downstream handler once, from the last
    to the first, and then the sink; calls nested one deeper than the pipeline has
    handlers are enough. *)
Theorem forwarded_order (pipelines : C -> option pipeline) (lists : C -> option (channelSink S * list entry))
    (c : C) (k : channelSink S) (l : list entry) (fuel : nat) (e : E) (s : S) (g : W -> W) (w : W) :
  described pipelines lists -> lists c = Some (k, l) -> (Datatypes.S (length l) <= fuel)%nat ->
  ((forall h, isUpstream h = true -> handleUpstream h e = Sends (SendUpstream e) (Returns tt)) ->
   sendUpstream pipelines fuel c e w
     = (Ok (match List.filter (fun x => isUpstream (snd x)) l with
           | [] => [Logged e]
           | us => map (fun x => HandledUpstream (fst x) e) us
           end), w)) /\
  ((forall h, isDownstream h = true -> handleDownstream h e = Sends (SendDownstream e) (Returns tt)) ->
   k = Sink s -> (forall (f : pipelineSend C E -> M W (list (visit E))) w, execute f (sinkCall e) w = (Ok ([], Ok tt), g w)) ->
   sendDownstream pipelines fuel c e w
     = (Ok (map (fun x => HandledDownstream (fst x) e) (List.filter (fun x => isDownstream (snd x)) (rev l)) ++ [Sunk e]), g w)).
Proof.
  intros Hd Hl Hfuel. assert (forall s, deliver pipelines fuel s w = spec_deliver lists fuel s w) as Hs.
  { intros s'. apply deliver_described, Hd. }
  split; intros Hf.
  - unfold sendUpstream. rewrite Hs. unfold spec_deliver. cbn [spec_pipeline]. rewrite Hl.
    pose proof (find_next_filter isUpstream [] l) as Hn.
    destruct (find_next _ _ _) as [[[b y] a]|]; [|rewrite Hn; reflexivity].
    destruct Hn as (-> & Ha & Hy). apply (spec_invoke_up _ _ _ _ _ Hl); [exact Hy | exact Hf | lia].
  - intros Hk Hg. unfold sendDownstream. rewrite Hs. unfold spec_deliver. cbn [spec_pipeline]. rewrite Hl.
    pose proof (find_next_filter isDownstream [] (rev l)) as Hn. rewrite length_rev in Hn.
    destruct (find_next _ _ _) as [[[a y] b]|].
    + destruct Hn as (-> & Ha & Hy). apply (spec_invoke_down _ _ _ _ _ Hl s g Hk Hg); [exact Hy | exact Hf | lia].
    + rewrite Hn. destruct fuel as [|fuel']; [lia|]. apply (sink_takes _ _ _ _ _ Hl s g Hk Hg).
Qed.

End Reached.

(** ** Concrete pipelines *)

Section Demo.

(** Events are numbers: everybody passes them on, but the business handler, which
    counts the events that it is given, answers the event [n] with [n + 1], through
    its context and, when [n] is even, from the end of the pipeline too; it throws
    at a negative number. The sink reports the exception of a handler as the event
    [0]. *)
#[local] Instance demo_behaviour : Behaviour demo unit Z Z := {|
  handleUpstream h e :=
    match h with
    | Business =>
        if e <? 0 then Throws RuntimeException
        else Reads (fun n => Writes (n + 1) (sendEach
          (SendDownstream (e + 1) :: if Z.even e then [SendPipeline (PipelineDownstream tt (e + 1))] else [])))
    | _ => sendEach [SendUpstream e]
    end;
  handleDownstream _ e := sendEach [SendDownstream e];
  isExceptionEvent e := e =? 0;
  sinkCall _ := Returns tt;
  sinkException _ := Sends (PipelineUpstream tt 0) (Returns tt);
|}.

Definition attached (p : DefaultChannelPipeline.t demo unit unit) := snd (attach (Some tt) (Some tt) p).

(** A network of one pipeline. *)
Definition one (p : DefaultChannelPipeline.t demo unit unit) (c : unit) := Some (attached p).

Lemma one_described : described (one (build demo_ops)) (fun _ => Some (Sink tt, demo_list)).
Proof. intros c. split; [reflexivity | apply reached_attach, demo_reached]. Qed.

(** The answer of the business handler does not pass the encoder and the log, unless
    it comes from the pipeline; an exception is told to all upstream handlers. *)
Lemma delivery_follows_list_witness :
  deliver (one (build demo_ops)) 9 (PipelineUpstream tt 2) 0
    = (Ok [HandledUpstream "log" 2; HandledUpstream "decoder" 2; HandledUpstream "business" 2; Sunk 3;
           HandledDownstream "encoder" 3; HandledDownstream "log" 3; Sunk 3], 1) /\
  deliver (one (build demo_ops)) 9 (PipelineUpstream tt (-1)) 0
    = (Ok [HandledUpstream "log" (-1); HandledUpstream "decoder" (-1); HandledUpstream "business" (-1); ExceptionSunk (-1);
           HandledUpstream "log" 0; HandledUpstream "decoder" 0; HandledUpstream "business" 0; Sunk 1;
           HandledDownstream "encoder" 1; HandledDownstream "log" 1; Sunk 1], 1).
Proof.
  split; exact (delivery_follows_list _ _ 9 _ 0 one_described).
Defined.

Lemma forwarded_order_witness :
  sendDownstream (one (build demo_ops)) 5 tt 5 0 = (Ok [HandledDownstream "encoder" 5; HandledDownstream "log" 5; Sunk 5], 0).
Proof.
  destruct (forwarded_order _ _ tt (Sink tt) demo_list 5 5 tt id 0 one_described eq_refl) as [_ Hd]; [cbn; lia|].
  exact (Hd (fun _ _ => eq_refl) eq_refl (fun _ _ => eq_refl)).
Defined.

(** An event that a handler which is not a downstream handler sends downstream
    goes to the sink, past the downstream handlers that come before it; sent from
    the pipeline it visits them. *)
Theorem upstream_handler_skips_encoders :
  let p := attached (build [AddLast "encoder" (Some Encoder); AddLast "business" (Some Business)]) in
  fst (sendUpstream (fun _ => Some p) 9 tt 1 0) = Ok [HandledUpstream "business" 1; Sunk 2] /\
  fst (sendDownstream (fun _ => Some p) 9 tt 2 0) = Ok [HandledDownstream "encoder" 2; Sunk 2].
Proof. split; reflexivity. Qed.

(** Removing the last upstream handler leaves the one before it with a pointer to
    the deleted context, and the next event follows it. *)
Theorem removed_upstream_dangles :
  let p := build [AddLast "decoder" (Some Decoder); AddLast "business" (Some Business)] in
  fst (remove "business" p) = Ok Business /\
  toMap (snd (remove "business" p)) = Ok [("decoder"%string, Decoder)] /\
  fst (sendUpstream (fun _ => Some (snd (remove "business" p))) 9 tt 1 0) = Err Undefined.
Proof. repeat split; reflexivity. Qed.

(** Removing the only handler through its name leaves the heads of the single
    lists at the deleted context. *)
Theorem removed_only_handler_dangles :
  let p := build [AddLast "decoder" (Some Decoder)] in
  fst (remove "decoder" p) = Ok Decoder /\
  fst (sendUpstream (fun _ => Some (snd (remove "decoder" p))) 9 tt 1 0) = Err Undefined.
Proof. split; reflexivity. Qed.

End Demo.
