(* ===== verification/ReceivePredictor.v ===== *)
(** * The adaptive receive buffer size predictor

    [src/src/cetty/channel/AdaptiveReceiveBufferSizePredictor.cpp] and its header:
    the size table, the search for the table entry of a size, the feedback
    step.  A predictor's size follows the reads of a channel: it grows by four
    table entries when a read fills the buffer, shrinks by one after two
    consecutive small reads. *)

From S2P Require Import Prelude MachineInt.

Module AdaptiveReceiveBufferSizePredictor.

Definition DEFAULT_MINIMUM : Z := 64.
Definition DEFAULT_INITIAL : Z := 1024.
Definition DEFAULT_MAXIMUM : Z := 65536.

Definition INDEX_INCREMENT : Z := 4.
Definition INDEX_DECREMENT : Z := 1.
Definition SIZE_TABLE_CNT : Z := 8 + (32 - 4) * 8.

(** The eight entries the inner loop of [initSizeTable] pushes for [i]: [v] is
    a [long] of 64 bits, the vector holds [int]s. *)
Fixpoint pushSizes (j : nat) (v inc : Z) : list Z :=
  match j with
  | O => []
  | S j =>
      let v := v + inc in
      (if v >=? 0xefffffff then i32 0xefffffff else i32 v) :: pushSizes j v inc
  end.

Definition initSizeTable : list Z :=
  map Z.of_nat (seq 1 8) ++
  flat_map (fun i =>
    let v := Z.shiftl 1 (Z.of_nat i) in
    let inc := Z.shiftr v 4 in
    let v := v - Z.shiftl inc 3 in
    pushSizes 8 v inc) (seq 4 28).

Definition SIZE_TABLE : list Z := take (Z.to_nat SIZE_TABLE_CNT) initSizeTable.

Definition sizeAt (i : Z) : Z := znth 0 SIZE_TABLE i.

(** The [do ... while (v != 0)] loop that counts the bits of [size]; 32
    iterations are enough for an [int]. *)
Fixpoint countBits (fuel : nat) (v bits : Z) : Z :=
  match fuel with
  | O => bits
  | S fuel =>
      let v := Z.shiftr v 1 in
      let bits := bits + 1 in
      if v =? 0 then bits else countBits fuel v bits
  end.

(** The search loop, from [startIdx] down to [endIdx]; [n] is the number of
    entries left to look at. *)
Fixpoint searchDown (n : nat) (i size : Z) : result Z :=
  match n with
  | O => Err RuntimeException
  | S n => if size >=? sizeAt i then Ok i else searchDown n (i - 1) size
  end.

Definition getSizeTableIndex (size : Z) : result Z :=
  if size <=? 16 then Ok (size - 1)
  else
    let bits := countBits 32 size 0 in
    let baseIdx := Z.shiftl bits 3 in
    let startIdx := baseIdx - 18 in
    let endIdx := baseIdx - 25 in
    searchDown (Z.to_nat (startIdx - endIdx + 1)) startIdx size.

Record predictor := Predictor {
  decreaseNow : bool;
  minIndex : Z;
  maxIndex : Z;
  index : Z;
  nextReceiveBuffSz : Z;
}.

Definition nextReceiveBufferSize (p : predictor) : Z := nextReceiveBuffSz p.

(** No constructor initialises [decreaseNow]: its first value is a parameter. *)
Definition init (decreaseNow0 : bool) (minimum initial maximum : Z) : result predictor :=
  let? minIndex0 := getSizeTableIndex minimum in
  let? maxIndex0 := getSizeTableIndex maximum in
  let? index0 := getSizeTableIndex initial in
  Ok {| decreaseNow := decreaseNow0;
        minIndex := if sizeAt minIndex0 <? minimum then minIndex0 + 1 else minIndex0;
        maxIndex := if sizeAt maxIndex0 >? maximum then maxIndex0 - 1 else maxIndex0;
        index := index0;
        nextReceiveBuffSz := sizeAt index0 |}.

Definition newDefault (decreaseNow0 : bool) : result predictor :=
  init decreaseNow0 DEFAULT_MINIMUM DEFAULT_INITIAL DEFAULT_MAXIMUM.

Definition new (decreaseNow0 : bool) (minimum initial maximum : Z) : result predictor :=
  if minimum <=? 0 then Err InvalidArgumentException
  else if initial <? minimum then Err InvalidArgumentException
  else if maximum <? initial then Err InvalidArgumentException
  else init decreaseNow0 minimum initial maximum.

Definition previousReceiveBufferSize (previous : Z) (p : predictor) : predictor :=
  if previous <=? sizeAt (Z.max 0 (index p - INDEX_DECREMENT - 1)) then
    if decreaseNow p then
      let i := Z.max (index p - INDEX_DECREMENT) (minIndex p) in
      {| decreaseNow := false; minIndex := minIndex p; maxIndex := maxIndex p;
         index := i; nextReceiveBuffSz := sizeAt i |}
    else
      {| decreaseNow := true; minIndex := minIndex p; maxIndex := maxIndex p;
         index := index p; nextReceiveBuffSz := nextReceiveBuffSz p |}
  else if previous >=? nextReceiveBuffSz p then
    let i := Z.min (index p + INDEX_INCREMENT) (maxIndex p) in
    {| decreaseNow := false; minIndex := minIndex p; maxIndex := maxIndex p;
       index := i; nextReceiveBuffSz := sizeAt i |}
  else p.

(** The predictor after a channel reported a sequence of read sizes. *)
Definition feedback (reads : list Z) (p : predictor) : predictor :=
  fold_left (fun p r => previousReceiveBufferSize r p) reads p.

(** ** The size table *)

Lemma SIZE_TABLE_length : zlen SIZE_TABLE = SIZE_TABLE_CNT.
Proof. vm_compute. reflexivity. Qed.

(** A decidable statement on an interval of integers, checked by computation. *)
Fixpoint all_from (n : nat) (i : Z) (P : Z -> bool) : bool :=
  match n with
  | O => true
  | S n => P i && all_from n (i + 1) P
  end.

Lemma all_from_spec n i P k :
  all_from n i P = true -> i <= k < i + Z.of_nat n -> P k = true.
Proof.
  revert i. induction n as [|n IH]; intros i H Hk; [lia|].
  cbn in H. apply andb_true_iff in H as [H0 H].
  destruct (Z.eq_dec k i) as [->|]; [exact H0 | apply (IH (i + 1)); [exact H | lia]].
Qed.

(** All entries but the last one increase. *)
Lemma sizeAt_step i : 0 <= i < 230 -> sizeAt i < sizeAt (i + 1).
Proof.
  intros H. apply Z.ltb_lt.
  apply (all_from_spec 230 0 (fun i => sizeAt i <? sizeAt (i + 1))); [|lia].
  vm_compute. reflexivity.
Qed.

Lemma sizeAt_mono i j : 0 <= i -> i <= j -> j <= 230 -> sizeAt i <= sizeAt j.
Proof.
  intros Hi Hij Hj. replace j with (i + Z.of_nat (Z.to_nat (j - i))) by lia.
  assert (Hn : i + Z.of_nat (Z.to_nat (j - i)) <= 230) by lia.
  revert Hn. generalize (Z.to_nat (j - i)) as n. induction n as [|n IH]; intros Hn.
  - rewrite Z.add_0_r. lia.
  - specialize (IH ltac:(lia)).
    pose proof (sizeAt_step (i + Z.of_nat n) ltac:(lia)).
    replace (i + Z.of_nat (S n)) with (i + Z.of_nat n + 1) by lia. lia.
Qed.

Lemma sizeAt_lt i j : 0 <= i <= 230 -> 0 <= j <= 230 -> sizeAt i < sizeAt j -> i < j.
Proof.
  intros Hi Hj H. destruct (Z.lt_ge_cases i j) as [L|G]; [exact L|].
  pose proof (sizeAt_mono j i ltac:(lia) ltac:(lia) ltac:(lia)). lia.
Qed.

Lemma countBits_spec fuel v bits :
  0 < v < 2 ^ Z.of_nat fuel ->
  let b := countBits fuel v bits - bits in
  1 <= b <= Z.of_nat fuel /\ 2 ^ (b - 1) <= v < 2 ^ b.
Proof.
  revert v bits. induction fuel as [|fuel IH]; intros v bits Hv; [cbn in Hv; lia|].
  cbn [countBits]. rewrite Z.shiftr_div_pow2 by lia. change (2 ^ 1) with 2.
  rewrite Nat2Z.inj_succ, Z.pow_succ_r in Hv by lia.
  destruct (v / 2 =? 0) eqn:E; zbool.
  - cbn zeta. replace (bits + 1 - bits) with 1 by lia.
    change (2 ^ (1 - 1)) with 1. change (2 ^ 1) with 2. dlia.
  - specialize (IH (v / 2) (bits + 1) ltac:(dlia)). cbn zeta in IH |- *.
    set (b := countBits fuel (v / 2) (bits + 1) - (bits + 1)) in *.
    replace (countBits fuel (v / 2) (bits + 1) - bits) with (Z.succ b) by lia.
    rewrite (Z.pow_succ_r 2 b) by lia.
    replace (Z.succ b - 1) with (Z.succ (b - 1)) by lia.
    rewrite (Z.pow_succ_r 2 (b - 1)) by lia.
    destruct IH as [IH1 IH2]. split; [lia|].
    clearbody b. clear E IH1. dlia.
Qed.

(** The table entries that border the window searched for [bits]. *)
Lemma window_bounds bits :
  5 <= bits <= 31 ->
  sizeAt (8 * bits - 25) = 2 ^ (bits - 1) /\
  (bits < 31 -> sizeAt (8 * bits - 17) = 2 ^ bits).
Proof.
  intros H.
  assert (((sizeAt (8 * bits - 25) =? 2 ^ (bits - 1)) &&
           ((bits =? 31) || (sizeAt (8 * bits - 17) =? 2 ^ bits)))%bool = true) as E.
  { apply (all_from_spec 27 5 (fun bits =>
      ((sizeAt (8 * bits - 25) =? 2 ^ (bits - 1)) &&
       ((bits =? 31) || (sizeAt (8 * bits - 17) =? 2 ^ bits)))%bool)); [|lia].
    vm_compute. reflexivity. }
  apply andb_true_iff in E as [E1 E2]. apply orb_true_iff in E2. zbool.
  split; [exact E1|]. intros. destruct E2; zbool; lia.
Qed.

Lemma searchDown_spec n i size :
  sizeAt (i - Z.of_nat n) <= size ->
  exists k, searchDown (S n) i size = Ok k /\ i - Z.of_nat n <= k <= i /\
    sizeAt k <= size /\ (k < i -> size < sizeAt (k + 1)).
Proof.
  revert i. induction n as [|n IH]; intros i H; cbn [searchDown].
  - rewrite Z.sub_0_r in H. destruct (size >=? sizeAt i) eqn:E; zbool; [|lia].
    exists i. repeat split; lia.
  - destruct (size >=? sizeAt i) eqn:E; zbool.
    + exists i. repeat split; lia.
    + destruct (IH (i - 1)) as (k & Hk & Hb & Hle & Hlt).
      { replace (i - 1 - Z.of_nat n) with (i - Z.of_nat (S n)) by lia. exact H. }
      cbn [searchDown] in Hk. exists k. repeat split; [exact Hk | lia | lia | lia |].
      intros. destruct (Z.eq_dec k (i - 1)) as [->|]; [|apply Hlt; lia].
      replace (i - 1 + 1) with i by lia. lia.
Qed.

(** The table index of a size, on the sizes up to 16. *)
Lemma small_index size :
  1 <= size <= 16 -> sizeAt (size - 1) = size /\ size < sizeAt size.
Proof.
  intros H.
  assert (((sizeAt (size - 1) =? size) && (size <? sizeAt size))%bool = true) as E.
  { apply (all_from_spec 16 1
      (fun size => ((sizeAt (size - 1) =? size) && (size <? sizeAt size))%bool)); [|lia].
    vm_compute. reflexivity. }
  zbool. lia.
Qed.

(** [i] is the index of the largest table entry not above [size]. *)
Definition floorIndex (i size : Z) : Prop :=
  0 <= i <= 230 /\ sizeAt i <= size /\ (i < 230 -> size < sizeAt (i + 1)).

Lemma getSizeTableIndex_spec size :
  1 <= size <= INT_MAX -> exists i, getSizeTableIndex size = Ok i /\ floorIndex i size.
Proof.
  unfold INT_MAX. intros H. unfold getSizeTableIndex, floorIndex.
  destruct (size <=? 16) eqn:E; zbool.
  - pose proof (small_index size ltac:(lia)) as [E1 E2]. exists (size - 1).
    replace (size - 1 + 1) with size by lia. repeat split; lia.
  - destruct (countBits_spec 32 size 0) as [Hb Hp]; [cbn; lia|].
    rewrite Z.sub_0_r in Hb, Hp. set (bits := countBits 32 size 0) in *. clearbody bits.
    assert (5 <= bits <= 31) as Hbits.
    { split; [apply Z.le_ngt; intros L | apply Z.le_ngt; intros L].
      - pose proof (Z.pow_le_mono_r 2 bits 4). lia.
      - pose proof (Z.pow_le_mono_r 2 31 (bits - 1)). lia. }
    destruct (window_bounds bits Hbits) as [Wlo Whi].
    rewrite Z.shiftl_mul_pow2 by lia. change (2 ^ 3) with 8.
    replace (Z.to_nat (bits * 8 - 18 - (bits * 8 - 25) + 1)) with 8%nat by lia.
    destruct (searchDown_spec 7 (bits * 8 - 18) size) as (k & Hk & Hr & Hle & Hlt).
    { replace (bits * 8 - 18 - Z.of_nat 7) with (8 * bits - 25) by lia. lia. }
    exists k. split; [exact Hk|]. repeat split; [lia | lia | lia |]. intros.
    destruct (Z.eq_dec k (bits * 8 - 18)) as [->|]; [|apply Hlt; lia].
    replace (bits * 8 - 18 + 1) with (8 * bits - 17) by lia.
    rewrite Whi by lia. lia.
Qed.

Lemma floorIndex_mono i j a b :
  floorIndex i a -> floorIndex j b -> a <= b -> i <= j.
Proof.
  intros (Hi & Hia & _) (Hj & _ & Hjb) Hab.
  destruct (Z.le_gt_cases i j) as [L|G]; [exact L|].
  pose proof (sizeAt_mono (j + 1) i ltac:(lia) ltac:(lia) ltac:(lia)).
  specialize (Hjb ltac:(lia)). lia.
Qed.

(** ** Well-formed predictors *)

(** The prediction is the table entry of the current index, and the indexes
    are ordered and stay inside the increasing part of the table. *)
Definition wf (p : predictor) : Prop :=
  nextReceiveBuffSz p = sizeAt (index p) /\
  0 <= minIndex p <= index p /\ index p <= maxIndex p <= 230.

Lemma previousReceiveBufferSize_wf r p :
  wf p -> wf (previousReceiveBufferSize r p) /\
  minIndex (previousReceiveBufferSize r p) = minIndex p /\
  maxIndex (previousReceiveBufferSize r p) = maxIndex p.
Proof.
  unfold wf, previousReceiveBufferSize, INDEX_DECREMENT, INDEX_INCREMENT. intros (H & Hi & Hx).
  repeat case_match; cbn; repeat split; (reflexivity || lia || assumption).
Qed.

Lemma feedback_wf reads p :
  wf p -> wf (feedback reads p) /\
  minIndex (feedback reads p) = minIndex p /\ maxIndex (feedback reads p) = maxIndex p.
Proof.
  unfold feedback. revert p. induction reads as [|r reads IH]; intros p H; [auto|].
  cbn. destruct (previousReceiveBufferSize_wf r p H) as (W & Emin & Emax).
  destruct (IH _ W) as (W' & Emin' & Emax'). rewrite Emin', Emax'. auto.
Qed.

(** The constructor, on arguments it accepts. *)
Lemma new_spec d minimum initial maximum p :
  maximum <= INT_MAX -> new d minimum initial maximum = Ok p ->
  floorIndex (index p) initial /\ nextReceiveBuffSz p = sizeAt (index p) /\
  0 <= minIndex p /\ (minIndex p <= 230 -> minimum <= sizeAt (minIndex p)) /\
  floorIndex (maxIndex p) maximum /\ index p <= maxIndex p.
Proof.
  intros Hmax. unfold new, init. intros H.
  destruct (minimum <=? 0) eqn:E1; [discriminate|].
  destruct (initial <? minimum) eqn:E2; [discriminate|].
  destruct (maximum <? initial) eqn:E3; [discriminate|]. zbool.
  destruct (getSizeTableIndex_spec minimum ltac:(lia)) as (imin & Emin & Fmin).
  destruct (getSizeTableIndex_spec maximum ltac:(lia)) as (imax & Emax & Fmax).
  destruct (getSizeTableIndex_spec initial ltac:(lia)) as (iini & Eini & Fini).
  rewrite Emin, Emax, Eini in H. cbn in H. injection H as <-. cbn.
  pose proof (floorIndex_mono _ _ _ _ Fini Fmax ltac:(lia)).
  destruct Fmin as (? & ? & Hs). destruct Fmax as (? & ? & ?) eqn:EF.
  replace (sizeAt imax >? maximum) with false by (symmetry; rewrite Z.gtb_ltb; lia).
  split; [exact Fini|]. split; [reflexivity|].
  destruct (sizeAt imin <? minimum) eqn:E; zbool; repeat split; try lia; try assumption.
Qed.

(** After any sequence of reported reads, a predictor whose first index is not
    below its minimum index predicts a size between the minimum and the
    maximum it was built with. *)
Theorem prediction_bounds d minimum initial maximum p reads :
  maximum <= INT_MAX ->
  new d minimum initial maximum = Ok p ->
  minIndex p <= index p ->
  minimum <= nextReceiveBufferSize (feedback reads p) <= maximum.
Proof.
  intros Hmax Hnew Hidx.
  destruct (new_spec _ _ _ _ _ Hmax Hnew) as (Fini & Enext & Hmin & Hminimum & Fmax & Hle).
  assert (wf p) as W.
  { destruct Fmax as (? & _). unfold wf. repeat split; (lia || assumption). }
  destruct (feedback_wf reads p W) as ((En & Wi & Wx) & Emin & Emax).
  unfold nextReceiveBufferSize. rewrite En. rewrite Emin in Wi. rewrite Emax in Wx.
  destruct Fmax as (? & Hsz & _).
  split.
  - transitivity (sizeAt (minIndex p)); [apply Hminimum; lia | apply sizeAt_mono; lia].
  - transitivity (sizeAt (maxIndex p)); [apply sizeAt_mono; lia | exact Hsz].
Qed.

Lemma prediction_bounds_witness :
  exists p, newDefault false = Ok p /\
    64 <= nextReceiveBufferSize (feedback [10; 10; 2000; 70000; 5; 5; 5] p) <= 65536.
Proof.
  eexists. split; [vm_compute; reflexivity|].
  eapply (prediction_bounds false 64 1024 65536);
    [vm_compute; discriminate | vm_compute; reflexivity | vm_compute; discriminate].
Defined.

(** The table lookup returns, for every positive [int], the index of the
    largest table entry that does not exceed it: the search loop never
    reaches its exception. *)
Theorem getSizeTableIndex_floor size :
  1 <= size <= INT_MAX ->
  exists i, getSizeTableIndex size = Ok i /\ 0 <= i <= 230 /\
    sizeAt i <= size /\ (i < 230 -> size < sizeAt (i + 1)).
Proof. exact (getSizeTableIndex_spec size). Qed.

Lemma getSizeTableIndex_floor_witness :
  1 <= 5000 <= INT_MAX /\
  exists i, getSizeTableIndex 5000 = Ok i /\ 0 <= i <= 230 /\
    sizeAt i <= 5000 /\ (i < 230 -> 5000 < sizeAt (i + 1)).
Proof.
  split; [unfold INT_MAX; lia|]. apply (getSizeTableIndex_floor 5000). unfold INT_MAX. lia.
Defined.

(** The minimum of the constructor is no lower bound of the first prediction. *)
Theorem first_prediction_below_minimum d :
  exists p, new d 17 17 100 = Ok p /\ nextReceiveBufferSize p < 17.
Proof. eexists. split; [vm_compute; reflexivity | vm_compute; reflexivity]. Qed.

(** The last table entry is negative: the [long] 2{^31} does not fit the [int]
    it is stored in, and [0xefffffff] is not reached. *)
Theorem last_table_entry_negative : sizeAt 231 = INT_MIN.
Proof. vm_compute. reflexivity. Qed.

End AdaptiveReceiveBufferSizePredictor.
