(* ===== verification/Future.v ===== *)
(** * DefaultChannelFuture

    [src/src/cetty/channel/DefaultChannelFuture.cpp] and
    [src/include/cetty/channel/DefaultChannelFuture.h]: the completion of a future,
    its listeners and the threads that wait for it.  The blocks that the code runs
    under the mutex are functions of the members; a call is a sequence of turns of
    its thread, one for each such block and one for each listener that is called
    outside the mutex, and the turns of several threads are interleaved ([step]).
    What a thread is about to do is a program counter ([pc]). *)

From S2P Require Import Prelude MachineInt.

(** The [dynamic_cast] to [ChannelFutureProgressListener], and the identity of
    listeners, which are pointers. *)
Class FutureListener (L : Type) := {
  #[global] listener_eq_dec :: EqDecision L;
  isProgressListener : L -> bool;
}.

Module DefaultChannelFuture.

(** [Exception* cause], when it is not null: the address of [CANCELLED], or a
    copy of the exception of [setFailure]. *)
Inductive Cause (E : Type) :=
  | CANCELLED
  | Failed (e : E).
Arguments CANCELLED {E}.
Arguments Failed {E} _.

Record t (E L F : Type) := MkFuture {
  cancellable : bool;
  done : bool;
  functionListener : option F;
  firstListener : option L;
  otherListeners : option (list L);
  progressListeners : option (list L);
  cause : option (Cause E);
  cond : bool;  (** whether the condition variable was made *)
  waiters : Z;
}.
Arguments MkFuture {E L F} _ _ _ _ _ _ _ _ _.
Arguments cancellable {E L F} _.
Arguments done {E L F} _.
Arguments functionListener {E L F} _.
Arguments firstListener {E L F} _.
Arguments otherListeners {E L F} _.
Arguments progressListeners {E L F} _.
Arguments cause {E L F} _.
Arguments cond {E L F} _.
Arguments waiters {E L F} _.

Section Blocks.
Context {E L F : Type} {FL : FutureListener L}.
Abbreviation future := (t E L F).

Definition new (cancellable : bool) : future :=
  MkFuture cancellable false None None None None None false 0.

Definition with_done (f : future) : future :=
  MkFuture (cancellable f) true (functionListener f) (firstListener f) (otherListeners f)
    (progressListeners f) (cause f) (cond f) (waiters f).
Definition with_functionListener (g : option F) (f : future) : future :=
  MkFuture (cancellable f) (done f) g (firstListener f) (otherListeners f)
    (progressListeners f) (cause f) (cond f) (waiters f).
Definition with_firstListener (l : option L) (f : future) : future :=
  MkFuture (cancellable f) (done f) (functionListener f) l (otherListeners f)
    (progressListeners f) (cause f) (cond f) (waiters f).
Definition with_otherListeners (ls : option (list L)) (f : future) : future :=
  MkFuture (cancellable f) (done f) (functionListener f) (firstListener f) ls
    (progressListeners f) (cause f) (cond f) (waiters f).
Definition with_progressListeners (ls : option (list L)) (f : future) : future :=
  MkFuture (cancellable f) (done f) (functionListener f) (firstListener f) (otherListeners f)
    ls (cause f) (cond f) (waiters f).
Definition with_cause (c : option (Cause E)) (f : future) : future :=
  MkFuture (cancellable f) (done f) (functionListener f) (firstListener f) (otherListeners f)
    (progressListeners f) c (cond f) (waiters f).
Definition with_cond (f : future) : future :=
  MkFuture (cancellable f) (done f) (functionListener f) (firstListener f) (otherListeners f)
    (progressListeners f) (cause f) true (waiters f).
Definition with_waiters (n : Z) (f : future) : future :=
  MkFuture (cancellable f) (done f) (functionListener f) (firstListener f) (otherListeners f)
    (progressListeners f) (cause f) (cond f) n.

(** *** Queries *)

Definition isDone (f : future) : bool := done f.
Definition isSuccess (f : future) : bool :=
  done f && match cause f with None => true | Some _ => false end.
Definition getCause (f : future) : option E :=
  match cause f with Some (Failed e) => Some e | _ => None end.
Definition isCancelled (f : future) : bool :=
  match cause f with Some CANCELLED => true | _ => false end.

(** The elements of a [std::list] behind a pointer that may be null. *)
Definition elems {A} (ls : option (list A)) : list A :=
  match ls with Some ls => ls | None => [] end.

(** *** The blocks of [setListener], [addListener] and [removeListener]

    The first two return [notifyNow]. *)

Definition setListener (listener : F) : M future bool :=
  let! f := gets id in
  if done f then ret true
  else modify (with_functionListener (Some listener)) ;! ret false.

Definition addListener (listener : L) : M future bool :=
  let! f := gets id in
  if done f then ret true
  else
    (match firstListener f with
     | None => modify (with_firstListener (Some listener))
     | Some _ => modify (with_otherListeners (Some (elems (otherListeners f) ++ [listener])))
     end) ;!
    (if isProgressListener listener
     then modify (with_progressListeners (Some (elems (progressListeners f) ++ [listener])))
     else ret tt) ;!
    ret false.

(** [std::list::remove]: every element that is equal goes. *)
Definition list_remove (l : L) (ls : list L) : list L := List.filter (fun x => negb (bool_decide (x = l))) ls.

Definition removeListener (listener : L) : M future unit :=
  let! f := gets id in
  if done f then ret tt
  else
    (if bool_decide (firstListener f = Some listener) then
       match otherListeners f with
       | Some (l :: ls) =>
           modify (with_firstListener (Some l)) ;! modify (with_otherListeners (Some ls))
       | _ => modify (with_firstListener None)
       end
     else
       match otherListeners f with
       | Some ls => modify (with_otherListeners (Some (list_remove listener ls)))
       | None => ret tt
       end) ;!
    (if isProgressListener listener then
       match progressListeners f with
       | Some ls => modify (with_progressListeners (Some (list_remove listener ls)))
       | None => ret tt
       end
     else ret tt).

(** *** The blocks of [setSuccess], [setFailure], [cancel] and [setProgress]

    A block that completes the future tells whether it calls [notify_all]; the
    call through a null [cond] is [Undefined]. *)

Inductive completion :=
  | Refused
  | Completed (notify_all : bool).

Definition finish (setCause : future -> future) : M future completion :=
  let! f := gets id in
  if done f then ret Refused
  else
    modify setCause ;!
    modify with_done ;!
    if waiters f >? 0 then
      if cond f then ret (Completed true) else throw Undefined
    else ret (Completed false).

Definition setSuccess : M future completion := finish id.
Definition setFailure (e : E) : M future completion := finish (with_cause (Some (Failed e))).
Definition cancel : M future completion := finish (with_cause (Some CANCELLED)).

(** The result and the copy of the progress listeners. *)
Definition setProgress : M future (bool * list L) :=
  let! f := gets id in
  if done f then ret (false, []) else ret (true, elems (progressListeners f)).

(** *** Waiting *)

(** [condition] makes the condition variable. *)
Definition condition : M future unit := modify with_cond.

Definition addWaiter : M future unit :=
  modify (fun f => with_waiters (i32 (waiters f + 1)) f).
Definition dropWaiter : M future unit :=
  modify (fun f => with_waiters (i32 (waiters f - 1)) f).

(** The loop of [await] and of [awaitUninterruptibly] up to the next wait: whether
    the thread waits. *)
Definition awaitLoop : M future bool :=
  let! f := gets id in
  if done f then ret false else addWaiter ;! condition ;! ret true.

(** The start of [await0] under the mutex: a result, or [None] when the thread
    waits. *)
Definition await0 (timeoutMillis : Z) : M future (option bool) :=
  let! f := gets id in
  if done f then ret (Some true)
  else if timeoutMillis <=? 0 then ret (Some false)
  else addWaiter ;! condition ;! ret None.

(** The loop of [await0] after a wait that was not interrupted; [expired] is
    [get_system_time() >= expiredTime]. *)
Definition await0Loop (expired : bool) : M future (option bool) :=
  let! f := gets id in
  if done f then ret (Some true) else if expired then ret (Some false) else ret None.

(** *** Notification, outside the mutex *)

(** The first part of [notifyListeners]: the listener that is called.  The source clears
    the member after the call, here it is cleared before; nobody reads it in between,
    since the members of the lists do not change once the future is done, and only the
    thread that completed the future notifies. *)
Definition notifyFirst : M future (option L) :=
  let! f := gets id in
  match firstListener f with
  | Some l => modify (with_firstListener None) ;! ret (Some l)
  | None => ret None
  end.

(** The listener at the iterator of the loop over [otherListeners]. *)
Definition notifyOther (k : nat) : M future (option L) :=
  let! f := gets id in ret (elems (otherListeners f) !! k).

Definition notifyFunction : M future (option F) :=
  let! f := gets id in
  match functionListener f with
  | Some g => modify (with_functionListener None) ;! ret (Some g)
  | None => ret None
  end.

End Blocks.

(** ** Calls and threads *)

Section Threads.
Context {E L F : Type} {FL : FutureListener L}.
Abbreviation future := (t E L F).

(** The member functions; a pointer argument is an option. *)
Inductive call :=
  | IsDone
  | IsSuccess
  | GetCause
  | IsCancelled
  | SetListener (listener : option F)
  | AddListener (listener : option L)
  | RemoveListener (listener : option L)
  | Await
  | AwaitFor (timeoutMillis : Z)
  | AwaitUninterruptibly
  | AwaitUninterruptiblyFor (timeoutMillis : Z)
  | SetSuccess
  | SetFailure (e : E)
  | Cancel
  | SetProgress (amount current total : Z).

(** What a call returns; [Interrupted] is the InterruptedException. *)
Inductive value :=
  | VBool (b : bool)
  | VCause (c : option E)
  | VVoid
  | Interrupted.

(** Where a thread is: outside any call; before the mutex; in
    [notifyListener] of [addListener] and [setListener]; at the three parts of
    [notifyListeners]; in the loop of [setProgress] over its copy; in a wait of the
    condition variable; after the wait, interrupted or not, before it has the mutex
    again; or stopped by an [Undefined] execution. *)
Inductive pc :=
  | Idle
  | Locking (c : call)
  | NotifyingNow (c : call) (x : L + F)
  | NotifyingFirst (c : call)
  | NotifyingOthers (c : call) (k : nat)
  | NotifyingFunction (c : call)
  | Progressing (amount current total : Z) (rest : list L)
  | Waiting (c : call)
  | Woken (c : call) (interrupted : bool)
  | Crashed.

(** What is seen of a run, by thread: the block under the mutex of a call is
    entered; a listener is told of the completion or of the progress; a call
    returns. *)
Inductive event :=
  | Entered (i : nat) (c : call)
  | Notified (i : nat) (x : L + F)
  | Progressed (i : nat) (l : L) (amount current total : Z)
  | Returned (i : nat) (c : call) (v : value).

(** What the environment chooses: the next call of a thread, its next turn, its
    next turn after the time of [await0] is over, an interruption, and a wake-up of
    the condition variable, spurious or at the time of [timed_wait]. *)
Inductive action :=
  | Start (c : call)
  | Go
  | Expire
  | Interrupt
  | Wake.

Record outcome := MkOutcome {
  next_pc : pc;
  events : list event;
  notifies : bool;
}.

Definition goes (p : pc) (es : list event) : M future outcome := ret (MkOutcome p es false).
Definition returns (i : nat) (c : call) (v : value) (es : list event) : M future outcome :=
  goes Idle (es ++ [Returned i c v]).

(** The calls before and in their block under the mutex. *)

Definition query (i : nat) (c : call) (v : future -> value) : M future outcome :=
  let! f := gets id in returns i c (v f) [Entered i c].

Definition notifyNow (i : nat) (c : call) (x : L + F) (m : M future bool) : M future outcome :=
  let! now := m in
  if now then goes (NotifyingNow c x) [Entered i c] else returns i c VVoid [Entered i c].

Definition complete (i : nat) (c : call) (m : M future completion) : M future outcome :=
  let! r := m in
  match r with
  | Refused => returns i c (VBool false) [Entered i c]
  | Completed n => ret (MkOutcome (NotifyingFirst c) [Entered i c] n)
  end.

Definition await (i : nat) (c : call) (es : list event) : M future outcome :=
  let! waits := awaitLoop in
  if waits then goes (Waiting c) es else returns i c VVoid es.

Definition timed (i : nat) (c : call) (es : list event) (m : M future (option bool)) : M future outcome :=
  let! r := m in
  match r with
  | Some b => returns i c (VBool b) es
  | None => goes (Waiting c) es
  end.

Definition enter (i : nat) (c : call) : M future outcome :=
  match c with
  | IsDone => query i c (fun f => VBool (isDone f))
  | IsSuccess => query i c (fun f => VBool (isSuccess f))
  | GetCause => query i c (fun f => VCause (getCause f))
  | IsCancelled => query i c (fun f => VBool (isCancelled f))
  | SetListener None | AddListener None | RemoveListener None => returns i c VVoid []
  | SetListener (Some g) => notifyNow i c (inr g) (setListener g)
  | AddListener (Some l) => notifyNow i c (inl l) (addListener l)
  | RemoveListener (Some l) => removeListener l ;! returns i c VVoid [Entered i c]
  | Await | AwaitUninterruptibly => await i c [Entered i c]
  | AwaitFor ms | AwaitUninterruptiblyFor ms => timed i c [Entered i c] (await0 ms)
  | SetSuccess => complete i c setSuccess
  | SetFailure e => complete i c (setFailure e)
  | Cancel =>
      let! f := gets id in
      if cancellable f then complete i c cancel else returns i c (VBool false) []
  | SetProgress amount current total =>
      let! r := setProgress in
      match r with
      | (true, l :: ls) => goes (Progressing amount current total (l :: ls)) [Entered i c]
      | (b, _) => returns i c (VBool b) [Entered i c]
      end
  end.

(** The rest of a call after a wait.  Both [catch(...)] drop the waiter; the one
    of [await0] ends the function, which returns false. *)
Definition resume (i : nat) (c : call) (interrupted expired : bool) : M future outcome :=
  match c with
  | AwaitFor _ =>
      if interrupted then dropWaiter ;! returns i c (VBool false) []
      else timed i c [] (await0Loop expired)
  | AwaitUninterruptiblyFor _ => timed i c [] (await0Loop expired)
  | _ => (if interrupted then dropWaiter else ret tt) ;! await i c []
  end.

(** One turn of a thread; [None] when the action does not apply. *)
Definition turn (i : nat) (a : action) (p : pc) : option (M future outcome) :=
  match p, a with
  | Idle, Start c => Some (goes (Locking c) [])
  | Locking c, Go => Some (enter i c)
  | Locking ((Await | AwaitFor _) as c), Interrupt => Some (returns i c Interrupted [])
  | NotifyingNow c x, Go => Some (returns i c VVoid [Notified i x])
  | NotifyingFirst c, Go => Some (
      let! r := notifyFirst in
      match r with
      | Some l => goes (NotifyingOthers c 0) [Notified i (inl l)]
      | None => goes (NotifyingFunction c) []
      end)
  | NotifyingOthers c k, Go => Some (
      let! r := notifyOther k in
      match r with
      | Some l => goes (NotifyingOthers c (S k)) [Notified i (inl l)]
      | None => goes (NotifyingFunction c) []
      end)
  | NotifyingFunction c, Go => Some (
      let! r := notifyFunction in
      match r with
      | Some g => returns i c (VBool true) [Notified i (inr g)]
      | None => returns i c (VBool true) []
      end)
  | Progressing amount current total (l :: ls), Go =>
      Some (goes (Progressing amount current total ls) [Progressed i l amount current total])
  | Progressing amount current total [], Go =>
      Some (returns i (SetProgress amount current total) (VBool true) [])
  | Waiting c, Wake => Some (goes (Woken c false) [])
  | Waiting c, Interrupt => Some (goes (Woken c true) [])
  | Woken c interrupted, Go => Some (resume i c interrupted false)
  | Woken c interrupted, Expire => Some (resume i c interrupted true)
  | _, _ => None
  end.

(** A future and the threads that use it, with what was seen of the run. *)
Record state := MkState {
  shared : future;
  threads : list pc;
  trace : list event;
}.

(** [notify_all]: the waiting threads are woken. *)
Definition woken (p : pc) : pc :=
  match p with Waiting c => Woken c false | p => p end.

Definition exec (i : nat) (a : action) (s : state) : option state :=
  match threads s !! i with
  | None => None
  | Some p =>
      match turn i a p with
      | None => None
      | Some m =>
          match m (shared s) with
          | (Ok o, f) =>
              Some (MkState f (<[i := next_pc o]> (if notifies o then map woken (threads s) else threads s))
                (trace s ++ events o))
          | (Err _, f) => Some (MkState f (<[i := Crashed]> (threads s)) (trace s))
          end
      end
  end.

Inductive step (s s' : state) : Prop :=
  | Step (i : nat) (a : action) (E0 : exec i a s = Some s').

(** A schedule: the thread and the action of each step. *)
Fixpoint execAll (sched : list (nat * action)) (s : state) : option state :=
  match sched with
  | [] => Some s
  | (i, a) :: sched => match exec i a s with Some s => execAll sched s | None => None end
  end.

(** A new future and [n] threads. *)
Definition initial (cancellable : bool) (n : nat) : state :=
  MkState (new cancellable) (repeat Idle n) [].

End Threads.
Arguments call : clear implicits.
Arguments value : clear implicits.
Arguments pc : clear implicits.
Arguments event : clear implicits.
Arguments action : clear implicits.
Arguments outcome : clear implicits.
Arguments state : clear implicits.
End DefaultChannelFuture.
