(* ===== verification/FutureProperties.v ===== *)
(** * What a future does

    Every interleaving of the calls of any number of threads: a future is completed
    at most once, tells each listener exactly as often as a future that is used by
    one thread would, leaves no thread behind in a wait, and lets every call return
    once it is complete. *)

From stdpp Require Import relations sorting.
From S2P Require Import Prelude MachineInt Future.
Import DefaultChannelFuture.

(** ** The future as one list of listeners *)

Section View.
Context {E L F : Type} {FL : FutureListener L}.
Abbreviation future := (DefaultChannelFuture.t E L F).
Abbreviation call := (DefaultChannelFuture.call E L F).
Abbreviation event := (DefaultChannelFuture.event E L F).
Abbreviation pc := (DefaultChannelFuture.pc E L F).
Abbreviation state := (DefaultChannelFuture.state E L F).

(** Before completion: the listeners in the order they are told in, and the
    function.  After it: who has to be told. *)
Record view := MkView {
  open : bool;
  attached : list L;
  function : option F;
  owed : list (L + F);
  outcome_of : option (Cause E);
}.

Definition view0 : view := MkView true [] None [] None.

Definition functions (g : option F) : list (L + F) :=
  match g with Some g => [inr g] | None => [] end.

(** What [removeListener] takes out: the first listener, or all that are equal to
    it behind the first. *)
Definition detach (l : L) (ls : list L) : list L :=
  match ls with
  | [] => []
  | x :: r => if decide (x = l) then r else x :: list_remove l r
  end.

Definition close (c : option (Cause E)) (v : view) : view :=
  if open v
  then MkView false [] None (owed v ++ map inl (attached v) ++ functions (function v)) c
  else v.

(** The block of a call, when one thread at a time calls. *)
Definition enters (v : view) (c : call) : view :=
  match c with
  | AddListener (Some l) =>
      if open v then MkView true (attached v ++ [l]) (function v) (owed v) (outcome_of v)
      else MkView false (attached v) (function v) (owed v ++ [inl l]) (outcome_of v)
  | SetListener (Some g) =>
      if open v then MkView true (attached v) (Some g) (owed v) (outcome_of v)
      else MkView false (attached v) (function v) (owed v ++ [inr g]) (outcome_of v)
  | RemoveListener (Some l) =>
      if open v then MkView true (detach l (attached v)) (function v) (owed v) (outcome_of v) else v
  | SetSuccess => close None v
  | SetFailure e => close (Some (Failed e)) v
  | Cancel => close (Some CANCELLED) v
  | _ => v
  end.

Definition sees (v : view) (e : event) : view :=
  match e with Entered _ c => enters v c | _ => v end.

(** The blocks of a run, one after the other. *)
Definition view_after (v : view) (es : list event) : view := fold_left sees es v.
Definition view_of (es : list event) : view := view_after view0 es.

(** The notifications of a run. *)
Definition notified (es : list event) : list (L + F) :=
  omap (fun e => match e with Notified _ x => Some x | _ => None end) es.

Definition completes (c : call) : bool :=
  match c with SetSuccess | SetFailure _ | Cancel => true | _ => false end.

(** The calls that returned to have completed the future. *)
Definition wins (es : list event) : nat :=
  length (List.filter
    (fun e => match e with Returned _ c (VBool true) => completes c | _ => false end) es).

(** *** What the threads still have to do *)

Definition busy (p : pc) : nat :=
  match p with NotifyingFirst _ | NotifyingOthers _ _ | NotifyingFunction _ => 1 | _ => 0 end.

Definition in_wait (p : pc) : nat :=
  match p with Waiting _ | Woken _ _ => 1 | _ => 0 end.

Definition listeners (f : future) : list L :=
  match firstListener f with Some l => [l] | None => [] end ++ elems (otherListeners f).

Definition remaining (f : future) (p : pc) : list (L + F) :=
  match p with
  | NotifyingNow _ x => [x]
  | NotifyingFirst _ =>
      match firstListener f with
      | Some l => map inl (l :: elems (otherListeners f)) ++ functions (functionListener f)
      | None => functions (functionListener f)
      end
  | NotifyingOthers _ k => map inl (drop k (elems (otherListeners f))) ++ functions (functionListener f)
  | NotifyingFunction _ => functions (functionListener f)
  | _ => []
  end.

Definition is_waiting (p : pc) : bool := match p with Waiting _ => true | _ => false end.

(** A program counter of a call that completes the future. *)
Definition well_placed (p : pc) : bool :=
  match p with
  | NotifyingFirst c | NotifyingOthers c _ | NotifyingFunction c => completes c
  | NotifyingNow c _ => negb (completes c)
  | Waiting c | Woken c _ => negb (completes c)
  | Crashed => false
  | _ => true
  end.

(** *** One turn *)

(** The members of a future between turns; [n] bounds [waiters]. *)
Record sound (n : Z) (f : future) : Prop := {
  sound_first : done f = false -> firstListener f = None -> elems (otherListeners f) = [];
  sound_cond : 0 < waiters f -> cond f = true;
  sound_waiters : 0 <= waiters f <= n;
}.

(** The members show the blocks that were entered. *)
Definition shows (f : future) (v : view) : Prop :=
  if done f then open v = false /\ outcome_of v = cause f
  else v = MkView true (listeners f) (functionListener f) [] None /\ cause f = None.

(** A thread that fits the future. *)
Record fits (f : future) (p : pc) : Prop := {
  fits_open : done f = false -> remaining f p = [] /\ busy p = 0%nat;
  fits_waiting : done f = true -> is_waiting p = false;
  fits_placed : well_placed p = true;
}.

Definition completed (f f' : future) : nat := if negb (done f) && done f' then 1 else 0.

(** The cases of a turn. *)
Ltac cases_in R :=
  repeat (progress (cbn in R) ||
    match type of R with
    | context [match ?x with _ => _ end] =>
        lazymatch x with
        | context [match _ with _ => _ end] => fail
        | _ => match goal with
               | H : x = _ |- _ => rewrite H in R
               | _ => destruct x eqn:?
               end
        end
    end).

Ltac turn_cases Hm R :=
  unfold turn in Hm; cases_in Hm; try discriminate Hm; injection Hm as <-;
  unfold enter, resume, query, complete, notifyNow, await, timed, goes, returns,
    setListener, addListener, removeListener, setSuccess, setFailure, cancel, finish, setProgress,
    await0, await0Loop, awaitLoop, addWaiter, dropWaiter, condition, notifyFirst, notifyOther,
    notifyFunction, bind, gets, modify, ret, throw, id in R;
  cases_in R; injection R as <- <-.

Record turned (n : Z) (f : future) (p : pc) (o : DefaultChannelFuture.outcome E L F) (f' : future) : Prop := {
  turned_sound : sound (n + 1) f';
  turned_fits : fits f' (next_pc o);
  turned_done : done f = true -> done f' = true;
  turned_notifies : notifies o = negb (done f) && done f' && (waiters f >? 0);
  turned_busy : (wins (events o) + busy (next_pc o) = busy p + completed f f')%nat;
  turned_waiters : waiters f + Z.of_nat (in_wait (next_pc o)) <= waiters f' + Z.of_nat (in_wait p);
  turned_frame : busy p = 0%nat -> done f = true -> forall p', remaining f' p' = remaining f p';
}.

Ltac known :=
  repeat match goal with
  | H : ?x = _ |- context [?x] => lazymatch x with context [_ _] => rewrite H end
  end.

(** The counts that do not overflow. *)
Ltac plain_i32 :=
  repeat match goal with
  | |- context [i32 ?z] => rewrite (i32_id z) by solve_range
  | H : context [i32 ?z] |- _ => rewrite (i32_id z) in H by solve_range
  end.

Ltac settle_first :=
  repeat match goal with
  | H : ?x = ?x -> _ |- _ => specialize (H eq_refl)
  | H : firstListener ?f = None -> _, E : firstListener ?f = None |- _ => specialize (H E)
  | H : otherListeners ?f = _, E : elems (otherListeners ?f) = [] |- _ => rewrite H in E; cbn in E
  | H : elems (Some ?l) = [] |- _ => change (l = []) in H
  | H : ?l = [] |- _ => subst l
  | H : 0 < _ -> _ |- _ => specialize (H ltac:(lia))
  end.

Ltac finish_turn :=
  cbn in *; intros; plain_i32; known; cbn in *; settle_first; known;
  first [ reflexivity | discriminate | congruence | lia | assumption | solve [auto] | solve [intuition congruence] ].

Ltac solve_turn :=
  unfold completed in *; cbn in *; intros; known; cbn;
  repeat match goal with |- context [if ?x then false else false] => destruct x end;
  first [ solve [finish_turn] | split; solve [finish_turn] | idtac ].

Lemma turn_ok n i a p m f r f' :
  sound n f -> fits f p -> 0 <= n < INT_MAX -> Z.of_nat (in_wait p) <= waiters f ->
  turn i a p = Some m -> m f = (r, f') -> exists o, r = Ok o /\ turned n f p o f'.
Proof.
  intros [S1 S2 S3] [F1 F2 F3] Hn Hp Hm R. change INT_MAX with (2 ^ 31 - 1) in Hn.
  destruct (done f) eqn:D; turn_cases Hm R.
  all: simplify_eq.
  all: try (specialize (S2 ltac:(lia)); discriminate S2).
  all: eexists; (split; [reflexivity|]).
  all: split.
  all: solve_turn.
Qed.

(** The lists of listeners before and after a block. *)
Ltac solve_lists :=
  repeat match goal with
  | H : bool_decide _ = true |- _ => apply bool_decide_eq_true in H
  | H : bool_decide _ = false |- _ => apply bool_decide_eq_false in H
  end;
  unfold listeners; cbn;
  match goal with |- context [firstListener ?f] => destruct (firstListener f) eqn:? | _ => idtac end;
  simplify_eq; settle_first; known; cbn;
  repeat match goal with
  | |- context [decide (?x = ?y)] => destruct (decide (x = y)); subst
  | H : ?l !! ?k = Some _ |- context [drop ?k ?l] => rewrite (drop_S _ _ _ H)
  | H : ?l !! ?k = None |- context [drop ?k ?l] => rewrite (drop_ge l k) by (apply lookup_ge_None_1, H)
  end;
  rewrite ?app_nil_r, ?map_app, <- ?app_assoc; cbn; solve [reflexivity | congruence].

(** What a turn tells the listeners, and what it leaves to be told, is what was
    left before it and what its block adds. *)
Lemma turn_view n i a p m f r f' o v :
  sound n f -> fits f p -> shows f v -> turn i a p = Some m ->
  m f = (r, f') -> r = Ok o ->
  shows f' (view_after v (events o)) /\
  exists more, owed (view_after v (events o)) = owed v ++ more /\
    notified (events o) ++ remaining f' (next_pc o) = remaining f p ++ more.
Proof.
  intros [S1 S2 S3] [F1 F2 F3] Hv Hm R Hr.
  unfold shows in Hv. destruct (done f) eqn:D; turn_cases Hm R.
  all: simplify_eq.
  all: try (destruct (F1 eq_refl) as [_ F4]; discriminate F4).
  all: unfold shows; cbn; rewrite ?D.
  all: try (split; [exact Hv | exists []; rewrite ?app_nil_r; split; reflexivity]).
  all: first [destruct Hv as [Ho Hc]; unfold close; rewrite ?Ho; cbn
             | destruct Hv as [-> Hc]; cbn; unfold listeners; cbn; known; cbn].
  all: split; [auto | try (eexists; split; [reflexivity|])].
  all: solve [ reflexivity | split; [solve_lists | assumption] | solve_lists | exists []; rewrite ?app_nil_r; split; [reflexivity | solve_lists] ].
Qed.
(** *** All threads *)

Definition total (g : pc -> nat) (ps : list pc) : nat := list_sum (map g ps).

Lemma total_app (g : pc -> nat) (ps qs : list pc) : total g (ps ++ qs) = (total g ps + total g qs)%nat.
Proof. unfold total. rewrite map_app, list_sum_app. reflexivity. Qed.

Lemma total_cons (g : pc -> nat) p ps : total g (p :: ps) = (g p + total g ps)%nat.
Proof. reflexivity. Qed.

Definition left_over (f : future) (ps : list pc) : list (L + F) := concat (map (remaining f) ps).

Lemma left_over_app (f : future) (ps qs : list pc) : left_over f (ps ++ qs) = left_over f ps ++ left_over f qs.
Proof. unfold left_over. rewrite map_app, concat_app. reflexivity. Qed.

Lemma left_over_cons (f : future) p ps : left_over f (p :: ps) = remaining f p ++ left_over f ps.
Proof. reflexivity. Qed.

(** [n] steps of a run. *)
Record inv (n : Z) (s : state) : Prop := {
  inv_sound : sound n (shared s);
  inv_fits : Forall (fits (shared s)) (threads s);
  inv_busy : (wins (trace s) + total busy (threads s) = if done (shared s) then 1 else 0)%nat;
  inv_wait : Z.of_nat (total in_wait (threads s)) <= waiters (shared s);
  inv_shows : shows (shared s) (view_of (trace s));
  inv_owed : notified (trace s) ++ left_over (shared s) (threads s) ≡ₚ owed (view_of (trace s));
}.

Lemma remaining_free f f' p : busy p = 0%nat -> remaining f' p = remaining f p.
Proof. destruct p; cbn; intros; first [reflexivity | discriminate]. Qed.

(** The other threads, woken or not. *)
Definition wake (b : bool) (p : pc) : pc := if b then woken p else p.

Lemma wake_busy b (p : pc) : busy (wake b p) = busy p.
Proof. destruct b, p; reflexivity. Qed.
Lemma wake_in_wait b (p : pc) : in_wait (wake b p) = in_wait p.
Proof. destruct b, p; reflexivity. Qed.
Lemma wake_remaining b f p : remaining f (wake b p) = remaining f p.
Proof. destruct b, p; reflexivity. Qed.
Lemma wake_placed b p : well_placed (wake b p) = well_placed p.
Proof. destruct b, p; reflexivity. Qed.
Lemma wake_waiting b (p : pc) : is_waiting (wake b p) = negb b && is_waiting p.
Proof. destruct b, p; reflexivity. Qed.

Lemma total_wake b (g : pc -> nat) ps : (forall p, g (wake b p) = g p) -> total g (map (wake b) ps) = total g ps.
Proof. intros H. unfold total. rewrite map_map. f_equal. apply map_ext, H. Qed.

Lemma left_over_wake b f ps : left_over f (map (wake b) ps) = left_over f ps.
Proof. unfold left_over. rewrite map_map. f_equal. apply map_ext. intros. apply wake_remaining. Qed.

Lemma exec_split i a s s' : exec i a s = Some s' ->
  exists ps p qs m, threads s = ps ++ p :: qs /\ turn i a p = Some m /\
    forall o f', m (shared s) = (Ok o, f') ->
      s' = MkState f' (map (wake (notifies o)) ps ++ next_pc o :: map (wake (notifies o)) qs)
             (trace s ++ events o).
Proof.
  unfold exec. destruct (threads s !! i) as [p|] eqn:E1; [|discriminate].
  destruct (turn i a p) as [m|] eqn:E2; [|discriminate]. intros X.
  apply list_elem_of_split_length in E1 as (ps & qs & E1 & ->).
  exists ps, p, qs, m. split; [exact E1|]. split; [exact E2|]. intros o f' Hm.
  rewrite Hm in X. injection X as <-. f_equal. rewrite E1.
  assert (forall b : bool, (if b then map woken (ps ++ p :: qs) else ps ++ p :: qs)
    = map (wake b) ps ++ wake b p :: map (wake b) qs) as ->.
  { intros [|]; [rewrite map_app; reflexivity|]. cbn [wake]. rewrite !map_id. reflexivity. }
  rewrite insert_app_r_alt, length_map, Nat.sub_diag by (rewrite length_map; lia). reflexivity.
Qed.

Lemma total_le (g : pc -> nat) p ps : p ∈ ps -> (g p <= total g ps)%nat.
Proof. induction 1; rewrite total_cons; lia. Qed.

(** A thread that does not take the turn. *)
Lemma other_thread n s p o f' q :
  inv n s -> turned n (shared s) p o f' -> fits (shared s) q ->
  (busy p + busy q <= 1)%nat -> Z.of_nat (in_wait q) <= waiters (shared s) ->
  fits f' (wake (notifies o) q) /\ remaining f' q = remaining (shared s) q.
Proof.
  intros I [T1 T2 T3 T4 T5 T6 T7] [F1 F2 F3] Hb Hw.
  assert (remaining f' q = remaining (shared s) q) as R.
  { destruct (busy q) as [|k] eqn:B; [apply remaining_free, B|].
    apply T7; [lia|]. destruct (done (shared s)); [reflexivity|]. destruct F1 as [_ F1]; [reflexivity | lia]. }
  split; [|exact R]. split.
  - rewrite wake_remaining, wake_busy, R. intros D. apply F1.
    destruct (done (shared s)); [|reflexivity]. rewrite T3 in D by reflexivity. discriminate.
  - rewrite wake_waiting. intros D. destruct (done (shared s)) eqn:D0.
    + rewrite F2 by reflexivity. apply andb_false_r.
    + rewrite T4, D. cbn. destruct (waiters (shared s) >? 0) eqn:W; [reflexivity|].
      destruct q; try reflexivity. cbn in Hw. lia.
  - rewrite wake_placed. exact F3.
Qed.

Lemma other_threads n s p o f' qs :
  inv n s -> turned n (shared s) p o f' -> Forall (fits (shared s)) qs ->
  (busy p + total busy qs <= 1)%nat -> Z.of_nat (total in_wait qs) <= waiters (shared s) ->
  Forall (fits f') (map (wake (notifies o)) qs) /\ left_over f' qs = left_over (shared s) qs.
Proof.
  intros I T. induction qs as [|q qs IH]; intros Hf Hb Hw; [split; [constructor | reflexivity]|].
  inversion Hf as [|? ? Hq Hqs]; subst. rewrite total_cons in Hb, Hw.
  destruct (other_thread n s p o f' q I T Hq) as [X Y]; [lia.. |].
  destruct IH as [X2 Y2]; [assumption | lia.. |].
  rewrite !left_over_cons, Y, Y2. split; [constructor; assumption | reflexivity].
Qed.

Lemma view_of_app es es' : view_of (es ++ es') = view_after (view_of es) es'.
Proof. apply fold_left_app. Qed.

Lemma reorder {A} (t n ps p q qs more : list A) :
  n ++ q = p ++ more -> (t ++ n) ++ ps ++ q ++ qs ≡ₚ (t ++ ps ++ p ++ qs) ++ more.
Proof.
  intros H. transitivity (t ++ ps ++ (n ++ q) ++ qs); [solve_Permutation|]. rewrite H. solve_Permutation.
Qed.

Lemma notified_app es es' : notified (es ++ es') = notified es ++ notified es'.
Proof. apply omap_app. Qed.

Lemma wins_app es es' : wins (es ++ es') = (wins es + wins es')%nat.
Proof. unfold wins. rewrite List.filter_app, length_app. reflexivity. Qed.

Lemma exec_inv n i a s s' : inv n s -> 0 <= n < INT_MAX -> exec i a s = Some s' -> inv (n + 1) s'.
Proof.
  intros I Hn X. destruct (exec_split i a s s' X) as (ps & p & qs & m & Hs & Hm & Hs').
  pose proof I as [I1 I2 I3 I4 I5 I6].
  rewrite Hs in I2, I3, I4, I6. apply Forall_app in I2 as [Fp Fq]. inversion Fq as [|? ? Fp0 Fq0]; subst.
  rewrite total_app, total_cons in I3, I4. rewrite left_over_app, left_over_cons in I6.
  destruct (m (shared s)) as [r f'] eqn:R.
  destruct (turn_ok n i a p m _ _ _ I1 Fp0 Hn ltac:(lia) Hm R) as (o & -> & T).
  destruct (turn_view n i a p m _ _ _ o _ I1 Fp0 I5 Hm R eq_refl) as (V & more & Hmore & Hn2).
  specialize (Hs' o f' eq_refl). subst s'.
  assert (busy p + (total busy ps + total busy qs) <= 1)%nat as Hb by (destruct (done (shared s)); lia).
  destruct (other_threads n s p o f' ps I T Fp ltac:(lia) ltac:(lia)) as [Fp' Rp].
  destruct (other_threads n s p o f' qs I T Fq0 ltac:(lia) ltac:(lia)) as [Fq' Rq].
  destruct T as [T1 T2 T3 T4 T5 T6 T7].
  split; cbn [shared threads trace].
  - exact T1.
  - apply Forall_app. split; [exact Fp' | constructor; assumption].
  - rewrite total_app, total_cons, wins_app, !total_wake by (intros; apply wake_busy).
    unfold completed in T5. destruct (done (shared s)); [rewrite T3 in * by reflexivity|]; cbn in T5;
      [lia|]. destruct (done f'); cbn in T5; lia.
  - rewrite total_app, total_cons, !total_wake by (intros; apply wake_in_wait). lia.
  - rewrite view_of_app. exact V.
  - rewrite view_of_app, Hmore, notified_app, left_over_app, left_over_cons, !left_over_wake, Rp, Rq, <- I6.
    apply reorder, Hn2.
Qed.

(** *** Runs *)

Lemma inv_initial c k : inv 0 (initial c k).
Proof.
  unfold initial. split; cbn [shared threads trace].
  - split; cbn; auto; try discriminate; lia.
  - apply List.Forall_forall. intros p Hp. apply repeat_spec in Hp. subst p.
    split; cbn; auto.
  - induction k as [|k IH]; [reflexivity|]. exact IH.
  - induction k as [|k IH]; [reflexivity|]. exact IH.
  - split; reflexivity.
  - induction k as [|k IH]; [constructor|]. exact IH.
Qed.

Lemma run_inv c k n s :
  nsteps step n (initial c k) s -> Z.of_nat n < INT_MAX -> inv (Z.of_nat n) s.
Proof.
  revert s. induction n as [|n IH]; intros s Hr Hn.
  - inversion Hr; subst. apply inv_initial.
  - apply nsteps_inv_r in Hr as (s0 & Hr & [i a X]).
    rewrite Nat2Z.inj_succ. apply (exec_inv (Z.of_nat n) i a s0 s); [apply IH; [exact Hr | lia] | lia | exact X].
Qed.

(** What tells that the future is complete. *)
Definition claims_done (e : event) : bool :=
  match e with
  | Returned _ (Await | AwaitUninterruptibly) VVoid => true
  | Returned _ (AwaitFor _ | AwaitUninterruptiblyFor _ | IsDone | IsSuccess) (VBool true) => true
  | _ => false
  end.

Lemma turn_claims i a p m f r f' o :
  fits f p -> turn i a p = Some m -> m f = (r, f') -> r = Ok o ->
  existsb claims_done (events o) = true -> done f' = true.
Proof.
  intros [F1 F2 F3] Hm R Hr. unfold isDone, isSuccess in *.
  destruct (done f) eqn:D; turn_cases Hm R.
  all: simplify_eq; cbn; rewrite ?D; try reflexivity; try discriminate.
  all: unfold isDone, isSuccess; rewrite ?D; cbn; try discriminate.
  all: destruct (F1 eq_refl) as [F4 F5]; discriminate.
Qed.

(** *** The turn of a run *)

Lemma exec_turn n i a s s' : inv n s -> 0 <= n < INT_MAX -> exec i a s = Some s' ->
  exists p o f' ps qs, threads s = ps ++ p :: qs /\ turned n (shared s) p o f' /\
    (existsb claims_done (events o) = true -> done f' = true) /\
    s' = MkState f' (map (wake (notifies o)) ps ++ next_pc o :: map (wake (notifies o)) qs)
           (trace s ++ events o).
Proof.
  intros I Hn X. destruct (exec_split i a s s' X) as (ps & p & qs & m & Hs & Hm & Hs').
  destruct I as [I1 I2 _ I4 _ _]. rewrite Hs in I2, I4.
  apply Forall_app in I2 as [_ Fq]. apply Forall_inv in Fq. rewrite total_app, total_cons in I4.
  destruct (m (shared s)) as [r f'] eqn:R.
  destruct (turn_ok n i a p m _ _ _ I1 Fq Hn ltac:(lia) Hm R) as (o & -> & T).
  exists p, o, f', ps, qs. split; [exact Hs|]. split; [exact T|].
  split; [apply (turn_claims i a p m _ _ _ o Fq Hm R eq_refl) | apply Hs', eq_refl].
Qed.

Lemma run_claims c k n s :
  nsteps step n (initial c k) s -> Z.of_nat n < INT_MAX ->
  existsb claims_done (trace s) = true -> done (shared s) = true.
Proof.
  revert s. induction n as [|n IH]; intros s Hr Hn.
  - inversion Hr; subst. discriminate.
  - apply nsteps_inv_r in Hr as (s0 & Hr & [i a X]).
    destruct (exec_turn (Z.of_nat n) i a s0 s) as (p & o & f' & ps & qs & _ & T & Hc & ->);
      [apply (run_inv c k); [exact Hr | lia] | lia | exact X |].
    cbn [trace shared]. rewrite existsb_app, orb_true_iff. intros [H|H]; [|apply Hc, H].
    apply T, IH; [exact Hr | lia | exact H].
Qed.

(** *** The theorems *)

(** C14: in every run of any number of threads a future is completed at most once:
    at most one call returns to have completed it; its cause is that of the first
    completion that was entered; no turn is undefined; a call that tells of the
    completion is not mistaken. *)
Theorem future_completes_once (c : bool) (k n : nat) (s : state) :
  nsteps step n (initial c k) s -> Z.of_nat n < INT_MAX ->
  (wins (trace s) <= (if done (shared s) then 1 else 0))%nat /\
  open (view_of (trace s)) = negb (done (shared s)) /\
  cause (shared s) = outcome_of (view_of (trace s)) /\
  (Crashed ∉ threads s) /\
  (existsb claims_done (trace s) = true -> done (shared s) = true).
Proof.
  intros Hr Hn. destruct (run_inv c k n s Hr Hn) as [_ I2 I3 _ I5 _].
  split; [lia|]. unfold shows in I5. destruct (done (shared s)) eqn:D.
  - destruct I5 as [-> <-]. repeat split; auto.
    intros Hc%list_elem_of_In. rewrite List.Forall_forall in I2. destruct (I2 _ Hc) as [_ _ X]. discriminate.
  - destruct I5 as [-> ->]. repeat split; auto.
    + intros Hc%list_elem_of_In. rewrite List.Forall_forall in I2. destruct (I2 _ Hc) as [_ _ X]. discriminate.
    + rewrite <- D. apply (run_claims c k n s Hr Hn).
Qed.

Definition settled (p : pc) : bool :=
  match p with NotifyingNow _ _ => false | p => (busy p =? 0)%nat end.

Lemma settled_remaining f ps : Forall (fun p => settled p = true) ps -> left_over f ps = [].
Proof.
  induction 1 as [|p ps Hp _ IH]; [reflexivity|]. rewrite left_over_cons, IH, app_nil_r.
  destruct p; try discriminate Hp; reflexivity.
Qed.

(** C13: the listeners are told nothing before the completion, and once the
    threads that tell them are done each was told as often as a future that is used
    by one thread tells it, in whatever order the calls of the threads are
    interleaved. *)
Theorem listeners_told_once (c : bool) (k n : nat) (s : state) :
  nsteps step n (initial c k) s -> Z.of_nat n < INT_MAX ->
  (done (shared s) = false -> notified (trace s) = []) /\
  (Forall (fun p => settled p = true) (threads s) ->
    notified (trace s) ≡ₚ owed (view_of (trace s))).
Proof.
  intros Hr Hn. destruct (run_inv c k n s Hr Hn) as [_ _ _ _ I5 I6]. split.
  - intros D. unfold shows in I5. rewrite D in I5. destruct I5 as [I5 _]. rewrite I5 in I6. cbn in I6.
    symmetry in I6. apply Permutation_nil, app_eq_nil in I6. apply I6.
  - intros Hs. rewrite settled_remaining, app_nil_r in I6 by exact Hs. exact I6.
Qed.

(** *** Completion lets every call return *)

(** The turns a thread has left once the future is complete. *)
Definition turns_left (f : future) (p : pc) : nat :=
  match p with
  | Idle | Crashed => 0
  | Locking _ | Waiting _ => 2
  | NotifyingNow _ _ | Woken _ _ | NotifyingFunction _ => 1
  | NotifyingFirst _ => length (elems (otherListeners f)) + 3
  | NotifyingOthers _ k => length (elems (otherListeners f)) - k + 2
  | Progressing _ _ _ rest => S (length rest)
  end.

Definition work (s : state) : nat := total (turns_left (shared s)) (threads s).

Definition starts (a : action E L F) : bool := match a with Start _ => true | _ => false end.

(** A step in which no thread starts a call. *)
Inductive quiet (s s' : state) : Prop :=
  | Quiet (i : nat) (a : action E L F) (E0 : exec i a s = Some s') (E1 : starts a = false).

Lemma turn_left i a p m f r f' o :
  done f = true -> fits f p -> starts a = false ->
  turn i a p = Some m -> m f = (r, f') -> r = Ok o ->
  (turns_left f' (next_pc o) < turns_left f p)%nat /\ otherListeners f' = otherListeners f /\
  done f' = true /\ notifies o = false.
Proof.
  intros D [F1 F2 F3] Ha Hm R Hr. specialize (F2 D).
  turn_cases Hm R.
  all: simplify_eq; cbn in *; try discriminate; rewrite ?D; try (repeat split; lia).
  all: apply lookup_lt_Some in Heqo0; repeat split; lia.
Qed.

Lemma turns_left_same f f' p : otherListeners f' = otherListeners f -> turns_left f' p = turns_left f p.
Proof. destruct p; cbn; intros H; rewrite ?H; reflexivity. Qed.

Lemma total_ext (g h : pc -> nat) ps : (forall p, g p = h p) -> total g ps = total h ps.
Proof. intros H. unfold total. f_equal. apply map_ext, H. Qed.

Lemma quiet_work n s s' : inv n s -> 0 <= n < INT_MAX -> done (shared s) = true -> quiet s s' ->
  (work s' < work s)%nat /\ done (shared s') = true.
Proof.
  intros I Hn D [i a X Ha].
  destruct (exec_split i a s s' X) as (ps & p & qs & m & Hs & Hm & Hs').
  destruct I as [I1 I2 _ I4 _ _]. rewrite Hs in I2, I4.
  apply Forall_app in I2 as [_ Fq]. apply Forall_inv in Fq. rewrite total_app, total_cons in I4.
  destruct (m (shared s)) as [r f'] eqn:R.
  destruct (turn_ok n i a p m _ _ _ I1 Fq Hn ltac:(lia) Hm R) as (o & -> & _).
  destruct (turn_left i a p m _ _ _ o D Fq Ha Hm R eq_refl) as (Hlt & Ho & D' & Hw).
  rewrite (Hs' o f' eq_refl). unfold work. cbn [shared threads]. rewrite Hw, Hs.
  unfold wake. rewrite !map_id. split; [|exact D'].
  rewrite !total_app, !total_cons.
  rewrite !(total_ext (turns_left f') (turns_left (shared s))) by (intros; apply turns_left_same, Ho). lia.
Qed.

Lemma quiet_step s s' : quiet s s' -> step s s'.
Proof. intros [i a X _]. exact (Step _ _ i a X). Qed.

Lemma can_go i f p : fits f p -> done f = true -> p <> Idle -> is_Some (turn i Go p).
Proof.
  intros [_ F2 F3] D Hne. specialize (F2 D).
  destruct p; try discriminate; try contradiction; cbn; try (eexists; reflexivity).
  - destruct c; eexists; reflexivity.
  - destruct rest; eexists; reflexivity.
Qed.

Lemma exec_go n s i p : inv n s -> done (shared s) = true -> threads s !! i = Some p -> p <> Idle ->
  is_Some (exec i Go s).
Proof.
  intros I D Hp Hne. destruct I as [_ I2 _ _ _ _]. rewrite Forall_lookup in I2.
  destruct (can_go i (shared s) p (I2 i p Hp) D Hne) as [m Hm].
  unfold exec. rewrite Hp, Hm. destruct (m (shared s)) as [[o|e] f']; eexists; reflexivity.
Qed.

(** C15: once a future is complete every thread that is in a call can go on, and
    without new calls the runs are finite: [work] bounds their length.  So every call
    returns, the waits among them. *)
Theorem completion_releases (c : bool) (k n m : nat) (s s' : state) :
  nsteps step n (initial c k) s -> done (shared s) = true ->
  nsteps quiet m s s' -> Z.of_nat (n + m) < INT_MAX ->
  (m + work s' <= work s)%nat /\
  forall i p, threads s' !! i = Some p -> p <> Idle -> is_Some (exec i Go s').
Proof.
  intros Hr D Hq Hn.
  assert ((m + work s' <= work s)%nat /\ done (shared s') = true /\
    exists n', nsteps step n' (initial c k) s' /\ Z.of_nat n' < INT_MAX) as (Hw & D' & n' & Hr' & Hn').
  { revert n Hr Hn D. induction Hq as [s|m s s1 s' Hq1 Hq IH]; intros n Hr Hn D.
    - split; [lia|]. split; [exact D|]. exists n. split; [exact Hr | lia].
    - destruct (quiet_work (Z.of_nat n) s s1) as [Hw D1];
        [apply (run_inv c k); [exact Hr | lia] | lia | exact D | exact Hq1 |].
      destruct (IH (S n)) as (Hw' & D' & X); [apply nsteps_r with s, quiet_step; assumption | lia | exact D1 |].
      split; [lia|]. split; assumption. }
  split; [exact Hw|]. intros i p Hp Hne.
  apply (exec_go (Z.of_nat n') s' i p); [apply (run_inv c k); assumption | assumption..].
Qed.

(** *** Schedules *)

Lemma execAll_steps sched (s s' : state) :
  execAll sched s = Some s' -> nsteps step (length sched) s s'.
Proof.
  revert s. induction sched as [|[i a] sched IH]; intros s X; cbn [execAll] in X.
  - injection X as <-. constructor.
  - destruct (exec i a s) as [s1|] eqn:X1; [|discriminate].
    cbn [length]. econstructor; [exact (Step _ _ i a X1) | apply IH, X].
Qed.

Lemma execAll_quiet sched (s s' : state) :
  forallb (fun x => negb (starts (snd x))) sched = true ->
  execAll sched s = Some s' -> nsteps quiet (length sched) s s'.
Proof.
  revert s. induction sched as [|[i a] sched IH]; intros s Q X; cbn [execAll] in X.
  - injection X as <-. constructor.
  - destruct (exec i a s) as [s1|] eqn:X1; [|discriminate].
    cbn in Q. apply andb_true_iff in Q as [Q1 Q2]. apply negb_true_iff in Q1.
    cbn [length]. econstructor; [exact (Quiet _ _ i a X1 Q1) | apply IH; assumption].
Qed.

(** An interruption does not end [await], nor does it show in the result of the
    timed wait: both [catch(...)] discard it. *)
Lemma await_discards_interruption i (f : future) : done f = false ->
  exists o f', resume i Await true false f = (Ok o, f') /\ next_pc o = Waiting Await.
Proof.
  intros D. unfold resume, await, awaitLoop, dropWaiter, addWaiter, condition, goes.
  mstep. unfold id. cbn. rewrite D. eexists _, _. split; reflexivity.
Qed.

Lemma timed_await_discards_interruption i ms (f : future) :
  exists o f', resume i (AwaitFor ms) true false f = (Ok o, f') /\
    events o = [Returned i (AwaitFor ms) (VBool false)].
Proof. eexists _, _. split; reflexivity. Qed.

End View.

(** ** A concrete run

    Thread 0 attaches two listeners and a function, detaches one, and waits; thread
    1 completes the future; thread 2 attaches a listener after that. *)

#[local] Instance numbers : FutureListener nat := {| isProgressListener := Nat.even |}.

Definition demo_calls : list (nat * action nat nat nat) :=
  [(0, Start (AddListener (Some 1))); (0, Go); (0, Start (AddListener (Some 2))); (0, Go);
   (0, Start (SetListener (Some 3))); (0, Go); (0, Start (RemoveListener (Some 1))); (0, Go);
   (0, Start Await); (0, Go); (1, Start SetSuccess); (1, Go);
   (2, Start (AddListener (Some 4))); (2, Go)]%nat.
Definition demo_rest : list (nat * action nat nat nat) :=
  [(2, Go); (0, Go); (1, Go); (1, Go); (1, Go)]%nat.

Definition played (sched : list (nat * action nat nat nat)) (s : DefaultChannelFuture.state nat nat nat) :=
  match execAll sched s with Some s => s | None => s end.
Definition demo_complete := played demo_calls (initial true 3).
Definition demo_end := played demo_rest demo_complete.

Lemma demo_end_steps : nsteps step (length (demo_calls ++ demo_rest)) (initial true 3) demo_end.
Proof. apply execAll_steps. vm_compute. reflexivity. Qed.
Lemma demo_complete_steps : nsteps step (length demo_calls) (initial true 3) demo_complete.
Proof. apply execAll_steps. vm_compute. reflexivity. Qed.
Lemma demo_quiet_steps : nsteps quiet (length demo_rest) demo_complete demo_end.
Proof. apply execAll_quiet; vm_compute; reflexivity. Qed.

Lemma future_completes_once_witness :
  (wins (trace demo_end) <= 1)%nat /\ existsb claims_done (trace demo_end) = true /\
  cause (shared demo_end) = None.
Proof.
  destruct (future_completes_once true 3 _ demo_end demo_end_steps ltac:(vm_compute; reflexivity))
    as (H1 & _ & H2 & _).
  split; [vm_compute in H1 |- *; exact H1|]. split; [|rewrite H2]; vm_compute; reflexivity.
Defined.

Lemma listeners_told_once_witness :
  Permutation (notified (trace demo_end)) [inl 2; inr 3; inl 4]%nat.
Proof.
  destruct (listeners_told_once true 3 _ demo_end demo_end_steps ltac:(vm_compute; reflexivity)) as [_ H].
  vm_compute in H |- *. apply H. repeat constructor.
Defined.

Lemma completion_releases_witness :
  (5 + work demo_end <= work demo_complete)%nat /\ threads demo_end = [Idle; Idle; Idle].
Proof.
  destruct (completion_releases true 3 _ (length demo_rest) demo_complete demo_end demo_complete_steps
    ltac:(vm_compute; reflexivity) demo_quiet_steps ltac:(vm_compute; reflexivity)) as [H _].
  split; [exact H | vm_compute; reflexivity].
Defined.
