(* ===== verification/Text.v ===== *)
(** * Text

    A [std::string] as the sequence of its [char]s, what the code uses of the
    standard library on it, and the conversions of [Integer] and [Character]
    ([src/include/cetty/util]). *)

From Stdlib Require Import Strings.String Strings.Ascii.
From S2P Require Import Prelude MachineInt.

(** A string of chars, each of them an integer of the interval \[-128, 127\]. *)
Definition text : Type := list Z.

(** The literals of the code. *)
Fixpoint str (s : string) : text :=
  match s with
  | EmptyString => []
  | String a s => i8 (Z.of_nat (nat_of_ascii a)) :: str s
  end.

(** [==] of strings. *)
Fixpoint text_eqb (a b : text) : bool :=
  match a, b with
  | [], [] => true
  | x :: a, y :: b => (x =? y) && text_eqb a b
  | _, _ => false
  end.

Lemma text_eqb_eq a b : text_eqb a b = true <-> a = b.
Proof.
  revert b. induction a as [|x a IH]; intros [|y b]; cbn; try (split; [discriminate|congruence]); [tauto|].
  rewrite andb_true_iff, Z.eqb_eq, IH. split; [intros [-> ->]; reflexivity | intros [= -> ->]; auto].
Qed.

Lemma text_eqb_refl a : text_eqb a a = true.
Proof. apply text_eqb_eq. reflexivity. Qed.

(** [empty()]. *)
Definition is_empty {A} (s : list A) : bool := match s with [] => true | _ => false end.

(** [find(char, size_type)]: the first position from [pos] on that holds [c]. *)
Fixpoint find_from (c : Z) (s : text) (at_ : Z) : option Z :=
  match s with
  | [] => None
  | x :: s => if x =? c then Some at_ else find_from c s (at_ + 1)
  end.
Definition find (c : Z) (pos : Z) (s : text) : option Z := find_from c (drop (Z.to_nat pos) s) pos.

(** [substr(pos)] and [substr(pos, n)]: a position behind the end throws
    [std::out_of_range]. *)
Definition substr (pos n : Z) (s : text) : result text :=
  if zlen s <? pos then Err LengthError else Ok (take (Z.to_nat n) (drop (Z.to_nat pos) s)).
Definition substr_from (pos : Z) (s : text) : result text := substr pos (zlen s) s.

(** [compare] of [std::string]: the order of the chars as unsigned bytes; the
    sign is what the standard specifies of the result. *)
Fixpoint compare (a b : text) : Z :=
  match a, b with
  | [], [] => 0
  | [], _ => -1
  | _, [] => 1
  | x :: a, y :: b => if u8 x <? u8 y then -1 else if u8 y <? u8 x then 1 else compare a b
  end.

(** ** Character

    The classification of the C locale: chars that are not ASCII belong to no
    class. *)
Module Character.
Definition isISOControl (ch : Z) : bool := ((0 <=? ch) && (ch <=? 31)) || (ch =? 127).
Definition isWhitespace (ch : Z) : bool := ((9 <=? ch) && (ch <=? 13)) || (ch =? 32).
Definition isDigit (ch : Z) : bool := (48 <=? ch) && (ch <=? 57).
Definition isHex (ch : Z) : bool :=
  ((48 <=? ch) && (ch <=? 57)) || ((97 <=? ch) && (ch <=? 102)) || ((65 <=? ch) && (ch <=? 70)).
End Character.

(** ** Integer *)

Module Integer.

(** [%d] and [%X] of [sprintf], for the digits of a number below [base ^ fuel]. *)
Definition digit (d : Z) : Z := if d <? 10 then 48 + d else 55 + d.
Fixpoint digits (base : Z) (fuel : nat) (n : Z) : text :=
  match fuel with
  | O => []
  | S fuel => (if n <? base then [] else digits base fuel (n / base)) ++ [digit (n mod base)]
  end.

Definition toString (i : Z) : text := if i <? 0 then 45 :: digits 10 10 (- i) else digits 10 10 i.
Definition append (s : text) (i : Z) : text := s ++ toString i.
Definition appendHex (s : text) (i : Z) : text := s ++ digits 16 8 (u32 i).
Definition toHexString (i : Z) : text := appendHex [] i.

(** [atoi]: white space, a sign, and the digits up to the first char that is
    not one; a value that does not fit an [int] is undefined. *)
Fixpoint skipSpace (s : text) : text :=
  match s with
  | c :: s' => if Character.isWhitespace c then skipSpace s' else s
  | [] => []
  end.
Fixpoint readDigits (acc : Z) (s : text) : Z :=
  match s with
  | c :: s => if Character.isDigit c then readDigits (10 * acc + (c - 48)) s else acc
  | [] => acc
  end.
Definition atoi (s : text) : result Z :=
  let v := match skipSpace s with
           | c :: s => if c =? 45 then - readDigits 0 s
                       else if c =? 43 then readDigits 0 s else readDigits 0 (c :: s)
           | [] => 0
           end in
  if (INT_MIN <=? v) && (v <=? INT_MAX) then Ok v else Err Undefined.

Definition parse (s : text) : result Z := atoi s.

(** [sscanf(s, "%x%c", &value, &temp) == 1]: white space, a sign, [0x], hex digits,
    and nothing behind them.  A value that does not fit an [unsigned] is
    undefined. *)
Definition hexDigit (c : Z) : Z := if c <=? 57 then c - 48 else if c <=? 70 then c - 55 else c - 87.
Fixpoint readHex (acc : Z) (s : text) : Z * text :=
  match s with
  | c :: s' => if Character.isHex c then readHex (16 * acc + hexDigit c) s' else (acc, s)
  | [] => (acc, [])
  end.
Definition hexPrefix (s : text) : text :=
  match s with
  | 48 :: 120 :: s' | 48 :: 88 :: s' => s'
  | _ => s
  end.
Definition tryParseHex (s : text) : result (option Z) :=
  let s := skipSpace s in
  let '(negative, s) :=
    match s with
    | 45 :: s' => (true, s')
    | 43 :: s' => (false, s')
    | _ => (false, s)
    end in
  match hexPrefix s with
  | c :: s' =>
      if Character.isHex c then
        let '(v, rest) := readHex 0 (c :: s') in
        if negb (is_empty rest) then Ok None
        else if v >? 4294967295 then Err Undefined
        else Ok (Some (if negative : bool then u32 (- v) else v))
      else Ok None
  | [] => Ok None
  end.

(** [sscanf(s, "%d%c", &value, &temp) == 1], on the C string: white space, a sign,
    digits, and nothing behind them. *)
Fixpoint c_str (s : text) : text :=
  match s with
  | c :: s => if c =? 0 then [] else c :: c_str s
  | [] => []
  end.
Fixpoint scanDigits (acc : Z) (s : text) : Z * text :=
  match s with
  | c :: s' => if Character.isDigit c then scanDigits (10 * acc + (c - 48)) s' else (acc, s)
  | [] => (acc, [])
  end.
Definition tryParse (s : text) : result (option Z) :=
  let s := skipSpace (c_str s) in
  let '(negative, s) :=
    match s with
    | 45 :: s' => (true, s')
    | 43 :: s' => (false, s')
    | _ => (false, s)
    end in
  match s with
  | c :: s' =>
      if Character.isDigit c then
        let '(v, rest) := scanDigits 0 (c :: s') in
        let v := if negative : bool then - v else v in
        if negb (is_empty rest) then Ok None
        else if (INT_MIN <=? v) && (v <=? INT_MAX) then Ok (Some v) else Err Undefined
      else Ok None
  | [] => Ok None
  end.

(** [append(str, value, width, zeroPadded)]: the fields [%*d] and [%0*d]. *)
Definition padding (n : Z) (c : Z) : text := repeat c (Z.to_nat n).
Definition append_width (s : text) (value width : Z) (zeroPadded : bool) : result text :=
  if negb ((width >? 0) && (width <? 64)) then Err Undefined
  else
    let d := toString value in
    let n := width - zlen d in
    Ok (s ++ if negb zeroPadded then padding n 32 ++ d
             else if value <? 0 then 45 :: padding n 48 ++ toString (- value) else padding n 48 ++ d).

(** [toHexString(i, width, zeroPadded)]: the call has three arguments, and so the
    width is the number that is appended and [zeroPadded] its width. *)
Definition toHexString_width (i width : Z) (zeroPadded : bool) : result text :=
  append_width [] width (if zeroPadded then 1 else 0) false.

(** [parse(s, 16)]. *)
Definition parseHex (s : text) : result Z :=
  let? v := tryParseHex s in
  match v with Some v => Ok (i32 v) | None => Err SyntaxException end.

(** *** What is printed is read back *)

Lemma digit_isDigit d : 0 <= d < 10 -> Character.isDigit (digit d) = true /\ digit d = 48 + d.
Proof.
  intros Hd. unfold digit. destruct (d <? 10) eqn:E; zbool; [|lia]. split; [|reflexivity].
  unfold Character.isDigit. apply andb_true_iff. split; apply Z.leb_le; lia.
Qed.

Lemma readDigits_app a b acc :
  forallb Character.isDigit a = true -> readDigits acc (a ++ b) = readDigits (readDigits acc a) b.
Proof.
  revert acc. induction a as [|c a IH]; intros acc H; [reflexivity|].
  cbn in *. apply andb_true_iff in H as [Hc H]. rewrite Hc. apply IH, H.
Qed.

Lemma digits_digits fuel n : 0 <= n -> forallb Character.isDigit (digits 10 fuel n) = true.
Proof.
  revert n. induction fuel as [|fuel IH]; intros n Hn; [reflexivity|].
  cbn [digits]. pose proof (Z.mod_pos_bound n 10). rewrite forallb_app. apply andb_true_iff. split.
  - destruct (n <? 10); [reflexivity|]. apply IH, Z.div_pos; lia.
  - cbn. rewrite (proj1 (digit_isDigit (n mod 10) ltac:(lia))). reflexivity.
Qed.

Lemma readDigits_digits fuel n : 0 <= n < 10 ^ Z.of_nat fuel -> readDigits 0 (digits 10 fuel n) = n.
Proof.
  revert n. induction fuel as [|fuel IH]; intros n Hn; [cbn in *; lia|].
  cbn [digits]. pose proof (Z.mod_pos_bound n 10 ltac:(lia)) as Hm.
  pose proof (Z_div_mod_eq_full n 10) as Hdm.
  rewrite Nat2Z.inj_succ, Z.pow_succ_r in Hn by lia.
  assert (forall a, readDigits a [digit (n mod 10)] = 10 * a + n mod 10) as Hlast.
  { intros a. cbn. destruct (digit_isDigit (n mod 10) ltac:(lia)) as [-> ->]. lia. }
  destruct (n <? 10) eqn:E; zbool; cbn [app].
  - rewrite Hlast. rewrite Z.mod_small by lia. lia.
  - rewrite readDigits_app, Hlast, IH; [lia | | apply digits_digits, Z.div_pos; lia].
    split; [apply Z.div_pos; lia | apply Z.div_lt_upper_bound; lia].
Qed.

Lemma digits_head fuel n : 0 <= n -> exists c s, digits 10 (S fuel) n = c :: s /\ Character.isDigit c = true.
Proof.
  intros Hn. pose proof (digits_digits (S fuel) n Hn) as H.
  destruct (digits 10 (S fuel) n) as [|c s] eqn:E.
  - cbn [digits] in E. destruct (if n <? 10 then _ else _); discriminate.
  - exists c, s. cbn in H. apply andb_true_iff in H as [H _]. auto.
Qed.

(** A digit is neither white space nor a sign. *)
Lemma digit_first c : Character.isDigit c = true ->
  Character.isWhitespace c = false /\ (c =? 45) = false /\ (c =? 43) = false.
Proof.
  unfold Character.isDigit, Character.isWhitespace. intros H. apply andb_true_iff in H as [H1 H2]. zbool.
  rewrite !(proj2 (Z.eqb_neq _ _)) by lia. rewrite orb_false_r. split; [|auto].
  apply andb_false_iff. right. apply Z.leb_gt. lia.
Qed.

Lemma parse_digits n : 0 <= n <= INT_MAX -> parse (digits 10 10 n) = Ok n.
Proof.
  intros Hn. destruct (digits_head 9 n) as (c & s & E & Hc); [lia|].
  pose proof (readDigits_digits 10 n) as Hr. unfold INT_MAX in Hn.
  change (10 ^ Z.of_nat 10) with 10000000000 in Hr. specialize (Hr ltac:(lia)).
  destruct (digit_first c Hc) as (H1 & H2 & H3).
  unfold parse, atoi. rewrite E in *. cbn [skipSpace]. rewrite H1, H2, H3, Hr.
  unfold INT_MIN, INT_MAX. zif. reflexivity.
Qed.

Lemma scanDigits_digits s : forallb Character.isDigit s = true -> forall acc, scanDigits acc s = (readDigits acc s, []).
Proof.
  induction s as [|c s IH]; intros H acc; [reflexivity|]. cbn in *. apply andb_true_iff in H as [-> H]. apply IH, H.
Qed.

Lemma c_str_digits s : forallb Character.isDigit s = true -> c_str s = s.
Proof.
  induction s as [|c s IH]; intros H; [reflexivity|]. cbn in *. apply andb_true_iff in H as [Hc H].
  rewrite IH by exact H. destruct (c =? 0) eqn:E; [|reflexivity]. zbool. subst. discriminate.
Qed.

Lemma tryParse_digits n : 0 <= n <= INT_MAX -> tryParse (digits 10 10 n) = Ok (Some n).
Proof.
  intros Hn. pose proof (digits_digits 10 n ltac:(lia)) as Hd. destruct (digits_head 9 n) as (c & s & E & Hc); [lia|].
  pose proof (readDigits_digits 10 n) as Hr. unfold INT_MAX in Hn. change (10 ^ Z.of_nat 10) with 10000000000 in Hr. specialize (Hr ltac:(lia)).
  destruct (digit_first c Hc) as (H1 & H2 & H3). unfold tryParse. rewrite c_str_digits by exact Hd. rewrite E in *. cbn [skipSpace]. rewrite H1.
  assert (c = 48 \/ c = 49 \/ c = 50 \/ c = 51 \/ c = 52 \/ c = 53 \/ c = 54 \/ c = 55 \/ c = 56 \/ c = 57) as Hcs
    by (unfold Character.isDigit in Hc; apply andb_true_iff in Hc as [L U]; zbool; lia).
  pose proof (scanDigits_digits (c :: s) Hd 0) as Hs. rewrite Hr in Hs.
  repeat destruct Hcs as [Hcs|Hcs]; subst c; cbv beta iota zeta; rewrite Hc, Hs; cbn [is_empty negb];
    unfold INT_MIN, INT_MAX; rewrite !(proj2 (Z.leb_le _ _)) by lia; reflexivity.
Qed.

(** Every int is printed in a way that reads back as the same int. *)
Theorem parse_toString (i : Z) : is_i32 i -> parse (toString i) = Ok i.
Proof.
  intros Hi. unfold toString. destruct (i <? 0) eqn:E; zbool; [|apply parse_digits; solve_range].
  unfold parse, atoi. cbn [skipSpace]. change (Character.isWhitespace 45) with false.
  cbv iota. change (45 =? 45) with true. cbv iota.
  rewrite readDigits_digits by (change (10 ^ Z.of_nat 10) with 10000000000; solve_range). rewrite Z.opp_involutive.
  unfold INT_MIN, INT_MAX. unfold is_signed in Hi. cbn in Hi. zif. reflexivity.
Qed.

Lemma parse_toString_witness : is_i32 (-2147483648) /\ parse (toString (-2147483648)) = Ok (-2147483648).
Proof. split; [solve_range | apply (parse_toString (-2147483648)); solve_range]. Defined.

End Integer.

(** ** The string algorithms of Boost

    What the code uses of [boost::algorithm], with the documented behaviour it
    relies on: [trim_copy] removes white space at both ends, [to_upper] maps the
    chars, [iequals] compares without regard to case. *)
Class StringAlgorithms := {
  trim_copy : text -> text;
  to_upper : text -> text;
  iequals : text -> text -> bool;
}.

Class StringAlgorithmsLaws `{SA : StringAlgorithms} := {
  to_upper_map s : exists up, to_upper s = map up s /\ forall c, Character.isDigit c = true \/ c = 46 \/ c = 47 -> up c = c;
  upper_trim_idem s : to_upper (trim_copy (to_upper (trim_copy s))) = to_upper (trim_copy s);
  iequals_upper a b : iequals a b = true <-> to_upper a = to_upper b;
}.

(** The C locale. *)
Definition toupper (c : Z) : Z := if (97 <=? c) && (c <=? 122) then c - 32 else c.
Definition cLocale : StringAlgorithms := {|
  trim_copy s := rev (Integer.skipSpace (rev (Integer.skipSpace s)));
  to_upper := map toupper;
  iequals a b := text_eqb (map toupper a) (map toupper b);
|}.

(** *** The C locale has the documented behaviour *)

Definition trim (s : text) : text := rev (Integer.skipSpace (rev (Integer.skipSpace s))).

Definition starts_plain (s : text) : Prop := forall c s', s = c :: s' -> Character.isWhitespace c = false.

Lemma skipSpace_plain s : starts_plain (Integer.skipSpace s).
Proof.
  induction s as [|c s IH]; intros d s' H; cbn in *; [discriminate|].
  destruct (Character.isWhitespace c) eqn:E; [exact (IH _ _ H)|]. congruence.
Qed.

Lemma skipSpace_id s : starts_plain s -> Integer.skipSpace s = s.
Proof. destruct s as [|c s]; intros H; [reflexivity|]. cbn. rewrite (H c s eq_refl). reflexivity. Qed.

Lemma skipSpace_suffix s : exists p, s = p ++ Integer.skipSpace s.
Proof.
  induction s as [|c s [p IH]]; [exists []; reflexivity|]. cbn.
  destruct (Character.isWhitespace c); [exists (c :: p); cbn; congruence | exists []; reflexivity].
Qed.

Lemma trim_idem s : trim (trim s) = trim s.
Proof.
  unfold trim at 1. rewrite (skipSpace_id (trim s)).
  - unfold trim. rewrite rev_involutive, (skipSpace_id (Integer.skipSpace _)) by apply skipSpace_plain. reflexivity.
  - intros c s' E. unfold trim in E.
    destruct (skipSpace_suffix (rev (Integer.skipSpace s))) as [p Hp].
    apply (f_equal (@rev Z)) in Hp. rewrite rev_involutive, rev_app_distr, E in Hp.
    exact (skipSpace_plain s c _ Hp).
Qed.

Lemma toupper_whitespace c : Character.isWhitespace (toupper c) = Character.isWhitespace c.
Proof.
  unfold toupper. destruct ((97 <=? c) && (c <=? 122)) eqn:E; [|reflexivity].
  apply andb_true_iff in E as [H1 H2]. zbool. unfold Character.isWhitespace.
  rewrite !(proj2 (Z.leb_gt _ 13)) by lia. rewrite !(proj2 (Z.eqb_neq _ _)) by lia. rewrite !andb_false_r. reflexivity.
Qed.

Lemma toupper_idem c : toupper (toupper c) = toupper c.
Proof.
  unfold toupper at 2 3. destruct ((97 <=? c) && (c <=? 122)) eqn:E; unfold toupper; [|rewrite E; reflexivity].
  apply andb_true_iff in E as [H1 H2]. zbool. rewrite (proj2 (Z.leb_gt 97 (c - 32))) by lia. reflexivity.
Qed.

Lemma skipSpace_upper s : Integer.skipSpace (map toupper s) = map toupper (Integer.skipSpace s).
Proof.
  induction s as [|c s IH]; [reflexivity|]. cbn. rewrite toupper_whitespace.
  destruct (Character.isWhitespace c); [exact IH | reflexivity].
Qed.

Lemma trim_upper s : trim (map toupper s) = map toupper (trim s).
Proof. unfold trim. rewrite skipSpace_upper, <- map_rev, skipSpace_upper, map_rev. reflexivity. Qed.

Lemma upper_idem s : map toupper (map toupper s) = map toupper s.
Proof. rewrite map_map. apply map_ext, toupper_idem. Qed.

#[global] Instance cLocaleLaws : StringAlgorithmsLaws (SA := cLocale).
Proof.
  split.
  - intros s. exists toupper. split; [reflexivity|]. intros c Hc. unfold toupper.
    destruct ((97 <=? c) && (c <=? 122)) eqn:E; [|reflexivity].
    apply andb_true_iff in E as [H1 H2]. zbool. destruct Hc as [H|Hc]; [|lia].
    unfold Character.isDigit in H. apply andb_true_iff in H as [_ H]. zbool. lia.
  - intros s. cbn. fold (trim s). fold (trim (map toupper (trim s))). rewrite trim_upper, trim_idem. apply upper_idem.
  - intros a b. cbn. apply text_eqb_eq.
Qed.
