(* ===== verification/Uri.v ===== *)
(** * URIs

    [src/src/cetty/util/URI.cpp] and its header: the parts of a URI, their parsing
    and printing with percent escapes, dot segments, and the resolution of relative
    references. *)

From Stdlib Require Import Strings.String.
From S2P Require Import Prelude MachineInt Text.


(** [boost::to_lower]. *)
Class LowerCase := {
  to_lower : text -> text;
}.

Module URI.

Record t := MkURI {
  _scheme : text;
  _userInfo : text;
  _host : text;
  _port : Z;
  _path : text;
  _query : text;
  _fragment : text;
}.

Definition with_scheme (x : text) (u : t) : t := MkURI x (_userInfo u) (_host u) (_port u) (_path u) (_query u) (_fragment u).
Definition with_userInfo (x : text) (u : t) : t := MkURI (_scheme u) x (_host u) (_port u) (_path u) (_query u) (_fragment u).
Definition with_host (x : text) (u : t) : t := MkURI (_scheme u) (_userInfo u) x (_port u) (_path u) (_query u) (_fragment u).
Definition with_port (x : Z) (u : t) : t := MkURI (_scheme u) (_userInfo u) (_host u) x (_path u) (_query u) (_fragment u).
Definition with_path (x : text) (u : t) : t := MkURI (_scheme u) (_userInfo u) (_host u) (_port u) x (_query u) (_fragment u).
Definition with_query (x : text) (u : t) : t := MkURI (_scheme u) (_userInfo u) (_host u) (_port u) (_path u) x (_fragment u).
Definition with_fragment (x : text) (u : t) : t := MkURI (_scheme u) (_userInfo u) (_host u) (_port u) (_path u) (_query u) x.

(** The characters of the syntax. *)
Definition SLASH : Z := 47.
Definition COLON : Z := 58.
Definition QUESTION : Z := 63.
Definition HASH : Z := 35.
Definition AT : Z := 64.
Definition DOT : Z := 46.
Definition PERCENT : Z := 37.
Definition LBRACKET : Z := 91.
Definition RBRACKET : Z := 93.

(** [find(c) != npos]. *)
Definition contains (s : text) (c : Z) : bool := match find c 0 s with Some _ => true | None => false end.

Definition RESERVED_PATH : text := str "?#".
Definition RESERVED_QUERY : text := str "#".
Definition RESERVED_FRAGMENT : text := [].
(* %<>{}|\, the quotation mark, ^` *)
Definition ILLEGAL : text := [37; 60; 62; 123; 125; 124; 92; 34; 94; 96].

(** *** Escapes *)

Definition unreserved (c : Z) : bool :=
  ((97 <=? c) && (c <=? 122)) || ((65 <=? c) && (c <=? 90)) || ((48 <=? c) && (c <=? 57)) ||
  (c =? 45) || (c =? 95) || (c =? 46) || (c =? 126).

Definition escaped (reserved : text) (c : Z) : bool :=
  (c <=? 0x20) || (c >=? 0x7F) || contains ILLEGAL c || contains reserved c.

Fixpoint encode (s reserved encodedStr : text) : result text :=
  match s with
  | [] => Ok encodedStr
  | c :: s =>
      if unreserved c then encode s reserved (encodedStr ++ [c])
      else if escaped reserved c then
        let? hex := Integer.toHexString_width (u8 c) 2 true in
        encode s reserved (encodedStr ++ PERCENT :: hex)
      else encode s reserved (encodedStr ++ [c])
  end.

Definition hexValue (c : Z) : result Z :=
  if (48 <=? c) && (c <=? 57) then Ok (c - 48)
  else if (65 <=? c) && (c <=? 70) then Ok (c - 65 + 10)
  else if (97 <=? c) && (c <=? 102) then Ok (c - 97 + 10)
  else Err SyntaxException.

(** What was decoded before the exception stays in [decodedStr]. *)
Fixpoint decode (s : text) : M text unit :=
  match s with
  | [] => ret tt
  | c :: s =>
      if c =? PERCENT then
        match s with
        | [] => throw SyntaxException
        | hi :: s =>
            match s with
            | [] => throw SyntaxException
            | lo :: s =>
                let! h := reads (fun _ => hexValue hi) in
                let! l := reads (fun _ => hexValue lo) in
                modify (fun d => d ++ [i8 (i8 (h * 16) + l)]) ;! decode s
            end
        end
      else modify (fun d => d ++ [c]) ;! decode s
  end.

(** *** Ports *)

Definition getWellKnownPort (u : t) : Z :=
  if text_eqb (_scheme u) (str "ftp") then 21
  else if text_eqb (_scheme u) (str "ssh") then 22
  else if text_eqb (_scheme u) (str "telnet") then 23
  else if text_eqb (_scheme u) (str "http") then 80
  else if text_eqb (_scheme u) (str "nntp") then 119
  else if text_eqb (_scheme u) (str "ldap") then 389
  else if text_eqb (_scheme u) (str "https") then 443
  else 0.
Definition isWellKnownPort (u : t) : bool := _port u =? getWellKnownPort u.
Definition getPort (u : t) : Z := if _port u =? 0 then getWellKnownPort u else _port u.
Definition setPort (port : Z) : M t unit := modify (with_port port).

Section Operations.
Context {LC : LowerCase}.

(** *** Parsing

    An iterator is the rest of the text; the loops that take chars up to a
    delimiter are [span]. *)

Fixpoint span (p : Z -> bool) (s : text) : text * text :=
  match s with
  | c :: s' => if p c then let '(a, b) := span p s' in (c :: a, b) else ([], s)
  | [] => ([], [])
  end.

Definition none_of (cs : list Z) (c : Z) : bool := negb (existsb (Z.eqb c) cs).

Definition clear : M t unit := modify (fun _ => MkURI [] [] [] 0 [] [] []).

Definition setScheme (scheme : text) : M t unit :=
  modify (with_scheme (to_lower scheme)) ;!
  modify (fun u => if _port u =? 0 then with_port (getWellKnownPort u) u else u).

(** [decode] into a member. *)
Definition decodePath (s : text) : M t unit := zoom _path with_path (decode s).
Definition decodeFragment (s : text) : M t unit := zoom _fragment with_fragment (decode s).
Definition decodeUserInfo (s : text) : M t unit := zoom _userInfo with_userInfo (decode s).

Definition parsePath (it : text) : M t text :=
  let '(path, it) := span (none_of [QUESTION; HASH]) it in
  decodePath path ;! ret it.

Definition parseQuery (it : text) : M t text :=
  let '(query, it) := span (none_of [HASH]) it in
  modify (with_query query) ;! ret it.

Definition parseFragment (it : text) : M t text := decodeFragment it ;! ret [].

Definition parsePathEtc (it : text) : M t text :=
  match it with
  | [] => ret []
  | c :: _ =>
      let! it := if none_of [QUESTION; HASH] c then parsePath it else ret it in
      let! it := match it with c :: it' => if c =? QUESTION then parseQuery it' else ret it | [] => ret it end in
      match it with c :: it' => if c =? HASH then parseFragment it' else ret it | [] => ret it end
  end.

(** What follows the host: nothing, or the port behind a colon; anything else is
    skipped. *)
Definition parsePort (it : text) : M t unit :=
  match it with
  | c :: port =>
      if c =? COLON then
        match port with
        | [] => modify (fun u => with_port (getWellKnownPort u) u)
        | _ =>
            let! n := reads (fun _ => Integer.tryParse port) in
            match n with
            | Some nport => if (nport >? 0) && (nport <? 65536) then modify (with_port nport) else throw SyntaxException
            | None => throw SyntaxException
            end
        end
      else modify (fun u => with_port (getWellKnownPort u) u)
  | [] => modify (fun u => with_port (getWellKnownPort u) u)
  end.

Definition parseHostAndPort (it : text) : M t unit :=
  match it with
  | [] => ret tt
  | c :: it' =>
      let! r :=
        if c =? LBRACKET then
          match span (none_of [RBRACKET]) it' with
          | (_, []) => throw SyntaxException
          | (host, _ :: it) => ret (host, it)
          end
        else ret (span (none_of [COLON]) it) in
      parsePort (snd r) ;!
      modify (with_host (to_lower (fst r)))
  end.

(** The loop of [parseAuthority]: the user information up to the last at sign, the
    part behind it, and the rest of the text. *)
Fixpoint authorityLoop (it userInfo part : text) : text * text * text :=
  match it with
  | [] => (userInfo, part, [])
  | c :: it' =>
      if none_of [SLASH; QUESTION; HASH] c then
        if c =? AT then authorityLoop it' part [] else authorityLoop it' userInfo (part ++ [c])
      else (userInfo, part, it)
  end.

Definition parseAuthority (it : text) : M t text :=
  let '(userInfo, part, it) := authorityLoop it [] [] in
  parseHostAndPort part ;!
  modify (with_userInfo userInfo) ;!
  ret it.

Definition parse (uri : text) : M t unit :=
  match uri with
  | [] => ret tt
  | c :: _ =>
      if none_of [SLASH; DOT; QUESTION; HASH] c then
        match span (none_of [COLON; QUESTION; HASH; SLASH]) uri with
        | (scheme, d :: it) =>
            if d =? COLON then
              match it with
              | [] => throw SyntaxException
              | c :: it' =>
                  setScheme scheme ;!
                  let! it :=
                    if c =? SLASH then
                      match it' with
                      | c' :: it'' => if c' =? SLASH then parseAuthority it'' else ret it
                      | [] => ret it
                      end
                    else ret it in
                  parsePathEtc it ;! ret tt
              end
            else parsePathEtc uri ;! ret tt
        | (_, []) => parsePathEtc uri ;! ret tt
        end
      else parsePathEtc uri ;! ret tt
  end.

(** *** Printing *)

Definition isRelative (u : t) : bool := is_empty (_scheme u).
Definition empty (u : t) : bool :=
  is_empty (_scheme u) && is_empty (_host u) && is_empty (_path u) && is_empty (_query u) && is_empty (_fragment u).

Definition getAuthority (u : t) : text :=
  let auth := if is_empty (_userInfo u) then [] else _userInfo u ++ [AT] in
  let auth := if contains (_host u) COLON then auth ++ LBRACKET :: _host u ++ [RBRACKET] else auth ++ _host u in
  if negb (_port u =? 0) && negb (isWellKnownPort u) then Integer.append (auth ++ [COLON]) (_port u) else auth.

Definition starts_with (c : Z) (s : text) : bool := match s with d :: _ => d =? c | [] => false end.
Definition ends_with (c : Z) (s : text) : bool := starts_with c (rev s).

Definition appendQuery (u : t) (uri : text) : text :=
  if is_empty (_query u) then uri else uri ++ QUESTION :: _query u.
Definition appendFragment (u : t) (uri : text) : result text :=
  if is_empty (_fragment u) then Ok uri else encode (_fragment u) RESERVED_FRAGMENT (uri ++ [HASH]).

Definition toString (u : t) : result text :=
  let? uri :=
    if isRelative u then encode (_path u) RESERVED_PATH []
    else
      let auth := getAuthority u in
      let uri := _scheme u ++ [COLON] in
      let uri := if negb (is_empty auth) || text_eqb (_scheme u) (str "file") then uri ++ SLASH :: SLASH :: auth else uri in
      if is_empty (_path u) then Ok uri
      else encode (_path u) RESERVED_PATH
             (if negb (is_empty auth) && negb (starts_with SLASH (_path u)) then uri ++ [SLASH] else uri) in
  appendFragment u (appendQuery u uri).

Definition getPathAndQuery (u : t) : result text :=
  let? pathAndQuery := encode (_path u) RESERVED_PATH [] in
  if is_empty (_query u) then Ok pathAndQuery
  else encode (_query u) RESERVED_QUERY (pathAndQuery ++ [QUESTION]).

Definition getPathEtc (u : t) : result text :=
  let? pathEtc := getPathAndQuery u in appendFragment u pathEtc.

(** *** Constructors and accessors *)

Definition empty_uri : t := MkURI [] [] [] 0 [] [] [].

Definition construct (m : M t unit) (u : t) : result t := let '(r, u) := m u in let? _ := r in Ok u.

Definition new (uri : text) : result t := construct (parse uri) empty_uri.

(** [URI(scheme, pathEtc)]. *)
Definition new_path (scheme pathEtc : text) : result t :=
  construct (modify (with_scheme (to_lower scheme)) ;!
             modify (fun u => with_port (getWellKnownPort u) u) ;!
             parsePathEtc pathEtc ;! ret tt) empty_uri.

(** The constructors with an authority; they leave [_port] as it is in memory. *)
Definition new_authority (memory : Z) (scheme authority pathEtc : text) : result t :=
  construct (modify (with_scheme (to_lower scheme)) ;!
             parseAuthority authority ;!
             parsePathEtc pathEtc ;! ret tt) (with_port memory empty_uri).
Definition new_parts (memory : Z) (scheme authority path query fragment : text) : result t :=
  construct (modify (with_scheme (to_lower scheme)) ;!
             parseAuthority authority ;! ret tt) (MkURI scheme [] [] memory path query fragment).

(** [operator = (const std::string&)]. *)
Definition assign (uri : text) : M t unit := clear ;! parse uri.

Definition setUserInfo (userInfo : text) : M t unit := modify (with_userInfo []) ;! decodeUserInfo userInfo.
Definition setHost (host : text) : M t unit := modify (with_host host).
Definition setAuthority (authority : text) : M t unit :=
  modify (with_userInfo []) ;! modify (with_host []) ;! modify (with_port 0) ;!
  parseAuthority authority ;! ret tt.
Definition setPath (path : text) : M t unit := modify (with_path []) ;! decodePath path.
Definition setRawQuery (query : text) : M t unit := modify (with_query query).
Definition setQuery (query : text) : M t unit :=
  modify (with_query []) ;!
  let! q := reads (fun _ => encode query RESERVED_QUERY []) in modify (with_query q).
Definition getQuery (u : t) : result text := let '(r, query) := decode (_query u) [] in let? _ := r in Ok query.
Definition setFragment (fragment : text) : M t unit := modify (with_fragment []) ;! decodeFragment fragment.
Definition setPathEtc (pathEtc : text) : M t unit :=
  modify (with_path []) ;! modify (with_query []) ;! modify (with_fragment []) ;! parsePathEtc pathEtc ;! ret tt.

Definition equals (a b : t) : bool :=
  text_eqb (_scheme a) (_scheme b) && text_eqb (_userInfo a) (_userInfo b) && text_eqb (_host a) (_host b) &&
  (getPort a =? getPort b) && text_eqb (_path a) (_path b) && text_eqb (_query a) (_query b) && text_eqb (_fragment a) (_fragment b).

(** [operator == (const std::string&)]. *)
Definition equals_text (u : t) (uri : text) : result bool := let? parsedURI := new uri in Ok (equals u parsedURI).

(** [swap], of two objects. *)
Definition swap : M (t * t) unit := modify (fun p => (snd p, fst p)).

(** *** Dot segments *)

Definition DOTS : text := str "..".
Definition ONE_DOT : text := str ".".

(** [seg] is the segment that is being read. *)
Fixpoint segmentsLoop (seg path : text) (segments : list text) : list text :=
  match path with
  | [] => if is_empty seg then segments else segments ++ [seg]
  | c :: path =>
      if c =? SLASH then segmentsLoop [] path (if is_empty seg then segments else segments ++ [seg])
      else segmentsLoop (seg ++ [c]) path segments
  end.
Definition getPathSegments (path : text) (segments : list text) : list text := segmentsLoop [] path segments.

Fixpoint buildLoop (scheme : text) (first leadingSlash : bool) (segments : list text) (path : text) : text :=
  match segments with
  | [] => path
  | s :: segments =>
      let path :=
        if first then
          if leadingSlash then path ++ [SLASH]
          else if is_empty scheme && contains s COLON then path ++ str "./" else path
        else path ++ [SLASH] in
      buildLoop scheme false leadingSlash segments (path ++ s)
  end.
Definition buildPath (segments : list text) (leadingSlash trailingSlash : bool) : M t unit :=
  modify (fun u =>
    let path := buildLoop (_scheme u) true leadingSlash segments [] in
    with_path (if trailingSlash then path ++ [SLASH] else path) u).

(** [pop_back] and [back] of a vector that is not empty. *)
Definition pop_back {A} (l : list A) : list A := removelast l.
Definition back (l : list text) : text := List.last l [].

Fixpoint normalizeLoop (removeLeading : bool) (segments normalizedSegments : list text) : list text :=
  match segments with
  | [] => normalizedSegments
  | s :: segments =>
      normalizeLoop removeLeading segments
        (if text_eqb s DOTS then
           if negb (is_empty normalizedSegments) then
             if text_eqb (back normalizedSegments) DOTS then normalizedSegments ++ [s] else pop_back normalizedSegments
           else if negb removeLeading then normalizedSegments ++ [s] else normalizedSegments
         else if negb (text_eqb s ONE_DOT) then normalizedSegments ++ [s] else normalizedSegments)
  end.

Definition removeDotSegments (removeLeading : bool) : M t unit :=
  let! path := gets _path in
  if is_empty path then ret tt
  else buildPath (normalizeLoop removeLeading (getPathSegments path []) [])
         (starts_with SLASH path) (ends_with SLASH path).

Definition normalize : M t unit :=
  let! u := gets id in removeDotSegments (negb (isRelative u)).

(** *** Resolution *)

Fixpoint mergeLoop (segments normalizedSegments : list text) (addTrailingSlash : bool) : list text * bool :=
  match segments with
  | [] => (normalizedSegments, addTrailingSlash)
  | s :: segments =>
      if text_eqb s DOTS then mergeLoop segments (if is_empty normalizedSegments then normalizedSegments else pop_back normalizedSegments) true
      else if negb (text_eqb s ONE_DOT) then mergeLoop segments (normalizedSegments ++ [s]) false
      else mergeLoop segments normalizedSegments true
  end.

Definition mergePath (path : text) : M t unit :=
  let! base := gets _path in
  let segments :=
    if is_empty base then []
    else let segments := getPathSegments base [] in
         if negb (ends_with SLASH base) && negb (is_empty segments) then pop_back segments else segments in
  let segments := getPathSegments path segments in
  let addLeadingSlash := starts_with SLASH base || starts_with SLASH path in
  let '(normalizedSegments, addTrailingSlash) := mergeLoop segments [] false in
  buildPath normalizedSegments addLeadingSlash (ends_with SLASH path || addTrailingSlash).

Definition set_authority_of (r : t) (u : t) : t := with_port (_port r) (with_host (_host r) (with_userInfo (_userInfo r) u)).

Definition resolve (r : t) : M t unit :=
  (if negb (is_empty (_scheme r)) then
     modify (fun u => with_query (_query r) (with_path (_path r) (set_authority_of r (with_scheme (_scheme r) u)))) ;!
     removeDotSegments true
   else if negb (is_empty (_host r)) then
     modify (fun u => with_query (_query r) (with_path (_path r) (set_authority_of r u))) ;!
     removeDotSegments true
   else if is_empty (_path r) then
     modify (fun u => if is_empty (_query r) then u else with_query (_query r) u)
   else
     (if starts_with SLASH (_path r) then modify (with_path (_path r)) ;! removeDotSegments true
      else mergePath (_path r)) ;!
     modify (with_query (_query r))) ;!
  modify (with_fragment (_fragment r)).

(** [resolve(const std::string&)], and the constructor with a base. *)
Definition resolve_text (relativeURI : text) : M t unit :=
  let! r := reads (fun _ => new relativeURI) in resolve r.
Definition new_relative (base : t) (relativeURI : text) : result t := construct (resolve_text relativeURI) base.

End Operations.
End URI.
