(* ===== verification/UriProperties.v ===== *)
(** * What URIs do

    Decoding is the inverse of every percent encoding, and the library's own
    encoder is none; a URI that needs no escapes is parsed back from what is
    printed; dot segments are removed as a walk through directories; the parts of a
    reference are resolved as RFC 3986 says in section 5.2.2, and so are the names of its
    path when it has no empty segment, which the library drops. *)

From Stdlib Require Import Strings.String.
From S2P Require Import Prelude MachineInt Text Uri.
Import URI.

(** ** Percent encodings *)

(** [percent s e]: [e] is an encoding of [s], any char of which is written as it
    is or as two digits of either case. *)
Inductive percent : text -> text -> Prop :=
  | percent_nil : percent [] []
  | percent_char c s e : c <> PERCENT -> percent s e -> percent (c :: s) (c :: e)
  | percent_hex c hi lo a b s e :
      is_i8 c -> hexValue hi = Ok a -> hexValue lo = Ok b -> u8 c = 16 * a + b ->
      percent s e -> percent (c :: s) (PERCENT :: hi :: lo :: e).

Lemma hexValue_range c a : hexValue c = Ok a -> 0 <= a < 16 /\ c <> PERCENT.
Proof.
  unfold hexValue, PERCENT. intros H.
  destruct ((48 <=? c) && _) eqn:E1; [|destruct ((65 <=? c) && _) eqn:E2; [|destruct ((97 <=? c) && _) eqn:E3; [|discriminate]]];
    injection H as <-; zbool; lia.
Qed.

Lemma hexValue_err c e : hexValue c = Err e -> e = SyntaxException.
Proof. unfold hexValue. repeat destruct (_ && _); congruence. Qed.

(** The arithmetic of [char]. *)
Lemma two_digits a b : 0 <= a < 16 -> 0 <= b < 16 -> i8 (i8 (a * 16) + b) = i8 (16 * a + b).
Proof.
  intros Ha Hb. apply swrap_cong. rewrite Z.add_mod, (swrap_mod 8) by lia. rewrite <- Z.add_mod by lia. f_equal. lia.
Qed.

Lemma percent_decode s e : percent s e -> forall d, decode e d = (Ok tt, d ++ s).
Proof.
  induction 1 as [|c s e Hc _ IH|c hi lo a b s e Hi Ha Hb Hu _ IH]; intros d; cbn [decode].
  - rewrite app_nil_r. reflexivity.
  - rewrite (proj2 (Z.eqb_neq _ _)) by exact Hc. rewrite bind_modify, IH, <- app_assoc. reflexivity.
  - rewrite Z.eqb_refl, !bind_reads, Ha, bind_reads, Hb, bind_modify, IH, <- app_assoc.
    destruct (hexValue_range _ _ Ha) as [H1 _]. destruct (hexValue_range _ _ Hb) as [H2 _].
    rewrite two_digits, <- Hu by assumption. cbn [app]. do 4 f_equal.
    rewrite <- (i8_id c Hi) at 2. apply swrap_cong. unfold u8. rewrite Z.mod_mod by lia. reflexivity.
Qed.

Lemma decode_percent_run e : forall d r d', decode e d = (r, d') ->
  match r with Ok _ => exists s, d' = d ++ s /\ percent s e | Err x => x = SyntaxException end.
Proof.
  assert (forall n e, (length e <= n)%nat -> forall d r d', decode e d = (r, d') ->
    match r with Ok _ => exists s, d' = d ++ s /\ percent s e | Err x => x = SyntaxException end) as H;
    [|intros d r d'; exact (H (length e) e (le_n _) d r d')].
  induction n as [|n IH]; intros [|c e'] Hn d r d' E; try (cbn in Hn; lia).
  1, 2: cbn in E; injection E as <- <-; exists []; split; [symmetry; apply app_nil_r | constructor].
  cbn [decode] in E. destruct (c =? PERCENT) eqn:Ec; zbool.
  - subst c. destruct e' as [|hi [|lo e']]; try (injection E as <- <-; reflexivity).
    rewrite bind_reads in E. destruct (hexValue hi) as [a|x] eqn:Ea; [|injection E as <- <-; apply (hexValue_err _ _ Ea)].
    rewrite bind_reads in E. destruct (hexValue lo) as [b|x] eqn:Eb; [|injection E as <- <-; apply (hexValue_err _ _ Eb)].
    rewrite bind_modify in E. specialize (IH e' ltac:(cbn in Hn; lia) _ _ _ E). destruct r as [u|x]; [|exact IH].
    destruct IH as (s & -> & Hs). exists (i8 (16 * a + b) :: s).
    destruct (hexValue_range _ _ Ea) as [H1 _]. destruct (hexValue_range _ _ Eb) as [H2 _].
    rewrite two_digits, <- app_assoc by assumption. split; [reflexivity|].
    apply (percent_hex _ _ _ a b); [apply i8_range | exact Ea | exact Eb | | exact Hs].
    unfold u8. rewrite (swrap_mod 8) by lia. apply Z.mod_small. lia.
  - rewrite bind_modify in E. specialize (IH e' ltac:(cbn in Hn; lia) _ _ _ E). destruct r as [u|x]; [|exact IH].
    destruct IH as (s & -> & Hs). exists (c :: s). rewrite <- app_assoc. split; [reflexivity|]. constructor; assumption.
Qed.

(** [decode] accepts exactly the percent encodings and appends what they encode,
    whatever chars are escaped and whatever the case of the digits; it throws a
    [SyntaxException] on every other text. *)
Theorem decode_inverts_percent (e d : text) :
  (exists s, percent s e /\ decode e d = (Ok tt, d ++ s)) \/
  ((forall s, ~ percent s e) /\ fst (decode e d) = Err SyntaxException).
Proof.
  destruct (decode e d) as [r d'] eqn:E. pose proof (decode_percent_run e d r d' E) as H. destruct r as [[]|x].
  - left. destruct H as (s & -> & Hs). exists s. auto.
  - right. subst x. split; [|reflexivity]. intros s Hs. rewrite (percent_decode s e Hs d) in E. discriminate.
Qed.

(** ** The encoder *)

Definition escapes (reserved : text) (c : Z) : bool := negb (unreserved c) && escaped reserved c.

(** What [encode] writes: of a char that is escaped, the number of digits. *)
Definition lossy (reserved : text) (c : Z) : text := if escapes reserved c then [PERCENT; 50] else [c].

Lemma encode_lossy reserved s : forall d, encode s reserved d = Ok (d ++ concat (map (lossy reserved) s)).
Proof.
  induction s as [|c s IH]; intros d; cbn [encode map concat]; [rewrite app_nil_r; reflexivity|].
  change (lossy reserved c) with (if negb (unreserved c) && escaped reserved c then [PERCENT; 50] else [c]). destruct (unreserved c); cbn [negb andb]; [rewrite IH, <- app_assoc; reflexivity|].
  destruct (escaped reserved c); [|rewrite IH, <- app_assoc; reflexivity].
  change (Integer.toHexString_width (u8 c) 2 true) with (Ok (str "2")). cbn [rbind]. rewrite IH, <- app_assoc. reflexivity.
Qed.

Lemma contains_In s c : contains s c = true <-> In c s.
Proof.
  unfold contains, Text.find. change (drop (Z.to_nat 0) s) with s. generalize 0 as i. induction s as [|x s IH]; intros i; cbn.
  - split; [intros H; discriminate H | intros []].
  - destruct (x =? c) eqn:E; zbool; [split; auto|]. rewrite IH. split; [auto | intros [H|H]; [contradiction | exact H]].
Qed.

Lemma percent_escapes reserved : escapes reserved PERCENT = true.
Proof. unfold escapes. change (unreserved PERCENT) with false. unfold escaped. change (contains ILLEGAL PERCENT) with true. rewrite !orb_true_r. reflexivity. Qed.

Definition escape_count (s : text) : nat := count_occ Z.eq_dec s PERCENT.

Lemma lossy_count reserved s : let e := concat (map (lossy reserved) s) in
  length e = (length s + escape_count e)%nat /\ (escape_count e = 0%nat <-> existsb (escapes reserved) s = false).
Proof.
  unfold escape_count. induction s as [|c s [IH1 IH2]]; [split; [reflexivity | tauto]|]. cbn [map concat existsb].
  rewrite length_app, count_occ_app. replace (lossy reserved c) with (if escapes reserved c then [PERCENT; 50] else [c]) by reflexivity. destruct (escapes reserved c) eqn:E; cbn [orb length].
  - change (count_occ Z.eq_dec [PERCENT; 50] PERCENT) with 1%nat. split; [lia | split; [lia | discriminate]].
  - rewrite count_occ_cons_neq by (intros ->; rewrite percent_escapes in E; discriminate).
    cbn [count_occ]. split; [lia | rewrite Nat.add_0_l; exact IH2].
Qed.

Lemma percent_length s e : percent s e -> length e = (length s + 2 * escape_count e)%nat.
Proof.
  unfold escape_count. induction 1 as [|c s e Hc _ IH|c hi lo a b s e Hi Ha Hb _ _ IH]; [reflexivity | |].
  - rewrite count_occ_cons_neq by exact Hc. cbn [length]. lia.
  - rewrite count_occ_cons_eq by reflexivity.
    rewrite !count_occ_cons_neq by (apply (hexValue_range _ _ Ha) || apply (hexValue_range _ _ Hb)). cbn [length]. lia.
Qed.

Lemma percent_plain s : ~ In PERCENT s -> percent s s.
Proof. induction s as [|c s IH]; intros H; constructor; [intros ->; apply H; left; reflexivity | apply IH; intros Hs; apply H; right; exact Hs]. Qed.

Lemma lossy_plain reserved s : existsb (escapes reserved) s = false -> concat (map (lossy reserved) s) = s /\ ~ In PERCENT s.
Proof.
  induction s as [|c s IH]; [cbn; tauto|]. cbn [existsb map concat]. intros H. apply orb_false_iff in H as [Hc Hs].
  destruct (IH Hs) as [E Hn]. replace (lossy reserved c) with [c] by (unfold lossy; rewrite Hc; reflexivity). rewrite E. split; [reflexivity|].
  intros [->|Hin]; [rewrite percent_escapes in Hc; discriminate | exact (Hn Hin)].
Qed.

(** What [encode] writes is an encoding of the text only when nothing had to be
    escaped: for every escaped char it writes a percent sign and the digit 2, the
    width it was to pad the code of the char to.  So a text comes back from [decode]
    if and only if none of its chars is escaped. *)
Theorem encode_loses_escapes (s reserved : text) :
  exists e, encode s reserved [] = Ok e /\
    (decode e [] = (Ok tt, s) <-> existsb (escapes reserved) s = false).
Proof.
  exists (concat (map (lossy reserved) s)). split; [apply encode_lossy|]. split.
  - intros E. destruct (decode_percent_run _ _ _ _ E) as (s' & Es & Hp). cbn [app] in Es. subst s'.
    pose proof (percent_length _ _ Hp) as Hl. destruct (lossy_count reserved s) as [Hc Hz]. apply Hz. lia.
  - intros Hs. destruct (lossy_plain reserved s Hs) as [-> Hn]. apply (percent_decode s s (percent_plain s Hn)).
Qed.

(** ** Segments *)

(** A segment is not empty and has no slash. *)
Definition segment (s : text) : Prop := s <> [] /\ ~ In SLASH s.

Lemma starts_with_cons c s : starts_with c (c :: s) = true.
Proof. apply Z.eqb_refl. Qed.

Lemma ends_with_app c s d : ends_with c (s ++ [d]) = (d =? c).
Proof. unfold ends_with. rewrite rev_app_distr. reflexivity. Qed.

Definition flush (seg : text) : list text := if is_empty seg then [] else [seg].

Lemma segmentsLoop_flush path : forall seg acc, segmentsLoop seg path acc = acc ++ segmentsLoop seg path [].
Proof.
  induction path as [|c path IH]; intros seg acc; cbn [segmentsLoop].
  - destruct (is_empty seg); [symmetry; apply app_nil_r | reflexivity].
  - destruct (c =? SLASH); [|apply IH]. rewrite IH. symmetry. rewrite IH. destruct (is_empty seg); [reflexivity | apply app_assoc].
Qed.

Lemma segmentsLoop_segment s : ~ In SLASH s -> forall seg path acc, segmentsLoop seg (s ++ path) acc = segmentsLoop (seg ++ s) path acc.
Proof.
  induction s as [|c s IH]; intros Hs seg path acc; [rewrite app_nil_r; reflexivity|]. cbn [app segmentsLoop].
  rewrite (proj2 (Z.eqb_neq c SLASH)) by (intros ->; apply Hs; left; reflexivity).
  rewrite IH by (intros H; apply Hs; right; exact H). rewrite <- app_assoc. reflexivity.
Qed.

Lemma getPathSegments_segment path : Forall segment (getPathSegments path []).
Proof.
  unfold getPathSegments. assert (~ In SLASH (@nil Z)) as H by tauto. revert H. generalize (@nil Z) as seg.
  assert (forall seg, ~ In SLASH seg -> Forall segment (flush seg)) as Hf.
  { intros [|c s] H; constructor; [|constructor]. split; [discriminate | exact H]. }
  induction path as [|c path IH]; intros seg Hseg; cbn [segmentsLoop]; [exact (Hf seg Hseg)|].
  destruct (c =? SLASH) eqn:E; zbool.
  - rewrite segmentsLoop_flush. apply Forall_app. split; [exact (Hf seg Hseg) | apply IH; tauto].
  - apply IH. intros H. apply in_app_or in H as [H|[H|[]]]; [exact (Hseg H) | congruence].
Qed.

(** Segments with a slash in front of each. *)
Definition slashed (segs : list text) : text := concat (map (cons SLASH) segs).

Lemma slashed_cons s segs : slashed (s :: segs) = SLASH :: s ++ slashed segs.
Proof. reflexivity. Qed.

Lemma buildLoop_rest scheme leading segs : forall path, buildLoop scheme false leading segs path = path ++ slashed segs.
Proof.
  induction segs as [|s segs IH]; intros path; cbn [buildLoop]; [symmetry; apply app_nil_r|].
  rewrite IH, slashed_cons, <- !app_assoc. reflexivity.
Qed.

Definition tail_slash (trailing : bool) : text := if trailing then [SLASH] else [].

Lemma segmentsLoop_slashed segs trailing : Forall segment segs -> forall seg,
  segmentsLoop seg (slashed segs ++ tail_slash trailing) [] = flush seg ++ segs.
Proof.
  induction 1 as [|s segs [Hs1 Hs2] _ IH]; intros seg.
  - unfold slashed. cbn [map concat app]. destruct trailing; cbn [tail_slash segmentsLoop]; [|symmetry; apply app_nil_r].
    rewrite Z.eqb_refl. cbn [is_empty]. unfold flush. destruct (is_empty seg); reflexivity.
  - rewrite slashed_cons. cbn [app segmentsLoop]. rewrite Z.eqb_refl. rewrite <- app_assoc, segmentsLoop_segment by exact Hs2.
    cbn [app]. rewrite segmentsLoop_flush. rewrite IH. replace (if is_empty seg then [] else [] ++ [seg]) with (flush seg) by (unfold flush; destruct (is_empty seg); reflexivity).
    f_equal. unfold flush. destruct s; [contradiction | reflexivity].
Qed.

(** The path that [buildPath] makes. *)
Definition built (scheme : text) (segs : list text) (leading trailing : bool) : text :=
  buildLoop scheme true leading segs [] ++ tail_slash trailing.

Lemma buildPath_run segs leading trailing u :
  buildPath segs leading trailing u = (Ok tt, with_path (built (_scheme u) segs leading trailing) u).
Proof. unfold buildPath, built, modify, tail_slash. destruct trailing; [reflexivity | rewrite app_nil_r; reflexivity]. Qed.

(** Whether a dot is put in front of the first segment. *)
Definition guarded (scheme : text) (segs : list text) (leading : bool) : bool :=
  match segs with s :: _ => negb leading && is_empty scheme && contains s COLON | [] => false end.

Lemma built_segments scheme segs leading trailing : Forall segment segs ->
  getPathSegments (built scheme segs leading trailing) [] = (if guarded scheme segs leading then [ONE_DOT] else []) ++ segs.
Proof.
  intros Hs. unfold built, getPathSegments. destruct Hs as [|s segs [Hs1 Hs2] Hs]; [apply (segmentsLoop_slashed [] trailing); constructor|].
  cbn [buildLoop guarded]. rewrite buildLoop_rest, <- !app_assoc.
  assert (forall seg, segmentsLoop seg (s ++ slashed segs ++ tail_slash trailing) [] = flush (seg ++ s) ++ segs) as Hseg.
  { intros seg. rewrite segmentsLoop_segment, segmentsLoop_slashed by assumption. reflexivity. }
  assert (flush ([] ++ s) = [s]) as Hfl by (destruct s; [contradiction | reflexivity]).
  destruct leading; cbn [negb andb].
  - cbn [app segmentsLoop]. rewrite Z.eqb_refl. cbn [is_empty]. rewrite Hseg, Hfl. reflexivity.
  - destruct (is_empty scheme && contains s COLON).
    + change (([] ++ str "./") ++ s ++ slashed segs ++ tail_slash trailing) with (46 :: 47 :: s ++ slashed segs ++ tail_slash trailing).
      cbn [segmentsLoop]. change (46 =? SLASH) with false. change (47 =? SLASH) with true. cbn [app is_empty].
      rewrite segmentsLoop_flush, Hseg, Hfl. reflexivity.
    + cbn [app]. rewrite Hseg, Hfl. reflexivity.
Qed.

(** The slashes at the ends of a path that was built. *)
Lemma built_starts scheme segs leading trailing : Forall segment segs ->
  starts_with SLASH (built scheme segs leading trailing) = match segs with [] => trailing | _ => leading end.
Proof.
  intros Hs. unfold built. destruct Hs as [|s segs [Hs1 Hs2] Hs]; [destruct trailing; reflexivity|].
  cbn [buildLoop]. rewrite buildLoop_rest, <- !app_assoc. destruct leading; [reflexivity|].
  destruct (is_empty scheme && contains s COLON); [reflexivity|]. cbn [app]. destruct s as [|c s]; [contradiction|].
  cbn. apply Z.eqb_neq. intros ->. apply Hs2. left. reflexivity.
Qed.

Lemma segment_end s : segment s -> ends_with SLASH s = false.
Proof.
  intros [H1 H2]. destruct (exists_last H1) as (l & c & ->). rewrite ends_with_app. apply Z.eqb_neq. intros ->.
  apply H2, in_or_app. right. left. reflexivity.
Qed.

Lemma ends_with_segment p s : segment s -> ends_with SLASH (p ++ s) = false.
Proof.
  intros Hs. pose proof (segment_end s Hs) as H. destruct Hs as [H1 _]. destruct (exists_last H1) as (l & c & ->).
  rewrite app_assoc, ends_with_app in *. exact H.
Qed.

Lemma built_ends scheme segs leading trailing : Forall segment segs -> ends_with SLASH (built scheme segs leading trailing) = trailing.
Proof.
  intros Hs. unfold built. destruct trailing; cbn [tail_slash]; [rewrite ends_with_app; reflexivity|]. rewrite app_nil_r.
  destruct Hs as [|s segs Hs0 Hs]; [reflexivity|]. cbn [buildLoop]. rewrite buildLoop_rest.
  destruct segs as [|s2 segs2]; [unfold slashed; cbn [map concat]; rewrite app_nil_r; apply ends_with_segment; exact Hs0|].
  assert (s2 :: segs2 <> []) as Hne by discriminate. destruct (exists_last Hne) as (l & x & E). rewrite E in *.
  apply Forall_app in Hs as [_ Hx]. apply List.Forall_cons_iff in Hx as [Hx _].
  unfold slashed. rewrite map_app, concat_app. cbn [map concat]. rewrite app_nil_r.
  change (SLASH :: x) with ([SLASH] ++ x). rewrite !app_assoc. apply ends_with_segment. exact Hx.
Qed.

(** ** A path as a walk through directories

    [walk dir segs] is where the segments lead from the directory [dir]: a segment
    enters, two dots go to the parent, of which the root is its own, one dot
    stays. *)
Definition walk_step (dir : list text) (s : text) : list text :=
  if text_eqb s DOTS then removelast dir else if text_eqb s ONE_DOT then dir else dir ++ [s].
Definition walk (dir : list text) (segs : list text) : list text := fold_left walk_step segs dir.

Lemma walk_app dir a b : walk dir (a ++ b) = walk (walk dir a) b.
Proof. apply fold_left_app. Qed.

Lemma walk_snoc dir a s : walk dir (a ++ [s]) = walk_step (walk dir a) s.
Proof. rewrite walk_app. reflexivity. Qed.

Lemma walk_guard dir b segs : walk dir ((if b : bool then [ONE_DOT] else []) ++ segs) = walk dir segs.
Proof. destruct b; reflexivity. Qed.

(** A name is a segment that is no dots. *)
Definition name (s : text) : Prop := segment s /\ s <> DOTS /\ s <> ONE_DOT.

(** Normal segments: dots that go up in front, names behind. *)
Definition normal (removeLeading : bool) (segs : list text) : Prop :=
  exists n names, segs = repeat DOTS n ++ names /\ Forall name names /\ (removeLeading = true -> n = O).

Lemma text_eqb_neq a b : a <> b -> text_eqb a b = false.
Proof. intros H. apply not_true_iff_false. intros E. exact (H (proj1 (text_eqb_eq a b) E)). Qed.

Lemma DOTS_segment : segment DOTS.
Proof. split; [discriminate|]. intros [H|[H|[]]]; discriminate. Qed.

Lemma normal_segments b segs : normal b segs -> Forall segment segs.
Proof.
  intros (n & names & -> & Hn & _). apply Forall_app. split.
  - apply List.Forall_forall. intros s Hs. apply repeat_spec in Hs. subst s. exact DOTS_segment.
  - refine (List.Forall_impl _ _ Hn). intros s [H _]. exact H.
Qed.

Lemma back_snoc l s : back (l ++ [s]) = s.
Proof. apply last_last. Qed.

(** One turn of the loop of [removeDotSegments]. *)
Definition normalize_step (removeLeading : bool) (segs : list text) (s : text) : list text :=
  if text_eqb s DOTS then
    if negb (is_empty segs) then
      if text_eqb (back segs) DOTS then segs ++ [s] else pop_back segs
    else if negb removeLeading then segs ++ [s] else segs
  else if negb (text_eqb s ONE_DOT) then segs ++ [s] else segs.

Lemma normalizeLoop_fold b segs : forall acc, normalizeLoop b segs acc = fold_left (normalize_step b) segs acc.
Proof. induction segs as [|s segs IH]; intros acc; [reflexivity|]. apply IH. Qed.

Lemma names_snoc names : names <> [] -> Forall name names -> exists l x, names = l ++ [x] /\ Forall name l /\ name x.
Proof.
  intros Hne Hn. destruct (exists_last Hne) as (l & x & ->). apply Forall_app in Hn as [Hl Hx].
  apply List.Forall_cons_iff in Hx as [Hx _]. exists l, x. auto.
Qed.

Lemma dots_snoc n : repeat DOTS (S n) = repeat DOTS n ++ [DOTS].
Proof. exact (repeat_cons n DOTS). Qed.

(** Each turn leads where the segment leads. *)
Lemma normalize_step_ok b dir acc s : normal b acc -> segment s -> (b = true -> dir = []) ->
  normal b (normalize_step b acc s) /\ walk dir (normalize_step b acc s) = walk_step (walk dir acc) s.
Proof.
  intros (n & names & -> & Hn & Hb) Hs Hd. unfold normalize_step, walk_step. destruct (text_eqb s DOTS) eqn:E1.
  - apply text_eqb_eq in E1. subst s. destruct names as [|x names'] eqn:En.
    + rewrite app_nil_r. destruct n as [|n].
      * cbn [repeat is_empty negb app]. destruct b; cbn [negb].
        -- split; [exists O, []; auto|]. rewrite (Hd eq_refl). reflexivity.
        -- split; [exists 1%nat, []; split; [reflexivity | split; [constructor | discriminate]] | reflexivity].
      * rewrite dots_snoc, back_snoc, text_eqb_refl. replace (is_empty (repeat DOTS n ++ [DOTS])) with false by (destruct n; reflexivity).
        cbn [negb]. split; [|rewrite walk_snoc; reflexivity]. exists (S (S n)), []. rewrite !dots_snoc, app_nil_r.
        split; [reflexivity|]. split; [constructor|]. intros Hb'. discriminate (Hb Hb').
    + rewrite <- En in *. destruct (names_snoc names) as (l & x' & -> & Hl & Hx); [rewrite En; discriminate | exact Hn |].
      rewrite app_assoc, back_snoc, (text_eqb_neq x' DOTS) by apply Hx. unfold pop_back. rewrite removelast_last.
      replace (is_empty ((repeat DOTS n ++ l) ++ [x'])) with false by (destruct (repeat DOTS n ++ l); reflexivity). cbn [negb].
      split; [exists n, l; auto|]. rewrite walk_snoc. unfold walk_step.
      rewrite (text_eqb_neq x' DOTS), (text_eqb_neq x' ONE_DOT), removelast_last by apply Hx. reflexivity.
  - destruct (text_eqb s ONE_DOT) eqn:E2; cbn [negb]; [split; [exists n, names; auto | reflexivity]|]. split.
    + exists n, (names ++ [s]). rewrite app_assoc. split; [reflexivity|]. split; [|exact Hb]. apply Forall_app. split; [exact Hn|].
      constructor; [|constructor]. split; [exact Hs|]. split; intros ->; rewrite text_eqb_refl in *; discriminate.
    + rewrite walk_snoc. unfold walk_step. rewrite E1, E2. reflexivity.
Qed.

Lemma normalizeLoop_ok b dir segs : Forall segment segs -> (b = true -> dir = []) -> forall acc, normal b acc ->
  normal b (normalizeLoop b segs acc) /\ walk dir (normalizeLoop b segs acc) = walk (walk dir acc) segs.
Proof.
  intros Hs Hd. induction Hs as [|s segs H _ IH]; intros acc Ha; [split; [exact Ha | reflexivity]|].
  destruct (normalize_step_ok b dir acc s Ha H Hd) as [H1 H2]. destruct (IH _ H1) as [H3 H4].
  rewrite normalizeLoop_fold in *. split; [exact H3|]. rewrite <- normalizeLoop_fold in H4. cbn [fold_left]. rewrite <- normalizeLoop_fold, H4, H2. reflexivity.
Qed.

(** What is normal stays. *)
Lemma normalizeLoop_names b names : Forall name names -> forall acc, normalizeLoop b names acc = acc ++ names.
Proof.
  induction 1 as [|s names (Hs & H1 & H2) _ IH]; intros acc; [symmetry; apply app_nil_r|]. cbn [normalizeLoop].
  rewrite (text_eqb_neq s DOTS H1), (text_eqb_neq s ONE_DOT H2). cbn [negb]. rewrite IH, <- app_assoc. reflexivity.
Qed.

Lemma normalizeLoop_dots n : forall k rest, normalizeLoop false (repeat DOTS n ++ rest) (repeat DOTS k) = normalizeLoop false rest (repeat DOTS (k + n)).
Proof.
  induction n as [|n IH]; intros k rest; [rewrite Nat.add_0_r; reflexivity|]. cbn [repeat app normalizeLoop].
  rewrite text_eqb_refl. replace (if negb (is_empty (repeat DOTS k)) then _ else _) with (repeat DOTS (S k)).
  - rewrite IH. do 2 f_equal. lia.
  - destruct k as [|k]; [reflexivity|]. cbn [is_empty repeat negb]. change (DOTS :: repeat DOTS k) with (repeat DOTS (S k)).
    rewrite dots_snoc at 2. rewrite back_snoc, text_eqb_refl. symmetry. symmetry. apply (dots_snoc (S k)).
Qed.

Lemma normalizeLoop_normal b guard segs : normal b segs ->
  normalizeLoop b ((if guard : bool then [ONE_DOT] else []) ++ segs) [] = segs.
Proof.
  intros (n & names & -> & Hn & Hb). assert (normalizeLoop b (repeat DOTS n ++ names) [] = repeat DOTS n ++ names) as H.
  - destruct b; [rewrite (Hb eq_refl); apply (normalizeLoop_names true names Hn)|].
    transitivity (normalizeLoop false names (repeat DOTS n)); [exact (normalizeLoop_dots n 0 names) | apply normalizeLoop_names; exact Hn].
  - destruct guard; exact H.
Qed.

Section Normalize.
Context {LC : LowerCase}.

Definition norm_segs (b : bool) (u : t) : list text := normalizeLoop b (getPathSegments (_path u) []) [].
Definition norm_path (b : bool) (u : t) : text :=
  if is_empty (_path u) then [] else built (_scheme u) (norm_segs b u) (starts_with SLASH (_path u)) (ends_with SLASH (_path u)).

Lemma removeDotSegments_run b u : removeDotSegments b u = (Ok tt, with_path (norm_path b u) u).
Proof.
  unfold removeDotSegments, norm_path. rewrite bind_gets. destruct (is_empty (_path u)) eqn:E; [|apply buildPath_run].
  destruct u as [? ? ? ? [|] ? ?]; [reflexivity | discriminate].
Qed.

Lemma norm_segs_ok b dir u : (b = true -> dir = []) ->
  normal b (norm_segs b u) /\ walk dir (norm_segs b u) = walk dir (getPathSegments (_path u) []).
Proof.
  intros Hd. apply (normalizeLoop_ok b dir _ (getPathSegments_segment _) Hd []). exists O, []. auto.
Qed.

(** The segments of the new path. *)
Lemma norm_path_segments b u : getPathSegments (norm_path b u) [] =
  (if guarded (_scheme u) (norm_segs b u) (starts_with SLASH (_path u)) then [ONE_DOT] else []) ++ norm_segs b u.
Proof.
  destruct (norm_segs_ok b [] u (fun _ => eq_refl)) as [Hn _]. unfold norm_path. destruct (is_empty (_path u)) eqn:E.
  - unfold norm_segs. destruct (_path u); [reflexivity | discriminate].
  - apply built_segments, (normal_segments _ _ Hn).
Qed.

Lemma norm_path_idem b u : norm_path b (with_path (norm_path b u) u) = norm_path b u.
Proof.
  destruct (norm_segs_ok b [] u (fun _ => eq_refl)) as [Hn _]. pose proof (normal_segments _ _ Hn) as Hs.
  assert (norm_segs b (with_path (norm_path b u) u) = norm_segs b u) as Hsegs.
  { unfold norm_segs at 1. cbn [_path with_path]. rewrite norm_path_segments. apply normalizeLoop_normal. exact Hn. }
  unfold norm_path at 1. rewrite Hsegs. cbn [_path with_path _scheme]. unfold norm_path.
  destruct (is_empty (_path u)) eqn:E; [reflexivity|]. rewrite built_starts, built_ends by exact Hs.
  destruct (norm_segs b u) as [|s segs] eqn:Es.
  - unfold built. cbn [buildLoop app]. destruct (ends_with SLASH (_path u)); reflexivity.
  - destruct (is_empty (built _ _ _ _)) eqn:Ee; [|reflexivity]. exfalso. unfold built in Ee. cbn [buildLoop] in Ee. rewrite buildLoop_rest in Ee.
    apply List.Forall_cons_iff in Hs as [[Hs _] _]. destruct s; [contradiction|].
    destruct (starts_with SLASH (_path u)); [discriminate Ee|]. destruct (is_empty (_scheme u) && _); discriminate Ee.
Qed.

(** C38: [normalize] leaves a path that leads where the old one led - from every
    directory for a relative reference, from the root for a URI with a scheme -,
    that has names only, behind steps to the parent that only a relative reference
    keeps, and in front of them at most the dot that guards a colon; a second
    [normalize] changes nothing.  The slashes at both ends stay when segments are
    left; when none is left, the slash in front is that of the end: the path of a
    relative reference that ends with a slash becomes the root, and one that began
    with a slash and does not end with one is lost. *)
Theorem normalize_walks (u : t) :
  let b := negb (isRelative u) in
  exists u' segs guard, normalize u = (Ok tt, u') /\ u' = with_path (_path u') u /\
    getPathSegments (_path u') [] = (if guard : bool then [ONE_DOT] else []) ++ segs /\ normal b segs /\
    (forall dir, (isRelative u = true \/ dir = []) -> walk dir (getPathSegments (_path u') []) = walk dir (getPathSegments (_path u) [])) /\
    normalize u' = (Ok tt, u') /\
    (_path u <> [] -> ends_with SLASH (_path u') = ends_with SLASH (_path u) /\
      starts_with SLASH (_path u') = match segs with [] => ends_with SLASH (_path u) | _ => starts_with SLASH (_path u) end).
Proof.
  intros b. unfold normalize. rewrite bind_gets. unfold id. fold b. rewrite removeDotSegments_run.
  set (u' := with_path (norm_path b u) u). exists u', (norm_segs b u), (guarded (_scheme u) (norm_segs b u) (starts_with SLASH (_path u))).
  destruct (norm_segs_ok b [] u (fun _ => eq_refl)) as [Hn _]. split; [reflexivity|]. split; [reflexivity|].
  split; [exact (norm_path_segments b u)|]. split; [exact Hn|]. split; [|split].
  - intros dir Hd. cbn [_path u' with_path]. rewrite norm_path_segments, walk_guard. apply norm_segs_ok.
    intros Hb. destruct Hd as [Hr|Hd]; [|exact Hd]. unfold b in Hb. rewrite Hr in Hb. discriminate.
  - rewrite bind_gets. unfold id. change (negb (isRelative u')) with b. rewrite removeDotSegments_run. unfold u' at 1. rewrite norm_path_idem. reflexivity.
  - intros Hp. pose proof (normal_segments _ _ Hn) as Hs. cbn [_path u' with_path]. unfold norm_path.
    destruct (is_empty (_path u)) eqn:E; [destruct (_path u); [contradiction | discriminate]|].
    split; [apply built_ends, Hs | apply built_starts, Hs].
Qed.

End Normalize.

(** ** References *)

Section Resolve.
Context {LC : LowerCase}.

Lemma walk_name dir s : name s -> walk_step dir s = dir ++ [s].
Proof. intros (_ & H1 & H2). unfold walk_step. rewrite (text_eqb_neq _ _ H1), (text_eqb_neq _ _ H2). reflexivity. Qed.

Lemma walk_all_names names : Forall name names -> forall dir, walk dir names = dir ++ names.
Proof.
  unfold walk. induction 1 as [|s names Hs _ IH]; intros dir; [symmetry; apply app_nil_r|]. cbn [fold_left].
  rewrite walk_name, IH, <- app_assoc by exact Hs. reflexivity.
Qed.

Lemma Forall_removelast {A} (P : A -> Prop) l : Forall P l -> Forall P (removelast l).
Proof.
  destruct l as [|x l] using rev_ind; [intros H; exact H|]. rewrite removelast_last. intros H. apply Forall_app in H as [H _]. exact H.
Qed.

Lemma walk_names segs : Forall segment segs -> forall dir, Forall name dir -> Forall name (walk dir segs).
Proof.
  unfold walk. induction 1 as [|s segs Hs _ IH]; intros dir Hd; [exact Hd|]. apply IH. unfold walk_step.
  destruct (text_eqb s DOTS) eqn:E1; [|destruct (text_eqb s ONE_DOT) eqn:E2; [exact Hd|]].
  - apply Forall_removelast. exact Hd.
  - apply Forall_app. split; [exact Hd|]. constructor; [|constructor]. split; [exact Hs|].
    split; intros ->; rewrite text_eqb_refl in *; discriminate.
Qed.

(** The directory of the base: its path up to the last slash. *)
Definition base_dir (u : t) : list text :=
  walk [] (let segs := getPathSegments (_path u) [] in if ends_with SLASH (_path u) then segs else removelast segs).

(** Which parts of the base a reference keeps. *)
Definition absolute (r : t) : bool := negb (is_empty (_scheme r)).
Definition has_authority (r : t) : bool := absolute r || negb (is_empty (_host r)).
Definition has_path (r : t) : bool := has_authority r || negb (is_empty (_path r)).
Definition rooted (r : t) : bool := has_authority r || starts_with SLASH (_path r).

(** The target of section 5.2.2, but for the path. *)
Definition target (u r : t) (path : text) : t :=
  let a := if has_authority r then r else u in
  MkURI (if absolute r then _scheme r else _scheme u) (_userInfo a) (_host a) (_port a) path
    (if has_path r || negb (is_empty (_query r)) then _query r else _query u) (_fragment r).

(** A path of exactly these names. *)
Definition leads_to (path : text) (names : list text) : Prop :=
  Forall name names /\ exists guard, getPathSegments path [] = (if guard : bool then [ONE_DOT] else []) ++ names.

Lemma norm_path_leads u p : _path u = p -> leads_to (norm_path true u) (walk [] (getPathSegments p [])).
Proof.
  intros <-. destruct (norm_segs_ok true [] u (fun _ => eq_refl)) as [(n & names & E & Hn & H0) Hw]. rewrite (H0 eq_refl) in E. cbn [repeat app] in E.
  rewrite <- Hw, E, (walk_all_names _ Hn). split; [exact Hn|]. eexists. rewrite norm_path_segments, E. reflexivity.
Qed.

Lemma mergeLoop_walk segs : forall acc b, fst (mergeLoop segs acc b) = walk acc segs.
Proof.
  unfold walk. induction segs as [|s segs IH]; intros acc b; [reflexivity|]. cbn [mergeLoop fold_left]. unfold walk_step at 2.
  destruct (text_eqb s DOTS); [rewrite IH; destruct acc; reflexivity|].
  destruct (text_eqb s ONE_DOT); cbn [negb]; apply IH.
Qed.

Lemma mergePath_leads path u : exists path', mergePath path u = (Ok tt, with_path path' u) /\
  leads_to path' (walk (base_dir u) (getPathSegments path [])).
Proof.
  unfold mergePath. rewrite bind_gets. set (base := _path u).
  set (segs := if is_empty base then [] else _).
  assert (getPathSegments path segs = segs ++ getPathSegments path []) as Eseg by apply segmentsLoop_flush.
  assert (walk [] segs = base_dir u) as Ed.
  { unfold base_dir. fold base. unfold segs. destruct base as [|c base']; [reflexivity|]. cbn [is_empty].
    destruct (ends_with SLASH (c :: base')); cbn [negb andb]; [reflexivity|].
    destruct (getPathSegments (c :: base') []); reflexivity. }
  cbv zeta. destruct (mergeLoop (getPathSegments path segs) [] false) as [names b] eqn:Em.
  pose proof (mergeLoop_walk (getPathSegments path segs) [] false) as Hw. rewrite Em, Eseg, walk_app, Ed in Hw. cbn [fst] in Hw.
  rewrite buildPath_run. eexists. split; [reflexivity|]. rewrite <- Hw.
  assert (Forall name names) as Hn.
  { rewrite Hw. apply walk_names; [apply getPathSegments_segment|]. unfold base_dir. apply walk_names; [|constructor].
    pose proof (getPathSegments_segment (_path u)) as Hs. cbv zeta. destruct (ends_with SLASH (_path u)); [exact Hs | apply Forall_removelast; exact Hs]. }
  split; [exact Hn|]. eexists. apply built_segments. refine (List.Forall_impl _ _ Hn). intros s [H _]. exact H.
Qed.

Lemma resolve_walks (u r : t) :
  exists path, resolve r u = (Ok tt, target u r path) /\
    (has_path r = false -> path = _path u) /\
    (has_path r = true ->
      leads_to path (walk (if rooted r then [] else base_dir u) (getPathSegments (_path r) []))).
Proof.
  unfold resolve, target, has_path, rooted, has_authority, absolute.
  destruct (is_empty (_scheme r)) eqn:E1; cbn [negb orb].
  - destruct (is_empty (_host r)) eqn:E2; cbn [negb orb].
    + destruct (is_empty (_path r)) eqn:E3; cbn [negb orb].
      * exists (_path u). split; [|split; [reflexivity | discriminate]]. rewrite bind_modify. destruct (is_empty (_query r)); reflexivity.
      * destruct (starts_with SLASH (_path r)).
        -- rewrite bind_assoc, bind_assoc, bind_modify. erewrite bind_ok by apply removeDotSegments_run.
           eexists. split; [reflexivity|]. split; [discriminate|]. intros _. apply norm_path_leads. reflexivity.
        -- destruct (mergePath_leads (_path r) u) as (path & E & Hl). exists path. rewrite bind_assoc. erewrite bind_ok by exact E.
           split; [reflexivity|]. split; [discriminate | intros _; exact Hl].
    + rewrite bind_assoc, bind_modify. erewrite bind_ok by apply removeDotSegments_run.
      eexists. split; [reflexivity|]. split; [discriminate|]. intros _. apply norm_path_leads. reflexivity.
  - rewrite bind_assoc, bind_modify. erewrite bind_ok by apply removeDotSegments_run.
    eexists. split; [reflexivity|]. split; [discriminate|]. intros _. apply norm_path_leads. reflexivity.
Qed.

(** *** The algorithm of the RFC *)

(** What follows a prefix. *)
Fixpoint after (p s : text) : option text :=
  match p, s with
  | [], _ => Some s
  | a :: p, b :: s => if a =? b then after p s else None
  | _, [] => None
  end.

Fixpoint until_slash (s : text) : text * text :=
  match s with
  | [] => ([], [])
  | c :: s => if c =? SLASH then ([], c :: s) else let '(a, b) := until_slash s in (c :: a, b)
  end.

(** The last segment and the slash in front of it are removed. *)
Definition drop_segment (output : text) : text := rev (tail (snd (until_slash (rev output)))).

(** [remove_dot_segments], section 5.2.4: the steps A to E, a turn each. *)
Fixpoint remove_dots (n : nat) (input output : text) : text :=
  match n, input with
  | O, _ | _, [] => output
  | S n, c :: input' =>
      match after [DOT; DOT; SLASH] input, after [DOT; SLASH] input, after [SLASH; DOT; SLASH] input, after [SLASH; DOT; DOT; SLASH] input with
      | Some rest, _, _, _ | None, Some rest, _, _ => remove_dots n rest output
      | None, None, Some rest, _ => remove_dots n (SLASH :: rest) output
      | None, None, None, Some rest => remove_dots n (SLASH :: rest) (drop_segment output)
      | None, None, None, None =>
          if text_eqb input [SLASH; DOT] then remove_dots n [SLASH] output
          else if text_eqb input [SLASH; DOT; DOT] then remove_dots n [SLASH] (drop_segment output)
          else if text_eqb input ONE_DOT || text_eqb input DOTS then output
          else let '(segment, rest) := until_slash input' in remove_dots n rest (output ++ c :: segment)
      end
  end.
Definition remove_dot_segments (path : text) : text := remove_dots (S (length path)) path [].

(** The merged path of section 5.2.3. *)
Definition up_to_slash (path : text) : text := rev (snd (until_slash (rev path))).
Definition merged (u : t) (path : text) : text :=
  if negb (is_empty (_host u)) && is_empty (_path u) then SLASH :: path else up_to_slash (_path u) ++ path.

Lemma until_segment s rest : ~ In SLASH s -> (rest = [] \/ starts_with SLASH rest = true) -> until_slash (s ++ rest) = (s, rest).
Proof.
  intros Hs Hr. induction s as [|c s IH]; cbn [app until_slash].
  - destruct rest as [|c rest]; [reflexivity|]. destruct Hr as [?|Hr]; [discriminate|]. cbn in Hr |- *. rewrite Hr. reflexivity.
  - rewrite (proj2 (Z.eqb_neq c SLASH)) by (intros ->; apply Hs; left; reflexivity).
    rewrite IH by (intros H; apply Hs; right; exact H). reflexivity.
Qed.

Lemma slashed_snoc names s : slashed (names ++ [s]) = slashed names ++ SLASH :: s.
Proof. unfold slashed. rewrite map_app, concat_app. cbn [map concat]. rewrite app_nil_r. reflexivity. Qed.

Lemma drop_slashed names : Forall name names -> drop_segment (slashed names) = slashed (removelast names).
Proof.
  intros Hn. destruct names as [|x names'] eqn:E; [reflexivity|]. rewrite <- E in *.
  destruct (names_snoc names) as (l & s & -> & _ & [[_ Hs] _]); [rewrite E; discriminate | exact Hn |].
  rewrite removelast_last, slashed_snoc. unfold drop_segment. rewrite rev_app_distr. cbn [rev]. rewrite <- app_assoc, until_segment.
  - cbn [snd app tail]. apply rev_involutive.
  - intros H. apply Hs, in_rev, H.
  - right. reflexivity.
Qed.

(** Step E, for a segment that is no dots. *)
Lemma remove_name n s rest output : name s -> (rest = [] \/ starts_with SLASH rest = true) ->
  remove_dots (S n) (SLASH :: s ++ rest) output = remove_dots n rest (output ++ SLASH :: s).
Proof.
  intros [[Hne Hs] [H2 H1]] Hr. assert (after [DOT; SLASH] (s ++ rest) = None) as E1.
  { destruct s as [|c [|d s]]; [contradiction | |]; cbn -[Z.eqb]; (destruct (DOT =? c) eqn:Ec; [zbool | reflexivity]).
    - exfalso. apply H1. subst. reflexivity.
    - destruct (SLASH =? d) eqn:Ed; [|reflexivity]. zbool. exfalso. apply Hs. subst. right. left. reflexivity. }
  assert (after [DOT; DOT; SLASH] (s ++ rest) = None) as E2.
  { destruct s as [|c [|d [|e s]]]; [contradiction | | |]; cbn -[Z.eqb]; (destruct (DOT =? c) eqn:Ec; [|reflexivity]).
    - destruct rest as [|d rest]; [reflexivity|]. destruct Hr as [?|Hr]; [discriminate|].
      cbn -[Z.eqb] in Hr |- *. zbool. subst d. reflexivity.
    - destruct (DOT =? d) eqn:Ed; [|reflexivity]. zbool. exfalso. apply H2. subst. reflexivity.
    - destruct (DOT =? d); [|reflexivity]. destruct (SLASH =? e) eqn:Ee; [|reflexivity]. zbool.
      exfalso. apply Hs. subst. right. right. left. reflexivity. }
  assert (forall t, s <> t -> starts_with SLASH t = false -> ~ In SLASH t -> text_eqb (SLASH :: s ++ rest) (SLASH :: t) = false) as Et.
  { intros t Ht _ Hts. apply text_eqb_neq. intros E. injection E as E. destruct rest as [|d rest]; [rewrite app_nil_r in E; contradiction|].
    destruct Hr as [?|Hr]; [discriminate|]. cbn in Hr. zbool. subst d. apply Hts. rewrite <- E. apply in_or_app. right. left. reflexivity. }
  cbn [remove_dots]. change (after [DOT; DOT; SLASH] (SLASH :: s ++ rest)) with (@None text).
  change (after [DOT; SLASH] (SLASH :: s ++ rest)) with (@None text).
  change (after [SLASH; DOT; SLASH] (SLASH :: s ++ rest)) with (after [DOT; SLASH] (s ++ rest)).
  change (after [SLASH; DOT; DOT; SLASH] (SLASH :: s ++ rest)) with (after [DOT; DOT; SLASH] (s ++ rest)). rewrite E1, E2. cbv iota.
  change [SLASH; DOT] with (SLASH :: ONE_DOT). change [SLASH; DOT; DOT] with (SLASH :: DOTS).
  rewrite !Et by first [exact H1 | exact H2 | reflexivity | cbn; intuition discriminate].
  change (text_eqb (SLASH :: s ++ rest) ONE_DOT || text_eqb (SLASH :: s ++ rest) DOTS) with false. cbv iota.
  rewrite until_segment by assumption. reflexivity.
Qed.

Lemma slashed_starts segs trailing : slashed segs ++ tail_slash trailing = [] \/ starts_with SLASH (slashed segs ++ tail_slash trailing) = true.
Proof. destruct segs; [destruct trailing; [right | left]; reflexivity | right; reflexivity]. Qed.

(** The algorithm follows the segments. *)
Lemma remove_dots_walk segs : Forall segment segs -> forall n trailing names, (length segs < n)%nat -> Forall name names ->
  exists trailing', remove_dots n (slashed segs ++ tail_slash trailing) (slashed names) = slashed (walk names segs) ++ tail_slash trailing'.
Proof.
  induction 1 as [|s segs Hs _ IH]; intros n trailing names Hn Hnames.
  - destruct n as [|n]; [cbn in Hn; lia|]. exists trailing. destruct trailing; cbn [slashed map concat app tail_slash];
      [destruct n; reflexivity | rewrite app_nil_r; reflexivity].
  - destruct n as [|n]; [cbn in Hn; lia|]. cbn [length] in Hn. rewrite slashed_cons. unfold walk. cbn [fold_left app]. fold (walk (walk_step names s) segs).
    rewrite <- app_assoc. pose proof (slashed_starts segs trailing) as Hr. unfold walk_step.
    assert (forall names', Forall name names' -> exists trailing', remove_dots n
      (match slashed segs ++ tail_slash trailing with [] => [SLASH] | rest => rest end) (slashed names') = slashed (walk names' segs) ++ tail_slash trailing') as Hrec.
    { intros names' Hn'. destruct (slashed segs ++ tail_slash trailing) as [|c rest] eqn:Er.
      - destruct segs; [|discriminate Er]. exact (IH n true names' ltac:(lia) Hn').
      - rewrite <- Er. apply IH; [lia | exact Hn']. }
    destruct (text_eqb s DOTS) eqn:E1; [|destruct (text_eqb s ONE_DOT) eqn:E2].
    + apply text_eqb_eq in E1. subst s. destruct (Hrec (removelast names)) as (tr & E); [apply Forall_removelast, Hnames|]. exists tr.
      rewrite <- E. rewrite <- drop_slashed by exact Hnames. destruct (slashed segs ++ tail_slash trailing) as [|c rest]; [reflexivity|].
      destruct Hr as [?|Hr]; [discriminate|]. cbn in Hr. zbool. subst c. reflexivity.
    + apply text_eqb_eq in E2. subst s. destruct (Hrec names Hnames) as (tr & E). exists tr.
      rewrite <- E. destruct (slashed segs ++ tail_slash trailing) as [|c rest]; [reflexivity|].
      destruct Hr as [?|Hr]; [discriminate|]. cbn in Hr. zbool. subst c. reflexivity.
    + assert (name s) as Hname by (split; [exact Hs|]; split; intros ->; rewrite text_eqb_refl in *; discriminate).
      rewrite remove_name, <- slashed_snoc by assumption. apply IH; [lia|]. apply Forall_app. split; [exact Hnames | constructor; [exact Hname | constructor]].
Qed.

Lemma remove_dot_segments_names segs trailing : Forall segment segs ->
  getPathSegments (remove_dot_segments (slashed segs ++ tail_slash trailing)) [] = walk [] segs.
Proof.
  intros Hs. unfold remove_dot_segments. assert (length segs <= length (slashed segs))%nat as Hl.
  { clear Hs. induction segs as [|s segs IH]; [reflexivity|]. rewrite slashed_cons. cbn [length]. rewrite length_app. lia. }
  destruct (remove_dots_walk segs Hs (S (length (slashed segs ++ tail_slash trailing))) trailing []) as (tr & E);
    [rewrite length_app; lia | constructor |].
  change (slashed []) with (@nil Z) in E. rewrite E. refine (segmentsLoop_slashed _ tr _ []).
  refine (List.Forall_impl _ _ (walk_names segs Hs [] (Forall_nil _))). intros s [H _]. exact H.
Qed.

(** The segments of the merged path. *)
Lemma segments_app p q : p = [] \/ ends_with SLASH p = true -> getPathSegments (p ++ q) [] = getPathSegments p [] ++ getPathSegments q [].
Proof.
  intros [->|Hp]; [reflexivity|]. unfold getPathSegments.
  enough (forall seg, segmentsLoop seg (p ++ q) [] = segmentsLoop seg p [] ++ segmentsLoop [] q []) as H by apply H.
  induction p as [|c p IH]; [discriminate|]. intros seg. destruct p as [|d p].
  - cbn in Hp. zbool. subst c. cbn [app segmentsLoop]. rewrite Z.eqb_refl. cbn [is_empty]. apply segmentsLoop_flush.
  - assert (ends_with SLASH (d :: p) = true) as Hp'.
    { unfold ends_with in *. cbn [rev] in *. destruct (rev p ++ [d]) eqn:E; [destruct (rev p); discriminate | exact Hp]. }
    change ((c :: d :: p) ++ q) with (c :: (d :: p) ++ q). remember (d :: p) as p'. cbn [segmentsLoop].
    destruct (c =? SLASH); [|apply IH, Hp'].
    rewrite (segmentsLoop_flush (p' ++ q)), (segmentsLoop_flush p'), <- app_assoc, IH by exact Hp'. reflexivity.
Qed.

Lemma until_slash_parts s : fst (until_slash s) ++ snd (until_slash s) = s /\ ~ In SLASH (fst (until_slash s)) /\
  (snd (until_slash s) = [] \/ starts_with SLASH (snd (until_slash s)) = true).
Proof.
  induction s as [|c s (E & Hi & Hr)]; cbn [until_slash]; [split; [reflexivity | split; [intros [] | left; reflexivity]]|].
  destruct (c =? SLASH) eqn:Ec; [split; [reflexivity|]; split; [intros []|]; right; exact Ec|].
  destruct (until_slash s) as [a b]. cbn [fst snd] in *. subst s. split; [reflexivity|]. split; [|exact Hr].
  intros [H|H]; [subst; rewrite Z.eqb_refl in Ec; discriminate | exact (Hi H)].
Qed.

Lemma up_to_slash_parts p : exists s, p = up_to_slash p ++ s /\ ~ In SLASH s /\ (up_to_slash p = [] \/ ends_with SLASH (up_to_slash p) = true).
Proof.
  destruct (until_slash_parts (rev p)) as (E & Hi & Hr). exists (rev (fst (until_slash (rev p)))). unfold up_to_slash, ends_with.
  rewrite rev_involutive, <- rev_app_distr, E, rev_involutive. split; [reflexivity|]. split.
  - intros H. apply Hi, in_rev, H.
  - destruct Hr as [->|Hr]; auto.
Qed.

Lemma base_dir_walk u path : walk (base_dir u) (getPathSegments path []) = walk [] (getPathSegments (merged u path) []).
Proof.
  unfold base_dir, merged. destruct (negb (is_empty (_host u)) && is_empty (_path u)) eqn:E.
  - zbool. destruct (_path u); [reflexivity | discriminate].
  - destruct (up_to_slash_parts (_path u)) as (s & Ep & Hs & Hu). rewrite segments_app, walk_app by exact Hu. f_equal. cbv zeta.
    set (up := up_to_slash (_path u)) in *. clearbody up. rewrite Ep, segments_app by exact Hu. destruct s as [|c s].
    + rewrite !app_nil_r. destruct Hu as [E1|E1]; rewrite E1; reflexivity.
    + assert (segment (c :: s)) as Hc by (split; [discriminate | exact Hs]). rewrite ends_with_segment by exact Hc.
      assert (getPathSegments (c :: s) [] = [c :: s]) as ->.
      { unfold getPathSegments. rewrite <- (app_nil_r (c :: s)) at 1. rewrite segmentsLoop_segment by exact Hs. reflexivity. }
      rewrite removelast_last. reflexivity.
Qed.

(** C26: [resolve] takes scheme, authority, query and fragment from the reference or
    from the base as section 5.2.2 of RFC 3986 says, where an authority counts as defined
    when its host is not empty.  The path is that of the base when the reference has none;
    otherwise it has no dots and exactly the names to which the non-empty segments of the
    reference lead - from the root, if the reference has a scheme, a host or a slash in
    front, and else from the directory of the base.  When the path that the RFC starts
    from, that of the reference or merged with that of the base, begins with a slash and
    has no empty segment, these are the names of the RFC's remove_dot_segments; empty
    segments, which the RFC counts as directories, are dropped ([empty_segment]), and of
    slashes at the end nothing is said ([dots_at_end]).  The reference is a parsed one:
    that a text with an authority but no scheme is parsed as a path is [network_path]. *)
Theorem resolve_follows_rfc (u r : t) :
  exists path, resolve r u = (Ok tt, target u r path) /\
    (has_path r = false -> path = _path u) /\
    (has_path r = true ->
      leads_to path (walk (if rooted r then [] else base_dir u) (getPathSegments (_path r) []))) /\
    (forall segs trailing, has_path r = true -> Forall segment segs ->
      (if rooted r then _path r else merged u (_path r)) = slashed segs ++ tail_slash trailing ->
      leads_to path (getPathSegments (remove_dot_segments (slashed segs ++ tail_slash trailing)) [])).
Proof.
  assert (exists path, resolve r u = (Ok tt, target u r path) /\ (has_path r = false -> path = _path u) /\
    (has_path r = true -> leads_to path (walk (if rooted r then [] else base_dir u) (getPathSegments (_path r) [])))) as (path & E & H1 & H2)
    by apply resolve_walks.
  exists path. split; [exact E|]. split; [exact H1|]. split; [exact H2|]. intros segs trailing Hp Hs Em.
  rewrite remove_dot_segments_names by exact Hs. specialize (H2 Hp).
  assert (getPathSegments (slashed segs ++ tail_slash trailing) [] = segs) as Eseg by (apply (segmentsLoop_slashed segs trailing Hs [])).
  destruct (rooted r); [|rewrite base_dir_walk in H2]; rewrite Em, Eseg in H2; exact H2.
Qed.

End Resolve.

(** ** What is printed is parsed *)

Definition plain (reserved s : text) : Prop := existsb (escapes reserved) s = false.

Lemma encode_plain reserved s d : plain reserved s -> encode s reserved d = Ok (d ++ s).
Proof. intros H. rewrite encode_lossy. destruct (lossy_plain reserved s H) as [-> _]. reflexivity. Qed.

Lemma decode_plain reserved s d : plain reserved s -> decode s d = (Ok tt, d ++ s).
Proof. intros H. apply percent_decode, percent_plain, (lossy_plain reserved s H). Qed.

Lemma plain_reserved reserved s c : plain reserved s -> In c reserved -> unreserved c = false -> ~ In c s.
Proof.
  intros H Hc Hu Hs. assert (existsb (escapes reserved) s = true) as E; [|unfold plain in H; congruence].
  apply existsb_exists. exists c. split; [exact Hs|]. unfold escapes, escaped. rewrite Hu, (proj2 (contains_In _ _) Hc), !orb_true_r. reflexivity.
Qed.

(** The text begins with one of the delimiters or is at its end. *)
Definition stops (cs : list Z) (s : text) : Prop := match s with [] => True | c :: _ => In c cs end.

Lemma none_of_false cs c : In c cs -> none_of cs c = false.
Proof. intros H. unfold none_of. apply negb_false_iff, existsb_exists. exists c. split; [exact H | apply Z.eqb_refl]. Qed.

Lemma none_of_true cs c : ~ In c cs -> none_of cs c = true.
Proof.
  intros H. unfold none_of. apply negb_true_iff, not_true_iff_false. intros E. apply existsb_exists in E as (d & Hd & E). zbool.
  subst. exact (H Hd).
Qed.

Definition without (cs : list Z) (s : text) : Prop := forall c, In c cs -> ~ In c s.

Lemma without_cons cs c s : without cs (c :: s) -> ~ In c cs /\ without cs s.
Proof. intros H. split; [intros Hc; apply (H c Hc); left; reflexivity | intros d Hd Hs; apply (H d Hd); right; exact Hs]. Qed.

Lemma without_app cs a b : without cs (a ++ b) <-> without cs a /\ without cs b.
Proof.
  unfold without. setoid_rewrite in_app_iff. split; [intros H; split; intros c Hc Hs; apply (H c Hc); auto | intros [Ha Hb] c Hc [Hs|Hs]; [exact (Ha c Hc Hs) | exact (Hb c Hc Hs)]].
Qed.

Lemma without_nil cs : without cs [].
Proof. intros c _ []. Qed.

Lemma without_incl cs cs' s : incl cs' cs -> without cs s -> without cs' s.
Proof. intros Hi H c Hc. apply H, Hi, Hc. Qed.

Lemma span_stops cs a b : without cs a -> stops cs b -> span (none_of cs) (a ++ b) = (a, b).
Proof.
  intros Ha Hb. induction a as [|c a IH]; cbn [app].
  - destruct b as [|c b]; [reflexivity|]. cbn [span]. rewrite none_of_false by exact Hb. reflexivity.
  - apply without_cons in Ha as [Hc Ha]. cbn [span]. rewrite none_of_true, IH by assumption. reflexivity.
Qed.

Definition query_part (u : t) : text := if is_empty (_query u) then [] else QUESTION :: _query u.
Definition fragment_part (u : t) : text := if is_empty (_fragment u) then [] else HASH :: _fragment u.

Lemma fragment_stops u : stops [HASH] (fragment_part u).
Proof. unfold fragment_part. destruct (is_empty _); cbn; auto. Qed.

Lemma parts_stop u : stops [QUESTION; HASH] (query_part u ++ fragment_part u).
Proof. unfold query_part, fragment_part. destruct (is_empty (_query u)); [destruct (is_empty (_fragment u))|]; cbn; auto. Qed.

Section Print.
Context {LC : LowerCase}.

(** What path, query and fragment must be. *)
Record plain_parts (u : t) : Prop := MkPlain {
  plain_path : plain RESERVED_PATH (_path u);
  plain_query : ~ In HASH (_query u);
  plain_fragment : plain RESERVED_FRAGMENT (_fragment u);
}.

Lemma path_without u : plain_parts u -> without [QUESTION; HASH] (_path u).
Proof.
  intros [H _ _] c Hc. apply (plain_reserved RESERVED_PATH); [exact H | exact Hc|]. destruct Hc as [<-|[<-|[]]]; reflexivity.
Qed.

Definition set_parts (u u0 : t) : t := with_fragment (_fragment u) (with_query (_query u) (with_path (_path u) u0)).

Lemma parseFragment_part u u0 : plain_parts u -> _fragment u0 = [] ->
  (match fragment_part u with c :: it' => if c =? HASH then parseFragment it' else ret (fragment_part u) | [] => ret (fragment_part u) end) u0
  = (Ok [], with_fragment (_fragment u) u0).
Proof.
  intros [_ _ Hf] H0. unfold fragment_part. destruct (_fragment u) as [|c f] eqn:E; cbn [is_empty].
  - destruct u0; cbn in *; subst; reflexivity.
  - rewrite Z.eqb_refl. unfold parseFragment, decodeFragment, zoom. erewrite bind_ok by (rewrite (decode_plain _ _ _ Hf), H0; reflexivity).
    reflexivity.
Qed.

Lemma parsePathEtc_parts u u0 : plain_parts u -> _path u0 = [] -> _query u0 = [] -> _fragment u0 = [] ->
  parsePathEtc (_path u ++ query_part u ++ fragment_part u) u0 = (Ok [], set_parts u u0).
Proof.
  intros Hu Hp Hq Hf. pose proof (path_without u Hu) as Hw. pose proof (parts_stop u) as Hs.
  set (tail := query_part u ++ fragment_part u) in *.
  assert (forall u1, _query u1 = [] -> _fragment u1 = [] ->
    (let! it := match tail with c :: it' => if c =? QUESTION then parseQuery it' else ret tail | [] => ret tail end in
     match it with c :: it' => if c =? HASH then parseFragment it' else ret it | [] => ret it end) u1
    = (Ok [], with_fragment (_fragment u) (with_query (_query u) u1))) as Ht.
  { intros u1 Hq1 Hf1. unfold tail, query_part. destruct (_query u) as [|c q] eqn:Eq; cbn [is_empty app].
    - pose proof (fragment_stops u) as Hfs.
      pose proof (parseFragment_part u u1 Hu Hf1) as Hpf.
      replace (with_query [] u1) with u1 by (rewrite <- Hq1; destruct u1; reflexivity).
      destruct (fragment_part u) as [|d f]; [exact Hpf|]. destruct Hfs as [<-|[]]. exact Hpf.
    - rewrite Z.eqb_refl. unfold parseQuery. rewrite <- Eq. rewrite app_comm_cons, <- Eq, span_stops;
        [|intros x [<-|[]]; apply (plain_query u Hu) | apply fragment_stops].
      rewrite bind_assoc, bind_modify, bind_ret_l. rewrite parseFragment_part by assumption. reflexivity. }
  unfold parsePathEtc. destruct (_path u) as [|c p] eqn:Ep.
  - cbn [app]. unfold set_parts. rewrite Ep. replace (with_path [] u0) with u0 by (destruct u0; cbn in *; subst; reflexivity).
    destruct tail as [|d tl] eqn:Et; [exact (Ht u0 Hq Hf)|].
    rewrite none_of_false by exact Hs. rewrite bind_ret_l. exact (Ht u0 Hq Hf).
  - cbn [app]. apply without_cons in Hw as Hc. rewrite none_of_true by apply Hc. unfold parsePath.
    rewrite app_comm_cons, span_stops by assumption. unfold decodePath, zoom. rewrite bind_assoc.
    erewrite bind_ok by (rewrite <- Ep, (decode_plain _ _ _ (plain_path u Hu)), Hp; reflexivity).
    rewrite bind_ret_l, (Ht (with_path _ u0)) by assumption. unfold set_parts. rewrite Ep. reflexivity.
Qed.
(** *** The port *)

Definition port_part (u : t) : text :=
  if negb (_port u =? 0) && negb (isWellKnownPort u) then COLON :: Integer.toString (_port u) else [].

Lemma port_stops u : stops [COLON] (port_part u).
Proof. unfold port_part. destruct (_ && _); cbn; auto. Qed.

Record good_port (u : t) : Prop := MkGoodPort {
  port_range : 0 <= _port u < 65536;
  port_known : _port u = 0 -> getWellKnownPort u = 0;
}.

Lemma parsePort_part u u0 : good_port u -> _scheme u0 = _scheme u ->
  parsePort (port_part u) u0 = (Ok tt, with_port (_port u) u0).
Proof.
  intros [Hr Hk] Hs. assert (getWellKnownPort u0 = getWellKnownPort u) as Ew by (unfold getWellKnownPort; rewrite Hs; reflexivity).
  unfold port_part. destruct (negb (_port u =? 0) && negb (isWellKnownPort u)) eqn:E.
  - apply andb_true_iff in E as [E0 _]. apply negb_true_iff in E0. zbool. unfold Integer.toString.
    rewrite (proj2 (Z.ltb_ge _ _)) by lia. cbn [parsePort]. rewrite Z.eqb_refl.
    destruct (Integer.digits_head 9 (_port u)) as (c & s & Ed & _); [lia|]. pose proof (Integer.tryParse_digits (_port u) ltac:(solve_range)) as Ht.
    rewrite Ed in *. rewrite bind_reads, Ht, !Z.gtb_ltb, !(proj2 (Z.ltb_lt _ _)) by lia. reflexivity.
  - cbn [parsePort]. unfold modify. rewrite Ew. replace (getWellKnownPort u) with (_port u); [reflexivity|].
    apply andb_false_iff in E as [E|E]; apply negb_false_iff in E; [zbool; rewrite Hk by exact E; exact E | unfold isWellKnownPort in E; zbool; exact E].
Qed.

(** *** The authority *)

Definition host_part (u : t) : text := if contains (_host u) COLON then LBRACKET :: _host u ++ [RBRACKET] else _host u.

Lemma getAuthority_parts u : getAuthority u = (if is_empty (_userInfo u) then [] else _userInfo u ++ [AT]) ++ host_part u ++ port_part u.
Proof.
  unfold getAuthority, host_part, port_part, Integer.append. destruct (contains (_host u) COLON), (_ && _);
    rewrite <- ?app_assoc, ?app_nil_r; reflexivity.
Qed.

Record good_authority (u : t) : Prop := MkGoodAuthority {
  auth_userInfo : without [SLASH; QUESTION; HASH; AT] (_userInfo u);
  auth_host : without [SLASH; QUESTION; HASH; AT] (_host u);
  auth_bracket : contains (_host u) COLON = true -> ~ In RBRACKET (_host u);
  auth_plain : starts_with LBRACKET (_host u) = false;
  auth_lower : to_lower (_host u) = _host u;
  auth_port : good_port u;
}.

Lemma parseHostAndPort_parts u u0 : good_authority u -> _scheme u0 = _scheme u -> _host u0 = [] -> _port u0 = getWellKnownPort u ->
  parseHostAndPort (host_part u ++ port_part u) u0 = (Ok tt, with_host (_host u) (with_port (_port u) u0)).
Proof.
  intros [_ Hh Hb Hl Ho Hp] Hs H0 Hp0. pose proof (port_stops u) as Hst. pose proof (parsePort_part u u0 Hp Hs) as Hpp.
  assert (forall m : text * text, fst m = _host u -> snd m = port_part u ->
    (parsePort (snd m) ;! modify (with_host (to_lower (fst m)))) u0 = (Ok tt, with_host (_host u) (with_port (_port u) u0))) as Hend.
  { intros [a b] Ea Eb. cbn [fst snd] in *. subst a b. erewrite bind_ok by exact Hpp. unfold modify. rewrite Ho. reflexivity. }
  unfold host_part in *. destruct (contains (_host u) COLON) eqn:Ec.
  - cbn [app]. rewrite <- app_assoc. cbn [parseHostAndPort app]. rewrite Z.eqb_refl.
    rewrite span_stops; [| intros c [<-|[]]; exact (Hb eq_refl) | left; reflexivity]. rewrite bind_ret_l. apply Hend; reflexivity.
  - assert (without [COLON] (_host u)) as Hw.
    { intros c [<-|[]] Hin. apply contains_In in Hin. congruence. }
    destruct (_host u ++ port_part u) as [|c rest] eqn:E.
    + apply app_eq_nil in E as [E1 E2]. cbn [parseHostAndPort]. rewrite E2 in Hpp. cbn [parsePort modify] in Hpp.
      assert (with_port (_port u) u0 = u0) as ->.
      { unfold modify in Hpp. injection Hpp as <-. unfold getWellKnownPort in *. rewrite Hs, <- Hp0. destruct u0; reflexivity. }
      rewrite E1, <- H0. destruct u0; reflexivity.
    + cbn [parseHostAndPort]. assert (c <> LBRACKET) as Hc.
      { destruct (_host u) as [|d h]; cbn [app] in E; [rewrite E in Hst; destruct Hst as [<-|[]]; discriminate|].
        injection E as -> _. cbn in Hl. zbool. exact Hl. }
      rewrite (proj2 (Z.eqb_neq _ _)), bind_ret_l by exact Hc. rewrite <- E, span_stops by assumption. apply Hend; reflexivity.
Qed.

Lemma authorityLoop_run s : without [SLASH; QUESTION; HASH; AT] s -> forall rest ui part,
  authorityLoop (s ++ rest) ui part = authorityLoop rest ui (part ++ s).
Proof.
  induction s as [|c s IH]; intros Hs rest ui part; [rewrite app_nil_r; reflexivity|]. apply without_cons in Hs as [Hc Hs].
  cbn [app authorityLoop]. rewrite none_of_true by (intros H; apply Hc; cbn in *; tauto).
  rewrite (proj2 (Z.eqb_neq c AT)) by (intros ->; apply Hc; cbn; tauto). rewrite IH, <- app_assoc by exact Hs. reflexivity.
Qed.

Lemma digits_without n cs : 0 <= n -> (forall c, In c cs -> Character.isDigit c = false) -> without cs (Integer.toString n).
Proof.
  intros Hn Hcs c Hc Hin. unfold Integer.toString in Hin. rewrite (proj2 (Z.ltb_ge _ _)) in Hin by lia.
  pose proof (Integer.digits_digits 10 n Hn) as H. rewrite forallb_forall in H. specialize (H c Hin). rewrite (Hcs c Hc) in H. discriminate.
Qed.

Lemma hostport_without u : good_authority u -> without [SLASH; QUESTION; HASH; AT] (host_part u ++ port_part u).
Proof.
  intros [_ Hh _ _ _ [Hr _]]. apply without_app. split.
  - unfold host_part. destruct (contains _ _); [|exact Hh]. change (LBRACKET :: _host u ++ [RBRACKET]) with ([LBRACKET] ++ _host u ++ [RBRACKET]).
    rewrite !without_app. repeat split; try exact Hh; intros c Hc [<-|[]]; cbn in Hc; repeat destruct Hc as [Hc|Hc]; discriminate || exact Hc.
  - unfold port_part. destruct (_ && _); [|apply without_nil]. change (COLON :: ?s) with ([COLON] ++ s). apply without_app. split.
    + intros c Hc [<-|[]]. cbn in Hc. repeat destruct Hc as [Hc|Hc]; discriminate || exact Hc.
    + apply digits_without; [lia|]. intros c Hc. cbn in Hc. repeat destruct Hc as [<-|Hc]; reflexivity || contradiction.
Qed.

Lemma parseAuthority_parts u u0 rest : good_authority u -> stops [SLASH; QUESTION; HASH] rest ->
  _scheme u0 = _scheme u -> _userInfo u0 = [] -> _host u0 = [] -> _port u0 = getWellKnownPort u ->
  parseAuthority (getAuthority u ++ rest) u0 =
  (Ok rest, with_userInfo (_userInfo u) (with_host (_host u) (with_port (_port u) u0))).
Proof.
  intros Ha Hr Hs Hi Hh Hp. pose proof (hostport_without u Ha) as Hw. pose proof Ha as [Hu _ _ _ _ _].
  assert (authorityLoop (getAuthority u ++ rest) [] [] = (_userInfo u, host_part u ++ port_part u, rest)) as E.
  { assert (forall ui part, authorityLoop rest ui part = (ui, part, rest)) as Hend.
    { intros ui part. destruct rest as [|c rest']; [reflexivity|]. cbn [authorityLoop]. rewrite none_of_false by exact Hr. reflexivity. }
    rewrite getAuthority_parts, <- app_assoc. destruct (_userInfo u) as [|c i] eqn:Ei; cbn [is_empty].
    - cbn [app]. rewrite authorityLoop_run, Hend by exact Hw. reflexivity.
    - rewrite <- Ei in *. rewrite <- app_assoc. rewrite authorityLoop_run by exact Hu. cbn [app authorityLoop].
      rewrite none_of_true by (cbn; intros H; repeat destruct H as [H|H]; discriminate || exact H). rewrite Z.eqb_refl.
      rewrite authorityLoop_run, Hend by exact Hw. reflexivity. }
  unfold parseAuthority. rewrite E. erewrite bind_ok by (apply parseHostAndPort_parts; assumption). rewrite bind_modify. reflexivity.
Qed.
(** *** The whole text *)

(** Whether two slashes are printed behind the scheme. *)
Definition slashes (u : t) : bool := negb (is_empty (getAuthority u)) || text_eqb (_scheme u) (str "file").

Definition front (u : t) : text :=
  if isRelative u then [] else _scheme u ++ COLON :: (if slashes u then SLASH :: SLASH :: getAuthority u else []).

Definition rest (u : t) : text := _path u ++ query_part u ++ fragment_part u.

(** A reference that is not read as one with a scheme. *)
Record good_reference (u : t) : Prop := MkReference {
  ref_userInfo : _userInfo u = [];
  ref_host : _host u = [];
  ref_port : _port u = 0;
  ref_path : starts_with DOT (_path u) = true \/ ~ In COLON (fst (span (none_of [SLASH]) (_path u)));
}.

Record good_scheme (u : t) : Prop := MkScheme {
  scheme_chars : without [COLON; QUESTION; HASH; SLASH] (_scheme u);
  scheme_dot : starts_with DOT (_scheme u) = false;
  scheme_lower : to_lower (_scheme u) = _scheme u;
  scheme_authority : good_authority u;
  scheme_path : if slashes u then _path u = [] \/ starts_with SLASH (_path u) = true
                else forall p, _path u <> SLASH :: SLASH :: p;
  scheme_rest : slashes u = true \/ rest u <> [];
}.

(** The URIs that need no escapes and whose parts do not run into one another. *)
Definition printable (u : t) : Prop := plain_parts u /\ if isRelative u then good_reference u else good_scheme u.

Lemma appendTail u s : plain_parts u -> appendFragment u (appendQuery u s) = Ok (s ++ query_part u ++ fragment_part u).
Proof.
  intros [_ _ Hf]. unfold appendFragment, appendQuery, query_part, fragment_part.
  destruct (is_empty (_query u)), (is_empty (_fragment u)); rewrite ?app_nil_r, ?(encode_plain _ _ _ Hf), <- ?app_assoc; reflexivity.
Qed.

Lemma toString_parts u : printable u -> toString u = Ok (front u ++ rest u).
Proof.
  intros [Hp Hu]. unfold toString, front, rest. destruct (isRelative u) eqn:Er.
  - rewrite (encode_plain _ _ _ (plain_path u Hp)). cbn [rbind app]. apply appendTail. exact Hp.
  - destruct Hu as [_ _ _ _ Hpath _]. fold (slashes u).
    set (uri := if slashes u then (_scheme u ++ [COLON]) ++ SLASH :: SLASH :: getAuthority u else _scheme u ++ [COLON]).
    assert (uri = _scheme u ++ COLON :: (if slashes u then SLASH :: SLASH :: getAuthority u else [])) as Eu
      by (unfold uri; destruct (slashes u); [rewrite <- app_assoc|]; reflexivity).
    rewrite <- Eu. destruct (_path u) as [|c p] eqn:Ep; cbn [is_empty]; [cbn [rbind app]; apply appendTail; exact Hp|].
    assert (negb (is_empty (getAuthority u)) && negb (starts_with SLASH (c :: p)) = false) as ->.
    { destruct (is_empty (getAuthority u)) eqn:Ea; [reflexivity|]. unfold slashes in Hpath. rewrite Ea in Hpath. cbn [negb orb andb] in *.
      destruct Hpath as [Hpath|Hpath]; [discriminate|]. rewrite Hpath. reflexivity. }
    pose proof (plain_path u Hp) as Hpl. rewrite Ep in Hpl. rewrite (encode_plain _ _ _ Hpl). cbn [rbind].
    rewrite appendTail, <- app_assoc by exact Hp. reflexivity.
Qed.

Lemma parse_tail u u0 : plain_parts u -> _path u0 = [] -> _query u0 = [] -> _fragment u0 = [] ->
  (parsePathEtc (rest u) ;! ret tt) u0 = (Ok tt, set_parts u u0).
Proof. intros Hp H1 H2 H3. erewrite bind_ok by (apply parsePathEtc_parts; assumption). reflexivity. Qed.

Lemma span_split p s : let '(a, b) := span p s in s = a ++ b /\ Forall (fun c => p c = true) a /\ match b with [] => True | c :: _ => p c = false end.
Proof.
  induction s as [|c s IH]; cbn [span]; [auto|]. destruct (p c) eqn:E; [|auto]. destruct (span p s) as [a b]. destruct IH as (-> & Ha & Hb).
  split; [reflexivity|]. split; [constructor; assumption | exact Hb].
Qed.

(** The scan for a scheme ends before a colon. *)
Lemma reference_span u : plain_parts u -> starts_with DOT (_path u) = true \/ ~ In COLON (fst (span (none_of [SLASH]) (_path u))) ->
  match rest u with c :: _ => none_of [SLASH; DOT; QUESTION; HASH] c = false | [] => True end \/
  match span (none_of [COLON; QUESTION; HASH; SLASH]) (rest u) with (_, d :: _) => d <> COLON | _ => True end.
Proof.
  intros Hp [Hd|Hc].
  - left. unfold rest. destruct (_path u) as [|c p]; [discriminate|]. cbn in Hd. zbool. subst c. cbn [app]. apply none_of_false. cbn. auto.
  - right. pose proof (path_without u Hp) as Hw. pose proof (span_split (none_of [SLASH]) (_path u)) as Hs.
    destruct (span (none_of [SLASH]) (_path u)) as [a b]. cbn [fst] in Hc. destruct Hs as (Ep & Ha & Hb). unfold rest. rewrite Ep in *.
    apply without_app in Hw as [Hwa Hwb].
    assert (without [COLON; QUESTION; HASH; SLASH] a) as Hall.
    { intros c Hin Ha'. destruct Hin as [<-|[<-|[<-|[<-|[]]]]]; [exact (Hc Ha') | apply (Hwa QUESTION); cbn; auto | apply (Hwa HASH); cbn; auto |].
      rewrite List.Forall_forall in Ha. specialize (Ha SLASH). rewrite none_of_false in Ha by (left; reflexivity).
      specialize (Ha Ha'). discriminate. }
    assert (forall tl, stops [QUESTION; HASH; SLASH] tl -> match span (none_of [COLON; QUESTION; HASH; SLASH]) (a ++ tl) with (_, d :: _) => d <> COLON | _ => True end) as Hend.
    { intros tl Ht. rewrite span_stops; [| exact Hall | destruct tl; [exact I | cbn in *; tauto]].
      destruct tl as [|d tl]; [exact I|]. intros ->. destruct Ht as [?|[?|[?|[]]]]; discriminate. }
    rewrite <- app_assoc. apply Hend. destruct b as [|c b].
    + cbn [app]. pose proof (parts_stop u) as Hs. destruct (query_part u ++ fragment_part u); [exact I|]. cbn in *. tauto.
    + cbn [app stops]. right. right. left. unfold none_of in Hb. apply negb_false_iff in Hb. cbn in Hb. rewrite orb_false_r in Hb. zbool. symmetry. exact Hb.
Qed.

Lemma parse_reference u : printable u -> isRelative u = true -> parse (front u ++ rest u) empty_uri = (Ok tt, u).
Proof.
  intros [Hp Hu] Er. unfold front. rewrite Er in *. cbn [app]. destruct Hu as [Hi Hh Hpo Hpath].
  pose proof (parse_tail u empty_uri Hp eq_refl eq_refl eq_refl) as Ht.
  assert (set_parts u empty_uri = u) as Eu.
  { unfold isRelative in Er. destruct u as [sc ui h p pa q f]. cbn in *. subst. destruct sc; [reflexivity | discriminate]. }
  rewrite Eu in Ht. destruct (rest u) as [|c tl] eqn:E; [cbn in Ht |- *; exact Ht|]. cbn [parse].
  pose proof (reference_span u Hp Hpath) as Hs. rewrite E in Hs. destruct (none_of [SLASH; DOT; QUESTION; HASH] c); [|exact Ht].
  destruct Hs as [Hs|Hs]; [discriminate|]. destruct (span _ (c :: tl)) as [sc [|d it]]; [exact Ht|].
  rewrite (proj2 (Z.eqb_neq _ _)) by exact Hs. exact Ht.
Qed.

Lemma setScheme_run u : to_lower (_scheme u) = _scheme u ->
  setScheme (_scheme u) empty_uri = (Ok tt, MkURI (_scheme u) [] [] (getWellKnownPort u) [] [] []).
Proof. intros H. unfold setScheme, modify, bind. rewrite H. reflexivity. Qed.

Lemma parse_absolute u : printable u -> isRelative u = false -> parse (front u ++ rest u) empty_uri = (Ok tt, u).
Proof.
  intros [Hp Hu] Er. unfold front. rewrite Er in *. destruct Hu as [Hch Hdot Hlow Ha Hpath Hrest].
  set (it := (if slashes u then SLASH :: SLASH :: getAuthority u else []) ++ rest u).
  assert ((_scheme u ++ COLON :: (if slashes u then SLASH :: SLASH :: getAuthority u else [])) ++ rest u = _scheme u ++ COLON :: it) as ->
    by (rewrite <- app_assoc; reflexivity).
  unfold isRelative in Er. destruct (_scheme u) as [|c sc] eqn:Es; [discriminate|]. cbn [app parse].
  apply without_cons in Hch as Hc. rewrite none_of_true.
  2:{ intros H. destruct H as [<-|[<-|[<-|[<-|[]]]]]; try (apply (proj1 Hc); cbn; tauto). cbn in Hdot. discriminate. }
  rewrite app_comm_cons, <- Es, span_stops by first [rewrite Es; exact Hch | left; reflexivity]. rewrite Z.eqb_refl.
  set (u1 := MkURI (_scheme u) [] [] (getWellKnownPort u) [] [] []).
  assert (forall m, (m : M t unit) u1 = (Ok tt, u) -> (setScheme (_scheme u) ;! m) empty_uri = (Ok tt, u)) as Hset.
  { intros m Hm. erewrite bind_ok by (apply setScheme_run; rewrite Es; exact Hlow). exact Hm. }
  destruct (slashes u) eqn:Esl; unfold it.
  - cbn [app]. apply Hset. rewrite !Z.eqb_refl.
    erewrite bind_ok by (apply parseAuthority_parts; [exact Ha | | reflexivity..]; unfold rest; destruct Hpath as [->|Hs];
      [pose proof (parts_stop u) as Hst; cbn [app]; destruct (query_part u ++ fragment_part u); [exact I | cbn in *; tauto] |
       destruct (_path u); [discriminate | cbn in Hs; zbool; subst; left; reflexivity]]).
    rewrite parse_tail by (assumption || reflexivity). destruct u. reflexivity.
  - cbn [app]. destruct Hrest as [Hrest|Hrest]; [discriminate|]. destruct (rest u) as [|d tl] eqn:E; [contradiction|]. apply Hset.
    assert (_userInfo u = [] /\ _host u = [] /\ _port u = getWellKnownPort u) as (Hi & Hh & Hpo).
    { unfold slashes in Esl. apply orb_false_iff in Esl as [Esl _]. rewrite getAuthority_parts in Esl.
      destruct (_userInfo u); [|discriminate]. split; [reflexivity|]. cbn [is_empty app] in Esl. unfold host_part, port_part in Esl.
      destruct (contains (_host u) COLON); [discriminate|]. destruct (_host u); [|discriminate]. split; [reflexivity|]. cbn [app] in Esl.
      destruct (_port u =? 0) eqn:E0; zbool; [rewrite E0; symmetry; apply (port_known u (auth_port u Ha)); exact E0|].
      unfold isWellKnownPort in Esl. destruct (_port u =? getWellKnownPort u) eqn:Ew; zbool; [exact Ew | discriminate]. }
    assert (set_parts u u1 = u) as Eu by (unfold u1; rewrite <- Hpo; clear - Hi Hh; destruct u; cbn in *; rewrite Hi, Hh; reflexivity).
    assert ((parsePathEtc (d :: tl) ;! ret tt) u1 = (Ok tt, u)) as Hend by (rewrite <- E, parse_tail, Eu by (assumption || reflexivity); reflexivity).
    destruct (d =? SLASH) eqn:Ed; [|exact Hend]. zbool. subst d. destruct tl as [|d tl]; [exact Hend|].
    destruct (d =? SLASH) eqn:Ed; [|exact Hend]. zbool. subst d. exfalso. unfold rest in E. destruct (_path u) as [|x [|y p]] eqn:Ep.
    + cbn [app] in E. pose proof (parts_stop u) as Hst. rewrite E in Hst. destruct Hst as [?|[?|[]]]; discriminate.
    + injection E as -> E. pose proof (parts_stop u) as Hst. rewrite E in Hst. destruct Hst as [?|[?|[]]]; discriminate.
    + injection E as -> -> _. apply (Hpath p). reflexivity.
Qed.

(** C25: a URI whose parts need no escapes and do not run into one another is printed,
    and parsing the text gives the same URI: scheme, user information, host - an IPv6
    address in brackets too -, port, path, query and fragment. *)
Theorem parse_printed_uri (u : t) : printable u -> exists s, toString u = Ok s /\ new s = Ok u.
Proof.
  intros Hu. exists (front u ++ rest u). split; [exact (toString_parts u Hu)|]. unfold new, construct.
  destruct (isRelative u) eqn:E; [rewrite (parse_reference u Hu E) | rewrite (parse_absolute u Hu E)]; reflexivity.
Qed.
End Print.

(** ** Instances of the hypotheses *)

Section Witnesses.

(** Lower case in the C locale. *)
#[local] Instance cLowerCase : LowerCase := {| to_lower := map (fun c => if (65 <=? c) && (c <=? 90) then c + 32 else c) |}.

(** http://me@[::1]:8080/a/b?x=1&y#top *)
Definition uri6 : t := MkURI (str "http") (str "me") (str "::1") 8080 (str "/a/b") (str "x=1&y") (str "top").

(** Text without some chars, by evaluation. *)
Lemma without_eval cs s : forallb (fun c => negb (existsb (Z.eqb c) s)) cs = true -> without cs s.
Proof.
  intros H c Hc Hs. rewrite forallb_forall in H. specialize (H c Hc). apply negb_true_iff in H.
  assert (existsb (Z.eqb c) s = true) as E; [|congruence]. apply existsb_exists. exists c. split; [exact Hs | apply Z.eqb_refl].
Defined.

Lemma uri6_printable : printable uri6.
Proof.
  split.
  - split; [reflexivity | apply (without_eval [HASH]); [reflexivity | left; reflexivity] | reflexivity].
  - split; [apply without_eval; reflexivity | reflexivity | reflexivity | | right; reflexivity | left; reflexivity].
    split; [apply without_eval; reflexivity | apply without_eval; reflexivity | | reflexivity | reflexivity |].
    + intros _. apply (without_eval [RBRACKET]); [reflexivity | left; reflexivity].
    + split; [split; [discriminate | reflexivity] | discriminate].
Defined.

Lemma parse_printed_uri_witness :
  exists s, toString uri6 = Ok s /\ s = str "http://me@[::1]:8080/a/b?x=1&y#top" /\ new s = Ok uri6.
Proof.
  destruct (parse_printed_uri uri6 uri6_printable) as (s & E & H). exists s. split; [exact E|]. split; [|exact H].
  assert (toString uri6 = Ok (str "http://me@[::1]:8080/a/b?x=1&y#top")) as E' by (vm_compute; reflexivity). congruence.
Defined.

(** The RFC keeps an empty segment as a directory of its own: two dots behind it lead to
    the directory in front of it, where the library goes one further up. *)
Definition example_base : t := MkURI (str "http") [] (str "h") 80 [] [] [].
Definition resolved_path (reference : string) : text :=
  match new (str reference) with Ok r => _path (snd (resolve r example_base)) | Err _ => [] end.

Example empty_segment :
  resolved_path "/a//../b" = str "/b" /\ remove_dot_segments (str "/a//../b") = str "/a/b".
Proof. vm_compute. split; reflexivity. Qed.

(** Behind dots at the end of an absolute path the RFC leaves a slash. *)
Example dots_at_end :
  resolved_path "/a/b/.." = str "/a" /\ remove_dot_segments (str "/a/b/..") = str "/a/".
Proof. vm_compute. split; reflexivity. Qed.

(** The normal examples of section 5.4.1, but one. *)
Definition resolves (base : t) (reference expected : string) : bool :=
  match new (str reference) with
  | Ok r => match toString (snd (resolve r base)) with Ok s => text_eqb s (str expected) | Err _ => false end
  | Err _ => false
  end.

Example rfc_examples :
  forallb (fun x => resolves (MkURI (str "http") [] (str "a") 80 (str "/b/c/d;p") (str "q") []) (fst x) (snd x))
    [("g", "http://a/b/c/g"); ("./g", "http://a/b/c/g"); ("g/", "http://a/b/c/g/"); ("/g", "http://a/g");
     ("?y", "http://a/b/c/d;p?y"); ("g?y", "http://a/b/c/g?y"); ("#s", "http://a/b/c/d;p?q#s"); ("g#s", "http://a/b/c/g#s");
     ("g?y#s", "http://a/b/c/g?y#s"); (";x", "http://a/b/c/;x"); ("g;x", "http://a/b/c/g;x"); ("g;x?y#s", "http://a/b/c/g;x?y#s");
     ("", "http://a/b/c/d;p?q"); (".", "http://a/b/c/"); ("./", "http://a/b/c/"); ("..", "http://a/b/"); ("../", "http://a/b/");
     ("../g", "http://a/b/g"); ("../..", "http://a/"); ("../../", "http://a/"); ("../../g", "http://a/g")]%string = true.
Proof. vm_compute. reflexivity. Qed.

(** A reference that begins with its authority is parsed as a path: the host that it names
    is not the target's. *)
Example network_path : resolves (MkURI (str "http") [] (str "a") 80 (str "/b/c/d;p") (str "q") []) "//g" "http://a/g" = true.
Proof. vm_compute. reflexivity. Qed.

End Witnesses.
