(* ===== verification/HttpHeader.v ===== *)
(** * HTTP headers

    [HttpCodecUtil] and [DefaultHttpHeader] of
    [src/src/cetty/handler/codec/http]: the checks of names and values, and the
    table of headers: 17 hash buckets, each a singly linked chain, whose entries
    are also in one doubly linked ring in the order they were added.  The entries
    live in a store that pointers point into; the use of a null pointer, of a
    pointer that was deleted, or of a bucket that does not exist is [Undefined]. *)

From stdpp Require Import gmap.
From S2P Require Import Prelude MachineInt Text.

(** ** HttpCodecUtil *)

Module HttpCodecUtil.

Definition SP : Z := 32.
Definition HT : Z := 9.
Definition CR : Z := 13.
Definition LF : Z := 10.
Definition COLON : Z := 58.
Definition CRLF : text := [CR; LF].

(** The chars of the [switch] of [validateHeaderName]. *)
Definition prohibited (c : Z) : bool :=
  match c with
  | 9 | 10 | 11 | 12 | 13 | 32 | 44 | 58 | 59 | 61 => true
  | _ => false
  end.

Fixpoint validateHeaderName (name : text) : result unit :=
  match name with
  | [] => Ok tt
  | c :: name =>
      if c >? 127 then Err InvalidArgumentException
      else if prohibited c then Err InvalidArgumentException
      else validateHeaderName name
  end.

(** The state of [validateHeaderValue]: what the char before was. *)
Fixpoint validateValueFrom (state : Z) (value : text) : result unit :=
  match value with
  | [] => if negb (state =? 0) then Err InvalidArgumentException else Ok tt
  | c :: value =>
      if (c =? 11) || (c =? 12) then Err InvalidArgumentException
      else if state =? 0 then
        validateValueFrom (if c =? CR then 1 else if c =? LF then 2 else 0) value
      else if state =? 1 then
        if c =? LF then validateValueFrom 2 value else Err InvalidArgumentException
      else
        if (c =? HT) || (c =? SP) then validateValueFrom 0 value else Err InvalidArgumentException
  end.

Definition validateHeaderValue (value : text) : result unit := validateValueFrom 0 value.

End HttpCodecUtil.

(** ** The interface HttpHeader

    The virtual functions; the lists that are filled by the other overloads of
    [gets] and [getNames] are those that are returned. *)

Module HttpHeader.
Class HttpHeader (H : Type) := {
  get : text -> M H text;
  getValues : text -> M H (list text);
  gets : M H (list (text * text));
  contains : text -> M H bool;
  getNames : M H (list text);
  add : text -> text -> M H unit;
  addInt : text -> Z -> M H unit;
  set : text -> text -> M H unit;
  setInt : text -> Z -> M H unit;
  setValues : text -> list text -> M H unit;
  setInts : text -> list Z -> M H unit;
  remove : text -> M H unit;
  removeValue : text -> text -> M H unit;
  clear : M H unit;
}.
End HttpHeader.

(** ** DefaultHttpHeader *)

Module DefaultHttpHeader.

Abbreviation addr := positive.

Record Entry := MkEntry {
  hash : Z;
  key : text;
  value : text;
  next : option addr;
  before : option addr;
  after : option addr;
}.

(** The table, with the store of its entries and the next address of the store.
    Nothing puts an entry into the free list, so that an entry that was removed
    is never used again. *)
Record t := MkHeader {
  store : gmap addr Entry;
  fresh : addr;
  entries : list (option addr);
  head : addr;
  freelist : option addr;
}.

Abbreviation HM := (M t).

Definition BUCKET_SIZE : Z := 17.

Definition with_next (p : option addr) (e : Entry) : Entry :=
  MkEntry (hash e) (key e) (value e) p (before e) (after e).
Definition with_before (p : option addr) (e : Entry) : Entry :=
  MkEntry (hash e) (key e) (value e) (next e) p (after e).
Definition with_after (p : option addr) (e : Entry) : Entry :=
  MkEntry (hash e) (key e) (value e) (next e) (before e) p.
Definition with_store (s : gmap addr Entry) (h : t) : t :=
  MkHeader s (fresh h) (entries h) (head h) (freelist h).
Definition with_entries (l : list (option addr)) (h : t) : t :=
  MkHeader (store h) (fresh h) l (head h) (freelist h).
Definition with_freelist (p : option addr) (h : t) : t :=
  MkHeader (store h) (fresh h) (entries h) (head h) p.

(** *** Pointers *)

Definition deref (p : option addr) : HM Entry := reads (fun h =>
  match p with
  | Some a => match store h !! a with Some e => Ok e | None => Err Undefined end
  | None => Err Undefined
  end).

(** An assignment to a member of the entry at [p]. *)
Definition assign (p : option addr) (f : Entry -> Entry) : HM unit :=
  let! e := deref p in
  match p with
  | Some a => modify (fun h => with_store (<[a := f e]> (store h)) h)
  | None => throw Undefined
  end.

(** [delete]. *)
Definition delete_entry (a : addr) : HM unit :=
  let! e := deref (Some a) in
  modify (fun h => with_store (delete a (store h)) h).

Definition getBucket (i : Z) : HM (option addr) := reads (fun h =>
  if (0 <=? i) && (i <? BUCKET_SIZE)
  then match entries h !! Z.to_nat i with Some p => Ok p | None => Err Undefined end
  else Err Undefined).

Definition setBucket (i : Z) (p : option addr) : HM unit :=
  if (0 <=? i) && (i <? BUCKET_SIZE)
  then modify (fun h => with_entries (<[Z.to_nat i := p]> (entries h)) h)
  else throw Undefined.

(** [new Entry(hash, key, value)]. *)
Definition alloc (e : Entry) : HM addr :=
  let! a := gets fresh in
  modify (fun h => MkHeader (<[a := e]> (store h)) (Pos.succ a) (entries h) (head h) (freelist h)) ;!
  ret a.

(** Every walk ends within as many steps as there are entries. *)
Definition walkFuel (h : t) : nat := S (size (store h)).

(** *** Hashes and comparison *)

Definition lower (c : Z) : Z := if (65 <=? c) && (c <=? 90) then i8 (c + 32) else c.

(** The loop runs from the last char to the first; an overflow wraps. *)
Definition hashLoop (name : text) : Z :=
  fold_right (fun c h => i32 (31 * h + lower c)) 0 name.

Definition hash_of (name : text) : Z :=
  let h := hashLoop name in
  if h >? 0 then h else if h =? INT_MIN then INT_MAX else i32 (- h).

Definition eq_char (c1 c2 : Z) : bool := (c1 =? c2) || (lower c1 =? lower c2).

Definition eq (name1 name2 : text) : bool :=
  (length name1 =? length name2)%nat && forallb (fun '(c1, c2) => eq_char c1 c2) (zip name1 name2).

Definition index (h : Z) : Z := Z.rem h BUCKET_SIZE.

(** The tests of the two [removeHeader]s. *)
Definition same_name (h : Z) (name : text) (e : Entry) : bool := (hash e =? h) && eq name (key e).
Definition same_header (h : Z) (name v : text) (e : Entry) : bool :=
  (hash e =? h) && eq name (key e) && eq v (value e).

(** *** The list of an entry *)

Definition remove_entry (a : addr) : HM unit :=
  let! e := deref (Some a) in
  assign (before e) (with_after (after e)) ;!
  let! e := deref (Some a) in
  assign (after e) (with_before (before e)).

Definition addBefore (a e : addr) : HM unit :=
  assign (Some a) (with_after (Some e)) ;!
  let! x := deref (Some e) in
  assign (Some a) (with_before (before x)) ;!
  let! self := deref (Some a) in
  assign (before self) (with_after (Some a)) ;!
  let! self := deref (Some a) in
  assign (after self) (with_before (Some a)).

(** *** The private operations *)

Definition newEntry (h : Z) (name v : text) : HM addr :=
  let! fl := gets freelist in
  match fl with
  | Some entry =>
      let! e := deref (Some entry) in
      modify (with_freelist (next e)) ;!
      ret entry
  | None => alloc (MkEntry h name v None None None)
  end.

(** [deleteEntry], which nothing calls, and the loop of [clearFreeList]. *)
Definition clear_entry (e : Entry) : Entry := MkEntry (hash e) [] [] None (before e) (after e).
Definition deleteEntry (a : addr) : HM unit :=
  assign (Some a) clear_entry ;!
  let! fl := gets freelist in
  match fl with
  | Some f => assign (Some a) (with_next (Some f)) ;! modify (with_freelist (Some a))
  | None => ret tt
  end ;!
  modify (with_freelist (Some a)).

Fixpoint clearFreeListLoop (fuel : nat) : HM unit :=
  let! fl := gets freelist in
  match fl with
  | None => ret tt
  | Some a =>
      match fuel with
      | O => throw Undefined
      | S fuel =>
          let! e := deref (Some a) in
          delete_entry a ;!
          modify (with_freelist (next e)) ;!
          clearFreeListLoop fuel
      end
  end.
Definition clearFreeList : HM unit :=
  let! fuel := gets walkFuel in clearFreeListLoop fuel.

Definition addHeader (h i : Z) (name v : text) : HM unit :=
  let! e := getBucket i in
  let! entry := newEntry h name v in
  setBucket i (Some entry) ;!
  assign (Some entry) (with_next e) ;!
  let! hd := gets head in
  addBefore entry hd.

(** The first loop of [removeHeader]: the entries at the front of the bucket;
    [None] when the bucket is empty at its end. *)
Fixpoint removeFront (fuel : nat) (i : Z) (test : Entry -> bool) (a : addr) : HM (option addr) :=
  match fuel with
  | O => throw Undefined
  | S fuel =>
      let! e := deref (Some a) in
      if test e then
        remove_entry a ;!
        let! e := deref (Some a) in
        match next e with
        | Some n => setBucket i (Some n) ;! removeFront fuel i test n
        | None => setBucket i None ;! ret None
        end
      else ret (Some a)
  end.

(** The second loop: the entries behind [a]. *)
Fixpoint removeBehind (fuel : nat) (test : Entry -> bool) (a : addr) : HM unit :=
  match fuel with
  | O => throw Undefined
  | S fuel =>
      let! e := deref (Some a) in
      match next e with
      | None => ret tt
      | Some n =>
          let! x := deref (Some n) in
          if test x then
            assign (Some a) (with_next (next x)) ;!
            remove_entry n ;!
            removeBehind fuel test a
          else removeBehind fuel test n
      end
  end.

(** [removeHeader], with the test of either overload. *)
Definition removeHeader (i : Z) (test : Entry -> bool) : HM unit :=
  let! e := getBucket i in
  match e with
  | None => ret tt
  | Some a =>
      let! fuel := gets walkFuel in
      let! front := removeFront fuel i test a in
      match front with
      | None => ret tt
      | Some a => removeBehind fuel test a
      end
  end.

(** *** The public operations *)

(** The constructor; the head is at address 1. *)
Definition new : t :=
  MkHeader {[1%positive := MkEntry (-1) [] [] None (Some 1%positive) (Some 1%positive)]} 2
    (replicate (Z.to_nat BUCKET_SIZE) None) 1 None.

Definition lift (r : result unit) : HM unit := reads (fun _ => r).

Definition add (name v : text) : HM unit :=
  lift (HttpCodecUtil.validateHeaderName name) ;!
  lift (HttpCodecUtil.validateHeaderValue v) ;!
  let h := hash_of name in
  addHeader h (index h) name v.

Definition addInt (name : text) (v : Z) : HM unit := add name (Integer.toString v).

Definition remove (name : text) : HM unit :=
  if is_empty name then ret tt
  else let h := hash_of name in removeHeader (index h) (same_name h name).

Definition removeValue (name v : text) : HM unit :=
  if is_empty name then ret tt
  else let h := hash_of name in removeHeader (index h) (same_header h name v).

Definition set (name v : text) : HM unit :=
  if is_empty v then ret tt
  else
    lift (HttpCodecUtil.validateHeaderName name) ;!
    lift (HttpCodecUtil.validateHeaderValue v) ;!
    let h := hash_of name in
    removeHeader (index h) (same_name h name) ;!
    addHeader h (index h) name v.

(** The loop of [set] of several values: its index hides the index of the
    bucket. *)
Fixpoint setLoop (h i : Z) (name : text) (values : list text) : HM unit :=
  match values with
  | [] => ret tt
  | v :: values =>
      if is_empty v then ret tt
      else
        lift (HttpCodecUtil.validateHeaderValue v) ;!
        addHeader h i name v ;!
        setLoop h (i + 1) name values
  end.

Definition setValues (name : text) (values : list text) : HM unit :=
  if is_empty values then ret tt
  else
    lift (HttpCodecUtil.validateHeaderName name) ;!
    let h := hash_of name in
    removeHeader (index h) (same_name h name) ;!
    setLoop h 0 name values.

Definition setInt (name : text) (v : Z) : HM unit := set name (Integer.toString v).
Definition setInts (name : text) (values : list Z) : HM unit := setValues name (map Integer.toString values).

Fixpoint clearBucket (fuel : nat) (e : option addr) : HM unit :=
  match e with
  | None => ret tt
  | Some a =>
      match fuel with
      | O => throw Undefined
      | S fuel =>
          let! x := deref (Some a) in
          delete_entry a ;!
          clearBucket fuel (next x)
      end
  end.

Fixpoint clearLoop (n : nat) (i : Z) : HM unit :=
  match n with
  | O => ret tt
  | S n =>
      let! e := getBucket i in
      let! fuel := gets walkFuel in
      clearBucket fuel e ;!
      setBucket i None ;!
      clearLoop n (i + 1)
  end.

Definition clear : HM unit :=
  clearLoop (Z.to_nat BUCKET_SIZE) 0 ;!
  let! hd := gets head in
  assign (Some hd) (with_after (Some hd)) ;!
  assign (Some hd) (with_before (Some hd)).

(** The destructor. *)
Definition destroy : HM unit :=
  clear ;!
  clearFreeList ;!
  let! hd := gets head in
  delete_entry hd.

(** The walk along a bucket: the values of the name. *)
Fixpoint chainValues (fuel : nat) (test : Entry -> bool) (e : option addr) : HM (list text) :=
  match e with
  | None => ret []
  | Some a =>
      match fuel with
      | O => throw Undefined
      | S fuel =>
          let! x := deref (Some a) in
          let! values := chainValues fuel test (next x) in
          ret (if test x then value x :: values else values)
      end
  end.

Fixpoint chainGet (fuel : nat) (test : Entry -> bool) (e : option addr) : HM text :=
  match e with
  | None => ret []
  | Some a =>
      match fuel with
      | O => throw Undefined
      | S fuel =>
          let! x := deref (Some a) in
          if test x then ret (value x) else chainGet fuel test (next x)
      end
  end.

Definition get (name : text) : HM text :=
  if is_empty name then ret []
  else
    let h := hash_of name in
    let! e := getBucket (index h) in
    let! fuel := gets walkFuel in
    chainGet fuel (same_name h name) e.

Definition getValues (name : text) : HM (list text) :=
  if is_empty name then ret []
  else
    let h := hash_of name in
    let! e := getBucket (index h) in
    let! fuel := gets walkFuel in
    chainValues fuel (same_name h name) e.

(** The walk along the ring. *)
Fixpoint ring {A} (fuel : nat) (f : Entry -> A) (hd : addr) (p : option addr) : HM (list A) :=
  match fuel with
  | O => throw Undefined
  | S fuel =>
      match p with
      | None => throw Undefined
      | Some a =>
          if (a =? hd)%positive then ret []
          else
            let! e := deref (Some a) in
            let! l := ring fuel f hd (after e) in
            ret (f e :: l)
      end
  end.

Definition walk {A} (f : Entry -> A) : HM (list A) :=
  let! hd := gets head in
  let! x := deref (Some hd) in
  let! fuel := gets walkFuel in
  ring fuel f hd (after x).

Definition gets : HM (list (text * text)) := walk (fun e => (key e, value e)).
Definition getNames : HM (list text) := walk key.

Definition contains (name : text) : HM bool :=
  let! v := get name in ret (negb (is_empty v)).

#[global] Instance httpHeader : HttpHeader.HttpHeader t := {|
  HttpHeader.get := get;
  HttpHeader.getValues := getValues;
  HttpHeader.gets := gets;
  HttpHeader.contains := contains;
  HttpHeader.getNames := getNames;
  HttpHeader.add := add;
  HttpHeader.addInt := addInt;
  HttpHeader.set := set;
  HttpHeader.setInt := setInt;
  HttpHeader.setValues := setValues;
  HttpHeader.setInts := setInts;
  HttpHeader.remove := remove;
  HttpHeader.removeValue := removeValue;
  HttpHeader.clear := clear;
|}.

End DefaultHttpHeader.

(** ** NullHttpHeader

    The headers of [HttpChunk::LAST_CHUNK]: none, and none can be added. *)

Module NullHttpHeader.

Definition t : Type := unit.
Definition read_only : M t unit := throw IllegalStateException.

#[global] Instance nullHeader : HttpHeader.HttpHeader t := {|
  HttpHeader.get _ := ret [];
  HttpHeader.getValues _ := ret [];
  HttpHeader.gets := ret [];
  HttpHeader.contains _ := ret false;
  HttpHeader.getNames := ret [];
  HttpHeader.add _ _ := read_only;
  HttpHeader.addInt _ _ := read_only;
  HttpHeader.set _ _ := read_only;
  HttpHeader.setInt _ _ := read_only;
  HttpHeader.setValues _ _ := read_only;
  HttpHeader.setInts _ _ := read_only;
  HttpHeader.remove _ := ret tt;
  HttpHeader.removeValue _ _ := ret tt;
  HttpHeader.clear := ret tt;
|}.

End NullHttpHeader.
