(* ===== verification/HttpHeaderProperties.v ===== *)
(** * What the table of headers does

    The pointer structure of [DefaultHttpHeader] refines a list of name and value
    pairs in the order they were added; the checks of header values. *)

From stdpp Require Import gmap.
From S2P Require Import Prelude MachineInt Text HttpHeader.
Import DefaultHttpHeader.

(** ** The entries as a list *)

(** An entry of the list: its address, its name and its value. *)
Record node := MkNode {
  at_ : addr;
  name_of : text;
  value_of : text;
}.

Definition addrs (ns : list node) : list addr := map at_ ns.
Definition contents (ns : list node) : list (text * text) := map (fun x => (name_of x, value_of x)) ns.

Definition first (ns : list node) (nx : addr) : addr := match ns with x :: _ => at_ x | [] => nx end.
Fixpoint last_of (pv : addr) (ns : list node) : addr :=
  match ns with [] => pv | x :: ns => last_of (at_ x) ns end.

Definition bucket (x : node) : Z := index (hash_of (name_of x)).

(** The address of the last node of a bucket. *)
Fixpoint last_in (i : Z) (ns : list node) : option addr :=
  match ns with
  | [] => None
  | x :: ns => match last_in i ns with
               | Some a => Some a
               | None => if bucket x =? i then Some (at_ x) else None
               end
  end.

(** The entry of a node between its neighbours, with its pointer [nx]. *)
Definition entry_of (x : node) (nx : option addr) (pv nxt : addr) : Entry :=
  MkEntry (hash_of (name_of x)) (name_of x) (value_of x) nx (Some pv) (Some nxt).

Abbreviation Store := (gmap addr Entry).

(** The doubly linked list from [pv] to [nxt]. *)
Fixpoint linked (s : Store) (nx : addr -> option addr) (pv : addr) (ns : list node) (nxt : addr) : Prop :=
  match ns with
  | [] => True
  | x :: ns => s !! at_ x = Some (entry_of x (nx (at_ x)) pv (first ns nxt)) /\ linked s nx (at_ x) ns nxt
  end.

Definition head_entry (pv nxt : addr) : Entry := MkEntry (-1) [] [] None (Some pv) (Some nxt).

(** The ring through the head. *)
Record ring_ok (s : Store) (nx : addr -> option addr) (ns : list node) : Prop := MkRing {
  ring_head : s !! 1%positive = Some (head_entry (last_of 1 ns) (first ns 1));
  ring_nodes : linked s nx 1 ns 1;
  ring_nodup : NoDup (1%positive :: addrs ns);
}.

(** The chains of the buckets: an entry points to the entry of its bucket that
    was added before it. *)
Fixpoint chained (nx : addr -> option addr) (before ns : list node) : Prop :=
  match ns with
  | [] => True
  | x :: ns => nx (at_ x) = last_in (bucket x) before /\ chained nx (before ++ [x]) ns
  end.

Record inv (nx : addr -> option addr) (h : t) (ns : list node) : Prop := MkInv {
  inv_ring : ring_ok (store h) nx ns;
  inv_chained : chained nx [] ns;
  inv_entries i : 0 <= i < 17 -> entries h !! Z.to_nat i = Some (last_in i ns);
  inv_fresh a : (fresh h <= a)%positive -> store h !! a = None;
  inv_head : head h = 1%positive;
  inv_freelist : freelist h = None;
}.

Definition rep (h : t) (ns : list node) : Prop := exists nx, inv nx h ns.

Section Lists.
Implicit Types (ns l : list node).

Lemma first_app l1 l2 nx : first (l1 ++ l2) nx = first l1 (first l2 nx).
Proof. destruct l1; reflexivity. Qed.
Lemma ring_last_of_app pv l1 l2 : last_of pv (l1 ++ l2) = last_of (last_of pv l1) l2.
Proof. revert pv. induction l1 as [|x l1 IH]; intros pv; [reflexivity | apply IH]. Qed.
Lemma last_in_app i l1 l2 :
  last_in i (l1 ++ l2) = match last_in i l2 with Some a => Some a | None => last_in i l1 end.
Proof.
  induction l1 as [|x l1 IH]; cbn; [destruct (last_in i l2); reflexivity|].
  rewrite IH. destruct (last_in i l2); reflexivity.
Qed.
Lemma ring_linked_app s nx pv l1 l2 nxt :
  linked s nx pv (l1 ++ l2) nxt <->
  linked s nx pv l1 (first l2 nxt) /\ linked s nx (last_of pv l1) l2 nxt.
Proof. revert pv. induction l1 as [|x l1 IH]; intros pv; cbn; [tauto|]. rewrite IH, first_app. tauto. Qed.
Lemma chained_app nx b l1 l2 : chained nx b (l1 ++ l2) <-> chained nx b l1 /\ chained nx (b ++ l1) l2.
Proof.
  revert b. induction l1 as [|x l1 IH]; intros b; cbn; [rewrite app_nil_r; tauto|].
  rewrite IH, <- app_assoc. tauto.
Qed.

(** The store and the pointers matter at the nodes only. *)
Lemma ring_linked_ext s s' nx nx' pv ns nxt :
  (forall a, a ∈ addrs ns -> s' !! a = s !! a /\ nx' a = nx a) -> linked s nx pv ns nxt -> linked s' nx' pv ns nxt.
Proof.
  revert pv. induction ns as [|x ns IH]; intros pv He; cbn; [auto|]. intros [Hx Hl].
  destruct (He (at_ x)) as [-> ->]; [left|]. split; [exact Hx|]. apply IH; [|exact Hl].
  intros a Ha. apply He. right. exact Ha.
Qed.
Lemma chained_ext nx nx' b ns : (forall a, a ∈ addrs ns -> nx' a = nx a) -> chained nx b ns -> chained nx' b ns.
Proof.
  revert b. induction ns as [|x ns IH]; intros b He; cbn; [auto|]. intros [Hx Hl].
  rewrite He by left. split; [exact Hx|]. apply IH; [|exact Hl]. intros a Ha. apply He. right. exact Ha.
Qed.

Lemma last_of_snoc pv l x : last_of pv (l ++ [x]) = at_ x.
Proof. rewrite ring_last_of_app. reflexivity. Qed.

Lemma last_in_split i ns a : last_in i ns = Some a ->
  exists l1 x l2, ns = l1 ++ x :: l2 /\ at_ x = a /\ bucket x = i /\ last_in i l2 = None.
Proof.
  induction ns as [|x ns IH]; cbn; [discriminate|].
  destruct (last_in i ns) as [b|] eqn:E.
  - intros [= ->]. destruct (IH eq_refl) as (l1 & y & l2 & -> & H). exists (x :: l1), y, l2. auto.
  - destruct (bucket x =? i) eqn:Eb; [|discriminate]. intros [= <-]. zbool. exists [], x, ns. auto.
Qed.
End Lists.

(** ** Pointers *)

Lemma entry_bind_deref {A} (h : t) a e (k : Entry -> M t A) :
  store h !! a = Some e -> bind (deref (Some a)) k h = k e h.
Proof. intros E. unfold bind, deref, reads. rewrite E. reflexivity. Qed.

Lemma entry_assign_ok (h : t) a e f : store h !! a = Some e ->
  assign (Some a) f h = (Ok tt, with_store (alter f a (store h)) h).
Proof.
  intros E. unfold assign. rewrite (entry_bind_deref h a e) by exact E. unfold modify. do 2 f_equal.
  apply map_eq. intros b. destruct (decide (a = b)) as [<-|Hb].
  - rewrite lookup_insert_eq, lookup_alter_eq, E. reflexivity.
  - rewrite lookup_insert_ne, lookup_alter_ne by exact Hb. reflexivity.
Qed.

Lemma entry_bind_assign {A} (h : t) a e f (k : unit -> M t A) : store h !! a = Some e ->
  bind (assign (Some a) f) k h = k tt (with_store (alter f a (store h)) h).
Proof. intros E. apply bind_ok, (entry_assign_ok h a e f E). Qed.

Section Join.
Implicit Types (ns l : list node) (s : Store).

Lemma linked_set_after s nx pv l y n1 q : NoDup (addrs (l ++ [y])) -> linked s nx pv (l ++ [y]) n1 ->
  linked (alter (with_after (Some q)) (at_ y) s) nx pv (l ++ [y]) q.
Proof.
  intros Hn. rewrite !ring_linked_app. cbn. intros (Hl & Hy & _). unfold addrs in Hn. rewrite map_app in Hn.
  apply list.NoDup_app in Hn as (_ & Hn & _). split; [|split; [|exact Logic.I]].
  - revert Hl. apply ring_linked_ext. intros a Ha. split; [|reflexivity]. apply lookup_alter_ne.
    intros <-. apply (Hn _ Ha). left.
  - rewrite lookup_alter_eq, Hy. reflexivity.
Qed.

Lemma linked_set_before s nx pv z l nxt p : NoDup (addrs (z :: l)) -> linked s nx pv (z :: l) nxt ->
  linked (alter (with_before (Some p)) (at_ z) s) nx p (z :: l) nxt.
Proof.
  intros Hn [Hz Hl]. apply list.NoDup_cons in Hn as [Hn _]. split.
  - rewrite lookup_alter_eq, Hz. reflexivity.
  - revert Hl. apply ring_linked_ext. intros a Ha. split; [|reflexivity]. apply lookup_alter_ne.
    intros <-. exact (Hn Ha).
Qed.

Lemma linked_alter s nx pv l nxt f a : a ∉ addrs l -> linked s nx pv l nxt -> linked (alter f a s) nx pv l nxt.
Proof.
  intros Ha. apply ring_linked_ext. intros b Hb. split; [|reflexivity]. apply lookup_alter_ne. intros <-. exact (Ha Hb).
Qed.

(** The two assignments that take out what is between [l1] and [l2]. *)
Definition join s l1 l2 : Store :=
  alter (with_before (Some (last_of 1 l1))) (first l2 1) (alter (with_after (Some (first l2 1))) (last_of 1 l1) s).

Lemma nodup_without l1 x l2 :
  NoDup (1%positive :: addrs (l1 ++ x :: l2)) -> NoDup (1%positive :: addrs (l1 ++ l2)).
Proof.
  unfold addrs. rewrite !map_app. cbn [map]. rewrite !app_comm_cons. intros Hn.
  apply list.NoDup_app in Hn as (H1 & H2 & H3). apply list.NoDup_cons in H3 as [_ H3].
  apply list.NoDup_app. split; [exact H1|]. split; [|exact H3]. intros a Ha Hin. apply (H2 a Ha). right. exact Hin.
Qed.

Lemma first_notin l1 l2 : NoDup (1%positive :: addrs (l1 ++ l2)) -> first l2 1 ∉ addrs l1.
Proof.
  unfold addrs. rewrite map_app. intros Hn. apply list.NoDup_cons in Hn as [H1 Hn].
  apply list.NoDup_app in Hn as (_ & Hn & _). destruct l2 as [|z l2]; cbn; intros Hin.
  - apply H1, list.elem_of_app. left. exact Hin.
  - apply (Hn _ Hin). left.
Qed.

Lemma last_notin l1 l2 : NoDup (1%positive :: addrs (l1 ++ l2)) -> last_of 1 l1 ∉ addrs l2.
Proof.
  unfold addrs. rewrite map_app. intros Hn Hin. apply list.NoDup_cons in Hn as [H1 Hn].
  apply list.NoDup_app in Hn as (_ & Hn & _). destruct l1 as [|y l1 _] using rev_ind.
  - apply H1, list.elem_of_app. right. exact Hin.
  - rewrite last_of_snoc in Hin. apply (Hn (at_ y)); [|exact Hin]. rewrite map_app. apply list.elem_of_app. right. left.
Qed.

Lemma nodup_l l1 l2 : NoDup (1%positive :: addrs (l1 ++ l2)) -> NoDup (addrs l1) /\ NoDup (addrs l2).
Proof.
  unfold addrs. rewrite map_app. intros Hn. apply list.NoDup_cons in Hn as [_ Hn].
  apply list.NoDup_app in Hn as (H1 & _ & H2). auto.
Qed.

Lemma ring_join s nx l1 x l2 : ring_ok s nx (l1 ++ x :: l2) -> ring_ok (join s l1 l2) nx (l1 ++ l2).
Proof.
  intros [Hh Hl Hn]. rewrite ring_linked_app in Hl. cbn in Hl. destruct Hl as (Hl1 & Hx & Hl2).
  rewrite ring_last_of_app, first_app in Hh. cbn in Hh. apply nodup_without in Hn.
  destruct (nodup_l _ _ Hn) as [Hn1 Hn2]. pose proof (first_notin _ _ Hn) as Hf. pose proof (last_notin _ _ Hn) as Hla.
  assert ((1%positive ∉ addrs l1) /\ (1%positive ∉ addrs l2)) as [Hh1 Hh2].
  { apply list.NoDup_cons in Hn as [H1 _]. unfold addrs in *. rewrite map_app, list.elem_of_app in H1. tauto. }
  split; [| |exact Hn].
  - rewrite ring_last_of_app, first_app. unfold join.
    destruct l1 as [|y l1 _] using rev_ind; [|rewrite last_of_snoc]; destruct l2 as [|z l2]; cbn [first last_of app] in *.
    + rewrite !lookup_alter_eq, Hh. reflexivity.
    + rewrite lookup_alter_ne, lookup_alter_eq, Hh by (intros E; apply Hh2; rewrite <- E; left). reflexivity.
    + assert (at_ y <> 1%positive) as Hy.
      { intros E. apply Hh1. rewrite <- E. unfold addrs. rewrite map_app. apply list.elem_of_app. right. left. }
      rewrite lookup_alter_eq, lookup_alter_ne, Hh by exact Hy. destruct l1; reflexivity.
    + assert (at_ y <> 1%positive) as Hy.
      { intros E. apply Hh1. rewrite <- E. unfold addrs. rewrite map_app. apply list.elem_of_app. right. left. }
      rewrite !lookup_alter_ne, Hh by (first [exact Hy | intros E; apply Hh2; rewrite <- E; left]).
      destruct l1; reflexivity.
  - rewrite ring_linked_app. unfold join. split.
    + apply linked_alter; [exact Hf|]. destruct l1 as [|y l1 _] using rev_ind; [exact Logic.I|].
      rewrite last_of_snoc. eapply linked_set_after; eassumption.
    + destruct l2 as [|z l2]; [exact Logic.I|]. cbn [first]. eapply linked_set_before; [exact Hn2|].
      apply linked_alter; [exact Hla | exact Hl2].
Qed.
End Join.

(** ** One entry leaves or enters *)

Lemma linked_lookup s nx pv ns nxt a : linked s nx pv ns nxt -> a ∈ addrs ns ->
  exists e, s !! a = Some e.
Proof.
  revert pv. induction ns as [|x ns IH]; intros pv; cbn; intros Hl Ha; [inversion Ha|].
  destruct Hl as [Hx Hl]. inversion Ha; subst; [eauto | eapply IH; eassumption].
Qed.

Lemma ring_lookup s nx ns a : ring_ok s nx ns -> a ∈ 1%positive :: addrs ns -> exists e, s !! a = Some e.
Proof.
  intros [Hh Hl _] Ha. inversion Ha; subst; [eauto | eapply linked_lookup; eassumption].
Qed.

Lemma last_of_in l : last_of 1 l ∈ 1%positive :: addrs l.
Proof.
  destruct l as [|y l _] using rev_ind; [left|]. rewrite last_of_snoc. right.
  unfold addrs. rewrite map_app. apply list.elem_of_app. right. left.
Qed.

Lemma first_in l : first l 1 ∈ 1%positive :: addrs l.
Proof. destruct l; [left | right; left]. Qed.

Lemma in_app_l a l1 l2 : a ∈ 1%positive :: addrs l1 -> a ∈ 1%positive :: addrs (l1 ++ l2).
Proof.
  intros H. inversion H; subst; [left | right]. unfold addrs. rewrite map_app. apply list.elem_of_app. left. assumption.
Qed.

Lemma in_app_r a l1 l2 : a ∈ 1%positive :: addrs l2 -> a ∈ 1%positive :: addrs (l1 ++ l2).
Proof.
  intros H. inversion H; subst; [left | right]. unfold addrs. rewrite map_app. apply list.elem_of_app. right. assumption.
Qed.

(** The address of a node is none of its neighbours. *)
Lemma at_notin l1 x l2 : NoDup (1%positive :: addrs (l1 ++ x :: l2)) -> at_ x ∉ 1%positive :: addrs (l1 ++ l2).
Proof.
  unfold addrs. rewrite !map_app. cbn [map]. rewrite !app_comm_cons. intros Hn Hin.
  apply list.NoDup_app in Hn as (_ & H2 & H3). apply list.NoDup_cons in H3 as [H3 _].
  apply list.elem_of_app in Hin as [Hin|Hin]; [|exact (H3 Hin)]. apply (H2 _ Hin). left.
Qed.

Lemma alter_lookup_some {A} (f : A -> A) a b e (s : gmap addr A) : s !! b = Some e -> exists e', alter f a s !! b = Some e'.
Proof.
  intros E. destruct (decide (a = b)) as [->|Hn].
  - rewrite lookup_alter_eq, E. cbn. eauto.
  - rewrite lookup_alter_ne by exact Hn. eauto.
Qed.

Lemma join_other s l1 l2 a : a ∉ 1%positive :: addrs (l1 ++ l2) -> join s l1 l2 !! a = s !! a.
Proof.
  intros Ha. unfold join. rewrite !lookup_alter_ne; [reflexivity | |].
  - intros <-. apply Ha, in_app_l, last_of_in.
  - intros <-. apply Ha, in_app_r, first_in.
Qed.

Lemma join_dom s l1 l2 a : join s l1 l2 !! a = None <-> s !! a = None.
Proof. unfold join. rewrite !lookup_alter_None. reflexivity. Qed.

Lemma join_size s l1 l2 : size (join s l1 l2) = size s.
Proof. rewrite <- !size_dom. unfold join. rewrite !dom_alter. reflexivity. Qed.

Lemma remove_entry_spec (h : t) nx l1 x l2 : ring_ok (store h) nx (l1 ++ x :: l2) ->
  remove_entry (at_ x) h = (Ok tt, with_store (join (store h) l1 l2) h).
Proof.
  intros Hr. pose proof Hr as [Hh Hl Hn]. pose proof (at_notin _ _ _ Hn) as Hx.
  rewrite ring_linked_app in Hl. cbn in Hl. destruct Hl as (_ & Hxe & _).
  destruct (ring_lookup _ _ _ (last_of 1 l1) Hr) as (ep & Ep); [apply in_app_l, last_of_in|].
  destruct (ring_lookup _ _ _ (first l2 1) Hr) as (en & En).
  { change (x :: l2) with ([x] ++ l2). rewrite app_assoc. apply in_app_r, first_in. }
  unfold remove_entry. rewrite (entry_bind_deref _ _ _ _ Hxe). cbn [before after entry_of].
  rewrite (entry_bind_assign _ _ _ _ _ Ep).
  rewrite (entry_bind_deref _ (at_ x) (entry_of x (nx (at_ x)) (last_of 1 l1) (first l2 1))).
  2:{ cbn [store with_store]. rewrite lookup_alter_ne; [exact Hxe|].
      intros E. apply Hx. rewrite <- E. apply in_app_l, last_of_in. }
  cbn [before after entry_of].
  destruct (alter_lookup_some (with_after (Some (first l2 1))) (last_of 1 l1) _ _ _ En) as (en' & En').
  rewrite (entry_assign_ok _ _ en') by exact En'. reflexivity.
Qed.

(** The store after [addHeader] at the address [a]. *)
Definition added (s : Store) ns (a : addr) (x : node) (nxa : option addr) : Store :=
  alter (with_before (Some a)) 1%positive
    (alter (with_after (Some a)) (last_of 1 ns)
      (<[a := entry_of x nxa (last_of 1 ns) 1%positive]> s)).

Lemma alter_insert_eq {A} (f : A -> A) a e (s : gmap addr A) : alter f a (<[a := e]> s) = <[a := f e]> s.
Proof.
  apply map_eq. intros b. destruct (decide (a = b)) as [<-|Hb].
  - rewrite lookup_alter_eq, !lookup_insert_eq. reflexivity.
  - rewrite lookup_alter_ne, !lookup_insert_ne by exact Hb. reflexivity.
Qed.

Lemma addBefore_spec (h : t) nx ns x nxa e0 :
  ring_ok (store h) nx ns -> store h !! at_ x = None ->
  e0 = MkEntry (hash_of (name_of x)) (name_of x) (value_of x) nxa None None ->
  addBefore (at_ x) 1 (with_store (<[at_ x := e0]> (store h)) h)
  = (Ok tt, with_store (added (store h) ns (at_ x) x nxa) h).
Proof.
  intros Hr Hx ->. pose proof Hr as [Hh Hl Hn].
  assert (forall a, a ∈ 1%positive :: addrs ns -> at_ x <> a) as Hne.
  { intros a Ha Ea. destruct (ring_lookup _ _ _ a Hr Ha) as (e & E). congruence. }
  assert (at_ x <> 1%positive) as H1 by (apply Hne; left).
  assert (at_ x <> last_of 1 ns) as H2 by (apply Hne, last_of_in).
  destruct (ring_lookup _ _ _ (last_of 1 ns) Hr (last_of_in ns)) as (el & El).
  unfold addBefore. erewrite entry_bind_assign by (apply lookup_insert_eq).
  cbn [store with_store]. rewrite alter_insert_eq.
  erewrite entry_bind_deref by (cbn [store with_store]; rewrite lookup_insert_ne by exact H1; exact Hh).
  cbn [before head_entry]. erewrite entry_bind_assign by (apply lookup_insert_eq).
  cbn [store with_store]. rewrite alter_insert_eq.
  erewrite entry_bind_deref by (apply lookup_insert_eq). cbn [before with_before with_after].
  erewrite entry_bind_assign by (cbn [store with_store]; rewrite lookup_insert_ne by exact H2; exact El).
  cbn [store with_store].
  erewrite entry_bind_deref by (cbn [store with_store]; rewrite lookup_alter_ne by congruence; apply lookup_insert_eq).
  cbn [after with_before with_after].
  destruct (alter_lookup_some (with_after (Some (at_ x))) (last_of 1 ns) 1%positive
    (head_entry (last_of 1 ns) (first ns 1)) (<[at_ x := entry_of x nxa (last_of 1 ns) 1%positive]> (store h)))
    as (eh & Eh); [rewrite lookup_insert_ne by exact H1; exact Hh|].
  rewrite (entry_assign_ok _ _ eh) by exact Eh. reflexivity.
Qed.

Lemma ring_added s nx ns x nxa : ring_ok s nx ns -> s !! at_ x = None ->
  ring_ok (added s ns (at_ x) x nxa) (fun b => if (b =? at_ x)%positive then nxa else nx b) (ns ++ [x]).
Proof.
  intros Hr Hx. pose proof Hr as [Hh Hl Hn].
  assert (forall a, a ∈ 1%positive :: addrs ns -> at_ x <> a) as Hne.
  { intros a Ha Ea. destruct (ring_lookup _ _ _ a Hr Ha) as (e & E). congruence. }
  assert (at_ x <> 1%positive) as H1 by (apply Hne; left).
  assert (at_ x <> last_of 1 ns) as H2 by (apply Hne, last_of_in).
  pose proof Hn as Hn1. apply list.NoDup_cons in Hn1 as [Hh1 Hns].
  split.
  - rewrite last_of_snoc, first_app. unfold added. rewrite lookup_alter_eq.
    destruct ns as [|y l _] using rev_ind.
    + cbn. rewrite lookup_alter_eq, lookup_insert_ne, Hh by congruence. reflexivity.
    + rewrite last_of_snoc, lookup_alter_ne, lookup_insert_ne, Hh; [destruct l; reflexivity | congruence|].
      intros E. apply Hh1. rewrite <- E. unfold addrs. rewrite map_app. apply list.elem_of_app. right. left.
  - rewrite ring_linked_app. cbn [linked first]. split; [|split; [|exact Logic.I]].
    + apply linked_alter; [exact Hh1|].
      destruct ns as [|y l _] using rev_ind; [exact Logic.I|]. rewrite last_of_snoc.
      apply linked_set_after with (n1 := 1%positive); [exact Hns|]. revert Hl. apply ring_linked_ext.
      intros a Ha. assert (at_ x <> a) as Hxa by (apply Hne; right; exact Ha).
      rewrite lookup_insert_ne by exact Hxa. split; [reflexivity|].
      destruct (Pos.eqb_spec a (at_ x)); [congruence | reflexivity].
    + unfold added. rewrite !lookup_alter_ne, lookup_insert_eq, Pos.eqb_refl by congruence. reflexivity.
  - unfold addrs. rewrite map_app. rewrite app_comm_cons. apply list.NoDup_app. split; [exact Hn|]. split.
    + intros a Ha Hin. cbn in Hin. inversion Hin as [|? ? ? Hin']; subst; [|inversion Hin']. exact (Hne _ Ha eq_refl).
    + apply NoDup_singleton.
Qed.

(** ** The chains *)

Lemma last_in_skip j b x c : bucket x <> j \/ last_in j c <> None -> last_in j (b ++ x :: c) = last_in j (b ++ c).
Proof.
  intros H. rewrite !last_in_app. cbn. destruct (last_in j c) as [a|]; [reflexivity|].
  destruct H as [H|H]; [|contradiction]. rewrite (proj2 (Z.eqb_neq _ _)) by exact H. reflexivity.
Qed.

Lemma chained_skip nx b x c l :
  last_in (bucket x) c <> None \/ last_in (bucket x) l = None ->
  chained nx (b ++ x :: c) l -> chained nx (b ++ c) l.
Proof.
  revert c. induction l as [|y l IH]; intros c Hx; cbn [chained]; [auto|]. intros [Hy Hl].
  rewrite last_in_skip in Hy.
  2:{ destruct Hx as [Hx|Hx]; [|cbn in Hx; destruct (last_in (bucket x) l); [discriminate|];
        destruct (Z.eqb_spec (bucket y) (bucket x)); [discriminate | left; congruence]].
      destruct (decide (bucket x = bucket y)) as [E|E]; [right; rewrite <- E; exact Hx | left; exact E]. }
  split; [exact Hy|]. rewrite <- app_assoc in Hl |- *. apply IH; [|exact Hl].
  destruct Hx as [Hx|Hx].
  - left. rewrite last_in_app. cbn. destruct (bucket y =? bucket x); [discriminate | exact Hx].
  - right. cbn in Hx. destruct (last_in (bucket x) l); [discriminate | reflexivity].
Qed.

Lemma chained_at nx b l1 x l2 : chained nx b (l1 ++ x :: l2) -> nx (at_ x) = last_in (bucket x) (b ++ l1).
Proof. rewrite chained_app. cbn. tauto. Qed.

Lemma ring_set_next s nx l1 x l2 p : ring_ok s nx (l1 ++ x :: l2) ->
  ring_ok (alter (with_next p) (at_ x) s) (fun b => if (b =? at_ x)%positive then p else nx b) (l1 ++ x :: l2).
Proof.
  intros [Hh Hl Hn]. pose proof (at_notin _ _ _ Hn) as Hx. split; [| |exact Hn].
  - rewrite lookup_alter_ne; [exact Hh|]. intros E. apply Hx. rewrite E. left.
  - rewrite ring_linked_app in *. cbn [linked] in *. destruct Hl as (Hl1 & Hxe & Hl2).
    assert (forall l a, a ∈ addrs l -> (forall b, b ∈ addrs l -> b ∈ addrs (l1 ++ l2)) ->
      (alter (with_next p) (at_ x) s) !! a = s !! a /\ (if (a =? at_ x)%positive then p else nx a) = nx a) as He.
    { intros l a Ha Hin. assert (at_ x <> a) by (intros <-; apply Hx; right; apply Hin, Ha).
      rewrite lookup_alter_ne by assumption. split; [reflexivity|]. destruct (Pos.eqb_spec a (at_ x)); [congruence|reflexivity]. }
    split; [|split].
    + revert Hl1. apply ring_linked_ext. intros a Ha. apply (He l1 a Ha). intros b Hb. unfold addrs in *.
      rewrite map_app. apply list.elem_of_app. left. exact Hb.
    + rewrite lookup_alter_eq, Hxe, Pos.eqb_refl. reflexivity.
    + revert Hl2. apply ring_linked_ext. intros a Ha. apply (He l2 a Ha). intros b Hb. unfold addrs in *.
      rewrite map_app. apply list.elem_of_app. right. exact Hb.
Qed.

Lemma inv_store nx (h : t) ns s : inv nx h ns -> ring_ok s nx ns -> (forall a, s !! a = None <-> store h !! a = None) ->
  inv nx (with_store s h) ns.
Proof.
  intros [_ Hc He Hf Hh Hfl] Hr Hd. split; cbn; try assumption. intros a Ha. apply Hd, Hf, Ha.
Qed.

Lemma hash_range name : 0 <= hash_of name <= INT_MAX.
Proof.
  assert (is_i32 (hashLoop name)) as H by (destruct name; [cbn; solve_range | apply i32_range]).
  unfold hash_of. destruct (hashLoop name >? 0) eqn:E; zbool; [solve_range|].
  destruct (hashLoop name =? INT_MIN) eqn:E2; zbool; [solve_range|].
  rewrite i32_id; solve_range.
Qed.

Lemma index_range h : 0 <= h -> 0 <= index h < 17.
Proof. intros H. unfold index, BUCKET_SIZE. apply Z.rem_bound_pos; lia. Qed.

Lemma bucket_range x : 0 <= bucket x < 17.
Proof. apply index_range, hash_range. Qed.

(** The entry at the front of a bucket leaves. *)
Lemma unlink_front nx (h : t) l1 x l2 : inv nx h (l1 ++ x :: l2) -> last_in (bucket x) l2 = None ->
  inv nx (with_entries (<[Z.to_nat (bucket x) := nx (at_ x)]> (entries h))
    (with_store (join (store h) l1 l2) h)) (l1 ++ l2).
Proof.
  intros [Hr Hc He Hf Hh Hfl] Hl2. pose proof (chained_at _ _ _ _ _ Hc) as Hnx. cbn [app] in Hnx.
  split; cbn; try assumption.
  - apply ring_join with (x := x). exact Hr.
  - rewrite chained_app in Hc |- *. destruct Hc as [Hc1 [_ Hc2]]. split; [exact Hc1|].
    cbn [app] in *. rewrite <- (app_nil_r l1). apply chained_skip with (x := x); [right; exact Hl2 | exact Hc2].
  - intros i Hi. destruct (decide (bucket x = i)) as [<-|Hne].
    + rewrite list_lookup_insert_eq; [rewrite Hnx, last_in_app, Hl2; reflexivity|].
      apply lookup_lt_Some with (x := last_in (bucket x) (l1 ++ x :: l2)), He, Hi.
    + rewrite list_lookup_insert_ne, He, last_in_skip; [reflexivity | left; exact Hne | exact Hi|].
      intros E. apply Hne. pose proof (bucket_range x). lia.
  - intros a Ha. apply join_dom, Hf, Ha.
Qed.

(** The entry [n] behind the entry [x] of its bucket leaves. *)
Lemma unlink_behind nx (h : t) l1 n m x l2 :
  inv nx h (l1 ++ n :: m ++ x :: l2) -> bucket x = bucket n -> last_in (bucket n) m = None ->
  rep (with_store (join (alter (with_next (nx (at_ n))) (at_ x) (store h)) l1 (m ++ x :: l2)) h)
    (l1 ++ m ++ x :: l2).
Proof.
  intros [Hr Hc He Hf Hh Hfl] Hb Hm. pose proof (chained_at _ _ _ _ _ Hc) as Hn. cbn [app] in Hn.
  change (l1 ++ n :: m ++ x :: l2) with (l1 ++ (n :: m) ++ x :: l2) in Hr. rewrite app_assoc in Hr.
  pose proof (at_notin _ _ _ (ring_nodup _ _ _ Hr)) as Hx.
  pose proof (ring_set_next _ _ _ _ _ (nx (at_ n)) Hr) as Hr'.
  exists (fun b => if (b =? at_ x)%positive then nx (at_ n) else nx b).
  assert (forall l, (forall a, a ∈ addrs l -> a <> at_ x) ->
    forall a, a ∈ addrs l -> (if (a =? at_ x)%positive then nx (at_ n) else nx a) = nx a) as Hext.
  { intros l Hl a Ha. destruct (Pos.eqb_spec a (at_ x)); [destruct (Hl a Ha); assumption | reflexivity]. }
  split; cbn; try assumption.
  - apply ring_join with (x := n). rewrite <- app_assoc in Hr'. exact Hr'.
  - rewrite chained_app in Hc. destruct Hc as [Hc1 [_ Hc2]]. cbn [app] in Hc2.
    apply chained_app in Hc2 as [Hcm [_ Hc2]]. rewrite !chained_app. cbn [chained app]. repeat split.
    + revert Hc1. apply chained_ext, Hext. intros a Ha ->. apply Hx. right. unfold addrs in *.
      rewrite !map_app. apply list.elem_of_app. left. apply list.elem_of_app. left. exact Ha.
    + rewrite <- (app_nil_r l1). eapply chained_ext; [apply Hext | apply chained_skip with (x := n); [right; exact Hm | exact Hcm]].
      intros a Ha ->. apply Hx. right. unfold addrs in *.
      rewrite !map_app. apply list.elem_of_app. left. apply list.elem_of_app. right. right. exact Ha.
    + rewrite Pos.eqb_refl, Hn, last_in_app, Hb, Hm. reflexivity.
    + eapply chained_ext; [apply Hext|].
      2:{ rewrite <- !app_assoc in Hc2. rewrite <- app_assoc. apply chained_skip with (x := n); [|exact Hc2].
          left. rewrite last_in_app. cbn. rewrite Hb, Z.eqb_refl. discriminate. }
      intros a Ha ->. apply Hx. right. unfold addrs in *. rewrite !map_app. apply list.elem_of_app. right. exact Ha.
  - intros i Hi. rewrite He by exact Hi. f_equal. rewrite !last_in_app. cbn. rewrite last_in_app. cbn.
    rewrite Hb. destruct (last_in i l2); [reflexivity|]. destruct (bucket n =? i) eqn:E; [reflexivity|].
    destruct (last_in i m); reflexivity.
  - intros a Ha. apply join_dom. rewrite lookup_alter_None. apply Hf, Ha.
Qed.

(** ** removeHeader *)

Lemma inv_node nx (h : t) l1 x l2 : inv nx h (l1 ++ x :: l2) ->
  store h !! at_ x = Some (entry_of x (last_in (bucket x) l1) (last_of 1 l1) (first l2 1)).
Proof.
  intros [[_ Hl _] Hc _ _ _ _]. rewrite ring_linked_app in Hl. cbn in Hl.
  apply chained_at in Hc. cbn in Hc. rewrite <- Hc. tauto.
Qed.

Lemma inv_bucket nx (h : t) ns i : inv nx h ns -> 0 <= i < 17 -> getBucket i h = (Ok (last_in i ns), h).
Proof.
  intros Hi Hr. unfold getBucket, reads, BUCKET_SIZE. zif. rewrite (inv_entries _ _ _ Hi) by exact Hr. reflexivity.
Qed.

Lemma inv_size nx (h : t) ns : inv nx h ns -> (S (length ns) < walkFuel h)%nat.
Proof.
  intros [Hr _ _ _ _ _]. unfold walkFuel. pose proof (ring_nodup _ _ _ Hr) as Hn.
  assert (length (1%positive :: addrs ns) <= size (store h))%nat as Hs.
  { rewrite <- size_dom, <- (size_list_to_set (C := gset addr) _ Hn). apply subseteq_size.
    intros a Ha. apply elem_of_list_to_set in Ha. destruct (ring_lookup _ _ _ a Hr Ha) as (e & E).
    apply elem_of_dom. eauto. }
  unfold addrs in Hs. cbn in Hs. rewrite length_map in Hs. lia.
Qed.

Section Remove.
Context (i : Z) (test : Entry -> bool) (tn : node -> bool).
Context (test_node : forall x nx pv nxt, test (entry_of x nx pv nxt) = tn x).

Definition keep (ns : list node) : list node := List.filter (fun x => negb ((bucket x =? i) && tn x)) ns.

Lemma keep_app l1 l2 : keep (l1 ++ l2) = keep l1 ++ keep l2.
Proof. apply filter_app. Qed.

Lemma keep_none ns : last_in i ns = None -> keep ns = ns.
Proof.
  induction ns as [|x ns IH]; [reflexivity|]. cbn. destruct (last_in i ns); [discriminate|].
  destruct (bucket x =? i); [discriminate|]. intros _. cbn. f_equal. apply IH. reflexivity.
Qed.

Lemma keep_node x : tn x = false -> keep [x] = [x].
Proof. intros E. cbn. rewrite E, andb_false_r. reflexivity. Qed.

Lemma drop_node x : bucket x = i -> tn x = true -> keep [x] = [].
Proof. intros Hb E. cbn. rewrite E, Hb, Z.eqb_refl. reflexivity. Qed.

Lemma removeFront_spec fuel (h : t) ns a :
  rep h ns -> last_in i ns = Some a -> (length ns < fuel)%nat ->
  exists h' ns' r, removeFront fuel i test a h = (Ok r, h') /\ rep h' ns' /\ keep ns' = keep ns /\
    (length ns' <= length ns)%nat /\
    match r with
    | None => last_in i ns' = None
    | Some b => exists l1 x l2, ns' = l1 ++ x :: l2 /\ at_ x = b /\ bucket x = i /\ last_in i l2 = None /\ tn x = false
    end.
Proof.
  revert h ns a. induction fuel as [|fuel IH]; intros h ns a (nx & Hi) Ha Hf; [lia|].
  destruct (last_in_split _ _ _ Ha) as (l1 & x & l2 & -> & <- & Hb & Hl2).
  pose proof (inv_node _ _ _ _ _ Hi) as Hx. cbn [removeFront]. rewrite (entry_bind_deref _ _ _ _ Hx), test_node.
  destruct (tn x) eqn:Et.
  2:{ eexists h, _, (Some (at_ x)). split; [reflexivity|]. split; [exists nx; exact Hi|]. repeat split; [lia|].
      exists l1, x, l2. auto. }
  rewrite (bind_ok _ _ _ _ _ (remove_entry_spec _ _ _ _ _ (inv_ring _ _ _ Hi))).
  rewrite (entry_bind_deref _ _ (entry_of x (last_in (bucket x) l1) (last_of 1 l1) (first l2 1))).
  2:{ cbn [store with_store]. rewrite join_other; [exact Hx|]. apply (at_notin l1 x l2), (inv_ring _ _ _ Hi). }
  cbn [next entry_of]. rewrite <- Hb in Hl2. pose proof (unlink_front _ _ _ _ _ Hi Hl2) as Hi'.
  pose proof (chained_at _ _ _ _ _ (inv_chained _ _ _ Hi)) as Hnx. cbn [app] in Hnx. rewrite Hnx in Hi'.
  assert (keep (l1 ++ l2) = keep (l1 ++ x :: l2)) as Hk.
  { change (x :: l2) with ([x] ++ l2). rewrite !keep_app, (drop_node x Hb Et). reflexivity. }
  pose proof (bucket_range x) as Hr. rewrite Hb in *.
  destruct (last_in i l1) as [b|] eqn:E1; unfold setBucket, BUCKET_SIZE; zif; rewrite bind_modify.
  - destruct (IH _ (l1 ++ l2) b (ex_intro _ nx Hi')) as (h' & ns' & r & E & Hrep & Hk' & Hlen & Hr').
    + rewrite last_in_app, Hl2. exact E1.
    + rewrite length_app in *. cbn in Hf. lia.
    + exists h', ns', r. split; [exact E|]. split; [exact Hrep|]. split; [congruence|]. split; [|exact Hr'].
      rewrite length_app in *. cbn. lia.
  - eexists _, (l1 ++ l2), None. split; [reflexivity|]. split; [exists nx; exact Hi'|]. split; [exact Hk|].
    split; [rewrite !length_app; cbn; lia|]. rewrite last_in_app, Hl2. exact E1.
Qed.

Lemma removeBehind_spec fuel (h : t) l1 x l2 :
  rep h (l1 ++ x :: l2) -> bucket x = i -> (length l1 < fuel)%nat ->
  exists h', removeBehind fuel test (at_ x) h = (Ok tt, h') /\ rep h' (keep l1 ++ x :: l2).
Proof.
  revert h l1 x l2. induction fuel as [|fuel IH]; intros h l1 x l2 (nx & Hi) Hb Hf; [lia|].
  cbn [removeBehind]. rewrite (entry_bind_deref _ _ _ _ (inv_node _ _ _ _ _ Hi)). cbn [next entry_of]. rewrite Hb.
  destruct (last_in i l1) as [a|] eqn:E.
  2:{ exists h. split; [reflexivity|]. rewrite (keep_none l1 E). exists nx. exact Hi. }
  destruct (last_in_split _ _ _ E) as (k1 & n & m & -> & <- & Hbn & Hm).
  rewrite <- app_assoc in Hi. cbn [app] in Hi. pose proof (inv_node _ _ _ _ _ Hi) as Hn.
  rewrite (entry_bind_deref _ _ _ _ Hn), test_node. rewrite length_app in Hf. cbn in Hf.
  change (n :: m) with ([n] ++ m). rewrite keep_app, keep_app, (keep_none m Hm).
  destruct (tn n) eqn:Et.
  - rewrite (drop_node n Hbn Et). cbn [next entry_of app].
    assert (bucket x = bucket n) as Hxn by congruence. rewrite <- Hbn in Hm.
    pose proof (unlink_behind _ _ _ _ _ _ _ Hi Hxn Hm) as Hi'.
    pose proof (chained_at _ _ _ _ _ (inv_chained _ _ _ Hi)) as Hnx. cbn [app] in Hnx. rewrite Hnx in Hi'.
    pose proof Hi as Hi2. change (k1 ++ n :: m ++ x :: l2) with (k1 ++ (n :: m) ++ x :: l2) in Hi2. rewrite app_assoc in Hi2.
    pose proof (inv_node _ _ _ _ _ Hi2) as Hx. rewrite (entry_bind_assign _ _ _ _ _ Hx).
    pose proof (ring_set_next _ _ _ _ _ (last_in (bucket n) k1) (inv_ring _ _ _ Hi2)) as Hr.
    rewrite <- app_assoc in Hr. cbn [app] in Hr.
    rewrite (bind_ok _ _ _ _ _ (remove_entry_spec (with_store _ h) _ _ _ _ Hr)).
    rewrite (app_assoc k1) in Hi'.
    destruct (IH _ _ _ _ Hi' Hb) as (h' & E' & Hrep); [rewrite length_app; lia|].
    exists h'. split; [exact E'|]. rewrite keep_app, (keep_none m), <- app_assoc in Hrep by congruence. 
    rewrite <- app_assoc. exact Hrep.
  - rewrite (keep_node n Et).
    destruct (IH h k1 n (m ++ x :: l2) (ex_intro _ nx Hi) Hbn) as (h' & E' & Hrep); [lia|].
    exists h'. split; [exact E'|]. rewrite <- !app_assoc. exact Hrep.
Qed.

(** Every entry of the bucket that passes the test leaves. *)
Lemma removeHeader_spec (h : t) ns : 0 <= i < 17 -> rep h ns ->
  exists h', removeHeader i test h = (Ok tt, h') /\ rep h' (keep ns).
Proof.
  intros Hr (nx & Hi). unfold removeHeader. rewrite (bind_ok _ _ _ _ _ (inv_bucket _ _ _ _ Hi Hr)).
  destruct (last_in i ns) as [a|] eqn:E.
  2:{ exists h. split; [reflexivity|]. rewrite keep_none by exact E. exists nx. exact Hi. }
  rewrite bind_gets. pose proof (inv_size _ _ _ Hi) as Hs.
  destruct (removeFront_spec (walkFuel h) h ns a (ex_intro _ nx Hi) E) as (h1 & ns1 & r & E1 & Hrep & Hk & Hlen & Hcase);
    [lia|].
  rewrite (bind_ok _ _ _ _ _ E1). rewrite <- Hk. destruct r as [b|].
  2:{ exists h1. split; [reflexivity|]. rewrite keep_none by exact Hcase. exact Hrep. }
  destruct Hcase as (l1 & x & l2 & -> & <- & Hb & Hl2 & Ht).
  destruct (removeBehind_spec (walkFuel h) h1 l1 x l2 Hrep Hb) as (h2 & E2 & Hrep2).
  { rewrite length_app in Hlen. lia. }
  exists h2. split; [exact E2|]. change (x :: l2) with ([x] ++ l2).
  rewrite !keep_app, (keep_node x Ht), (keep_none l2 Hl2). exact Hrep2.
Qed.

End Remove.

(** ** The other operations *)

Lemma addHeader_spec (h : t) ns name v : rep h ns ->
  exists h', addHeader (hash_of name) (index (hash_of name)) name v h = (Ok tt, h') /\
    rep h' (ns ++ [MkNode (fresh h) name v]).
Proof.
  intros (nx & Hi). set (x := MkNode (fresh h) name v). pose proof (bucket_range x) as Hr.
  change (index (hash_of name)) with (bucket x).
  unfold addHeader. rewrite (bind_ok _ _ _ _ _ (inv_bucket _ _ _ _ Hi Hr)).
  assert (newEntry (hash_of name) name v h = (Ok (fresh h), MkHeader
    (<[fresh h := MkEntry (hash_of name) name v None None None]> (store h)) (Pos.succ (fresh h))
    (entries h) (head h) (freelist h))) as En.
  { unfold newEntry, alloc. rewrite bind_gets.
    destruct (freelist h) eqn:Efl; [pose proof (inv_freelist _ _ _ Hi); congruence|].
    unfold bind, Prelude.gets, modify, ret. rewrite Efl. reflexivity. }
  rewrite (bind_ok _ _ _ _ _ En). unfold setBucket, BUCKET_SIZE. zif. rewrite bind_modify.
  erewrite entry_bind_assign by (apply lookup_insert_eq). cbn [store with_entries]. rewrite alter_insert_eq, bind_gets.
  cbn [head with_store with_entries]. rewrite (inv_head _ _ _ Hi).
  assert (store h !! at_ x = None) as Hx by (apply (inv_fresh _ _ _ Hi); cbn; lia).
  set (h2 := MkHeader (store h) (Pos.succ (fresh h)) (<[Z.to_nat (bucket x) := Some (at_ x)]> (entries h)) 1 (freelist h)).
  pose proof (addBefore_spec h2 nx ns x (last_in (bucket x) ns) _ (inv_ring _ _ _ Hi) Hx eq_refl) as Ea.
  eexists. split; [exact Ea|]. exists (fun b => if (b =? at_ x)%positive then last_in (bucket x) ns else nx b).
  pose proof (ring_added _ _ _ _ (last_in (bucket x) ns) (inv_ring _ _ _ Hi) Hx) as Hring.
  split; cbn [store with_store h2 entries head freelist fresh].
  - exact Hring.
  - apply chained_app. split; [|cbn; rewrite Pos.eqb_refl; auto].
    eapply chained_ext; [|exact (inv_chained _ _ _ Hi)]. intros a Ha. cbn beta.
    destruct (Pos.eqb_spec a (at_ x)) as [->|]; [|reflexivity].
    destruct (ring_lookup _ _ _ (at_ x) (inv_ring _ _ _ Hi)) as (e & E); [right; exact Ha | congruence].
  - intros i Hi'. rewrite last_in_app. cbn. destruct (bucket x =? i) eqn:E; zbool.
    + rewrite <- E. apply list_lookup_insert_eq, lookup_lt_Some with (x := last_in (bucket x) ns), (inv_entries _ _ _ Hi), Hr.
    + rewrite list_lookup_insert_ne by lia. apply (inv_entries _ _ _ Hi), Hi'.
  - intros a Ha. unfold added. rewrite !lookup_alter_None, lookup_insert_None.
    split; [apply (inv_fresh _ _ _ Hi); lia | cbn; lia].
  - reflexivity.
  - apply (inv_freelist _ _ _ Hi).
Qed.

Lemma new_rep : rep new [].
Proof.
  exists (fun _ => None). split; cbn; [| exact Logic.I | | | reflexivity | reflexivity].
  - split; cbn; [reflexivity | exact Logic.I | apply NoDup_singleton].
  - intros i Hi. apply lookup_replicate. split; [reflexivity | change (Z.to_nat BUCKET_SIZE) with 17%nat; lia].
  - intros a Ha. apply lookup_singleton_ne. lia.
Qed.

Lemma ring_walk {A} (f : Entry -> A) (g : node -> A) fuel (h : t) nx pv l :
  (forall x p q r, f (entry_of x p q r) = g x) -> linked (store h) nx pv l 1 -> 1%positive ∉ addrs l ->
  (length l < fuel)%nat -> ring fuel f 1 (Some (first l 1)) h = (Ok (map g l), h).
Proof.
  intros Hf. revert pv l. induction fuel as [|fuel IH]; intros pv l Hl Hn Hlen; [lia|].
  destruct l as [|x l]; cbn [ring first]; [reflexivity|]. destruct Hl as [Hx Hl].
  destruct (Pos.eqb_spec (at_ x) 1) as [E|E]; [destruct Hn; rewrite <- E; left|].
  rewrite (entry_bind_deref _ _ _ _ Hx). cbn [after entry_of].
  rewrite (bind_ok _ _ _ _ _ (IH _ l Hl ltac:(intros Hin; apply Hn; right; exact Hin) ltac:(cbn in Hlen; lia))).
  rewrite Hf. reflexivity.
Qed.

Lemma entry_walk_spec {A} (f : Entry -> A) (g : node -> A) (h : t) ns :
  (forall x p q r, f (entry_of x p q r) = g x) -> rep h ns -> walk f h = (Ok (map g ns), h).
Proof.
  intros Hf (nx & Hi). unfold walk. rewrite bind_gets, (inv_head _ _ _ Hi).
  pose proof (inv_ring _ _ _ Hi) as [Hh Hl Hn].
  rewrite (entry_bind_deref _ _ _ _ Hh), bind_gets. cbn [after head_entry].
  apply list.NoDup_cons in Hn as [Hn _]. pose proof (inv_size _ _ _ Hi).
  eapply ring_walk; [exact Hf | exact Hl | exact Hn | lia].
Qed.

Section Find.
Context (i : Z) (test : Entry -> bool) (tn : node -> bool).
Context (test_node : forall x nx pv nxt, test (entry_of x nx pv nxt) = tn x).
Context (test_bucket : forall x, tn x = true -> bucket x = i).

(** The entries found, the last one first. *)
Definition found (ns : list node) : list text := map value_of (rev (List.filter tn ns)).

Lemma found_none ns : last_in i ns = None -> List.filter tn ns = [].
Proof.
  induction ns as [|x ns IH]; [reflexivity|]. cbn. destruct (last_in i ns); [discriminate|].
  destruct (bucket x =? i) eqn:E; [discriminate|]. intros _. zbool.
  destruct (tn x) eqn:Et; [apply test_bucket in Et; contradiction | apply IH; reflexivity].
Qed.

Lemma found_step ns l1 x l2 : ns = l1 ++ x :: l2 -> last_in i l2 = None ->
  found ns = (if tn x then [value_of x] else []) ++ found l1.
Proof.
  intros -> Hl2. unfold found. rewrite List.filter_app, rev_app_distr, map_app. cbn. f_equal.
  rewrite (found_none l2 Hl2). destruct (tn x); reflexivity.
Qed.

Lemma chainValues_spec fuel (h : t) nx ns rest :
  inv nx h (ns ++ rest) -> (length ns < fuel)%nat ->
  chainValues fuel test (last_in i ns) h = (Ok (found ns), h).
Proof.
  intros Hi. revert ns rest Hi. induction fuel as [|fuel IH]; intros ns rest Hi Hf; [lia|].
  destruct (last_in i ns) as [a|] eqn:E.
  2:{ unfold found. rewrite (found_none ns E). reflexivity. }
  destruct (last_in_split _ _ _ E) as (l1 & x & l2 & En & <- & Hb & Hl2).
  rewrite (found_step ns l1 x l2 En Hl2). rewrite En, <- app_assoc in Hi. cbn [app] in Hi.
  cbn [chainValues]. rewrite (entry_bind_deref _ _ _ _ (inv_node _ _ _ _ _ Hi)), test_node. cbn [next value entry_of].
  rewrite Hb. rewrite En, length_app in Hf. cbn in Hf.
  rewrite (bind_ok _ _ _ _ _ (IH l1 _ Hi ltac:(lia))). destruct (tn x); reflexivity.
Qed.

Lemma chainGet_spec fuel (h : t) nx ns rest :
  inv nx h (ns ++ rest) -> (length ns < fuel)%nat ->
  chainGet fuel test (last_in i ns) h = (Ok (match found ns with v :: _ => v | [] => [] end), h).
Proof.
  intros Hi. revert ns rest Hi. induction fuel as [|fuel IH]; intros ns rest Hi Hf; [lia|].
  destruct (last_in i ns) as [a|] eqn:E.
  2:{ unfold found. rewrite (found_none ns E). reflexivity. }
  destruct (last_in_split _ _ _ E) as (l1 & x & l2 & En & <- & Hb & Hl2).
  rewrite (found_step ns l1 x l2 En Hl2). rewrite En, <- app_assoc in Hi. cbn [app] in Hi.
  cbn [chainGet]. rewrite (entry_bind_deref _ _ _ _ (inv_node _ _ _ _ _ Hi)), test_node. cbn [next value entry_of].
  destruct (tn x); [reflexivity|]. rewrite Hb. rewrite En, length_app in Hf. cbn in Hf.
  apply (IH l1 _ Hi). lia.
Qed.
End Find.

(** ** clear *)

Definition chain_ok (s : Store) (j : Z) (ns : list node) : Prop :=
  forall l1 x l2, ns = l1 ++ x :: l2 -> bucket x = j -> exists e, s !! at_ x = Some e /\ next e = last_in j l1.

Definition in_bucket (j : Z) (ns : list node) : list node := List.filter (fun x => bucket x =? j) ns.

Lemma chain_ok_prefix s j l1 l2 : chain_ok s j (l1 ++ l2) -> chain_ok s j l1.
Proof. intros H k1 x k2 -> Hb. apply (H k1 x (k2 ++ l2)); [rewrite <- app_assoc; reflexivity | exact Hb]. Qed.

Lemma in_bucket_addr j ns a : a ∈ addrs (in_bucket j ns) -> exists l1 x l2, ns = l1 ++ x :: l2 /\ at_ x = a /\ bucket x = j.
Proof.
  unfold addrs, in_bucket. rewrite list_elem_of_In, in_map_iff. intros (x & <- & Hx).
  apply filter_In in Hx as [Hx Hb]. zbool. apply in_split in Hx as (l1 & l2 & ->). eauto 6.
Qed.

Lemma clearBucket_spec j fuel (h : t) ns :
  NoDup (addrs ns) -> chain_ok (store h) j ns -> (length (in_bucket j ns) <= fuel)%nat ->
  exists s', clearBucket fuel (last_in j ns) h = (Ok tt, with_store s' h) /\
    (forall a, a ∉ addrs (in_bucket j ns) -> s' !! a = store h !! a) /\
    (forall a, store h !! a = None -> s' !! a = None).
Proof.
  revert h ns. induction fuel as [|fuel IH]; intros h ns Hn Hc Hf; destruct (last_in j ns) as [a|] eqn:E.
  2,4: exists (store h); destruct h; cbn; auto.
  all: destruct (last_in_split _ _ _ E) as (l1 & x & l2 & -> & <- & Hb & Hl2);
    assert (in_bucket j (l1 ++ x :: l2) = in_bucket j l1 ++ x :: in_bucket j l2) as Ei
      by (unfold in_bucket; rewrite List.filter_app; cbn; rewrite Hb, Z.eqb_refl; reflexivity);
    rewrite Ei in *; rewrite length_app in Hf; cbn [length] in Hf; try lia.
  destruct (Hc l1 x l2 eq_refl Hb) as (e & Ee & Hnx). cbn [clearBucket]. rewrite (entry_bind_deref _ _ _ _ Ee).
  unfold delete_entry. rewrite bind_assoc, (entry_bind_deref _ _ _ _ Ee), bind_modify, Hnx.
  unfold addrs in Hn. rewrite map_app in Hn. cbn [map] in Hn. apply list.NoDup_app in Hn as (Hn1 & Hnd & _).
  destruct (IH (with_store (delete (at_ x) (store h)) h) l1 Hn1) as (s' & Es & Ho & Hnone).
  - intros k1 y k2 -> Hby. destruct (Hc k1 y (k2 ++ x :: l2)) as (e' & Ee' & Hn'); [rewrite <- app_assoc; reflexivity | exact Hby|].
    exists e'. split; [|exact Hn']. cbn [store with_store]. rewrite lookup_delete_ne; [exact Ee'|].
    intros Eq. apply (Hnd (at_ y)); [rewrite map_app; apply list.elem_of_app; right; left | rewrite <- Eq; left].
  - lia.
  - exists s'. split; [exact Es|]. cbn [store with_store] in Ho, Hnone. split.
    + intros a Ha. unfold addrs in Ha. rewrite map_app, list.elem_of_app in Ha. cbn [map] in Ha.
      rewrite Ho by (intros Hin; apply Ha; left; exact Hin). apply lookup_delete_ne. intros <-. apply Ha. right. left.
    + intros a Ha. apply Hnone. apply lookup_delete_None. right. exact Ha.
Qed.

Lemma clearLoop_spec n (h : t) ns :
  (n <= 17)%nat -> NoDup (addrs ns) ->
  (forall j, 17 - Z.of_nat n <= j < 17 -> chain_ok (store h) j ns /\ entries h !! Z.to_nat j = Some (last_in j ns)) ->
  (forall j, 0 <= j < 17 - Z.of_nat n -> entries h !! Z.to_nat j = Some None) ->
  exists h', clearLoop n (17 - Z.of_nat n) h = (Ok tt, h') /\
    (forall j, 0 <= j < 17 -> entries h' !! Z.to_nat j = Some None) /\
    (forall a, a ∉ addrs ns -> store h' !! a = store h !! a) /\
    (forall a, store h !! a = None -> store h' !! a = None) /\
    fresh h' = fresh h /\ head h' = head h /\ freelist h' = freelist h.
Proof.
  revert h. induction n as [|n IH]; intros h Hn17 Hn Hch Hdone.
  { exists h. split; [reflexivity|]. split; [intros j Hj; apply Hdone; lia | auto]. }
  set (i := 17 - Z.of_nat (S n)) in *. assert (0 <= i < 17) as Hi by lia.
  destruct (Hch i ltac:(lia)) as [Hci Hei]. cbn [clearLoop].
  assert (getBucket i h = (Ok (last_in i ns), h)) as Eg
    by (unfold getBucket, reads, BUCKET_SIZE; zif; rewrite Hei; reflexivity).
  rewrite (bind_ok _ _ _ _ _ Eg), bind_gets.
  assert (length (in_bucket i ns) <= walkFuel h)%nat as Hfuel.
  { unfold walkFuel. rewrite <- (length_map at_). change (map at_ (in_bucket i ns)) with (addrs (in_bucket i ns)).
    assert (NoDup (addrs (in_bucket i ns))) as Hnb.
    { clear -Hn. unfold addrs in *. induction ns as [|x ns IH]; [constructor|]. cbn in *.
      apply list.NoDup_cons in Hn as [Hx Hn]. destruct (bucket x =? i); cbn; [|apply IH, Hn].
      apply list.NoDup_cons. split; [|apply IH, Hn]. intros Hin. apply Hx. rewrite list_elem_of_In in *.
      apply in_map_iff in Hin as (y & <- & Hy). apply filter_In in Hy as [Hy _]. apply in_map, Hy. }
    enough (length (addrs (in_bucket i ns)) <= size (store h))%nat by lia.
    rewrite <- size_dom, <- (size_list_to_set (C := gset addr) _ Hnb). apply subseteq_size.
    intros a Ha. apply elem_of_list_to_set in Ha. destruct (in_bucket_addr _ _ _ Ha) as (l1 & x & l2 & E & <- & Hb).
    destruct (Hci l1 x l2 E Hb) as (e & Ee & _). apply elem_of_dom. eauto. }
  destruct (clearBucket_spec i (walkFuel h) h ns Hn Hci Hfuel) as (s' & Es & Ho & Hnone).
  rewrite (bind_ok _ _ _ _ _ Es). unfold setBucket, BUCKET_SIZE. zif. rewrite bind_modify.
  set (h1 := with_entries (<[Z.to_nat i := None]> (entries (with_store s' h))) (with_store s' h)).
  assert (forall j, j <> i -> forall a, a ∈ addrs (in_bucket j ns) -> a ∉ addrs (in_bucket i ns)) as Hdis.
  { intros j Hj a Ha Hin. destruct (in_bucket_addr _ _ _ Ha) as (l1 & x & l2 & E & <- & Hb).
    destruct (in_bucket_addr _ _ _ Hin) as (k1 & y & k2 & E2 & Hy & Hby).
    assert (x = y); [|subst; congruence]. clear -Hn E E2 Hy. subst ns. revert k1 E2.
    induction l1 as [|z l1 IH]; intros [|w k1] [= -> E]; [reflexivity | | |]; unfold addrs in Hn; cbn in Hn;
      apply list.NoDup_cons in Hn as [Hx Hn].
    - subst l2. destruct Hx. rewrite <- Hy, map_app. apply list.elem_of_app. right. left.
    - destruct Hx. rewrite Hy, map_app. apply list.elem_of_app. right. left.
    - apply (IH Hn k1 E). }
  replace (i + 1) with (17 - Z.of_nat n) by lia.
  destruct (IH h1) as (h' & E' & He' & Ho' & Hnone' & Hf' & Hh' & Hfl'); [lia | exact Hn | | |].
  - intros j Hj. assert (j <> i) by lia. destruct (Hch j ltac:(lia)) as [Hcj Hej]. cbn [store h1 entries with_entries with_store].
    split; [|rewrite list_lookup_insert_ne by lia; exact Hej].
    intros l1 x l2 E Hb. destruct (Hcj l1 x l2 E Hb) as (e & Ee & Hnx). exists e. split; [|exact Hnx].
    rewrite Ho; [exact Ee|]. apply (Hdis j); [assumption|]. rewrite E. unfold in_bucket. rewrite List.filter_app. cbn.
    rewrite Hb, Z.eqb_refl. unfold addrs. rewrite map_app. apply list.elem_of_app. right. left.
  - intros j Hj. cbn [h1 entries with_entries with_store]. destruct (decide (j = i)) as [->|Hne].
    + apply list_lookup_insert_eq, lookup_lt_Some with (x := last_in i ns), Hei.
    + rewrite list_lookup_insert_ne by lia. apply Hdone. lia.
  - exists h'. split; [exact E'|]. split; [exact He'|]. cbn in Ho', Hnone', Hf', Hh', Hfl'. split; [|split; [|auto]].
    + intros a Ha. rewrite Ho' by exact Ha. apply Ho. intros Hin. apply Ha.
      destruct (in_bucket_addr _ _ _ Hin) as (l1 & x & l2 & -> & <- & _). unfold addrs. rewrite map_app.
      apply list.elem_of_app. right. left.
    + intros a Ha. apply Hnone', Hnone, Ha.
Qed.

Lemma clear_spec (h : t) ns : rep h ns -> exists h', clear h = (Ok tt, h') /\ rep h' [].
Proof.
  intros (nx & Hi). pose proof (ring_nodup _ _ _ (inv_ring _ _ _ Hi)) as Hn.
  apply list.NoDup_cons in Hn as [H1 Hn].
  destruct (clearLoop_spec 17 h ns) as (h1 & E1 & He & Ho & Hnone & Hf & Hh & Hfl);
    [lia | exact Hn | | lia |].
  - intros j Hj. split; [|apply (inv_entries _ _ _ Hi); lia]. intros l1 x l2 -> <-.
    eexists. split; [exact (inv_node _ _ _ _ _ Hi) | reflexivity].
  - unfold clear. change (Z.to_nat BUCKET_SIZE) with 17%nat. change (17 - Z.of_nat 17) with 0 in E1.
    rewrite (bind_ok _ _ _ _ _ E1), bind_gets, Hh, (inv_head _ _ _ Hi).
    assert (store h1 !! 1%positive = Some (head_entry (last_of 1 ns) (first ns 1))) as Eh
      by (rewrite Ho by exact H1; apply (ring_head _ _ _ (inv_ring _ _ _ Hi))).
    rewrite (entry_bind_assign _ _ _ _ _ Eh).
    erewrite entry_assign_ok by (cbn [store with_store]; rewrite lookup_alter_eq, Eh; reflexivity).
    eexists. split; [reflexivity|]. exists (fun _ => None). split; cbn.
    + split; cbn; [|exact Logic.I | apply NoDup_singleton]. rewrite !lookup_alter_eq, Eh. reflexivity.
    + exact Logic.I.
    + exact He.
    + intros a Ha. rewrite !lookup_alter_None. apply Hnone, (inv_fresh _ _ _ Hi). rewrite <- Hf. exact Ha.
    + rewrite Hh. apply (inv_head _ _ _ Hi).
    + rewrite Hfl. apply (inv_freelist _ _ _ Hi).
Qed.

(** ** Names regardless of case *)

Lemma eq_lower a b : eq a b = text_eqb (map lower a) (map lower b).
Proof.
  unfold eq. revert b. induction a as [|x a IH]; intros [|y b]; cbn; try reflexivity.
  rewrite <- IH. unfold eq_char. destruct (Z.eqb_spec x y) as [->|]; cbn; [rewrite Z.eqb_refl | ];
    destruct (_ =? _)%nat; rewrite ?andb_false_r; reflexivity.
Qed.

Lemma hash_lower a b : map lower a = map lower b -> hash_of a = hash_of b.
Proof.
  intros H. unfold hash_of. replace (hashLoop b) with (hashLoop a); [reflexivity|]. unfold hashLoop.
  revert b H. induction a as [|x a IH]; intros [|y b]; try discriminate; [reflexivity|].
  intros [= Hx H]. cbn. rewrite Hx, (IH b H). reflexivity.
Qed.

Lemma same_name_node name x nx pv nxt :
  same_name (hash_of name) name (entry_of x nx pv nxt) = text_eqb (map lower name) (map lower (name_of x)).
Proof.
  unfold same_name. cbn. rewrite eq_lower. destruct (text_eqb _ _) eqn:E; [|apply andb_false_r].
  apply text_eqb_eq in E. rewrite (hash_lower _ _ E), Z.eqb_refl. reflexivity.
Qed.

(** ** The ordered multimap *)

Module Multimap.

Abbreviation t := (list (text * text)).

Definition matches (name : text) (p : text * text) : bool := text_eqb (map lower name) (map lower (fst p)).
Definition matches_value (name v : text) (p : text * text) : bool :=
  matches name p && text_eqb (map lower v) (map lower (snd p)).

Definition validated (name v : text) : result unit :=
  let? _ := HttpCodecUtil.validateHeaderName name in HttpCodecUtil.validateHeaderValue v.

Definition add (name v : text) : M t unit :=
  reads (fun _ => validated name v) ;!
  modify (fun l => l ++ [(name, v)]).

Definition without (p : text * text -> bool) : M t unit := modify (List.filter (fun x => negb (p x))).

Definition set (name v : text) : M t unit :=
  if is_empty v then ret tt
  else reads (fun _ => validated name v) ;! without (matches name) ;! modify (fun l => l ++ [(name, v)]).

(** The values of a name, the last one first. *)
Definition values (name : text) (l : t) : list text :=
  if is_empty name then [] else map snd (rev (List.filter (matches name) l)).

Definition get (name : text) (l : t) : text := match values name l with v :: _ => v | [] => [] end.

(** Several values are set one after the other, up to the first empty one. *)
Fixpoint addAll (name : text) (vs : list text) : M t unit :=
  match vs with
  | [] => ret tt
  | v :: vs =>
      if is_empty v then ret tt
      else reads (fun _ => HttpCodecUtil.validateHeaderValue v) ;! modify (fun l => l ++ [(name, v)]) ;! addAll name vs
  end.

Definition setValues (name : text) (vs : list text) : M t unit :=
  if is_empty vs then ret tt
  else reads (fun _ => HttpCodecUtil.validateHeaderName name) ;! without (matches name) ;! addAll name vs.

#[global] Instance httpHeader : HttpHeader.HttpHeader t := {|
  HttpHeader.get name := Prelude.gets (get name);
  HttpHeader.getValues name := Prelude.gets (values name);
  HttpHeader.gets := Prelude.gets id;
  HttpHeader.contains name := Prelude.gets (fun l => negb (is_empty (get name l)));
  HttpHeader.getNames := Prelude.gets (map fst);
  HttpHeader.add := add;
  HttpHeader.addInt name v := add name (Integer.toString v);
  HttpHeader.set := set;
  HttpHeader.setInt name v := set name (Integer.toString v);
  HttpHeader.setValues := setValues;
  HttpHeader.setInts name vs := setValues name (map Integer.toString vs);
  HttpHeader.remove name := if is_empty name then ret tt else without (matches name);
  HttpHeader.removeValue name v := if is_empty name then ret tt else without (matches_value name v);
  HttpHeader.clear := modify (fun _ => []);
|}.
End Multimap.

(** ** Refinement *)

(** The calls that change and read a table, but for [set] of several values. *)
Inductive call :=
  | CGet (name : text) | CGetValues (name : text) | CGets | CContains (name : text) | CGetNames
  | CAdd (name v : text) | CAddInt (name : text) (v : Z) | CSet (name v : text) | CSetInt (name : text) (v : Z)
  | CRemove (name : text) | CRemoveValue (name v : text) | CClear.

Inductive answer :=
  | Done | AText (s : text) | ATexts (l : list text) | APairs (l : list (text * text)) | ABool (b : bool).

Definition run_call {H} {HH : HttpHeader.HttpHeader H} (c : call) : M H answer :=
  match c with
  | CGet n => let! v := HttpHeader.get n in ret (AText v)
  | CGetValues n => let! v := HttpHeader.getValues n in ret (ATexts v)
  | CGets => let! v := HttpHeader.gets in ret (APairs v)
  | CContains n => let! b := HttpHeader.contains n in ret (ABool b)
  | CGetNames => let! v := HttpHeader.getNames in ret (ATexts v)
  | CAdd n v => HttpHeader.add n v ;! ret Done
  | CAddInt n v => HttpHeader.addInt n v ;! ret Done
  | CSet n v => HttpHeader.set n v ;! ret Done
  | CSetInt n v => HttpHeader.setInt n v ;! ret Done
  | CRemove n => HttpHeader.remove n ;! ret Done
  | CRemoveValue n v => HttpHeader.removeValue n v ;! ret Done
  | CClear => HttpHeader.clear ;! ret Done
  end.

(** The answers of a sequence of calls; a call that throws is answered by its
    exception, and the next one finds the table it left. *)
Fixpoint run_calls {H} {HH : HttpHeader.HttpHeader H} (cs : list call) (h : H) : list (result answer) :=
  match cs with
  | [] => []
  | c :: cs => let '(r, h) := run_call c h in r :: run_calls cs h
  end.

(** The table stands for the list. *)
Definition stands (h : t) (l : Multimap.t) : Prop := exists ns, rep h ns /\ contents ns = l.

(** An operation does to the table what it does to the list. *)
Definition simulates {A} (m : M t A) (m' : M Multimap.t A) : Prop :=
  forall h l, stands h l -> exists h', m h = (fst (m' l), h') /\ stands h' (snd (m' l)).

Lemma simulates_bind {A B} (m : M t A) m' (f : A -> M t B) f' :
  simulates m m' -> (forall a, simulates (f a) (f' a)) -> simulates (bind m f) (bind m' f').
Proof.
  intros Hm Hf h l Hs. destruct (Hm h l Hs) as (h1 & E & H1). unfold bind. rewrite E.
  destruct (m' l) as [[a|e] l1]; cbn [fst snd] in *; [apply (Hf a), H1 | eauto].
Qed.

Lemma simulates_ret {A} (a : A) : simulates (ret a) (ret a).
Proof. intros h l Hs. exists h. auto. Qed.

Lemma simulates_lift (r : result unit) : simulates (lift r) (reads (fun _ => r)).
Proof. intros h l Hs. exists h. auto. Qed.

Lemma simulates_addHeader name v :
  simulates (addHeader (hash_of name) (index (hash_of name)) name v) (modify (fun l => l ++ [(name, v)])).
Proof.
  intros h l (ns & Hr & <-). destruct (addHeader_spec h ns name v Hr) as (h' & E & Hr').
  exists h'. split; [exact E|]. eexists. split; [exact Hr'|]. unfold contents. rewrite map_app. reflexivity.
Qed.

Lemma simulates_remove test p i :
  0 <= i < 17 ->
  (forall x nx pv nxt, test (entry_of x nx pv nxt) = p (name_of x, value_of x)) ->
  (forall x, p (name_of x, value_of x) = true -> bucket x = i) ->
  simulates (removeHeader i test) (Multimap.without p).
Proof.
  intros Hi Ht Hb h l (ns & Hr & <-).
  destruct (removeHeader_spec i test (fun x => p (name_of x, value_of x)) Ht h ns Hi Hr) as (h' & E & Hr').
  exists h'. split; [exact E|]. eexists. split; [exact Hr'|]. cbn. clear -Hb.
  unfold contents, keep. induction ns as [|x ns IH]; [reflexivity|]. cbn.
  destruct (p (name_of x, value_of x)) eqn:E; cbn.
  - rewrite (proj2 (Z.eqb_eq _ _) (Hb x E)). cbn. exact IH.
  - rewrite andb_false_r. cbn. f_equal. exact IH.
Qed.

Lemma matches_bucket name x : Multimap.matches name (name_of x, value_of x) = true -> bucket x = index (hash_of name).
Proof.
  unfold Multimap.matches. cbn. intros E. apply text_eqb_eq in E. unfold bucket. rewrite (hash_lower _ _ E). reflexivity.
Qed.

Lemma simulates_remove_name name :
  simulates (removeHeader (index (hash_of name)) (same_name (hash_of name) name)) (Multimap.without (Multimap.matches name)).
Proof.
  apply simulates_remove; [apply index_range, hash_range | intros; apply same_name_node | apply matches_bucket].
Qed.

Lemma simulates_remove_value name v :
  simulates (removeHeader (index (hash_of name)) (same_header (hash_of name) name v))
    (Multimap.without (Multimap.matches_value name v)).
Proof.
  apply simulates_remove; [apply index_range, hash_range | |].
  - intros. unfold same_header. change ((hash ?e =? ?h) && eq ?n (key ?e)) with (same_name h n e).
    rewrite same_name_node, eq_lower. reflexivity.
  - unfold Multimap.matches_value. intros x H. apply andb_true_iff in H as [H _]. apply matches_bucket, H.
Qed.

Lemma found_values name ns :
  map value_of (rev (List.filter (fun x => Multimap.matches name (name_of x, value_of x)) ns))
  = map snd (rev (List.filter (Multimap.matches name) (contents ns))).
Proof.
  rewrite !map_rev. f_equal. unfold contents. induction ns as [|x ns IH]; [reflexivity|]. cbn.
  destruct (Multimap.matches name (name_of x, value_of x)); cbn; rewrite IH; reflexivity.
Qed.

Lemma simulates_get name : simulates (get name) (Prelude.gets (Multimap.get name)).
Proof.
  intros h l (ns & (nx & Hi) & <-). exists h. split; [|exists ns; split; [exists nx; exact Hi | reflexivity]].
  unfold get, Multimap.get, Multimap.values. cbn [fst Prelude.gets]. destruct (is_empty name); [reflexivity|].
  rewrite (bind_ok _ _ _ _ _ (inv_bucket _ _ _ _ Hi (index_range _ (proj1 (hash_range name))))), bind_gets.
  pose proof (inv_size _ _ _ Hi) as Hs. pose proof Hi as Hi0. rewrite <- (app_nil_r ns) in Hi0.
  rewrite (chainGet_spec _ _ (fun x => Multimap.matches name (name_of x, value_of x)) (same_name_node name)
    (matches_bucket name) _ _ _ _ _ Hi0) by lia.
  unfold found. rewrite found_values. reflexivity.
Qed.

Lemma simulates_getValues name : simulates (getValues name) (Prelude.gets (Multimap.values name)).
Proof.
  intros h l (ns & (nx & Hi) & <-). exists h. split; [|exists ns; split; [exists nx; exact Hi | reflexivity]].
  unfold getValues, Multimap.values. cbn [fst Prelude.gets]. destruct (is_empty name); [reflexivity|].
  rewrite (bind_ok _ _ _ _ _ (inv_bucket _ _ _ _ Hi (index_range _ (proj1 (hash_range name))))), bind_gets.
  pose proof (inv_size _ _ _ Hi) as Hs. pose proof Hi as Hi0. rewrite <- (app_nil_r ns) in Hi0.
  rewrite (chainValues_spec _ _ (fun x => Multimap.matches name (name_of x, value_of x)) (same_name_node name)
    (matches_bucket name) _ _ _ _ _ Hi0) by lia.
  unfold found. rewrite found_values. reflexivity.
Qed.

Lemma simulates_walk {A} (f : Entry -> A) (g : text * text -> A) :
  (forall x p q r, f (entry_of x p q r) = g (name_of x, value_of x)) -> simulates (walk f) (Prelude.gets (map g)).
Proof.
  intros Hf h l (ns & Hr & <-). exists h. split; [|exists ns; auto].
  rewrite (entry_walk_spec f (fun x => g (name_of x, value_of x)) h ns Hf Hr). unfold contents. cbn. rewrite map_map. reflexivity.
Qed.

Lemma simulates_clear : simulates clear (modify (fun _ => [])).
Proof.
  intros h l (ns & Hr & <-). destruct (clear_spec h ns Hr) as (h' & E & Hr'). exists h'. split; [exact E|].
  exists []. auto.
Qed.

Lemma simulates_ext {A} (m : M t A) m1 m2 : (forall l, m1 l = m2 l) -> simulates m m1 -> simulates m m2.
Proof. intros He H h l Hs. rewrite <- He. apply H, Hs. Qed.

Lemma simulates_validated {A} name v (m : M t A) m' : simulates m m' ->
  simulates (lift (HttpCodecUtil.validateHeaderName name) ;! lift (HttpCodecUtil.validateHeaderValue v) ;! m)
    (reads (fun _ => Multimap.validated name v) ;! m').
Proof.
  intros Hm. apply (simulates_ext _ (reads (fun _ => HttpCodecUtil.validateHeaderName name) ;!
    reads (fun _ => HttpCodecUtil.validateHeaderValue v) ;! m')).
  - intros l. unfold Multimap.validated. rewrite !bind_reads.
    destruct (HttpCodecUtil.validateHeaderName name) as [[]|e]; reflexivity.
  - apply simulates_bind; [apply simulates_lift | intros _].
    apply simulates_bind; [apply simulates_lift | intros _; exact Hm].
Qed.

Lemma simulates_add name v : simulates (add name v) (Multimap.add name v).
Proof. apply simulates_validated, simulates_addHeader. Qed.

Lemma simulates_set name v : simulates (set name v) (Multimap.set name v).
Proof.
  unfold set, Multimap.set. destruct (is_empty v); [apply simulates_ret|]. apply simulates_validated.
  apply simulates_bind; [apply simulates_remove_name | intros _; apply simulates_addHeader].
Qed.

Lemma simulates_call c : simulates (run_call c) (run_call c).
Proof.
  destruct c; cbn; apply simulates_bind; try (intros; apply simulates_ret).
  - apply simulates_get.
  - apply simulates_getValues.
  - eapply simulates_ext; [|apply (simulates_walk _ id); reflexivity]. intros l. cbn. unfold Prelude.gets.
    rewrite map_id. reflexivity.
  - eapply simulates_ext; [|apply simulates_bind; [apply simulates_get | intros v; apply simulates_ret]]. reflexivity.
  - apply (simulates_walk _ fst). reflexivity.
  - apply simulates_add.
  - apply simulates_add.
  - apply simulates_set.
  - apply simulates_set.
  - unfold remove. destruct (is_empty name); [apply simulates_ret | apply simulates_remove_name].
  - unfold removeValue. destruct (is_empty name); [apply simulates_ret | apply simulates_remove_value].
  - apply simulates_clear.
Qed.

(** C10: the hash table of headers with its chains and its ring answers every
    sequence of these calls, which are all but the setting of several values, as
    a list of name and value pairs does - names without
    regard to case, the values of a name from the last one added to the first,
    all headers in the order they were added, the exceptions for bad names and
    values included -, and never uses a null or deleted pointer or walks for ever. *)
Theorem header_is_multimap (cs : list call) :
  run_calls cs DefaultHttpHeader.new = run_calls cs ([] : Multimap.t).
Proof.
  assert (stands new []) as Hs by (exists []; split; [exact new_rep | reflexivity]).
  revert Hs. generalize new ([] : Multimap.t). induction cs as [|c cs IH]; intros h l Hs; [reflexivity|].
  cbn [run_calls]. destruct (simulates_call c h l Hs) as (h' & E & Hs'). rewrite E.
  destruct (run_call c l) as [r l']. cbn [fst snd] in *. f_equal. apply IH, Hs'.
Qed.

(** ** set of several values *)

(** A header that is set from a list of values goes into the bucket of the
    position in the list, not into that of its name: unless the two coincide the
    table lists the header but does not find it. *)
Theorem set_values_lost (name v : text) :
  HttpCodecUtil.validateHeaderName name = Ok tt -> HttpCodecUtil.validateHeaderValue v = Ok tt ->
  v <> [] -> index (hash_of name) <> 0 ->
  exists h, setValues name [v] new = (Ok tt, h) /\ fst (gets h) = Ok [(name, v)] /\
    fst (get name h) = Ok [] /\ fst (contains name h) = Ok false.
Proof.
  intros Hn Hv Hne Hi. pose proof (index_range _ (proj1 (hash_range name))) as Hr.
  destruct v as [|c v]; [contradiction|]. destruct name as [|d name]; [contradiction|].
  destruct new_rep as (nx & Hnew).
  unfold contains, get, setValues. cbn [is_empty]. unfold lift. rewrite bind_reads, Hn. cbv zeta. unfold removeHeader.
  rewrite bind_assoc, (bind_ok _ _ _ _ _ (inv_bucket _ _ _ _ Hnew Hr)). cbn [last_in]. rewrite bind_ret_l.
  cbn [setLoop is_empty]. unfold lift. rewrite bind_reads, Hv. clear Hn Hv Hnew nx.
  unfold same_name. revert Hi Hr. generalize (hash_of (d :: name)) as hv. intros hv Hi Hr.
  eexists. split; [vm_compute; reflexivity|]. split; [vm_compute; reflexivity|].
  unfold getBucket, BUCKET_SIZE. rewrite !bind_assoc, !bind_reads. zif.
  replace (Z.to_nat (index hv)) with (S (Z.to_nat (index hv - 1))) by lia.
  assert (forall n x, (n < 16)%nat -> (x :: replicate 16 (@None addr)) !! S n = Some None) as Hl
    by (intros n x Hn; change (replicate 16 (@None addr) !! n = Some None); apply lookup_replicate; auto).
  cbn [replicate] in Hl. cbn [entries].
  rewrite Hl by lia. rewrite !bind_gets. split; reflexivity.
Qed.

(** ** Header values *)

(** What may stand at a char of a header value. *)
Definition value_char (c : Z) (rest : text) : Prop :=
  c <> 11 /\ c <> 12 /\
  (c = HttpCodecUtil.CR -> exists s, rest = HttpCodecUtil.LF :: s) /\
  (c = HttpCodecUtil.LF -> exists d s, rest = d :: s /\ (d = HttpCodecUtil.SP \/ d = HttpCodecUtil.HT)).

Definition state_char (state : Z) (v : text) : Prop :=
  match state with
  | 0 => True
  | 1 => exists s, v = HttpCodecUtil.LF :: s
  | _ => exists d s, v = d :: s /\ (d = HttpCodecUtil.SP \/ d = HttpCodecUtil.HT)
  end.

Lemma validateValueFrom_spec state v : state = 0 \/ state = 1 \/ state = 2 ->
  HttpCodecUtil.validateValueFrom state v = Ok tt <->
  state_char state v /\ forall l1 c l2, v = l1 ++ c :: l2 -> value_char c l2.
Proof.
  revert state. induction v as [|c v IH]; intros state Hs; cbn [HttpCodecUtil.validateValueFrom].
  - destruct Hs as [-> | [-> | ->]]; cbn; split; try discriminate.
    + intros _. split; [exact Logic.I|]. intros [|]; discriminate.
    + reflexivity.
    + intros [(s & E) _]. discriminate.
    + intros [(d & s & E & _) _]. discriminate.
  - assert (forall st, st = 0 \/ st = 1 \/ st = 2 -> (state_char st v -> value_char c v) ->
      (value_char c v -> state_char st v) ->
      HttpCodecUtil.validateValueFrom st v = Ok tt <-> forall l1 d l2, c :: v = l1 ++ d :: l2 -> value_char d l2) as Hstep.
    { intros st Hst H1 H2. rewrite (IH st Hst). split.
      - intros [Hsc Hall] [|x l1] d l2 [= -> ->]; [apply H1, Hsc | eapply Hall; reflexivity].
      - intros Hall. split; [apply H2, (Hall []); reflexivity|]. intros l1 d l2 ->. apply (Hall (c :: l1)). reflexivity. }
    assert ((c =? 11) || (c =? 12) = true -> ~ value_char c v) as Hbad.
    { intros Hb (H1 & H2 & _). apply orb_true_iff in Hb as [Hb|Hb]; zbool; contradiction. }
    destruct ((c =? 11) || (c =? 12)) eqn:Eb.
    { split; [discriminate|]. intros [_ Hall]. destruct (Hbad eq_refl). apply (Hall []). reflexivity. }
    apply orb_false_iff in Eb as [E1 E2]. zbool. clear Hbad.
    unfold HttpCodecUtil.CR, HttpCodecUtil.LF, HttpCodecUtil.SP, HttpCodecUtil.HT in *.
    destruct Hs as [-> | [-> | ->]]; cbn [Z.eqb Pos.eqb state_char].
    + assert (exists st, (if c =? 13 then 1 else if c =? 10 then 2 else 0) = st /\ (st = 0 \/ st = 1 \/ st = 2) /\
        (state_char st v <-> value_char c v)) as (st & -> & Hst & Hc).
      { unfold value_char, HttpCodecUtil.CR, HttpCodecUtil.LF, HttpCodecUtil.SP, HttpCodecUtil.HT.
        destruct (Z.eqb_spec c 13), (Z.eqb_spec c 10); subst; try lia; eexists; (split; [reflexivity|]); (split; [auto|]);
          cbn; unfold HttpCodecUtil.LF, HttpCodecUtil.SP, HttpCodecUtil.HT; intuition congruence. }
      rewrite (Hstep st Hst) by apply Hc. tauto.
    + destruct (Z.eqb_spec c 10) as [->|Hc]; cbv iota.
      * rewrite (Hstep 2); [| auto | |]; cbn; unfold value_char, HttpCodecUtil.LF, HttpCodecUtil.SP, HttpCodecUtil.HT, HttpCodecUtil.CR;
          intuition (eauto || congruence).
      * split; [discriminate|]. intros [(s & [= E _]) _]. contradiction.
    + destruct ((c =? 9) || (c =? 32)) eqn:Ec.
      * assert (c = 32 \/ c = 9) as Hc by (apply orb_true_iff in Ec as [Ec|Ec]; zbool; auto).
        assert (value_char c v) as Hvc by (unfold value_char, HttpCodecUtil.CR, HttpCodecUtil.LF; intuition congruence).
        rewrite (Hstep 0) by (auto; intros; exact Logic.I).
        split; [intros Hall; split; [exists c, v; auto | exact Hall] | tauto].
      * split; [discriminate|]. apply orb_false_iff in Ec as [? ?]. zbool.
        intros [(d & s & [= <- _] & [|]) _]; contradiction.
Qed.

(** a header value is accepted exactly if it has no vertical tab and no form
    feed, every carriage return is followed by a line feed, and every line feed by
    a space or a tab: a value cannot end its line and start another header. *)
Theorem header_value_accepted (v : text) :
  HttpCodecUtil.validateHeaderValue v = Ok tt <-> forall l1 c l2, v = l1 ++ c :: l2 -> value_char c l2.
Proof.
  unfold HttpCodecUtil.validateHeaderValue. rewrite validateValueFrom_spec by auto. cbn. tauto.
Qed.

Lemma set_values_lost_witness :
  exists h, setValues [65] [[49]] new = (Ok tt, h) /\ fst (gets h) = Ok [([65], [49])] /\
    fst (get [65] h) = Ok [] /\ fst (contains [65] h) = Ok false.
Proof.
  exact (set_values_lost [65] [49] eq_refl eq_refl ltac:(discriminate) ltac:(vm_compute; discriminate)).
Defined.

(** ** What a table can hold *)

(** The table after a sequence of calls, those that throw included. *)
Fixpoint after_calls {H} {HH : HttpHeader.HttpHeader H} (cs : list call) (h : H) : H :=
  match cs with
  | [] => h
  | c :: cs => after_calls cs (snd (run_call c h))
  end.

Lemma after_calls_stands cs h l : stands h l -> stands (after_calls cs h) (after_calls cs l).
Proof.
  revert h l. induction cs as [|c cs IH]; intros h l Hs; [exact Hs|]. cbn [after_calls]. apply IH.
  destruct (simulates_call c h l Hs) as (h' & E & Hs'). rewrite E. exact Hs'.
Qed.

Lemma stands_gets h l : stands h l -> gets h = (Ok l, h).
Proof.
  intros (ns & Hr & <-). unfold gets.
  rewrite (entry_walk_spec _ (fun x => (name_of x, value_of x)) h ns); [reflexivity | reflexivity | exact Hr].
Qed.

Definition valid_header (p : text * text) : Prop := Multimap.validated (fst p) (snd p) = Ok tt.

Lemma call_valid c (l : Multimap.t) : Forall valid_header l -> Forall valid_header (snd (run_call c l)).
Proof.
  intros Hl.
  assert (forall p, Forall valid_header (List.filter p l)) as Hfilter.
  { intros p. rewrite List.Forall_forall in *. intros x Hx. apply filter_In in Hx as [Hx _]. apply Hl, Hx. }
  assert (forall l n v, Forall valid_header l -> Multimap.validated n v = Ok tt -> Forall valid_header (l ++ [(n, v)])) as Hadd.
  { intros l0 n v H0 Hv. apply List.Forall_app. split; [exact H0 | constructor; [exact Hv | constructor]]. }
  assert (forall n v, Forall valid_header (snd (run_call (CAdd n v) l)) /\ Forall valid_header (snd (run_call (CSet n v) l))) as Hav.
  { intros n v. cbn. unfold Multimap.add, Multimap.set, Multimap.without, ret, bind, reads, modify.
    destruct (Multimap.validated n v) as [[]|e] eqn:E; cbn.
    - split; [apply Hadd; assumption|]. destruct (is_empty v); cbn; [exact Hl|]. apply Hadd; [apply Hfilter | exact E].
    - split; [exact Hl|]. destruct (is_empty v); exact Hl. }
  destruct c; cbn; try exact Hl.
  - apply (Hav name v).
  - apply (Hav name (Integer.toString v)).
  - apply (Hav name v).
  - apply (Hav name (Integer.toString v)).
  - destruct (is_empty name); [exact Hl | apply Hfilter].
  - destruct (is_empty name); [exact Hl | apply Hfilter].
  - constructor.
Qed.

(** C35: whatever calls of [call] were made on a table, those that threw included, every
    name and value it lists has passed the checks.  The calls are all but the two that set
    several values of a name, [setValues] and [setInts], whose loop leaves the array of
    the buckets ([set_values_lost]). *)
Theorem headers_stay_valid (cs : list call) :
  exists l, fst (gets (after_calls cs DefaultHttpHeader.new)) = Ok l /\ Forall valid_header l.
Proof.
  assert (stands new []) as Hs by (exists []; split; [exact new_rep | reflexivity]).
  apply (after_calls_stands cs) in Hs. exists (after_calls cs []). rewrite (stands_gets _ _ Hs). split; [reflexivity|].
  clear Hs. assert (Forall valid_header ([] : Multimap.t)) as H0 by constructor. revert H0. generalize ([] : Multimap.t).
  induction cs as [|c cs IH]; intros l Hl; [exact Hl|]. apply IH, call_valid, Hl.
Qed.
