(* ===== verification/HttpMessage.v ===== *)
(** * HTTP messages

    [src/src/cetty/handler/codec/http]: versions, methods and status codes;
    messages - requests, responses -, chunks, and what [HttpHeaders] computes of
    them; the encoder of messages and chunks.  The headers are any implementation
    of [HttpHeader]; the contents are any type with a test for readable bytes and
    an empty content. *)

From Stdlib Require Import Strings.String.
From S2P Require Import Prelude MachineInt Buffer AbstractBuffer Text HttpHeader.

(** ** HttpVersion *)

Module HttpVersion.

Record t := MkVersion {
  keepAliveDefault : bool;
  majorVersion : Z;
  minorVersion : Z;
  protocolName : text;
  versionText : text;
}.

Definition toString (v : t) : text := versionText v.

Definition verifyProtocl (protocolName : text) : bool :=
  forallb (fun c => negb (Character.isISOControl c || Character.isWhitespace c)) protocolName.

Definition verifyVersion (version : text) : bool := forallb Character.isDigit version.

(** [match]: protocol, major and minor, or [None] for false.  The call
    [text.find(slashPos, '.')] searches the char with the code of the position of
    the slash from position 46, the code of the dot. *)
Definition match_ (s : text) : result (option (text * text * text)) :=
  match find 47 0 s with
  | None => Ok None
  | Some slashPos =>
      let? protocol := substr 0 slashPos s in
      if negb (verifyProtocl protocol) then Ok None
      else
        match find (i8 slashPos) 46 s with
        | None => Ok None
        | Some dotPos =>
            let? major := substr (slashPos + 1) dotPos s in
            let? minor := substr_from (dotPos + 1) s in
            if negb (verifyVersion major) || negb (verifyVersion minor) then Ok None
            else Ok (Some (protocol, major, minor))
        end
  end.

Section Constructors.
Context {SA : StringAlgorithms}.

(** [HttpVersion(const std::string&, bool)]. *)
Definition newText (s : text) (keepAliveDefault : bool) : result t :=
  let version := to_upper (trim_copy s) in
  if is_empty version then Err InvalidArgumentException
  else
    let? m := match_ version in
    match m with
    | None => Err InvalidArgumentException
    | Some (protocol, major, minor) =>
        let? majorVersion := Integer.parse major in
        let? minorVersion := Integer.parse minor in
        Ok (MkVersion keepAliveDefault majorVersion minorVersion protocol
          (protocol ++ str "/" ++ major ++ str "." ++ minor))
    end.

(** [HttpVersion(const std::string&, int, int, bool)]. *)
Definition new (protocolName : text) (majorVersion minorVersion : Z) (keepAliveDefault : bool) : result t :=
  let protocolName := to_upper (trim_copy protocolName) in
  if is_empty protocolName then Err InvalidArgumentException
  else if negb (verifyProtocl protocolName) then Err InvalidArgumentException
  else if majorVersion <? 0 then Err InvalidArgumentException
  else if minorVersion <? 0 then Err InvalidArgumentException
  else Ok (MkVersion keepAliveDefault majorVersion minorVersion protocolName
    (Integer.append (Integer.append (protocolName ++ str "/") majorVersion ++ str ".") minorVersion)).
End Constructors.

(** The two constants, [("HTTP", 1, 0, false)] and [("HTTP", 1, 1, true)]. *)
Definition HTTP_1_0 : t := MkVersion false 1 0 (str "HTTP") (str "HTTP/1.0").
Definition HTTP_1_1 : t := MkVersion true 1 1 (str "HTTP") (str "HTTP/1.1").

Definition valueOf {SA : StringAlgorithms} (s : text) : result t :=
  let version := to_upper (trim_copy s) in
  if text_eqb version (str "HTTP/1.1") then Ok HTTP_1_1
  else if text_eqb version (str "HTTP/1.0") then Ok HTTP_1_0
  else newText version true.

Definition equals (a b : t) : bool :=
  (minorVersion a =? minorVersion b) && (majorVersion a =? majorVersion b)
  && text_eqb (protocolName a) (protocolName b).

Definition compareTo (a b : t) : Z :=
  let v := compare (protocolName a) (protocolName b) in
  if negb (v =? 0) then v
  else
    let v := i32 (majorVersion a - majorVersion b) in
    if negb (v =? 0) then v else i32 (minorVersion a - minorVersion b).

End HttpVersion.

(** ** HttpMethod *)

Module HttpMethod.

Record t := MkMethod { name : text }.

Definition HM_GET : t := MkMethod (str "GET").

Definition HTTP_METHODS : list t :=
  map (fun s => MkMethod (str s))
    ["OPTIONS"; "GET"; "HEAD"; "POST"; "PUT"; "PATCH"; "DELETE"; "TRACE"; "CONNECT"]%string.

Definition getHttpMethod (s : text) : option t :=
  List.find (fun m => compare s (name m) =? 0) HTTP_METHODS.

Section Constructors.
Context {SA : StringAlgorithms}.

Definition new (s : text) : result t :=
  let name := to_upper (trim_copy s) in
  if is_empty name then Err InvalidArgumentException
  else if existsb (fun c => Character.isISOControl c || Character.isWhitespace c) name
  then Err InvalidArgumentException
  else Ok (MkMethod name).

Definition valueOf (s : text) : result t :=
  let method := to_upper (trim_copy s) in
  if is_empty method then Err InvalidArgumentException
  else match getHttpMethod s with
       | Some m => Ok m
       | None => new s
       end.
End Constructors.

Definition equals (a b : t) : bool := text_eqb (name a) (name b).
Definition compareTo (a b : t) : Z := compare (name a) (name b).
Definition toString (m : t) : text := name m.

End HttpMethod.

(** ** HttpResponseStatus *)

Module HttpResponseStatus.

Record t := MkStatus { code : Z; reasonPhrase : text }.

(** The constants, with the cases of [valueOf] that return them. *)
Definition constants : list (Z * string) :=
  [(100, "Continue"%string);
   (101, "Switching Protocols"%string);
   (102, "Processing"%string);
   (200, "OK"%string);
   (201, "Created"%string);
   (202, "Accepted"%string);
   (203, "Non-Authoritative Information"%string);
   (204, "No Content"%string);
   (205, "Reset Content"%string);
   (206, "Partial Content"%string);
   (207, "Multi-Status"%string);
   (300, "Multiple Choices"%string);
   (301, "Moved Permanently"%string);
   (302, "Found"%string);
   (303, "See Other"%string);
   (304, "Not Modified"%string);
   (305, "Use Proxy"%string);
   (307, "Temporary Redirect"%string);
   (400, "Bad Request"%string);
   (401, "Unauthorized"%string);
   (402, "Payment Required"%string);
   (403, "Forbidden"%string);
   (404, "Not Found"%string);
   (405, "Method Not Allowed"%string);
   (406, "Not Acceptable"%string);
   (407, "Proxy Authentication Required"%string);
   (408, "Request Timeout"%string);
   (409, "Conflict"%string);
   (410, "Gone"%string);
   (411, "Length Required"%string);
   (412, "Precondition Failed"%string);
   (413, "Request Entity Too Large"%string);
   (414, "Request-URI Too Long"%string);
   (415, "Unsupported Media Type"%string);
   (416, "Requested Range Not Satisfiable"%string);
   (417, "Expectation Failed"%string);
   (422, "Unprocessable Entity"%string);
   (423, "Locked"%string);
   (424, "Failed Dependency"%string);
   (425, "Unordered Collection"%string);
   (426, "Upgrade Required"%string);
   (500, "Internal Server Error"%string);
   (501, "Not Implemented"%string);
   (502, "Bad Gateway"%string);
   (503, "Service Unavailable"%string);
   (504, "Gateway Timeout"%string);
   (505, "HTTP Version Not Supported"%string);
   (506, "Variant Also Negotiates"%string);
   (507, "Insufficient Storage"%string);
   (510, "Not Extended"%string)].

Definition NOT_FOUND : t := MkStatus 404 (str "Not Found").

Definition new (code : Z) (reasonPhrase : text) : result t :=
  if code <? 0 then Err InvalidArgumentException
  else if existsb (fun c => (c =? 10) || (c =? 13)) reasonPhrase then Err InvalidArgumentException
  else Ok (MkStatus code reasonPhrase).

Definition valueOf (code : Z) : result t :=
  match List.find (fun '(c, _) => c =? code) constants with
  | Some (c, reason) => Ok (MkStatus c (str reason))
  | None =>
      let reasonPhrase :=
        if code <? 100 then "Unknown Status "%string
        else if code <? 200 then "Informational "%string
        else if code <? 300 then "Successful "%string
        else if code <? 400 then "Redirection "%string
        else if code <? 500 then "Client Error "%string
        else if code <? 600 then "Server Error "%string
        else "Unknown Status "%string in
      new code (Integer.append (str reasonPhrase) code)
  end.

Definition equals (a b : t) : bool := code a =? code b.
Definition compareTo (a b : t) : Z := i32 (code a - code b).
Definition toString (s : t) : text := (Integer.append [] (code s) ++ str " ") ++ reasonPhrase s.

End HttpResponseStatus.

(** ** Messages *)

(** What the HTTP classes ask of the contents of messages and chunks. *)
Class Content (B : Type) := {
  content_readable : B -> bool;
  content_length : B -> Z;
  EMPTY_CONTENT : B;
}.

(** The names and values of [HttpHeaders] that the code below uses. *)
Module Names.
Definition CONNECTION : text := str "Connection".
Definition CONTENT_LENGTH : text := str "Content-Length".
Definition EXPECT : text := str "Expect".
Definition HOST : text := str "Host".
Definition SEC_WEBSOCKET_KEY1 : text := str "Sec-WebSocket-Key1".
Definition SEC_WEBSOCKET_KEY2 : text := str "Sec-WebSocket-Key2".
Definition SEC_WEBSOCKET_LOCATION : text := str "Sec-WebSocket-Location".
Definition SEC_WEBSOCKET_ORIGIN : text := str "Sec-WebSocket-Origin".
Definition TRAILER : text := str "Trailer".
Definition TRANSFER_ENCODING : text := str "Transfer-Encoding".
End Names.

Module Values.
Definition CHUNKED : text := str "chunked".
Definition CLOSE : text := str "close".
Definition CONTINUE : text := str "100-continue".
Definition KEEP_ALIVE : text := str "keep-alive".
End Values.

Module HttpMessage.

(** What a [dynamic_cast] finds: a request, a response, or neither. *)
Inductive kind :=
  | Plain
  | Request (method : HttpMethod.t) (uri : text)
  | Response (status : HttpResponseStatus.t).

(** [DefaultHttpMessage], with the members of [DefaultHttpRequest] and
    [DefaultHttpResponse]; the content may be a null pointer. *)
Record t (H B : Type) := MkMessage {
  chunked : bool;
  version : HttpVersion.t;
  header : H;
  content : option B;
  what : kind;
}.
Arguments MkMessage {H B} _ _ _ _ _.
Arguments chunked {H B} _.
Arguments version {H B} _.
Arguments header {H B} _.
Arguments content {H B} _.
Arguments what {H B} _.

Section Message.
Context {H B : Type} {HH : HttpHeader.HttpHeader H} {CB : Content B} {SA : StringAlgorithms}.
Abbreviation MM := (M (t H B)).

Definition new (v : HttpVersion.t) (h : H) : t H B := MkMessage false v h (Some EMPTY_CONTENT) Plain.
Definition newRequest (v : HttpVersion.t) (method : HttpMethod.t) (uri : text) (h : H) : t H B :=
  MkMessage false v h (Some EMPTY_CONTENT) (Request method uri).

Definition newResponse (v : HttpVersion.t) (status : HttpResponseStatus.t) (h : H) : t H B :=
  MkMessage false v h (Some EMPTY_CONTENT) (Response status).

Definition with_chunked (c : bool) (m : t H B) : t H B := MkMessage c (version m) (header m) (content m) (what m).
Definition with_header (h : H) (m : t H B) : t H B := MkMessage (chunked m) (version m) h (content m) (what m).
Definition with_content (c : option B) (m : t H B) : t H B := MkMessage (chunked m) (version m) (header m) c (what m).
Definition setProtocolVersion (v : HttpVersion.t) (m : t H B) : t H B :=
  MkMessage (chunked m) v (header m) (content m) (what m).
Definition with_what (k : kind) (m : t H B) : t H B :=
  MkMessage (chunked m) (version m) (header m) (content m) k.

(** The header functions are those of the header. *)
Definition on_header {A} (op : M H A) : MM A := zoom header with_header op.
Definition getHeader (name : text) : MM text := on_header (HttpHeader.get name).
Definition getHeaders (name : text) : MM (list text) := on_header (HttpHeader.getValues name).
Definition containsHeader (name : text) : MM bool := on_header (HttpHeader.contains name).
Definition addHeader (name v : text) : MM unit := on_header (HttpHeader.add name v).
Definition setHeader (name v : text) : MM unit := on_header (HttpHeader.set name v).
Definition setIntHeader (name : text) (v : Z) : MM unit := on_header (HttpHeader.setInt name v).
Definition setHeaders (name : text) (vs : list text) : MM unit := on_header (HttpHeader.setValues name vs).
Definition setIntHeaders (name : text) (vs : list Z) : MM unit := on_header (HttpHeader.setInts name vs).
Definition addIntHeader (name : text) (v : Z) : MM unit := on_header (HttpHeader.addInt name v).
Definition getAllHeaders : MM (list (text * text)) := on_header HttpHeader.gets.
Definition getHeaderNames : MM (list text) := on_header HttpHeader.getNames.
Definition removeHeader (name : text) : MM unit := on_header (HttpHeader.remove name).
Definition removeHeaderValue (name v : text) : MM unit := on_header (HttpHeader.removeValue name v).
Definition clearHeaders : MM unit := on_header HttpHeader.clear.

(** [HttpCodecUtil::isTransferEncodingChunked]. *)
Definition isTransferEncodingChunked : MM bool :=
  let! chunked := getHeaders Names.TRANSFER_ENCODING in
  ret (existsb (iequals Values.CHUNKED) chunked).

Definition isChunked : MM bool :=
  let! m := gets id in
  if chunked m then ret true else isTransferEncodingChunked.

(** A null content is replaced, and then used all the same. *)
Definition setContent (c : option B) : MM unit :=
  match c with
  | None => modify (with_content (Some EMPTY_CONTENT)) ;! throw Undefined
  | Some b =>
      (if content_readable b then
         let! ch := isChunked in throw_if ch InvalidArgumentException
       else ret tt) ;!
      modify (with_content (Some b))
  end.

Definition setChunked (c : bool) : MM unit :=
  modify (with_chunked c) ;!
  if c then setContent (Some EMPTY_CONTENT) else ret tt.

(** [clear] of the message; that of a request and of a response forgets the URI
    and the status too. *)
Definition clear_message : MM unit :=
  modify (with_chunked false) ;!
  clearHeaders ;!
  modify (with_content None).
Definition clear : MM unit :=
  clear_message ;!
  modify (fun m => with_what
    match what m with
    | Plain => Plain
    | Request method _ => Request method []
    | Response _ => Response HttpResponseStatus.NOT_FOUND
    end m).

(** The setters of requests and responses. *)
Definition setMethod (method : HttpMethod.t) (m : t H B) : t H B :=
  with_what match what m with Request _ uri => Request method uri | k => k end m.
Definition setUri (uri : text) (m : t H B) : t H B :=
  with_what match what m with Request method _ => Request method uri | k => k end m.
Definition setStatus (status : HttpResponseStatus.t) (m : t H B) : t H B :=
  with_what match what m with Response _ => Response status | k => k end m.

End Message.
End HttpMessage.

(** ** HttpHeaders *)

Module HttpHeaders.
Import HttpMessage.

Section Headers.
Context {H B : Type} {HH : HttpHeader.HttpHeader H} {CB : Content B} {SA : StringAlgorithms}.
Abbreviation MM := (M (HttpMessage.t H B)).

Definition isKeepAlive : MM bool :=
  let! connection := getHeader Names.CONNECTION in
  if iequals Values.CLOSE connection then ret false
  else
    let! m := gets id in
    if HttpVersion.keepAliveDefault (version m) then ret (negb (iequals Values.CLOSE connection))
    else ret (iequals Values.KEEP_ALIVE connection).

Definition setKeepAlive (keepAlive : bool) : MM unit :=
  let! m := gets id in
  if HttpVersion.keepAliveDefault (version m) then
    if keepAlive then removeHeader Names.CONNECTION else setHeader Names.CONNECTION Values.CLOSE
  else
    if keepAlive then setHeader Names.CONNECTION Values.KEEP_ALIVE else removeHeader Names.CONNECTION.

Definition getHeaderDefault (name defaultValue : text) : MM text :=
  let! v := getHeader name in
  ret (if is_empty v then defaultValue else v).

Definition getIntHeader (name : text) : MM Z :=
  let! v := getHeader name in
  if is_empty v then throw NumberFormatException else reads (fun _ => Integer.parse v).

(** [atoi] throws nothing that the [catch] could catch. *)
Definition getIntHeaderDefault (name : text) (defaultValue : Z) : MM Z :=
  let! v := getHeader name in
  if is_empty v then ret defaultValue else reads (fun _ => Integer.parse v).

Definition getContentLength (defaultValue : Z) : MM Z :=
  let! contentLength := getHeader Names.CONTENT_LENGTH in
  if negb (is_empty contentLength) then reads (fun _ => Integer.parse contentLength)
  else
    let! m := gets id in
    match what m with
    | Request method _ =>
        if HttpMethod.equals HttpMethod.HM_GET method then
          let! key1 := containsHeader Names.SEC_WEBSOCKET_KEY1 in
          let! key2 := if key1 : bool then containsHeader Names.SEC_WEBSOCKET_KEY2 else ret false in
          ret (if key2 : bool then 8 else defaultValue)
        else ret defaultValue
    | Response status =>
        if HttpResponseStatus.code status =? 101 then
          let! origin := containsHeader Names.SEC_WEBSOCKET_ORIGIN in
          let! location := if origin : bool then containsHeader Names.SEC_WEBSOCKET_LOCATION else ret false in
          ret (if location : bool then 16 else defaultValue)
        else ret defaultValue
    | Plain => ret defaultValue
    end.

Definition setContentLength (length : Z) : MM unit := HttpMessage.setIntHeader Names.CONTENT_LENGTH length.
Definition getHost : MM text := getHeader Names.HOST.
Definition setHost (v : text) : MM unit := setHeader Names.HOST v.

Definition is100ContinueExpected : MM bool :=
  let! m := gets id in
  match what m with
  | Request _ _ =>
      if HttpVersion.compareTo (version m) HttpVersion.HTTP_1_1 <? 0 then ret false
      else
        let! v := getHeader Names.EXPECT in
        if is_empty v then ret false
        else if iequals Values.CONTINUE v then ret true
        else
          let! headers := getHeaders Names.EXPECT in
          ret (existsb (iequals Values.CONTINUE) headers)
  | _ => ret false
  end.

(** The functions that pass their arguments on. *)
Definition getHostDefault (defaultValue : text) : MM text := getHeaderDefault Names.HOST defaultValue.
Definition setIntHeader (name : text) (v : Z) : MM unit := setHeader name (Integer.toString v).
Definition addIntHeader (name : text) (v : Z) : MM unit := addHeader name (Integer.toString v).
Definition setIntHeaders (name : text) (vs : list Z) : MM unit := setHeaders name (map Integer.toString vs).

Definition set100ContinueExpected (set : bool) : MM unit :=
  if set then setHeader Names.EXPECT Values.CONTINUE else removeHeader Names.EXPECT.

End Headers.
End HttpHeaders.

(** ** Chunks *)

Module HttpChunk.

(** [DefaultHttpChunk], [DefaultHttpChunkTrailer], and [HttpChunk::LAST_CHUNK],
    whose headers are empty and read-only. *)
Inductive t (H B : Type) :=
  | Chunk (content : B) (last : bool)
  | Trailer (header : H)
  | LAST_CHUNK.
Arguments Chunk {H B} _ _.
Arguments Trailer {H B} _.
Arguments LAST_CHUNK {H B}.

Definition new {H B} {CB : Content B} (content : option B) : result (t H B) :=
  match content with
  | None => Err NullPointerException
  | Some c => Ok (Chunk c (negb (content_readable c)))
  end.

Definition isLast {H B} (c : t H B) : bool :=
  match c with Chunk _ last => last | Trailer _ | LAST_CHUNK => true end.

Definition getContent {H B} {CB : Content B} (c : t H B) : B :=
  match c with Chunk b _ => b | Trailer _ | LAST_CHUNK => EMPTY_CONTENT end.

(** [validateHeaderName] of the headers of a trailer. *)
Definition validateTrailerName {SA : StringAlgorithms} (name : text) : result unit :=
  let? _ := HttpCodecUtil.validateHeaderName name in
  if iequals name Names.CONTENT_LENGTH || iequals name Names.TRANSFER_ENCODING || iequals name Names.TRAILER
  then Err InvalidArgumentException else Ok tt.

(** [add] of the headers of a trailer. *)
Definition addTrailer {H} {HH : HttpHeader.HttpHeader H} {SA : StringAlgorithms} (name v : text) : M H unit :=
  reads (fun _ => validateTrailerName name) ;!
  HttpHeader.add name v.

(** The headers to write: those of the null header are none. *)
Definition headers {H B} {HH : HttpHeader.HttpHeader H} (c : t H B) : result (list (text * text)) :=
  match c with
  | Trailer h => fst (HttpHeader.gets h)
  | _ => fst (HttpHeader.gets tt)
  end.

(** [setContent]. *)
Definition setContent {H B} {CB : Content B} (content : option B) : M (t H B) unit :=
  let! c := gets id in
  match c with
  | Chunk _ _ => let! c := reads (fun _ => new content) in modify (fun _ => c)
  | Trailer _ | LAST_CHUNK => throw IllegalStateException
  end.

End HttpChunk.

(** ** HttpMessageEncoder *)

Module HttpMessageEncoder.
Import HttpMessage.

(** What goes to the channel: nothing, the buffers of a message, or the message
    as it is. *)
Inductive encoded (D B : Type) :=
  | EMPTY_MESSAGE
  | Header (header : D)
  | HeaderAndContent (header : D) (content : B)
  | ChunkContent (content : B)
  | ChunkBuffers (length : D) (content : B)
  | LastChunk
  | Trailer (trailer : D).
Arguments EMPTY_MESSAGE {D B}.
Arguments Header {D B} _.
Arguments HeaderAndContent {D B} _ _.
Arguments ChunkContent {D B} _.
Arguments ChunkBuffers {D B} _ _.
Arguments LastChunk {D B}.
Arguments Trailer {D B} _.

(** The shared buffers [LAST_CHUNK] and [LINE_BREAK]. *)
Definition LAST_CHUNK : text := str "0" ++ HttpCodecUtil.CRLF ++ HttpCodecUtil.CRLF.
Definition LINE_BREAK : text := HttpCodecUtil.CRLF.

Section Encode.
Context {D : Type} {RB : RawBuffer D} {WB : WriteBuffer D}.

Definition encodeHeader (header v : text) : M D unit :=
  AbstractChannelBuffer.writeBytesString header ;!
  writeByte HttpCodecUtil.COLON ;!
  writeByte HttpCodecUtil.SP ;!
  AbstractChannelBuffer.writeBytesString v ;!
  writeByte HttpCodecUtil.CR ;!
  writeByte HttpCodecUtil.LF.

Fixpoint encodeHeaders (nameValues : list (text * text)) : M D unit :=
  match nameValues with
  | [] => ret tt
  | (n, v) :: nameValues => encodeHeader n v ;! encodeHeaders nameValues
  end.

(** [HttpRequestEncoder::encodeInitialLine] and
    [HttpResponseEncoder::encodeInitialLine]: a message of the other kind is
    refused. *)
Definition encodeRequestLine (k : kind) (v : HttpVersion.t) : M D unit :=
  match k with
  | Request method uri =>
      AbstractChannelBuffer.writeBytesString (HttpMethod.toString method) ;!
      writeByte HttpCodecUtil.SP ;!
      AbstractChannelBuffer.writeBytesString uri ;!
      writeByte HttpCodecUtil.SP ;!
      AbstractChannelBuffer.writeBytesString (HttpVersion.toString v) ;!
      writeByte HttpCodecUtil.CR ;!
      writeByte HttpCodecUtil.LF
  | _ => throw RuntimeException
  end.

Definition encodeStatusLine (k : kind) (v : HttpVersion.t) : M D unit :=
  match k with
  | Response status =>
      AbstractChannelBuffer.writeBytesString (HttpVersion.toString v) ;!
      writeByte HttpCodecUtil.SP ;!
      AbstractChannelBuffer.writeBytesString (Integer.toString (HttpResponseStatus.code status)) ;!
      writeByte HttpCodecUtil.SP ;!
      AbstractChannelBuffer.writeBytesString (HttpResponseStatus.reasonPhrase status) ;!
      writeByte HttpCodecUtil.CR ;!
      writeByte HttpCodecUtil.LF
  | _ => throw RuntimeException
  end.

Context {H B : Type} {HH : HttpHeader.HttpHeader H} {CB : Content B} {SA : StringAlgorithms}.
(** [ChannelBuffers::dynamicBuffer( *factory)], the same with an estimated length,
    and [ChannelBuffers::copiedBuffer] of a string. *)
Context (dynamicBuffer : result D) (dynamicBufferLen : Z -> result D) (copiedBuffer : text -> result D).

(** The encoder of requests or that of responses. *)
Definition encodeInitialLine (request : bool) : kind -> HttpVersion.t -> M D unit :=
  if request then encodeRequestLine else encodeStatusLine.

Definition encodeHead (request : bool) (m : HttpMessage.t H B) : M D unit :=
  encodeInitialLine request (what m) (version m) ;!
  let! nameValues := reads (fun _ => fst (HttpHeader.gets (header m))) in
  encodeHeaders nameValues ;!
  writeByte HttpCodecUtil.CR ;!
  writeByte HttpCodecUtil.LF.

(** [encode] of a message; the state is the member [chunked]. *)
Definition encodeMessage (request : bool) (m : HttpMessage.t H B) : M bool (encoded D B) :=
  let! chunked := reads (fun _ => fst (isTransferEncodingChunked m)) in
  modify (fun _ => chunked) ;!
  let! d := reads (fun _ => dynamicBuffer) in
  let! header := reads (fun _ => let '(r, d) := encodeHead request m d in let? _ := r in Ok d) in
  match content m with
  | None => throw Undefined
  | Some c =>
      if negb (content_readable c) then ret (Header header)
      else if chunked : bool then throw InvalidArgumentException
      else ret (HeaderAndContent header c)
  end.

(** The headers of a trailer between the last chunk line and the last line. *)
Definition encodeTrailer (nameValues : list (text * text)) : M D unit :=
  writeByte 48 ;!
  writeByte HttpCodecUtil.CR ;!
  writeByte HttpCodecUtil.LF ;!
  encodeHeaders nameValues ;!
  writeByte HttpCodecUtil.CR ;!
  writeByte HttpCodecUtil.LF.

(** [encode] of a chunk. *)
Definition encodeChunk (c : HttpChunk.t H B) : M bool (encoded D B) :=
  let! chunked := gets id in
  if chunked : bool then
    if HttpChunk.isLast c then
      modify (fun _ => false) ;!
      match c with
      | HttpChunk.Chunk _ _ => ret LastChunk
      | _ =>
          let! d := reads (fun _ => dynamicBufferLen 1024) in
          let! trailer := reads (fun _ =>
            let? nameValues := HttpChunk.headers c in
            let '(r, d) := encodeTrailer nameValues d in let? _ := r in Ok d) in
          ret (Trailer trailer)
      end
    else
      let contentLength := content_length (HttpChunk.getContent c) in
      let! length := reads (fun _ => copiedBuffer (Integer.toHexString contentLength)) in
      ret (ChunkBuffers length (HttpChunk.getContent c))
  else
    if HttpChunk.isLast c then ret EMPTY_MESSAGE else ret (ChunkContent (HttpChunk.getContent c)).

End Encode.
End HttpMessageEncoder.
