(* ===== verification/HttpMessageProperties.v ===== *)
(** * What the HTTP messages do

    Status codes and versions, the keep-alive flag, the headers that a table can
    hold, and the text that the encoder writes. *)

From Stdlib Require Import Strings.String.
From S2P Require Import Prelude MachineInt Buffer AbstractBuffer BufferTheory HeapBuffer DynamicBuffer BufferProperties.
From S2P Require Import Text HttpHeader HttpHeaderProperties HttpMessage.

(** ** Status codes *)

Lemma toString_plain z : is_i32 z -> Forall (fun c => c <> 10 /\ c <> 13) (Integer.toString z).
Proof.
  intros Hz. assert (forall n, 0 <= n -> Forall (fun c => c <> 10 /\ c <> 13) (Integer.digits 10 10 n)) as Hd.
  { intros n Hn. pose proof (Integer.digits_digits 10 n Hn) as H. rewrite forallb_forall in H.
    apply List.Forall_forall. intros c Hc. specialize (H c Hc). unfold Character.isDigit in H. zbool. lia. }
  unfold Integer.toString. destruct (z <? 0) eqn:E; zbool; [constructor; [lia|]|]; apply Hd; lia.
Qed.

Definition line_char (c : Z) : Prop := c <> 10 /\ c <> 13.

(** Every status code but a negative one has a status: the status of that code,
    with a reason phrase that fits a line. *)
Theorem status_of_code (code : Z) : 0 <= code <= INT_MAX ->
  exists reason, HttpResponseStatus.valueOf code = Ok (HttpResponseStatus.MkStatus code reason) /\
    Forall line_char reason.
Proof.
  intros Hc. unfold HttpResponseStatus.valueOf.
  assert (forall s, existsb (fun c => (c =? 10) || (c =? 13)) s = false -> Forall line_char s) as Hplain.
  { intros s Hs. apply List.Forall_forall. intros c Hin. unfold line_char.
    destruct ((c =? 10) || (c =? 13)) eqn:E; [|apply orb_false_iff in E as [? ?]; zbool; auto].
    exfalso. rewrite <- not_true_iff_false in Hs. apply Hs, existsb_exists. eauto. }
  destruct (List.find _ HttpResponseStatus.constants) as [[c s]|] eqn:E.
  - apply find_some in E as [Hin E]. zbool. subst c. eexists. split; [reflexivity|]. apply Hplain.
    assert (forallb (fun '(_, s) => negb (existsb (fun c => (c =? 10) || (c =? 13)) (str s))) HttpResponseStatus.constants = true)
      as Hall by (vm_compute; reflexivity).
    rewrite forallb_forall in Hall. specialize (Hall _ Hin). cbn in Hall. destruct (existsb _ _); [discriminate | reflexivity].
  - clear E. set (p := if code <? 100 then _ else _). unfold HttpResponseStatus.new, Integer.append. zif.
    assert (existsb (fun c => (c =? 10) || (c =? 13)) (str p ++ Integer.toString code) = false) as Hs.
    { rewrite existsb_app. apply orb_false_iff. split.
      - unfold p. repeat (destruct (code <? _); [vm_compute; reflexivity|]). vm_compute. reflexivity.
      - apply not_true_iff_false. rewrite existsb_exists. intros (c & Hin & Hc').
        pose proof (toString_plain code ltac:(solve_range)) as Hf. rewrite List.Forall_forall in Hf.
        specialize (Hf c Hin). apply orb_true_iff in Hc' as [|]; zbool; tauto. }
    rewrite Hs. eexists. split; [reflexivity | apply Hplain, Hs].
Qed.

(** ** Versions *)

Section Versions.
Context {SA : StringAlgorithms} {SL : StringAlgorithmsLaws}.

Lemma find_from_bounds c s k p : find_from c s k = Some p ->
  k <= p < k + zlen s /\ exists l1 l2, s = l1 ++ c :: l2 /\ p = k + zlen l1.
Proof.
  revert k. induction s as [|x s IH]; intros k; cbn; [discriminate|]. rewrite zlen_cons. pose proof (zlen_nonneg s).
  destruct (Z.eqb_spec x c) as [->|].
  - intros [= ->]. split; [lia|]. exists [], s. split; [reflexivity|]. change (@zlen Z []) with 0. lia.
  - intros E. destruct (IH _ E) as [Hb (l1 & l2 & -> & ->)]. split; [lia|].
    exists (x :: l1), l2. split; [reflexivity|]. rewrite zlen_cons. lia.
Qed.

Lemma find_first c l1 l2 k : Forall (fun x => x <> c) l1 -> find_from c (l1 ++ c :: l2) k = Some (k + zlen l1).
Proof.
  revert k. induction l1 as [|x l1 IH]; intros k H; cbn [app find_from].
  { rewrite Z.eqb_refl. change (@zlen Z []) with 0. f_equal. lia. }
  inversion H; subst. rewrite (proj2 (Z.eqb_neq _ _)) by assumption. rewrite IH by assumption. rewrite zlen_cons. f_equal. lia.
Qed.

(** A version other than HTTP/1.0 and HTTP/1.1 is refused: the search of the
    dot looks for the wrong char at the wrong place, and whatever it finds, one of
    the two numbers contains the dot. *)
Theorem custom_versions_rejected (s p a b : text) :
  to_upper (trim_copy s) = p ++ [47] ++ a ++ [46] ++ b -> Forall (fun c => c <> 47) p ->
  to_upper (trim_copy s) <> str "HTTP/1.1" -> to_upper (trim_copy s) <> str "HTTP/1.0" ->
  HttpVersion.valueOf s = Err InvalidArgumentException.
Proof.
  intros Hs Hp H11 H10. unfold HttpVersion.valueOf. set (v := to_upper (trim_copy s)) in *.
  destruct (text_eqb v (str "HTTP/1.1")) eqn:E1; [apply text_eqb_eq in E1; contradiction|].
  destruct (text_eqb v (str "HTTP/1.0")) eqn:E2; [apply text_eqb_eq in E2; contradiction|].
  unfold HttpVersion.newText. cbv zeta.
  replace (to_upper (trim_copy v)) with v by (unfold v; symmetry; apply upper_trim_idem).
  destruct (is_empty v) eqn:Ev; [reflexivity|].
  assert (HttpVersion.match_ v = Ok None) as ->; [|reflexivity].
  pose proof (zlen_nonneg p) as Hzp. pose proof (zlen_nonneg a) as Hza. pose proof (zlen_nonneg b) as Hzb.
  assert (zlen v = zlen p + 1 + zlen a + 1 + zlen b) as Hlen.
  { rewrite Hs, !zlen_app. change (zlen [47]) with 1. change (zlen [46]) with 1. lia. }
  unfold HttpVersion.match_, find. change (Z.to_nat 0) with 0%nat. rewrite drop_0.
  rewrite Hs at 1. cbn [app]. rewrite (find_first 47 p) by exact Hp. rewrite Z.add_0_l.
  unfold substr at 1. rewrite (proj2 (Z.ltb_ge _ _)) by lia. cbn [rbind].
  destruct (HttpVersion.verifyProtocl _); [|reflexivity]. cbn [negb].
  destruct (find_from (i8 (zlen p)) (drop (Z.to_nat 46) v) 46) as [dot|] eqn:Ed; [|reflexivity].
  apply find_from_bounds in Ed as [Hd _].
  assert (46 <= dot < zlen v) as Hdot by (unfold zlen in *; rewrite length_drop in Hd; lia).
  unfold substr_from, substr. rewrite !(proj2 (Z.ltb_ge _ _)) by lia. cbn [rbind].
  set (major := take _ _). set (minor := take _ _).
  enough (existsb (fun c => c =? 46) major = true \/ existsb (fun c => c =? 46) minor = true) as He.
  { assert (forall t, existsb (fun c => c =? 46) t = true -> HttpVersion.verifyVersion t = false) as Hv.
    { intros t Ht. apply existsb_exists in Ht as (c & Hin & Hc). zbool. subst c. apply not_true_iff_false.
      unfold HttpVersion.verifyVersion. rewrite forallb_forall. intros Hall. specialize (Hall _ Hin). discriminate. }
    destruct He as [He|He]; rewrite (Hv _ He); cbn; rewrite ?orb_true_r; reflexivity. }
  assert (v !! Z.to_nat (zlen p + 1 + zlen a) = Some 46) as Hv46.
  { rewrite Hs. replace (p ++ [47] ++ a ++ [46] ++ b) with ((p ++ [47] ++ a) ++ 46 :: b)
      by (rewrite <- !app_assoc; reflexivity).
    apply list_lookup_middle. rewrite !length_app. unfold zlen. cbn [length]. lia. }
  assert (forall i n k, 0 <= i -> i <= k < i + n -> v !! Z.to_nat k = Some 46 ->
    existsb (fun c => c =? 46) (take (Z.to_nat n) (drop (Z.to_nat i) v)) = true) as Hex.
  { intros i n k Hi Hk E. apply existsb_exists. exists 46. split; [|reflexivity].
    apply list_elem_of_In, (list_elem_of_lookup_2 _ (Z.to_nat (k - i))).
    rewrite lookup_take_lt by lia. rewrite lookup_drop, <- E. f_equal. lia. }
  destruct (Z.lt_ge_cases (zlen p + 1 + zlen a) (zlen p + 1 + dot)).
  - left. apply (Hex _ _ (zlen p + 1 + zlen a)); [lia | lia | exact Hv46].
  - right. apply (Hex _ _ (zlen p + 1 + zlen a)); [lia | lia | exact Hv46].
Qed.
End Versions.

(** ** Keep-alive *)

Section KeepAlive.
Context {SA : StringAlgorithms} {SL : StringAlgorithmsLaws} {B : Type} {CB : Content B}.
Import HttpMessage HttpHeaders.
Abbreviation message := (HttpMessage.t DefaultHttpHeader.t B).

Lemma iequals_length a b : iequals a b = true -> length a = length b.
Proof.
  intros H. apply iequals_upper in H. destruct (to_upper_map a) as (ua & Ha & _), (to_upper_map b) as (ub & Hb & _).
  rewrite Ha, Hb in H. apply (f_equal length) in H. rewrite !length_map in H. exact H.
Qed.

Lemma iequals_refl a : iequals a a = true.
Proof. apply iequals_upper. reflexivity. Qed.

Lemma iequals_false a b : length a <> length b -> iequals a b = false.
Proof. intros H. apply not_true_iff_false. intros E. apply H, iequals_length, E. Qed.

(** An operation of the header that is simulated. *)
Lemma on_header_eq {A} (op : M DefaultHttpHeader.t A) op' (m : message) l :
  simulates op op' -> stands (header m) l ->
  exists h, on_header op m = (fst (op' l), with_header h m) /\ stands h (snd (op' l)).
Proof.
  intros Hop Hs. destruct (Hop _ _ Hs) as (h & E & Hs'). exists h. unfold on_header, zoom. rewrite E. auto.
Qed.

Lemma isKeepAlive_eq (m : message) l : stands (header m) l ->
  exists m', isKeepAlive m = (Ok (
    if iequals Values.CLOSE (Multimap.get Names.CONNECTION l) then false
    else if HttpVersion.keepAliveDefault (version m) then true
    else iequals Values.KEEP_ALIVE (Multimap.get Names.CONNECTION l)), m').
Proof.
  intros Hs. destruct (on_header_eq _ _ m l (simulates_get Names.CONNECTION) Hs) as (h & E & _).
  unfold isKeepAlive, getHeader. rewrite (bind_ok _ _ _ _ _ E). cbn [fst Prelude.gets].
  destruct (iequals Values.CLOSE _) eqn:Ec; [eexists; reflexivity|]. rewrite bind_gets. cbn [id version with_header].
  destruct (HttpVersion.keepAliveDefault (version m)); rewrite ?Ec; eexists; reflexivity.
Qed.

Lemma get_set name v l : name <> [] -> v <> [] -> Multimap.validated name v = Ok tt ->
  Multimap.get name (snd (Multimap.set name v l)) = v.
Proof.
  intros Hn Hv E. unfold Multimap.set. destruct v as [|c v]; [contradiction|]. cbn [is_empty].
  rewrite bind_reads, E. unfold Multimap.without. rewrite !bind_modify. unfold modify. cbn [snd].
  unfold Multimap.get, Multimap.values. destruct name as [|d name]; [contradiction|]. cbn [is_empty].
  rewrite List.filter_app, rev_app_distr. cbn [List.filter].
  destruct (Multimap.matches _ _) eqn:Em; [reflexivity|].
  exfalso. revert Em. unfold Multimap.matches. cbn [fst]. rewrite text_eqb_refl. discriminate.
Qed.

Lemma get_remove name l : Multimap.get name (List.filter (fun x => negb (Multimap.matches name x)) l) = [].
Proof.
  unfold Multimap.get, Multimap.values. destruct (is_empty name); [reflexivity|].
  replace (List.filter (Multimap.matches name) _) with ([] : Multimap.t); [reflexivity|].
  symmetry. induction l as [|x l IH]; [reflexivity|]. cbn. destruct (Multimap.matches name x) eqn:E; cbn; [exact IH|].
  rewrite E. exact IH.
Qed.

(** The keep-alive flag that is set on a message is the one that is read from
    it, for versions that keep connections alive by default and for those that do
    not, whatever Connection headers the message had. *)
Theorem keep_alive_roundtrip (m : message) (l : Multimap.t) (keepAlive : bool) :
  stands (header m) l ->
  exists m', setKeepAlive keepAlive m = (Ok tt, m') /\ fst (isKeepAlive m') = Ok keepAlive.
Proof.
  intros Hs. unfold setKeepAlive. rewrite bind_gets. unfold id.
  assert (forall v, Multimap.validated Names.CONNECTION v = Ok tt -> v <> [] ->
    exists m', setHeader Names.CONNECTION v m = (Ok tt, m') /\ version m' = version m /\
    exists l', stands (header m') l' /\ Multimap.get Names.CONNECTION l' = v) as Hset.
  { intros v Hv Hne. destruct (on_header_eq _ _ m l (simulates_set Names.CONNECTION v) Hs) as (h & E & Hs').
    exists (with_header h m). split; [|split; [|exists (snd (Multimap.set Names.CONNECTION v l)); split; [exact Hs'|]]].
    - unfold setHeader. change (HttpHeader.set Names.CONNECTION v) with (DefaultHttpHeader.set Names.CONNECTION v).
      rewrite E. do 2 f_equal. unfold Multimap.set. destruct v; [contradiction|]. cbn [is_empty]. rewrite bind_reads, Hv. reflexivity.
    - reflexivity.
    - apply get_set; [discriminate | exact Hne | exact Hv]. }
  assert (exists m', removeHeader Names.CONNECTION m = (Ok tt, m') /\ version m' = version m /\
    exists l', stands (header m') l' /\ Multimap.get Names.CONNECTION l' = []) as Hrem.
  { destruct (on_header_eq _ _ m l (simulates_remove_name Names.CONNECTION) Hs) as (h & E & Hs').
    exists (with_header h m). split; [exact E|]. split; [reflexivity|]. eexists. split; [exact Hs' | apply get_remove]. }
  assert (forall (m' : message) l' v, version m' = version m -> stands (header m') l' -> Multimap.get Names.CONNECTION l' = v ->
    fst (isKeepAlive m') = Ok (if iequals Values.CLOSE v then false
      else if HttpVersion.keepAliveDefault (version m) then true else iequals Values.KEEP_ALIVE v)) as Hread.
  { intros m' l' v Hver Hs' <-. destruct (isKeepAlive_eq m' l' Hs') as (m'' & ->). rewrite Hver. reflexivity. }
  destruct (HttpVersion.keepAliveDefault (version m)) eqn:Ek, keepAlive.
  - destruct Hrem as (m' & E & Hver & l' & Hs' & Hg). exists m'. split; [exact E|].
    rewrite (Hread m' l' _ Hver Hs' Hg), iequals_false by (vm_compute; discriminate). reflexivity.
  - destruct (Hset Values.CLOSE eq_refl ltac:(discriminate)) as (m' & E & Hver & l' & Hs' & Hg). exists m'.
    split; [exact E|]. rewrite (Hread m' l' _ Hver Hs' Hg), iequals_refl. reflexivity.
  - destruct (Hset Values.KEEP_ALIVE eq_refl ltac:(discriminate)) as (m' & E & Hver & l' & Hs' & Hg). exists m'.
    split; [exact E|].
    rewrite (Hread m' l' _ Hver Hs' Hg), iequals_refl, iequals_false by (vm_compute; discriminate). reflexivity.
  - destruct Hrem as (m' & E & Hver & l' & Hs' & Hg). exists m'. split; [exact E|].
    rewrite (Hread m' l' _ Hver Hs' Hg), !iequals_false by (vm_compute; discriminate). reflexivity.
Qed.
End KeepAlive.

(** ** The text of a message *)

Section Encode.
Context {D : Type} {RB : RawBuffer D} {RS : ReadSpec D} {WB : WriteBuffer D} {QS : QueueSpec D}.
Context {H B : Type} {HH : HttpHeader.HttpHeader H} {CB : Content B} {SA : StringAlgorithms}.
Import AbstractChannelBuffer (writerIndex).
Import HttpMessage HttpMessageEncoder.

Lemma writes_char v : is_i8 v -> writes (writeByte v) [v].
Proof. intros Hv. rewrite <- (i8_id v Hv) at 2. apply writes_byte. Qed.

(** A string of at most [INT_MAX] chars. *)
Definition sized (s : text) : Prop := Forall is_i8 s /\ zlen s <= INT_MAX.

Lemma sized_dec s : forallb (fun c => (-128 <=? c) && (c <=? 127)) s = true -> zlen s <= INT_MAX -> sized s.
Proof.
  intros Hs Hm. split; [|exact Hm]. rewrite forallb_forall in Hs. apply List.Forall_forall. intros c Hc.
  specialize (Hs c Hc). apply andb_true_iff in Hs as [H1 H2]. zbool. solve_range.
Qed.

Lemma writes_string s : sized s -> writes (AbstractChannelBuffer.writeBytesString s) s.
Proof.
  intros [Hs Hm] d Hd Hl. pose proof (zlen_nonneg s). unfold AbstractChannelBuffer.writeBytesString, Array.fromString.
  rewrite i32_id by solve_range.
  destruct (writeBytesArray_queue d s 0 (zlen s) Hd Hs Hm) as (d' & E & A); [unfold in_range; lia | exact Hl |].
  rewrite zsub_all in A. eauto.
Qed.

Lemma sized_app s1 s2 : sized (s1 ++ s2) -> sized s1 /\ sized s2.
Proof.
  intros [Hs Hm]. apply Forall_app in Hs as [H1 H2]. rewrite zlen_app in Hm.
  pose proof (zlen_nonneg s1). pose proof (zlen_nonneg s2). unfold sized. auto with lia.
Qed.

(** What is written. *)
Definition line (s : text) : text := s ++ [13] ++ [10].
Definition header_line (p : text * text) : text := line (fst p ++ [58] ++ [32] ++ snd p).
Definition first_line (k : kind) (v : HttpVersion.t) : text :=
  line match k with
       | Request method uri => HttpMethod.name method ++ [32] ++ uri ++ [32] ++ HttpVersion.versionText v
       | Response status =>
           HttpVersion.versionText v ++ [32] ++ Integer.toString (HttpResponseStatus.code status) ++ [32] ++
           HttpResponseStatus.reasonPhrase status
       | Plain => []
       end.
Definition head_text (k : kind) (v : HttpVersion.t) (hs : list (text * text)) : text :=
  first_line k v ++ concat (map header_line hs) ++ line [].

(** The encoder of requests takes requests, that of responses takes responses. *)
Definition takes (request : bool) (k : kind) : bool :=
  match k with Request _ _ => request | Response _ => negb request | Plain => false end.

(** Write the pieces one after the other. *)
Ltac writes_all :=
  repeat match goal with
    | |- writes (bind _ _) _ => apply writes_seq
    | |- writes (writeByte _) _ => apply writes_char; solve_range
    | |- writes (AbstractChannelBuffer.writeBytesString _) _ => apply writes_string; assumption
    end.

Lemma writes_header n v : sized (header_line (n, v)) -> writes (encodeHeader n v) (header_line (n, v)).
Proof.
  unfold header_line, line. cbn [fst snd]. rewrite <- !app_assoc. intros Hs.
  apply sized_app in Hs as [Hn Hs]. do 2 apply sized_app in Hs as [_ Hs]. apply sized_app in Hs as [Hv _].
  unfold encodeHeader. writes_all.
Qed.

Lemma writes_headers hs : sized (concat (map header_line hs)) -> writes (encodeHeaders hs) (concat (map header_line hs)).
Proof.
  induction hs as [|[n v] hs IH]; intros Hs; [exact writes_nothing|].
  cbn [map concat encodeHeaders] in *. apply sized_app in Hs as [H1 H2].
  apply writes_seq; [apply writes_header, H1 | apply IH, H2].
Qed.

Lemma writes_first_line request k v :
  takes request k = true -> sized (first_line k v) -> writes (encodeInitialLine request k v) (first_line k v).
Proof.
  intros Ht. unfold first_line, line. destruct k as [|method uri|status]; [discriminate | |].
  - cbn in Ht. subst request. rewrite <- !app_assoc. intros Hs.
    apply sized_app in Hs as [H1 Hs]. apply sized_app in Hs as [_ Hs]. apply sized_app in Hs as [H2 Hs].
    apply sized_app in Hs as [_ Hs]. apply sized_app in Hs as [H3 _].
    unfold encodeInitialLine, encodeRequestLine, HttpMethod.toString, HttpVersion.toString. writes_all.
  - destruct request; [discriminate|]. rewrite <- !app_assoc. intros Hs.
    apply sized_app in Hs as [H1 Hs]. apply sized_app in Hs as [_ Hs]. apply sized_app in Hs as [H2 Hs].
    apply sized_app in Hs as [_ Hs]. apply sized_app in Hs as [H3 _].
    unfold encodeInitialLine, encodeStatusLine, HttpVersion.toString. writes_all.
Qed.

(** C16: the encoder writes the first line of the message, a line for each header in
    the order the headers were added and an empty line, after what the buffer held,
    and refuses a message of the other kind before it writes anything. *)
Theorem head_encoded (request : bool) (m : HttpMessage.t H B) (hs : list (text * text)) (d : D) :
  let t := head_text (what m) (version m) hs in
  fst (HttpHeader.gets (header m)) = Ok hs -> wf d -> sized t -> writerIndex d + zlen t <= limit d ->
  if takes request (what m) then
    exists d', encodeHead request m d = (Ok tt, d') /\ wf d' /\ queue d' = queue d ++ t
  else encodeHead request m d = (Err RuntimeException, d).
Proof.
  intros t Hg Hd Hs Hl. destruct (takes request (what m)) eqn:Et.
  - enough (writes (encodeHead request m) t) as Hw.
    { destruct (Hw d Hd Hl) as (d' & E & A). destruct A. eauto. }
    unfold t, head_text in *. apply sized_app in Hs as [H1 Hs]. apply sized_app in Hs as [H2 _].
    unfold encodeHead. apply writes_seq; [apply writes_first_line; assumption|].
    intros d1. rewrite bind_reads, Hg. revert d1. change (writes (encodeHeaders hs ;! (writeByte HttpCodecUtil.CR ;! writeByte HttpCodecUtil.LF))
      (concat (map header_line hs) ++ [13] ++ [10])).
    apply writes_seq; [apply writes_headers, H2 | writes_all].
  - unfold encodeHead. erewrite bind_err; [reflexivity|].
    destruct (what m), request; try discriminate Et; reflexivity.
Qed.
End Encode.

(** ** Concrete runs *)

Section Witnesses.
#[local] Existing Instance cLocale.
#[local] Existing Instance zeroAllocator.
#[local] Instance list_content : Content (list Z) := {|
  content_readable l := negb (is_empty l);
  content_length := zlen;
  EMPTY_CONTENT := [];
|}.

Lemma status_of_code_witness : exists reason,
  HttpResponseStatus.valueOf 299 = Ok (HttpResponseStatus.MkStatus 299 reason) /\ Forall line_char reason.
Proof. apply (status_of_code 299). unfold INT_MAX. lia. Defined.

Lemma custom_versions_rejected_witness : HttpVersion.valueOf (str " icap/1.1") = Err InvalidArgumentException.
Proof.
  apply (custom_versions_rejected (str " icap/1.1") (str "ICAP") (str "1") (str "1"));
    [reflexivity | repeat constructor; discriminate | discriminate | discriminate].
Defined.

Definition table_of (hs : list (text * text)) : DefaultHttpHeader.t :=
  fold_left (fun h '(n, v) => snd (DefaultHttpHeader.add n v h)) hs DefaultHttpHeader.new.

Definition get_index : HttpMessage.t DefaultHttpHeader.t (list Z) :=
  HttpMessage.newRequest HttpVersion.HTTP_1_1 HttpMethod.HM_GET (str "/index.html")
    (table_of [(str "Host", str "a"); (str "Accept", str "*")]).

Lemma keep_alive_roundtrip_witness :
  let m := HttpMessage.newRequest HttpVersion.HTTP_1_0 HttpMethod.HM_GET (str "/") DefaultHttpHeader.new in
  exists m', HttpHeaders.setKeepAlive (B := list Z) true m = (Ok tt, m') /\ fst (HttpHeaders.isKeepAlive m') = Ok true.
Proof.
  intros m. apply (keep_alive_roundtrip (B := list Z) m [] true). exists []. split; [exact new_rep | reflexivity].
Defined.

Lemma head_encoded_witness :
  exists d, HttpMessageEncoder.encodeHead true get_index dynamic2 = (Ok tt, d) /\ wf d /\
    queue d = str "GET /index.html HTTP/1.1" ++ [13; 10] ++ str "Host: a" ++ [13; 10] ++ str "Accept: *" ++ [13; 10; 13; 10].
Proof.
  destruct (head_encoded true get_index [(str "Host", str "a"); (str "Accept", str "*")] dynamic2) as (d & E & W & Q);
    [reflexivity | exact dynamic2_wf | apply sized_dec; [reflexivity | discriminate]
    | vm_compute; discriminate | exists d; split; [exact E | split; [exact W|]]; rewrite Q; reflexivity].
Defined.
End Witnesses.
