(* ===== verification/HttpDecoder.v ===== *)
(** * The HTTP message decoder

    [src/src/cetty/handler/codec/http/HttpMessageDecoder.cpp], with the decoders of
    requests and responses and the aggregator of chunks: a state machine over a
    replaying buffer that parses lines in place.  A [FastString] is an offset into
    the array of the cumulation and a size; it is read and written through the
    array, whatever its size says, and is handed on as a C string: the bytes up to
    the next NUL.  An access outside the array, the use of a null pointer and a
    failed assertion are [Undefined]. *)

From Stdlib Require Import Strings.String.
From S2P Require Import Prelude MachineInt Buffer AbstractBuffer Text HttpHeader HttpMessage Replay.

(** ** FastString *)

Module FastString.

Record t := MkFast { data : option Z; size : Z }.

Definition null : t := MkFast None 0.
Definition empty (s : t) : bool := size s =? 0.
Definition length (s : t) : Z := size s.

Definition substring (start end_ : Z) (s : t) : t :=
  if start <? end_ then MkFast (option_map (fun d => d + start) (data s)) (end_ - start) else null.

Definition equalsIgnoreCase (s : t) (other : text) : bool := true.

Section Memory.
Context {B : Type} {RB : RawBuffer B}.

(** The byte and the store at an offset of the array. *)
Definition load (b : B) (i : Z) : result Z :=
  match getByte b i with Ok v => Ok v | Err _ => Err Undefined end.
Definition store (i v : Z) : M B unit := fun b =>
  match setByte i v b with (Ok tt, b) => (Ok tt, b) | (Err _, b) => (Err Undefined, b) end.

(** [operator[]] and [at]. *)
Definition peek (s : t) (i : Z) (b : B) : result Z :=
  match data s with Some d => load b (d + i) | None => Err Undefined end.
Definition poke (s : t) (i v : Z) : M B unit :=
  match data s with Some d => store (d + i) v | None => throw Undefined end.
Definition at_ (s : t) (i : Z) (b : B) : result Z :=
  if i <? size s then peek s i b else Err Undefined.

(** The C string at an offset; the array ends within [fuel] bytes. *)
Fixpoint cstring (fuel : nat) (b : B) (i : Z) : result text :=
  match fuel with
  | O => Err Undefined
  | S fuel =>
      let? c := load b i in
      if c =? 0 then Ok [] else let? s := cstring fuel b (i + 1) in Ok (c :: s)
  end.
Definition c_str (s : t) (b : B) : result text :=
  match data s with
  | Some d => cstring (Z.to_nat (Buffer.capacity b - d)) b d
  | None => Err Undefined
  end.

(** The chars of the view, as [std::string::append(const char*, size_t)] takes
    them. *)
Fixpoint loads (n : nat) (b : B) (i : Z) : result text :=
  match n with
  | O => Ok []
  | S n => let? c := load b i in let? s := loads n b (i + 1) in Ok (c :: s)
  end.
Definition bytesOf (b : B) (s : t) : result text :=
  match data s with Some d => loads (Z.to_nat (size s)) b d | None => Err Undefined end.

Definition is_blank (c : Z) : bool := (c =? 32) || (c =? 9).

(** The two loops of [trim].  The first moves its pointer forth and back again:
    [None] when it does not end within the turns given. *)
Fixpoint trimFront (fuel : nat) (b : B) (newData newSize : Z) : option (result Z) :=
  match fuel with
  | O => None
  | S fuel =>
      match load b newData with
      | Err e => Some (Err e)
      | Ok c => if is_blank c && (newSize >? 0) then trimFront fuel b (newData + 1 - 1) newSize else Some (Ok newData)
      end
  end.
Fixpoint trimBack (fuel : nat) (b : B) (newData newSize : Z) : result Z :=
  match fuel with
  | O => Err Undefined
  | S fuel =>
      let? c := load b (newData + newSize - 1) in
      if is_blank c && (newSize >? 0) then trimBack fuel b newData (newSize - 1) else Ok newSize
  end.

(** A call that never returns is [Undefined]. *)
Definition trimFuel : nat := 2.
Definition trim (s : t) : M B t :=
  match data s with
  | None => throw Undefined
  | Some d =>
      let! front := gets (fun b => trimFront trimFuel b d (size s)) in
      match front with
      | None => throw Undefined
      | Some r =>
          let! newData := reads (fun _ => r) in
          let! newSize := reads (fun b => trimBack (S (Z.to_nat (size s))) b newData (size s)) in
          store (newData + newSize) 0 ;!
          ret (MkFast (Some newData) newSize)
      end
  end.

(** [HttpMessageDecoder]'s searches. *)
Fixpoint findFrom (fuel : nat) (stop : Z -> bool) (b : B) (s : t) (i : Z) : result Z :=
  match fuel with
  | O => Ok i
  | S fuel =>
      if i <? size s then
        let? c := at_ s i b in
        if stop c then Ok i else findFrom fuel stop b s (i + 1)
      else Ok i
  end.
Definition scan (stop : Z -> bool) (b : B) (s : t) (offset : Z) : result Z :=
  findFrom (Z.to_nat (size s - offset)) stop b s offset.
Definition findNonWhitespace (b : B) (s : t) (offset : Z) : result Z :=
  scan (fun c => negb (Character.isWhitespace c)) b s offset.
Definition findWhitespace (b : B) (s : t) (offset : Z) : result Z := scan Character.isWhitespace b s offset.

Fixpoint endFrom (fuel : nat) (b : B) (s : t) (i : Z) : result Z :=
  match fuel with
  | O => Ok i
  | S fuel =>
      if i >? 0 then
        let? c := at_ s (i - 1) b in
        if negb (Character.isWhitespace c) then Ok i else endFrom fuel b s (i - 1)
      else Ok i
  end.
Definition findEndOfString (b : B) (s : t) : result Z := endFrom (Z.to_nat (size s)) b s (size s).

(** [splitInitialLine]: false, or the three parts. *)
Definition splitInitialLine (sb : t) : M B (option (t * t * t)) :=
  if empty sb then ret None
  else
    let! aStart := reads (fun b => findNonWhitespace b sb 0) in
    let! aEnd := reads (fun b => findWhitespace b sb aStart) in
    let! bStart := reads (fun b => findNonWhitespace b sb aEnd) in
    let! bEnd := reads (fun b => findWhitespace b sb bStart) in
    let! cStart := reads (fun b => findNonWhitespace b sb bEnd) in
    let! cEnd := reads (fun b => findEndOfString b sb) in
    poke sb aEnd 0 ;!
    poke sb bEnd 0 ;!
    ret (Some (substring aStart aEnd sb, substring bStart bEnd sb, substring cStart cEnd sb)).

(** The end of the colon: one behind the first colon from [i] on. *)
Definition findColonEnd (b : B) (s : t) (i : Z) : result Z :=
  let? i := scan (fun c => c =? 58) b s i in
  Ok (if i <? size s then i + 1 else i).

(** [splitHeader]: the name and the value. *)
Definition splitHeader (sb : t) : M B (t * t) :=
  let! nameStart := reads (fun b => findNonWhitespace b sb 0) in
  let! nameEnd := reads (fun b => scan (fun c => (c =? 58) || Character.isWhitespace c) b sb nameStart) in
  let! colonEnd := reads (fun b => findColonEnd b sb nameEnd) in
  let! valueStart := reads (fun b => findNonWhitespace b sb colonEnd) in
  if valueStart =? size sb then ret (substring nameStart nameEnd sb, null)
  else
    let! valueEnd := reads (fun b => findEndOfString b sb) in
    poke sb nameEnd 0 ;!
    ret (substring nameStart nameEnd sb, substring valueStart valueEnd sb).

(** The loop of [getChunkSize]. *)
Definition chunkSizeEnd (b : B) (h : t) : result t :=
  let? i := scan (fun c => (c =? 59) || Character.isWhitespace c || Character.isISOControl c) b h 0 in
  Ok (if i <? size h then substring 0 i h else h).

Definition getChunkSize (hex : t) : M B Z :=
  let! h := trim hex in
  let! h := reads (fun b => chunkSizeEnd b h) in
  let! s := reads (fun b => c_str h b) in
  reads (fun _ => Integer.parseHex s).

End Memory.
End FastString.

(** ** HttpMessageDecoder *)

Module HttpMessageDecoder.

Inductive State :=
  | SKIP_CONTROL_CHARS
  | READ_INITIAL
  | READ_HEADER
  | READ_VARIABLE_LENGTH_CONTENT
  | READ_VARIABLE_LENGTH_CONTENT_AS_CHUNKS
  | READ_FIXED_LENGTH_CONTENT
  | READ_FIXED_LENGTH_CONTENT_AS_CHUNKS
  | READ_CHUNK_SIZE
  | READ_CHUNKED_CONTENT
  | READ_CHUNKED_CONTENT_AS_CHUNKS
  | READ_CHUNK_DELIMITER
  | READ_CHUNK_FOOTER.

(** The [int] of a state. *)
Definition states : list State :=
  [SKIP_CONTROL_CHARS; READ_INITIAL; READ_HEADER; READ_VARIABLE_LENGTH_CONTENT;
   READ_VARIABLE_LENGTH_CONTENT_AS_CHUNKS; READ_FIXED_LENGTH_CONTENT; READ_FIXED_LENGTH_CONTENT_AS_CHUNKS;
   READ_CHUNK_SIZE; READ_CHUNKED_CONTENT; READ_CHUNKED_CONTENT_AS_CHUNKS; READ_CHUNK_DELIMITER; READ_CHUNK_FOOTER].
Definition code (s : State) : Z :=
  match s with
  | SKIP_CONTROL_CHARS => 0 | READ_INITIAL => 1 | READ_HEADER => 2 | READ_VARIABLE_LENGTH_CONTENT => 3
  | READ_VARIABLE_LENGTH_CONTENT_AS_CHUNKS => 4 | READ_FIXED_LENGTH_CONTENT => 5
  | READ_FIXED_LENGTH_CONTENT_AS_CHUNKS => 6 | READ_CHUNK_SIZE => 7 | READ_CHUNKED_CONTENT => 8
  | READ_CHUNKED_CONTENT_AS_CHUNKS => 9 | READ_CHUNK_DELIMITER => 10 | READ_CHUNK_FOOTER => 11
  end.
Definition state_of (n : Z) : option State := if n <? 0 then None else states !! Z.to_nat n.

(** What is sent upstream: a message as it is at that time, or a chunk. *)
Inductive output (H B : Type) :=
  | OutMessage (m : HttpMessage.t H B)
  | OutChunk (c : HttpChunk.t H B).
Arguments OutMessage {H B} _.
Arguments OutChunk {H B} _.

(** The members.  The member [message] points to the request or response object
    of the decoder, or is null; [content] may be a null pointer too.  The content
    [None] of a message is the shared empty buffer. *)
Record t (H V : Type) := MkDecoder {
  maxInitialLineLength : Z;
  maxHeaderSize : Z;
  maxChunkSize : Z;
  chunkSize : Z;
  headerSize : Z;
  pointed : bool;
  object : option (HttpMessage.t H (option V));
  content : option (option V);
}.
Arguments MkDecoder {H V} _ _ _ _ _ _ _ _.
Arguments maxInitialLineLength {H V} _.
Arguments maxHeaderSize {H V} _.
Arguments maxChunkSize {H V} _.
Arguments chunkSize {H V} _.
Arguments headerSize {H V} _.
Arguments pointed {H V} _.
Arguments object {H V} _.
Arguments content {H V} _.

Section Decoder.
Context {B V H : Type} {RB : RawBuffer B} {WB : WriteBuffer B} {SB : SliceBuffer B V}
  {HH : HttpHeader.HttpHeader H} {CV : Content (option V)} {SA : StringAlgorithms}.
(** The default constructor of a table of headers, and whether requests are
    decoded or responses. *)
Context (newHeader : H) (isDecodingRequest : bool).
Abbreviation decoder := (t H V).
Abbreviation message := (HttpMessage.t H (option V)).
Abbreviation chunk := (HttpChunk.t H (option V)).
Abbreviation F := (output H (option V)).
Abbreviation DM := (M (ReplayingDecoder.dstate decoder B F)).

Definition with_chunkSize (n : Z) (d : decoder) : decoder :=
  MkDecoder (maxInitialLineLength d) (maxHeaderSize d) (maxChunkSize d) n (headerSize d) (pointed d) (object d) (content d).
Definition with_headerSize (n : Z) (d : decoder) : decoder :=
  MkDecoder (maxInitialLineLength d) (maxHeaderSize d) (maxChunkSize d) (chunkSize d) n (pointed d) (object d) (content d).
Definition with_pointed (p : bool) (d : decoder) : decoder :=
  MkDecoder (maxInitialLineLength d) (maxHeaderSize d) (maxChunkSize d) (chunkSize d) (headerSize d) p (object d) (content d).
Definition with_object (o : option message) (d : decoder) : decoder :=
  MkDecoder (maxInitialLineLength d) (maxHeaderSize d) (maxChunkSize d) (chunkSize d) (headerSize d) (pointed d) o (content d).
Definition with_content (c : option (option V)) (d : decoder) : decoder :=
  MkDecoder (maxInitialLineLength d) (maxHeaderSize d) (maxChunkSize d) (chunkSize d) (headerSize d) (pointed d) (object d) c.

Definition newResponseObject : message := HttpMessage.newResponse HttpVersion.HTTP_1_1 HttpResponseStatus.NOT_FOUND newHeader.
Definition object0 : option message := if isDecodingRequest then None else Some newResponseObject.

(** The constructors. *)
Definition newDefault : decoder := MkDecoder 4096 8192 8192 0 0 false object0 None.
Definition new (maxInitialLineLength maxHeaderSize maxChunkSize : Z) : result decoder :=
  if maxInitialLineLength <=? 0 then Err InvalidArgumentException
  else if maxHeaderSize <=? 0 then Err InvalidArgumentException
  else if maxChunkSize <? 0 then Err InvalidArgumentException
  else Ok (MkDecoder maxInitialLineLength maxHeaderSize maxChunkSize 0 0 false object0 None).

(** *** Access *)

Definition getD {A} (f : decoder -> A) : DM A := gets (fun s => f (ReplayingDecoder.decoder s)).
Definition setD (f : decoder -> decoder) : DM unit :=
  modify (fun s => ReplayingDecoder.with_decoder (f (ReplayingDecoder.decoder s)) s).
Definition on_replay {A} (m : M (ReplayingDecoderBuffer.t B) A) : DM A := ReplayingDecoder.on_replayable m.
(** The array of the cumulation. *)
Definition on_array {A} (m : M B A) : DM A := ReplayingDecoder.on_cumulation m.
Definition of_array {A} (f : B -> result A) : DM A := on_array (reads f).
Definition needMoreBytes : DM bool :=
  gets (fun s => ReplayingDecoderBuffer.needMoreBytes (ReplayingDecoder.replayable s)).
Definition checkpoint (s : State) : DM unit := ReplayingDecoder.checkpointState (code s).

(** The request or response object, and what [message] points to. *)
Definition on_object {A} (m : M message A) : DM A := fun s =>
  let d := ReplayingDecoder.decoder s in
  match object d with
  | Some o => let '(r, o) := m o in (r, ReplayingDecoder.with_decoder (with_object (Some o) d) s)
  | None => (Err Undefined, s)
  end.
Definition on_message {A} (m : M message A) : DM A :=
  let! p := getD pointed in
  if p : bool then on_object m else throw Undefined.

Definition output_message : DM (ReplayingDecoder.message F) :=
  let! m := on_message (gets id) in ret (ReplayingDecoder.Message (OutMessage m)).
Definition output_chunk (c : chunk) : ReplayingDecoder.message F := ReplayingDecoder.Message (OutChunk c).

(** *** Lines *)

(** The end of a line: [readLine] and [readHeader] read on until they find it;
    [None] means that bytes are missing. *)
Definition endOfLine : DM (option (Z * bool)) :=
  let! nextByte := on_replay ReplayingDecoderBuffer.readByte in
  let! more := needMoreBytes in
  if more : bool then ret None
  else if nextByte =? HttpCodecUtil.CR then
    let! nextByte' := on_replay ReplayingDecoderBuffer.readByte in
    let! more := needMoreBytes in
    if more : bool then ret None else ret (Some (nextByte, nextByte' =? HttpCodecUtil.LF))
  else ret (Some (nextByte, nextByte =? HttpCodecUtil.LF)).

(** The pointer at the reader index of [buffer->array().data(...)]: the offset is
    checked. *)
Definition here : DM Z :=
  let! b := gets ReplayingDecoder.cumulation in
  let i := AbstractChannelBuffer.readerIndex b in
  throw_if (negb (i =? 0) && (i >=? Buffer.capacity b)) RangeException ;!
  ret i.

(** The turns of a loop that reads a byte each time. *)
Definition bytesLeft : DM nat :=
  gets (fun s => S (Z.to_nat (AbstractChannelBuffer.readableBytes (ReplayingDecoder.cumulation s)))).

Fixpoint readLineLoop (fuel : nat) (maxLineLength size : Z) : DM (bool * Z) :=
  match fuel with
  | O => throw Undefined
  | S fuel =>
      let! e := endOfLine in
      match e with
      | None => ret (false, size)
      | Some (_, true) => ret (true, size)
      | Some (nextByte, false) =>
          if nextByte =? HttpCodecUtil.CR then readLineLoop fuel maxLineLength size
          else if size >=? maxLineLength then throw TooLongFrameException
          else readLineLoop fuel maxLineLength (size + 1)
      end
  end.

Definition readLine (maxLineLength : Z) : DM FastString.t :=
  let! data := here in
  let! fuel := bytesLeft in
  let! r := readLineLoop fuel maxLineLength 0 in
  let '(complete, size) := r in
  let str := FastString.MkFast (Some data) size in
  if complete : bool then
    on_array (FastString.poke str size 0) ;!
    ret (FastString.MkFast (Some data) (size - 1))
  else ret str.

(** [readHeader] gives back a pointer without a size when bytes are missing; the
    member [headerSize] is then left alone. *)
Fixpoint readHeaderLoop (fuel : nat) (headerSize strSize : Z) : DM (option (Z * Z)) :=
  match fuel with
  | O => throw Undefined
  | S fuel =>
      let! e := endOfLine in
      match e with
      | None => ret None
      | Some (nextByte, ended) =>
          let headerSize := headerSize + (if nextByte =? HttpCodecUtil.CR then 2 else 1) in
          let strSize := strSize + 1 in
          if ended : bool then ret (Some (headerSize, strSize))
          else
            let! maxHeaderSize := getD maxHeaderSize in
            if headerSize >=? maxHeaderSize then throw TooLongFrameException
            else readHeaderLoop fuel headerSize strSize
      end
  end.

Definition readHeader : DM FastString.t :=
  let! data := here in
  let! fuel := bytesLeft in
  let! headerSize := getD headerSize in
  let! r := readHeaderLoop fuel headerSize 0 in
  match r with
  | None => ret (FastString.MkFast (Some data) 0)
  | Some (headerSize, strSize) =>
      on_array (FastString.store (data + strSize - 1) 0) ;!
      setD (with_headerSize headerSize) ;!
      ret (FastString.MkFast (Some data) (strSize - 1))
  end.

(** *** Headers *)

Definition addHeader (name : FastString.t) (value : DM text) : DM unit :=
  let! n := of_array (FastString.c_str name) in
  let! v := value in
  on_message (HttpMessage.addHeader n v).

(** The header collected so far, when there is one. *)
Definition addCollected (name value : FastString.t) (multiValueStr : text) : DM unit :=
  if FastString.empty name then ret tt
  else if is_empty multiValueStr then addHeader name (of_array (FastString.c_str value))
  else addHeader name (ret multiValueStr).

(** The loop of [readHeaders]; false when bytes are missing. *)
Fixpoint headersLoop (fuel : nat) (line name value : FastString.t) (multiValueStr : text) : DM bool :=
  if FastString.length line =? 0 then addCollected name value multiValueStr ;! ret true
  else
    match fuel with
    | O => throw Undefined
    | S fuel =>
        let! firstChar := of_array (FastString.at_ line 0) in
        let! r :=
          if negb (FastString.empty name) && FastString.is_blank firstChar then
            let! trimedLine := on_array (FastString.trim line) in
            let! v := of_array (FastString.c_str value) in
            let! bytes := of_array (fun b => FastString.bytesOf b trimedLine) in
            ret (name, value, (v ++ [32]) ++ bytes)
          else
            addCollected name value multiValueStr ;!
            let! r := on_array (FastString.splitHeader line) in
            let '(name, value) := r in
            ret (name, value, multiValueStr) in
        let '(name, value, multiValueStr) := r in
        let! line := readHeader in
        let! more := needMoreBytes in
        if more : bool then ret false else headersLoop fuel line name value multiValueStr
    end.

Definition isContentAlwaysEmpty (m : message) : bool :=
  match HttpMessage.what m with
  | HttpMessage.Response status =>
      let code := HttpResponseStatus.code status in
      (code <? 200) || (code =? 204) || (code =? 205) || (code =? 304)
  | _ => false
  end.

(** The end of [readHeaders]: the next state. *)
Definition stateAfterHeaders : DM State :=
  let! m := on_message (gets id) in
  if isContentAlwaysEmpty m then ret SKIP_CONTROL_CHARS
  else
    let! chunked := on_message HttpMessage.isChunked in
    if chunked : bool then ret READ_CHUNK_SIZE
    else
      let! contentLength := on_message (HttpHeaders.getContentLength (-1)) in
      ret (if contentLength >=? 0 then READ_FIXED_LENGTH_CONTENT else READ_VARIABLE_LENGTH_CONTENT).

Definition readHeaders : DM State :=
  let! line := readHeader in
  setD (with_headerSize 0) ;!
  let! more := needMoreBytes in
  if more : bool then ret READ_HEADER
  else
    let! fuel := bytesLeft in
    let! complete := headersLoop fuel line FastString.null FastString.null [] in
    if negb complete then ret READ_HEADER else stateAfterHeaders.

(** [readTrailingHeaders] does not ask whether bytes are missing, and takes every
    name for one of those that it skips; the values it collects of a folded
    header are a copy. *)
Fixpoint trailersLoop (fuel : nat) (line lastHeader : FastString.t) (trailer : H) : DM H :=
  if FastString.length line =? 0 then ret trailer
  else
    match fuel with
    | O => throw Undefined
    | S fuel =>
        let! firstChar := of_array (FastString.at_ line 0) in
        let! r :=
          if negb (FastString.empty lastHeader) && FastString.is_blank firstChar then
            let! n := of_array (FastString.c_str lastHeader) in
            let! current := reads (fun _ => fst (HttpHeader.getValues n trailer)) in
            (if is_empty current then ret tt
             else
               let! trimedLine := on_array (FastString.trim line) in
               let! _ := of_array (FastString.c_str trimedLine) in ret tt) ;!
            ret (lastHeader, trailer)
          else
            let! r := on_array (FastString.splitHeader line) in
            let '(name, value) := r in
            let! trailer :=
              if negb (FastString.equalsIgnoreCase name Names.CONTENT_LENGTH)
                && negb (FastString.equalsIgnoreCase name Names.TRANSFER_ENCODING)
                && negb (FastString.equalsIgnoreCase name Names.TRAILER) then
                let! n := of_array (FastString.c_str name) in
                let! v := of_array (FastString.c_str value) in
                reads (fun _ => let '(r, trailer) := HttpChunk.addTrailer n v trailer in let? _ := r in Ok trailer)
              else ret trailer in
            ret (name, trailer) in
        let '(lastHeader, trailer) := r in
        let! line := readHeader in
        trailersLoop fuel line lastHeader trailer
    end.

Definition readTrailingHeaders : DM chunk :=
  setD (with_headerSize 0) ;!
  let! line := readHeader in
  if FastString.length line =? 0 then ret HttpChunk.LAST_CHUNK
  else
    let! fuel := bytesLeft in
    let! trailer := trailersLoop (S fuel) line FastString.null newHeader in
    ret (HttpChunk.Trailer trailer).

(** *** The states *)

(** [createMessage] of the request decoder and of the response decoder; an object
    that exists is cleared and used again. *)
Definition createMessage (str1 str2 str3 : FastString.t) : DM unit :=
  let! s1 := of_array (FastString.c_str str1) in
  let! s2 := of_array (FastString.c_str str2) in
  let! s3 := of_array (FastString.c_str str3) in
  let! o := getD object in
  match isDecodingRequest, o with
  | true, None =>
      let! v := reads (fun _ => HttpVersion.valueOf s3) in
      let! method := reads (fun _ => HttpMethod.valueOf s1) in
      setD (with_object (Some (HttpMessage.newRequest v method s2 newHeader)))
  | true, Some _ =>
      on_object HttpMessage.clear ;!
      let! v := reads (fun _ => HttpVersion.valueOf s3) in
      on_object (modify (HttpMessage.setProtocolVersion v)) ;!
      let! method := reads (fun _ => HttpMethod.valueOf s1) in
      on_object (modify (HttpMessage.setMethod method)) ;!
      on_object (modify (HttpMessage.setUri s2))
  | false, _ =>
      on_object HttpMessage.clear ;!
      let! v := reads (fun _ => HttpVersion.valueOf s1) in
      on_object (modify (HttpMessage.setProtocolVersion v)) ;!
      let! status := reads (fun _ => let? code := Integer.parse s2 in HttpResponseStatus.new code s3) in
      on_object (modify (HttpMessage.setStatus status))
  end ;!
  setD (with_pointed true).

Definition reset : DM (ReplayingDecoder.message F) :=
  let! m := getD pointed in
  let! content := getD content in
  match content with
  | Some c => on_message (HttpMessage.setContent (Some c)) ;! setD (with_content None)
  | None => ret tt
  end ;!
  let! o := getD object in
  setD (with_pointed false) ;!
  checkpoint SKIP_CONTROL_CHARS ;!
  match m, o with
  | true, Some o => ret (ReplayingDecoder.Message (OutMessage o))
  | _, _ => ret ReplayingDecoder.EMPTY_MESSAGE
  end.

Fixpoint skipLoop (fuel : nat) : DM bool :=
  match fuel with
  | O => throw Undefined
  | S fuel =>
      let! c := on_replay ReplayingDecoderBuffer.readUnsignedByte in
      let! more := needMoreBytes in
      if more : bool then ret false
      else if negb (Character.isISOControl c) && negb (Character.isWhitespace c) then
        let! r := gets ReplayingDecoder.replayable in
        on_replay (ReplayingDecoderBuffer.setReaderIndex (ReplayingDecoderBuffer.readerIndex r - 1)) ;!
        ret true
      else skipLoop fuel
  end.
Definition skipControlCharacters : DM bool := let! fuel := bytesLeft in skipLoop fuel.

Definition readSlice (length : Z) : DM (option V) := on_replay (ReplayingDecoderBuffer.readSlice length).

Definition readFixedLengthContent : DM bool :=
  let! length := on_message (HttpHeaders.getContentLength (-1)) in
  setD (with_content None) ;!
  let! c := readSlice length in
  setD (with_content (Some c)) ;!
  let! more := needMoreBytes in
  ret (negb more).

(** Nothing to report yet. *)
Definition nothing : DM (ReplayingDecoder.message F) := ret ReplayingDecoder.EMPTY_MESSAGE.

(** [DefaultHttpChunk] of a buffer. *)
Definition newChunk (b : option V) : DM chunk := reads (fun _ => HttpChunk.new (Some b)).

(** The chunk, with the last chunk behind it. *)
Definition with_last (c : chunk) : ReplayingDecoder.message F :=
  ReplayingDecoder.Messages [OutChunk c; OutChunk HttpChunk.LAST_CHUNK].

Definition decodeInitial : DM (ReplayingDecoder.message F) :=
  let! maxInitialLineLength := getD maxInitialLineLength in
  let! line := readLine maxInitialLineLength in
  let! initialLine := on_array (FastString.splitInitialLine line) in
  match initialLine with
  | None => nothing
  | Some (s1, s2, s3) =>
      createMessage s1 s2 s3 ;!
      checkpoint READ_HEADER ;!
      setD (with_headerSize 0) ;!
      on_message HttpMessage.clearHeaders ;!
      nothing
  end.

Definition decodeHeader : DM (ReplayingDecoder.message F) :=
  let! nextState := readHeaders in
  match nextState with
  | READ_HEADER => nothing
  | _ =>
      checkpoint nextState ;!
      match nextState with
      | READ_CHUNK_SIZE => on_message (HttpMessage.setChunked true) ;! output_message
      | SKIP_CONTROL_CHARS => on_message (HttpMessage.removeHeader Names.TRANSFER_ENCODING) ;! output_message
      | _ =>
          let! contentLength := on_message (HttpHeaders.getContentLength (-1)) in
          if (contentLength =? 0) || ((contentLength =? -1) && isDecodingRequest) then
            setD (with_content (Some None)) ;! reset
          else
            let! maxChunkSize := getD maxChunkSize in
            match nextState with
            | READ_FIXED_LENGTH_CONTENT =>
                let! early :=
                  if contentLength >? maxChunkSize then ret true else on_message HttpHeaders.is100ContinueExpected in
                if early : bool then
                  checkpoint READ_FIXED_LENGTH_CONTENT_AS_CHUNKS ;!
                  on_message (HttpMessage.setChunked true) ;!
                  let! length := on_message (HttpHeaders.getContentLength (-1)) in
                  setD (with_chunkSize length) ;!
                  output_message
                else nothing
            | READ_VARIABLE_LENGTH_CONTENT =>
                let! readableBytes := gets (fun s => ReplayingDecoderBuffer.readableBytes (ReplayingDecoder.replayable s)) in
                let! early :=
                  if readableBytes >? maxChunkSize then ret true else on_message HttpHeaders.is100ContinueExpected in
                if early : bool then
                  checkpoint READ_VARIABLE_LENGTH_CONTENT_AS_CHUNKS ;!
                  on_message (HttpMessage.setChunked true) ;!
                  output_message
                else nothing
            | _ => throw IllegalStateException
            end
      end
  end.

Definition decodeVariable : DM (ReplayingDecoder.message F) :=
  let! readableBytes := gets (fun s => ReplayingDecoderBuffer.readableBytes (ReplayingDecoder.replayable s)) in
  let! c := readSlice readableBytes in
  setD (with_content (Some c)) ;!
  let! more := needMoreBytes in
  if more : bool then nothing else reset.

Definition decodeVariableChunk : DM (ReplayingDecoder.message F) :=
  let! maxChunkSize := getD maxChunkSize in
  let! readableBytes := gets (fun s => ReplayingDecoderBuffer.readableBytes (ReplayingDecoder.replayable s)) in
  let! buff := readSlice (Z.min maxChunkSize readableBytes) in
  let! more := needMoreBytes in
  if more : bool then nothing
  else
    let! c := newChunk buff in
    let! readable := gets (fun s => ReplayingDecoderBuffer.readable (ReplayingDecoder.replayable s)) in
    if negb readable then
      reset ;!
      ret (if HttpChunk.isLast c then output_chunk c else with_last c)
    else ret (output_chunk c).

Definition decodeFixed : DM (ReplayingDecoder.message F) :=
  let! complete := readFixedLengthContent in
  if complete : bool then reset else nothing.

(** The next slice of at most [maxChunkSize] of the bytes of a chunk, and how many
    are left. *)
Definition nextSlice : DM (option (chunk * Z)) :=
  let! chunkSize := getD chunkSize in
  let! maxChunkSize := getD maxChunkSize in
  let '(length, rest) :=
    if chunkSize >? maxChunkSize then (maxChunkSize, chunkSize - maxChunkSize) else (chunkSize, 0) in
  let! buff := readSlice length in
  let! more := needMoreBytes in
  if more : bool then ret None
  else
    let! c := newChunk buff in
    setD (with_chunkSize rest) ;!
    ret (Some (c, rest)).

Definition decodeFixedChunk : DM (ReplayingDecoder.message F) :=
  let! next := nextSlice in
  match next with
  | None => nothing
  | Some (c, rest) =>
      if rest =? 0 then
        reset ;!
        ret (if HttpChunk.isLast c then output_chunk c else with_last c)
      else ret (output_chunk c)
  end.

Definition decodeChunkSize : DM (ReplayingDecoder.message F) :=
  let! maxInitialLineLength := getD maxInitialLineLength in
  let! line := readLine maxInitialLineLength in
  let! more := needMoreBytes in
  if more : bool then nothing
  else
    let! size := on_array (FastString.getChunkSize line) in
    setD (with_chunkSize size) ;!
    let! maxChunkSize := getD maxChunkSize in
    checkpoint
      (if size =? 0 then READ_CHUNK_FOOTER
       else if size >? maxChunkSize then READ_CHUNKED_CONTENT_AS_CHUNKS else READ_CHUNKED_CONTENT) ;!
    nothing.

Definition decodeChunked : DM (ReplayingDecoder.message F) :=
  let! chunkSize := getD chunkSize in
  let! buff := readSlice chunkSize in
  let! more := needMoreBytes in
  if more : bool then nothing
  else
    let! c := newChunk buff in
    checkpoint READ_CHUNK_DELIMITER ;!
    ret (output_chunk c).

Definition decodeChunkedChunk : DM (ReplayingDecoder.message F) :=
  let! next := nextSlice in
  match next with
  | None => nothing
  | Some (c, rest) =>
      (if rest =? 0 then checkpoint READ_CHUNK_DELIMITER else ret tt) ;!
      ret (if HttpChunk.isLast c then ReplayingDecoder.EMPTY_MESSAGE else output_chunk c)
  end.

Fixpoint delimiterLoop (fuel : nat) : DM unit :=
  match fuel with
  | O => throw Undefined
  | S fuel =>
      let! e := endOfLine in
      match e with
      | None => ret tt
      | Some (_, true) => checkpoint READ_CHUNK_SIZE
      | Some (_, false) => delimiterLoop fuel
      end
  end.
Definition decodeDelimiter : DM (ReplayingDecoder.message F) :=
  let! fuel := bytesLeft in delimiterLoop fuel ;! nothing.

Definition decodeFooter : DM (ReplayingDecoder.message F) :=
  let! trailer := readTrailingHeaders in
  let! maxChunkSize := getD maxChunkSize in
  if maxChunkSize =? 0 then reset
  else reset ;! ret (output_chunk trailer).

Definition decodeSkip : DM (ReplayingDecoder.message F) :=
  let! found := skipControlCharacters in
  (if found : bool then checkpoint READ_INITIAL else ReplayingDecoder.checkpoint) ;!
  nothing.

Definition decode (state : Z) : DM (ReplayingDecoder.message F) :=
  match state_of state with
  | Some SKIP_CONTROL_CHARS => decodeSkip
  | Some READ_INITIAL => decodeInitial
  | Some READ_HEADER => decodeHeader
  | Some READ_VARIABLE_LENGTH_CONTENT => decodeVariable
  | Some READ_VARIABLE_LENGTH_CONTENT_AS_CHUNKS => decodeVariableChunk
  | Some READ_FIXED_LENGTH_CONTENT => decodeFixed
  | Some READ_FIXED_LENGTH_CONTENT_AS_CHUNKS => decodeFixedChunk
  | Some READ_CHUNK_SIZE => decodeChunkSize
  | Some READ_CHUNKED_CONTENT => decodeChunked
  | Some READ_CHUNKED_CONTENT_AS_CHUNKS => decodeChunkedChunk
  | Some READ_CHUNK_DELIMITER => decodeDelimiter
  | Some READ_CHUNK_FOOTER => decodeFooter
  | None => throw RuntimeException
  end.

(** [decodeLast] is that of the base class, which calls [decode]. *)
#[global] Instance decoding : ReplayingDecoder.ReplayDecoding decoder B F := {|
  ReplayingDecoder.decode := decode;
  ReplayingDecoder.decodeLast := decode;
|}.

End Decoder.
End HttpMessageDecoder.

(** ** HttpChunkAggregator

    The contents of the messages are any buffers that a chunk can be written to.
    A message that is held is an object of its own here. *)

Module HttpChunkAggregator.
Import HttpMessageDecoder (output, OutMessage, OutChunk).

Section Aggregator.
Context {B H : Type} {HH : HttpHeader.HttpHeader H} {CB : Content B} {SA : StringAlgorithms}.
(** [ChannelBuffers::dynamicBuffer( *bufferFactory)], and
    [content->writeBytes( *chunkBuff)] of the buffer that holds the content. *)
Context (dynamicBuffer : result B) (writeBytes : B -> M B unit).
Abbreviation message := (HttpMessage.t H B).

Record t := MkAggregator {
  maxContentLength : Z;
  currentMessage : option message;
  upstream : list (output H B);
}.

Definition new (maxContentLength : Z) : result t :=
  if maxContentLength <=? 0 then Err InvalidArgumentException else Ok (MkAggregator maxContentLength None []).

Definition setCurrent (m : option message) : M t unit :=
  modify (fun s => MkAggregator (maxContentLength s) m (upstream s)).
Definition sendUpstream (e : output H B) : M t unit :=
  modify (fun s => MkAggregator (maxContentLength s) (currentMessage s) (upstream s ++ [e])).

(** An operation of the message held; the use of a null pointer is undefined. *)
Definition on_current {A} (op : M message A) : M t A := fun s =>
  match currentMessage s with
  | Some m => let '(r, m) := op m in (r, MkAggregator (maxContentLength s) (Some m) (upstream s))
  | None => (Err Undefined, s)
  end.

(** The start of a chunked message. *)
Definition startMessage : M message unit :=
  HttpMessage.removeHeaderValue Names.TRANSFER_ENCODING Values.CHUNKED ;!
  HttpMessage.setChunked false ;!
  let! content := reads (fun _ => dynamicBuffer) in
  HttpMessage.setContent (Some content).

Definition receiveMessage (m : message) : M t unit :=
  let! _ := reads (fun _ => fst (HttpHeaders.is100ContinueExpected m)) in
  let! chunked := reads (fun _ => fst (HttpMessage.isChunked m)) in
  if chunked : bool then
    let! m := reads (fun _ => let '(r, m) := startMessage m in let? _ := r in Ok m) in
    setCurrent (Some m)
  else
    setCurrent None ;!
    sendUpstream (OutMessage m).

(** The bytes of a chunk are written to the content of the message held. *)
Definition writeContent (c : HttpChunk.t H B) : M message unit := fun m =>
  match HttpMessage.content m with
  | None => (Err Undefined, m)
  | Some content =>
      let '(r, content) := writeBytes (HttpChunk.getContent c) content in
      (r, HttpMessage.with_content (Some content) m)
  end.

(** The headers of the trailer. *)
Fixpoint setAll (nameValues : list (text * text)) : M t unit :=
  match nameValues with
  | [] => ret tt
  | (n, v) :: nameValues => on_current (HttpMessage.setHeader n v) ;! setAll nameValues
  end.

(** The message held is let go before its headers are set. *)
Definition finish (c : HttpChunk.t H B) (content : option B) : M t unit :=
  setCurrent None ;!
  match c with
  | HttpChunk.Chunk _ _ => ret tt
  | _ => let! nameValues := reads (fun _ => HttpChunk.headers c) in setAll nameValues
  end ;!
  let length := match content with Some b => content_length b | None => 0 end in
  on_current (HttpMessage.setHeader Names.CONTENT_LENGTH (Integer.toString length)) ;!
  let! m := on_current (gets id) in
  sendUpstream (OutMessage m).

Definition receiveChunk (c : HttpChunk.t H B) : M t unit :=
  let! s := gets id in
  match currentMessage s with
  | None => throw IllegalStateException
  | Some m =>
      let! length := reads (fun _ => match HttpMessage.content m with Some b => Ok (content_length b) | None => Err Undefined end) in
      throw_if (length >? i32 (maxContentLength s - content_length (HttpChunk.getContent c))) TooLongFrameException ;!
      on_current (writeContent c) ;!
      if HttpChunk.isLast c then
        let! m := on_current (gets id) in finish c (HttpMessage.content m)
      else ret tt
  end.

Definition messageReceived (e : output H B) : M t unit :=
  match e with
  | OutMessage m => receiveMessage m
  | OutChunk c => receiveChunk c
  end.

End Aggregator.
Arguments t : clear implicits.
End HttpChunkAggregator.
