(* ===== verification/HttpDecoderProperties.v ===== *)
(** * What the HTTP decoder does

    The memory of the cumulation, the strings in it, and the runs of the decoder as
    steps between configurations; folded headers and chunk sizes, on which it fails;
    and what the aggregator passes on. *)

From Stdlib Require Import Strings.String.
From S2P Require Import Prelude MachineInt Buffer AbstractBuffer BufferTheory HeapBuffer DynamicBuffer BufferUtil.
From S2P Require Import FrameDecoders FrameProperties Replay ReplayProperties DerivedBuffers.
From S2P Require Import Text HttpHeader HttpHeaderProperties HttpMessage HttpMessageProperties HttpDecoder.

Import AbstractChannelBuffer (readerIndex, writerIndex).

(** Lists that are equal up to the association of appends. *)
Ltac app_eq := repeat (progress (rewrite <- ?app_assoc; cbn [app])); reflexivity.

Ltac zlens := repeat first [rewrite zlen_app | rewrite zlen_cons]; change (@zlen Z []) with 0; lia.

(** ** The memory of a cumulation *)

Section Memory.
Context {B : Type} {RB : RawBuffer B} {RS : ReadSpec B} {WS : WriteSpec B}.
Import FastString (load, store, peek, poke, at_, cstring, c_str, findFrom, scan, endFrom, findEndOfString, findNonWhitespace, findWhitespace, MkFast, size, data).

Lemma load_eq (b : B) i : wf b -> 0 <= i < zlen (content b) -> load b i = Ok (znth 0 (content b) i).
Proof.
  intros [Hv _] Hi. pose proof (content_max b Hv) as Hm. unfold load.
  rewrite getByte_law by (exact Hv || solve_range). unfold signed_at.
  rewrite bytes_at_ok by (unfold in_range; lia). cbn [rbind]. rewrite (zsub_1 0) by exact Hi. cbn [rbind].
  f_equal. apply decode_1. pose proof (content_i8 b Hv) as Hf.
  unfold znth. rewrite List.Forall_forall in Hf. apply Hf, nth_In. unfold zlen in Hi. lia.
Qed.

(** The state of a buffer: its bytes and its indexes. *)
Record mem (c : list Z) (r w : Z) (b : B) : Prop := MkMem {
  mem_wf : wf b;
  mem_content : content b = c;
  mem_reader : AbstractChannelBuffer.readerIndex b = r;
  mem_writer : AbstractChannelBuffer.writerIndex b = w;
}.

Lemma store_eq c r w (b : B) i v : mem c r w b -> 0 <= i < zlen c -> is_i8 v ->
  exists b', store i v b = (Ok tt, b') /\ mem (overwrite c i [v]) r w b'.
Proof.
  intros [Hw <- <- <-] Hi Hv. pose proof Hw as [Hval Hix]. pose proof (content_max b Hval) as Hm.
  destruct (setByte_law b i v Hval ltac:(solve_range)) as [H _].
  destruct H as (b' & E & [Hv' Hc Hx Ho]); [unfold in_range; cbn; change (zlen [i8 v]) with 1; lia|].
  exists b'. unfold store. rewrite E, i8_id in * by exact Hv. split; [reflexivity|].
  split; [split; [exact Hv'|] | exact Hc | unfold AbstractChannelBuffer.readerIndex; rewrite Hx; reflexivity
    | unfold AbstractChannelBuffer.writerIndex; rewrite Hx; reflexivity].
  unfold wf_indexes, AbstractChannelBuffer.readerIndex, AbstractChannelBuffer.writerIndex in *.
  rewrite Hx, Hc, zlen_overwrite by (change (zlen [v]) with 1; lia). exact Hix.
Qed.

End Memory.

(** ** Reading memory

    What the searches and the C strings are on the bytes of an array. *)

Section Strings.
Context {B : Type} {RB : RawBuffer B} {RS : ReadSpec B} {WS : WriteSpec B}.
Import FastString (load, store, peek, poke, at_, cstring, c_str, findFrom, scan, endFrom, findEndOfString, findNonWhitespace, findWhitespace, MkFast, size, data).

(** The byte at offset [i] is [v]. *)
Definition byte_at (c : list Z) (i v : Z) : Prop := c !! Z.to_nat i = Some v /\ 0 <= i.

Lemma load_byte c r w (b : B) i v : mem c r w b -> byte_at c i v -> load b i = Ok v.
Proof.
  intros [Hw <- _ _] [Hl Hi]. pose proof (lookup_lt_Some _ _ _ Hl) as Hlt.
  rewrite load_eq; [|exact Hw|unfold zlen; lia]. f_equal. unfold znth. rewrite nth_lookup, Hl. reflexivity.
Qed.

Lemma byte_mid p v q : byte_at (p ++ v :: q) (zlen p) v.
Proof. split; [apply list_lookup_middle; unfold zlen; lia | apply zlen_nonneg]. Qed.

Lemma byte_in p t q k v : t !! k = Some v -> byte_at (p ++ t ++ q) (zlen p + Z.of_nat k) v.
Proof.
  intros H. split; [|unfold zlen; lia]. unfold zlen. rewrite lookup_app_r by lia.
  replace (Z.to_nat (Z.of_nat (length p) + Z.of_nat k) - length p)%nat with k by lia.
  rewrite lookup_app_l by (eapply lookup_lt_Some; exact H). exact H.
Qed.

Lemma cstring_eq c r w (b : B) p t q fuel : mem c r w b -> c = p ++ t ++ 0 :: q -> Forall (fun x => x <> 0) t ->
  (length t < fuel)%nat -> cstring fuel b (zlen p) = Ok t.
Proof.
  intros Hm. revert p fuel. induction t as [|x t IH]; intros p fuel Hc Ht Hf; (destruct fuel as [|fuel]; [cbn in Hf; lia|]); cbn [cstring].
  - erewrite load_byte; [|exact Hm|rewrite Hc; apply byte_mid]. reflexivity.
  - inversion Ht; subst x0 l. erewrite load_byte; [|exact Hm|rewrite Hc; apply byte_mid]. cbn [rbind].
    rewrite (proj2 (Z.eqb_neq x 0)) by assumption.
    replace (zlen p + 1) with (zlen (p ++ [x])) by (rewrite zlen_app; reflexivity).
    rewrite (IH (p ++ [x]) fuel); [reflexivity | rewrite Hc, <- app_assoc; reflexivity | assumption | cbn in Hf; lia].
Qed.

(** The string [t], with its end, is in the array where [s] points to. *)
Definition spells (c : list Z) (s : FastString.t) (t : text) : Prop :=
  exists p q, c = p ++ t ++ 0 :: q /\ data s = Some (zlen p) /\ Forall (fun x => x <> 0) t.

Lemma c_str_eq c r w (b : B) s t : mem c r w b -> spells c s t -> c_str s b = Ok t.
Proof.
  intros Hm (p & q & Hc & Hd & Ht). unfold c_str. rewrite Hd.
  eapply cstring_eq; [exact Hm | exact Hc | exact Ht |]. destruct Hm as [[Hv _] Hct _ _].
  rewrite capacity_content, Hct, Hc, !zlen_app, zlen_cons by exact Hv. pose proof (zlen_nonneg q). unfold zlen. lia.
Qed.

(** The view is at offset [zlen p] of the array, and shows [t]. *)
Lemma at_eq c r w (b : B) p t q n k v : mem c r w b -> c = p ++ t ++ q -> 0 <= k < n -> t !! Z.to_nat k = Some v ->
  at_ (MkFast (Some (zlen p)) n) k b = Ok v.
Proof.
  intros Hm Hc Hk Hv. unfold at_, peek. cbn [size data]. rewrite (proj2 (Z.ltb_lt k n)) by lia.
  eapply load_byte; [exact Hm|]. rewrite Hc. replace k with (Z.of_nat (Z.to_nat k)) by lia. apply byte_in, Hv.
Qed.

(** A search from the start of [t2] that passes [t1] and stops at [v]. *)
Lemma findFrom_eq c r w (b : B) stop p t0 t1 v q n fuel :
  mem c r w b -> c = p ++ t0 ++ t1 ++ v :: q -> Forall (fun x => stop x = false) t1 -> stop v = true ->
  zlen t0 + zlen t1 < n -> (length t1 < fuel)%nat ->
  findFrom fuel stop b (MkFast (Some (zlen p)) n) (zlen t0) = Ok (zlen t0 + zlen t1).
Proof.
  intros Hm. revert t0 fuel. induction t1 as [|x t1 IH]; intros t0 fuel Hc Ht Hv Hn Hf;
    (destruct fuel as [|fuel]; [cbn in Hf; lia|]); cbn [findFrom size]; pose proof (zlen_nonneg t0) as H0.
  - change (@zlen Z []) with 0 in *. rewrite (proj2 (Z.ltb_lt (zlen t0) n)) by lia.
    erewrite (at_eq c r w b p (t0 ++ v :: q) []); [|exact Hm|rewrite app_nil_r; exact Hc|lia|].
    2:{ apply list_lookup_middle. unfold zlen. lia. }
    cbn [rbind]. rewrite Hv. f_equal. lia.
  - inversion Ht; subst x0 l. rewrite zlen_cons in *. pose proof (zlen_nonneg t1).
    rewrite (proj2 (Z.ltb_lt (zlen t0) n)) by lia.
    erewrite (at_eq c r w b p (t0 ++ x :: t1 ++ v :: q) []); [|exact Hm|rewrite app_nil_r; exact Hc|lia|].
    2:{ apply list_lookup_middle. unfold zlen. lia. }
    cbn [rbind]. replace (stop x) with false by congruence.
    replace (zlen t0 + 1) with (zlen (t0 ++ [x])) by (rewrite zlen_app; reflexivity).
    rewrite (IH (t0 ++ [x]) fuel); [f_equal; rewrite zlen_app; change (zlen [x]) with 1; lia | | assumption | exact Hv | | cbn in Hf; lia].
    + rewrite <- app_assoc. exact Hc.
    + rewrite zlen_app. change (zlen [x]) with 1. lia.
Qed.

Lemma scan_eq c r w (b : B) stop p t0 t1 v q n k :
  mem c r w b -> c = p ++ t0 ++ t1 ++ v :: q -> Forall (fun x => stop x = false) t1 -> stop v = true ->
  zlen t0 + zlen t1 < n -> k = zlen t0 ->
  scan stop b (MkFast (Some (zlen p)) n) k = Ok (zlen t0 + zlen t1).
Proof.
  intros Hm Hc Ht Hv Hn ->. unfold scan. cbn [size]. eapply findFrom_eq; try eassumption. unfold zlen in *. lia.
Qed.

(** The last char that is not white space is at [k] or behind it. *)
Lemma endFrom_eq c r w (b : B) p t q n k x fuel m :
  mem c r w b -> c = p ++ t ++ q -> n <= zlen t -> t !! Z.to_nat k = Some x -> 0 <= k -> Character.isWhitespace x = false ->
  k < m <= n -> fuel = Z.to_nat m ->
  exists e, endFrom fuel b (MkFast (Some (zlen p)) n) m = Ok e /\ k < e <= n.
Proof.
  intros Hm Hc Hn Hx Hk Hw. revert m. induction fuel as [|fuel IH]; intros m Hmn Hf; cbn [endFrom]; [lia|].
  rewrite Z.gtb_ltb, (proj2 (Z.ltb_lt 0 m)) by lia.
  destruct (lookup_lt_is_Some_2 t (Z.to_nat (m - 1))) as [y Hy]; [unfold zlen in Hn; lia|].
  erewrite at_eq; [|exact Hm|exact Hc|lia|exact Hy]. cbn [rbind].
  destruct (Character.isWhitespace y) eqn:Ey; cbn [negb]; [|exists m; split; [reflexivity|lia]].
  assert (m - 1 <> k) by (intros E; rewrite E in Hy; congruence). apply IH; lia.
Qed.

Lemma findEndOfString_eq c r w (b : B) p t q n k x :
  mem c r w b -> c = p ++ t ++ q -> n <= zlen t -> t !! Z.to_nat k = Some x -> 0 <= k < n -> Character.isWhitespace x = false ->
  exists e, findEndOfString b (MkFast (Some (zlen p)) n) = Ok e /\ k < e <= n.
Proof.
  intros Hm Hc Hn Hx Hk Hw. unfold findEndOfString. cbn [size].
  eapply endFrom_eq; try eassumption; [lia | lia | reflexivity].
Qed.

End Strings.

(** ** Runs of the decoder

    The decoder over a cumulation that is known by its bytes and indexes, while
    the channel is open. *)

Section Runs.
Context {B V H : Type} {RB : RawBuffer B} {RS : ReadSpec B} {WS : WriteSpec B} {WB : WriteBuffer B}
  {SB : SliceBuffer B V} {HH : HttpHeader.HttpHeader H} {CV : Content (option V)} {SA : StringAlgorithms}.
Context (newHeader : H) (isDecodingRequest : bool).
Import HttpMessageDecoder.
Import FastString (load, store, peek, poke, at_, cstring, c_str, findFrom, scan, endFrom, findEndOfString, findNonWhitespace, findWhitespace, MkFast).
Abbreviation decoder := (HttpMessageDecoder.t H V).
Abbreviation F := (output H (option V)).
Abbreviation DM := (M (ReplayingDecoder.dstate decoder B F)).

Record config := Config {
  bytes : list Z;
  from : Z;
  upto : Z;
  dec : decoder;
  stateOf : Z;
  more : bool;
  out : list (ReplayingDecoder.message F);
}.

Definition with_bytes c k := Config c (from k) (upto k) (dec k) (stateOf k) (more k) (out k).
Definition with_from r k := Config (bytes k) r (upto k) (dec k) (stateOf k) (more k) (out k).
Definition with_dec d k := Config (bytes k) (from k) (upto k) d (stateOf k) (more k) (out k).
Definition with_stateOf st k := Config (bytes k) (from k) (upto k) (dec k) st (more k) (out k).
Definition with_more m k := Config (bytes k) (from k) (upto k) (dec k) (stateOf k) m (out k).

Definition in_config (k : config) (s : ReplayingDecoder.dstate decoder B F) : Prop :=
  exists b ck, s = ReplayingDecoder.MkD (dec k) (MkReplay b (more k) false) true (stateOf k) ck (out k) /\
    mem (bytes k) (from k) (upto k) b.

(** The operation takes the decoder from one configuration to the other. *)
Definition runs {A} (m : DM A) (k : config) (a : A) (k' : config) : Prop :=
  forall s, in_config k s -> exists s', m s = (Ok a, s') /\ in_config k' s'.

Lemma runs_bind {A A'} (m : DM A) (f : A -> DM A') k a k' a' k'' :
  runs m k a k' -> runs (f a) k' a' k'' -> runs (bind m f) k a' k''.
Proof.
  intros H1 H2 s Hs. destruct (H1 s Hs) as (s1 & E1 & Hs1). destruct (H2 s1 Hs1) as (s2 & E2 & Hs2).
  exists s2. rewrite (bind_ok _ _ _ _ _ E1). auto.
Qed.

(** The same, when only some of the result is known. *)
Definition leads {A} (m : DM A) (k : config) (Q : A -> config -> Prop) : Prop :=
  forall s, in_config k s -> exists a k' s', m s = (Ok a, s') /\ in_config k' s' /\ Q a k'.

Lemma runs_leads {A} (m : DM A) k a k' (Q : A -> config -> Prop) : runs m k a k' -> Q a k' -> leads m k Q.
Proof. intros Hm HQ s Hs. destruct (Hm s Hs) as (s' & E & Hs'). exists a, k', s'. auto. Qed.

Lemma leads_bind {A A'} (m : DM A) (f : A -> DM A') k Q Q' :
  leads m k Q -> (forall a k', Q a k' -> leads (f a) k' Q') -> leads (bind m f) k Q'.
Proof.
  intros H1 H2 s Hs. destruct (H1 s Hs) as (a & k1 & s1 & E1 & Hs1 & HQ).
  destruct (H2 a k1 HQ s1 Hs1) as (a2 & k2 & s2 & E2 & Hs2 & HQ2).
  exists a2, k2, s2. rewrite (bind_ok _ _ _ _ _ E1). auto.
Qed.

Lemma leads_run {A A'} (m : DM A) (f : A -> DM A') k a k' Q :
  runs m k a k' -> leads (f a) k' Q -> leads (bind m f) k Q.
Proof.
  intros H1 H2. eapply leads_bind; [apply (runs_leads _ _ _ _ (fun x y => x = a /\ y = k') H1); auto|].
  intros ? ? [-> ->]. exact H2.
Qed.

Lemma leads_weaken {A} (m : DM A) k (Q Q' : A -> config -> Prop) :
  leads m k Q -> (forall a k', Q a k' -> Q' a k') -> leads m k Q'.
Proof. intros Hm HQ s Hs. destruct (Hm s Hs) as (a & k' & s' & E & Hs' & Ha). exists a, k', s'. auto. Qed.

Lemma runs_ret {A} (a : A) k : runs (ret a) k a k.
Proof. intros s Hs. exists s. auto. Qed.

Lemma runs_getD {A} (f : decoder -> A) k : runs (getD f) k (f (dec k)) k.
Proof. intros s Hs. exists s. split; [|exact Hs]. destruct Hs as (b & ck & -> & _). reflexivity. Qed.

Lemma runs_setD f k : runs (setD f) k tt (with_dec (f (dec k)) k).
Proof. intros s (b & ck & -> & Hm). eexists. split; [reflexivity|]. exists b, ck. auto. Qed.

Lemma runs_needMoreBytes k : runs needMoreBytes k (more k) k.
Proof. intros s Hs. exists s. split; [|exact Hs]. destruct Hs as (b & ck & -> & _). reflexivity. Qed.

Lemma runs_reads {A} (a : A) k : runs (reads (fun _ => Ok a)) k a k.
Proof. intros s Hs. exists s. auto. Qed.

Lemma runs_bytesLeft k : runs bytesLeft k (S (Z.to_nat (upto k - from k))) k.
Proof.
  intros s Hs. exists s. split; [|exact Hs]. destruct Hs as (b & ck & -> & [Hw _ <- <-]).
  unfold bytesLeft, Prelude.gets, ReplayingDecoder.cumulation. cbn [ReplayingDecoder.replayable ReplayingDecoderBuffer.buffer].
  rewrite readableBytes_queue, zlen_queue by exact Hw. reflexivity.
Qed.

Lemma runs_on_array {A} (m : M B A) k a c :
  (forall b, mem (bytes k) (from k) (upto k) b -> exists b', m b = (Ok a, b') /\ mem c (from k) (upto k) b') ->
  runs (on_array m) k a (with_bytes c k).
Proof.
  intros Hm s (b & ck & -> & Hb). destruct (Hm b Hb) as (b' & E & Hb').
  unfold on_array, ReplayingDecoder.on_cumulation, zoom, ReplayingDecoder.cumulation.
  cbn [ReplayingDecoder.replayable ReplayingDecoderBuffer.buffer]. rewrite E.
  eexists. split; [reflexivity|]. exists b', ck. auto.
Qed.

Lemma leads_on_array {A} (m : M B A) k (Q : A -> config -> Prop) :
  (forall b, mem (bytes k) (from k) (upto k) b -> exists a c b', m b = (Ok a, b') /\
    mem c (from k) (upto k) b' /\ Q a (with_bytes c k)) ->
  leads (on_array m) k Q.
Proof.
  intros Hm s (b & ck & -> & Hb). destruct (Hm b Hb) as (a & c & b' & E & Hb' & HQ).
  exists a, (with_bytes c k). unfold on_array, ReplayingDecoder.on_cumulation, zoom, ReplayingDecoder.cumulation.
  cbn [ReplayingDecoder.replayable ReplayingDecoderBuffer.buffer]. rewrite E.
  eexists. split; [reflexivity|]. split; [exists b', ck; auto | exact HQ].
Qed.

Lemma runs_of_array {A} (f : B -> result A) k a :
  (forall b, mem (bytes k) (from k) (upto k) b -> f b = Ok a) -> runs (of_array f) k a k.
Proof.
  intros Hf. assert (k = with_bytes (bytes k) k) as Hk by (destruct k; reflexivity). rewrite Hk at 2.
  apply runs_on_array. intros b Hb. exists b. unfold reads. rewrite (Hf b Hb). auto.
Qed.

Lemma runs_readByte k v : byte_at (bytes k) (from k) v -> from k < upto k ->
  runs (on_replay ReplayingDecoderBuffer.readByte) k v (with_more false (with_from (from k + 1) k)).
Proof.
  intros [Hv H0] Hr s (b & ck & -> & [Hw Hc Hfr Hto]). pose proof (zlen_queue b Hw) as Hq.
  unfold on_replay, ReplayingDecoderBuffer.readByte. rewrite on_replayable_eq, guarded_readable by exact Hw.
  rewrite (proj2 (Z.ltb_ge _ _)) by lia.
  unfold ReplayingDecoderBuffer.on_buffer, zoom. cbn [ReplayingDecoderBuffer.buffer].
  rewrite readByte_spec by exact Hw. rewrite (proj2 (Z.ltb_ge _ _)) by lia. cbn [fst snd].
  eexists. split; [|exists (consume 1 b), ck; split; [reflexivity|]].
  - do 2 f_equal. unfold front, queue. rewrite zsub_zsub by lia. rewrite Hfr, Hc, Z.add_0_r.
    pose proof (lookup_lt_Some _ _ _ Hv) as Hlt. rewrite (zsub_1 0) by (unfold zlen; lia).
    rewrite decode_1; [unfold znth; rewrite nth_lookup, Hv; reflexivity|].
    destruct Hw as [Hval _]. pose proof (content_i8 b Hval) as Hf. rewrite Hc, List.Forall_forall in Hf.
    apply Hf, nth_In. lia.
  - split; [apply consume_wf; [exact Hw | lia] | unfold consume; rewrite content_put; exact Hc | |].
    + change (AbstractChannelBuffer.readerIndex ?x) with (readerIndex x). rewrite consume_readerIndex.
      unfold readerIndex in *. cbn. lia.
    + change (AbstractChannelBuffer.writerIndex ?x) with (writerIndex x). unfold consume. rewrite writerIndex_put. exact Hto.
Qed.

Lemma runs_here k : 0 <= from k < zlen (bytes k) -> runs here k (from k) k.
Proof.
  intros Hk s Hs. exists s. split; [|exact Hs]. destruct Hs as (b & ck & -> & [[Hv Hi] Hc Hr _]).
  unfold here. rewrite bind_gets. unfold ReplayingDecoder.cumulation. cbn [ReplayingDecoder.replayable ReplayingDecoderBuffer.buffer].
  rewrite Hr, capacity_content, Hc by exact Hv. rewrite bind_throw_if.
  replace (from k >=? zlen (bytes k)) with false by (symmetry; rewrite Z.geb_leb; apply Z.leb_gt; lia).
  rewrite andb_false_r. reflexivity.
Qed.

Lemma runs_checkpoint st k : runs (checkpoint st) k tt (with_stateOf (code st) k).
Proof.
  intros s (b & ck & -> & Hm). eexists. split; [reflexivity|]. exists b, (AbstractChannelBuffer.readerIndex b). auto.
Qed.

Lemma runs_on_object {A} (m : M (HttpMessage.t H (option V)) A) k o a o' :
  object (dec k) = Some o -> m o = (Ok a, o') ->
  runs (on_object m) k a (with_dec (with_object (Some o') (dec k)) k).
Proof.
  intros Ho Hm s (b & ck & -> & Hb). unfold on_object. cbn [ReplayingDecoder.decoder]. rewrite Ho, Hm.
  eexists. split; [reflexivity|]. exists b, ck. auto.
Qed.

Lemma runs_on_message {A} (m : M (HttpMessage.t H (option V)) A) k o a o' :
  pointed (dec k) = true -> object (dec k) = Some o -> m o = (Ok a, o') ->
  runs (on_message m) k a (with_dec (with_object (Some o') (dec k)) k).
Proof.
  intros Hp Ho Hm. eapply runs_bind; [apply runs_getD|]. rewrite Hp. apply (runs_on_object m k o a o' Ho Hm).
Qed.

(** *** Lines *)

(** A position in the bytes. *)
Definition position (k : config) (p q : list Z) : Prop :=
  bytes k = p ++ q /\ from k = zlen p.

Definition step (p : list Z) (k : config) : config := with_more false (with_from (zlen p) k).

Lemma position_step k p v q : position k p (v :: q) -> position (step (p ++ [v]) k) (p ++ [v]) q.
Proof. intros [Hb Hf]. split; [cbn; rewrite <- app_assoc; exact Hb | reflexivity]. Qed.

Lemma runs_byte k p v q : position k p (v :: q) -> zlen p < upto k ->
  runs (on_replay ReplayingDecoderBuffer.readByte) k v (step (p ++ [v]) k).
Proof.
  intros [Hb Hf] Hu. unfold step. rewrite zlen_app. change (zlen [v]) with 1. rewrite <- Hf.
  apply runs_readByte; [rewrite Hb, Hf; apply byte_mid | lia].
Qed.

Lemma runs_endOfLine_char k p v q : position k p (v :: q) -> zlen p < upto k -> v <> 13 ->
  runs endOfLine k (Some (v, v =? 10)) (step (p ++ [v]) k).
Proof.
  intros Hp Hu Hv. eapply runs_bind; [eapply runs_byte; eassumption|].
  eapply runs_bind; [apply runs_needMoreBytes|]. cbn [more step with_more].
  unfold HttpCodecUtil.CR. rewrite (proj2 (Z.eqb_neq v 13)) by exact Hv. apply runs_ret.
Qed.

Lemma step_step p1 p2 k : step p2 (step p1 k) = step p2 k.
Proof. reflexivity. Qed.

Lemma runs_endOfLine_crlf k p q : position k p (13 :: 10 :: q) -> zlen p + 1 < upto k ->
  runs endOfLine k (Some (13, true)) (step (p ++ [13; 10]) k).
Proof.
  intros Hp Hu. eapply runs_bind; [eapply runs_byte; [exact Hp | lia]|].
  eapply runs_bind; [apply runs_needMoreBytes|]. cbn [more step with_more]. change (13 =? HttpCodecUtil.CR) with true. cbv iota.
  eapply runs_bind; [eapply runs_byte; [apply position_step, Hp | rewrite zlen_app; change (zlen [13]) with 1; exact Hu]|].
  eapply runs_bind; [apply runs_needMoreBytes|]. cbn [more step with_more]. rewrite <- app_assoc. apply runs_ret.
Qed.

(** The chars of a line. *)
Abbreviation plain := (Forall line_char).

Lemma runs_readLineLoop k p l q max size fuel : position k p (l ++ 13 :: 10 :: q) -> plain l ->
  zlen p + zlen l + 1 < upto k -> 0 <= size -> size + zlen l <= max -> (List.length l < fuel)%nat ->
  runs (readLineLoop fuel max size) k (true, size + zlen l) (step (p ++ l ++ [13; 10]) k).
Proof.
  revert k p size fuel. induction l as [|v l IH]; intros k p size fuel Hp Hl Hu Hs Hm Hf;
    (destruct fuel as [|fuel]; [cbn in Hf; lia|]); cbn [readLineLoop app] in *.
  - change (@zlen Z []) with 0 in *. eapply runs_bind; [apply (runs_endOfLine_crlf k p q Hp); lia|].
    rewrite Z.add_0_r. apply runs_ret.
  - rewrite zlen_cons in *. pose proof (zlen_nonneg l). inversion Hl as [|? ? [Hv10 Hv13] Hl']; subst.
    eapply runs_bind; [apply (runs_endOfLine_char k p v _ Hp); [lia | exact Hv13]|].
    rewrite (proj2 (Z.eqb_neq v 10)) by exact Hv10. unfold HttpCodecUtil.CR. rewrite (proj2 (Z.eqb_neq v 13)) by exact Hv13.
    rewrite Z.geb_leb, (proj2 (Z.leb_gt max size)) by lia.
    replace (size + (1 + zlen l)) with ((size + 1) + zlen l) by lia.
    replace (p ++ v :: l ++ [13; 10]) with ((p ++ [v]) ++ l ++ [13; 10]) by (app_eq).
    rewrite <- (step_step (p ++ [v]) ((p ++ [v]) ++ l ++ [13; 10]) k). apply IH; [apply position_step, Hp | exact Hl' | | lia | lia | cbn in Hf; lia].
    cbn [upto step with_more with_from]. rewrite zlen_app. change (zlen [v]) with 1. lia.
Qed.

Lemma overwrite_mid (p : list Z) v q x : overwrite (p ++ v :: q) (zlen p) [x] = p ++ x :: q.
Proof.
  unfold overwrite, zlen. rewrite Nat2Z.id, take_app_length. cbn [app]. do 2 f_equal.
  rewrite drop_app_ge by (cbn; lia). replace (_ - _)%nat with 1%nat by (cbn; lia). reflexivity.
Qed.

Lemma runs_store p v q k i x c : bytes k = p ++ v :: q -> i = zlen p -> is_i8 x -> c = p ++ x :: q ->
  runs (on_array (FastString.store i x)) k tt (with_bytes c k).
Proof.
  intros Hb -> Hx ->. rewrite <- (overwrite_mid p v q x), <- Hb. apply runs_on_array. intros b Hm.
  apply store_eq; [exact Hm | | exact Hx]. rewrite Hb, zlen_app, zlen_cons.
  pose proof (zlen_nonneg p). pose proof (zlen_nonneg q). lia.
Qed.

Lemma runs_readLine k p l q max : position k p (l ++ 13 :: 10 :: q) -> plain l ->
  zlen p + zlen l + 1 < upto k -> zlen l <= max ->
  runs (readLine max) k (FastString.MkFast (Some (zlen p)) (zlen l - 1))
    (with_bytes (p ++ l ++ 0 :: 10 :: q) (step (p ++ l ++ [13; 10]) k)).
Proof.
  intros Hp Hl Hu Hm. pose proof Hp as [Hb Hf]. pose proof (zlen_nonneg p). pose proof (zlen_nonneg l).
  eapply runs_bind; [apply runs_here|].
  { rewrite Hb, Hf, !zlen_app, zlen_cons. pose proof (zlen_nonneg (10 :: q)). lia. }
  eapply runs_bind; [apply runs_bytesLeft|].
  eapply runs_bind; [apply (runs_readLineLoop k p l q max 0 _ Hp Hl Hu); [lia | lia | unfold zlen in *; lia]|].
  cbv beta iota. rewrite Z.add_0_l, Hf.
  eapply runs_bind; [|apply runs_ret].
  unfold FastString.poke. cbn [FastString.data].
  apply (runs_store (p ++ l) 13 (10 :: q)); [|rewrite zlen_app; lia | solve_range | app_eq].
  cbn. rewrite Hb, <- app_assoc. reflexivity.
Qed.

Lemma runs_readHeaderLoop k p l q hs ss fuel : position k p (l ++ 13 :: 10 :: q) -> plain l ->
  zlen p + zlen l + 1 < upto k -> hs + zlen l < maxHeaderSize (dec k) -> (List.length l < fuel)%nat ->
  runs (readHeaderLoop fuel hs ss) k (Some (hs + zlen l + 2, ss + zlen l + 1)) (step (p ++ l ++ [13; 10]) k).
Proof.
  revert k p hs ss fuel. induction l as [|v l IH]; intros k p hs ss fuel Hp Hl Hu Hm Hf;
    (destruct fuel as [|fuel]; [cbn in Hf; lia|]); cbn [readHeaderLoop app] in *.
  - change (@zlen Z []) with 0 in *. eapply runs_bind; [apply (runs_endOfLine_crlf k p q Hp); lia|].
    cbv iota. change (13 =? HttpCodecUtil.CR) with true. rewrite !Z.add_0_r. apply runs_ret.
  - rewrite zlen_cons in *. pose proof (zlen_nonneg l). inversion Hl as [|? ? [Hv10 Hv13] Hl']; subst.
    eapply runs_bind; [apply (runs_endOfLine_char k p v _ Hp); [lia | exact Hv13]|].
    cbv iota. unfold HttpCodecUtil.CR. rewrite (proj2 (Z.eqb_neq v 10)), (proj2 (Z.eqb_neq v 13)) by assumption.
    eapply runs_bind; [apply runs_getD|]. cbn [dec step with_more with_from].
    rewrite Z.geb_leb, (proj2 (Z.leb_gt _ _)) by lia.
    replace (hs + (1 + zlen l) + 2) with ((hs + 1) + zlen l + 2) by lia.
    replace (ss + (1 + zlen l) + 1) with ((ss + 1) + zlen l + 1) by lia.
    replace (p ++ v :: l ++ [13; 10]) with ((p ++ [v]) ++ l ++ [13; 10]) by (app_eq).
    rewrite <- (step_step (p ++ [v]) ((p ++ [v]) ++ l ++ [13; 10]) k).
    apply IH; [apply position_step, Hp | exact Hl' | | cbn [dec step with_more with_from]; lia | cbn in Hf; lia].
    cbn [upto step with_more with_from]. rewrite zlen_app. change (zlen [v]) with 1. lia.
Qed.

Lemma runs_readHeader k p l q : position k p (l ++ 13 :: 10 :: q) -> plain l ->
  zlen p + zlen l + 1 < upto k -> headerSize (dec k) + zlen l < maxHeaderSize (dec k) ->
  runs readHeader k (FastString.MkFast (Some (zlen p)) (zlen l))
    (with_dec (with_headerSize (headerSize (dec k) + zlen l + 2) (dec k))
      (with_bytes (p ++ l ++ 0 :: 10 :: q) (step (p ++ l ++ [13; 10]) k))).
Proof.
  intros Hp Hl Hu Hm. pose proof Hp as [Hb Hf]. pose proof (zlen_nonneg p). pose proof (zlen_nonneg l).
  eapply runs_bind; [apply runs_here|].
  { rewrite Hb, Hf, !zlen_app, zlen_cons. pose proof (zlen_nonneg (10 :: q)). lia. }
  eapply runs_bind; [apply runs_bytesLeft|]. eapply runs_bind; [apply runs_getD|].
  eapply runs_bind; [apply (runs_readHeaderLoop k p l q _ 0 _ Hp Hl Hu Hm); unfold zlen in *; lia|].
  cbv iota. rewrite Z.add_0_l, Hf.
  eapply runs_bind.
  { apply (runs_store (p ++ l) 13 (10 :: q)); [|rewrite zlen_app; lia | solve_range | reflexivity].
    cbn. rewrite Hb, <- app_assoc. reflexivity. }
  eapply runs_bind; [apply runs_setD|]. replace (zlen l + 1 - 1) with (zlen l) by lia. rewrite <- app_assoc. apply runs_ret.
Qed.

(** *** Parts of a line *)

(** A word: at least one char, none of them white space or NUL. *)
Definition word (t : text) : Prop := t <> [] /\ Forall (fun c => Character.isWhitespace c = false /\ c <> 0) t.

Lemma word_cases t : word t -> exists c t', t = c :: t' /\ Character.isWhitespace c = false.
Proof. intros [Hn Ht]. destruct t as [|c t']; [contradiction|]. inversion Ht. exists c, t'. tauto. Qed.

Lemma word_plain t : word t -> Forall (fun c => Character.isWhitespace c = false) t.
Proof. intros [_ Ht]. refine (List.Forall_impl _ _ Ht). cbn. tauto. Qed.

Lemma word_nul t : word t -> Forall (fun c => c <> 0) t.
Proof. intros [_ Ht]. refine (List.Forall_impl _ _ Ht). cbn. tauto. Qed.

Lemma reads_mem {A A'} (f : B -> result A) (g : A -> M B A') r (b : B) :
  f b = Ok r -> bind (reads f) g b = g r b.
Proof. intros E. rewrite bind_reads, E. reflexivity. Qed.

Lemma store_mid c r w (b : B) p v q i x : mem c r w b -> c = p ++ v :: q -> i = zlen p -> is_i8 x ->
  exists b', FastString.store i x b = (Ok tt, b') /\ mem (p ++ x :: q) r w b'.
Proof.
  intros Hm Hc -> Hx. rewrite <- (overwrite_mid p v q x), <- Hc. apply store_eq; [exact Hm | | exact Hx].
  rewrite Hc, zlen_app, zlen_cons. pose proof (zlen_nonneg p). pose proof (zlen_nonneg q). lia.
Qed.

(** The string is spelled in every array that starts with [p]. *)
Definition spelled (p : list Z) (s : FastString.t) (t : text) : Prop := forall q, spells (p ++ q) s t.

Lemma spelled_intro p1 t p2 d n : d = zlen p1 -> Forall (fun x => x <> 0) t ->
  spelled (p1 ++ t ++ 0 :: p2) (FastString.MkFast (Some d) n) t.
Proof. intros -> Ht q. exists p1, (p2 ++ q). rewrite <- !app_assoc. auto. Qed.

Lemma spelled_app p p' s t : spelled p s t -> spelled (p ++ p') s t.
Proof. intros H0 q. rewrite <- app_assoc. apply H0. Qed.

Lemma word_first t : word t -> exists x t', t = x :: t' /\ negb (Character.isWhitespace x) = true.
Proof. intros Ht. destruct (word_cases t Ht) as (x & t' & -> & E). exists x, t'. rewrite E. auto. Qed.

Lemma word_zlen t : word t -> 0 < zlen t.
Proof. intros Ht. destruct (word_cases t Ht) as (x & t' & -> & _). rewrite zlen_cons. pose proof (zlen_nonneg t'). lia. Qed.

(** The searches of [splitInitialLine]. *)
Lemma initial_line_ends c r w (b : B) p m u v q :
  mem c r w b -> c = p ++ m ++ 32 :: u ++ 32 :: v ++ 0 :: q -> word m -> word u -> word v -> 1 < zlen v ->
  let s := MkFast (Some (zlen p)) (zlen m + zlen u + zlen v + 1) in
  findNonWhitespace b s 0 = Ok 0 /\ findWhitespace b s 0 = Ok (zlen m) /\
  findNonWhitespace b s (zlen m) = Ok (zlen m + 1) /\ findWhitespace b s (zlen m + 1) = Ok (zlen m + 1 + zlen u) /\
  findNonWhitespace b s (zlen m + 1 + zlen u) = Ok (zlen m + 1 + zlen u + 1).
Proof.
  intros Hm Hc Hwm Hwu Hwv Hv s. pose proof (word_plain m Hwm) as Hpm. pose proof (word_plain u Hwu) as Hpu.
  destruct (word_first m Hwm) as (m0 & m' & Em & Hm0), (word_first u Hwu) as (u0 & u' & Eu & Hu0),
    (word_first v Hwv) as (v0 & v' & Ev & Hv0).
  pose proof (word_zlen m Hwm). pose proof (word_zlen u Hwu).
  assert (zlen (m ++ [32]) = zlen m + 1) as Hlm by (rewrite zlen_app; reflexivity).
  assert (zlen (m ++ 32 :: u) = zlen m + 1 + zlen u) as Hlu by (rewrite zlen_app, zlen_cons; lia).
  unfold findNonWhitespace, findWhitespace, s. split; [|split; [|split; [|split]]].
  - rewrite (scan_eq c r w b _ p [] [] m0 (m' ++ 32 :: u ++ 32 :: v ++ 0 :: q) _ 0 Hm);
      [reflexivity | | constructor | exact Hm0 | change (@zlen Z []) with 0; lia | reflexivity].
    rewrite Hc. rewrite Em at 1. reflexivity.
  - rewrite (scan_eq c r w b _ p [] m 32 (u ++ 32 :: v ++ 0 :: q) _ 0 Hm);
      [reflexivity | exact Hc | exact Hpm | reflexivity | change (@zlen Z []) with 0; lia | reflexivity].
  - rewrite (scan_eq c r w b _ p m [32] u0 (u' ++ 32 :: v ++ 0 :: q) _ (zlen m) Hm);
      [reflexivity | | repeat constructor | exact Hu0 | change (zlen [32]) with 1; lia | reflexivity].
    rewrite Hc. rewrite Eu at 1. reflexivity.
  - rewrite (scan_eq c r w b _ p (m ++ [32]) u 32 (v ++ 0 :: q) _ _ Hm);
      [rewrite Hlm; reflexivity | rewrite Hc, <- app_assoc; reflexivity | exact Hpu | reflexivity | lia | lia].
  - rewrite (scan_eq c r w b _ p (m ++ 32 :: u) [32] v0 (v' ++ 0 :: q) _ _ Hm);
      [rewrite Hlu; reflexivity | | repeat constructor | exact Hv0 | change (zlen [32]) with 1; lia | lia].
    rewrite Hc, <- app_assoc. rewrite Ev at 1. reflexivity.
Qed.

(** A part of a line that is followed by a NUL. *)
Lemma substring_spells p1 t q d n i j : Forall (fun x => x <> 0) t -> d + i = zlen p1 -> i < j ->
  spells (p1 ++ t ++ 0 :: q) (FastString.substring i j (MkFast (Some d) n)) t.
Proof.
  intros Ht Hd Hij. unfold FastString.substring. rewrite (proj2 (Z.ltb_lt _ _)) by exact Hij.
  cbn [option_map FastString.data]. rewrite Hd. exists p1, q. auto.
Qed.

(** The first line: the method, the URI and the version, of at least two chars. *)
Lemma splitInitialLine_eq c r w (b : B) p m u v q :
  mem c r w b -> c = p ++ m ++ 32 :: u ++ 32 :: v ++ 0 :: q -> word m -> word u -> word v -> 1 < zlen v ->
  exists b' s1 s2 s3,
    FastString.splitInitialLine (MkFast (Some (zlen p)) (zlen m + zlen u + zlen v + 1)) b = (Ok (Some (s1, s2, s3)), b') /\
    let c' := p ++ m ++ 0 :: u ++ 0 :: v ++ 0 :: q in
    mem c' r w b' /\ spells c' s1 m /\ spells c' s2 u /\ spells c' s3 v.
Proof.
  intros Hm Hc Hwm Hwu Hwv Hv.
  destruct (initial_line_ends c r w b p m u v q Hm Hc Hwm Hwu Hwv Hv) as (E1 & E2 & E3 & E4 & E5).
  set (n := zlen m + zlen u + zlen v + 1) in *. destruct (word_first v Hwv) as (v0 & v' & Ev & Hv0).
  pose proof (word_zlen m Hwm). pose proof (word_zlen u Hwu).
  destruct (findEndOfString_eq c r w b p (m ++ 32 :: u ++ 32 :: v) (0 :: q) n (zlen m + 1 + zlen u + 1) v0 Hm) as (e & E6 & He).
  { rewrite Hc. app_eq. }
  { rewrite zlen_app, zlen_cons, zlen_app, zlen_cons. lia. }
  { replace (m ++ 32 :: u ++ 32 :: v) with ((m ++ 32 :: u ++ [32]) ++ v0 :: v') by (rewrite Ev, <- app_assoc; cbn; app_eq).
    apply list_lookup_middle. rewrite length_app. cbn. rewrite length_app. unfold zlen. cbn. lia. }
  { lia. }
  { apply negb_true_iff, Hv0. }
  destruct (store_mid c r w b (p ++ m) 32 (u ++ 32 :: v ++ 0 :: q) (zlen p + zlen m) 0 Hm) as (b1 & Es1 & Hm1);
    [rewrite Hc, <- app_assoc; reflexivity | rewrite zlen_app; reflexivity | solve_range |].
  destruct (store_mid _ r w b1 (p ++ m ++ 0 :: u) 32 (v ++ 0 :: q) (zlen p + (zlen m + 1 + zlen u)) 0 Hm1) as (b2 & Es2 & Hm2);
    [app_eq | rewrite !zlen_app, zlen_cons; lia | solve_range |].
  eexists b2, _, _, _. split; [|split; [|split; [|split]]].
  - unfold FastString.splitInitialLine, FastString.empty. cbn [FastString.size]. rewrite (proj2 (Z.eqb_neq n 0)) by lia.
    rewrite (reads_mem _ _ _ _ E1), (reads_mem _ _ _ _ E2), (reads_mem _ _ _ _ E3), (reads_mem _ _ _ _ E4),
      (reads_mem _ _ _ _ E5), (reads_mem _ _ _ _ E6).
    unfold poke. cbn [FastString.data]. rewrite (bind_ok _ _ _ _ _ Es1), (bind_ok _ _ _ _ _ Es2). reflexivity.
  - rewrite <- !app_assoc in Hm2. exact Hm2.
  - apply substring_spells; [apply word_nul, Hwm | lia | lia].
  - replace (p ++ m ++ 0 :: u ++ 0 :: v ++ 0 :: q) with ((p ++ m ++ [0]) ++ u ++ 0 :: v ++ 0 :: q) by app_eq.
    apply substring_spells; [apply word_nul, Hwu | rewrite !zlen_app; change (zlen [0]) with 1; lia | lia].
  - replace (p ++ m ++ 0 :: u ++ 0 :: v ++ 0 :: q) with ((p ++ m ++ 0 :: u ++ [0]) ++ v ++ 0 :: q) by app_eq.
    apply substring_spells; [apply word_nul, Hwv | | lia].
    rewrite !zlen_app, zlen_cons, zlen_app. change (zlen [0]) with 1. lia.
Qed.

(** A header line: a word without a colon, and a value that starts with a char that
    is not white space. *)
Definition good_name (n : text) : Prop := word n /\ Forall (fun c => c <> 58) n.
Definition good_value (v : text) : Prop :=
  (exists c v', v = c :: v' /\ Character.isWhitespace c = false) /\ Forall (fun c => c <> 0) v.

(** The searches of [splitHeader]. *)
Lemma header_ends c r w (b : B) p n v q :
  mem c r w b -> c = p ++ n ++ 58 :: 32 :: v ++ 0 :: q -> good_name n -> good_value v ->
  let s := MkFast (Some (zlen p)) (zlen n + 2 + zlen v) in
  findNonWhitespace b s 0 = Ok 0 /\ scan (fun c => (c =? 58) || Character.isWhitespace c) b s 0 = Ok (zlen n) /\
  FastString.findColonEnd b s (zlen n) = Ok (zlen n + 1) /\ findNonWhitespace b s (zlen n + 1) = Ok (zlen n + 2).
Proof.
  intros Hm Hc [Hwn Hcn] [(v0 & v' & Ev & Hv0) _] s. destruct (word_first n Hwn) as (n0 & n' & En & Hn0).
  pose proof (word_zlen n Hwn) as Hzn.
  assert (0 < zlen v) as Hzv by (rewrite Ev, zlen_cons; pose proof (zlen_nonneg v'); lia).
  assert (zlen (n ++ [58]) = zlen n + 1) as Hl by (rewrite zlen_app; reflexivity).
  unfold findNonWhitespace, s. split; [|split; [|split]].
  - rewrite (scan_eq c r w b _ p [] [] n0 (n' ++ 58 :: 32 :: v ++ 0 :: q) _ 0 Hm);
      [reflexivity | | constructor | exact Hn0 | change (@zlen Z []) with 0; lia | reflexivity].
    rewrite Hc. rewrite En at 1. reflexivity.
  - rewrite (scan_eq c r w b _ p [] n 58 (32 :: v ++ 0 :: q) _ 0 Hm);
      [reflexivity | exact Hc | | reflexivity | change (@zlen Z []) with 0; lia | reflexivity].
    apply List.Forall_forall. intros x Hx. rewrite List.Forall_forall in Hcn.
    pose proof (word_plain n Hwn) as Hpn. rewrite List.Forall_forall in Hpn.
    rewrite (Hpn x Hx), (proj2 (Z.eqb_neq x 58)) by (apply Hcn, Hx). reflexivity.
  - unfold FastString.findColonEnd. rewrite (scan_eq c r w b _ p n [] 58 (32 :: v ++ 0 :: q) _ _ Hm);
      [|exact Hc | constructor | reflexivity | change (@zlen Z []) with 0; lia | reflexivity].
    cbn [rbind FastString.size]. change (@zlen Z []) with 0. rewrite (proj2 (Z.ltb_lt _ _)) by lia. f_equal. lia.
  - rewrite (scan_eq c r w b _ p (n ++ [58]) [32] v0 (v' ++ 0 :: q) _ _ Hm);
      [rewrite Hl; change (zlen [32]) with 1; f_equal; lia | | repeat constructor | rewrite Hv0; reflexivity
      | change (zlen [32]) with 1; lia | lia].
    rewrite Hc, <- app_assoc. rewrite Ev at 1. reflexivity.
Qed.

Lemma splitHeader_eq c r w (b : B) p n v q :
  mem c r w b -> c = p ++ n ++ 58 :: 32 :: v ++ 0 :: q -> good_name n -> good_value v ->
  let c' := p ++ n ++ 0 :: 32 :: v ++ 0 :: q in
  exists b' s1 s2, FastString.splitHeader (MkFast (Some (zlen p)) (zlen n + 2 + zlen v)) b = (Ok (s1, s2), b') /\
    mem c' r w b' /\ FastString.empty s1 = false /\
    spelled (p ++ n ++ 0 :: 32 :: v ++ [0]) s1 n /\ spelled (p ++ n ++ 0 :: 32 :: v ++ [0]) s2 v.
Proof.
  intros Hm Hc Hgn Hgv c'. destruct (header_ends c r w b p n v q Hm Hc Hgn Hgv) as (E1 & E2 & E3 & E4).
  set (len := zlen n + 2 + zlen v) in *. destruct Hgn as [Hwn Hcn], Hgv as [(v0 & v' & Ev & Hv0) Hnv].
  pose proof (word_zlen n Hwn) as Hzn.
  assert (0 < zlen v) as Hzv by (rewrite Ev, zlen_cons; pose proof (zlen_nonneg v'); lia).
  destruct (findEndOfString_eq c r w b p (n ++ 58 :: 32 :: v) (0 :: q) len (zlen n + 2) v0 Hm) as (e & E5 & He).
  { rewrite Hc, <- app_assoc. reflexivity. }
  { rewrite zlen_app, !zlen_cons. lia. }
  { replace (n ++ 58 :: 32 :: v) with ((n ++ [58; 32]) ++ v0 :: v') by (rewrite Ev, <- app_assoc; reflexivity).
    apply list_lookup_middle. rewrite length_app. unfold zlen. cbn. lia. }
  { lia. }
  { exact Hv0. }
  destruct (store_mid c r w b (p ++ n) 58 (32 :: v ++ 0 :: q) (zlen p + zlen n) 0 Hm) as (b1 & Es & Hm1);
    [rewrite Hc, <- app_assoc; reflexivity | rewrite zlen_app; reflexivity | solve_range |].
  eexists b1, _, _. split; [|split; [|split; [|split]]].
  - unfold FastString.splitHeader. rewrite (reads_mem _ _ _ _ E1), (reads_mem _ _ _ _ E2), (reads_mem _ _ _ _ E3),
      (reads_mem _ _ _ _ E4). cbn [FastString.size]. rewrite (proj2 (Z.eqb_neq _ _)) by lia.
    rewrite (reads_mem _ _ _ _ E5). unfold poke. cbn [FastString.data]. rewrite (bind_ok _ _ _ _ _ Es). reflexivity.
  - rewrite <- app_assoc in Hm1. exact Hm1.
  - unfold FastString.substring. rewrite (proj2 (Z.ltb_lt _ _)) by lia. unfold FastString.empty. cbn. apply Z.eqb_neq. lia.
  - unfold FastString.substring. rewrite (proj2 (Z.ltb_lt _ _)) by lia. cbn [option_map FastString.data].
    apply spelled_intro; [lia | apply word_nul, Hwn].
  - unfold FastString.substring. rewrite (proj2 (Z.ltb_lt _ _)) by lia. cbn [option_map FastString.data].
    replace (p ++ n ++ 0 :: 32 :: v ++ [0]) with ((p ++ n ++ [0; 32]) ++ v ++ [0]) by (app_eq).
    apply spelled_intro; [rewrite !zlen_app; change (zlen [0; 32]) with 2; lia | exact Hnv].
Qed.

(** *** Skipping *)

Lemma runs_readUnsignedByte k v : byte_at (bytes k) (from k) v -> from k < upto k ->
  runs (on_replay ReplayingDecoderBuffer.readUnsignedByte) k (u8 (Z.land v 255)) (with_more false (with_from (from k + 1) k)).
Proof.
  intros Hv Hr s Hs. destruct (runs_readByte k v Hv Hr s Hs) as (s' & E & Hs'). exists s'. split; [|exact Hs'].
  destruct Hs as (b & ck & -> & [Hw Hc Hfr Hto]). pose proof (zlen_queue b Hw) as Hq.
  unfold on_replay, ReplayingDecoderBuffer.readByte, ReplayingDecoderBuffer.readUnsignedByte in *.
  rewrite on_replayable_eq, guarded_readable in * by exact Hw.
  rewrite (proj2 (Z.ltb_ge _ _)) in * by (unfold readerIndex, writerIndex in *; lia).
  unfold ReplayingDecoderBuffer.on_buffer, zoom in *. cbn [ReplayingDecoderBuffer.buffer] in *.
  unfold AbstractChannelBuffer.readUnsignedByte. destruct (AbstractChannelBuffer.readByte b) as [[x|e] b'] eqn:Eb;
    cbn [fst snd] in E; [|discriminate]. rewrite (bind_ok _ _ _ _ _ Eb). injection E as -> <-. reflexivity.
Qed.

Lemma runs_setReaderIndex k i : 0 <= i <= upto k ->
  runs (on_replay (ReplayingDecoderBuffer.setReaderIndex i)) k tt (with_from i k).
Proof.
  intros Hi s (b & ck & -> & [Hw Hc Hfr Hto]). unfold on_replay, ReplayingDecoderBuffer.setReaderIndex.
  rewrite on_replayable_eq. unfold ReplayingDecoderBuffer.on_buffer, zoom. cbn [ReplayingDecoderBuffer.buffer].
  unfold AbstractChannelBuffer.setReaderIndex. rewrite bind_gets. unfold id. rewrite bind_throw_if, Hto.
  rewrite (proj2 (Z.ltb_ge i 0)) by lia. replace (i >? upto k) with false by (symmetry; rewrite Z.gtb_ltb; apply Z.ltb_ge; lia).
  cbn [orb]. unfold AbstractChannelBuffer.upd, modify. cbn [fst snd].
  eexists. split; [reflexivity|]. eexists _, ck. split; [reflexivity|]. destruct Hw as [Hv [Hr Hwr]].
  split; [split; [apply valid_put, Hv|] | rewrite content_put; exact Hc | |].
  - unfold wf_indexes, readerIndex, writerIndex in *. rewrite indexes_put, content_put. cbn in *. lia.
  - unfold readerIndex. rewrite indexes_put. reflexivity.
  - unfold writerIndex. rewrite indexes_put. exact Hto.
Qed.

Lemma unsigned_char v : is_i8 v -> let c := u8 (Z.land v 255) in c = v \/ 128 <= c.
Proof.
  intros Hv. cbv zeta. change 255 with (Z.ones 8). rewrite Z.land_ones by lia. unfold u8.
  rewrite Z.mod_mod by lia. unfold is_signed in Hv. cbn in Hv. change (2 ^ 8) with 256.
  destruct (Z.lt_ge_cases v 0); [right | left]; dlia.
Qed.

Lemma above_plain c : 128 <= c -> Character.isISOControl c = false /\ Character.isWhitespace c = false.
Proof.
  intros Hc. unfold Character.isISOControl, Character.isWhitespace.
  rewrite !(proj2 (Z.leb_gt c _)), !(proj2 (Z.eqb_neq c _)), !andb_false_r by lia. auto.
Qed.

Lemma runs_given {A} (m : DM A) k a k' : (forall s, in_config k s -> runs m k a k') -> runs m k a k'.
Proof. intros Hm s Hs. exact (Hm s Hs s Hs). Qed.

Lemma runs_skip k p v q : position k p (v :: q) -> zlen p < upto k ->
  Character.isISOControl v = false -> Character.isWhitespace v = false ->
  runs decodeSkip k ReplayingDecoder.EMPTY_MESSAGE (with_stateOf 1 (with_more false k)).
Proof.
  intros [Hb Hf] Hu Hc Hw. apply runs_given. intros s0 (b0 & _ & _ & [[Hv0 _] Hb0 _ _]).
  assert (is_i8 v) as Hi.
  { pose proof (content_i8 b0 Hv0) as Hi. rewrite Hb0, Hb in Hi. apply List.Forall_app in Hi as [_ Hi]. inversion Hi. assumption. }
  clear b0 Hv0 Hb0 s0. unfold decodeSkip. rewrite <- Hf in Hu. pose proof (zlen_nonneg p).
  assert (Character.isISOControl (u8 (Z.land v 255)) = false /\ Character.isWhitespace (u8 (Z.land v 255)) = false) as [Hc' Hw'].
  { destruct (unsigned_char v Hi) as [->|Hge]; [auto | apply above_plain, Hge]. }
  assert (runs skipControlCharacters k true (with_more false k)) as Hskip.
  { unfold skipControlCharacters. eapply runs_bind; [apply runs_bytesLeft|]. cbn [skipLoop].
    eapply runs_bind; [apply (runs_readUnsignedByte k v); [rewrite Hb, Hf; apply byte_mid | exact Hu]|].
    eapply runs_bind; [apply runs_needMoreBytes|]. cbn [more with_more]. rewrite Hc', Hw'. cbn [negb andb].
    intros s Hs. pose proof Hs as (b & ck & -> & [_ _ Hr _]). rewrite bind_gets.
    cbn [ReplayingDecoder.replayable]. unfold ReplayingDecoderBuffer.readerIndex. cbn [ReplayingDecoderBuffer.buffer].
    rewrite Hr. cbn [from with_more with_from] in *. replace (from k + 1 - 1) with (from k) by lia.
    destruct (runs_setReaderIndex (with_more false (with_from (from k + 1) k)) (from k) ltac:(cbn; lia) _ Hs) as (s' & E & Hs'). rewrite (bind_ok _ _ _ _ _ E).
    exists s'. split; [reflexivity|]. exact Hs'. }
  eapply runs_bind; [exact Hskip|]. eapply runs_bind; [apply runs_checkpoint | apply runs_ret].
Qed.

End Runs.
(** ** Where the decoder fails *)

Section Failures.
Context {B : Type} {RB : RawBuffer B} {RS : ReadSpec B} {WS : WriteSpec B}.

(** C36: [trim] returns if and only if the string does not start with a blank: its
    first loop moves the pointer forth and back, so that a folded header line,
    which is trimmed because it starts with a blank, keeps the decoder for ever. *)
Theorem trim_terminates (b : B) (newData newSize c : Z) :
  FastString.load b newData = Ok c ->
  (exists fuel, FastString.trimFront fuel b newData newSize <> None) <->
  (FastString.is_blank c = false \/ newSize <= 0).
Proof.
  intros Hl. assert (FastString.is_blank c && (newSize >? 0) = false <-> FastString.is_blank c = false \/ newSize <= 0) as <-.
  { rewrite andb_false_iff, Z.gtb_ltb, Z.ltb_ge. reflexivity. }
  split.
  - intros [fuel Hf]. apply not_true_iff_false. intros Hb. apply Hf. clear Hf.
    induction fuel as [|fuel IH]; [reflexivity|]. cbn [FastString.trimFront]. rewrite Hl, Hb.
    replace (newData + 1 - 1) with newData by lia. exact IH.
  - intros Hb. exists 1%nat. cbn [FastString.trimFront]. rewrite Hl, Hb. discriminate.
Qed.

(** *** Chunk sizes *)

Lemma hex_plain x : Character.isHex x = true ->
  line_char x /\ x <> 0 /\ FastString.is_blank x = false /\
  (x =? 59) || Character.isWhitespace x || Character.isISOControl x = false.
Proof.
  unfold Character.isHex, line_char, FastString.is_blank, Character.isWhitespace, Character.isISOControl. intros H.
  assert (48 <= x <= 57 \/ 65 <= x <= 102) as Hx.
  { repeat (apply orb_true_iff in H as [H|H]); apply andb_true_iff in H as [H1 H2]; zbool; lia. }
  rewrite !(proj2 (Z.eqb_neq x _)) by lia. rewrite (proj2 (Z.leb_gt x 13)), (proj2 (Z.leb_gt x 31)) by lia.
  rewrite !andb_false_r. repeat split; lia || reflexivity.
Qed.

Lemma findFrom_none c r w (b : B) stop p t0 t1 q fuel :
  mem c r w b -> c = p ++ t0 ++ t1 ++ q -> Forall (fun x => stop x = false) t1 -> (List.length t1 <= fuel)%nat ->
  FastString.findFrom fuel stop b (FastString.MkFast (Some (zlen p)) (zlen t0 + zlen t1)) (zlen t0) = Ok (zlen t0 + zlen t1).
Proof.
  intros Hm. revert t0 fuel. induction t1 as [|x t1 IH]; intros t0 fuel Hc Ht Hf.
  - change (@zlen Z []) with 0. rewrite Z.add_0_r. destruct fuel; cbn [FastString.findFrom FastString.size]; rewrite ?Z.ltb_irrefl; reflexivity.
  - destruct fuel as [|fuel]; [cbn in Hf; lia|]. inversion Ht; subst x0 l. cbn [FastString.findFrom FastString.size].
    rewrite zlen_cons. pose proof (zlen_nonneg t0). pose proof (zlen_nonneg t1). rewrite (proj2 (Z.ltb_lt _ _)) by lia.
    erewrite (at_eq c r w b p (t0 ++ x :: t1 ++ q) []); [|exact Hm|rewrite app_nil_r; exact Hc|lia|].
    2:{ apply list_lookup_middle. unfold zlen. lia. }
    cbn [rbind]. replace (stop x) with false by congruence.
    replace (zlen t0 + 1) with (zlen (t0 ++ [x])) by (rewrite zlen_app; reflexivity).
    replace (zlen t0 + (1 + zlen t1)) with (zlen (t0 ++ [x]) + zlen t1) by (rewrite zlen_app; change (zlen [x]) with 1; lia).
    apply IH; [rewrite <- app_assoc; exact Hc | assumption | cbn in Hf; lia].
Qed.

(** [getChunkSize] of the view that [readLine] gives: one char short. *)
Lemma getChunkSize_eq c r w (b : B) p ds x q : mem c r w b -> c = p ++ ds ++ x :: q ->
  Forall (fun x => Character.isHex x = true) (ds ++ [x]) -> p <> [] ->
  exists b', FastString.getChunkSize (FastString.MkFast (Some (zlen p)) (zlen ds)) b = (Integer.parseHex ds, b') /\
    mem (p ++ ds ++ 0 :: q) r w b'.
Proof.
  intros Hm Hc Hx Hp. pose proof (zlen_nonneg ds) as Hz. apply List.Forall_app in Hx as [Hds Hx].
  assert (exists y, FastString.load b (zlen p) = Ok y /\ FastString.is_blank y = false) as (y & Ey & Hy).
  { destruct ds as [|y ds].
    - inversion Hx; subst. exists x. split; [eapply load_byte; [exact Hm | apply byte_mid] | apply hex_plain; assumption].
    - inversion Hds; subst. exists y. split; [eapply load_byte; [exact Hm | apply byte_mid] | apply hex_plain; assumption]. }
  assert (FastString.trimBack (S (Z.to_nat (zlen ds))) b (zlen p) (zlen ds) = Ok (zlen ds)) as Eback.
  { cbn [FastString.trimBack]. destruct (exists_last Hp) as (p' & z & Ep).
    destruct (list_eq_nil_dec ds) as [->|Hne].
    - change (@zlen Z []) with 0. erewrite load_byte; [|exact Hm|].
      + cbn [rbind]. rewrite andb_false_r. reflexivity.
      + rewrite Hc, Ep, <- app_assoc. replace (zlen (p' ++ [z]) + 0 - 1) with (zlen p') by zlens. apply byte_mid.
    - destruct (exists_last Hne) as (ds' & z' & Ed). erewrite load_byte; [|exact Hm|].
      + assert (Character.isHex z' = true) as Hz'.
        { rewrite Ed in Hds. apply List.Forall_app in Hds as [_ Hds]. inversion Hds. assumption. }
        cbn [rbind]. rewrite (proj1 (proj2 (proj2 (hex_plain z' Hz')))). reflexivity.
      + rewrite Hc, Ed. replace (zlen p + zlen (ds' ++ [z']) - 1) with (zlen (p ++ ds')) by zlens.
        replace (p ++ (ds' ++ [z']) ++ x :: q) with ((p ++ ds') ++ z' :: x :: q) by app_eq. apply byte_mid. }
  destruct (store_mid c r w b (p ++ ds) x q (zlen p + zlen ds) 0 Hm) as (b' & Es & Hm');
    [rewrite Hc; app_eq | zlens | solve_range |].
  replace ((p ++ ds) ++ 0 :: q) with (p ++ ds ++ 0 :: q) in Hm' by app_eq.
  exists b'. split; [|exact Hm']. unfold FastString.getChunkSize, FastString.trim. cbn [FastString.data FastString.size].
  rewrite bind_assoc, bind_gets. unfold FastString.trimFuel. cbn [FastString.trimFront]. rewrite Ey, Hy. cbn [andb].
  rewrite bind_assoc, bind_reads, bind_assoc, bind_reads, Eback, bind_assoc, (bind_ok _ _ _ _ _ Es), bind_ret_l, bind_reads.
  assert (FastString.chunkSizeEnd b' (FastString.MkFast (Some (zlen p)) (zlen ds)) = Ok (FastString.MkFast (Some (zlen p)) (zlen ds))) as ->.
  { unfold FastString.chunkSizeEnd, FastString.scan. cbn [FastString.size].
    pose proof (findFrom_none _ r w b' (fun c => (c =? 59) || Character.isWhitespace c || Character.isISOControl c)
      p [] ds (0 :: q) (Z.to_nat (zlen ds - 0)) Hm' eq_refl) as Hscan. change (@zlen Z []) with 0 in Hscan. rewrite Z.add_0_l in Hscan.
    rewrite Hscan; [cbn [rbind]; rewrite Z.ltb_irrefl; reflexivity | | unfold zlen; lia].
    refine (List.Forall_impl _ _ Hds). intros v Hv. apply hex_plain, Hv. }
  rewrite bind_reads.
  assert (spells (p ++ ds ++ 0 :: q) (FastString.MkFast (Some (zlen p)) (zlen ds)) ds) as Hsp.
  { exists p, q. split; [reflexivity|]. split; [reflexivity|]. refine (List.Forall_impl _ _ Hds). intros v Hv. apply hex_plain, Hv. }
  rewrite (c_str_eq _ r w b' _ _ Hm' Hsp). reflexivity.
Qed.

End Failures.

Section ChunkSize.
Context {B V H : Type} {RB : RawBuffer B} {RS : ReadSpec B} {WS : WriteSpec B} {WB : WriteBuffer B}
  {SB : SliceBuffer B V} {HH : HttpHeader.HttpHeader H} {CV : Content (option V)} {SA : StringAlgorithms}.
Import HttpMessageDecoder.

(** The decoder takes the size of a chunk without its last digit: the size of a
    line of one digit, that of the last chunk among them, makes it throw, and a
    longer one is read as a sixteenth of what was sent. *)
Theorem chunk_size_loses_digit (k : config (V := V) (H := H)) s (p : list Z) (ds : text) (x : Z) (q : list Z) :
  in_config k s -> position k p (ds ++ x :: 13 :: 10 :: q) ->
  Forall (fun x => Character.isHex x = true) (ds ++ [x]) -> p <> [] ->
  zlen p + zlen ds + 3 <= upto k -> zlen ds < maxInitialLineLength (dec k) ->
  match Integer.parseHex ds with
  | Ok n => exists s', decodeChunkSize (B := B) s = (Ok ReplayingDecoder.EMPTY_MESSAGE, s') /\
      chunkSize (ReplayingDecoder.decoder s') = n
  | Err e => fst (decodeChunkSize (B := B) s) = Err e
  end.
Proof.
  intros Hs [Hb Hf] Hx Hp Hu Hmax. pose proof (zlen_nonneg ds) as Hz.
  assert (zlen (ds ++ [x]) = zlen ds + 1) as Hzl by (rewrite zlen_app; reflexivity).
  assert (Forall line_char (ds ++ [x])) as Hline by (refine (List.Forall_impl _ _ Hx); intros v Hv; apply hex_plain, Hv).
  destruct (runs_readLine k p (ds ++ [x]) q (maxInitialLineLength (dec k))) with (s := s) as (s1 & E1 & Hs1);
    [split; [rewrite Hb; app_eq | exact Hf] | exact Hline | lia | lia | exact Hs |].
  rewrite Hzl in E1. replace (zlen ds + 1 - 1) with (zlen ds) in E1 by lia.
  unfold decodeChunkSize. destruct (runs_getD maxInitialLineLength k s Hs) as (s0 & E0 & Hs0).
  assert (s0 = s) as -> by (unfold getD, gets in E0; congruence).
  rewrite (bind_ok _ _ _ _ _ E0), (bind_ok _ _ _ _ _ E1).
  destruct Hs1 as (b & ck & -> & Hm).
  erewrite bind_ok by reflexivity. cbn [ReplayingDecoder.replayable ReplayingDecoderBuffer.needMoreBytes ReplayingDecoderBuffer.needMore more with_bytes step with_more].
  destruct (getChunkSize_eq _ _ _ b p ds x (0 :: 10 :: q) Hm) as (b' & E2 & Hm'); [cbn; app_eq | exact Hx | exact Hp |].
  assert (forall d n st ck l, on_array (V := V) (H := H) (FastString.getChunkSize (FastString.MkFast (Some (zlen p)) (zlen ds)))
    (ReplayingDecoder.MkD d (MkReplay b n false) true st ck l) =
    (Integer.parseHex ds, ReplayingDecoder.MkD d (MkReplay b' n false) true st ck l)) as E3.
  { intros. unfold on_array, ReplayingDecoder.on_cumulation, zoom, ReplayingDecoder.cumulation.
    cbn [ReplayingDecoder.replayable ReplayingDecoderBuffer.buffer]. rewrite E2. reflexivity. }
  destruct (Integer.parseHex ds) as [n|e].
  - rewrite (bind_ok _ _ _ _ _ (E3 _ _ _ _ _)). eexists. split; reflexivity.
  - rewrite (bind_err _ _ _ _ _ (E3 _ _ _ _ _)). reflexivity.
Qed.
End ChunkSize.

(** ** The aggregator *)

Section Aggregator.
Context {B H : Type} {HH : HttpHeader.HttpHeader H} {CB : Content B} {SA : StringAlgorithms}.
Context (dynamicBuffer : result B) (writeBytes : B -> M B unit).
Import HttpMessageDecoder (output, OutMessage, OutChunk).
Import HttpChunkAggregator.

(** The events of a connection; what an event throws is not seen by the next. *)
Fixpoint receiveEvents (es : list (output H B)) (s : t B H) : t B H :=
  match es with
  | [] => s
  | e :: es => receiveEvents es (snd (messageReceived dynamicBuffer writeBytes e s))
  end.

(** The messages that are complete when they arrive. *)
Definition complete (e : output H B) : bool :=
  match e with
  | OutMessage m => is_ok (fst (HttpHeaders.is100ContinueExpected m)) &&
      match fst (HttpMessage.isChunked m) with Ok chunked => negb chunked | Err _ => false end
  | OutChunk _ => false
  end.

Lemma on_current_upstream {A} (op : M (HttpMessage.t H B) A) s : upstream (snd (on_current op s)) = upstream s.
Proof. unfold on_current. destruct (currentMessage s); [destruct (op _)|]; reflexivity. Qed.

(** The message is gone when its headers are to be set. *)
Lemma finish_upstream (c : HttpChunk.t H B) content s : upstream (snd (finish c content s)) = upstream s.
Proof.
  unfold finish, setCurrent. rewrite bind_modify. cbn [upstream].
  set (s0 := MkAggregator (maxContentLength s) None (upstream s)). change (upstream s) with (upstream s0).
  assert (forall A (op : M (HttpMessage.t H B) A), on_current op s0 = (Err Undefined, s0)) as Hnull by reflexivity.
  assert (forall l, setAll l s0 = (Ok tt, s0) \/ setAll l s0 = (Err Undefined, s0)) as Hall.
  { intros [|[n v] l]; [left; reflexivity|]. right. cbn [setAll]. apply bind_err. apply Hnull. }
  assert (forall (m : M (t B H) unit) (f : unit -> M (t B H) unit),
    m s0 = (Ok tt, s0) \/ (exists e, m s0 = (Err e, s0)) ->
    (forall a, f a = (on_current (HttpMessage.setHeader Names.CONTENT_LENGTH
        (Integer.toString match content with Some b => content_length b | None => 0 end)) ;!
      let! m := on_current (gets id) in sendUpstream (OutMessage m))) ->
    upstream (snd (bind m f s0)) = upstream s0) as Hseq.
  { intros m f [E|[e E]] Hfa; [|rewrite (bind_err _ _ _ _ _ E); reflexivity].
    rewrite (bind_ok _ _ _ _ _ E), Hfa. erewrite bind_err; [|apply Hnull]. reflexivity. }
  apply Hseq; [|reflexivity]. destruct c as [b last|h|]; [left; reflexivity| |].
  - rewrite bind_reads. destruct (HttpChunk.headers _) as [l|e]; [|right; exists e; reflexivity].
    destruct (Hall l) as [E|E]; [left | right; exists Undefined]; exact E.
  - rewrite bind_reads. destruct (HttpChunk.headers _) as [l|e]; [|right; exists e; reflexivity].
    destruct (Hall l) as [E|E]; [left | right; exists Undefined]; exact E.
Qed.

Lemma chunk_upstream (c : HttpChunk.t H B) s : upstream (snd (receiveChunk writeBytes c s)) = upstream s.
Proof.
  unfold receiveChunk. rewrite bind_gets. unfold id. destruct (currentMessage s) as [m|] eqn:Em; [|reflexivity].
  rewrite bind_reads. destruct (match HttpMessage.content m with Some b => _ | None => _ end) as [n|e]; [|reflexivity].
  rewrite bind_throw_if. destruct (n >? _); [reflexivity|].
  destruct (on_current (writeContent writeBytes c) s) as [[[]|e] s1] eqn:E1.
  - pose proof (on_current_upstream (writeContent writeBytes c) s) as Hu. rewrite E1 in Hu. cbn [snd] in Hu.
    rewrite (bind_ok _ _ _ _ _ E1). destruct (HttpChunk.isLast c); [|exact Hu].
    pose proof (on_current_upstream (gets id) s1) as Hu1.
    destruct (on_current (gets id) s1) as [[m1|e] s2] eqn:E2; cbn [snd] in Hu1.
    + rewrite (bind_ok _ _ _ _ _ E2), finish_upstream. congruence.
    + rewrite (bind_err _ _ _ _ _ E2). cbn [snd]. congruence.
  - pose proof (on_current_upstream (writeContent writeBytes c) s) as Hu. rewrite E1 in Hu.
    rewrite (bind_err _ _ _ _ _ E1). exact Hu.
Qed.

(** the aggregator never delivers a message that it put together: whatever
    arrives, it passes on the messages that were not chunked in the first place,
    as they are, and nothing else, since it lets go of the message before it
    completes it. *)
Theorem aggregator_passes_unchunked (es : list (output H B)) (s : t B H) :
  upstream (receiveEvents es s) = upstream s ++ List.filter complete es.
Proof.
  revert s. induction es as [|e es IH]; intros s; cbn [receiveEvents List.filter]; [rewrite app_nil_r; reflexivity|].
  rewrite IH. destruct e as [m|c].
  - cbn [messageReceived complete]. unfold receiveMessage. rewrite bind_reads.
    destruct (fst (HttpHeaders.is100ContinueExpected m)) as [b|e]; [|reflexivity]. cbn [is_ok andb].
    rewrite bind_reads. destruct (fst (HttpMessage.isChunked m)) as [[]|e]; cbn [negb]; [| |reflexivity].
    + rewrite bind_reads. destruct (let '(r, m) := startMessage dynamicBuffer m in let? _ := r in Ok m); reflexivity.
    + cbn. rewrite <- app_assoc. reflexivity.
  - cbn [messageReceived complete]. rewrite chunk_upstream. reflexivity.
Qed.
End Aggregator.

(** ** Concrete connections

    Messages in heap buffers, the cumulation a dynamic buffer over heap buffers, a
    slice the bytes of its region. *)

Section Witnesses.
#[local] Existing Instance cLocale.
#[local] Existing Instance zeroAllocator.
Abbreviation heap := HeapChannelBuffer.t.
Abbreviation dyn := (DynamicChannelBuffer.t HeapChannelBuffer.t).

#[local] Instance region_content : Content (option (list Z)) := {|
  content_readable v := match v with Some v => negb (is_empty v) | None => false end;
  content_length v := match v with Some v => zlen v | None => 0 end;
  EMPTY_CONTENT := None;
|}.
#[local] Instance region_slices : SliceBuffer dyn (list Z) := {|
  slice b i n := let? bs := bytes_at (Buffer.content b) i n in Ok bs
|}.

Abbreviation big := (heap_of BYTE_ORDER_BIG).
Abbreviation dec0 := (HttpMessageDecoder.newDefault (V := list Z) DefaultHttpHeader.new true).

Lemma trim_terminates_witness :
  FastString.load (big [32; 97]) 0 = Ok 32 /\
  ((exists fuel, FastString.trimFront fuel (big [32; 97]) 0 2 <> None) <-> (FastString.is_blank 32 = false \/ 2 <= 0)).
Proof. split; [reflexivity | apply (trim_terminates (big [32; 97]) 0 2 32); reflexivity]. Defined.

(** A cumulation in the state for chunk sizes that starts with an old byte. *)
Definition chunk_line : config (V := list Z) (H := DefaultHttpHeader.t) :=
  Config (str "x1a" ++ [13; 10]) 1 5 dec0 7 false [].

Lemma chunk_size_loses_digit_witness :
  exists s s', in_config (B := heap) chunk_line s /\
    HttpMessageDecoder.decodeChunkSize (B := heap) s = (Ok ReplayingDecoder.EMPTY_MESSAGE, s') /\
    HttpMessageDecoder.chunkSize (ReplayingDecoder.decoder s') = 1.
Proof.
  set (b := HeapChannelBuffer.MkHeap BYTE_ORDER_BIG (MkIndexes 1 5 0 0) true (Array.Data (str "x1a" ++ [13; 10]))).
  set (s := ReplayingDecoder.MkD dec0 (MkReplay b false false) true 7 (-1) [] :
    ReplayingDecoder.dstate _ heap (HttpMessageDecoder.output DefaultHttpHeader.t (option (list Z)))).
  assert (in_config (B := heap) chunk_line s) as Hs.
  { exists b, (-1). split; [reflexivity|]. split; try reflexivity.
    apply heap_wf; [change (Forall is_i8 [120; 49; 97; 13; 10]); repeat (apply List.Forall_cons; [solve_range|]); apply List.Forall_nil
      | discriminate | vm_compute; intuition discriminate | discriminate]. }
  destruct (chunk_size_loses_digit (B := heap) chunk_line s (str "x") (str "1") 97 [] Hs) as (s' & E & Hn);
    [split; reflexivity | repeat constructor | discriminate | vm_compute; discriminate | reflexivity |].
  exists s, s'. split; [exact Hs | split; [exact E | exact Hn]].
Defined.

End Witnesses.
