(* ===== verification/HttpRequestProperties.v ===== *)
(** * Requests from end to end

    Requests that are encoded, cut into segments and decoded again arrive as they
    were; and the connections on which the decoder fails. *)

From Stdlib Require Import Strings.String.
From S2P Require Import Prelude MachineInt Buffer AbstractBuffer BufferTheory HeapBuffer DynamicBuffer BufferUtil.
From S2P Require Import FrameDecoders FrameProperties Replay ReplayProperties DerivedBuffers.
From S2P Require Import Text HttpHeader HttpHeaderProperties HttpMessage HttpMessageProperties HttpDecoder HttpDecoderProperties.

Import AbstractChannelBuffer (readerIndex, writerIndex).


(** ** Requests *)

(** The bytes of a content: the shared empty buffer has none. *)
Definition content_bytes {V : Type} (view_bytes : V -> list Z) (c : option V) : list Z :=
  match c with Some v => view_bytes v | None => [] end.

Section Requests.
Context {B V : Type} {RB : RawBuffer B} {RS : ReadSpec B} {WS : WriteSpec B} {WB : WriteBuffer B}
  {SB : SliceBuffer B V} {CV : Content (option V)} {SA : StringAlgorithms}.
Context (view_bytes : V -> list Z) {SS : SliceSpec B V view_bytes}.
Import HttpMessageDecoder.
Import HttpHeaderProperties (stands).
Import FastString (MkFast).
Abbreviation H := DefaultHttpHeader.t.
Abbreviation decoder := (HttpMessageDecoder.t H V).
Abbreviation F := (output H (option V)).
Abbreviation config := (@config V H).
Abbreviation message := (HttpMessage.t H (option V)).

(** What the operations on lines and headers leave as it is. *)
Record same (k k' : config) : Prop := MkSame {
  same_upto : upto k' = upto k;
  same_state : stateOf k' = stateOf k;
  same_out : out k' = out k;
  same_line : maxInitialLineLength (dec k') = maxInitialLineLength (dec k);
  same_header : maxHeaderSize (dec k') = maxHeaderSize (dec k);
  same_chunk : maxChunkSize (dec k') = maxChunkSize (dec k);
  same_pointed : pointed (dec k') = pointed (dec k);
  same_content : content (dec k') = content (dec k);
}.

Lemma config_same_refl k : same k k.
Proof. split; reflexivity. Qed.

Lemma config_same_trans k1 k2 k3 : same k1 k2 -> same k2 k3 -> same k1 k3.
Proof. intros [] []. split; congruence. Qed.

(** The limits of a decoder. *)
Definition limits (d : decoder) : Z * Z * Z := (maxInitialLineLength d, maxHeaderSize d, maxChunkSize d).

Lemma same_limits k k' : same k k' -> limits (dec k') = limits (dec k).
Proof. intros []. unfold limits. congruence. Qed.

(** The message that is being decoded, with the headers it has. *)
Definition has_headers (k : config) (o : message) (l : Multimap.t) : Prop :=
  exists h, object (dec k) = Some (HttpMessage.with_header h o) /\ stands h l.

Definition good_header (x : text * text) : Prop :=
  good_name (fst x) /\ good_value (snd x) /\ Forall line_char (snd x) /\ Multimap.validated (fst x) (snd x) = Ok tt.

(** The header that was read but not added yet. *)
Definition collected (p : list Z) (name value : FastString.t) (x : option (text * text)) : Prop :=
  match x with
  | None => FastString.empty name = true
  | Some (n, v) => FastString.empty name = false /\ spelled p name n /\ spelled p value v /\
      Multimap.validated n v = Ok tt
  end.
Definition pending (x : option (text * text)) : list (text * text) := match x with Some x => [x] | None => [] end.

(** The header was added; nothing else changed. *)
Record added (k k' : config) (o : message) (l : Multimap.t) : Prop := MkAdded {
  added_same : same k k';
  added_bytes : bytes k' = bytes k;
  added_from : from k' = from k;
  added_more : more k' = more k;
  added_size : headerSize (dec k') = headerSize (dec k);
  added_headers : has_headers k' o l;
}.

Lemma added_trans k1 k2 k3 o l l' : added k1 k2 o l -> added k2 k3 o l' -> added k1 k3 o l'.
Proof. intros [] []. split; [eapply config_same_trans; eassumption | congruence | congruence | congruence | congruence | assumption]. Qed.

Lemma leads_addCollected (k : config) p q name value x o l :
  bytes k = p ++ q -> collected p name value x -> pointed (dec k) = true -> has_headers k o l ->
  leads (addCollected name value []) k (fun _ k' => added k k' o (l ++ pending x)).
Proof.
  intros Hb Hx Hp (h & Ho & Hs). unfold addCollected. destruct x as [[n v]|]; cbn [collected pending] in *.
  - destruct Hx as (-> & Hn & Hv & Hval). cbn [is_empty].
    destruct (on_header_eq _ _ (HttpMessage.with_header h o) l (simulates_add n v) Hs) as (h' & E & Hs').
    assert (Multimap.add n v l = (Ok tt, l ++ [(n, v)])) as Ea.
    { unfold Multimap.add. rewrite bind_reads, Hval. reflexivity. }
    rewrite Ea in E, Hs'. unfold addHeader.
    eapply leads_run; [apply runs_of_array; intros b Hm; eapply c_str_eq; [exact Hm | rewrite Hb; apply Hn]|].
    eapply leads_run; [apply runs_of_array; intros b Hm; eapply c_str_eq; [exact Hm | rewrite Hb; apply Hv]|].
    eapply runs_leads; [eapply runs_on_message; [exact Hp | exact Ho | exact E]|].
    split; try reflexivity; [split; reflexivity|]. exists h'. split; [reflexivity | exact Hs'].
  - rewrite Hx. eapply runs_leads; [apply runs_ret|]. rewrite app_nil_r.
    split; try reflexivity; [split; reflexivity|]. exists h. auto.
Qed.

Lemma header_line_app n v rest : header_line (n, v) ++ rest = (n ++ 58 :: 32 :: v) ++ 13 :: 10 :: rest.
Proof. unfold header_line, line. cbn [fst snd]. app_eq. Qed.

Lemma zlen_header_line n v : zlen (header_line (n, v)) = zlen n + 4 + zlen v.
Proof. unfold header_line, line. cbn [fst snd]. rewrite !zlen_app. change (zlen [58]) with 1. change (zlen [32]) with 1. change (zlen [13]) with 1. change (zlen [10]) with 1. lia. Qed.

Lemma space_line c : Character.isWhitespace c = false -> line_char c.
Proof.
  unfold Character.isWhitespace, line_char. intros H. apply orb_false_iff in H as [H _].
  apply andb_false_iff in H. destruct H; zbool; lia.
Qed.

Lemma good_plain n v : good_header (n, v) -> Forall line_char (n ++ 58 :: 32 :: v).
Proof.
  intros ((Hn & _) & _ & Hv & _). apply List.Forall_app. split.
  - refine (List.Forall_impl _ _ (word_plain n Hn)). exact space_line.
  - repeat constructor; try discriminate; exact Hv.
Qed.

(** The next line was read. *)
Definition line_read (k : config) (p : list Z) (l q : text) : Prop :=
  bytes k = p ++ l ++ 0 :: 10 :: q /\ from k = zlen p + zlen l + 2 /\ more k = false.

Lemma leads_next_line (k : config) p l q : bytes k = p ++ l ++ 13 :: 10 :: q -> from k = zlen p -> Forall line_char l ->
  zlen p + zlen l + 2 <= upto k -> headerSize (dec k) + zlen l < maxHeaderSize (dec k) ->
  leads readHeader k (fun s k' => s = MkFast (Some (zlen p)) (zlen l) /\ same k k' /\ line_read k' p l q /\
    object (dec k') = object (dec k) /\ headerSize (dec k') = headerSize (dec k) + zlen l + 2).
Proof.
  intros Hb Hf Hl Hu Hm. eapply runs_leads; [apply (runs_readHeader k p l q); [split; assumption | exact Hl | lia | exact Hm]|].
  split; [reflexivity|]. split; [split; reflexivity|]. split; [|split; reflexivity]. split; [reflexivity|]. split; [|reflexivity].
  cbn. rewrite !zlen_app. change (zlen [13; 10]) with 2. lia.
Qed.

Lemma headersLoop_end fuel line name value multi : FastString.length line = 0 ->
  headersLoop (B := B) (V := V) (H := H) fuel line name value multi = (addCollected name value multi ;! ret true).
Proof. intros E. destruct fuel; cbn [headersLoop]; rewrite E; reflexivity. Qed.

(** The lines of the headers and the empty line. *)
Definition lines (hs : list (text * text)) : text := concat (map header_line hs) ++ [13; 10].

(** A header line is split after the header before it was added. *)
Lemma leads_split (k : config) p n v q name value x o l :
  bytes k = p ++ n ++ 58 :: 32 :: v ++ 0 :: 10 :: q -> good_header (n, v) -> collected p name value x ->
  pointed (dec k) = true -> has_headers k o l ->
  let p' := p ++ n ++ 0 :: 32 :: v ++ [0; 10] in
  leads (addCollected name value [] ;!
         let! r := on_array (FastString.splitHeader (MkFast (Some (zlen p)) (zlen n + 2 + zlen v))) in
         let '(name, value) := r in ret (name, value, []))
    k (fun r k' => exists name' value', r = (name', value', [] : text) /\ collected p' name' value' (Some (n, v)) /\
      added k (with_bytes (bytes k) k') o (l ++ pending x) /\ bytes k' = p' ++ q).
Proof.
  intros Hb Hg Hx Hp Ho p'. destruct Hg as (Hn & Hv & _ & Hval). cbn [fst snd] in *.
  eapply leads_bind; [apply (leads_addCollected k p _ name value x o l Hb Hx Hp Ho)|]. intros _ k1 [S1 Hb1 Hf1 Hm1 Hh1 Ho1].
  eapply leads_bind with (Q := fun r k' => FastString.empty (fst r) = false /\
    spelled (p ++ n ++ 0 :: 32 :: v ++ [0]) (fst r) n /\ spelled (p ++ n ++ 0 :: 32 :: v ++ [0]) (snd r) v /\
    k' = with_bytes (p' ++ q) k1).
  { apply leads_on_array. intros b Hmem. rewrite Hb1, Hb in Hmem.
    destruct (splitHeader_eq (B := B) _ _ _ b p n v (10 :: q) Hmem eq_refl Hn Hv) as (b' & s1 & s2 & E & Hm' & He & Hs1 & Hs2).
    exists (s1, s2), (p' ++ q), b'. split; [exact E|]. split; [|auto].
    unfold p'. replace ((p ++ n ++ 0 :: 32 :: v ++ [0; 10]) ++ q) with (p ++ n ++ 0 :: 32 :: v ++ 0 :: 10 :: q); [exact Hm'|].
    app_eq. }
  intros [s1 s2] k2 (He & Hs1 & Hs2 & ->). eapply runs_leads; [apply runs_ret|].
  exists s1, s2. split; [reflexivity|]. split; [|split; [|reflexivity]].
  - assert (p' = (p ++ n ++ 0 :: 32 :: v ++ [0]) ++ [10]) as ->.
    { unfold p'. app_eq. }
    split; [exact He|]. split; [apply spelled_app, Hs1|]. split; [apply spelled_app, Hs2 | exact Hval].
  - destruct S1. split; try assumption; try reflexivity. split; assumption.
Qed.

Lemma lines_cons x hs : lines (x :: hs) = header_line x ++ lines hs.
Proof. unfold lines. cbn [map concat]. app_eq. Qed.

Lemma zlen_lines hs : 2 <= zlen (lines hs).
Proof. unfold lines. rewrite zlen_app. change (zlen [13; 10]) with 2. pose proof (zlen_nonneg (concat (map header_line hs))). lia. Qed.

Lemma zlen_headers hs : zlen hs <= zlen (lines hs).
Proof.
  induction hs as [|[n v] hs IH]; [discriminate|].
  rewrite lines_cons, zlen_app, zlen_cons, zlen_header_line. pose proof (zlen_nonneg n). pose proof (zlen_nonneg v). lia.
Qed.

(** What is left behind the headers. *)
Record headers_read (k k' : config) (o : message) (l : Multimap.t) (n : Z) (q : text) : Prop := MkHeadersRead {
  read_same : same k k';
  read_bytes : exists p', bytes k' = p' ++ q /\ from k' = zlen p' /\ zlen p' = n;
  read_more : more k' = false;
  read_headers : has_headers k' o l;
}.

Lemma has_headers_object (k k' : config) o l : object (dec k') = object (dec k) -> has_headers k o l -> has_headers k' o l.
Proof. intros E (h & Ho & Hs). exists h. rewrite E. auto. Qed.

(** A turn of the loop: the header before is added, the line is split, and the
    next line is read. *)
Lemma leads_header_turn (k : config) p n v rest name value x o l fuel Q :
  line_read k p (n ++ 58 :: 32 :: v) rest -> good_header (n, v) -> collected p name value x ->
  pointed (dec k) = true -> has_headers k o l ->
  (forall k1 p' s1 s2, collected p' s1 s2 (Some (n, v)) -> added k (with_bytes (bytes k) k1) o (l ++ pending x) ->
    bytes k1 = p' ++ rest -> zlen p' = from k ->
    leads (let! line := readHeader in let! more := needMoreBytes in
           if more : bool then ret false else headersLoop fuel line s1 s2 []) k1 Q) ->
  leads (headersLoop (S fuel) (MkFast (Some (zlen p)) (zlen (n ++ 58 :: 32 :: v))) name value []) k Q.
Proof.
  intros (Hb & Hf & _) Hg Hx Hp Ho HQ. cbn [headersLoop]. cbn [FastString.length FastString.size].
  assert (zlen (n ++ 58 :: 32 :: v) = zlen n + 2 + zlen v) as Hlen by (rewrite zlen_app, !zlen_cons; lia).
  pose proof (zlen_nonneg n) as Hzn. pose proof (zlen_nonneg v) as Hzv. rewrite Hlen in *.
  rewrite (proj2 (Z.eqb_neq (zlen n + 2 + zlen v) 0)) by lia. rewrite <- app_assoc in Hb. cbn [app] in Hb.
  destruct (word_cases n (proj1 (proj1 Hg))) as (n0 & n' & En & Hn0).
  eapply leads_run;
    [apply runs_of_array; intros b Hmem; eapply (at_eq _ _ _ b p n); [exact Hmem | exact Hb | lia | rewrite En; reflexivity]|].
  assert (FastString.is_blank n0 = false) as ->.
  { unfold FastString.is_blank. unfold Character.isWhitespace in Hn0. apply orb_false_iff in Hn0 as [Hn1 Hn2].
    rewrite Hn2. apply andb_false_iff in Hn1. apply Z.eqb_neq. destruct Hn1; zbool; lia. }
  rewrite andb_false_r. eapply leads_bind; [apply (leads_split k p n v _ name value x o l Hb Hg Hx Hp Ho)|].
  intros r k1 (s1 & s2 & -> & Hc & Ha & Hb1). cbv iota.
  apply (HQ k1 _ s1 s2 Hc Ha Hb1). rewrite !zlen_app, !zlen_cons, zlen_app. change (zlen [0; 10]) with 2. lia.
Qed.

Lemma leads_headersLoop hs : forall (k : config) p n v q name value x o l fuel,
  line_read k p (n ++ 58 :: 32 :: v) (lines hs ++ q) -> good_header (n, v) -> Forall good_header hs ->
  collected p name value x -> pointed (dec k) = true -> has_headers k o l ->
  from k + zlen (lines hs) <= upto k -> headerSize (dec k) + zlen (lines hs) < maxHeaderSize (dec k) + 2 ->
  (List.length hs < fuel)%nat ->
  leads (headersLoop fuel (MkFast (Some (zlen p)) (zlen (n ++ 58 :: 32 :: v))) name value []) k
    (fun r k' => r = true /\ headers_read k k' o (l ++ pending x ++ (n, v) :: hs) (from k + zlen (lines hs)) q).
Proof.
  induction hs as [|[n2 v2] hs IH]; intros k p n v q name value x o l fuel Hline Hg Hgs Hx Hp Ho Hu Hm Hfuel;
    (destruct fuel as [|fuel]; [cbn in Hfuel; lia|]); apply (leads_header_turn k p n v _ name value x o l fuel _ Hline Hg Hx Hp Ho);
    intros k1 p' s1 s2 Hc [[S1 S2 S3 S4 S5 S6 S7 S8] _ Hf1 Hm1 Hh1 Ho1] Hb1 Hzp'; cbn in S1, S2, S3, S4, S5, S6, S7, S8, Hf1, Hm1, Hh1.
  - (* the empty line *)
    change (zlen (lines [])) with 2 in *. change (lines [] ++ q) with ([] ++ 13 :: 10 :: q) in Hb1.
    eapply leads_bind.
    { apply (leads_next_line k1 p' [] q); [exact Hb1 | lia | apply List.Forall_nil | change (@zlen Z []) with 0; lia
      | change (@zlen Z []) with 0; lia]. }
    change (@zlen Z []) with 0. intros s k2 (-> & S12 & (Hb2 & Hf2 & Hm2) & Hob & Hh2).
    eapply leads_run; [apply runs_needMoreBytes|]. rewrite Hm2. cbv iota. rewrite headersLoop_end by reflexivity.
    eapply leads_bind.
    { eapply (leads_addCollected k2 p' _ s1 s2 (Some (n, v)) o (l ++ pending x)); [exact Hb2 | exact Hc | destruct S12; congruence
      | apply (has_headers_object k1); [exact Hob | exact Ho1]]. }
    intros _ k3 [S23 Hb3 Hf3 Hm3 _ Ho3]. eapply runs_leads; [apply runs_ret|]. split; [reflexivity|].
    rewrite <- app_assoc in Ho3. split; [|exists (p' ++ [0; 10])|congruence|exact Ho3].
    + eapply config_same_trans; [|eapply config_same_trans; [exact S12 | exact S23]]. split; assumption.
    + rewrite Hb3, Hb2, zlen_app, <- app_assoc. change (zlen [0; 10]) with 2.
      change (@zlen Z []) with 0 in Hf2. split; [reflexivity|]. lia.
  - apply List.Forall_cons_iff in Hgs as [Hg2 Hgs'].
    assert (lines ((n2, v2) :: hs) ++ q = (n2 ++ 58 :: 32 :: v2) ++ 13 :: 10 :: (lines hs ++ q)) as El.
    { rewrite lines_cons, <- app_assoc. apply header_line_app. }
    assert (zlen (lines ((n2, v2) :: hs)) = zlen (n2 ++ 58 :: 32 :: v2) + 2 + zlen (lines hs)) as Ez.
    { rewrite lines_cons, zlen_app, zlen_header_line, (zlen_app n2), !zlen_cons. lia. }
    rewrite El in Hb1. rewrite Ez in *. pose proof (zlen_nonneg (lines hs)).
    eapply leads_bind.
    { apply (leads_next_line k1 p' _ _ Hb1); [lia | apply good_plain, Hg2 | lia | ]. rewrite Hh1, S5.
      pose proof (zlen_lines hs). lia. }
    intros s k2 (-> & S12 & Hl2 & Hob & Hh2). pose proof Hl2 as (_ & Hf2 & Hm2).
    eapply leads_run; [apply runs_needMoreBytes|]. rewrite Hm2. cbv iota.
    assert (same k k2) as S02 by (eapply config_same_trans; [split; eassumption | exact S12]).
    eapply leads_weaken.
    { apply (IH k2 p' n2 v2 q s1 s2 (Some (n, v)) o (l ++ pending x) fuel Hl2 Hg2 Hgs' Hc); [destruct S02; congruence
      | apply (has_headers_object k1); [exact Hob | exact Ho1] | destruct S02; lia | destruct S02; lia | cbn in Hfuel; lia]. }
    intros r k3 [-> [S23 Hp3 Hm3 Ho3]]. split; [reflexivity|]. split; [eapply config_same_trans; eassumption | | exact Hm3|].
    + destruct Hp3 as (p3 & Hb3 & Hf3 & Hz3). exists p3. split; [exact Hb3|]. split; [exact Hf3|]. lia.
    + cbn [pending app] in Ho3. rewrite <- app_assoc in Ho3. exact Ho3.
Qed.

(** *** Requests as they are encoded *)

Record request := MkRequest {
  rmethod : HttpMethod.t;
  ruri : text;
  rversion : HttpVersion.t;
  rheaders : list (text * text);
  rcontent : text;
}.

Definition rkind (r : request) : HttpMessage.kind := HttpMessage.Request (rmethod r) (ruri r).

(** What [HttpRequestEncoder] writes for a request, and its content. *)
Definition request_text (r : request) : text := head_text (rkind r) (rversion r) (rheaders r) ++ rcontent r.

(** The requests that arrive as they were sent: the method, the URI and the
    version are words that read back, the headers have values, the lines and the
    content fit the limits of the decoder, and the headers announce the content. *)
Record good_request (d : decoder) (r : request) : Prop := MkGood {
  good_method : (word (HttpMethod.name (rmethod r)) /\
      Forall (fun c => Character.isISOControl c = false) (HttpMethod.name (rmethod r))) /\
    HttpMethod.valueOf (HttpMethod.name (rmethod r)) = Ok (rmethod r);
  good_uri : word (ruri r);
  good_version : word (HttpVersion.versionText (rversion r)) /\ 1 < zlen (HttpVersion.versionText (rversion r)) /\
    HttpVersion.valueOf (HttpVersion.versionText (rversion r)) = Ok (rversion r);
  good_headers : Forall good_header (rheaders r);
  good_line : zlen (first_line (rkind r) (rversion r)) <= maxInitialLineLength d + 2;
  good_size : zlen (lines (rheaders r)) < maxHeaderSize d;
  good_length :
    if is_empty (Multimap.get Names.CONTENT_LENGTH (rheaders r))
    then rcontent r = [] /\ Multimap.get Names.SEC_WEBSOCKET_KEY1 (rheaders r) = []
    else Integer.parse (Multimap.get Names.CONTENT_LENGTH (rheaders r)) = Ok (zlen (rcontent r));
  good_content : zlen (rcontent r) <= maxChunkSize d;
  good_expect : rcontent r = [] \/ Multimap.get Names.EXPECT (rheaders r) = [];
  good_encoding : existsb (iequals Values.CHUNKED) (Multimap.values Names.TRANSFER_ENCODING (rheaders r)) = false;
}.

(** The message is the request, its headers aside. *)
Definition carries (r : request) (o : message) : Prop :=
  HttpMessage.chunked o = false /\ HttpMessage.version o = rversion r /\ HttpMessage.what o = rkind r.

(** *** What the decoder asks of the message *)

Lemma leads_query {A} (op : M message A) (a : A) (k : config) o l :
  (forall h, stands h l -> exists h', op (HttpMessage.with_header h o) = (Ok a, HttpMessage.with_header h' o) /\ stands h' l) ->
  pointed (dec k) = true -> has_headers k o l ->
  leads (on_message op) k (fun x k' => x = a /\ added k k' o l).
Proof.
  intros Hop Hp (h & Ho & Hs). destruct (Hop h Hs) as (h' & E & Hs').
  eapply runs_leads; [eapply runs_on_message; [exact Hp | exact Ho | exact E]|]. split; [reflexivity|].
  split; try reflexivity; [split; reflexivity|]. exists h'. split; [reflexivity | exact Hs'].
Qed.

(** A getter of the table. *)
Lemma getter {A} (op : M H A) (f : Multimap.t -> A) (o : message) h l :
  simulates op (Prelude.gets f) -> stands h l ->
  exists h', HttpMessage.on_header op (HttpMessage.with_header h o) = (Ok (f l), HttpMessage.with_header h' o) /\ stands h' l.
Proof. intros Hop Hs. exact (on_header_eq op _ (HttpMessage.with_header h o) l Hop Hs). Qed.

Lemma isChunked_eq (o : message) h l :
  HttpMessage.chunked o = false -> existsb (iequals Values.CHUNKED) (Multimap.values Names.TRANSFER_ENCODING l) = false ->
  stands h l -> exists h', HttpMessage.isChunked (HttpMessage.with_header h o) = (Ok false, HttpMessage.with_header h' o) /\ stands h' l.
Proof.
  intros Hc He Hs. destruct (getter _ _ o h l (simulates_getValues Names.TRANSFER_ENCODING) Hs) as (h' & E & Hs').
  exists h'. split; [|exact Hs']. unfold HttpMessage.isChunked. rewrite bind_gets. cbn [id HttpMessage.with_header HttpMessage.chunked].
  rewrite Hc. unfold HttpMessage.isTransferEncodingChunked, HttpMessage.getHeaders.
  rewrite (bind_ok _ _ _ _ _ E), He. reflexivity.
Qed.

Lemma simulates_contains name :
  simulates (DefaultHttpHeader.contains name) (Prelude.gets (fun l => negb (is_empty (Multimap.get name l)))).
Proof.
  intros h l Hs. destruct (simulates_get name h l Hs) as (h' & E & Hs'). exists h'. split; [|exact Hs'].
  unfold DefaultHttpHeader.contains. rewrite (bind_ok _ _ _ _ _ E). reflexivity.
Qed.

(** The length that the headers announce. *)
Definition announced (r : request) : Z :=
  if is_empty (Multimap.get Names.CONTENT_LENGTH (rheaders r)) then -1 else zlen (rcontent r).

Lemma getContentLength_eq (o : message) h d r : HttpMessage.what o = rkind r -> good_request d r -> stands h (rheaders r) ->
  exists h', HttpHeaders.getContentLength (-1) (HttpMessage.with_header h o) = (Ok (announced r), HttpMessage.with_header h' o) /\
    stands h' (rheaders r).
Proof.
  intros Hw Hg Hs. pose proof (good_length _ _ Hg) as Hl. unfold announced. revert Hl Hs. generalize (rheaders r). intros l Hl Hs.
  destruct (getter _ _ o h l (simulates_get Names.CONTENT_LENGTH) Hs) as (h1 & E1 & Hs1).
  unfold HttpHeaders.getContentLength, HttpMessage.getHeader. rewrite (bind_ok _ _ _ _ _ E1).
  destruct (is_empty (Multimap.get Names.CONTENT_LENGTH l)); cbn [negb];
    [|rewrite Hl; exists h1; split; [reflexivity | exact Hs1]].
  destruct Hl as [_ Hk]. rewrite bind_gets. cbn [id HttpMessage.with_header HttpMessage.what]. rewrite Hw. unfold rkind.
  destruct (HttpMethod.equals _ _); [|exists h1; split; [reflexivity | exact Hs1]].
  destruct (getter _ _ o h1 l (simulates_contains Names.SEC_WEBSOCKET_KEY1) Hs1) as (h2 & E2 & Hs2).
  unfold HttpMessage.containsHeader. rewrite (bind_ok _ _ _ _ _ E2), Hk. exists h2. split; [reflexivity | exact Hs2].
Qed.

(** *** The states of a request without content *)

Definition after_headers (r : request) : State :=
  if announced r >=? 0 then READ_FIXED_LENGTH_CONTENT else READ_VARIABLE_LENGTH_CONTENT.

Lemma leads_getContentLength (k : config) r o d :
  good_request d r -> pointed (dec k) = true -> carries r o -> has_headers k o (rheaders r) ->
  leads (on_message (HttpHeaders.getContentLength (-1))) k (fun n k' => n = announced r /\ added k k' o (rheaders r)).
Proof.
  intros Hg Hp Hc Ho. apply (leads_query _ (announced r) k o (rheaders r)); [|exact Hp | exact Ho].
  intros h Hs. apply (getContentLength_eq o h d r); [apply Hc | exact Hg | exact Hs].
Qed.

Lemma is100_eq (o : message) h r : HttpMessage.what o = rkind r -> Multimap.get Names.EXPECT (rheaders r) = [] ->
  stands h (rheaders r) -> exists h', HttpHeaders.is100ContinueExpected (HttpMessage.with_header h o) =
    (Ok false, HttpMessage.with_header h' o) /\ stands h' (rheaders r).
Proof.
  intros Hw He Hs. unfold HttpHeaders.is100ContinueExpected. rewrite bind_gets. cbn [id HttpMessage.with_header HttpMessage.what].
  rewrite Hw. unfold rkind. destruct (_ <? 0); [exists h; split; [reflexivity | exact Hs]|].
  destruct (getter _ _ o h _ (simulates_get Names.EXPECT) Hs) as (h1 & E1 & Hs1).
  unfold HttpMessage.getHeader. rewrite (bind_ok _ _ _ _ _ E1), He. exists h1. split; [reflexivity | exact Hs1].
Qed.

Lemma leads_stateAfterHeaders (k : config) r o d :
  good_request d r -> pointed (dec k) = true -> carries r o -> has_headers k o (rheaders r) ->
  leads stateAfterHeaders k (fun st k' => st = after_headers r /\ added k k' o (rheaders r)).
Proof.
  intros Hg Hp Hcar Ho. pose proof Hcar as (Hc & _ & Hw). pose proof (good_encoding _ _ Hg) as He.
  unfold stateAfterHeaders. destruct Ho as (h & Ho & Hs).
  eapply leads_run; [apply (runs_on_message _ _ (HttpMessage.with_header h o) (HttpMessage.with_header h o) (HttpMessage.with_header h o) Hp Ho); reflexivity|].
  set (k1 := with_dec _ k). unfold isContentAlwaysEmpty. cbn [HttpMessage.with_header HttpMessage.what]. rewrite Hw. unfold rkind at 1.
  assert (has_headers k1 o (rheaders r)) as Ho1 by (exists h; split; [reflexivity | exact Hs]).
  eapply leads_bind; [apply (leads_query _ false k1 o (rheaders r)); [|exact Hp | exact Ho1]|].
  { intros h1 Hs1. apply isChunked_eq; assumption. }
  intros x k2 [-> A2]. cbv iota. pose proof (same_pointed _ _ (added_same _ _ _ _ A2)) as Hp2.
  eapply leads_bind; [apply (leads_getContentLength k2 r o d Hg); [rewrite Hp2; exact Hp | exact Hcar | apply (added_headers _ _ _ _ A2)]|].
  intros x k3 [-> A3]. eapply runs_leads; [apply runs_ret|]. split; [reflexivity|].
  refine (added_trans _ _ _ _ _ _ _ (added_trans _ _ _ _ _ _ A2 A3)).
  split; try reflexivity; [split; reflexivity | exact Ho1].
Qed.

Lemma headers_read_added k k1 k2 o l n q l' : headers_read k k1 o l n q -> added k1 k2 o l' -> headers_read k k2 o l' n q.
Proof.
  intros [S1 (p & Hb & Hf & Hz) Hm Ho] [S2 Hb2 Hf2 Hm2 _ Ho2].
  split; [eapply config_same_trans; eassumption | exists p | congruence | exact Ho2].
  rewrite Hb2, Hf2. auto.
Qed.

Lemma leads_readHeaders (k : config) p q r o :
  bytes k = p ++ lines (rheaders r) ++ q -> from k = zlen p -> from k + zlen (lines (rheaders r)) <= upto k ->
  headerSize (dec k) = 0 -> good_request (dec k) r -> pointed (dec k) = true -> carries r o -> has_headers k o [] ->
  leads readHeaders k (fun st k' => st = after_headers r /\
    headers_read k k' o (rheaders r) (from k + zlen (lines (rheaders r))) q).
Proof.
  intros Hb Hf Hu Hs Hg Hp Hc Ho. pose proof (good_size _ _ Hg) as Hsize. pose proof (good_headers _ _ Hg) as Hgs.
  assert (forall k', headers_read k k' o (rheaders r) (from k + zlen (lines (rheaders r))) q ->
    leads (if negb true then ret READ_HEADER else stateAfterHeaders) k' (fun st k'' => st = after_headers r /\
      headers_read k k'' o (rheaders r) (from k + zlen (lines (rheaders r))) q)) as Htail.
  { intros k' R. pose proof R as [S _ _ Ho']. cbn [negb]. eapply leads_weaken.
    - apply (leads_stateAfterHeaders k' r o (dec k) Hg); [rewrite (same_pointed _ _ S); exact Hp | exact Hc | exact Ho'].
    - intros st k'' [-> A]. split; [reflexivity | exact (headers_read_added _ _ _ _ _ _ _ _ R A)]. }
  unfold readHeaders. revert Hb Hu Hsize Hgs Htail. generalize (rheaders r). intros [|[n v] hs] Hb Hu Hsize Hgs Htail.
  - change (lines [] ++ q) with ([] ++ 13 :: 10 :: q) in Hb. change (zlen (lines [])) with 2 in *.
    eapply leads_bind; [apply (leads_next_line k p [] q Hb Hf); [constructor | change (@zlen Z []) with 0; lia..]|].
    change (@zlen Z []) with 0. intros s k1 (-> & S1 & (Hb1 & Hf1 & Hm1) & Hob & _).
    eapply leads_run; [apply runs_setD|]. eapply leads_run; [apply runs_needMoreBytes|].
    cbn [more with_dec]. rewrite Hm1. cbv iota. eapply leads_run; [apply runs_bytesLeft|].
    rewrite headersLoop_end by reflexivity.
    apply leads_bind with (Q := fun c k' => c = true /\ headers_read k k' o [] (from k + 2) q); [|intros c k2 [-> R]; apply Htail, R].
    eapply runs_leads; [apply runs_ret|]. split; [reflexivity|]. change (@zlen Z []) with 0 in Hf1.
    split; [destruct S1; split; assumption | exists (p ++ [0; 10]) | exact Hm1 | exact (has_headers_object _ _ _ _ Hob Ho)].
    cbn. rewrite Hb1, Hf1, zlen_app, <- app_assoc. change (zlen [0; 10]) with 2. split; [reflexivity|]. lia.
  - apply List.Forall_cons_iff in Hgs as [Hgn Hgs].
    assert (bytes k = p ++ (n ++ 58 :: 32 :: v) ++ 13 :: 10 :: (lines hs ++ q)) as Hb'.
    { rewrite Hb, lines_cons, <- app_assoc, header_line_app. reflexivity. }
    assert (zlen (lines ((n, v) :: hs)) = zlen (n ++ 58 :: 32 :: v) + 2 + zlen (lines hs)) as Ez.
    { rewrite lines_cons, zlen_app, zlen_header_line, (zlen_app n), !zlen_cons. lia. }
    rewrite Ez in *. pose proof (zlen_lines hs). pose proof (zlen_nonneg (n ++ 58 :: 32 :: v)).
    eapply leads_bind; [apply (leads_next_line k p _ _ Hb' Hf); [apply good_plain, Hgn | lia | lia]|].
    intros s k1 (-> & S1 & (Hb1 & Hf1 & Hm1) & Hob & _).
    eapply leads_run; [apply runs_setD|]. eapply leads_run; [apply runs_needMoreBytes|].
    cbn [more with_dec]. rewrite Hm1. cbv iota. eapply leads_run; [apply runs_bytesLeft|].
    set (k2 := with_dec (with_headerSize 0 (dec k1)) k1).
    assert (same k k2) as S2 by (destruct S1; split; assumption).
    eapply leads_bind.
    { apply (leads_headersLoop hs k2 p n v q FastString.null FastString.null None o [] _);
        [split; [exact Hb1 | split; [exact Hf1 | exact Hm1]] | exact Hgn | exact Hgs | reflexivity
        | rewrite (same_pointed _ _ S2); exact Hp | exact (has_headers_object k k2 o [] Hob Ho) | | |].
      - destruct S2. cbn in *. lia.
      - rewrite (same_header _ _ S2). change (headerSize (dec k2)) with 0. lia.
      - subst k2. cbn [upto from with_dec]. rewrite (same_upto _ _ S1), Hf1. assert (zlen hs <= zlen (lines hs)) by apply zlen_headers. unfold zlen in *. lia. }
    intros c k3 [-> [S3 (p3 & Hb3 & Hf3 & Hz3) Hm3 Ho3]]. apply Htail.
    split; [eapply config_same_trans; eassumption | exists p3; split; [exact Hb3|split; [exact Hf3|]] | exact Hm3 | exact Ho3].
    rewrite Hz3. cbn. rewrite Hf1, Hf. lia.
Qed.

(** *** A new message *)

(** The object of the decoder, if there is one, is a request. *)
Definition ready (d : decoder) : Prop :=
  match object d with
  | None => True
  | Some o => (exists method uri, HttpMessage.what o = HttpMessage.Request method uri) /\ exists l, stands (HttpMessage.header o) l
  end.

Lemma clear_eq (o : message) method uri l : HttpMessage.what o = HttpMessage.Request method uri ->
  stands (HttpMessage.header o) l ->
  exists h, HttpMessage.clear o = (Ok tt, HttpMessage.MkMessage false (HttpMessage.version o) h None (HttpMessage.Request method [])) /\
    stands h [].
Proof.
  intros Hw Hs. destruct (on_header_eq _ _ (HttpMessage.with_chunked false o) l simulates_clear Hs) as (h & E & Hs').
  exists h. split; [|exact Hs']. unfold HttpMessage.clear, HttpMessage.clear_message. rewrite !bind_assoc, bind_modify.
  rewrite bind_assoc. unfold HttpMessage.clearHeaders. change HttpHeader.clear with DefaultHttpHeader.clear.
  rewrite (bind_ok _ _ _ _ _ E), bind_modify. unfold modify, HttpMessage.with_what, HttpMessage.with_content, HttpMessage.with_header.
  cbn. rewrite Hw. reflexivity.
Qed.

(** The operations of the decoder on its message leave the lines alone. *)
Record untouched (k k' : config) : Prop := MkUntouched {
  un_same : upto k' = upto k /\ stateOf k' = stateOf k /\ out k' = out k;
  un_lines : bytes k' = bytes k /\ from k' = from k /\ more k' = more k;
  un_limits : limits (dec k') = limits (dec k);
}.

Lemma leads_createMessage (k : config) r s1 s2 s3 :
  spells (bytes k) s1 (HttpMethod.name (rmethod r)) -> spells (bytes k) s2 (ruri r) ->
  spells (bytes k) s3 (HttpVersion.versionText (rversion r)) -> good_request (dec k) r -> ready (dec k) ->
  leads (createMessage DefaultHttpHeader.new true s1 s2 s3) k (fun _ k' => untouched k k' /\ pointed (dec k') = true /\
    exists o, carries r o /\ has_headers k' o []).
Proof.
  intros H1 H2 H3 Hg Hr. pose proof (proj2 (good_method _ _ Hg)) as Em. pose proof (proj2 (proj2 (good_version _ _ Hg))) as Ev.
  unfold createMessage.
  do 3 (eapply leads_run; [apply runs_of_array; intros b Hm; eapply c_str_eq; eassumption|]).
  eapply leads_run; [apply runs_getD|]. unfold ready in Hr. destruct (object (dec k)) as [o|] eqn:Eo.
  - destruct Hr as [(method & uri & Hw) (l & Hs)]. destruct (clear_eq o method uri l Hw Hs) as (h & Ec & Hh).
    eapply leads_run; [|eapply runs_leads; [apply runs_setD|]].
    + eapply runs_bind; [apply (runs_on_object _ _ o tt _ Eo Ec)|]. rewrite Ev. eapply runs_bind; [apply runs_reads|].
      eapply runs_bind; [eapply runs_on_object; reflexivity|]. rewrite Em. eapply runs_bind; [apply runs_reads|].
      eapply runs_bind; [eapply runs_on_object; reflexivity|]. eapply runs_on_object; reflexivity.
    + split; [split; cbn; auto|]. split; [reflexivity|].
      exists (HttpMessage.MkMessage false (rversion r) h None (rkind r)). split; [repeat split|]. exists h. split; [reflexivity | exact Hh].
  - rewrite Ev. eapply leads_run; [|eapply runs_leads; [apply runs_setD|]].
    + eapply runs_bind; [apply runs_reads|]. rewrite Em. eapply runs_bind; [apply runs_reads | apply runs_setD].
    + split; [split; cbn; auto|]. split; [reflexivity|].
      exists (HttpMessage.newRequest (rversion r) (rmethod r) (ruri r) DefaultHttpHeader.new). split; [repeat split|].
      exists DefaultHttpHeader.new. split; [reflexivity|]. exists []. split; [exact new_rep | reflexivity].
Qed.

(** *** The three states of a request without content *)

(** What a turn of the loop leaves as it is. *)
Record follows (k k' : config) : Prop := MkFollows {
  fol_upto : upto k' = upto k;
  fol_out : out k' = out k;
  fol_limits : limits (dec k') = limits (dec k);
}.

Lemma follows_trans k1 k2 k3 : follows k1 k2 -> follows k2 k3 -> follows k1 k3.
Proof. intros [] []. split; congruence. Qed.

(** The bytes behind the [n] bytes from the position of [k]. *)
Definition behind (k k' : config) (n : Z) (q : text) : Prop :=
  exists p', bytes k' = p' ++ q /\ from k' = zlen p' /\ zlen p' = from k + n.

Lemma first_line_eq r : first_line (rkind r) (rversion r) =
  (HttpMethod.name (rmethod r) ++ 32 :: ruri r ++ 32 :: HttpVersion.versionText (rversion r)) ++ [13; 10].
Proof. unfold first_line, line, rkind. app_eq. Qed.

Lemma words_plain r d : good_request d r ->
  Forall line_char (HttpMethod.name (rmethod r) ++ 32 :: ruri r ++ 32 :: HttpVersion.versionText (rversion r)).
Proof.
  intros Hg. assert (forall t, word t -> Forall line_char t) as Hw
    by (intros t Ht; refine (List.Forall_impl _ _ (word_plain t Ht)); exact space_line).
  apply List.Forall_app. split; [apply Hw, (good_method _ _ Hg)|]. constructor; [split; discriminate|].
  apply List.Forall_app. split; [apply Hw, (good_uri _ _ Hg)|]. constructor; [split; discriminate|].
  apply Hw, (good_version _ _ Hg).
Qed.

Lemma leads_decodeInitial (k : config) p q r :
  bytes k = p ++ first_line (rkind r) (rversion r) ++ q -> from k = zlen p ->
  zlen p + zlen (first_line (rkind r) (rversion r)) <= upto k -> good_request (dec k) r -> ready (dec k) ->
  leads (decodeInitial DefaultHttpHeader.new true) k (fun m k' => m = ReplayingDecoder.EMPTY_MESSAGE /\
    follows k k' /\ stateOf k' = 2 /\ more k' = false /\ pointed (dec k') = true /\ headerSize (dec k') = 0 /\
    behind k k' (zlen (first_line (rkind r) (rversion r))) q /\ exists o, carries r o /\ has_headers k' o []).
Proof.
  rewrite first_line_eq. set (m := HttpMethod.name (rmethod r)). set (u := ruri r). set (v := HttpVersion.versionText (rversion r)).
  intros Hb Hf Hu Hg Hr. pose proof (words_plain r _ Hg) as Hplain. fold m u v in Hplain.
  pose proof (good_line _ _ Hg) as Hl. rewrite first_line_eq in Hl. fold m u v in Hl. rewrite zlen_app in Hl, Hu.
  change (zlen [13; 10]) with 2 in *. rewrite <- app_assoc in Hb. cbn [app] in Hb.
  assert (zlen (m ++ 32 :: u ++ 32 :: v) = zlen m + zlen u + zlen v + 2) as Hz
    by (rewrite zlen_app, zlen_cons, zlen_app, zlen_cons; lia).
  unfold decodeInitial. eapply leads_run; [apply runs_getD|].
  eapply leads_run; [apply (runs_readLine k p (m ++ 32 :: u ++ 32 :: v) q); [split; assumption | exact Hplain | lia | lia]|].
  set (k1 := with_bytes _ _). rewrite Hz. replace (zlen m + zlen u + zlen v + 2 - 1) with (zlen m + zlen u + zlen v + 1) by lia.
  set (c' := p ++ m ++ 0 :: u ++ 0 :: v ++ 0 :: 10 :: q).
  eapply leads_bind with (Q := fun x k' => exists s1 s2 s3, x = Some (s1, s2, s3) /\ k' = with_bytes c' k1 /\
    spells c' s1 m /\ spells c' s2 u /\ spells c' s3 v).
  { apply leads_on_array. intros b Hm.
    destruct (splitInitialLine_eq _ _ _ b p m u v (10 :: q) Hm) as (b' & s1 & s2 & s3 & E & Hm' & H1 & H2 & H3);
      [unfold k1; cbn; app_eq | apply (good_method _ _ Hg) | apply (good_uri _ _ Hg)
      | apply (good_version _ _ Hg) | apply (good_version _ _ Hg) |].
    exists (Some (s1, s2, s3)), c', b'. split; [exact E|]. split; [exact Hm'|]. exists s1, s2, s3. auto. }
  intros x k2 (s1 & s2 & s3 & -> & -> & H1 & H2 & H3). cbv iota beta.
  eapply leads_bind; [apply (leads_createMessage (with_bytes c' k1) r s1 s2 s3 H1 H2 H3 Hg Hr)|].
  intros _ k3 ([(U1 & U2 & U3) (U4 & U5 & U6) U7] & Hp & o & Hc & h & Ho & Hs).
  eapply leads_run; [apply runs_checkpoint|]. eapply leads_run; [apply runs_setD|].
  destruct (on_header_eq _ _ (HttpMessage.with_header h o) [] simulates_clear Hs) as (h2 & E2 & Hs2).
  eapply leads_run; [eapply runs_on_message; [exact Hp | exact Ho | exact E2]|].
  eapply runs_leads; [apply runs_ret|]. split; [reflexivity|]. split; [split; assumption|]. split; [reflexivity|].
  split; [exact U6|]. split; [exact Hp|]. split; [reflexivity|]. split.
  - exists (p ++ m ++ 0 :: u ++ 0 :: v ++ [0; 10]). cbn. rewrite U4, U5. cbn. unfold c'.
    split; [app_eq|].
    rewrite Hf. split; zlens.
  - exists o. split; [exact Hc|]. exists h2. split; [reflexivity | exact Hs2].
Qed.

(** The message sent upstream is the request: with its headers in their order, its
    content and nothing to follow. *)
Definition delivered (r : request) (f : F) : Prop :=
  exists o c, f = OutMessage o /\ carries r o /\ HttpMessage.content o = Some c /\ content_bytes view_bytes c = rcontent r /\
    fst (DefaultHttpHeader.gets (HttpMessage.header o)) = Ok (rheaders r).

Lemma setContent_eq (o : message) h l (c : option V) :
  HttpMessage.chunked o = false -> existsb (iequals Values.CHUNKED) (Multimap.values Names.TRANSFER_ENCODING l) = false ->
  stands h l -> exists h', HttpMessage.setContent (Some c) (HttpMessage.with_header h o) =
    (Ok tt, HttpMessage.with_content (Some c) (HttpMessage.with_header h' o)) /\ stands h' l.
Proof.
  intros Hc He Hs. unfold HttpMessage.setContent. destruct (content_readable c).
  - destruct (isChunked_eq o h l Hc He Hs) as (h' & E & Hs'). exists h'. split; [|exact Hs'].
    rewrite bind_assoc, (bind_ok _ _ _ _ _ E), bind_throw_if. reflexivity.
  - exists h. split; [reflexivity | exact Hs].
Qed.

Lemma leads_reset (k : config) o r d c :
  content (dec k) = Some c -> content_bytes view_bytes c = rcontent r -> good_request d r ->
  pointed (dec k) = true -> carries r o -> has_headers k o (rheaders r) ->
  leads reset k (fun m k' => (exists f, m = ReplayingDecoder.Message f /\ delivered r f) /\
    follows k k' /\ stateOf k' = 0 /\ ready (dec k') /\ bytes k' = bytes k /\ from k' = from k).
Proof.
  intros Hc Hcb Hg Hp (Hch & Hv & Hw) (h & Ho & Hs). unfold reset.
  destruct (setContent_eq o h (rheaders r) c Hch (good_encoding _ _ Hg) Hs) as (h' & Es & Hs').
  eapply leads_run; [apply runs_getD|]. eapply leads_run; [apply runs_getD|]. rewrite Hc, Hp. cbv iota.
  eapply leads_run; [eapply runs_bind; [exact (runs_on_message _ _ _ tt _ Hp Ho Es) | apply runs_setD]|].
  eapply leads_run; [apply runs_getD|]. eapply leads_run; [apply runs_setD|]. eapply leads_run; [apply runs_checkpoint|].
  cbn [dec with_dec object with_content with_object]. eapply runs_leads; [apply runs_ret|].
  split; [|split; [split; reflexivity | split; [reflexivity | split; [|split; reflexivity]]]].
  - eexists. split; [reflexivity|]. eexists _, c. split; [reflexivity|]. split; [repeat split; assumption|]. split; [reflexivity|].
    split; [exact Hcb|]. change (fst (DefaultHttpHeader.gets h') = Ok (rheaders r)). rewrite (stands_gets h' _ Hs'). reflexivity.
  - unfold ready. cbn. rewrite Hw. split; [eauto | exists (rheaders r); exact Hs'].
Qed.

(** The decoder is ready for the content of a request. *)
Definition filling (r : request) (k : config) : Prop :=
  pointed (dec k) = true /\ exists o, carries r o /\ has_headers k o (rheaders r).

(** A request without content announces no length or zero, one with content its
    length, which the decoder takes in one piece. *)
Lemma announced_cases d r : good_request d r ->
  rcontent r = [] /\ (announced r =? 0) || ((announced r =? -1) && true) = true /\
    (after_headers r = READ_FIXED_LENGTH_CONTENT \/ after_headers r = READ_VARIABLE_LENGTH_CONTENT) \/
  rcontent r <> [] /\ (announced r =? 0) || ((announced r =? -1) && true) = false /\
    after_headers r = READ_FIXED_LENGTH_CONTENT /\ announced r = zlen (rcontent r).
Proof.
  intros Hg. pose proof (good_length _ _ Hg) as Hl. unfold after_headers, announced. destruct (is_empty _).
  - left. destruct Hl as [Hl _]. auto.
  - pose proof (zlen_nonneg (rcontent r)) as Hz. rewrite Z.geb_leb, (proj2 (Z.leb_le _ _)) by exact Hz.
    rewrite (proj2 (Z.eqb_neq _ (-1))) by lia. rewrite orb_false_r.
    destruct (rcontent r) as [|v t]; [left; auto | right]. rewrite zlen_cons in *. pose proof (zlen_nonneg t).
    rewrite (proj2 (Z.eqb_neq _ 0)) by lia. split; [discriminate | auto].
Qed.

Lemma same_follows k k' : same k k' -> follows k k'.
Proof. intros S. split; [apply S | apply S | exact (same_limits _ _ S)]. Qed.

Lemma follows_content k k' c : follows k k' -> follows k (with_dec (with_content c (dec k')) k').
Proof. intros []. split; assumption. Qed.

Lemma good_request_limits d d' r : limits d' = limits d -> good_request d r -> good_request d' r.
Proof. intros [= E1 E2 E3] []. split; rewrite ?E1, ?E2, ?E3; assumption. Qed.

Lemma leads_reset_after (k k' : config) o r c n q : good_request (dec k) r -> carries r o ->
  follows k k' -> behind k k' n q -> pointed (dec k') = true -> has_headers k' o (rheaders r) ->
  content (dec k') = Some c -> content_bytes view_bytes c = rcontent r ->
  leads reset k' (fun m k'' => follows k k'' /\ behind k k'' n q /\
    (exists f, m = ReplayingDecoder.Message f /\ delivered r f) /\ stateOf k'' = 0 /\ ready (dec k'')).
Proof.
  intros Hg Hc Hfo (p & Hb & Hf & Hz) Hp Ho Hct Hcb.
  eapply leads_weaken; [apply (leads_reset k' o r (dec k) c); assumption|].
  intros m k'' (Hm & Hfo' & Hst & Hr & Hb' & Hf'). split; [exact (follows_trans _ _ _ Hfo Hfo')|].
  split; [exists p; repeat split; congruence | auto].
Qed.

(** The end of the headers: a request without content is sent, and the content of
    another is waited for. *)
Lemma leads_decodeHeader (k : config) p q r o :
  bytes k = p ++ lines (rheaders r) ++ q -> from k = zlen p -> from k + zlen (lines (rheaders r)) <= upto k ->
  headerSize (dec k) = 0 -> good_request (dec k) r -> pointed (dec k) = true -> carries r o -> has_headers k o [] ->
  leads (decodeHeader true) k (fun m k' => follows k k' /\ behind k k' (zlen (lines (rheaders r))) q /\
    if is_empty (rcontent r) then (exists f, m = ReplayingDecoder.Message f /\ delivered r f) /\ stateOf k' = 0 /\ ready (dec k')
    else m = ReplayingDecoder.EMPTY_MESSAGE /\ more k' = false /\ stateOf k' = 5 /\ filling r k').
Proof.
  intros Hb Hf Hu Hs Hg Hp Hc Ho. unfold decodeHeader.
  eapply leads_bind; [apply (leads_readHeaders k p q r o); assumption|].
  intros st k1 [-> [S1 Hb1 Hm1 Ho1]]. pose proof (same_pointed _ _ S1) as Hp1. rewrite Hp in Hp1.
  assert (Hlen : forall st, leads (on_message (HttpHeaders.getContentLength (-1))) (with_stateOf st k1)
    (fun n k' => n = announced r /\ added (with_stateOf st k1) k' o (rheaders r))).
  { intros st. apply (leads_getContentLength (with_stateOf st k1) r o (dec k) Hg Hp1 Hc Ho1). }
  assert (Hadd : forall st k2, added (with_stateOf st k1) k2 o (rheaders r) ->
    follows k k2 /\ behind k k2 (zlen (lines (rheaders r))) q /\ pointed (dec k2) = true /\ stateOf k2 = st /\
    more k2 = false /\ has_headers k2 o (rheaders r)).
  { intros st k2 [S2 Hb2 Hf2 Hm2 _ Ho2]. destruct Hb1 as (p1 & Hb1 & Hf1 & Hz1).
    split; [apply (follows_trans _ _ _ (same_follows _ _ S1)); destruct (same_follows _ _ S2); split; assumption|].
    split; [exists p1; cbn in Hb2, Hf2; split; [congruence | split; [congruence | exact Hz1]]|].
    split; [exact (eq_trans (same_pointed _ _ S2) Hp1)|]. split; [exact (same_state _ _ S2)|].
    split; [exact (eq_trans Hm2 Hm1) | exact Ho2]. }
  destruct (announced_cases _ _ Hg) as [(He & Hz & Hst)|(Hne & Hz & -> & Ha)].
  - rewrite He. cbn [is_empty].
    destruct Hst as [-> | ->]; cbv iota; (eapply leads_run; [apply runs_checkpoint|]);
      (eapply leads_bind; [apply Hlen|]); intros n k2 [-> A2]; destruct (Hadd _ _ A2) as (F2 & B2 & P2 & _ & _ & O2);
      rewrite Hz; cbv iota; (eapply leads_run; [apply runs_setD|]);
      (eapply leads_weaken; [apply (leads_reset_after k _ o r None _ q Hg Hc (follows_content _ _ _ F2) B2 P2 O2); [reflexivity | symmetry; exact He]|]);
      intros m k3 H3; exact H3.
  - cbv iota. eapply leads_run; [apply runs_checkpoint|]. eapply leads_bind; [apply Hlen|].
    intros n k2 [-> A2]. rewrite Hz. cbv iota. eapply leads_run; [apply runs_getD|].
    destruct (Hadd _ _ A2) as (F2 & B2 & P2 & St2 & M2 & O2).
    assert ((announced r >? maxChunkSize (dec k2)) = false) as ->.
    { rewrite Ha, Z.gtb_ltb. apply Z.ltb_ge. pose proof (good_content _ _ Hg). pose proof (fol_limits _ _ F2) as El. unfold limits in El. congruence. }
    destruct (good_expect _ _ Hg) as [?|Hex]; [contradiction|].
    eapply leads_bind; [apply (leads_query _ false k2 o (rheaders r)); [|exact P2 | exact O2]|].
    { intros h Hh. apply is100_eq; [apply Hc | exact Hex | exact Hh]. }
    intros x k3 [-> [S3 Hb3 Hf3 Hm3 _ Ho3]]. cbv iota. eapply runs_leads; [apply runs_ret|].
    split; [exact (follows_trans _ _ _ F2 (same_follows _ _ S3))|].
    split; [destruct B2 as (p2 & ? & ? & ?); exists p2; split; [congruence | split; [congruence | assumption]]|].
    destruct (rcontent r) eqn:Er; [contradiction|]. cbn [is_empty]. split; [reflexivity|].
    split; [congruence|]. split; [rewrite (same_state _ _ S3); exact St2|].
    split; [exact (eq_trans (same_pointed _ _ S3) P2) | exists o; auto].
Qed.

(** *** The content *)

Lemma readSliceLen_eq (b : B) n : wf b -> 0 < n <= zlen (queue b) ->
  exists v, AbstractChannelBuffer.readSliceLen n b = (Ok v, consume n b) /\ view_bytes v = zsub (queue b) 0 n.
Proof.
  intros Hb Hn. pose proof Hb as [Hv [Hr Hw]]. pose proof (zlen_queue b Hb) as Hq.
  destruct (slice_law b (readerIndex b) n Hb) as (v & E & Hvb); [unfold in_range; lia | lia|].
  exists v. unfold AbstractChannelBuffer.readSliceLen. rewrite bind_reads. fold (readerIndex b). rewrite E.
  erewrite bind_ok by (apply advance_spec; [exact Hb | lia]). split; [reflexivity|].
  rewrite Hvb. unfold queue. rewrite zsub_zsub by lia. f_equal. lia.
Qed.

(** A slice of what has arrived. *)
Lemma leads_readSlice (k : config) p t q :
  bytes k = p ++ t ++ q -> from k = zlen p -> from k + zlen t <= upto k -> t <> [] ->
  leads (readSlice (zlen t)) k (fun c k' => content_bytes view_bytes c = t /\ k' = with_more false (with_from (from k + zlen t) k)).
Proof.
  intros Hb Hf Hu Hne s (b & ck & -> & [Hw Hc Hfr Hto]). pose proof (zlen_queue b Hw) as Hq.
  assert (0 < zlen t) as Hz by (destruct t as [|x t']; [contradiction | rewrite zlen_cons; pose proof (zlen_nonneg t'); lia]).
  rewrite Hfr, Hto in Hq.
  destruct (readSliceLen_eq b (zlen t) Hw) as (v & E & Hv); [lia|].
  unfold readSlice, on_replay, ReplayingDecoderBuffer.readSlice. rewrite on_replayable_eq, guarded_readable by exact Hw.
  rewrite (proj2 (Z.ltb_ge _ _)) by lia. unfold ReplayingDecoderBuffer.on_buffer, bind, zoom. cbn [ReplayingDecoderBuffer.buffer].
  rewrite E. cbn [fst snd]. eexists (Some v), (with_more false (with_from (from k + zlen t) k)), _.
  split; [reflexivity|]. split.
  - exists (consume (zlen t) b), ck. split; [reflexivity|].
    split; [apply consume_wf; [exact Hw | lia] | unfold consume; rewrite content_put; exact Hc | |].
    + change (AbstractChannelBuffer.readerIndex ?x) with (readerIndex x). rewrite consume_readerIndex.
      unfold readerIndex in *. cbn. lia.
    + change (AbstractChannelBuffer.writerIndex ?x) with (writerIndex x). unfold consume. rewrite writerIndex_put. exact Hto.
  - split; [|reflexivity]. cbn [content_bytes]. rewrite Hv. unfold queue.
    rewrite Hfr, Hto, zsub_zsub by (pose proof (zlen_nonneg p); lia). rewrite Hc, Hb, Hf, Z.add_0_r. unfold zsub, zlen. rewrite !Nat2Z.id.
    rewrite drop_app_length, take_app_length. reflexivity.
Qed.

(** A slice of more than what has arrived: the bytes stay. *)
Lemma readSlice_short (k : config) n d (b : B) need ck l : wf b -> zlen (queue b) < n ->
  readSlice (V := V) (H := H) n (ReplayingDecoder.MkD d (MkReplay b need false) true (stateOf k) ck l) =
  (Ok None, ReplayingDecoder.MkD d (MkReplay b true false) true (stateOf k) ck l).
Proof.
  intros Hw Hn. unfold readSlice, on_replay, ReplayingDecoderBuffer.readSlice. rewrite on_replayable_eq, guarded_readable by exact Hw.
  rewrite (proj2 (Z.ltb_lt _ _)) by exact Hn. reflexivity.
Qed.

Lemma leads_decodeFixed (k : config) p q r :
  bytes k = p ++ rcontent r ++ q -> from k = zlen p -> from k + zlen (rcontent r) <= upto k -> rcontent r <> [] ->
  good_request (dec k) r -> filling r k ->
  leads decodeFixed k (fun m k' => follows k k' /\ behind k k' (zlen (rcontent r)) q /\
    (exists f, m = ReplayingDecoder.Message f /\ delivered r f) /\ stateOf k' = 0 /\ ready (dec k')).
Proof.
  intros Hb Hf Hu Hne Hg (Hp & o & Hc & Ho). unfold decodeFixed.
  destruct (announced_cases _ _ Hg) as [(He & _)|(_ & _ & _ & Ha)]; [contradiction|].
  eapply leads_bind with (Q := fun complete k' => complete = true /\ follows k k' /\ behind k k' (zlen (rcontent r)) q /\
    pointed (dec k') = true /\ has_headers k' o (rheaders r) /\
    exists c, content (dec k') = Some c /\ content_bytes view_bytes c = rcontent r).
  - unfold readFixedLengthContent. eapply leads_bind; [apply (leads_getContentLength k r o _ Hg Hp Hc Ho)|].
    intros n k1 [-> [S1 Hb1 Hf1 _ _ Ho1]]. rewrite Ha. eapply leads_run; [apply runs_setD|]. set (k2 := with_dec _ k1).
    eapply leads_bind; [apply (leads_readSlice k2 p (rcontent r) q)|]; cbn;
      [congruence | congruence | pose proof (same_upto _ _ S1); lia | exact Hne|].
    intros c k3 [Hcb ->]. eapply leads_run; [apply runs_setD|]. eapply leads_run; [apply runs_needMoreBytes|].
    eapply runs_leads; [apply runs_ret|]. split; [reflexivity|].
    split; [destruct (same_follows _ _ S1); split; assumption|].
    split; [exists (p ++ rcontent r); cbn; rewrite Hb1, Hf1, Hb, Hf, zlen_app; split; [app_eq | auto]|].
    split; [exact (eq_trans (same_pointed _ _ S1) Hp)|]. split; [exact Ho1|]. exists c. auto.
  - intros complete k1 (-> & F1 & B1 & P1 & O1 & c & C1 & Hcb). exact (leads_reset_after k k1 o r c _ q Hg Hc F1 B1 P1 O1 C1 Hcb).
Qed.

(** A content that has not arrived yet is waited for. *)
Lemma on_message_eq {A} (m : M message A) (d : decoder) r c st ck l o a o' :
  pointed d = true -> object d = Some o -> m o = (Ok a, o') ->
  on_message m (ReplayingDecoder.MkD d r c st ck l : ReplayingDecoder.dstate decoder B F) =
  (Ok a, ReplayingDecoder.MkD (with_object (Some o') d) r c st ck l).
Proof.
  intros Hp Ho Hm. unfold on_message, getD. rewrite bind_gets. cbn [ReplayingDecoder.decoder]. rewrite Hp.
  unfold on_object. cbn [ReplayingDecoder.decoder]. rewrite Ho, Hm. reflexivity.
Qed.

Lemma decodeFixed_short (k : config) r (b : B) need : good_request (dec k) r -> filling r k ->
  wf b -> zlen (queue b) < zlen (rcontent r) ->
  exists d', decodeFixed (ReplayingDecoder.MkD (dec k) (MkReplay b need false) true (stateOf k) (readerIndex b) (out k)) =
    (Ok ReplayingDecoder.EMPTY_MESSAGE, ReplayingDecoder.MkD d' (MkReplay b true false) true (stateOf k) (readerIndex b) (out k)) /\
    limits d' = limits (dec k) /\ filling r (with_dec d' k).
Proof.
  intros Hg (Hp & o & Hc & h & Ho & Hs) Hw Hn. pose proof (zlen_nonneg (queue b)).
  destruct (getContentLength_eq o h _ r (proj2 (proj2 Hc)) Hg Hs) as (h' & E & Hs').
  destruct (announced_cases _ _ Hg) as [(He & _)|(_ & _ & _ & Ha)]; [rewrite He in Hn; change (@zlen Z []) with 0 in Hn; lia|].
  eexists. split.
  - unfold decodeFixed, readFixedLengthContent. rewrite bind_assoc, (bind_ok _ _ _ _ _ (on_message_eq _ _ _ _ _ _ _ _ _ _ Hp Ho E)).
    rewrite Ha. unfold setD. rewrite bind_assoc, bind_modify, bind_assoc.
    erewrite bind_ok by (apply (readSlice_short k); [exact Hw | exact Hn]). reflexivity.
  - split; [reflexivity|]. split; [exact Hp|]. exists o. split; [exact Hc|]. exists h'. split; [reflexivity | exact Hs'].
Qed.

(** *** The loop *)

#[local] Instance request_decoding : ReplayingDecoder.ReplayDecoding decoder B F :=
  HttpMessageDecoder.decoding DefaultHttpHeader.new true.

Definition with_out (l : list (ReplayingDecoder.message F)) (k : config) : config :=
  Config (bytes k) (from k) (upto k) (dec k) (stateOf k) (more k) l.

Lemma leads_turn unfold fuel (k : config) Q :
  from k < upto k ->
  leads (ReplayingDecoder.decode (stateOf k)) k (fun m k' => (from k <> from k' \/ stateOf k <> stateOf k') /\
    match m with
    | ReplayingDecoder.EMPTY_MESSAGE => more k' = false /\ leads (ReplayingDecoder.callDecode unfold fuel) k' Q
    | ReplayingDecoder.Message f =>
        leads (ReplayingDecoder.callDecode unfold fuel) (with_out (out k' ++ [ReplayingDecoder.Message f]) k') Q
    | ReplayingDecoder.Messages _ => False
    end) ->
  leads (ReplayingDecoder.callDecode unfold (S fuel)) k Q.
Proof.
  intros Hlt Hd s (b & ck & -> & Hm). pose proof Hm as [Hw Hc Hr Hwr]. pose proof (zlen_queue b Hw) as Hq.
  assert (queue b <> []) as Hne.
  { intros E. rewrite E in Hq. change (@zlen Z []) with 0 in Hq. unfold readerIndex, writerIndex in *. lia. }
  destruct (Hd (ReplayingDecoder.MkD (dec k) (MkReplay b (more k) false) true (stateOf k) (readerIndex b) (out k)))
    as (m & k' & s' & Ed & (b' & ck' & -> & Hm') & Hprog & Hcase); [exists b, (readerIndex b); auto|].
  rewrite (callDecode_turn (RD := request_decoding) unfold fuel _ _ _ _ ck _ _ _ _ _ _ _ _ Hw Hne Ed).
  pose proof Hm' as [_ _ Hr' _].
  assert ((readerIndex b =? readerIndex b') && (stateOf k =? stateOf k') = false) as ->.
  { apply andb_false_iff. unfold readerIndex in *. rewrite Hr, Hr'. destruct Hprog; [left | right]; apply Z.eqb_neq; assumption. }
  destruct m as [|f|fs]; [|clear Hprog|contradiction]; cbn [ReplayingDecoder.empty andb].
  - destruct Hcase as [Hmo Hrun]. rewrite Hmo. apply Hrun. exists b', ck'. rewrite Hmo. auto.
  - cbn [ReplayingDecoder.unfoldAndfireMessageReceived]. unfold ReplayingDecoder.fire. rewrite bind_modify.
    apply Hcase. exists b', ck'. auto.
Qed.

Lemma leads_done unfold fuel (k : config) (Q : unit -> config -> Prop) :
  from k = upto k -> Q tt k -> leads (ReplayingDecoder.callDecode unfold (S fuel)) k Q.
Proof.
  intros He HQ s Hs. exists tt, k, s. split; [|auto]. destruct Hs as (b & ck & -> & [Hw Hc Hr Hwr]).
  cbn [ReplayingDecoder.callDecode]. rewrite bind_gets. unfold id, ReplayingDecoder.cumulation.
  cbn [ReplayingDecoder.replayable ReplayingDecoderBuffer.buffer]. rewrite readable_queue, zlen_queue by exact Hw.
  rewrite (proj2 (Z.eqb_eq _ _)) by (unfold readerIndex, writerIndex in *; lia). reflexivity.
Qed.

Lemma request_text_eq r : request_text r = first_line (rkind r) (rversion r) ++ lines (rheaders r) ++ rcontent r.
Proof. unfold request_text, head_text, lines. app_eq. Qed.

Lemma request_starts d r : good_request d r -> exists c t, first_line (rkind r) (rversion r) = c :: t /\
  Character.isISOControl c = false /\ Character.isWhitespace c = false.
Proof.
  intros Hg. destruct (word_cases _ (proj1 (proj1 (good_method _ _ Hg)))) as (c & name & En & Hc).
  pose proof (proj2 (proj1 (good_method _ _ Hg))) as Hf. rewrite En in Hf. inversion Hf; subst.
  rewrite first_line_eq, En. eexists c, _. split; [reflexivity | auto].
Qed.

(** The first line of a request: two turns. *)
Lemma leads_first_line unfold fuel (k : config) p q r Q :
  let l := first_line (rkind r) (rversion r) in
  bytes k = p ++ l ++ q -> from k = zlen p -> from k + zlen l <= upto k ->
  good_request (dec k) r -> stateOf k = 0 -> ready (dec k) ->
  (forall k', follows k k' -> behind k k' (zlen l) q -> stateOf k' = 2 -> pointed (dec k') = true -> headerSize (dec k') = 0 ->
    (exists o, carries r o /\ has_headers k' o []) -> leads (ReplayingDecoder.callDecode unfold fuel) k' Q) ->
  leads (ReplayingDecoder.callDecode unfold (S (S fuel))) k Q.
Proof.
  intros l Hb Hf Hu Hg Hst Hr HQ. destruct (request_starts _ _ Hg) as (c & l' & El & Hctl & Hc). fold l in El.
  assert (0 < zlen l) as Hz by (rewrite El, zlen_cons; pose proof (zlen_nonneg l'); lia).
  apply leads_turn; [lia|]. rewrite Hst. change (ReplayingDecoder.decode 0) with (decodeSkip (B := B) (V := V) (H := H)).
  eapply runs_leads; [apply (runs_skip k p c (l' ++ q)); [|lia | exact Hctl | exact Hc]|].
  { split; [rewrite Hb, El; app_eq | exact Hf]. }
  split; [right; discriminate|]. split; [reflexivity|]. set (k1 := with_stateOf 1 (with_more false k)).
  apply leads_turn; [cbn; lia|].
  change (ReplayingDecoder.decode (stateOf k1)) with (decodeInitial (B := B) (V := V) DefaultHttpHeader.new true).
  eapply leads_weaken; [apply (leads_decodeInitial k1 p q r Hb Hf);
    [change (zlen p + zlen l <= upto k); lia | exact Hg | exact Hr]|].
  intros m k2 (-> & [F1 F2 F3] & Hst2 & Hm2 & Hp2 & Hs2 & B2 & O2). split; [right; rewrite Hst2; discriminate|]. split; [exact Hm2|].
  apply HQ; try assumption. split; assumption.
Qed.

(** The headers: one turn. *)
Lemma leads_header_lines unfold fuel (k : config) p q r o Q :
  let l := lines (rheaders r) in
  bytes k = p ++ l ++ q -> from k = zlen p -> from k + zlen l <= upto k ->
  good_request (dec k) r -> stateOf k = 2 -> pointed (dec k) = true -> headerSize (dec k) = 0 -> carries r o -> has_headers k o [] ->
  (forall k', upto k' = upto k -> limits (dec k') = limits (dec k) -> behind k k' (zlen l) q ->
    (if is_empty (rcontent r) then (exists f, out k' = out k ++ [ReplayingDecoder.Message f] /\ delivered r f) /\ stateOf k' = 0 /\ ready (dec k')
     else out k' = out k /\ stateOf k' = 5 /\ filling r k') -> leads (ReplayingDecoder.callDecode unfold fuel) k' Q) ->
  leads (ReplayingDecoder.callDecode unfold (S fuel)) k Q.
Proof.
  intros l Hb Hf Hu Hg Hst Hp Hs Hc Ho HQ. pose proof (zlen_lines (rheaders r)) as Hz. fold l in Hz.
  apply leads_turn; [lia|]. rewrite Hst.
  change (ReplayingDecoder.decode 2) with (decodeHeader (B := B) (V := V) (H := H) true).
  eapply leads_weaken; [apply (leads_decodeHeader k p q r o); assumption|].
  intros m k1 ([F1 F2 F3] & B1 & Hcase). fold l in B1. split; [left; destruct B1 as (p1 & _ & ? & ?); lia|].
  revert Hcase HQ. destruct (is_empty (rcontent r)); intros Hcase HQ.
  - destruct Hcase as ((f & -> & Hd) & Hst1 & Hr1). apply HQ; [exact F1 | exact F3 | exact B1|].
    split; [exists f; cbn; rewrite F2; auto | auto].
  - destruct Hcase as (-> & Hm1 & Hst1 & Hfi). split; [exact Hm1|]. apply HQ; auto.
Qed.

(** The content: one turn when it is complete. *)
Lemma leads_content unfold fuel (k : config) p q r Q :
  bytes k = p ++ rcontent r ++ q -> from k = zlen p -> from k + zlen (rcontent r) <= upto k -> rcontent r <> [] ->
  good_request (dec k) r -> stateOf k = 5 -> filling r k ->
  (forall k' f, upto k' = upto k -> limits (dec k') = limits (dec k) -> behind k k' (zlen (rcontent r)) q ->
    out k' = out k ++ [ReplayingDecoder.Message f] -> delivered r f -> stateOf k' = 0 -> ready (dec k') ->
    leads (ReplayingDecoder.callDecode unfold fuel) k' Q) ->
  leads (ReplayingDecoder.callDecode unfold (S fuel)) k Q.
Proof.
  intros Hb Hf Hu Hne Hg Hst Hfi HQ.
  assert (0 < zlen (rcontent r)) as Hz by (destruct (rcontent r) as [|v t]; [contradiction | rewrite zlen_cons; pose proof (zlen_nonneg t); lia]).
  apply leads_turn; [lia|]. rewrite Hst. change (ReplayingDecoder.decode 5) with (decodeFixed (B := B) (V := V) (H := H)).
  eapply leads_weaken; [apply (leads_decodeFixed k p q r); assumption|].
  intros m k1 ([F1 F2 F3] & B1 & (f & -> & Hd) & Hst1 & Hr1). split; [left; destruct B1 as (p1 & _ & ? & ?); lia|].
  apply (HQ _ f); [exact F1 | exact F3 | exact B1 | cbn; congruence | exact Hd | exact Hst1 | exact Hr1].
Qed.

(** When it is not, the loop ends and the bytes stay. *)
Lemma leads_wait unfold fuel (k : config) r (Q : unit -> config -> Prop) :
  from k < upto k -> upto k - from k < zlen (rcontent r) -> good_request (dec k) r -> stateOf k = 5 -> filling r k ->
  (forall d, limits d = limits (dec k) -> filling r (with_dec d k) -> Q tt (with_more true (with_dec d k))) ->
  leads (ReplayingDecoder.callDecode unfold (S fuel)) k Q.
Proof.
  intros Hlt Hn Hg Hst Hfi HQ s (b & ck & -> & Hm). pose proof Hm as [Hw Hc Hr Hwr]. pose proof (zlen_queue b Hw) as Hq.
  rewrite Hr, Hwr in Hq. assert (queue b <> []) as Hne by (intros E; rewrite E in Hq; change (@zlen Z []) with 0 in Hq; lia).
  destruct (decodeFixed_short k r b (more k) Hg Hfi Hw) as (d' & E & Hl & Hfi'); [lia|].
  assert (Ed : ReplayingDecoder.decode (stateOf k) (ReplayingDecoder.MkD (dec k) (MkReplay b (more k) false) true (stateOf k) (readerIndex b) (out k)) =
    (Ok ReplayingDecoder.EMPTY_MESSAGE, ReplayingDecoder.MkD d' (MkReplay b true false) true (stateOf k) (readerIndex b) (out k)))
    by (rewrite Hst at 1; exact E).
  rewrite (callDecode_turn (RD := request_decoding) unfold fuel _ _ _ _ ck _ _ _ _ _ _ _ _ Hw Hne Ed). cbn [ReplayingDecoder.empty andb].
  rewrite Z.geb_leb, (proj2 (Z.leb_le _ _)) by (pose proof Hw as [_ [? _]]; unfold readerIndex in *; lia).
  pose proof (setReaderIndex_back b 0 0 Hw ltac:(lia)) as Eb. rewrite consume_0, Z.add_0_r in Eb.
  unfold ReplayingDecoder.on_cumulation, zoom. unfold ReplayingDecoder.cumulation at 1.
  cbn [ReplayingDecoder.replayable ReplayingDecoderBuffer.buffer]. rewrite Eb.
  eexists tt, (with_more true (with_dec d' k)), _. split; [reflexivity|]. split; [|exact (HQ d' Hl Hfi')].
  exists b, (readerIndex b). split; [reflexivity | exact Hm].
Qed.

(** *** Pieces

    A stream of requests may be cut behind a first line, behind the headers and
    anywhere in a content. *)
Inductive piece :=
  | FirstLine (r : request)
  | HeaderLines (r : request)
  | ContentByte (v : Z).

Definition piece_text (x : piece) : text :=
  match x with
  | FirstLine r => first_line (rkind r) (rversion r)
  | HeaderLines r => lines (rheaders r)
  | ContentByte v => [v]
  end.
Definition pieces_text (l : list piece) : text := concat (map piece_text l).

Definition pieces (r : request) : list piece := FirstLine r :: HeaderLines r :: map ContentByte (rcontent r).

(** Where the decoder is in a request, and the bytes that wait for the others. *)
Inductive phase :=
  | Idle
  | Named (r : request)
  | Filling (r : request) (got : text).

Definition waiting (ph : phase) : text := match ph with Filling _ got => got | _ => [] end.

(** The requests that the pieces complete. *)
Inductive arrive : phase -> list piece -> phase -> list request -> Prop :=
  | arrive_nil ph : arrive ph [] ph []
  | arrive_line r l ph rs : arrive (Named r) l ph rs -> arrive Idle (FirstLine r :: l) ph rs
  | arrive_headers r l ph rs : rcontent r = [] -> arrive Idle l ph rs -> arrive (Named r) (HeaderLines r :: l) ph (r :: rs)
  | arrive_headers_content r l ph rs : rcontent r <> [] -> arrive (Filling r []) l ph rs -> arrive (Named r) (HeaderLines r :: l) ph rs
  | arrive_byte r got v t l ph rs : rcontent r = got ++ v :: t -> t <> [] ->
      arrive (Filling r (got ++ [v])) l ph rs -> arrive (Filling r got) (ContentByte v :: l) ph rs
  | arrive_last r got v l ph rs : rcontent r = got ++ [v] -> arrive Idle l ph rs -> arrive (Filling r got) (ContentByte v :: l) ph (r :: rs).

Lemma arrive_split ph l1 l2 ph2 rs : arrive ph (l1 ++ l2) ph2 rs ->
  exists ph1 rs1 rs2, arrive ph l1 ph1 rs1 /\ arrive ph1 l2 ph2 rs2 /\ rs = rs1 ++ rs2.
Proof.
  revert ph rs. induction l1 as [|x l1 IH]; intros ph rs Ha; [exists ph, [], rs; repeat split; [constructor | exact Ha]|].
  cbn [app] in Ha. inversion Ha; subst;
    match goal with H : arrive _ (l1 ++ l2) _ _ |- _ => destruct (IH _ _ H) as (ph1 & rs1 & rs2 & ? & ? & ->) end;
    [exists ph1, rs1, rs2 | exists ph1, (r :: rs1), rs2 | exists ph1, rs1, rs2 | exists ph1, rs1, rs2 | exists ph1, (r :: rs1), rs2];
    (split; [econstructor; eassumption | auto]).
Qed.

Lemma arrive_content r t : forall got l ph rs, rcontent r = got ++ t -> t <> [] -> arrive Idle l ph rs ->
  arrive (Filling r got) (map ContentByte t ++ l) ph (r :: rs).
Proof.
  induction t as [|v t IH]; intros got l ph rs Hr Hne Hl; [contradiction|]. destruct t as [|v' t].
  - apply arrive_last; assumption.
  - eapply arrive_byte; [exact Hr | discriminate|]. apply IH; [rewrite Hr, <- app_assoc; reflexivity | discriminate | exact Hl].
Qed.

Lemma arrive_pieces rs : arrive Idle (concat (map pieces rs)) Idle rs.
Proof.
  induction rs as [|r rs IH]; [constructor|]. cbn [map concat]. unfold pieces at 1. cbn [app]. apply arrive_line.
  destruct (rcontent r) as [|v t] eqn:E; [apply arrive_headers; assumption|].
  apply arrive_headers_content; [rewrite E; discriminate|]. apply arrive_content; [exact E | discriminate | exact IH].
Qed.

(** The bytes of a content complete it, or all wait. *)
Lemma arrive_filling l : forall r got ph rs, arrive (Filling r got) l ph rs -> (exists t, t <> [] /\ rcontent r = got ++ t) ->
  (exists t l' rs', t <> [] /\ l = map ContentByte t ++ l' /\ rcontent r = got ++ t /\ rs = r :: rs' /\ arrive Idle l' ph rs') \/
  (exists t t', l = map ContentByte t /\ rcontent r = got ++ t ++ t' /\ t' <> [] /\ rs = [] /\ ph = Filling r (got ++ t)).
Proof.
  induction l as [|x l IH]; intros r got ph rs Ha (t0 & Ht0 & Er);
    inversion Ha as [| | | |r' g v t l' ph' rs1 E Hne Ha'|r' g v l' ph' rs1 E Ha']; subst.
  - right. exists [], t0. rewrite app_nil_r. auto.
  - destruct (IH r (got ++ [v]) ph rs) as [(t1 & l' & rs' & H1 & -> & H2 & -> & H3)|(t1 & t2 & -> & H2 & H3 & -> & ->)];
      [assumption | exists t; split; [exact Hne | rewrite <- app_assoc; exact E] | left | right].
    + exists (v :: t1), l', rs'. rewrite H2, <- app_assoc. split; [discriminate | auto].
    + exists (v :: t1), t2. rewrite H2, <- !app_assoc. auto.
  - left. exists [v], l, rs1. split; [discriminate | auto].
Qed.

Lemma pieces_text_app l1 l2 : pieces_text (l1 ++ l2) = pieces_text l1 ++ pieces_text l2.
Proof. unfold pieces_text. rewrite map_app, concat_app. reflexivity. Qed.

Lemma pieces_text_content t : pieces_text (map ContentByte t) = t.
Proof. unfold pieces_text. induction t as [|v t IH]; [reflexivity|]. cbn. f_equal. exact IH. Qed.

Lemma pieces_text_request r : pieces_text (pieces r) = request_text r.
Proof.
  rewrite request_text_eq. unfold pieces. change (?x :: ?y :: ?l) with ([x; y] ++ l). rewrite pieces_text_app, pieces_text_content.
  unfold pieces_text. cbn [map concat piece_text]. app_eq.
Qed.

(** What the decoder holds in a phase. *)
Definition at_phase (d0 : decoder) (ph : phase) (d : decoder) (st : Z) : Prop :=
  limits d = limits d0 /\
  match ph with
  | Idle => st = 0 /\ ready d
  | Named r => good_request d0 r /\ st = 2 /\ pointed d = true /\ headerSize d = 0 /\
      exists o h, carries r o /\ object d = Some (HttpMessage.with_header h o) /\ stands h []
  | Filling r got => good_request d0 r /\ st = 5 /\ pointed d = true /\
      (exists o h, carries r o /\ object d = Some (HttpMessage.with_header h o) /\ stands h (rheaders r)) /\
      exists t, t <> [] /\ rcontent r = got ++ t
  end.

Definition good_piece (d : decoder) (x : piece) : Prop :=
  match x with FirstLine r => good_request d r | _ => True end.

(** The outcome of a run of the loop: the requests that were completed are sent. *)
Definition outcome (d0 : decoder) (ph : phase) (rs : list request) (q : text) (k k' : config) : Prop :=
  exists fs p', out k' = out k ++ map ReplayingDecoder.Message fs /\ Forall2 delivered rs fs /\
    at_phase d0 ph (dec k') (stateOf k') /\ bytes k' = p' ++ waiting ph ++ q /\ from k' = zlen p' /\
    upto k' = upto k /\ zlen (bytes k') = zlen (bytes k).

Lemma outcome_later d0 ph rs q k k1 k2 fs1 rs1 :
  out k1 = out k ++ map ReplayingDecoder.Message fs1 -> Forall2 delivered rs1 fs1 -> upto k1 = upto k ->
  zlen (bytes k1) = zlen (bytes k) -> outcome d0 ph rs q k1 k2 -> outcome d0 ph (rs1 ++ rs) q k k2.
Proof.
  intros Ho Hfs Hu Hz (fs & p & Ho2 & Hfs2 & Hph & Hb & Hf & Hu2 & Hz2). exists (fs1 ++ fs), p.
  rewrite map_app, app_assoc, <- Ho. split; [exact Ho2|]. split; [apply List.Forall2_app; assumption|].
  split; [exact Hph|]. split; [exact Hb|]. split; [exact Hf|]. split; congruence.
Qed.

Lemma behind_zlen k k' p l q : bytes k = p ++ l ++ q -> from k = zlen p -> behind k k' (zlen l) q -> zlen (bytes k') = zlen (bytes k).
Proof. intros Hb Hf (p1 & -> & _ & Hz). rewrite Hb, !zlen_app. lia. Qed.

Section Loop.
Context (unfold : bool) (d0 : decoder) (q : text).

(** The pieces are decoded from the phase on. *)
Definition decodes (ph : phase) (l : list piece) : Prop :=
  forall ph' rs (k : config) p fuel, arrive ph l ph' rs -> at_phase d0 ph (dec k) (stateOf k) -> Forall (good_piece d0) l ->
  bytes k = p ++ waiting ph ++ pieces_text l ++ q -> from k = zlen p -> upto k = zlen p + zlen (waiting ph ++ pieces_text l) ->
  (2 * List.length l < fuel)%nat ->
  leads (ReplayingDecoder.callDecode unfold fuel) k (fun _ k' => outcome d0 ph' rs q k k').

(** What is left behind [n] bytes. *)
Lemma decodes_later ph l ph' rs (k k1 : config) p l0 fs1 rs1 fuel : decodes ph l -> arrive ph l ph' rs -> Forall (good_piece d0) l ->
  bytes k = p ++ l0 ++ pieces_text l ++ q -> from k = zlen p -> upto k = zlen p + zlen (l0 ++ pieces_text l) ->
  behind k k1 (zlen l0) (pieces_text l ++ q) -> waiting ph = [] -> upto k1 = upto k ->
  at_phase d0 ph (dec k1) (stateOf k1) -> out k1 = out k ++ map ReplayingDecoder.Message fs1 -> Forall2 delivered rs1 fs1 ->
  (2 * List.length l < fuel)%nat ->
  leads (ReplayingDecoder.callDecode unfold fuel) k1 (fun _ k' => outcome d0 ph' (rs1 ++ rs) q k k').
Proof.
  intros Hd Ha Hg Hb Hf Hu Hbe Hw Hu1 Hph Ho Hfs Hfuel. pose proof (behind_zlen k k1 p l0 _ Hb Hf Hbe) as Hz.
  destruct Hbe as (p1 & Hb1 & Hf1 & Hz1). eapply leads_weaken.
  - apply (Hd ph' rs k1 p1 fuel Ha Hph Hg); rewrite ?Hw; [exact Hb1 | exact Hf1 | | exact Hfuel].
    rewrite zlen_app in Hu. cbn [app]. lia.
  - intros u k2 Hout. exact (outcome_later d0 ph' rs q k k1 k2 fs1 rs1 Ho Hfs Hu1 Hz Hout).
Qed.

Lemma decodes_nil ph (k : config) p fuel : waiting ph = [] -> at_phase d0 ph (dec k) (stateOf k) ->
  bytes k = p ++ q -> from k = zlen p -> upto k = zlen p ->
  leads (ReplayingDecoder.callDecode unfold (S fuel)) k (fun _ k' => outcome d0 ph [] q k k').
Proof.
  intros Hw Hph Hb Hf Hu. apply leads_done; [congruence|]. exists [], p. rewrite app_nil_r, Hw.
  split; [reflexivity|]. split; [constructor | auto].
Qed.

Lemma idle_decodes l : (forall ph l', (List.length l' < List.length l)%nat -> decodes ph l') -> decodes Idle l.
Proof.
  intros IH ph' rs k p fuel Ha Hph Hg Hb Hf Hu Hfuel. cbn [waiting app] in *. pose proof Hph as [Hl [Hst Hr]].
  inversion Ha as [|r l' ph1 rs1 Ha'| | | |]; subst.
  - destruct fuel as [|fuel]; [lia|]. apply (decodes_nil Idle k p fuel); try assumption; [reflexivity|].
    change (zlen (pieces_text [])) with 0 in Hu. lia.
  - cbn [List.length] in *. apply List.Forall_cons_iff in Hg as [Hgr Hg]. destruct fuel as [|[|fuel]]; try lia.
    change (pieces_text (FirstLine r :: l')) with (piece_text (FirstLine r) ++ pieces_text l') in *. rewrite <- app_assoc in Hb.
    apply (leads_first_line unfold fuel k p _ r _ Hb Hf); [rewrite zlen_app in Hu; pose proof (zlen_nonneg (pieces_text l')); cbn in *; lia
      | exact (good_request_limits d0 _ r Hl Hgr) | exact Hst | exact Hr|].
    intros k1 [F1 F2 F3] B1 Hst1 Hp1 Hs1 (o & Hc & h & Ho & Hh).
    apply (decodes_later (Named r) l' ph' rs k k1 p _ [] [] fuel (IH _ _ (Nat.lt_succ_diag_r _)) Ha' Hg Hb Hf Hu B1);
      [reflexivity | exact F1 | | rewrite app_nil_r; exact F2 | constructor | lia].
    split; [congruence|]. repeat (split; [assumption|]). exists o, h. auto.
Qed.

Lemma named_decodes r l : (forall ph l', (List.length l' < List.length l)%nat -> decodes ph l') -> decodes (Named r) l.
Proof.
  intros IH ph' rs k p fuel Ha Hph Hg Hb Hf Hu Hfuel. cbn [waiting app] in *.
  pose proof Hph as (Hl & Hgr & Hst & Hp & Hs & o & h & Hc & Ho & Hh).
  destruct l as [|x l'].
  { inversion Ha; subst. destruct fuel as [|fuel]; [lia|]. apply (decodes_nil (Named r) k p fuel); try assumption; [reflexivity|].
    change (zlen (pieces_text [])) with 0 in Hu. lia. }
  assert (x = HeaderLines r /\ exists rs0 rs1 ph1, rs = rs0 ++ rs1 /\ waiting ph1 = [] /\ arrive ph1 l' ph' rs1 /\
    if is_empty (rcontent r) then rs0 = [r] /\ ph1 = Idle else rs0 = [] /\ ph1 = Filling r []) as (-> & rs0 & rs1 & ph1 & -> & Hw & Ha' & Hcase).
  { inversion Ha as [| |? ? ? rs1 He Ha'|? ? ? rs1 He Ha'| |]; subst; (split; [reflexivity|]).
    - exists [r], rs1, Idle. rewrite He. cbn [is_empty]. auto 7.
    - exists [], rs, (Filling r []). destruct (rcontent r); [contradiction|]. cbn [is_empty]. auto 7. }
  cbn [List.length] in *. apply List.Forall_cons_iff in Hg as [_ Hg]. destruct fuel as [|fuel]; [lia|].
  change (pieces_text (HeaderLines r :: l')) with (piece_text (HeaderLines r) ++ pieces_text l') in *. rewrite <- app_assoc in Hb.
  apply (leads_header_lines unfold fuel k p _ r o _ Hb Hf); try assumption;
    [rewrite zlen_app in Hu; pose proof (zlen_nonneg (pieces_text l')); cbn in *; lia | exact (good_request_limits d0 _ r Hl Hgr)
    | exists h; auto |].
  intros k1 F1 F3 B1 Hk1.
  assert (exists fs, out k1 = out k ++ map ReplayingDecoder.Message fs /\ Forall2 delivered rs0 fs /\ at_phase d0 ph1 (dec k1) (stateOf k1))
    as (fs & Ho1 & Hfs & Hph1).
  { destruct (rcontent r) as [|v t] eqn:Er; cbn [is_empty] in Hk1, Hcase; destruct Hcase as [-> ->].
    - destruct Hk1 as ((f & Ho1 & Hd) & Hst1 & Hr1). exists [f]. split; [exact Ho1|]. split; [constructor; [exact Hd | constructor]|].
      split; [congruence | auto].
    - destruct Hk1 as (Ho1 & Hst1 & Hp1 & o1 & Hc1 & h1 & Hob & Hh1). exists []. rewrite app_nil_r. split; [exact Ho1|]. split; [constructor|].
      split; [congruence|]. repeat (split; [assumption|]). split; [exists o1, h1; auto|]. exists (v :: t). split; [discriminate | exact Er]. }
  apply (decodes_later ph1 l' ph' rs1 k k1 p _ fs rs0 fuel (IH _ _ (Nat.lt_succ_diag_r _)) Ha' Hg Hb Hf Hu B1);
    try assumption. lia.
Qed.

Lemma filling_decodes r got l : (forall ph l', (List.length l' < List.length l)%nat -> decodes ph l') -> decodes (Filling r got) l.
Proof.
  intros IH ph' rs k p fuel Ha Hph Hg Hb Hf Hu Hfuel. cbn [waiting] in *.
  pose proof Hph as (Hl & Hgr & Hst & Hp & (o & h & Hc & Ho & Hh) & Ht).
  pose proof (good_request_limits d0 _ r Hl Hgr) as Hgk. destruct fuel as [|fuel]; [lia|].
  assert (filling r k) as Hfi by (split; [exact Hp | exists o; split; [exact Hc | exists h; auto]]).
  destruct (arrive_filling l r got ph' rs Ha Ht) as [(t & l' & rs' & Hne & -> & Er & -> & Ha')|(t & t' & -> & Er & Hne & -> & ->)].
  - rewrite pieces_text_app, pieces_text_content in *.
    assert (got ++ t ++ pieces_text l' = rcontent r ++ pieces_text l') as Eg by (rewrite Er, <- app_assoc; reflexivity).
    rewrite <- !app_assoc, (app_assoc got), <- Er in Hb. rewrite Eg in Hu. apply List.Forall_app in Hg as [_ Hg].
    rewrite length_app, length_map in *. assert (0 < List.length t)%nat by (destruct t; [contradiction | cbn; lia]).
    apply (leads_content unfold fuel k p _ r _ Hb Hf); try assumption;
      [rewrite zlen_app in Hu; pose proof (zlen_nonneg (pieces_text l')); lia | rewrite Er; destruct got, t; discriminate || contradiction|].
    intros k1 f F1 F3 B1 Ho1 Hd Hst1 Hr1.
    apply (decodes_later Idle l' ph' rs' k k1 p _ [f] [r] fuel (IH Idle l' ltac:(lia)) Ha' Hg Hb Hf Hu B1);
      [reflexivity | exact F1 | split; [congruence | auto] | exact Ho1 | constructor; [exact Hd | constructor] | lia].
  - rewrite pieces_text_content in *. destruct (list_eq_nil_dec (got ++ t)) as [En|En].
    + rewrite En in *. change (@zlen Z []) with 0 in Hu. apply app_eq_nil in En as [-> ->].
      apply (decodes_nil (Filling r []) k p fuel); [reflexivity | exact Hph | exact Hb | exact Hf | lia].
    + assert (0 < zlen (got ++ t)) as Hz by (destruct (got ++ t) as [|v g]; [contradiction | rewrite zlen_cons; pose proof (zlen_nonneg g); lia]).
      assert (zlen (rcontent r) = zlen (got ++ t) + zlen t' /\ 0 < zlen t') as [Hzr Hzt].
      { rewrite Er, app_assoc, zlen_app. split; [reflexivity|].
        destruct t' as [|v g]; [contradiction | rewrite zlen_cons; pose proof (zlen_nonneg g); lia]. }
      apply (leads_wait unfold fuel k r); [lia | lia | exact Hgk | exact Hst | exact Hfi|].
      intros d Hd (Hp' & o' & Hc' & h' & Ho' & Hh'). exists [], p. rewrite app_nil_r. split; [reflexivity|]. split; [constructor|].
      split; [|split; [cbn [waiting]; rewrite <- app_assoc in *; exact Hb | split; [exact Hf | auto]]].
      split; [exact (eq_trans Hd Hl)|]. split; [exact Hgr|]. split; [exact Hst|]. split; [exact Hp'|]. split; [exists o', h'; auto|].
      exists t'. rewrite <- app_assoc. auto.
Qed.

Lemma leads_pieces ph l : decodes ph l.
Proof.
  revert ph. induction l as [l IH] using (induction_ltof1 _ (@List.length piece)). unfold ltof in IH.
  intros [|r|r got]; [apply idle_decodes | apply named_decodes | apply filling_decodes]; intros ph l' Hl; exact (IH l' Hl ph).
Qed.

End Loop.
End Requests.

(** ** Connections *)

Section Connection.
Context {C V : Type} {RC : RawBuffer C} {RSC : ReadSpec C} {WSC : WriteSpec C} {WC : WriteBuffer C} {QC : QueueSpec C}
  {SB : SliceBuffer C V} {CV : Content (option V)} {SA : StringAlgorithms}.
Context {I : Type} {RI : RawBuffer I} {RSI : ReadSpec I} {WI : WriteBuffer I}.
Context (view_bytes : V -> list Z) {SS : SliceSpec C V view_bytes}.
Import HttpMessageDecoder.
Abbreviation H := DefaultHttpHeader.t.
Abbreviation decoder := (HttpMessageDecoder.t H V).
Abbreviation F := (output H (option V)).
Abbreviation handler := (ReplayingDecoder.handler decoder C F).
Context (newCumulation : result C) (unfold : bool) (room : Z).
Context (fresh : exists c, newCumulation = Ok c /\ wf c /\ queue c = [] /\ writerIndex c = 0 /\ room <= limit c).
#[local] Existing Instance request_decoding.

(** A handler between two pieces, after [n] bytes. *)
Record between (d : decoder) (ph : phase) (h : handler) (n : Z) : Prop := MkBetween {
  bt_buffer : exists c need, ReplayingDecoder.getReplayable newCumulation h = Ok (MkReplay c need false) /\
    wf c /\ queue c = waiting ph /\ writerIndex c <= n /\ room <= limit c;
  bt_phase : at_phase d ph (ReplayingDecoder.self h) (ReplayingDecoder.handlerState h);
}.

Lemma queue_split (b : C) : wf b -> exists p q, Buffer.content b = p ++ queue b ++ q /\ readerIndex b = zlen p.
Proof.
  intros [Hv [Hr Hw]]. exists (take (Z.to_nat (readerIndex b)) (Buffer.content b)),
    (drop (Z.to_nat (writerIndex b)) (Buffer.content b)). unfold queue, zsub, zlen in *. split.
  - rewrite <- (take_drop (Z.to_nat (readerIndex b)) (Buffer.content b)) at 1. f_equal.
    rewrite <- (take_drop (Z.to_nat (writerIndex b - readerIndex b)) (drop _ _)) at 1. f_equal.
    rewrite drop_drop. f_equal. lia.
  - rewrite length_take. lia.
Qed.

(** A piece has bytes. *)
Lemma pieces_nonempty (d : decoder) ph l ph' rs : arrive ph l ph' rs -> Forall (good_piece d) l -> pieces_text l = [] -> l = [].
Proof.
  intros Ha Hg E. destruct l as [|x l]; [reflexivity|]. exfalso. apply List.Forall_cons_iff in Hg as [Hg _].
  unfold pieces_text in E. cbn [map concat] in E. apply app_eq_nil in E as [E _]. destruct x as [r|r|v]; unfold piece_text in E.
  - destruct (request_starts d r Hg) as (c & t & Et & _). congruence.
  - pose proof (zlen_lines (rheaders r)) as Hz. rewrite E in Hz. change (@zlen Z []) with 0 in Hz. lia.
  - discriminate.
Qed.

Lemma receive_pieces (d : decoder) fuel (h : handler) n ph l ph' rs (i : I) :
  between d ph h n -> arrive ph l ph' rs -> wf i -> queue i = pieces_text l -> Forall (good_piece d) l ->
  0 <= n -> n + zlen (queue i) <= room -> (2 * List.length l < fuel)%nat ->
  exists h' i' fs, ReplayingDecoder.messageReceived newCumulation unfold fuel (h, i) = (Ok tt, (h', i')) /\
    between d ph' h' (n + zlen (queue i)) /\ ReplayingDecoder.sent h' = ReplayingDecoder.sent h ++ map ReplayingDecoder.Message fs /\
    Forall2 (delivered view_bytes) rs fs.
Proof.
  intros [(c & need & Eg & Hc & Hqc & Hwc & Hlc) Hph] Ha Hi Hq Hg Hn Hroom Hfuel.
  unfold ReplayingDecoder.messageReceived. destruct (AbstractChannelBuffer.readable i) eqn:Ei; cbn [negb].
  2:{ pose proof (queue_nil i Hi Ei) as Hnil. rewrite Hnil in Hq |- *.
      rewrite (pieces_nonempty d ph l ph' rs Ha Hg (eq_sym Hq)) in Ha. inversion Ha; subst.
      exists h, i, []. rewrite app_nil_r, Z.add_0_r. split; [reflexivity|]. split; [|split; [reflexivity | constructor]].
      split; [exists c, need; auto 6 | exact Hph]. }
  rewrite Eg.
  destruct (getCumulation_spec h c need i Hc Hi) as (c1 & i1 & E1 & Hc1 & Hq1 & Hl1 & Hw1).
  { pose proof (zlen_queue c Hc). pose proof Hc as [_ [Hr0 _]]. lia. }
  rewrite Hqc, Hq in Hq1. destruct (queue_split c1 Hc1) as (p & q & Hct & Hrd). rewrite Hq1, <- app_assoc in Hct.
  set (k := Config (Buffer.content c1) (readerIndex c1) (writerIndex c1) (ReplayingDecoder.self h) (ReplayingDecoder.handlerState h)
    need (ReplayingDecoder.sent h)).
  destruct (leads_pieces view_bytes unfold d q ph l ph' rs k p fuel Ha Hph Hg Hct Hrd) with
    (s := ReplayingDecoder.enter (MkReplay c1 need false) true h)
    as ([] & k' & s' & E2 & (b & ck & -> & [Hb Hbc Hbr Hbw]) & fs & p' & Hout & Hfs & Hph' & Hbk & Hfk & Hup & Hlen).
  { cbn. pose proof (zlen_queue c1 Hc1) as Hz. rewrite Hq1 in Hz. lia. }
  { exact Hfuel. }
  { exists c1, (ReplayingDecoder.handlerCheckedPoint h). split; [reflexivity | split; [exact Hc1 | reflexivity..]]. }
  rewrite (bind_ok _ _ _ _ _ E1). unfold zoom. cbn [fst snd]. rewrite E2.
  eexists _, _, fs. split; [reflexivity|]. split; [|split; [exact Hout | exact Hfs]].
  split; [|exact Hph']. exists b, (more k'). split; [reflexivity|]. split; [exact Hb|].
  assert (limit c1 <= limit b) by (apply limit_mono; rewrite Hbc, Hlen; reflexivity).
  pose proof (zlen_queue c1 Hc1) as Hz. pose proof (zlen_queue b Hb) as Hzb. rewrite Hq1 in Hz. cbn in Hup, Hlen.
  split; [|split; [lia | lia]]. rewrite Hct, Hbk, !zlen_app in Hlen. rewrite !zlen_app in Hz.
  unfold queue. rewrite Hbc, Hbr, Hbw, Hbk, Hup, Hfk. replace (writerIndex c1 - zlen p') with (zlen (waiting ph')) by lia.
  unfold zsub, zlen. rewrite !Nat2Z.id, drop_app_length, take_app_length. reflexivity.
Qed.

Lemma receive_segments (d : decoder) fuel segments : forall ph ph' rs (h : handler) n,
  between d ph h n -> 0 <= n -> arrive ph (concat (map fst segments)) ph' rs -> Forall (good_piece d) (concat (map fst segments)) ->
  Forall (fun '(l, i) => wf i /\ queue i = pieces_text l) segments -> (2 * List.length (concat (map fst segments)) < fuel)%nat ->
  n + zlen (pieces_text (concat (map fst segments))) <= room ->
  exists h' fs, receiveAll newCumulation unfold fuel (map snd segments : list I) h = (Ok tt, h') /\
    ReplayingDecoder.sent h' = ReplayingDecoder.sent h ++ map ReplayingDecoder.Message fs /\
    Forall2 (delivered view_bytes) rs fs.
Proof.
  induction segments as [|[l i] segments IH]; intros ph ph' rs h n Hh Hn Ha Hg Hs Hfuel Hroom; cbn [map concat receiveAll fst snd] in *.
  - inversion Ha; subst. exists h, []. rewrite app_nil_r. split; [reflexivity|]. split; [reflexivity | constructor].
  - apply List.Forall_cons_iff in Hs as [(Hi & Hq) Hs]. rewrite pieces_text_app, zlen_app in Hroom.
    apply List.Forall_app in Hg as [Hg1 Hg2]. rewrite length_app in Hfuel.
    destruct (arrive_split _ _ _ _ _ Ha) as (ph1 & rs1 & rs2 & Ha1 & Ha2 & ->).
    pose proof (zlen_nonneg (pieces_text l)). pose proof (zlen_nonneg (pieces_text (concat (map fst segments)))). rewrite <- Hq in *.
    destruct (receive_pieces d fuel h n ph l ph1 rs1 i Hh Ha1 Hi Hq Hg1 Hn) as (h1 & i1 & fs & E & Hh1 & Hsent & Hfs); [lia | lia |].
    rewrite E. destruct (IH ph1 ph' rs2 h1 _ Hh1) as (h2 & fs2 & E2 & Hsent2 & Hfs2); [lia | exact Ha2 | exact Hg2 | exact Hs | lia | lia |].
    exists h2, (fs ++ fs2). split; [exact E2|]. split; [rewrite Hsent2, Hsent, map_app, <- app_assoc; reflexivity|].
    apply List.Forall2_app; assumption.
Qed.

End Connection.

Section Delivery.
Context {N V : Type} {RN : RawBuffer N} {RSN : ReadSpec N} {WSN : WriteSpec N} {WN : WriteBuffer N}
  {QN : QueueSpec N} {FN : ChannelBufferFactory N} {FSN : FactorySpec N}.
Abbreviation C := (DynamicChannelBuffer.t N).
Context {SB : SliceBuffer C V} {CV : Content (option V)} {SA : StringAlgorithms}.
Context (view_bytes : V -> list Z) {SS : SliceSpec C V view_bytes}.
Context {I : Type} {RI : RawBuffer I} {RSI : ReadSpec I} {WI : WriteBuffer I}.
#[local] Existing Instance request_decoding.

(** C1: a stream of requests, encoded as [HttpRequestEncoder] does it, is decoded
    into these very requests, with their methods, URIs, versions, headers in their
    order and contents, and with no exception, whatever limits the decoder was
    given that the requests keep, and wherever the stream is cut into segments
    between the pieces: behind a first line, behind the headers, and anywhere in a
    content. *)
Theorem requests_delivered (o : ByteOrder) (unfold : bool) (fuel : nat) (a b c : Z)
    (d : HttpMessageDecoder.t DefaultHttpHeader.t V) (rs : list request) (segments : list (list piece * I)) :
  HttpMessageDecoder.new DefaultHttpHeader.new true a b c = Ok d ->
  Forall (good_request d) rs ->
  concat (map fst segments) = concat (map pieces rs) ->
  Forall (fun '(l, i) => wf i /\ queue i = pieces_text l) segments ->
  (2 * List.length (concat (map pieces rs)) < fuel)%nat ->
  zlen (concat (map request_text rs)) <= 2 ^ 30 ->
  exists h fs, receiveAll (DynamicChannelBuffer.dynamicBuffer o) unfold fuel (map snd segments : list I)
      (ReplayingDecoder.new (C := C) d 0) = (Ok tt, h) /\
    ReplayingDecoder.sent h = map ReplayingDecoder.Message fs /\ Forall2 (delivered view_bytes) rs fs.
Proof.
  intros Hd Hg Hcut Hs Hfuel Hlen. destruct (dynamicBuffer_fresh (N := N) o) as (cu & Ec & Hc & Hqc & Hwc & Hlc).
  assert (HttpMessageDecoder.object d = None) as Ho.
  { unfold HttpMessageDecoder.new in Hd. repeat destruct (_ <=? _) in Hd; try discriminate. destruct (_ <? _) in Hd; [discriminate|].
    injection Hd as <-. reflexivity. }
  apply (receive_segments view_bytes (DynamicChannelBuffer.dynamicBuffer o) unfold (2 ^ 30) d fuel segments Idle Idle rs
    (ReplayingDecoder.new d 0) 0); rewrite ?Hcut; [|lia | apply arrive_pieces | | exact Hs | exact Hfuel |].
  - split.
    + exists cu, false. unfold ReplayingDecoder.getReplayable. cbn [ReplayingDecoder.new ReplayingDecoder.held ReplayingDecoder.buffers].
      rewrite Ec. split; [reflexivity|].
      split; [exact Hc | split; [exact Hqc | split; [rewrite Hwc; reflexivity | exact Hlc]]].
    + split; [reflexivity|]. split; [reflexivity|]. unfold ready. cbn. rewrite Ho. exact Logic.I.
  - clear -Hg. induction Hg as [|r rs Hr Hg IH]; cbn [map concat]; [constructor|]. apply List.Forall_app. split; [|exact IH].
    unfold pieces. apply List.Forall_cons; [exact Hr|]. apply List.Forall_cons; [exact Logic.I|].
    induction (rcontent r) as [|v t IHt]; cbn [map]; [apply List.Forall_nil | apply List.Forall_cons; [exact Logic.I | exact IHt]].
  - rewrite Z.add_0_l. enough (pieces_text (concat (map pieces rs)) = concat (map request_text rs)) as -> by exact Hlen.
    clear. induction rs as [|r rs IH]; [reflexivity|]. cbn [map concat]. rewrite pieces_text_app, pieces_text_request, IH. reflexivity.
Qed.
End Delivery.

Section Witnesses.
#[local] Existing Instance cLocale.
#[local] Existing Instance zeroAllocator.
#[local] Existing Instance request_decoding.
Abbreviation heap := HeapChannelBuffer.t.
Abbreviation dyn := (DynamicChannelBuffer.t HeapChannelBuffer.t).

#[local] Instance region_content : Content (option (list Z)) := {|
  content_readable v := match v with Some v => negb (is_empty v) | None => false end;
  content_length v := match v with Some v => zlen v | None => 0 end;
  EMPTY_CONTENT := None;
|}.
#[local] Instance region_slices : SliceBuffer dyn (list Z) := {|
  slice b i n := let? bs := bytes_at (Buffer.content b) i n in Ok bs
|}.

Abbreviation big := (heap_of BYTE_ORDER_BIG).
Abbreviation dec0 := (HttpMessageDecoder.newDefault (V := list Z) DefaultHttpHeader.new true).

#[local] Instance region_slice_spec : SliceSpec dyn (list Z) id.
Proof.
  split. intros b i n _ Hr _. exists (zsub (Buffer.content b) i n). unfold slice, region_slices.
  rewrite bytes_at_ok by exact Hr. split; reflexivity.
Qed.

Definition get_a : request :=
  MkRequest HttpMethod.HM_GET (str "/a") HttpVersion.HTTP_1_1 [(str "Host", str "x y")] [].
Definition put_b : request :=
  MkRequest (HttpMethod.MkMethod (str "PUT")) (str "/b") HttpVersion.HTTP_1_0 [(str "Content-Length", str "3")] (str "abc").

Ltac good_text := repeat first [apply List.Forall_cons; [repeat split; discriminate || reflexivity|] | apply List.Forall_nil].

Lemma get_a_good : good_request dec0 get_a.
Proof.
  split; try solve [repeat split; try discriminate; try reflexivity; good_text | left; reflexivity].
  apply List.Forall_cons; [|apply List.Forall_nil]. repeat split; try discriminate; try reflexivity; try good_text.
  exists 120, (str " y"). split; reflexivity.
Qed.

Lemma put_b_good : good_request dec0 put_b.
Proof.
  split; try solve [repeat split; try discriminate; try reflexivity; good_text | right; reflexivity].
  apply List.Forall_cons; [|apply List.Forall_nil]. repeat split; try discriminate; try reflexivity; try good_text.
  exists 51, []. split; reflexivity.
Qed.

(** The second request is cut behind its first line and in its content. *)
Definition cut0 : list (list piece) :=
  [pieces get_a ++ [FirstLine put_b]; [HeaderLines put_b; ContentByte 97]; [ContentByte 98]; ContentByte 99 :: pieces get_a].
Definition segments0 : list (list piece * heap) := map (fun l => (l, big (pieces_text l))) cut0.

Lemma requests_delivered_witness :
  exists (h : ReplayingDecoder.handler _ dyn _) fs,
    receiveAll (DynamicChannelBuffer.dynamicBuffer BYTE_ORDER_BIG) true 20 (map snd segments0) (ReplayingDecoder.new dec0 0) = (Ok tt, h) /\
    ReplayingDecoder.sent h = map ReplayingDecoder.Message fs /\ Forall2 (delivered id) [get_a; put_b; get_a] fs.
Proof.
  apply (requests_delivered id BYTE_ORDER_BIG true 20 4096 8192 8192 dec0 [get_a; put_b; get_a] segments0);
    [reflexivity | | reflexivity | | vm_compute; lia | vm_compute; discriminate].
  - apply List.Forall_cons; [exact get_a_good | apply List.Forall_cons; [exact put_b_good | apply List.Forall_cons; [exact get_a_good | apply List.Forall_nil]]].
  - repeat (apply List.Forall_cons; [split; [apply big_wf; [reflexivity | vm_compute; lia] | reflexivity]|]). apply List.Forall_nil.
Defined.

(** *** Connections that fail *)

Definition crlf : text := [13; 10].
Definition receive (segments : list text) : result unit * list (ReplayingDecoder.message (HttpMessageDecoder.output _ (option (list Z)))) :=
  let '(r, h) := receiveAll (C := dyn) (DynamicChannelBuffer.dynamicBuffer BYTE_ORDER_BIG) true 100 (map big segments)
    (ReplayingDecoder.new dec0 0) in (r, ReplayingDecoder.sent h).

(** A first line in two segments, headers in two segments, a header without a
    value: each makes the decoder use a null pointer. *)
Example split_line_fails :
  receive [str "GET /a"; str " HTTP/1.1" ++ crlf ++ crlf] = (Err Undefined, []).
Proof. vm_compute. reflexivity. Qed.

Example split_headers_fail :
  receive [str "GET /a HTTP/1.1" ++ crlf ++ str "Host: a" ++ crlf; str "B: c" ++ crlf ++ crlf] = (Err Undefined, []).
Proof. vm_compute. reflexivity. Qed.

Example empty_value_fails :
  receive [str "GET /a HTTP/1.1" ++ crlf ++ str "Host: " ++ crlf ++ crlf] = (Err Undefined, []).
Proof. vm_compute. reflexivity. Qed.

End Witnesses.
