(* ===== verification/WebSocket.v ===== *)
(** * Web socket frames

    [src/src/cetty/handler/codec/http/websocket] and [handler/codec/oneone]: a frame
    with its type and data, the encoder, a handler of one message to one message,
    and the decoder, which reads through the replaying buffer. *)

From Stdlib Require Import Strings.String.
From S2P Require Import Prelude MachineInt Buffer AbstractBuffer BufferUtil Text Replay.

(** ** DefaultWebSocketFrame *)

Module DefaultWebSocketFrame.

Record t (N : Type) := MkFrame {
  type : Z;
  binaryData : N;
}.
Arguments MkFrame {N} _ _.
Arguments type {N} _.
Arguments binaryData {N} _.

Section Ops.
Context {N : Type} {RN : RawBuffer N} {WN : WriteBuffer N}.

Definition getType (f : t N) : Z := type f.
Definition isText (f : t N) : bool := Z.land (type f) 0x80 =? 0.
Definition isBinary (f : t N) : bool := negb (isText f).
Definition getBinaryData (f : t N) : N := binaryData f.

(** [setData], which the constructors call: the members it stores.  [None] is
    the null pointer. *)
Definition setData (type : Z) (binaryData : option N) : result (t N) :=
  match binaryData with
  | None => Err NullPointerException
  | Some binaryData =>
      let? delimPos :=
        if Z.land type 0x80 =? 0
        then BufferUtil.indexOfByte binaryData (AbstractChannelBuffer.readerIndex binaryData)
               (AbstractChannelBuffer.writerIndex binaryData) (i8 0xFF)
        else Ok (-1) in
      if delimPos >=? 0 then Err InvalidArgumentException
      else Ok (MkFrame (Z.land type 0xFF) binaryData)
  end.

(** [WebSocketFrame::CLOSING_HANDSHAKE]. *)
Definition CLOSING_HANDSHAKE {FN : ChannelBufferFactory N} : result (t N) :=
  setData 0xFF (Some EMPTY_BUFFER).

(** [getTextData]: the C string it points to, and what it does to the data of the
    frame.  [array] is the array of the buffer.  The member [text] is cleared
    before each use. *)
Definition getTextData (array : N -> list Z) : M (t N) text := fun f =>
  let '(r, data) :=
    (let! writable := gets AbstractChannelBuffer.writable in
     if writable : bool then
       Buffer.writeByte 0 ;!
       let! b := gets id in
       ret (Integer.c_str (array b))
     else
       let! text := AbstractChannelBuffer.readBytesString [] in
       ret (Integer.c_str text)) (binaryData f) in
  (r, MkFrame (type f) data).

Definition toString (f : t N) : result text :=
  let? dump := BufferUtil.hexDump (binaryData f) in
  Ok (str "DefaultWebSocketFrame"%string ++ str "(type: "%string ++ Integer.toString (getType f) ++
      str ", data: "%string ++ dump ++ str ")"%string).

End Ops.
End DefaultWebSocketFrame.

(** ** OneToOneEncoder and OneToOneDecoder

    [ChannelMessage], as far as handlers tell messages apart: what [rawPointer]
    and [smartPointer] of the frame type give, a null pointer being [None]. *)

Module ChannelMessage.

Inductive t (X N : Type) :=
  | EMPTY_MESSAGE
  | OfBuffer (b : N)
  | OfRawPointer (x : option X)
  | OfSmartPointer (x : option X)
  | OfOther.
Arguments EMPTY_MESSAGE {X N}.
Arguments OfBuffer {X N} _.
Arguments OfRawPointer {X N} _.
Arguments OfSmartPointer {X N} _.
Arguments OfOther {X N}.

Definition rawPointer {X N} (msg : t X N) : option X :=
  match msg with OfRawPointer x => x | _ => None end.

Definition empty {X N} (msg : t X N) : bool :=
  match msg with EMPTY_MESSAGE => true | _ => false end.

End ChannelMessage.

Module OneToOne.

(** What [encode] or [decode] returns: [msg] itself, or another object. *)
Inductive coded (X N : Type) :=
  | Same
  | New (msg : ChannelMessage.t X N).
Arguments Same {X N}.
Arguments New {X N} _.

(** What the handler sends on: the event it got, an event of the new message
    with the future and the address of that event, or nothing. *)
Inductive sent (X N : Type) :=
  | SendEvent
  | SendMessage (msg : ChannelMessage.t X N)
  | SendNothing.
Arguments SendEvent {X N}.
Arguments SendMessage {X N} _.
Arguments SendNothing {X N}.

Section Handlers.
Context {X N : Type} (code : ChannelMessage.t X N -> result (coded X N)).

(** [OneToOneEncoder::writeRequested]. *)
Definition writeRequested (originalMessage : ChannelMessage.t X N) : result (sent X N) :=
  let? encodedMessage := code originalMessage in
  match encodedMessage with
  | Same => Ok SendEvent
  | New encodedMessage =>
      if negb (ChannelMessage.empty encodedMessage) then Ok (SendMessage encodedMessage)
      else Ok SendNothing
  end.

(** [OneToOneDecoder::messageReceived]. *)
Definition messageReceived (originalMessage : ChannelMessage.t X N) : result (sent X N) :=
  let? decodedMessage := code originalMessage in
  match decodedMessage with
  | Same => Ok SendEvent
  | New decodedMessage =>
      if negb (ChannelMessage.empty decodedMessage) then Ok (SendMessage decodedMessage)
      else Ok SendNothing
  end.

End Handlers.
End OneToOne.

(** ** WebSocketFrameEncoder *)

Module WebSocketFrameEncoder.
Import DefaultWebSocketFrame.

Section Encode.
Context {N : Type} {RN : RawBuffer N} {WN : WriteBuffer N} {FN : ChannelBufferFactory N}.

(** "Encode length." *)
Definition encodeLength (dataLen : Z) : M N unit :=
  let b1 := Z.land (Z.shiftr dataLen 28) 0x7F in
  let b2 := Z.land (Z.shiftr dataLen 14) 0x7F in
  let b3 := Z.land (Z.shiftr dataLen 7) 0x7F in
  let b4 := Z.land dataLen 0x7F in
  if b1 =? 0 then
    if b2 =? 0 then
      if b3 =? 0 then Buffer.writeByte b4
      else
        Buffer.writeByte (Z.lor b3 0x80) ;!
        Buffer.writeByte b4
    else
      Buffer.writeByte (Z.lor b2 0x80) ;!
      Buffer.writeByte (Z.lor b3 0x80) ;!
      Buffer.writeByte b4
  else
    Buffer.writeByte (Z.lor b1 0x80) ;!
    Buffer.writeByte (Z.lor b2 0x80) ;!
    Buffer.writeByte (Z.lor b3 0x80) ;!
    Buffer.writeByte b4.

(** The writes to the new buffer. *)
Definition encodeInto (frame : t N) : M N unit :=
  let type := getType frame in
  let data := getBinaryData frame in
  let dataLen := AbstractChannelBuffer.readableBytes data in
  let writeData :=
    Buffer.writeBytesBuffer (Buffer.getBytes data) (AbstractChannelBuffer.readerIndex data) dataLen in
  if isText frame then
    Buffer.writeByte type ;!
    writeData ;!
    Buffer.writeByte 0xFF
  else
    Buffer.writeByte type ;!
    encodeLength dataLen ;!
    writeData.

Definition encodeFrame (frame : t N) : result N :=
  let data := getBinaryData frame in
  let dataLen := AbstractChannelBuffer.readableBytes data in
  let? encoded := getBuffer (Buffer.order data) (i32 (dataLen + (if isText frame then 2 else 5))) in
  match encodeInto frame encoded with
  | (Ok _, encoded) => Ok encoded
  | (Err e, _) => Err e
  end.

Definition encode (msg : ChannelMessage.t (t N) N) : result (OneToOne.coded (t N) N) :=
  match ChannelMessage.rawPointer msg with
  | Some frame =>
      let? encoded := encodeFrame frame in
      Ok (OneToOne.New (ChannelMessage.OfBuffer encoded))
  | None => Ok OneToOne.Same
  end.

Definition writeRequested : ChannelMessage.t (t N) N -> result (OneToOne.sent (t N) N) :=
  OneToOne.writeRequested encode.

End Encode.
End WebSocketFrameEncoder.

(** ** WebSocketFrameDecoder *)

Module WebSocketFrameDecoder.
Import ReplayingDecoder.

Definition DEFAULT_MAX_FRAME_SIZE : Z := 16384.

Record t := MkDecoder {
  receivedClosingHandshake : bool;
  maxFrameSize : Z;
}.

(** The constructors. *)
Definition new (maxFrameSize : Z) : t := MkDecoder true maxFrameSize.
Definition newDefault : t := MkDecoder true DEFAULT_MAX_FRAME_SIZE.

Definition clone (d : t) : t := new (maxFrameSize d).

Definition set_receivedClosingHandshake (r : bool) (d : t) : t := MkDecoder r (maxFrameSize d).

Section Decode.
Context {B : Type} {RB : RawBuffer B} {WB : WriteBuffer B}.
Context {N : Type} {RN : RawBuffer N} {WN : WriteBuffer N} {FN : ChannelBufferFactory N}.
Abbreviation frame := (DefaultWebSocketFrame.t N).
Abbreviation DM := (M (dstate t B frame)).

Definition newFrame (type : Z) (data : N) : DM (message frame) :=
  let! f := reads (fun _ => DefaultWebSocketFrame.setData type (Some data)) in
  ret (Message f).

(** The loop that reads the length, [None] when more bytes are needed.  It ends
    within nine turns, as [lengthFieldSize] then exceeds 8. *)
Fixpoint decodeLength (fuel : nat) (frameSize lengthFieldSize : Z) : DM (option Z) :=
  match fuel with
  | O => throw Undefined
  | S fuel =>
      let! b := on_replayable ReplayingDecoderBuffer.readByte in
      let! s := gets id in
      if ReplayingDecoderBuffer.needMoreBytes (replayable s) then ret None
      else
        let frameSize := i32 (Z.shiftl frameSize 7) in
        let frameSize := Z.lor frameSize (Z.land b 0x7f) in
        throw_if (frameSize >? maxFrameSize (decoder s)) TooLongFrameException ;!
        let lengthFieldSize := lengthFieldSize + 1 in
        throw_if (lengthFieldSize >? 8) TooLongFrameException ;!
        if Z.land b 0x80 =? 0x80 then decodeLength fuel frameSize lengthFieldSize
        else ret (Some frameSize)
  end.

Definition decodeBinaryFrame (type : Z) : DM (message frame) :=
  let! frameSize := decodeLength 9 0 0 in
  match frameSize with
  | None => ret EMPTY_MESSAGE
  | Some frameSize =>
      (if (type =? 0xFF) && (frameSize =? 0)
       then modify (fun s => with_decoder (set_receivedClosingHandshake true (decoder s)) s) else ret tt) ;!
      let! data := on_replayable (ReplayingDecoderBuffer.readBytesLen frameSize) in
      newFrame type data
  end.

Definition decodeTextFrame (type : Z) : DM (message frame) :=
  let! s := gets id in
  let max := maxFrameSize (decoder s) in
  let ridx := ReplayingDecoderBuffer.readerIndex (replayable s) in
  let rbytes := actualReadableBytes s in
  let! delimPos := on_replayable (ReplayingDecoderBuffer.indexOf ridx (i32 (ridx + rbytes)) (i8 0xFF)) in
  if delimPos =? -1 then
    if rbytes >? max then throw TooLongFrameException else ret EMPTY_MESSAGE
  else
    let frameSize := i32 (delimPos - ridx) in
    throw_if (frameSize >? max) TooLongFrameException ;!
    let! binaryData := on_replayable (ReplayingDecoderBuffer.readBytesLen frameSize) in
    on_replayable (ReplayingDecoderBuffer.skipBytes 1) ;!
    newFrame type binaryData.

(** [decode] behind its first test. *)
Definition decodeFrame : DM (message frame) :=
  let! type := on_replayable ReplayingDecoderBuffer.readByte in
  let! s := gets id in
  if ReplayingDecoderBuffer.needMoreBytes (replayable s) then ret EMPTY_MESSAGE
  else if Z.land type 0x80 =? 0x80 then decodeBinaryFrame type
  else decodeTextFrame type.

Definition decode (state : Z) : DM (message frame) :=
  let! s := gets id in
  if receivedClosingHandshake (decoder s) then
    on_replayable (ReplayingDecoderBuffer.skipBytes (actualReadableBytes s)) ;!
    ret EMPTY_MESSAGE
  else decodeFrame.

(** [decodeLast] is that of [ReplayingDecoder]: it calls [decode]. *)
#[global] Instance decoding : ReplayDecoding t B frame := {|
  ReplayingDecoder.decode := decode;
  ReplayingDecoder.decodeLast := decode;
|}.

End Decode.
End WebSocketFrameDecoder.
