(* ===== verification/WebSocketProperties.v ===== *)
(** * What the web socket codec does

    A decoder as its constructors leave it drops whatever arrives; what the
    encoder writes is what the decoding functions read back, up to the lengths
    that the encoder's shift loses. *)

From S2P Require Import Prelude MachineInt Buffer AbstractBuffer BufferTheory.
From S2P Require Import HeapBuffer DynamicBuffer BufferUtil Replay FrameDecoders FrameProperties.
From S2P Require Import BufferProperties ReplayProperties Text WebSocket.
Import ReplayingDecoder WebSocketFrameDecoder.
Import AbstractChannelBuffer (readerIndex, writerIndex).

(** ** A new decoder *)

Section Deaf.
Context {N : Type} {RN : RawBuffer N} {RSN : ReadSpec N} {WSN : WriteSpec N} {WN : WriteBuffer N}
  {QN : QueueSpec N} {FN : ChannelBufferFactory N} {FSN : FactorySpec N}.
Abbreviation F := (DefaultWebSocketFrame.t N).

Section Any.
Context {B : Type} {RB : RawBuffer B} {RS : ReadSpec B} {WB : WriteBuffer B}.

Lemma deaf_decode d st (b : B) need term c s ck (l : list (message F)) :
  receivedClosingHandshake d = true -> wf b ->
  ReplayingDecoder.decode st (MkD d (MkReplay b need term) c s ck l)
  = (Ok EMPTY_MESSAGE, MkD d (MkReplay (consume (if c then zlen (queue b) else 0) b) false term) c s ck l).
Proof.
  intros Hd H. pose proof (zlen_nonneg (queue b)).
  cbn [ReplayingDecoder.decode decoding]. unfold decode. rewrite bind_gets. unfold id.
  cbn [decoder]. rewrite Hd. unfold actualReadableBytes, cumulation.
  cbn [cumulated replayable ReplayingDecoderBuffer.buffer]. rewrite readableBytes_queue by exact H.
  erewrite bind_ok by (apply replay_skipBytes; [exact H | destruct c; lia]). reflexivity.
Qed.

Lemma deaf_callDecode unfold fuel d st (b : B) need ck (l : list (message F)) :
  receivedClosingHandshake d = true -> wf b -> (2 <= fuel)%nat ->
  exists b' need' ck', callDecode unfold fuel (MkD d (MkReplay b need false) true st ck l)
    = (Ok tt, MkD d (MkReplay b' need' false) true st ck' l) /\
    wf b' /\ queue b' = [] /\ content b' = content b.
Proof.
  intros Hd H Hf. pose proof (zlen_nonneg (queue b)) as Hz.
  assert (forall f n (b : B) c, wf b -> queue b = [] ->
    callDecode unfold (S f) (MkD d (MkReplay b n false) true st c l)
    = (Ok tt, MkD d (MkReplay b n false) true st c l)) as Hend.
  { intros f n b0 c H0 Hq. cbn [callDecode]. rewrite bind_gets. unfold id, cumulation at 1.
    cbn [replayable ReplayingDecoderBuffer.buffer]. rewrite readable_queue, Hq by exact H0. reflexivity. }
  destruct fuel as [|[|fuel]]; [lia..|].
  destruct (decide (queue b = [])) as [Hq|Hq].
  { exists b, need, ck. split; [apply Hend; assumption | auto]. }
  rewrite (callDecode_turn unfold _ _ _ _ _ _ _ _ _ _ _ _ _ _ H Hq (deaf_decode d st b need false true st _ l Hd H)).
  cbn [empty andb].
  assert (0 < zlen (queue b)) by (destruct (Z.eq_dec (zlen (queue b)) 0) as [E|]; [apply zlen_0 in E; contradiction | lia]).
  rewrite (proj2 (Z.eqb_neq _ _)) by (rewrite consume_readerIndex; lia). cbn [andb].
  assert (wf (consume (zlen (queue b)) b) /\ queue (consume (zlen (queue b)) b) = []) as [Hw Hq'].
  { split; [apply consume_wf; [exact H | lia]|]. rewrite consume_queue by (exact H || lia).
    unfold zlen. rewrite Nat2Z.id. apply drop_all. }
  eexists _, _, _. rewrite Hend by assumption. split; [reflexivity|].
  split; [exact Hw|]. split; [exact Hq'|]. unfold consume. apply content_put.
Qed.
End Any.

Abbreviation C := (DynamicChannelBuffer.t N).
Context {I : Type} {RI : RawBuffer I} {RSI : ReadSpec I} {WI : WriteBuffer I}.

(** A handler that has dropped all it got, and reported nothing. *)
Record deaf (d : WebSocketFrameDecoder.t) (h : handler WebSocketFrameDecoder.t C F) : Prop := MkDeaf {
  deaf_self : self h = d;
  deaf_sent : sent h = [];
  deaf_held : buffers h = None \/ exists c need, buffers h = Some (MkReplay c need false) /\
    wf c /\ queue c = [] /\ 2 ^ 30 <= limit c;
}.

Lemma deaf_received o unfold fuel d (h : handler WebSocketFrameDecoder.t C F) (i : I) :
  receivedClosingHandshake d = true -> deaf d h -> wf i -> zlen (queue i) <= 2 ^ 30 -> (2 <= fuel)%nat ->
  exists h' i', messageReceived (DynamicChannelBuffer.dynamicBuffer o) unfold fuel (h, i) = (Ok tt, (h', i')) /\
    deaf d h'.
Proof.
  intros Hd [Hs Hl Hh] Hi Hm Hf. unfold messageReceived.
  destruct (AbstractChannelBuffer.readable i); cbn [negb].
  2:{ exists h, i. split; [reflexivity | split; assumption]. }
  destruct (dynamicBuffer_fresh (N := N) o) as (c0 & Ec & Hc0 & Hq0 & _ & Hl0).
  assert (exists c need, getReplayable (DynamicChannelBuffer.dynamicBuffer o) h = Ok (MkReplay c need false) /\
    wf c /\ queue c = [] /\ 2 ^ 30 <= limit c) as (c & need & -> & Hc & Hq & Hlc).
  { assert (2 ^ 30 <= limit c0) by (change (limit c0) with (dynamic_limit c0); lia).
    unfold getReplayable. rewrite Ec. destruct Hh as [->|(c & need & -> & Hc)], (held h);
      first [exists c0, false; split; [reflexivity | auto] | exists c, need; split; [reflexivity | exact Hc]]. }
  destruct (getCumulation_spec h c need i Hc Hi) as (c1 & i1 & E1 & Hc1 & Hq1 & Hl1 & _);
    [rewrite Hq; change (zlen []) with 0; lia|].
  rewrite (bind_ok _ _ _ _ _ E1). unfold zoom. cbn [fst snd]. unfold enter at 1.
  destruct (deaf_callDecode unfold fuel (self h) (handlerState h) c1 need (handlerCheckedPoint h) (sent h))
    as (c2 & need' & ck' & E2 & Hc2 & Hq2 & Hct); [rewrite Hs; exact Hd | exact Hc1 | exact Hf|].
  rewrite E2. eexists _, _. split; [reflexivity|]. split; [exact Hs | exact Hl|].
  right. exists c2, need'. split; [reflexivity|]. split; [exact Hc2|]. split; [exact Hq2|].
  assert (limit c1 <= limit c2) by (apply limit_mono; rewrite Hct; lia). lia.
Qed.

Lemma deaf_receivedAll o unfold fuel d (messages : list I) (h : handler WebSocketFrameDecoder.t C F) :
  receivedClosingHandshake d = true -> deaf d h -> (2 <= fuel)%nat ->
  List.Forall (fun i => wf i /\ zlen (queue i) <= 2 ^ 30) messages ->
  exists h', receiveAll (DynamicChannelBuffer.dynamicBuffer o) unfold fuel messages h = (Ok tt, h') /\ deaf d h'.
Proof.
  intros Hd Hh Hf Hm. revert h Hh. induction Hm as [|i messages [Hi Hz] _ IH]; intros h Hh.
  { exists h. split; [reflexivity | exact Hh]. }
  destruct (deaf_received o unfold fuel d h i Hd Hh Hi Hz Hf) as (h1 & i1 & E & H1).
  cbn [receiveAll]. rewrite E. apply IH, H1.
Qed.

Lemma deaf_cleanup unfold fuel d (h : handler WebSocketFrameDecoder.t C F) :
  receivedClosingHandshake d = true -> deaf d h ->
  exists b h', cleanup unfold fuel h = (Ok b, h') /\ sent h' = [].
Proof.
  intros Hd [Hs Hl Hh]. unfold cleanup. destruct (held h); [|eexists _, _; split; [reflexivity | exact Hl]].
  destruct Hh as [->|(c & need & -> & Hc & Hq & _)]; [eexists _, _; split; [reflexivity | exact Hl]|].
  unfold enter, ReplayingDecoderBuffer.terminate.
  cbn [ReplayingDecoderBuffer.buffer ReplayingDecoderBuffer.needMore]. rewrite bind_assoc, bind_gets. unfold id.
  unfold cumulation. cbn [replayable ReplayingDecoderBuffer.buffer]. rewrite readable_queue, Hq by exact Hc.
  change (negb (zlen [] =? 0)) with false. cbv iota. rewrite bind_ret_l, bind_gets. cbn [state].
  change (ReplayingDecoder.decodeLast (B := C) (F := F) (D := WebSocketFrameDecoder.t)) with (ReplayingDecoder.decode (B := C) (F := F) (D := WebSocketFrameDecoder.t)).
  erewrite bind_ok by (apply deaf_decode; [rewrite Hs; exact Hd | exact Hc]).
  cbn [empty]. eexists _, _. split; [reflexivity | exact Hl].
Qed.

(** A decoder as its constructors make it starts in the state that follows
    the closing handshake: it drops every byte of every message of a connection
    and never reports a frame, however many messages of up to 2^30 bytes arrive
    and when the channel is closed; two turns of the loop are enough. *)
Theorem new_decoder_is_deaf (o : ByteOrder) (unfold : bool) (fuel : nat) (maxFrameSize st : Z)
    (messages : list I) :
  List.Forall (fun i => wf i /\ zlen (queue i) <= 2 ^ 30) messages -> (2 <= fuel)%nat ->
  exists h, receiveAll (DynamicChannelBuffer.dynamicBuffer o) unfold fuel messages
      (ReplayingDecoder.new (WebSocketFrameDecoder.new maxFrameSize) st) = (Ok tt, h) /\
    sent h = [] /\
    (forall r, buffers h = Some r -> queue (ReplayingDecoderBuffer.buffer r) = []) /\
    exists b h', cleanup unfold fuel h = (Ok b, h') /\ sent h' = [].
Proof.
  intros Hm Hf. set (d := WebSocketFrameDecoder.new maxFrameSize).
  assert (deaf d (ReplayingDecoder.new d st)) as Hn by (split; auto).
  destruct (deaf_receivedAll o unfold fuel d messages _ eq_refl Hn Hf Hm) as (h & E & Hh).
  exists h. split; [exact E|]. split; [apply (deaf_sent _ _ Hh)|].
  split; [|exact (deaf_cleanup unfold fuel d h eq_refl Hh)].
  intros r Er. destruct (deaf_held _ _ Hh) as [->|(c & need & -> & _ & Hq & _)] in Er |- *; [discriminate|].
  injection Er as <-. exact Hq.
Qed.
End Deaf.

(** ** What the encoder writes *)

Section Encoder.
Context {N : Type} {RN : RawBuffer N} {RSN : ReadSpec N} {WN : WriteBuffer N}
  {QN : QueueSpec N} {FN : ChannelBufferFactory N} {FSN : FactorySpec N}.
Import DefaultWebSocketFrame WebSocketFrameEncoder.

(** The digits, of base 128, that the encoder writes for a length: those before
    the last one, and the last one. *)
Definition lengthDigits (n : Z) : list Z * Z :=
  let b1 := Z.land (Z.shiftr n 28) 0x7F in
  let b2 := Z.land (Z.shiftr n 14) 0x7F in
  let b3 := Z.land (Z.shiftr n 7) 0x7F in
  (if b1 =? 0 then if b2 =? 0 then if b3 =? 0 then [] else [b3] else [b2; b3] else [b1; b2; b3],
   Z.land n 0x7F).

(** A digit that another one follows has its high bit set. *)
Definition lengthField (ds : list Z) (d : Z) : list Z := map (fun d => i8 (Z.lor d 0x80)) ds ++ [i8 d].

Lemma writes_length n :
  writes (encodeLength n) (lengthField (fst (lengthDigits n)) (snd (lengthDigits n))).
Proof.
  unfold encodeLength, lengthDigits, lengthField. cbv zeta. cbn [fst snd].
  repeat match goal with |- context [if ?x =? 0 then _ else _] => destruct (x =? 0) end;
    cbn [map app]; repeat apply (writes_seq _ [_]); apply writes_byte.
Qed.

(** The value that the digits stand for. *)
Definition digitsValue (acc : Z) (ds : list Z) : Z := fold_left (fun acc d => 128 * acc + d) ds acc.

Lemma land_127 z : Z.land z 0x7F = z mod 128.
Proof. change 0x7F with (Z.ones 7). rewrite Z.land_ones by lia. reflexivity. Qed.

Lemma lengthDigits_value n : 0 <= n <= INT_MAX ->
  let '(ds, d) := lengthDigits n in
  List.Forall (fun d => 0 <= d < 128) ds /\ 0 <= d < 128 /\ (length ds <= 3)%nat /\
  digitsValue 0 (ds ++ [d]) = n / 2 ^ 28 * 2 ^ 21 + n mod 2 ^ 21.
Proof.
  intros Hn. unfold lengthDigits. rewrite !Z.shiftr_div_pow2, !land_127 by lia.
  assert (n / 2 ^ 28 mod 128 = n / 2 ^ 28) as -> by (unfold INT_MAX in Hn; apply Z.mod_small; dlia).
  set (b1 := n / 2 ^ 28). set (b2 := n / 2 ^ 14 mod 128). set (b3 := n / 2 ^ 7 mod 128). set (b4 := n mod 128).
  assert (0 <= b1 < 8) by (unfold b1, INT_MAX in *; dlia).
  assert (n mod 2 ^ 21 = 2 ^ 14 * b2 + 2 ^ 7 * b3 + b4) as -> by (unfold b2, b3, b4; clear; dlia).
  assert (0 <= b2 < 128 /\ 0 <= b3 < 128 /\ 0 <= b4 < 128) by (unfold b2, b3, b4; clear; dlia).
  repeat match goal with |- context [if ?x =? 0 then _ else _] => destruct (x =? 0) eqn:?; zbool end;
    cbn [digitsValue fold_left app length]; repeat split; repeat constructor; unfold digitsValue; cbn [fold_left]; lia.
Qed.

(** What the encoder writes for a frame. *)
Definition wire (f : DefaultWebSocketFrame.t N) : list Z :=
  let data := queue (binaryData f) in
  i8 (type f) ::
  (if isText f then data ++ [i8 0xFF]
   else let '(ds, d) := lengthDigits (zlen data) in lengthField ds d ++ data).

Lemma wire_length f : zlen (wire f) <= zlen (queue (binaryData f)) + (if isText f then 2 else 5).
Proof.
  unfold wire. cbv zeta. rewrite zlen_cons. destruct (isText f); [rewrite zlen_app, zlen_1; lia|].
  unfold lengthDigits. cbv zeta.
  repeat match goal with |- context [if ?x =? 0 then _ else _] => destruct (x =? 0) end;
    unfold lengthField; cbn [map app]; rewrite !zlen_cons; lia.
Qed.

Lemma writes_frame f : wf (binaryData f) -> writes (encodeInto f) (wire f).
Proof.
  intros H. unfold encodeInto, wire, getType, getBinaryData. cbv zeta.
  destruct (isText f).
  - apply (writes_seq _ [_]); [apply writes_byte|]. apply writes_seq; [apply writes_data, H | apply writes_byte].
  - rewrite <- readableBytes_queue by exact H. set (n := AbstractChannelBuffer.readableBytes _).
    rewrite (surjective_pairing (lengthDigits n)).
    apply (writes_seq _ [_]); [apply writes_byte|]. apply writes_seq; [apply writes_length | apply writes_data, H].
Qed.

Lemma encodeFrame_wire f : wf (binaryData f) -> zlen (queue (binaryData f)) <= INT_MAX - 5 ->
  exists e, encodeFrame f = Ok e /\ wf e /\ queue e = wire f.
Proof.
  intros H Hm. pose proof (zlen_nonneg (queue (binaryData f))). pose proof (wire_length f) as Hl.
  unfold encodeFrame, getBinaryData. cbv zeta. rewrite readableBytes_queue by exact H.
  set (n := zlen (queue (binaryData f)) + (if isText f then 2 else 5)) in *.
  assert (0 < n <= INT_MAX) as Hn by (unfold n; destruct (isText f); lia).
  rewrite i32_id by solve_range.
  destruct (getBuffer_fresh (N := N) (order (binaryData f)) n Hn) as (e & -> & He & Hqe & Hre & _ & Hce).
  cbn [rbind]. pose proof (zlen_queue e He) as Hz. rewrite Hqe in Hz. change (zlen []) with 0 in Hz.
  destruct (writes_frame f H e He) as (e' & -> & A); [pose proof (limit_capacity e He); lia|].
  exists e'. split; [reflexivity|]. split; [apply A|]. rewrite (appended_queue _ _ _ A), Hqe. reflexivity.
Qed.

End Encoder.

(** ** What the decoding functions read *)

Section Decoder.
Context {N : Type} {RN : RawBuffer N} {RSN : ReadSpec N} {WN : WriteBuffer N}
  {QN : QueueSpec N} {FN : ChannelBufferFactory N} {FSN : FactorySpec N}.
Context {B : Type} {RB : RawBuffer B} {RS : ReadSpec B} {WB : WriteBuffer B}.
Import DefaultWebSocketFrame WebSocketFrameEncoder.
Abbreviation F := (DefaultWebSocketFrame.t N).

(** The state while [decode] runs on the bytes of [b]. *)
Abbreviation reading d b need term st ck l :=
  (MkD (F := DefaultWebSocketFrame.t N) d (MkReplay b need term) true st ck l).

Lemma i8_0xFF : i8 0xFF = -1. Proof. reflexivity. Qed.

(** The bits of a type that went through a byte. *)
Lemma type_bits t : 0 <= t < 256 -> Z.land (i8 t) 0x80 = Z.land t 0x80 /\ Z.land (i8 t) 0xFF = t.
Proof.
  intros Ht. pose (p t := (Z.land (i8 t) 0x80 =? Z.land t 0x80) && (Z.land (i8 t) 0xFF =? t)).
  assert (forallb p (map Z.of_nat (seq 0 256)) = true) as E by (vm_compute; reflexivity).
  rewrite forallb_forall in E. assert (p t = true) as Hp.
  { apply E. apply List.in_map_iff. exists (Z.to_nat t). rewrite in_seq. lia. }
  unfold p in Hp. apply andb_true_iff in Hp as [H1 H2]. apply Z.eqb_eq in H1, H2. auto.
Qed.

(** The bits of the bytes of a length. *)
Lemma digit_bits d : 0 <= d < 128 ->
  Z.land (i8 (Z.lor d 0x80)) 0x7f = d /\ Z.land (i8 (Z.lor d 0x80)) 0x80 = 0x80 /\
  Z.land (i8 d) 0x7f = d /\ Z.land (i8 d) 0x80 = 0.
Proof.
  intros Hd. pose (p d := (Z.land (i8 (Z.lor d 0x80)) 0x7f =? d) && (Z.land (i8 (Z.lor d 0x80)) 0x80 =? 0x80)
    && (Z.land (i8 d) 0x7f =? d) && (Z.land (i8 d) 0x80 =? 0)).
  assert (forallb p (map Z.of_nat (seq 0 128)) = true) as E by (vm_compute; reflexivity).
  rewrite forallb_forall in E. assert (p d = true) as Hp.
  { apply E. apply List.in_map_iff. exists (Z.to_nat d). rewrite in_seq. lia. }
  unfold p in Hp. rewrite !andb_true_iff, !Z.eqb_eq in Hp. tauto.
Qed.

Lemma digitsValue_ge ds acc : List.Forall (fun d => 0 <= d < 128) ds -> 0 <= acc -> acc <= digitsValue acc ds.
Proof.
  intros H. revert acc. induction H as [|d ds Hd _ IH]; intros acc Ha; cbn; [lia|].
  specialize (IH (128 * acc + d)). unfold digitsValue in IH. lia.
Qed.

(** One turn of the loop adds a digit. *)
Lemma addDigit acc d : 0 <= acc -> 0 <= d < 128 -> 128 * acc + d <= INT_MAX ->
  Z.lor (i32 (Z.shiftl acc 7)) d = 128 * acc + d.
Proof.
  intros Ha Hd Hm. rewrite Z.shiftl_mul_pow2 by lia. change (2 ^ 7) with 128.
  rewrite i32_id by solve_range. rewrite (lor_add 7) by (lia || apply Z.mod_mul; lia). lia.
Qed.

Lemma decodeLength_spec fuel ds d0 acc k d (b : B) need term st ck l rest :
  List.Forall (fun d => 0 <= d < 128) ds -> 0 <= d0 < 128 -> 0 <= acc ->
  wf b -> queue b = lengthField ds d0 ++ rest ->
  digitsValue acc (ds ++ [d0]) <= maxFrameSize d <= INT_MAX ->
  k + zlen ds < 8 -> (length ds < fuel)%nat ->
  decodeLength fuel acc k (reading d b need term st ck l)
  = (Ok (Some (digitsValue acc (ds ++ [d0]))),
     reading d (consume (zlen ds + 1) b) false term st ck l).
Proof.
  intros Hds Hd0. revert fuel acc k b need. induction Hds as [|d1 ds Hd1 Hds IH];
    intros fuel acc k b need Ha H Hq Hv Hk Hf; (destruct fuel as [|fuel]; [cbn in Hf; lia|]);
    cbn [lengthField map app] in Hq; cbn [decodeLength].
  - destruct (digit_bits d0 Hd0) as (_ & _ & B1 & B2). cbn [digitsValue fold_left app] in *.
    unfold digitsValue in *. cbn [fold_left] in *.
    erewrite bind_ok by (eapply replay_readByte; [exact H | exact Hq]). rewrite bind_gets. unfold id.
    cbn [replayable ReplayingDecoderBuffer.needMoreBytes ReplayingDecoderBuffer.needMore decoder].
    change (@zlen Z []) with 0 in *. rewrite B1, B2, addDigit by lia. rewrite !bind_throw_if. zif. zif. reflexivity.
  - destruct (digit_bits d1 Hd1) as (B1 & B2 & _). rewrite zlen_cons in Hk.
    change (digitsValue acc ((d1 :: ds) ++ [d0])) with (digitsValue (128 * acc + d1) (ds ++ [d0])) in *.
    assert (128 * acc + d1 <= digitsValue (128 * acc + d1) (ds ++ [d0])) as Hge
      by (apply digitsValue_ge; [apply List.Forall_app; auto | lia]).
    destruct (consume_cons b _ _ H Hq) as [Hw1 Hq1].
    erewrite bind_ok by (eapply replay_readByte; [exact H | exact Hq]). rewrite bind_gets. unfold id.
    cbn [replayable ReplayingDecoderBuffer.needMoreBytes ReplayingDecoderBuffer.needMore decoder].
    pose proof (zlen_nonneg ds).
    rewrite B1, B2, addDigit by lia. rewrite !bind_throw_if. zif. zif. change (128 =? 128) with true. cbv iota.
    rewrite IH by (cbn in Hf; lia || assumption). rewrite consume_consume, zlen_cons. do 4 f_equal. lia.
Qed.

Lemma index_of_minus1 p l : index_of p l = -1 -> List.Forall (fun x => p x = false) l.
Proof.
  induction l as [|x l IH]; [constructor|]. cbn [index_of]. destruct (p x) eqn:E; [discriminate|].
  pose proof (index_of_range p l). cbv zeta. destruct (index_of p l <? 0) eqn:E0; zbool; intros Hr; [|lia].
  constructor; [exact E | apply IH; lia].
Qed.

Lemma setData_search (data : N) : wf data ->
  BufferUtil.indexOfByte data (readerIndex data) (writerIndex data) (i8 0xFF)
  = Ok (let j := index_of (fun v => v =? i8 0xFF) (queue data) in if j <? 0 then -1 else readerIndex data + j).
Proof.
  intros H. pose proof (zlen_queue data H) as Hz. unfold BufferUtil.indexOfByte.
  replace (writerIndex data) with (readerIndex data + zlen (queue data)) by lia. apply indexOf_queue, H.
Qed.

(** The bytes of a frame of text that was made hold no delimiter. *)
Lemma setData_inv t (data : N) f : wf data -> setData t (Some data) = Ok f ->
  binaryData f = data /\ 0 <= type f < 256 /\ Z.land (type f) 0x80 = Z.land t 0x80 /\
  (isText f = true -> List.Forall (fun v => (v =? i8 0xFF) = false) (queue data)).
Proof.
  intros H. unfold setData. rewrite setData_search by exact H. cbv zeta. intros E.
  assert (f = MkFrame (Z.land t 0xFF) data /\ ((Z.land t 0x80 =? 0) = true -> index_of (fun v => v =? i8 0xFF) (queue data) = -1))
    as [-> Hi].
  { destruct H as [_ [Hr _]]. pose proof (index_of_range (fun v => v =? i8 0xFF) (queue data)) as R.
    destruct (Z.land t 0x80 =? 0); cbn [rbind] in E.
    - destruct (index_of _ _ <? 0) eqn:Ei; zbool; [injection E as <-; split; [reflexivity | lia]|].
      rewrite Z.geb_leb in E. rewrite (proj2 (Z.leb_le _ _)) in E by lia. discriminate.
    - injection E as <-. split; [reflexivity | discriminate]. }
  cbn [binaryData type]. unfold isText. cbn [type].
  assert ((Z.land (Z.land t 0xFF) 0x80) = (Z.land t 0x80)) as Eb by (rewrite <- Z.land_assoc; reflexivity).
  rewrite Eb. repeat split.
  - rewrite land_255. apply Z.mod_pos_bound. lia.
  - rewrite land_255. apply Z.mod_pos_bound. lia.
  - intros Ht. apply index_of_minus1, Hi, Ht.
Qed.

(** The type is read back from the byte, and the data once more accepted. *)
Lemma newFrame_read t (data : N) d b need term st ck l :
  0 <= t < 256 -> wf data ->
  (Z.land t 0x80 = 0 -> List.Forall (fun v => (v =? i8 0xFF) = false) (queue data)) ->
  newFrame (B := B) (i8 t) data (reading d b need term st ck l)
  = (Ok (Message (MkFrame t data)), reading d b need term st ck l).
Proof.
  intros Ht H Hd. destruct (type_bits t Ht) as [B1 B2]. unfold newFrame, setData.
  rewrite B1, B2, setData_search by exact H. rewrite bind_reads.
  destruct (Z.land t 128 =? 0) eqn:E; zbool; cbn [rbind]; [rewrite index_of_none by auto|]; reflexivity.
Qed.

Lemma decodeBinary_spec t ds d0 (body rest : list Z) d (b : B) need term st ck l :
  0 <= t < 256 -> Z.land t 0x80 <> 0 -> wf b -> queue b = lengthField ds d0 ++ body ++ rest ->
  List.Forall (fun d => 0 <= d < 128) ds -> 0 <= d0 < 128 -> (length ds <= 3)%nat ->
  digitsValue 0 (ds ++ [d0]) = zlen body -> zlen body <= maxFrameSize d <= INT_MAX ->
  exists data b', decodeBinaryFrame (i8 t) (reading d b need term st ck l)
    = (Ok (Message (MkFrame t data)), reading d b' false term st ck l) /\
    queue data = body /\ (rest <> [] -> b' = consume (zlen (lengthField ds d0 ++ body)) b) /\
    (body <> [] -> rest = [] -> readerIndex b' = 0).
Proof.
  intros Ht Hb H Hq Hds Hd0 Hl Hv Hm. pose proof (zlen_nonneg ds).
  assert (zlen (lengthField ds d0) = zlen ds + 1) as Hlf
    by (unfold lengthField; rewrite zlen_app, zlen_1; unfold zlen; rewrite length_map; reflexivity).
  pose proof (zlen_nonneg body). pose proof (zlen_nonneg rest).
  assert (zlen (queue b) = zlen ds + 1 + zlen body + zlen rest) as Hz by (rewrite Hq, !zlen_app, Hlf; lia).
  unfold decodeBinaryFrame.
  assert (zlen ds <= 3) by (unfold zlen; lia).
  erewrite bind_ok by (apply decodeLength_spec with (rest := body ++ rest); try eassumption; lia).
  set (b1 := consume (zlen ds + 1) b).
  assert (wf b1) as Hw1 by (apply consume_wf; [exact H | lia]).
  assert (queue b1 = body ++ rest) as Hq1.
  { unfold b1. rewrite consume_queue, Hq by (exact H || lia). rewrite <- Hlf. unfold zlen. rewrite Nat2Z.id. apply drop_app_length. }
  assert ((i8 t =? 0xFF) = false) as -> by (apply Z.eqb_neq; pose proof (i8_range t); solve_range).
  rewrite Hv. cbn [andb]. rewrite bind_ret_l.
  destruct (replay_readBytesLen (N := N) (F := F) b1 (zlen body) d false term true st ck l Hw1) as (data & b' & E & [Hwd Hqd] & Hb1 & Hb2).
  { rewrite Hq1, zlen_app. lia. }
  assert (queue data = body) as Hbody.
  { rewrite Hqd, Hq1. unfold zsub, zlen. rewrite Nat2Z.id. apply take_app_length. }
  rewrite (bind_ok _ _ _ _ _ E). exists data, b'. rewrite newFrame_read by (exact Ht || exact Hwd || contradiction).
  split; [reflexivity|]. split; [exact Hbody|]. rewrite Hq1, zlen_app in Hb1, Hb2. split.
  - intros Hr. destruct rest; [contradiction|]. rewrite zlen_cons in Hb1. rewrite Hb1 by (pose proof (zlen_nonneg rest); lia).
    unfold b1. rewrite consume_consume, zlen_app, Hlf. reflexivity.
  - intros Hb' ->. destruct body; [contradiction|]. rewrite zlen_cons in Hb2. change (zlen []) with 0 in Hb2.
    apply Hb2; pose proof (zlen_nonneg body); lia.
Qed.

Lemma decodeText_spec t (body rest : list Z) d (b : B) need term st ck l :
  0 <= t < 256 -> Z.land t 0x80 = 0 -> wf b -> queue b = body ++ i8 0xFF :: rest ->
  List.Forall (fun v => (v =? i8 0xFF) = false) body -> zlen body <= maxFrameSize d ->
  exists data, decodeTextFrame (i8 t) (reading d b need term st ck l)
    = (Ok (Message (MkFrame t data)), reading d (consume (zlen body + 1) b) false term st ck l) /\
    queue data = body.
Proof.
  intros Ht Hb H Hq Hbody Hm. pose proof (zlen_nonneg body). pose proof (zlen_nonneg rest).
  assert (zlen (queue b) = zlen body + 1 + zlen rest) as Hz by (rewrite Hq, zlen_app, zlen_cons; lia).
  pose proof (queue_max b H) as Hmax. pose proof H as [_ [Hr _]].
  unfold decodeTextFrame. rewrite bind_gets. unfold id. cbn [decoder].
  unfold ReplayingDecoderBuffer.readerIndex, actualReadableBytes, cumulation.
  cbn [replayable cumulated ReplayingDecoderBuffer.buffer]. rewrite readableBytes_queue by exact H.
  fold (readerIndex b). rewrite i32_id by solve_range.
  assert (on_replayable (ReplayingDecoderBuffer.indexOf (readerIndex b) (readerIndex b + zlen (queue b)) (i8 0xFF))
    (reading d b need term st ck l) = (Ok (readerIndex b + zlen body), reading d b false term st ck l)) as E1.
  { rewrite on_replayable_eq. unfold ReplayingDecoderBuffer.indexOf, ReplayingDecoderBuffer.search,
      ReplayingDecoderBuffer.of_buffer, ReplayingDecoderBuffer.set_needMore, BufferUtil.indexOfByte.
    rewrite bind_reads. cbn [ReplayingDecoderBuffer.buffer]. rewrite indexOf_queue, Hq by exact H.
    rewrite index_of_first by (exact Hbody || reflexivity). cbv zeta. rewrite (proj2 (Z.ltb_ge (zlen body) 0)) by lia.
    rewrite bind_modify, (proj2 (Z.ltb_ge (readerIndex b + zlen body) 0)) by lia. reflexivity. }
  rewrite (bind_ok _ _ _ _ _ E1). zif. rewrite Z.add_simpl_l, i32_id by solve_range.
  rewrite bind_throw_if. zif.
  destruct (replay_readBytesLen (N := N) (F := F) b (zlen body) d false term true st ck l H)
    as (data & b' & Er & [Hwd Hqd] & Hb1 & _); [lia|].
  assert (queue data = body) as Hd by (rewrite Hqd, Hq; unfold zsub, zlen; rewrite Nat2Z.id; apply take_app_length).
  rewrite (bind_ok _ _ _ _ _ Er), Hb1 by lia.
  assert (queue (consume (zlen body) b) = i8 0xFF :: rest) as Hq'.
  { rewrite consume_queue, Hq by (exact H || lia). unfold zlen. rewrite Nat2Z.id. apply drop_app_length. }
  erewrite bind_ok by (apply replay_skipBytes; [apply consume_wf; [exact H | lia] | rewrite Hq', zlen_cons; lia]).
  rewrite consume_consume. exists data. split; [|exact Hd].
  apply newFrame_read; [exact Ht | exact Hwd | intros _; rewrite Hd; exact Hbody].
Qed.

(** [decodeFrame] on the bytes of a frame. *)
Lemma decode_wire (f : F) (b : B) rest d need term st ck l :
  0 <= type f < 256 ->
  (isText f = true -> List.Forall (fun v => (v =? i8 0xFF) = false) (queue (binaryData f))) ->
  (isText f = true \/ zlen (queue (binaryData f)) < 2 ^ 21) ->
  zlen (queue (binaryData f)) <= maxFrameSize d <= INT_MAX - 5 ->
  wf b -> queue b = wire f ++ rest ->
  exists data' b', decodeFrame (reading d b need term st ck l)
    = (Ok (Message (MkFrame (type f) data')), reading d b' false term st ck l) /\
    queue data' = queue (binaryData f) /\
    (isText f = true \/ rest <> [] -> b' = consume (zlen (wire f)) b) /\
    (isText f = false -> queue (binaryData f) <> [] -> rest = [] -> readerIndex b' = 0).
Proof.
  intros Ht Htext Hs Hm H Hq. set (body := queue (binaryData f)) in *. pose proof (zlen_nonneg body).
  unfold wire in *. fold body in Hq |- *. cbn [app] in Hq.
  destruct (consume_cons b _ _ H Hq) as [Hw1 Hq1]. destruct (type_bits (type f) Ht) as [B1 _].
  unfold decodeFrame. erewrite bind_ok by (eapply replay_readByte; [exact H | exact Hq]). rewrite bind_gets. unfold id.
  cbn [replayable ReplayingDecoderBuffer.needMoreBytes ReplayingDecoderBuffer.needMore]. rewrite B1.
  unfold isText in *. destruct (Z.land (type f) 128 =? 0) eqn:Ex; zbool.
  - rewrite Ex. change (0 =? 128) with false. cbv iota. rewrite <- app_assoc in Hq1. cbn [app] in Hq1.
    destruct (decodeText_spec (type f) body rest d (consume 1 b) false term st ck l) as (data' & E & Hd); auto; try lia.
    exists data', (consume (zlen body + 1) (consume 1 b)). rewrite E. split; [reflexivity|]. split; [exact Hd|].
    split; [|discriminate]. intros _. rewrite consume_consume, zlen_cons, zlen_app, zlen_1. f_equal; lia.
  - assert (Z.land (type f) 128 = 128) as E128.
    { change 128 with (2 ^ 7) in *. rewrite land_pow2 in * by lia. destruct (Z.testbit _ _); [reflexivity | contradiction]. }
    rewrite E128. change (128 =? 128) with true. cbv iota.
    pose proof (lengthDigits_value (zlen body)) as Hdig. destruct (lengthDigits (zlen body)) as [ds d0].
    destruct Hdig as (Hds & Hd0 & Hl & Hv); [unfold INT_MAX in *; lia|]. rewrite <- app_assoc in Hq1.
    destruct Hs as [Hs|Hs]; [discriminate|].
    rewrite Z.div_small, Z.mod_small in Hv by lia.
    assert (zlen body <= maxFrameSize d <= INT_MAX) as Hm' by lia.
    destruct (decodeBinary_spec (type f) ds d0 body rest d (consume 1 b) false term st ck l Ht Ex Hw1 Hq1 Hds Hd0 Hl Hv Hm')
      as (data' & b' & E & Hd & Hb1 & Hb2).
    exists data', b'. rewrite E. split; [reflexivity|]. split; [exact Hd|]. split; [|auto].
    intros [Hc|Hr]; [discriminate|]. rewrite (Hb1 Hr), consume_consume, zlen_cons. reflexivity.
Qed.

(** The test of [decode]. *)
Lemma decode_test d (b : B) need term st ck (l : list (message F)) : wf b ->
  ReplayingDecoder.decode st (reading d b need term st ck l)
  = if receivedClosingHandshake d then (Ok EMPTY_MESSAGE, reading d (consume (zlen (queue b)) b) false term st ck l)
    else decodeFrame (reading d b need term st ck l).
Proof.
  intros H. destruct (receivedClosingHandshake d) eqn:Hd; [apply (deaf_decode d st b need term true st ck l Hd H)|].
  cbn [ReplayingDecoder.decode decoding]. unfold decode. rewrite bind_gets. unfold id. cbn [decoder]. rewrite Hd. reflexivity.
Qed.

(** C29: what the encoder writes for a frame that [setData] accepted, [decodeFrame] - the
    part of [decode] behind its first test, and the functions that it calls - reads back,
    in every state of the decoder: the same type and the same bytes, and the bytes after
    the frame are left where they are; text of any bytes but the delimiter, and binary
    data of less than 2^21 bytes, both up to the size the decoder allows.  The test in
    front of it is that of the flag for the closing handshake, behind which [decode] drops
    all bytes and reports nothing: the constructors set it and nothing clears it, so that
    it is what [decode] does of every decoder that they make ([new_decoder_is_deaf]). *)
Theorem frame_roundtrip (t : Z) (data : N) (f : F) (d : WebSocketFrameDecoder.t) :
  wf data -> setData t (Some data) = Ok f ->
  zlen (queue data) <= maxFrameSize d <= INT_MAX - 5 ->
  isText f = true \/ zlen (queue data) < 2 ^ 21 ->
  exists e, encodeFrame f = Ok e /\
    forall (b : B) (rest : list Z) need term st ck l, wf b -> queue b = queue e ++ rest ->
    let s := reading d b need term st ck l in
    (exists data' b', decodeFrame s = (Ok (Message (MkFrame (type f) data')), reading d b' false term st ck l) /\
      queue data' = queue data /\
      (isText f = true \/ rest <> [] -> b' = consume (zlen (queue e)) b)) /\
    ReplayingDecoder.decode st s
      = if receivedClosingHandshake d then (Ok EMPTY_MESSAGE, reading d (consume (zlen (queue b)) b) false term st ck l)
        else decodeFrame s.
Proof.
  intros Hd Hf Hm Hs. destruct (setData_inv t data f Hd Hf) as (Eb & Ht & _ & Htext).
  pose proof (encodeFrame_wire f) as He. rewrite Eb in He. destruct He as (e & He & _ & Hqe); [exact Hd | lia|].
  exists e. split; [exact He|]. intros b rest need term st ck l H Hq. split; [|apply decode_test, H].
  rewrite Hqe in Hq. rewrite Hqe.
  destruct (decode_wire f b rest d need term st ck l) as (data' & b' & E & Hd' & Hb & _);
    rewrite ?Eb in *; try assumption.
  exists data', b'. split; [exact E | split; [exact Hd' | exact Hb]].
Qed.

(** A binary frame that arrives whole and alone, in a cumulation read from its
    first byte, is decoded and then lost, whatever its data: reading the last byte
    moves both indexes to 0, where the loop started, and the loop takes the frame
    for one that consumed nothing. *)
Theorem binary_frame_alone_fails (f : F) (b : B) (d : WebSocketFrameDecoder.t) unfold fuel need st ck l :
  isText f = false -> 0 <= type f < 256 -> 0 < zlen (queue (binaryData f)) < 2 ^ 21 ->
  zlen (queue (binaryData f)) <= maxFrameSize d <= INT_MAX - 5 -> receivedClosingHandshake d = false ->
  wf b -> queue b = wire f -> readerIndex b = 0 ->
  exists s, callDecode unfold (S fuel) (reading d b need false st ck l) = (Err IllegalStateException, s) /\ fired s = l.
Proof.
  intros Hbin Ht Hz Hm Hflag H Hq Hr.
  destruct (decode_wire f b [] d need false st (readerIndex b) l) as (data' & b' & E & _ & _ & Hb');
    try assumption; [rewrite Hbin; discriminate | right; lia | rewrite app_nil_r; exact Hq |].
  assert (ReplayingDecoder.decode st (reading d b need false st (readerIndex b) l)
    = (Ok (Message (MkFrame (type f) data')), reading d b' false false st (readerIndex b) l)) as E'
    by (rewrite decode_test, Hflag by exact H; exact E).
  assert (queue b <> []) as Hne by (rewrite Hq; discriminate).
  rewrite (callDecode_turn unfold _ _ _ _ _ _ _ _ _ _ _ _ _ _ H Hne E'). cbn [empty andb].
  rewrite Hb', Hr, !Z.eqb_refl by (auto; intros Hn; rewrite Hn in Hz; change (zlen []) with 0 in Hz; lia).
  eexists. split; reflexivity.
Qed.

(** C39: the length field: a length travels from the encoder to the decoder exactly
    when it is less than 2^21; of a longer one the decoder reads another, always
    smaller, as the encoder shifts by 28 where the fourth digit of base 128 is
    21 bits up.  The loop of the decoder ends within the four bytes written. *)
Theorem length_field_bound (n : Z) (c : N) (d : WebSocketFrameDecoder.t) :
  let v := n / 2 ^ 28 * 2 ^ 21 + n mod 2 ^ 21 in
  0 <= n <= INT_MAX -> wf c -> writerIndex c + 4 <= limit c -> v <= maxFrameSize d <= INT_MAX ->
  exists field c', encodeLength n c = (Ok tt, c') /\ appended c field c' /\ zlen field <= 4 /\
    (forall (b : B) rest need term st ck l, wf b -> queue b = field ++ rest ->
      decodeLength 9 0 0 (reading d b need term st ck l)
      = (Ok (Some v), reading d (consume (zlen field) b) false term st ck l)) /\
    (n < 2 ^ 21 -> v = n) /\ (2 ^ 21 <= n -> v < n).
Proof.
  intros v Hn Hc Hl Hv. pose proof (writes_length n c Hc) as Hw. pose proof (lengthDigits_value n Hn) as Hd.
  destruct (lengthDigits n) as [ds d0]. cbn [fst snd] in Hw. destruct Hd as (Hds & Hd0 & Hlen & Ev). fold v in Ev.
  assert (zlen (lengthField ds d0) = zlen ds + 1) as Hlf
    by (unfold lengthField; rewrite zlen_app, zlen_1; unfold zlen; rewrite length_map; reflexivity).
  assert (zlen ds <= 3) by (unfold zlen; lia).
  destruct Hw as (c' & E & A); [lia|]. exists (lengthField ds d0), c'.
  split; [exact E|]. split; [exact A|]. split; [lia|]. split; [|unfold v, INT_MAX in *; clear - Hn; split; intros; dlia].
  intros b rest need term st ck l Hb Hq. rewrite <- Ev, Hlf.
  apply decodeLength_spec with (rest := rest); try assumption; lia.
Qed.

End Decoder.

(** ** Witnesses *)

Section Witnesses.
Abbreviation heap := HeapChannelBuffer.t.
Abbreviation big := (heap_of BYTE_ORDER_BIG).
#[local] Existing Instances zeroAllocator.

(** A text frame and a binary frame arrive, in three messages. *)
Lemma new_decoder_is_deaf_witness :
  exists h, receiveAll (DynamicChannelBuffer.dynamicBuffer BYTE_ORDER_BIG) false 2
      (map big [[0; 104; 105]; [-1; -128]; [1; 7]])
      (ReplayingDecoder.new (F := DefaultWebSocketFrame.t heap) (WebSocketFrameDecoder.new 100) (-1)) = (Ok tt, h) /\
    sent h = [] /\
    (forall r, buffers h = Some r -> queue (ReplayingDecoderBuffer.buffer r) = []) /\
    exists b h', cleanup false 2 h = (Ok b, h') /\ sent h' = [].
Proof.
  apply (new_decoder_is_deaf (N := heap) BYTE_ORDER_BIG false 2 100 (-1) (map big [[0; 104; 105]; [-1; -128]; [1; 7]]));
    [|lia].
  repeat (apply List.Forall_cons; [split; [apply big_wf; [reflexivity | cbn; lia] | vm_compute; discriminate]|]).
  apply List.Forall_nil.
Defined.

(** A binary frame of 130 bytes, before the first byte of another one. *)
Abbreviation data130 := (big (List.repeat (-1) 130)).
Abbreviation frame130 := (DefaultWebSocketFrame.MkFrame 0x82 data130).

Lemma bytes_wf l : forallb (fun v => (-128 <=? v) && (v <? 128)) l = true -> zlen l <= INT_MAX -> wf (big l).
Proof.
  intros H Hl. apply heap_of_wf; [|exact Hl]. rewrite forallb_forall in H. apply List.Forall_forall.
  intros x Hx. specialize (H x Hx). zbool. solve_range.
Qed.

Lemma data130_wf : wf data130.
Proof. apply bytes_wf; vm_compute; [reflexivity | discriminate]. Qed.

(** A decoder as its constructor makes it: [decodeFrame] reads the frame, [decode] drops it
    and what comes after it. *)
Lemma frame_roundtrip_witness :
  let d := WebSocketFrameDecoder.new 16384 in
  let bytes := big ([-126; -127; 2] ++ List.repeat (-1) 130 ++ [5]) in
  let s := MkD (F := DefaultWebSocketFrame.t heap) d (MkReplay bytes false false) true (-1) 0 [] in
  (exists data' b', decodeFrame s
    = (Ok (Message (DefaultWebSocketFrame.MkFrame 0x82 data')), MkD d (MkReplay b' false false) true (-1) 0 []) /\
    queue data' = List.repeat (-1) 130 /\ queue b' = [5]) /\
  fst (ReplayingDecoder.decode (-1) s) = Ok EMPTY_MESSAGE.
Proof.
  intros d bytes s.
  destruct (frame_roundtrip (B := heap) 0x82 data130 frame130 d) as (e & He & Hdec);
    [exact data130_wf | reflexivity | vm_compute; split; discriminate | right; reflexivity |].
  assert (queue e = [-126; -127; 2] ++ List.repeat (-1) 130) as Hq.
  { vm_compute in He. injection He as <-. vm_compute. reflexivity. }
  destruct (Hdec bytes [5] false false (-1) 0 []) as [(data' & b' & E & Hd & Hb) Ed].
  - apply bytes_wf; vm_compute; [reflexivity | discriminate].
  - rewrite Hq. reflexivity.
  - split; [|unfold s; rewrite Ed; reflexivity].
    exists data', b'. split; [exact E|]. split; [exact Hd|]. assert ([5] <> []) as Hne by discriminate.
    specialize (Hb (or_intror Hne)). subst b'. rewrite Hq. vm_compute. reflexivity.
Defined.

(** A length of 2^21 is read as 0, in two bytes. *)
Lemma length_field_bound_witness :
  exists field c', WebSocketFrameEncoder.encodeLength (2 ^ 21) dynamic2 = (Ok tt, c') /\
    appended dynamic2 field c' /\ field = [0].
Proof.
  destruct (length_field_bound (B := heap) (2 ^ 21) dynamic2 (MkDecoder false 16384)) as (field & c' & E & A & _);
    [vm_compute; split; discriminate | exact dynamic2_wf | vm_compute; discriminate | vm_compute; split; discriminate |].
  exists field, c'. split; [exact E|]. split; [exact A|].
  assert (queue c' = [0]) as Hq by (vm_compute in E; injection E as <-; reflexivity).
  rewrite (appended_queue _ _ _ A) in Hq. exact Hq.
Defined.
End Witnesses.
