(* ===== verification/Timeouts.v ===== *)
(** * Timers and the idle state handler

    [src/src/cetty/util/TimeUnit.cpp], [util/internal/asio] and
    [src/src/cetty/handler/timeout/IdleStateHandler.cpp]: units of time, the timer
    whose timeouts wait on a timer of asio, and the handler that reports a channel
    on which nothing is read or written. *)

From Stdlib Require Import Strings.String.
From S2P Require Import Prelude MachineInt Text.

(** ** TimeUnit *)

Module TimeUnit.

Inductive t := SECONDS | MILLISECONDS | MICROSECONDS | NANOSECONDS.

#[global] Instance eq_dec : EqDecision t.
Proof. solve_decision. Defined.

Definition toNanos (u : t) (duration : Z) : Z :=
  match u with
  | SECONDS => i64 (duration * 1000000000)
  | MILLISECONDS => i64 (duration * 1000000)
  | MICROSECONDS => i64 (duration * 1000)
  | NANOSECONDS => duration
  end.

Definition toMicros (u : t) (duration : Z) : Z :=
  match u with
  | SECONDS => i64 (duration * 1000000)
  | MILLISECONDS => i64 (duration * 1000)
  | MICROSECONDS => duration
  | NANOSECONDS => Z.quot duration 1000
  end.

Definition toMillis (u : t) (duration : Z) : Z :=
  match u with
  | SECONDS => i64 (duration * 1000)
  | MILLISECONDS => duration
  | MICROSECONDS => Z.quot duration 1000
  | NANOSECONDS => Z.quot duration 1000000
  end.

Definition toSeconds (u : t) (duration : Z) : Z :=
  match u with
  | SECONDS => duration
  | MILLISECONDS => Z.quot duration 1000
  | MICROSECONDS => Z.quot duration 1000000
  | NANOSECONDS => Z.quot duration 1000000000
  end.

Definition toString (u : t) : text :=
  match u with
  | SECONDS => str "SECONDS"%string
  | MILLISECONDS => str "MILLISECONDS"%string
  | MICROSECONDS => str "MICROSECONDS"%string
  | NANOSECONDS => str "MICROSECONDS"%string
  end.

End TimeUnit.

(** ** The timer of asio

    [boost::asio::deadline_timer]: a wait that was started at a time, in
    microseconds, with a delay in milliseconds; [cancel] at a time; whether its
    handler may be called at a time, with [operation_aborted] or without an error;
    and the wait whose handler was called. *)
Class DeadlineTimer (W : Type) := {
  async_wait : Z -> Z -> W;
  cancel_wait : Z -> W -> W;
  ready : Z -> bool -> W -> bool;
  invoked : W -> W;
}.

(** What its documentation says: the handler of a wait is called once, without an
    error not before the wait expires and, as long as it is not cancelled, at any
    time from then on, and with [operation_aborted] only when it was cancelled. *)
Class DeadlineTimerSpec (W : Type) {T : DeadlineTimer W} := {
  expiry : W -> Z;
  waiting : W -> bool;
  cancelled : W -> bool;
  async_wait_law now delay : let w := async_wait now delay in
    expiry w = now + 1000 * delay /\ waiting w = true /\ cancelled w = false;
  cancel_law now w : expiry (cancel_wait now w) = expiry w /\
    waiting (cancel_wait now w) = waiting w /\ cancelled (cancel_wait now w) = true;
  ready_waiting now aborted w : ready now aborted w = true -> waiting w = true;
  ready_expired now w : ready now false w = true -> expiry w <= now;
  ready_aborted now w : ready now true w = true -> cancelled w = true;
  ready_due now w : waiting w = true -> cancelled w = false -> expiry w <= now -> ready now false w = true;
  invoked_law w : waiting (invoked w) = false;
}.

(** ** AsioDeadlineTimer and AsioDeadlineTimeout

    A timeout is its index in the vector of its timer, which never shrinks. *)
Module AsioDeadlineTimer.

Inductive TimeoutState :=
  | TIMER_UNINITIALIZED
  | TIMER_CANCELLED
  | TIMER_EXPIRED
  | TIMER_ACTIVE.

#[global] Instance TimeoutState_eq_dec : EqDecision TimeoutState.
Proof. solve_decision. Defined.

Record timeout (T W : Type) := MkTimeout {
  state : TimeoutState;
  task : T;
  deadlineTimer : W;
}.
Arguments MkTimeout {T W} _ _ _.
Arguments state {T W} _.
Arguments task {T W} _.
Arguments deadlineTimer {T W} _.

Section Ops.
Context {T W : Type} {DT : DeadlineTimer W}.
Abbreviation timeout := (timeout T W).

Definition isExpired (o : timeout) : bool := bool_decide (state o = TIMER_EXPIRED).
Definition isCancelled (o : timeout) : bool := bool_decide (state o = TIMER_CANCELLED).
Definition isActive (o : timeout) : bool := bool_decide (state o = TIMER_ACTIVE).

Definition cancel (now : Z) (o : timeout) : timeout :=
  MkTimeout (state o) (task o) (cancel_wait now (deadlineTimer o)).

Definition newTimeout (now : Z) (task : T) (delay : Z) (timeouts : list timeout) : nat * list timeout :=
  (List.length timeouts, timeouts ++ [MkTimeout TIMER_ACTIVE task (async_wait now delay)]).

Definition newTimeoutUnit (now : Z) (task : T) (delay : Z) (unit : TimeUnit.t) (timeouts : list timeout)
  : nat * list timeout := newTimeout now task (TimeUnit.toMillis unit delay) timeouts.

Definition stop (now : Z) (timeouts : list timeout) : list timeout :=
  map (fun o => if isActive o then cancel now o else o) timeouts.

(** [TimerTaskHandler] and [TimerFunctionHandler] up to the call of the task,
    which follows when the wait was not aborted. *)
Definition timerHandler (aborted : bool) (o : timeout) : timeout :=
  MkTimeout (if aborted then TIMER_CANCELLED else TIMER_EXPIRED) (task o) (invoked (deadlineTimer o)).

End Ops.
End AsioDeadlineTimer.

(** ** IdleStateHandler *)

Module IdleStateHandler.
Import AsioDeadlineTimer.

Inductive IdleState := READER_IDLE | WRITER_IDLE | ALL_IDLE.

#[global] Instance IdleState_eq_dec : EqDecision IdleState.
Proof. solve_decision. Defined.

Definition kinds : list IdleState := [READER_IDLE; WRITER_IDLE; ALL_IDLE].

(** A pointer to a task: null, the [n]-th task allocated, or what was in the
    memory of the handler before. *)
Inductive pointer :=
  | Null
  | Task (n : nat)
  | Garbage.

#[global] Instance pointer_eq_dec : EqDecision pointer.
Proof. solve_decision. Defined.

(** The members; those of the three kinds of idleness are functions of the kind:
    [readerIdleTimeMillis], [writerIdleTimeMillis], ... *)
Record handler := MkHandler {
  timer : bool;
  lastReadTime : Z;
  lastWriteTime : Z;
  idleTimeMillis : IdleState -> Z;
  idleTimeout : IdleState -> option nat;
  timeoutTask : IdleState -> pointer;
}.

Definition set {A} (f : IdleState -> A) (k : IdleState) (a : A) : IdleState -> A :=
  fun k' => if decide (k' = k) then a else f k'.

(** What is sent upstream, with the time: the events passed on, the idle state
    events, the exceptions that a handler above throws at one; [Initialized] marks
    the calls of [initialize]. *)
Inductive event :=
  | Initialized (time : Z)
  | ChannelOpen (time : Z)
  | ChannelClosed (time : Z)
  | MessageReceived (time : Z)
  | WriteCompleted (amount time : Z)
  | IdleStateEvent (k : IdleState) (lastActivityTime time : Z)
  | ExceptionCaught (k : IdleState) (time : Z).

(** The handler, its channel and the timer of the channel. *)
Record world (W : Type) := MkWorld {
  now : Z;
  isOpen : bool;
  tasks : nat;  (* the tasks allocated so far *)
  timeouts : list (timeout (IdleState * pointer) W);
  self : handler;
  log : list event;
}.
Arguments MkWorld {W} _ _ _ _ _ _.
Arguments now {W} _.
Arguments isOpen {W} _.
Arguments tasks {W} _.
Arguments timeouts {W} _.
Arguments self {W} _.
Arguments log {W} _.

Section Ops.
Context {W : Type} {DT : DeadlineTimer W}.
Abbreviation HM := (M (world W)).

(** What the handlers above do with an idle state event: close the channel,
    throw an exception. *)
Context (closes throws : IdleState -> Z -> bool).
(** What the pointers that the constructors leave uninitialised hold. *)
Context (uninitialised : pointer).

Definition with_now (n : Z) (w : world W) : world W := MkWorld n (isOpen w) (tasks w) (timeouts w) (self w) (log w).
Definition with_open (b : bool) (w : world W) : world W := MkWorld (now w) b (tasks w) (timeouts w) (self w) (log w).
Definition with_timeouts l (w : world W) : world W := MkWorld (now w) (isOpen w) (tasks w) l (self w) (log w).
Definition with_self h (w : world W) : world W := MkWorld (now w) (isOpen w) (tasks w) (timeouts w) h (log w).
Definition newTask (w : world W) : world W := MkWorld (now w) (isOpen w) (S (tasks w)) (timeouts w) (self w) (log w).
Definition send (e : Z -> event) : HM unit :=
  modify (fun w => MkWorld (now w) (isOpen w) (tasks w) (timeouts w) (self w) (log w ++ [e (now w)])).

Definition with_timer b h := MkHandler b (lastReadTime h) (lastWriteTime h) (idleTimeMillis h) (idleTimeout h) (timeoutTask h).
Definition with_lastReadTime t h := MkHandler (timer h) t (lastWriteTime h) (idleTimeMillis h) (idleTimeout h) (timeoutTask h).
Definition with_lastWriteTime t h := MkHandler (timer h) (lastReadTime h) t (idleTimeMillis h) (idleTimeout h) (timeoutTask h).
Definition with_idleTimeout k o h :=
  MkHandler (timer h) (lastReadTime h) (lastWriteTime h) (idleTimeMillis h) (set (idleTimeout h) k o) (timeoutTask h).
Definition with_timeoutTask k p h :=
  MkHandler (timer h) (lastReadTime h) (lastWriteTime h) (idleTimeMillis h) (idleTimeout h) (set (timeoutTask h) k p).
Definition assign (f : handler -> handler) : HM unit := modify (fun w => with_self (f (self w)) w).

(** *** Construction *)

Definition construct (millis : IdleState -> Z) : handler :=
  MkHandler false 0 0 millis (fun _ => None) (fun _ => uninitialised).

Definition newSeconds (readerIdleTimeSeconds writerIdleTimeSeconds allIdleTimeSeconds : Z) : handler :=
  construct (fun k => TimeUnit.toMillis TimeUnit.SECONDS
    match k with
    | READER_IDLE => readerIdleTimeSeconds
    | WRITER_IDLE => writerIdleTimeSeconds
    | ALL_IDLE => allIdleTimeSeconds
    end).

(** The last branch tests the argument, where the others test the member. *)
Definition newUnit (readerIdleTime writerIdleTime allIdleTime : Z) (unit : TimeUnit.t) : handler :=
  let atLeastOne t := if t <=? 0 then 0 else
    let millis := TimeUnit.toMillis unit t in if millis =? 0 then 1 else millis in
  construct (fun k =>
    match k with
    | READER_IDLE => atLeastOne readerIdleTime
    | WRITER_IDLE => atLeastOne writerIdleTime
    | ALL_IDLE => if allIdleTime <=? 0 then 0 else TimeUnit.toMillis unit allIdleTime
    end).

Definition clone (h : handler) : handler :=
  newUnit (idleTimeMillis h READER_IDLE) (idleTimeMillis h WRITER_IDLE) (idleTimeMillis h ALL_IDLE)
    TimeUnit.MILLISECONDS.

(** *** initialize and destroy *)

(** [if (!readerTimeoutTask) readerTimeoutTask = new ReaderIdleTimeoutTask(...)]. *)
Definition createTask (k : IdleState) : HM unit :=
  let! w := gets id in
  match timeoutTask (self w) k with
  | Null => modify newTask ;! assign (with_timeoutTask k (Task (tasks w)))
  | _ => ret tt
  end.

(** [idleTimeout = timer->newTimeout( *task, delay)]. *)
Definition schedule (k : IdleState) (task : pointer) (delay : Z) : HM unit :=
  let! w := gets id in
  let '(o, l) := newTimeout (now w) (k, task) delay (timeouts w) in
  modify (with_timeouts l) ;!
  assign (with_idleTimeout k (Some o)).

Definition startTimeout (k : IdleState) : HM unit :=
  let! h := gets self in
  if idleTimeMillis h k >? 0 then schedule k (timeoutTask h k) (idleTimeMillis h k) else ret tt.

Definition initialize : HM unit :=
  let! time := gets now in
  assign (fun h => with_lastReadTime time (with_lastWriteTime time h)) ;!
  assign (with_timer true) ;!
  createTask READER_IDLE ;!
  createTask WRITER_IDLE ;!
  createTask ALL_IDLE ;!
  startTimeout READER_IDLE ;!
  startTimeout WRITER_IDLE ;!
  startTimeout ALL_IDLE ;!
  send Initialized.

Definition cancelTimeout (k : IdleState) : HM unit :=
  let! w := gets id in
  match idleTimeout (self w) k with
  | Some o =>
      modify (with_timeouts (alter (cancel (now w)) o (timeouts w))) ;!
      assign (with_idleTimeout k None)
  | None => ret tt
  end.

Definition deleteTask (k : IdleState) : HM unit :=
  let! h := gets self in
  match timeoutTask h k with
  | Null => ret tt
  | Task _ => assign (with_timeoutTask k Null)
  | Garbage => throw Undefined
  end.

Definition destroy : HM unit :=
  assign (with_timer false) ;!
  cancelTimeout READER_IDLE ;!
  cancelTimeout WRITER_IDLE ;!
  cancelTimeout ALL_IDLE ;!
  deleteTask READER_IDLE ;!
  deleteTask WRITER_IDLE ;!
  deleteTask ALL_IDLE.

(** *** The events *)

Definition beforeAdd (isAttached : bool) : HM unit := if isAttached then initialize else ret tt.
Definition beforeRemove : HM unit := destroy.
Definition channelOpen : HM unit := initialize ;! send ChannelOpen.
Definition channelClosed : HM unit := destroy ;! send ChannelClosed.

Definition messageReceived : HM unit :=
  let! time := gets now in
  assign (with_lastReadTime time) ;!
  send MessageReceived.

Definition writeCompleted (writtenAmount : Z) : HM unit :=
  let! time := gets now in
  (if writtenAmount >? 0 then assign (with_lastWriteTime time) else ret tt) ;!
  send (WriteCompleted writtenAmount).

(** *** The tasks *)

(** The task object of the timeout is there. *)
Definition alive (k : IdleState) (task : pointer) (w : world W) : bool :=
  match task with
  | Task _ => bool_decide (timeoutTask (self w) k = task)
  | _ => false
  end.

(** [channelIdle], with what the handlers above do: it tells whether one throws.
    A channel that is closed comes back as [channelClosed]. *)
Definition channelIdle (k : IdleState) (lastActivityTime : Z) : HM bool :=
  send (IdleStateEvent k lastActivityTime) ;!
  (if closes k lastActivityTime then modify (with_open false) ;! channelClosed else ret tt) ;!
  ret (throws k lastActivityTime).

Definition lastActivityTime (k : IdleState) (h : handler) : Z :=
  match k with
  | READER_IDLE => lastReadTime h
  | WRITER_IDLE => lastWriteTime h
  | ALL_IDLE => Z.max (lastWriteTime h) (lastReadTime h)
  end.

(** The three [run]s; the clauses of [catch] use the member [ctx] of the task. *)
Definition run (k : IdleState) (task : pointer) (timeout : timeout (IdleState * pointer) W) : HM unit :=
  let! w := gets id in
  if negb (alive k task w) then throw Undefined
  else if isCancelled timeout || negb (isOpen w) then ret tt
  else
    let currentTime := now w in
    let lastTime := lastActivityTime k (self w) in
    let duration := currentTime - lastTime in
    let nextDelay := i64 (idleTimeMillis (self w) k - Z.quot duration 1000) in
    throw_if (negb (timer (self w))) Undefined ;!
    if nextDelay <=? 0 then
      schedule k task (idleTimeMillis (self w) k) ;!
      let! thrown := channelIdle k lastTime in
      if thrown : bool then
        let! w := gets id in
        if alive k task w then send (ExceptionCaught k) else throw Undefined
      else ret tt
    else schedule k task nextDelay.

Definition runReader := run READER_IDLE.
Definition runWriter := run WRITER_IDLE.
Definition runAll := run ALL_IDLE.

(** The handler of the wait of timeout [o]. *)
Definition timerTaskHandler (o : nat) (aborted : bool) : HM unit :=
  let! w := gets id in
  match timeouts w !! o with
  | None => throw Undefined
  | Some timeout =>
      let timeout := timerHandler aborted timeout in
      modify (with_timeouts (<[o := timeout]> (timeouts w))) ;!
      if aborted then ret tt
      else match fst (task timeout) with
           | READER_IDLE => runReader (snd (task timeout)) timeout
           | WRITER_IDLE => runWriter (snd (task timeout)) timeout
           | ALL_IDLE => runAll (snd (task timeout)) timeout
           end
  end.

(** *** What happens to a handler

    The handler, its channel and its timer belong to one thread. *)
Inductive op :=
  | Tick (microseconds : Z)
  | Add (isAttached : bool)
  | Remove
  | Open
  | Close
  | Receive
  | Written (amount : Z)
  | Complete (o : nat) (aborted : bool).

Definition exec (p : op) : HM unit :=
  match p with
  | Tick d => modify (fun w => with_now (now w + d) w)
  | Add isAttached => beforeAdd isAttached
  | Remove => beforeRemove
  | Open => modify (with_open true) ;! channelOpen
  | Close => modify (with_open false) ;! channelClosed
  | Receive => messageReceived
  | Written amount => writeCompleted amount
  | Complete o aborted => timerTaskHandler o aborted
  end.

(** When it can happen: time goes on; a handler is added to a pipeline that is
    attached to an open channel, or before the channel is opened; its channel gives
    it events while it is in the pipeline of the open channel; the io service calls
    the handler of a wait that is ready. *)
Definition enabled (p : op) (w : world W) : bool :=
  match p with
  | Tick d => 0 <=? d
  | Add isAttached => negb (timer (self w)) && Bool.eqb isAttached (isOpen w)
  | Remove => timer (self w)
  | Open => negb (timer (self w)) && negb (isOpen w)
  | Close | Receive | Written _ => timer (self w) && isOpen w
  | Complete o aborted =>
      match timeouts w !! o with
      | Some timeout => ready (now w) aborted (deadlineTimer timeout)
      | None => false
      end
  end.

(** Runs without an error. *)
Inductive steps : world W -> list op -> world W -> Prop :=
  | steps_nil w : steps w [] w
  | steps_cons w p w' ps w'' : enabled p w = true -> exec p w = (Ok tt, w') -> steps w' ps w'' -> steps w (p :: ps) w''.

(** The world of a new handler. *)
Definition start (h : handler) (time : Z) (open : bool) : world W := MkWorld time open 0 [] h [].

End Ops.
End IdleStateHandler.
