(* ===== verification/TimeoutsProperties.v ===== *)
(** * What the idle state handler reports

    Each idle state event is true of what went through the handler before; while
    the handler runs every kind of idleness is watched by exactly one timeout, and
    is reported; and the runs in which a timeout finds its task deleted. *)

From S2P Require Import Prelude MachineInt Text Timeouts.
Import AsioDeadlineTimer IdleStateHandler.

(** Each element of a log is true of those before it. *)
Definition each_true {E} (P : list E -> E -> Prop) (l : list E) : Prop := forall l1 e l2, l = l1 ++ e :: l2 -> P l1 e.

Lemma each_true_snoc {E} (P : list E -> E -> Prop) l e : each_true P l -> P l e -> each_true P (l ++ [e]).
Proof.
  intros Hl He l1 e' l2 Eq. destruct l2 as [|x l2 _] using rev_ind.
  - apply app_inj_tail in Eq as [<- <-]. exact He.
  - rewrite app_comm_cons, app_assoc in Eq. apply app_inj_tail in Eq as [Eq _]. exact (Hl _ _ _ Eq).
Qed.

Lemma each_true_nil {E} (P : list E -> E -> Prop) : each_true P [].
Proof. intros l1 e l2 Eq. destruct l1; discriminate. Qed.

(** ** What the log says *)

Definition lastRead (l : list event) : Z :=
  fold_left (fun t e => match e with Initialized t | MessageReceived t => t | _ => t end) l 0.

Definition lastWrite (l : list event) : Z :=
  fold_left (fun t e =>
    match e with Initialized t => t | WriteCompleted a t' => if a >? 0 then t' else t | _ => t end) l 0.

(** The time of the last activity that counts for a kind of idleness. *)
Definition lastActivity (k : IdleState) (l : list event) : Z :=
  match k with
  | READER_IDLE => lastRead l
  | WRITER_IDLE => lastWrite l
  | ALL_IDLE => Z.max (lastWrite l) (lastRead l)
  end.

(** An idle state event tells the time of the last activity before it, which is
    at least the idle time ago. *)
Definition true_event (millis : IdleState -> Z) (before : list event) (e : event) : Prop :=
  match e with
  | IdleStateEvent k last time =>
      0 < millis k /\ last = lastActivity k before /\ 1000 * millis k <= time - last
  | _ => True
  end.

Definition true_log (millis : IdleState -> Z) : list event -> Prop := each_true (true_event millis).

Lemma alter_Some {A} (f : A -> A) (l : list A) i j x :
  alter f i l !! j = Some x <-> (i = j /\ exists y, l !! j = Some y /\ x = f y) \/ (i <> j /\ l !! j = Some x).
Proof.
  rewrite list_lookup_alter. destruct (decide (i = j)) as [<-|Hn].
  - rewrite fmap_Some. split; [intros H; left; auto | intros [[_ H]|[H _]]; [exact H | contradiction]].
  - split; [intros H; right; auto | intros [[H _]|[_ H]]; [contradiction | exact H]].
Qed.

Section Handler.
Context {W : Type} {DT : DeadlineTimer W} {DS : DeadlineTimerSpec W}.
Context (closes throws : IdleState -> Z -> bool).
Context (millis : IdleState -> Z) (small : forall k, millis k <= 2 ^ 62).
Abbreviation world := (world W).
Implicit Types (w : world) (k : IdleState) (o : nat).

(** ** The kinds apart

    [frame k w w']: the step from [w] to [w'] was one of kind [k] alone. *)
Record frame (k : IdleState) (w w' : world) : Prop := MkFrame {
  f_now : now w' = now w;
  f_open : isOpen w' = isOpen w;
  f_timer : timer (self w') = timer (self w);
  f_read : lastReadTime (self w') = lastReadTime (self w);
  f_write : lastWriteTime (self w') = lastWriteTime (self w);
  f_millis : idleTimeMillis (self w') = idleTimeMillis (self w);
  f_log : log w' = log w;
  f_tasks : (tasks w <= tasks w')%nat;
  f_task k' : k' <> k -> timeoutTask (self w') k' = timeoutTask (self w) k';
  f_kept k' : k' <> k -> idleTimeout (self w') k' = idleTimeout (self w) k';
  f_lookup o tm : fst (task tm) <> k -> timeouts w' !! o = Some tm <-> timeouts w !! o = Some tm;
}.

(** Every timeout has a task that was allocated. *)
Definition allocated w : Prop := forall o tm, timeouts w !! o = Some tm ->
  exists n, snd (task tm) = Task n /\ (n < tasks w)%nat.

(** A timeout of the task [p] of kind [k] whose handler was not called yet. *)
Definition waits k (p : pointer) o (tm : timeout (IdleState * pointer) W) w : Prop :=
  timeouts w !! o = Some tm /\ task tm = (k, p) /\ waiting (deadlineTimer tm) = true.

(** A kind that is not watched: before [initialize] and after [destroy]. *)
Definition stopped k w : Prop := timeoutTask (self w) k = Null /\ idleTimeout (self w) k = None.

(** A kind that has a task, for which no timeout waits. *)
Definition unarmed k w : Prop := exists n, timeoutTask (self w) k = Task n /\ (n < tasks w)%nat /\
  (forall o tm, ~ waits k (Task n) o tm w).

(** A kind that has a task, without or with a timeout. *)
Definition tasked k w : Prop := exists n, timeoutTask (self w) k = Task n.
Definition released k w : Prop := tasked k w /\ idleTimeout (self w) k = None.
Definition prepared k w : Prop := unarmed k w /\ idleTimeout (self w) k = None.

(** A kind that is watched: when its idle time is set one timeout waits, that
    which the handler keeps. *)
Record watched k w : Prop := MkWatched {
  w_task : exists n, timeoutTask (self w) k = Task n /\ (n < tasks w)%nat;
  w_kept : 0 < millis k -> exists o tm, idleTimeout (self w) k = Some o /\
    waits k (timeoutTask (self w) k) o tm w /\ cancelled (deadlineTimer tm) = false /\
    expiry (deadlineTimer tm) <= now w + 1000 * millis k;
  w_none : millis k <= 0 -> idleTimeout (self w) k = None;
  w_only : forall o tm, waits k (timeoutTask (self w) k) o tm w -> idleTimeout (self w) k = Some o /\ 0 < millis k;
}.

(** The timeout that watches a kind expires at time [t]. *)
Definition armed k (t : Z) w : Prop := exists o tm, idleTimeout (self w) k = Some o /\
  waits k (timeoutTask (self w) k) o tm w /\ cancelled (deadlineTimer tm) = false /\ expiry (deadlineTimer tm) = t.

(** What is said of a kind stays when another kind makes a step. *)
Definition local (P : IdleState -> world -> Prop) : Prop :=
  forall k k' w w', frame k' w w' -> k <> k' -> P k w -> P k w'.

Lemma waits_frame k k' w w' p o tm : frame k' w w' -> k <> k' -> waits k p o tm w' <-> waits k p o tm w.
Proof.
  intros F Hk. unfold waits. split; intros (Hl & Ht & Hw); (split; [|auto]);
    apply (f_lookup _ _ _ F o tm); auto; rewrite Ht; exact Hk.
Qed.

Lemma local_stopped : local stopped.
Proof. intros k k' w w' F Hk [H1 H2]. split; [rewrite (f_task _ _ _ F) | rewrite (f_kept _ _ _ F)]; auto. Qed.

Lemma local_unarmed : local unarmed.
Proof.
  intros k k' w w' F Hk (n & H1 & H2 & H3). exists n. rewrite (f_task _ _ _ F) by exact Hk.
  pose proof (f_tasks _ _ _ F). split; [exact H1|]. split; [lia|].
  intros o tm. rewrite (waits_frame k k' w w') by assumption. apply H3.
Qed.

Lemma local_released : local released.
Proof.
  intros k k' w w' F Hk [[n H1] H2]. split; [exists n; rewrite (f_task _ _ _ F) | rewrite (f_kept _ _ _ F)]; auto.
Qed.

Lemma local_prepared : local prepared.
Proof.
  intros k k' w w' F Hk [H1 H2]. split; [exact (local_unarmed k k' w w' F Hk H1) | rewrite (f_kept _ _ _ F); auto].
Qed.

Lemma local_watched : local watched.
Proof.
  intros k k' w w' F Hk [(n & H1 & Hn) H2 H0 H3]. pose proof (f_tasks _ _ _ F).
  split; rewrite ?(f_task _ _ _ F), ?(f_kept _ _ _ F), ?(f_now _ _ _ F) by exact Hk.
  - exists n. split; [exact H1 | lia].
  - intros Hm. destruct (H2 Hm) as (o & tm & Ho & Hw & Hc). exists o, tm.
    rewrite (waits_frame k k' w w') by assumption. auto.
  - exact H0.
  - intros o tm. rewrite (waits_frame k k' w w') by assumption. apply H3.
Qed.

Lemma local_armed t : local (fun k => armed k t).
Proof.
  intros k k' w w' F Hk (o & tm & Ho & Hw & Hc). exists o, tm.
  rewrite (f_kept _ _ _ F), (f_task _ _ _ F), (waits_frame k k' w w') by assumption. auto.
Qed.

(** A timeout is kept by what touches neither the timeouts nor the handler. *)
Lemma armed_same k t w w' : timeouts w' = timeouts w -> idleTimeout (self w') = idleTimeout (self w) ->
  timeoutTask (self w') = timeoutTask (self w) -> armed k t w -> armed k t w'.
Proof. unfold armed, waits. intros -> -> ->. auto. Qed.

(** ** Steps of one kind *)

(** [m] brings kind [k] from [P] to [Q], and touches no other kind. *)
Definition moves k (m : M world unit) (P Q : IdleState -> world -> Prop) : Prop :=
  forall w, allocated w -> idleTimeMillis (self w) = millis -> P k w ->
  exists w', m w = (Ok tt, w') /\ allocated w' /\ frame k w w' /\ Q k w'.

(** All the kinds in turn. *)
Record same (w w' : world) : Prop := MkSame {
  s_now : now w' = now w;
  s_open : isOpen w' = isOpen w;
  s_timer : timer (self w') = timer (self w);
  s_read : lastReadTime (self w') = lastReadTime (self w);
  s_write : lastWriteTime (self w') = lastWriteTime (self w);
  s_millis : idleTimeMillis (self w') = idleTimeMillis (self w);
  s_log : log w' = log w;
}.

Lemma moves_all (m : IdleState -> M world unit) P Q (rest : M world unit) w :
  (forall k, moves k (m k) P Q) -> local P -> local Q ->
  allocated w -> idleTimeMillis (self w) = millis -> (forall k, P k w) ->
  exists w', (m READER_IDLE ;! m WRITER_IDLE ;! m ALL_IDLE ;! rest) w = rest w' /\
    allocated w' /\ same w w' /\ (forall k, Q k w').
Proof.
  intros Hm HP HQ Ha Hi H.
  destruct (Hm READER_IDLE w Ha Hi (H _)) as (w1 & E1 & A1 & F1 & Q1).
  assert (idleTimeMillis (self w1) = millis) as Hi1 by (rewrite (f_millis _ _ _ F1); exact Hi).
  destruct (Hm WRITER_IDLE w1 A1 Hi1) as (w2 & E2 & A2 & F2 & Q2).
  { apply (HP _ READER_IDLE w); auto; discriminate. }
  assert (idleTimeMillis (self w2) = millis) as Hi2 by (rewrite (f_millis _ _ _ F2); exact Hi1).
  destruct (Hm ALL_IDLE w2 A2 Hi2) as (w3 & E3 & A3 & F3 & Q3).
  { apply (HP _ WRITER_IDLE w1); auto; try discriminate. apply (HP _ READER_IDLE w); auto; discriminate. }
  exists w3. rewrite (bind_ok _ _ _ _ _ E1), (bind_ok _ _ _ _ _ E2), (bind_ok _ _ _ _ _ E3).
  split; [reflexivity|]. split; [exact A3|]. split.
  - destruct F1, F2, F3. split; congruence.
  - intros []; [| |exact Q3].
    + apply (HQ _ ALL_IDLE w2); auto; try discriminate. apply (HQ _ WRITER_IDLE w1); auto; discriminate.
    + apply (HQ _ ALL_IDLE w2); auto; discriminate.
Qed.

Lemma set_same {A} (f : IdleState -> A) k a : set f k a k = a.
Proof. unfold set. rewrite decide_True; reflexivity. Qed.

Lemma set_other {A} (f : IdleState -> A) k a k' : k' <> k -> set f k a k' = f k'.
Proof. intros H. unfold set. rewrite decide_False by exact H. reflexivity. Qed.

Lemma moves_createTask k : moves k (createTask k) stopped prepared.
Proof.
  intros w Ha Hi [H1 H2]. unfold createTask. rewrite bind_gets. unfold id. rewrite H1.
  eexists. split; [reflexivity|]. split; [|split].
  - intros o tm Hl. destruct (Ha o tm Hl) as (n & E & Hn). exists n. split; [exact E|]. cbn. lia.
  - split; cbn; auto with lia; intros k' Hk'; apply set_other, Hk'.
  - split; [|exact H2]. exists (tasks w). cbn. rewrite set_same. split; [reflexivity|]. split; [lia|].
    intros o tm (Hl & Ht & _). destruct (Ha o tm Hl) as (n & E & Hn). rewrite Ht in E. cbn in E. injection E as E. lia.
Qed.

(** A new timeout of the task of kind [k]. *)
Lemma schedule_watched k n delay w :
  allocated w -> idleTimeMillis (self w) = millis -> 0 < delay <= millis k ->
  timeoutTask (self w) k = Task n -> (n < tasks w)%nat -> (forall o tm, ~ waits k (Task n) o tm w) ->
  exists w', schedule k (Task n) delay w = (Ok tt, w') /\ allocated w' /\ frame k w w' /\ watched k w' /\
    armed k (now w + 1000 * delay) w'.
Proof.
  intros Ha Hi Hd Ht Hn Hno. eexists. split; [reflexivity|].
  set (tm := MkTimeout TIMER_ACTIVE (k, Task n) (async_wait (now w) delay)).
  destruct (async_wait_law (now w) delay) as (He & Hw & Hc).
  assert (forall o tm', (timeouts w ++ [tm]) !! o = Some tm' <->
    timeouts w !! o = Some tm' \/ (o = List.length (timeouts w) /\ tm' = tm)) as Hl.
  { intros o tm'. rewrite lookup_app_Some, list_lookup_singleton_Some. split.
    - intros [Hl|(Hl & Ho & <-)]; [left; exact Hl | right; split; [lia | reflexivity]].
    - intros [Hl|(-> & ->)]; [left; exact Hl | right; split; [lia | split; [lia | reflexivity]]]. }
  split; [|split; [|split]].
  - intros o tm' Ho. cbn in Ho. apply Hl in Ho as [Ho|[_ ->]]; [exact (Ha o tm' Ho)|]. exists n. auto.
  - split; cbn; auto; [intros k' Hk'; apply set_other, Hk'|].
    intros o tm' Hk'. split; [|intros Ho; apply Hl; auto].
    intros Ho. apply Hl in Ho as [Ho|[_ ->]]; [exact Ho | contradiction].
  - split; cbn; rewrite ?Ht, ?set_same.
    + exists n. auto.
    + intros _. exists (List.length (timeouts w)), tm. split; [reflexivity|]. split.
      * split; [apply Hl; auto | auto].
      * split; [exact Hc|]. change (deadlineTimer tm) with (async_wait (now w) delay). lia.
    + lia.
    + intros o tm' (Ho & Htm & Hwt). cbn in Ho. apply Hl in Ho as [Ho|[-> ->]]; [|split; [reflexivity | lia]].
      exfalso. exact (Hno o tm' (conj Ho (conj Htm Hwt))).
  - exists (List.length (timeouts w)), tm. cbn. rewrite Ht, set_same. split; [reflexivity|].
    split; [split; [apply Hl; auto | auto] | split; [exact Hc | exact He]].
Qed.

Lemma moves_startTimeout k : moves k (startTimeout k) prepared watched.
Proof.
  intros w Ha Hi [(n & Ht & Hn & Hno) Hk]. unfold startTimeout. rewrite bind_gets, Hi, Ht.
  destruct (millis k >? 0) eqn:E; rewrite Z.gtb_ltb in E; zbool.
  - destruct (schedule_watched k n (millis k) w) as (w' & E' & A & F & K & _); auto; [lia|]. exists w'. auto.
  - exists w. split; [reflexivity|]. split; [exact Ha|]. split; [split; auto; tauto|].
    split; [eauto | lia | auto |]. rewrite Ht. intros o tm Hw. exfalso. exact (Hno o tm Hw).
Qed.

Lemma waits_kept k w o : watched k w -> idleTimeout (self w) k = Some o ->
  exists tm, waits k (timeoutTask (self w) k) o tm w /\ cancelled (deadlineTimer tm) = false /\
    expiry (deadlineTimer tm) <= now w + 1000 * millis k.
Proof.
  intros [_ H1 H2 _] Ho. destruct (Z.lt_ge_cases 0 (millis k)) as [Hm|Hm]; [|rewrite H2 in Ho by exact Hm; discriminate].
  destruct (H1 Hm) as (o' & tm & Ho' & H). rewrite Ho in Ho'. injection Ho' as <-. eauto.
Qed.

Lemma moves_cancelTimeout k : moves k (cancelTimeout k) watched released.
Proof.
  intros w Ha Hi Hw. unfold cancelTimeout. rewrite bind_gets. unfold id.
  pose proof (w_task _ _ Hw) as (n & Ht & Hn).
  destruct (idleTimeout (self w) k) as [o|] eqn:Ek.
  2:{ exists w. split; [reflexivity|]. split; [exact Ha|]. split; [split; auto; tauto|]. split; [exists n; exact Ht | exact Ek]. }
  destruct (waits_kept k w o Hw Ek) as (tm & (Hl & Htm & _) & _).
  eexists. split; [reflexivity|]. split; [|split].
  - intros o' tm' Ho. cbn in Ho. apply alter_Some in Ho as [(-> & tm2 & Hl2 & ->)|[_ Ho]]; [|exact (Ha o' tm' Ho)].
    exact (Ha _ tm2 Hl2).
  - split; cbn; auto; [intros k' Hk'; apply set_other, Hk'|].
    intros o' tm' Hk'. rewrite alter_Some. split.
    + intros [(-> & tm2 & Hl2 & ->)|[_ Ho]]; [|exact Ho]. exfalso. apply Hk'. cbn. rewrite Hl in Hl2. injection Hl2 as <-. rewrite Htm. reflexivity.
    + intros Ho. right. split; [|exact Ho]. intros ->. apply Hk'. rewrite Hl in Ho. injection Ho as <-. rewrite Htm. reflexivity.
  - split; [exists n; exact Ht | cbn; apply set_same].
Qed.

Lemma moves_deleteTask k : moves k (deleteTask k) released stopped.
Proof.
  intros w Ha Hi [[n Ht] Hk]. unfold deleteTask. rewrite bind_gets, Ht.
  eexists. split; [reflexivity|]. split; [exact Ha|]. split; [|split; [cbn; apply set_same | exact Hk]].
  split; cbn; auto; try tauto. intros k' Hk'. apply set_other, Hk'.
Qed.

(** ** The invariant *)

(** The members tell the times of the last read and the last write, the log is
    true, and the channel is open while the handler has a timer. *)
Record base w : Prop := MkBase {
  b_millis : idleTimeMillis (self w) = millis;
  b_read : lastReadTime (self w) = lastRead (log w);
  b_read_range : 0 <= lastReadTime (self w) <= now w;
  b_write : lastWriteTime (self w) = lastWrite (log w);
  b_write_range : 0 <= lastWriteTime (self w) <= now w;
  b_log : true_log millis (log w);
  b_alloc : allocated w;
  b_open : timer (self w) = true -> isOpen w = true;
}.

Record inv w : Prop := MkInv {
  i_base : base w;
  i_kinds k : if timer (self w) then watched k w else stopped k w;
}.

Lemma frame_same k w w' : frame k w w' -> same w w'.
Proof. intros []. split; assumption. Qed.

Lemma same_world_trans w1 w2 w3 : same w1 w2 -> same w2 w3 -> same w1 w3.
Proof. intros [] []. split; congruence. Qed.

Lemma base_same w w' : same w w' -> allocated w' -> base w -> base w'.
Proof.
  intros [E1 E2 E3 E4 E5 E6 E7] Ha []. split; rewrite ?E1, ?E2, ?E3, ?E4, ?E5, ?E6, ?E7; assumption.
Qed.

(** What the kinds depend on. *)
Lemma watched_mono k w w' : timeouts w' = timeouts w -> tasks w' = tasks w -> now w <= now w' ->
  timeoutTask (self w') = timeoutTask (self w) -> idleTimeout (self w') = idleTimeout (self w) ->
  watched k w -> watched k w'.
Proof.
  intros E1 E2 Hn E3 E4 [H1 H2 H0 H3]. split; rewrite ?E2, ?E3, ?E4; auto.
  - intros Hm. destruct (H2 Hm) as (o & tm & Ho & Hw & Hc & He). exists o, tm.
    unfold waits in *. rewrite E1. repeat split; try tauto. lia.
  - intros o tm Hw. apply (H3 o tm). unfold waits in *. rewrite E1 in Hw. exact Hw.
Qed.

Lemma kinds_mono w w' : timeouts w' = timeouts w -> tasks w' = tasks w -> now w <= now w' ->
  timeoutTask (self w') = timeoutTask (self w) -> idleTimeout (self w') = idleTimeout (self w) ->
  timer (self w') = timer (self w) ->
  (forall k, if timer (self w) then watched k w else stopped k w) ->
  forall k, if timer (self w') then watched k w' else stopped k w'.
Proof.
  intros E1 E2 Hn E3 E4 E5 H k. specialize (H k). rewrite E5. destruct (timer (self w)).
  - apply (watched_mono k w); assumption.
  - unfold stopped. rewrite E3, E4. exact H.
Qed.

(** An event that is no activity and no idle state event. *)
Definition quiet (e : event) : bool :=
  match e with
  | ChannelOpen _ | ChannelClosed _ | ExceptionCaught _ _ => true
  | _ => false
  end.

Definition logged w e : world := MkWorld (now w) (isOpen w) (tasks w) (timeouts w) (self w) (log w ++ [e]).

Lemma send_eq f w : send f w = (Ok tt, logged w (f (now w))).
Proof. reflexivity. Qed.

Lemma lastRead_app l e : lastRead (l ++ [e]) = match e with Initialized t | MessageReceived t => t | _ => lastRead l end.
Proof. unfold lastRead. rewrite fold_left_app. destruct e; reflexivity. Qed.

Lemma lastWrite_app l e : lastWrite (l ++ [e]) =
  match e with Initialized t => t | WriteCompleted a t => if a >? 0 then t else lastWrite l | _ => lastWrite l end.
Proof. unfold lastWrite. rewrite fold_left_app. destruct e; reflexivity. Qed.

Lemma base_logged w e : base w -> true_event millis (log w) e ->
  lastRead (log w ++ [e]) = lastRead (log w) -> lastWrite (log w ++ [e]) = lastWrite (log w) -> base (logged w e).
Proof.
  intros [] He Hr Hw. split; cbn [logged self log now isOpen]; rewrite ?Hr, ?Hw; try assumption.
  apply each_true_snoc; assumption.
Qed.

Lemma inv_logged w e : inv w -> true_event millis (log w) e ->
  lastRead (log w ++ [e]) = lastRead (log w) -> lastWrite (log w ++ [e]) = lastWrite (log w) -> inv (logged w e).
Proof.
  intros [Hb Hk] He Hr Hw. split; [apply base_logged; assumption|].
  apply (kinds_mono w); try reflexivity. exact Hk.
Qed.

Lemma inv_quiet w e : inv w -> quiet e = true -> inv (logged w e).
Proof.
  intros H Hq. apply inv_logged; [exact H | destruct e; exact I || discriminate | |];
    [rewrite lastRead_app | rewrite lastWrite_app]; destruct e; reflexivity || discriminate.
Qed.

(** ** initialize and destroy *)

Lemma initialize_inv w : inv w -> timer (self w) = false -> isOpen w = true ->
  exists w', initialize w = (Ok tt, w') /\ inv w' /\ now w' = now w /\ log w' = log w ++ [Initialized (now w)].
Proof.
  intros [Hb Hk] Ht Ho. rewrite Ht in Hk. pose proof (b_read_range _ Hb) as Hn. unfold initialize.
  rewrite bind_gets. unfold assign. rewrite !bind_modify.
  set (w0 := with_self _ _). assert (allocated w0) as A0 by exact (b_alloc _ Hb).
  assert (idleTimeMillis (self w0) = millis) as M0 by exact (b_millis _ Hb).
  destruct (moves_all createTask stopped prepared
    (startTimeout READER_IDLE ;! startTimeout WRITER_IDLE ;! startTimeout ALL_IDLE ;! send Initialized) w0
    moves_createTask local_stopped local_prepared A0 M0 Hk) as (w1 & E1 & A1 & S1 & K1).
  assert (idleTimeMillis (self w1) = millis) as M1 by (rewrite (s_millis _ _ S1); exact M0).
  destruct (moves_all startTimeout prepared watched (send Initialized) w1
    moves_startTimeout local_prepared local_watched A1 M1 K1) as (w2 & E2 & A2 & S2 & K2).
  pose proof (same_world_trans _ _ _ S1 S2) as S. rewrite E1, E2, send_eq.
  eexists. split; [reflexivity|]. destruct S as [Sn So St Sr Sw Sm Sl]. cbn in Sn, So, St, Sr, Sw, Sm, Sl.
  split; [|cbn [logged now log]; rewrite Sl, Sn; auto].
  split; [split; cbn [logged self log now isOpen]; rewrite ?lastRead_app, ?lastWrite_app, ?Sn, ?Sr, ?Sw, ?Sm, ?Sl, ?So;
    try assumption; try reflexivity; try lia|].
  - apply each_true_snoc; [apply (b_log _ Hb) | exact I].
  - auto.
  - apply (kinds_mono w2); try reflexivity. rewrite St. exact K2.
Qed.

Lemma destroy_same w : allocated w -> idleTimeMillis (self w) = millis -> (forall k, watched k w) ->
  exists w', destroy w = (Ok tt, w') /\ allocated w' /\ (forall k, stopped k w') /\ timer (self w') = false /\
    same (with_self (with_timer false (self w)) w) w'.
Proof.
  intros Ha Hi Hk. unfold destroy, assign. rewrite bind_modify. set (w0 := with_self _ _).
  assert (forall k, watched k w0) as K0.
  { intros k. apply (watched_mono k w); try reflexivity. apply Hk. }
  destruct (moves_all cancelTimeout watched released
    (deleteTask READER_IDLE ;! deleteTask WRITER_IDLE ;! deleteTask ALL_IDLE) w0
    moves_cancelTimeout local_watched local_released Ha Hi K0) as (w1 & E1 & A1 & S1 & K1).
  assert (idleTimeMillis (self w1) = millis) as M1 by (rewrite (s_millis _ _ S1); exact Hi).
  destruct (moves_all deleteTask released stopped (ret tt) w1
    moves_deleteTask local_released local_stopped A1 M1 K1) as (w2 & E2 & A2 & S2 & K2).
  exists w2. rewrite E1. split; [|split; [exact A2|split; [exact K2|]]].
  - change (ret tt w2) with (@Ok unit tt, w2) in E2. rewrite <- E2. unfold bind.
    destruct (deleteTask READER_IDLE w1) as [[|] s1]; [|reflexivity].
    destruct (deleteTask WRITER_IDLE s1) as [[|] s2]; [|reflexivity].
    destruct (deleteTask ALL_IDLE s2) as [[[]|] s3]; reflexivity.
  - pose proof (same_world_trans _ _ _ S1 S2) as S. split; [rewrite (s_timer _ _ S); reflexivity | exact S].
Qed.

Lemma destroyed_inv w w' : base w -> allocated w' -> (forall k, stopped k w') -> timer (self w') = false ->
  same (with_self (with_timer false (self w)) w) w' -> inv w'.
Proof.
  intros [] Ha Hs Ht [E1 E2 E3 E4 E5 E6 E7]. cbn in E1, E2, E4, E5, E6, E7.
  split; [split; rewrite ?E1, ?E2, ?E4, ?E5, ?E6, ?E7; try assumption; congruence|].
  rewrite Ht. exact Hs.
Qed.

Lemma destroy_inv w : inv w -> timer (self w) = true ->
  exists w', destroy w = (Ok tt, w') /\ inv w' /\ now w' = now w /\ log w' = log w.
Proof.
  intros [Hb Hk] Ht. rewrite Ht in Hk.
  destruct (destroy_same w (b_alloc _ Hb) (b_millis _ Hb) Hk) as (w' & E & A & K & T & S).
  exists w'. split; [exact E|]. split; [exact (destroyed_inv w w' Hb A K T S)|]. destruct S; auto.
Qed.

(** The end of the channel: [isOpen] is false before the handler learns of it. *)
Lemma close_inv w : inv w -> timer (self w) = true ->
  exists w', (modify (with_open false) ;! channelClosed) w = (Ok tt, w') /\ inv w' /\ now w' = now w /\
    log w' = log w ++ [ChannelClosed (now w)] /\ timer (self w') = false.
Proof.
  intros [Hb Hk] Ht. rewrite Ht in Hk. rewrite bind_modify. unfold channelClosed. set (w0 := with_open false w).
  assert (forall k, watched k w0) as K0 by (intros k; apply (watched_mono k w); try reflexivity; apply Hk).
  destruct (destroy_same w0 (b_alloc _ Hb) (b_millis _ Hb) K0) as (w' & E & A & K & T & S).
  rewrite (bind_ok _ _ _ _ _ E), send_eq. eexists. split; [reflexivity|].
  pose proof S as [E1 E2 E3 E4 E5 E6 E7]. cbn in E1, E2, E3, E4, E5, E6, E7.
  split; [apply inv_quiet; [|reflexivity]|cbn [logged now log self]; rewrite E1, E7; auto].
  destruct Hb. split; [split; rewrite ?E1, ?E2, ?E4, ?E5, ?E6, ?E7; try assumption; congruence|].
  rewrite T. exact K.
Qed.

(** ** A timeout *)

(** The world after the handler of the wait of timeout [o] was called. *)
Definition called o tm aborted w : world :=
  with_timeouts (<[o := timerHandler aborted tm]> (timeouts w)) w.

Lemma timerTaskHandler_eq o tm aborted w : timeouts w !! o = Some tm ->
  timerTaskHandler closes throws o aborted w =
  if aborted then (Ok tt, called o tm aborted w)
  else run closes throws (fst (task tm)) (snd (task tm)) (timerHandler false tm) (called o tm false w).
Proof.
  intros Hl. unfold timerTaskHandler. rewrite bind_gets. unfold id. rewrite Hl, bind_modify.
  destruct aborted; [reflexivity|]. cbn [task timerHandler]. destruct (fst (task tm)); reflexivity.
Qed.

Lemma called_lookup o tm ab w o' tm' : timeouts w !! o = Some tm ->
  timeouts (called o tm ab w) !! o' = Some tm' <->
  (o' = o /\ tm' = timerHandler ab tm) \/ (o' <> o /\ timeouts w !! o' = Some tm').
Proof.
  intros Hl. cbn. rewrite list_lookup_insert_Some. split.
  - intros [(-> & <- & _)|[Hne Ho]]; [left; auto | right; split; [congruence | exact Ho]].
  - intros [(-> & ->)|[Hne Ho]]; [left; split; [reflexivity|split; [reflexivity|]] | right; split; [congruence | exact Ho]].
    apply lookup_lt_Some in Hl. exact Hl.
Qed.

Lemma called_allocated o tm ab w : timeouts w !! o = Some tm -> allocated w -> allocated (called o tm ab w).
Proof.
  intros Hl Ha o' tm' Ho. apply called_lookup in Ho as [(-> & ->)|[_ Ho]]; [exact (Ha o tm Hl) | exact (Ha o' tm' Ho) | exact Hl].
Qed.

Lemma called_frame o tm ab w : timeouts w !! o = Some tm -> frame (fst (task tm)) w (called o tm ab w).
Proof.
  intros Hl. split; try reflexivity. intros o' tm' Hk. rewrite called_lookup by exact Hl. split.
  - intros [(-> & ->)|[_ Ho]]; [contradiction | exact Ho].
  - intros Ho. right. split; [|exact Ho]. intros ->. rewrite Hl in Ho. injection Ho as <-. contradiction.
Qed.

(** A timeout that does not watch a kind: its call changes nothing for it. *)
Lemma called_other o tm ab w k : timeouts w !! o = Some tm -> idleTimeout (self w) k <> Some o ->
  watched k w -> watched k (called o tm ab w).
Proof.
  intros Hl Hno [H1 H2 H0 H3]. split; auto.
  - intros Hm. destruct (H2 Hm) as (o' & tm' & Ho' & (Hl' & Hw') & Hc). exists o', tm'. split; [exact Ho'|].
    split; [|exact Hc]. split; [|exact Hw']. apply called_lookup; [exact Hl|]. right. split; [congruence | exact Hl'].
  - intros o' tm' (Ho' & Ht & Hw). apply called_lookup in Ho' as [(-> & ->)|[_ Ho']]; [|exact (H3 o' tm' (conj Ho' (conj Ht Hw))) | exact Hl].
    cbn in Hw. rewrite invoked_law in Hw. discriminate.
Qed.

Lemma called_unarmed o tm ab w : timeouts w !! o = Some tm -> watched (fst (task tm)) w ->
  snd (task tm) = timeoutTask (self w) (fst (task tm)) -> waiting (deadlineTimer tm) = true ->
  unarmed (fst (task tm)) (called o tm ab w).
Proof.
  intros Hl H Hp Hw. destruct (w_task _ _ H) as (n & Hn & Hlt). exists n. split; [exact Hn|]. split; [exact Hlt|].
  assert (idleTimeout (self w) (fst (task tm)) = Some o) as Hk.
  { apply (w_only _ _ H o tm). split; [exact Hl|]. split; [rewrite <- Hp; apply surjective_pairing | exact Hw]. }
  intros o' tm' (Ho' & Ht' & Hw'). apply called_lookup in Ho' as [(-> & ->)|[Hne Ho']]; [| |exact Hl].
  - cbn in Hw'. rewrite invoked_law in Hw'. discriminate.
  - destruct (w_only _ _ H o' tm') as [Ho2 _]; [rewrite Hn; split; auto|]. congruence.
Qed.

Lemma called_armed o tm ab w k t : timeouts w !! o = Some tm -> idleTimeout (self w) k <> Some o ->
  armed k t w -> armed k t (called o tm ab w).
Proof.
  intros Hl Hno (o' & tm' & Ho' & (Hl' & Hw') & Hc). exists o', tm'. split; [exact Ho'|]. split; [|exact Hc].
  split; [|exact Hw']. apply called_lookup; [exact Hl|]. right. split; [congruence | exact Hl'].
Qed.

(** What a step leaves as it is for the other kinds. *)
Record spares (k : IdleState) (w w' : world) : Prop := MkSpares {
  sp_armed k' t : k' <> k -> armed k' t w -> armed k' t w';
  sp_activity k' : lastActivity k' (log w') = lastActivity k' (log w);
}.

Lemma frame_spares k w w' : frame k w w' -> spares k w w'.
Proof.
  intros F. split; [intros k' t Hk H; exact (local_armed t k' k w w' F Hk H)|]. intros k'. rewrite (f_log _ _ _ F). reflexivity.
Qed.

Lemma spares_trans k w1 w2 w3 : spares k w1 w2 -> spares k w2 w3 -> spares k w1 w3.
Proof. intros [A1 L1] [A2 L2]. split; [auto | intros k'; rewrite L2; apply L1]. Qed.

Lemma logged_spares k w e : (forall k', lastActivity k' (log w ++ [e]) = lastActivity k' (log w)) -> spares k w (logged w e).
Proof. intros H. split; [intros k' t _ Ha; apply (armed_same k' t w); auto | exact H]. Qed.

(** ** The tasks *)

Abbreviation handled := (timerTaskHandler closes throws).

Definition idle k w : Prop := 1000 * millis k <= now w - lastActivity k (log w).

Lemma lastActivityTime_log k w : base w ->
  lastActivityTime k (self w) = lastActivity k (log w) /\ 0 <= lastActivity k (log w) <= now w.
Proof.
  intros []. unfold lastActivityTime, lastActivity. rewrite <- b_read0, <- b_write0. destruct k; split; try reflexivity; lia.
Qed.

(** The delay that [run] computes. *)
Lemma nextDelay_eq k w : base w -> now w < 2 ^ 62 -> 0 < millis k ->
  let last := lastActivity k (log w) in
  i64 (idleTimeMillis (self w) k - Z.quot (now w - lastActivityTime k (self w)) 1000)
  = millis k - (now w - last) / 1000 /\
  (idle k w -> millis k - (now w - last) / 1000 <= 0) /\
  (~ idle k w -> 0 < millis k - (now w - last) / 1000 <= millis k /\
    last + 1000 * millis k <= now w + 1000 * (millis k - (now w - last) / 1000)).
Proof.
  intros Hb Hn Hm last. destruct (lastActivityTime_log k w Hb) as [-> Hl]. fold last in Hl |- *.
  rewrite (b_millis _ Hb), Z.quot_div_nonneg by lia. pose proof (small k). unfold idle. fold last.
  generalize dependent last. intros last Hl. split; [apply i64_id; unfold is_signed; cbn; dlia|]. split; intros; dlia.
Qed.

(** The handlers above close the channel, or not. *)
Lemma closing_inv k last w : inv w -> timer (self w) = true ->
  exists w' rest, (if closes k last then modify (with_open false) ;! channelClosed else ret tt) w = (Ok tt, w') /\
    inv w' /\ now w' = now w /\ log w' = log w ++ rest /\
    (if closes k last then timer (self w') = false else w' = w).
Proof.
  intros H Ht. destruct (closes k last).
  - destruct (close_inv w H Ht) as (w' & E & Hi & Hn & Hl & Ht'). exists w', [ChannelClosed (now w)]. auto.
  - exists w, []. rewrite app_nil_r. auto.
Qed.

(** What a task does when its channel is open. *)
Lemma run_eq k n (tm : timeout (IdleState * pointer) W) w :
  timeoutTask (self w) k = Task n -> isOpen w = true -> timer (self w) = true ->
  run closes throws k (Task n) (timerHandler false tm) w =
  let last := lastActivityTime k (self w) in
  let nextDelay := i64 (idleTimeMillis (self w) k - Z.quot (now w - last) 1000) in
  (if nextDelay <=? 0 then
     schedule k (Task n) (idleTimeMillis (self w) k) ;!
     let! thrown := channelIdle closes throws k last in
     if thrown : bool then
       let! w := gets id in if alive k (Task n) w then send (ExceptionCaught k) else throw Undefined
     else ret tt
   else schedule k (Task n) nextDelay) w.
Proof.
  intros Hp Ho Ht. unfold run. rewrite bind_gets. unfold id. unfold alive at 1.
  rewrite Hp, bool_decide_eq_true_2 by reflexivity. cbn [negb]. unfold isCancelled. cbn [state timerHandler].
  rewrite bool_decide_eq_false_2 by discriminate. rewrite Ho. cbn [orb negb]. cbv zeta.
  rewrite bind_throw_if, Ht. reflexivity.
Qed.

(** A task that finds its channel idle. *)
Lemma channelIdle_inv k n last w : inv w -> timer (self w) = true -> timeoutTask (self w) k = Task n ->
  0 < millis k -> last = lastActivity k (log w) -> 1000 * millis k <= now w - last ->
  let r := (let! thrown := channelIdle closes throws k last in
     if thrown : bool then
       let! w := gets id in if alive k (Task n) w then send (ExceptionCaught k) else throw Undefined
     else ret tt) w in
  (closes k last && throws k last = true /\ exists w', r = (Err Undefined, w')) \/
  exists w' rest, r = (Ok tt, w') /\ inv w' /\ now w' = now w /\ log w' = log w ++ IdleStateEvent k last (now w) :: rest /\
    (closes k last = false -> spares k w w').
Proof.
  intros H Ht Hp Hm Hl Hd r. set (w1 := logged w (IdleStateEvent k last (now w))).
  assert (inv w1) as H1.
  { apply inv_logged; [exact H | cbn; auto | rewrite lastRead_app; reflexivity | rewrite lastWrite_app; reflexivity]. }
  destruct (closing_inv k last w1 H1 Ht) as (w2 & rest & E2 & H2 & Hn2 & Hl2 & Hc2).
  assert (channelIdle closes throws k last w = (Ok (throws k last), w2)) as E.
  { unfold channelIdle. rewrite (bind_ok _ _ _ _ _ (send_eq (IdleStateEvent k last) w)).
    fold w1. rewrite (bind_ok _ _ _ _ _ E2). reflexivity. }
  unfold r. rewrite (bind_ok _ _ _ _ _ E). clear r E.
  assert (log w2 = log w ++ IdleStateEvent k last (now w) :: rest) as Hlog.
  { rewrite Hl2. cbn [w1 logged log]. rewrite <- app_assoc. reflexivity. }
  assert (spares k w w1) as S1.
  { apply logged_spares. intros k'. destruct k'; cbn [lastActivity]; rewrite ?lastRead_app, ?lastWrite_app; reflexivity. }
  destruct (throws k last).
  2:{ right. exists w2, rest. do 4 (split; [auto|]). intros Hc. rewrite Hc in Hc2. subst w2. exact S1. }
  rewrite bind_gets. unfold id. destruct (closes k last).
  - left. split; [reflexivity|]. pose proof (i_kinds _ H2 k) as Hs. rewrite Hc2 in Hs. destruct Hs as [Hs _].
    unfold alive. rewrite Hs. rewrite bool_decide_eq_false_2 by discriminate. eexists. reflexivity.
  - subst w2. right. unfold alive. change (timeoutTask (self w1) k) with (timeoutTask (self w) k).
    rewrite Hp, bool_decide_eq_true_2 by reflexivity. rewrite send_eq.
    eexists _, (rest ++ [_]). split; [reflexivity|]. split; [apply inv_quiet; [exact H2 | reflexivity]|].
    split; [exact Hn2|]. split; [cbn [logged log]; rewrite Hlog, <- app_assoc; reflexivity|].
    intros _. apply (spares_trans k w w1 _ S1), logged_spares.
    intros k'. destruct k'; cbn [lastActivity]; rewrite ?lastRead_app, ?lastWrite_app; reflexivity.
Qed.

Lemma rearmed_inv k w w' : base w -> timer (self w) = true -> (forall k', k' <> k -> watched k' w) ->
  allocated w' -> frame k w w' -> watched k w' -> inv w'.
Proof.
  intros Hb Ht Hk A F K. split; [exact (base_same w w' (frame_same _ _ _ F) A Hb)|].
  rewrite (f_timer _ _ _ F), Ht. intros k'. destruct (decide (k' = k)) as [->|Hne]; [exact K|].
  exact (local_watched k' k w w' F Hne (Hk k' Hne)).
Qed.

Lemma schedule_task k n delay w w' : schedule k (Task n) delay w = (Ok tt, w') ->
  timeoutTask (self w) k = Task n -> timeoutTask (self w') k = Task n.
Proof. intros E Hp. unfold schedule in E. rewrite bind_gets in E. injection E as <-. exact Hp. Qed.

Lemma handled_alive o tm w : inv w -> now w < 2 ^ 62 -> timeouts w !! o = Some tm ->
  ready (now w) false (deadlineTimer tm) = true -> alive (fst (task tm)) (snd (task tm)) w = true ->
  let k := fst (task tm) in
  let last := lastActivity k (log w) in
  (idle k w ->
    (closes k last && throws k last = true /\ exists w', handled o false w = (Err Undefined, w')) \/
    exists w' rest, handled o false w = (Ok tt, w') /\ inv w' /\ now w' = now w /\
      log w' = log w ++ IdleStateEvent k last (now w) :: rest /\ (closes k last = false -> spares k w w')) /\
  (~ idle k w -> exists w' t, handled o false w = (Ok tt, w') /\ inv w' /\ now w' = now w /\ log w' = log w /\
    armed k t w' /\ last + 1000 * millis k <= t /\ spares k w w').
Proof.
  intros Hi Hn Hl Hr Ha k last. pose proof Hi as [Hb Hk].
  destruct (snd (task tm)) as [|n|] eqn:Ep; try discriminate.
  unfold alive in Ha. apply bool_decide_eq_true in Ha. fold k in Ha.
  assert (timer (self w) = true) as Ht.
  { specialize (Hk k). destruct (timer (self w)); [reflexivity|]. destruct Hk as [Hs _]. congruence. }
  rewrite Ht in Hk. pose proof (b_open _ Hb Ht) as Ho.
  assert (unarmed k (called o tm false w)) as (n' & Hn' & Hlt & Hno)
    by (apply called_unarmed; [exact Hl | apply Hk | fold k; congruence | exact (ready_waiting _ _ _ Hr)]).
  assert (n' = n) as -> by (change (timeoutTask (self w) k = Task n') in Hn'; congruence).
  assert (0 < millis k) as Hm.
  { apply (w_only _ _ (Hk k) o tm). split; [exact Hl|]. split; [rewrite Ha, <- Ep; apply surjective_pairing | exact (ready_waiting _ _ _ Hr)]. }
  rewrite (timerTaskHandler_eq o tm false w Hl), Ep. fold k. set (w1 := called o tm false w) in *.
  pose proof (called_frame o tm false w Hl) as F1. pose proof (called_allocated o tm false w Hl (b_alloc _ Hb)) as A1.
  fold k in F1. fold w1 in F1, A1.
  assert (forall k', k' <> k -> watched k' w1) as K1 by (intros k' Hk'; exact (local_watched k' k w w1 F1 Hk' (Hk k'))).
  pose proof (base_same w w1 (frame_same _ _ _ F1) A1 Hb) as B1.
  destruct (nextDelay_eq k w1 B1 Hn Hm) as (Ed & Hidle & Hbusy). fold last in Ed, Hidle, Hbusy.
  change (log w1) with (log w) in Ed, Hidle, Hbusy. fold last in Ed, Hidle, Hbusy.
  rewrite (run_eq k n tm w1 Hn' Ho Ht). cbv zeta. rewrite Ed.
  destruct (lastActivityTime_log k w1 B1) as [El _]. change (log w1) with (log w) in El. fold last in El.
  split; intros Hd.
  - rewrite (proj2 (Z.leb_le _ _)) by (apply Hidle, Hd).
    rewrite (b_millis _ B1).
    destruct (schedule_watched k n (millis k) w1 A1 (b_millis _ B1)) as (w2 & E2 & A2 & F2 & K2 & _);
      [lia | exact Hn' | exact Hlt | exact Hno |].
    rewrite (bind_ok _ _ _ _ _ E2), El.
    assert (inv w2) as I2 by exact (rearmed_inv k w1 w2 B1 Ht K1 A2 F2 K2).
    pose proof (w_task _ _ K2) as (n2 & Hn2 & _).
    pose proof (f_now _ _ _ F2) as N2. pose proof (f_log _ _ _ F2) as L2. pose proof (f_timer _ _ _ F2) as T2.
    assert (timeoutTask (self w2) k = Task n) as P2 by exact (schedule_task k n _ w1 w2 E2 Hn').
    destruct (channelIdle_inv k n last w2 I2) as [Hu|(w3 & rest & E3 & I3 & N3 & L3 & S3)];
      [rewrite T2; exact Ht | exact P2 | exact Hm | rewrite L2; reflexivity | rewrite N2; exact Hd | left; exact Hu |].
    right. exists w3, rest. split; [exact E3|]. split; [exact I3|]. rewrite N3, L3, N2, L2.
    split; [reflexivity|]. split; [reflexivity|]. intros Hc.
    exact (spares_trans _ _ _ _ (spares_trans _ _ _ _ (frame_spares _ _ _ F1) (frame_spares _ _ _ F2)) (S3 Hc)).
  - destruct (Hbusy Hd) as [Hpos Hlate]. rewrite (proj2 (Z.leb_gt _ _)) by lia.
    destruct (schedule_watched k n (millis k - (now w1 - last) / 1000) w1 A1 (b_millis _ B1)) as (w2 & E2 & A2 & F2 & K2 & R2);
      [exact Hpos | exact Hn' | exact Hlt | exact Hno |].
    exists w2, (now w1 + 1000 * (millis k - (now w1 - last) / 1000)). split; [exact E2|].
    split; [exact (rearmed_inv k w1 w2 B1 Ht K1 A2 F2 K2)|].
    split; [exact (f_now _ _ _ F2)|]. split; [exact (f_log _ _ _ F2)|]. split; [exact R2|]. split; [exact Hlate|].
    exact (spares_trans _ _ _ _ (frame_spares _ _ _ F1) (frame_spares _ _ _ F2)).
Qed.

(** ** Every step *)

Abbreviation execute := (exec closes throws).

(** The steps that have no meaning: a task that was deleted runs, or was deleted
    by the handler above that then throws. *)
Definition fails (p : op) w : Prop := exists o tm, p = Complete o false /\ timeouts w !! o = Some tm /\
  (alive (fst (task tm)) (snd (task tm)) w = false \/
   let last := lastActivity (fst (task tm)) (log w) in closes (fst (task tm)) last && throws (fst (task tm)) last = true).

Lemma received_inv w : inv w -> exists w', messageReceived w = (Ok tt, w') /\ inv w' /\ now w' = now w.
Proof.
  intros [Hb Hk]. eexists. split; [reflexivity|]. split; [|reflexivity].
  pose proof (b_read_range _ Hb). pose proof (b_write_range _ Hb). destruct Hb. split.
  - split; cbn [logged self log now isOpen with_self with_lastReadTime lastReadTime lastWriteTime timer idleTimeMillis];
      rewrite ?lastRead_app, ?lastWrite_app; try assumption; try reflexivity; try lia.
    apply each_true_snoc; [assumption | exact I].
  - apply (kinds_mono w); try reflexivity. exact Hk.
Qed.

Lemma written_inv a w : inv w -> exists w', writeCompleted a w = (Ok tt, w') /\ inv w' /\ now w' = now w.
Proof.
  intros [Hb Hk]. unfold writeCompleted. rewrite bind_gets.
  pose proof (b_read_range _ Hb). pose proof (b_write_range _ Hb). destruct Hb.
  destruct (a >? 0) eqn:Ea; (eexists; split; [reflexivity|]; split; [|reflexivity]).
  all: split; [split; cbn [logged self log now isOpen with_self with_lastWriteTime lastReadTime lastWriteTime timer idleTimeMillis];
      rewrite ?lastRead_app, ?lastWrite_app, ?Ea; try assumption; try reflexivity; try lia;
      apply each_true_snoc; [assumption | exact I] | apply (kinds_mono w); try reflexivity; exact Hk].
Qed.

Lemma aborted_inv o tm w : inv w -> timeouts w !! o = Some tm -> ready (now w) true (deadlineTimer tm) = true ->
  inv (called o tm true w).
Proof.
  intros [Hb Hk] Hl Hr. split.
  - apply (base_same w); [split; reflexivity | exact (called_allocated o tm true w Hl (b_alloc _ Hb)) | exact Hb].
  - intros k. specialize (Hk k). change (timer (self (called o tm true w))) with (timer (self w)).
    destruct (timer (self w)); [|exact Hk]. apply called_other; [exact Hl | | exact Hk].
    intros Ho. destruct (waits_kept k w o Hk Ho) as (tm' & (Hl' & _) & Hc & _). rewrite Hl in Hl'. injection Hl' as <-.
    rewrite (ready_aborted _ _ Hr) in Hc. discriminate.
Qed.

Lemma deleted_fails o tm w : timeouts w !! o = Some tm -> alive (fst (task tm)) (snd (task tm)) w = false ->
  handled o false w = (Err Undefined, called o tm false w).
Proof.
  intros Hl Ha. rewrite (timerTaskHandler_eq o tm false w Hl). unfold run. rewrite bind_gets. unfold id.
  change (alive (fst (task tm)) (snd (task tm)) (called o tm false w)) with (alive (fst (task tm)) (snd (task tm)) w).
  rewrite Ha. reflexivity.
Qed.

Lemma execute_inv p w : inv w -> enabled p w = true -> now w < 2 ^ 62 ->
  (exists w', execute p w = (Ok tt, w') /\ inv w') \/ (exists w', execute p w = (Err Undefined, w') /\ fails p w).
Proof.
  intros Hi He Hn. pose proof Hi as [Hb Hk]. destruct p as [d|att| | | | |a|o aborted]; cbn [enabled exec] in *;
    rewrite ?andb_true_iff, ?negb_true_iff, ?Z.leb_le in He.
  - left. eexists. split; [reflexivity|]. destruct Hb. split; [split; cbn; try assumption; lia|].
    apply (kinds_mono w); try reflexivity; [cbn; lia | exact Hk].
  - left. destruct He as [Ht Ho]. apply eqb_prop in Ho. subst att. unfold beforeAdd.
    destruct (isOpen w) eqn:Eo; [|exists w; auto].
    destruct (initialize_inv w Hi Ht Eo) as (w' & E & Hi' & _). exists w'. auto.
  - left. destruct (destroy_inv w Hi He) as (w' & E & Hi' & _). exists w'. auto.
  - left. destruct He as [Ht Ho]. rewrite bind_modify. unfold channelOpen.
    destruct (initialize_inv (with_open true w)) as (w' & E & Hi' & _); [|exact Ht | reflexivity |].
    + destruct Hb. split; [split; cbn; try assumption; reflexivity|]. apply (kinds_mono w); try reflexivity. exact Hk.
    + rewrite (bind_ok _ _ _ _ _ E), send_eq. eexists. split; [reflexivity|]. apply inv_quiet; [exact Hi' | reflexivity].
  - left. destruct (close_inv w Hi (proj1 He)) as (w' & E & Hi' & _). exists w'. auto.
  - left. destruct (received_inv w Hi) as (w' & E & Hi' & _). exists w'. auto.
  - left. destruct (written_inv a w Hi) as (w' & E & Hi' & _). exists w'. auto.
  - destruct (timeouts w !! o) as [tm|] eqn:Hl; [|discriminate]. destruct aborted.
    { left. rewrite (timerTaskHandler_eq o tm true w Hl). eexists. split; [reflexivity|].
      apply (aborted_inv o tm w Hi Hl He). }
    destruct (alive (fst (task tm)) (snd (task tm)) w) eqn:Ea.
    + destruct (handled_alive o tm w Hi Hn Hl He Ea) as [Hidle Hbusy].
      destruct (Z.le_gt_cases (1000 * millis (fst (task tm))) (now w - lastActivity (fst (task tm)) (log w))) as [Hd|Hd].
      * destruct (Hidle Hd) as [[Hc (w' & E)]|(w' & rest & E & Hi' & _)]; [right; exists w' | left; exists w'; auto].
        split; [exact E|]. exists o, tm. auto.
      * destruct Hbusy as (w' & t & E & Hi' & _); [unfold idle; lia|]. left. exists w'. auto.
    + right. eexists. split; [exact (deleted_fails o tm w Hl Ea) | exists o, tm; auto].
Qed.

(** Time does not go back. *)
Lemma now_kept {A} (m : M world A) : (forall t, preserves (fun w => now w = t) m) -> forall w, now (snd (m w)) = now w.
Proof. intros H w. exact (H (now w) w eq_refl). Qed.

Ltac keep tac := repeat first
  [ progress intros
  | apply preserves_bind | apply preserves_ret | apply preserves_throw | apply preserves_gets | apply preserves_throw_if
  | apply preserves_modify; tac
  | progress unfold exec, beforeAdd, beforeRemove, channelOpen, channelClosed, messageReceived, writeCompleted,
      initialize, destroy, createTask, startTimeout, cancelTimeout, deleteTask, schedule, assign, send,
      timerTaskHandler, runReader, runWriter, runAll, run, channelIdle
  | match goal with |- preserves _ (match ?x with _ => _ end) => destruct x end
  | match goal with |- preserves _ (let '(_, _) := ?x in _) => destruct x end ].

Lemma exec_now p w : enabled p w = true -> now w <= now (snd (execute p w)).
Proof.
  intros He. destruct p as [d|att| | | | |a|o aborted].
  { cbn in *. apply Z.leb_le in He. lia. }
  all: apply Z.eq_le_incl; symmetry; clear He; revert w; apply now_kept; keep ltac:(intros ? <-; reflexivity).
Qed.

(** ** Runs *)

Abbreviation run_of := (steps closes throws).

Lemma steps_now w ps w' : run_of w ps w' -> now w <= now w'.
Proof.
  induction 1 as [w|w p w1 ps w2 He E _ IH]; [lia|]. pose proof (exec_now p w He) as H. rewrite E in H. cbn in H. lia.
Qed.

Lemma steps_inv w ps w' : run_of w ps w' -> inv w -> now w' < 2 ^ 62 -> inv w'.
Proof.
  induction 1 as [w|w p w1 ps w2 He E Hs IH]; intros Hi Hn; [exact Hi|]. apply IH; [|exact Hn].
  pose proof (exec_now p w He) as H1. rewrite E in H1. cbn in H1. pose proof (steps_now _ _ _ Hs).
  destruct (execute_inv p w Hi He) as [(w' & E' & Hi')|(w' & E' & _)]; [lia | | rewrite E in E'; discriminate].
  rewrite E in E'. injection E' as <-. exact Hi'.
Qed.

Lemma start_inv time open : 0 <= time -> inv (start (W := W) (construct Null millis) time open).
Proof.
  intros Ht. split; [split; cbn; try reflexivity; try lia; try discriminate|].
  - apply each_true_nil.
  - intros k. split; reflexivity.
Qed.

(** C17: whatever happens to a handler, each idle state event that it sends is of a
    kind whose idle time is set, tells the time of the last read, write, or either,
    that went through the handler before it, and is sent when that is at least the
    idle time ago. The pointers of the new handler to its tasks are null, which the
    constructors leave to chance: see [uninitialised_tasks].  The clock stays below
    2^62 microseconds, and no idle time is above 2^62 milliseconds. *)
Theorem idle_events_true (time : Z) (open : bool) (ps : list op) w :
  0 <= time -> run_of (start (construct Null millis) time open) ps w -> now w < 2 ^ 62 ->
  true_log millis (log w).
Proof.
  intros Ht Hs Hn. apply (b_log _ (i_base _ (steps_inv _ _ _ Hs (start_inv time open Ht) Hn))).
Qed.

Lemma armed_due k t w : armed k t w -> exists o tm,
  timeouts w !! o = Some tm /\ task tm = (k, timeoutTask (self w) k) /\
  forall d, t <= now w + d -> ready (now w + d) false (deadlineTimer tm) = true.
Proof.
  intros (o & tm & _ & (Hl & Ht & Hw) & Hc & <-). exists o, tm. split; [exact Hl|]. split; [exact Ht|].
  intros d Hd. apply ready_due; assumption.
Qed.

Lemma armed_bound k t w : armed k t w -> watched k w -> 0 < millis k -> t <= now w + 1000 * millis k.
Proof.
  intros (o & tm & Ho & (Hl & _) & _ & <-) Hw Hm. destruct (w_kept _ _ Hw Hm) as (o' & tm' & Ho' & (Hl' & _) & _ & He).
  rewrite Ho in Ho'. injection Ho' as <-. rewrite Hl in Hl'. injection Hl' as <-. exact He.
Qed.

Lemma armed_timer k t w : inv w -> armed k t w -> timer (self w) = true /\ watched k w.
Proof.
  intros [_ Hk] (o & tm & Ho & _). specialize (Hk k). destruct (timer (self w)); [auto|].
  destruct Hk as [_ Hs]. rewrite Ho in Hs. discriminate.
Qed.

(** The timeout that watches kind [k] is waited for, and called. *)
Lemma wait_and_call k t w : inv w -> armed k t w -> Z.max t (now w) < 2 ^ 62 ->
  (forall last, closes k last && throws k last = false) ->
  let last := lastActivity k (log w) in
  exists ps w', run_of w ps w' /\ List.Forall (fun p => match p with Tick _ | Complete _ _ => True | _ => False end) ps /\
    now w' = Z.max t (now w) /\ inv w' /\
    (1000 * millis k <= now w' - last -> exists rest, log w' = log w ++ IdleStateEvent k last (now w') :: rest) /\
    (now w' - last < 1000 * millis k -> log w' = log w /\ exists t', armed k t' w' /\ last + 1000 * millis k <= t').
Proof.
  intros Hi Ha Hn Hct last. set (d := Z.max 0 (t - now w)). set (w1 := with_now (now w + d) w).
  destruct (armed_due k t w Ha) as (o & tm & Hl & Htm & Hr). destruct (armed_timer k t w Hi Ha) as [Ht Hw].
  assert (enabled (Tick d) w = true) as He1 by (apply Z.leb_le; lia).
  assert (inv w1) as Hi1.
  { destruct (execute_inv (Tick d) w Hi He1) as [(w' & E & Hi')|(w' & E & _)]; [lia | injection E as <-; exact Hi' | discriminate]. }
  assert (ready (now w1) false (deadlineTimer tm) = true) as Hr1 by (apply Hr; lia).
  assert (enabled (Complete o false) w1 = true) as He2.
  { cbn [enabled]. change (timeouts w1) with (timeouts w). rewrite Hl. exact Hr1. }
  assert (alive (fst (task tm)) (snd (task tm)) w1 = true) as Hal.
  { rewrite Htm. destruct (w_task _ _ Hw) as (n & Hp & _). cbn [fst snd]. rewrite Hp. unfold alive. apply bool_decide_eq_true. exact Hp. }
  destruct (handled_alive o tm w1 Hi1 ltac:(cbn; lia) Hl Hr1 Hal) as [Hidle Hbusy].
  rewrite Htm in Hidle, Hbusy. cbn [fst] in Hidle, Hbusy. change (log w1) with (log w) in Hidle, Hbusy. fold last in Hidle, Hbusy.
  exists [Tick d; Complete o false].
  assert (forall w', handled o false w1 = (Ok tt, w') -> run_of w [Tick d; Complete o false] w') as Hrun.
  { intros w' E. apply (steps_cons _ _ w _ w1); [exact He1 | reflexivity|].
    apply (steps_cons _ _ w1 _ w'); [exact He2 | exact E | apply steps_nil]. }
  assert (now w1 = Z.max t (now w)) as Hnow by (cbn; lia).
  destruct (Z.le_gt_cases (1000 * millis k) (now w1 - last)) as [Hd|Hd].
  - destruct (Hidle Hd) as [[Hc _]|(w' & rest & E & Hi' & Hn' & Hlog & _)]; [rewrite Hct in Hc; discriminate|].
    exists w'. split; [exact (Hrun w' E)|]. split; [repeat constructor|]. split; [congruence|]. split; [exact Hi'|].
    split; [intros _; exists rest; rewrite Hn'; exact Hlog | lia].
  - destruct Hbusy as (w' & t' & E & Hi' & Hn' & Hlog & Har & Hlate & _);
      [unfold idle; change (log w1) with (log w); fold last; lia|].
    exists w'. split; [exact (Hrun w' E)|]. split; [repeat constructor|]. split; [congruence|]. split; [exact Hi'|].
    split; [lia | intros _; split; [exact Hlog | exists t'; auto]].
Qed.

Lemma steps_app w ps w1 qs w2 : run_of w ps w1 -> run_of w1 qs w2 -> run_of w (ps ++ qs) w2.
Proof. induction 1; intros H2; [exact H2 | econstructor; eauto]. Qed.

(** ** Idleness is noticed *)

(** What may happen while a kind is idle: no activity that counts for it. *)
Definition quiet_for (k : IdleState) (p : op) : bool :=
  match p with
  | Tick _ | Complete _ _ => true
  | Receive => bool_decide (k = WRITER_IDLE)
  | Written a => bool_decide (k = READER_IDLE) || (a <=? 0)
  | Add _ | Remove | Open | Close => false
  end.

(** The handler of the timeout that is kept for a kind was called, if it is due. *)
Definition settled (k : IdleState) w : Prop := forall o tm,
  idleTimeout (self w) k = Some o -> timeouts w !! o = Some tm -> ready (now w) false (deadlineTimer tm) = false.

Definition reported (k : IdleState) (last : Z) (l : list event) : Prop := exists t, In (IdleStateEvent k last t) l.

(** A handler above closed the channel at an idle state event. *)
Definition closed_above (l : list event) : Prop :=
  exists k last t, In (IdleStateEvent k last t) l /\ closes k last = true.

(** Since the log was [l] the kind was reported, the channel was closed at an
    event, or a timeout waits until [limit] at most. *)
Definition noticing (k : IdleState) (l : list event) (limit : Z) w : Prop :=
  exists rest, log w = l ++ rest /\
    (reported k (lastActivity k l) rest \/ closed_above rest \/
     (lastActivity k (log w) = lastActivity k l /\ exists t, armed k t w /\ t <= limit)).

(** The log only grows. *)
Definition extends (l : list event) w : Prop := exists rest, log w = l ++ rest.

Lemma exec_extends p w w' : execute p w = (Ok tt, w') -> extends (log w) w'.
Proof.
  intros E. assert (forall l, preserves (extends l) (execute p)) as H.
  { intros l. destruct p; keep ltac:(intros ? [rest ?]; first
      [exists rest; assumption | eexists; cbn; match goal with E : log _ = _ |- _ => rewrite E end; rewrite <- app_assoc; reflexivity]). }
  specialize (H (log w) w). rewrite E in H. apply H. exists []. symmetry. apply app_nil_r.
Qed.

Lemma reported_more k last l more : reported k last l -> reported k last (l ++ more).
Proof. intros [t H]. exists t. apply in_or_app. auto. Qed.

Lemma closed_more l more : closed_above l -> closed_above (l ++ more).
Proof. intros (k & last & t & H & Hc). exists k, last, t. split; [apply in_or_app; auto | exact Hc]. Qed.

(** A timeout of another kind is called. *)
Lemma other_called o tm w w' k t : inv w -> now w < 2 ^ 62 -> timeouts w !! o = Some tm -> fst (task tm) <> k ->
  ready (now w) false (deadlineTimer tm) = true -> handled o false w = (Ok tt, w') -> armed k t w ->
  (exists last rest, log w' = log w ++ IdleStateEvent (fst (task tm)) last (now w) :: rest /\ closes (fst (task tm)) last = true) \/
  (armed k t w' /\ lastActivity k (log w') = lastActivity k (log w)).
Proof.
  intros Hi Hn Hl Hne Hr E Ha. destruct (alive (fst (task tm)) (snd (task tm)) w) eqn:Eal.
  - destruct (handled_alive o tm w Hi Hn Hl Hr Eal) as [Hidle Hbusy].
    destruct (Z.le_gt_cases (1000 * millis (fst (task tm))) (now w - lastActivity (fst (task tm)) (log w))) as [Hd|Hd].
    + destruct (Hidle Hd) as [[_ [w2 E2]]|(w2 & rest & E2 & _ & _ & Hlog & Hs)]; rewrite E in E2; [discriminate|].
      injection E2 as <-. destruct (closes _ _) eqn:Ec; [left; eauto | right].
      destruct (Hs eq_refl) as [Ka Kl]. split; [apply Ka; auto | apply Kl].
    + destruct Hbusy as (w2 & t2 & E2 & _ & _ & _ & _ & _ & [Ka Kl]); [unfold idle; lia|].
      rewrite E in E2. injection E2 as <-. right. split; [apply Ka; auto | apply Kl].
  - rewrite (deleted_fails o tm w Hl Eal) in E. discriminate.
Qed.

(** The timeout that is kept is called. *)
Lemma own_called o tm w w' k limit : inv w -> now w < 2 ^ 62 -> timeouts w !! o = Some tm -> fst (task tm) = k ->
  ready (now w) false (deadlineTimer tm) = true -> handled o false w = (Ok tt, w') ->
  lastActivity k (log w) + 2000 * millis k <= limit ->
  (exists rest, log w' = log w ++ IdleStateEvent k (lastActivity k (log w)) (now w) :: rest) \/
  (log w' = log w /\ exists t, armed k t w' /\ t <= limit).
Proof.
  intros Hi Hn Hl <- Hr E Hlim. set (k := fst (task tm)) in *.
  destruct (alive k (snd (task tm)) w) eqn:Eal.
  - destruct (handled_alive o tm w Hi Hn Hl Hr Eal) as [Hidle Hbusy]. fold k in Hidle, Hbusy.
    destruct (Z.le_gt_cases (1000 * millis k) (now w - lastActivity k (log w))) as [Hd|Hd].
    + destruct (Hidle Hd) as [[_ [w2 E2]]|(w2 & rest & E2 & _ & _ & Hlog & _)]; rewrite E in E2; [discriminate|].
      injection E2 as <-. left. exists rest. exact Hlog.
    + destruct Hbusy as (w2 & t2 & E2 & I2 & N2 & L2 & A2 & _ & _); [unfold idle; lia|].
      rewrite E in E2. injection E2 as <-. right. split; [exact L2|]. exists t2. split; [exact A2|].
      destruct (armed_timer k t2 w' I2 A2) as [_ Hw2].
      destruct (Z.lt_ge_cases 0 (millis k)) as [Hm|Hm].
      * pose proof (armed_bound k t2 w' A2 Hw2 Hm). lia.
      * destruct A2 as (o2 & tm2 & Ho2 & _). rewrite (w_none _ _ Hw2 Hm) in Ho2. discriminate.
  - rewrite (deleted_fails o tm w Hl Eal) in E. discriminate.
Qed.

Lemma kept_armed k t w p w' : inv w -> now w < 2 ^ 62 -> enabled p w = true -> execute p w = (Ok tt, w') ->
  quiet_for k p = true -> armed k t w -> (forall o, p <> Complete o false) ->
  armed k t w' /\ lastActivity k (log w') = lastActivity k (log w).
Proof.
  intros Hi Hn He E Hq Ha Hno. destruct p as [d|att| | | | |a|o aborted]; try discriminate Hq.
  - injection E as <-. split; [apply (armed_same k t w); auto | reflexivity].
  - injection E as <-. split; [apply (armed_same k t w); auto|]. apply bool_decide_eq_true in Hq. subst k.
    cbn [lastActivity log]. apply lastWrite_app.
  - unfold quiet_for in Hq. cbn [exec] in E. unfold writeCompleted in E. rewrite bind_gets in E.
    destruct (a >? 0) eqn:Ea; injection E as <-; (split; [apply (armed_same k t w); auto|]); cbn [log with_self];
      destruct k; cbn [lastActivity]; rewrite ?lastWrite_app, ?lastRead_app, ?Ea; try reflexivity;
      apply Z.gtb_lt in Ea; apply orb_true_iff in Hq as [Hq|Hq]; zbool; try lia; apply bool_decide_eq_true in Hq; discriminate.
  - destruct aborted; [|contradiction (Hno o eq_refl)]. cbn [enabled exec] in He, E.
    destruct (timeouts w !! o) as [tm|] eqn:Hl; [|discriminate]. rewrite (timerTaskHandler_eq o tm true w Hl) in E.
    injection E as <-. split; [|reflexivity]. apply (called_armed o tm true w k t Hl); [|exact Ha].
    intros Ho. destruct Ha as (o' & tm' & Ho' & (Hl' & _) & Hc & _). rewrite Ho in Ho'. injection Ho' as <-.
    rewrite Hl in Hl'. injection Hl' as <-. rewrite (ready_aborted _ _ He) in Hc. discriminate.
Qed.

Lemma noticing_step k l limit w p w' : inv w -> now w < 2 ^ 62 -> enabled p w = true -> execute p w = (Ok tt, w') ->
  quiet_for k p = true -> lastActivity k l + 2000 * millis k <= limit -> noticing k l limit w -> noticing k l limit w'.
Proof.
  intros Hi Hn He E Hq Hlim (rest & Er & H). destruct (exec_extends p w w' E) as [more Em].
  exists (rest ++ more). split; [rewrite Em, Er, <- app_assoc; reflexivity|].
  destruct H as [H|[H|[La (t & Ha & Hb)]]]; [left; apply reported_more, H | right; left; apply closed_more, H |].
  assert ((exists o, p = Complete o false) \/ forall o, p <> Complete o false) as [[o ->]|Hno]
    by (destruct p as [| | | | | | |o []]; try (right; discriminate); left; eauto).
  2:{ right. right. destruct (kept_armed k t w p w' Hi Hn He E Hq Ha) as [A' L']; [exact Hno|].
      split; [congruence | exists t; auto]. }
  cbn [enabled exec] in He, E. destruct (timeouts w !! o) as [tm|] eqn:Hl; [|discriminate].
  destruct (decide (fst (task tm) = k)) as [Hk|Hk].
  - destruct (own_called o tm w w' k limit Hi Hn Hl Hk He E) as [[r Lr]|[Lr Ht]]; [rewrite La; exact Hlim | |].
    + left. exists (now w). rewrite Em in Lr. apply app_inv_head in Lr. rewrite Lr, <- La. apply in_or_app. right. left. reflexivity.
    + right. right. rewrite Lr. auto.
  - destruct (other_called o tm w w' k t Hi Hn Hl Hk He E Ha) as [(last & r & Lr & Hc)|[A' L']].
    + right. left. exists (fst (task tm)), last, (now w). split; [|exact Hc].
      rewrite Em in Lr. apply app_inv_head in Lr. rewrite Lr. apply in_or_app. right. left. reflexivity.
    + right. right. split; [congruence | exists t; auto].
Qed.

Lemma noticing_steps k l limit w qs w' : run_of w qs w' -> inv w -> now w' < 2 ^ 62 ->
  List.Forall (fun p => quiet_for k p = true) qs -> lastActivity k l + 2000 * millis k <= limit ->
  noticing k l limit w -> noticing k l limit w'.
Proof.
  induction 1 as [w|w p w1 qs w2 He E Hs IH]; intros Hi Hn Hq Hlim H; [exact H|].
  pose proof (exec_now p w He) as H1. rewrite E in H1. cbn in H1. pose proof (steps_now _ _ _ Hs).
  inversion Hq; subst. apply IH; auto; [|apply (noticing_step k l limit w p); auto; lia].
  apply (steps_inv w [p] w1); [|exact Hi | lia]. econstructor; [exact He | exact E | apply steps_nil].
Qed.

Lemma armed_exists k w : inv w -> timer (self w) = true -> 0 < millis k ->
  exists t, armed k t w /\ t <= now w + 1000 * millis k.
Proof.
  intros Hi Ht Hm. pose proof (i_kinds _ Hi k) as Hw. rewrite Ht in Hw.
  destruct (w_kept _ _ Hw Hm) as (o & tm & Ho & Hwt & Hc & Hb). exists (expiry (deadlineTimer tm)). split; [|exact Hb].
  exists o, tm. auto.
Qed.

(** Calling the timeout of a kind, once or twice. *)
Lemma noticed_soon k t w : inv w -> armed k t w -> t <= now w + 1000 * millis k -> now w + 2000 * millis k < 2 ^ 62 ->
  0 < millis k -> (forall last, closes k last && throws k last = false) ->
  exists qs w' rest, run_of w qs w' /\
    List.Forall (fun p => match p with Tick _ | Complete _ _ => True | _ => False end) qs /\
    now w' <= now w + 2000 * millis k /\
    log w' = log w ++ IdleStateEvent k (lastActivity k (log w)) (now w') :: rest.
Proof.
  intros Hi Har Hb Hn Hm Hct.
  destruct (lastActivityTime_log k w (i_base _ Hi)) as [_ Hrange].
  destruct (wait_and_call k t w Hi Har) as (qs & w1 & R1 & F1 & N1 & I1 & Hd1 & Hb1); [lia | exact Hct|].
  destruct (Z.le_gt_cases (1000 * millis k) (now w1 - lastActivity k (log w))) as [Hd|Hd].
  - destruct (Hd1 Hd) as (rest & L1). exists qs, w1, rest. repeat split; auto. lia.
  - destruct (Hb1 Hd) as (L1 & t' & Har' & Hlate). destruct (armed_timer k t' w1 I1 Har') as [Ht1 Hw1].
    pose proof (armed_bound k t' w1 Har' Hw1 Hm) as Hb'.
    destruct (wait_and_call k t' w1 I1 Har') as (qs2 & w2 & R2 & F2 & N2 & I2 & Hd2 & _); [lia | exact Hct|].
    rewrite L1 in Hd2. destruct Hd2 as (rest & L2); [lia|].
    exists (qs ++ qs2), w2, rest. split; [exact (steps_app _ _ _ _ _ R1 R2)|].
    split; [apply List.Forall_app; auto|]. split; [lia | exact L2].
Qed.

(** C18: idleness is noticed, by a handler that runs and the idle time of which is
    set for a kind. In every run in which nothing happens that counts as activity of
    the kind, whatever the other timeouts and the handlers above do, after twice the
    idle time the event of the kind was sent, with the time of the last activity,
    once the handler of its timeout was called when due, unless a handler above
    closed the channel at an idle state event. And when those do not close it and
    throw at once, calling the timeout of the kind when it expires leads to its event
    within twice the idle time. The world is any that a run reaches from a handler
    the pointers of which to the tasks are null: the constructors leave them unset,
    see [uninitialised_tasks].  The clock stays below 2^62 microseconds. *)
Theorem idleness_reported (time : Z) (open : bool) (ps : list op) w k :
  0 <= time -> run_of (start (construct Null millis) time open) ps w -> now w + 2000 * millis k < 2 ^ 62 ->
  timer (self w) = true -> 0 < millis k ->
  (forall qs w', run_of w qs w' -> List.Forall (fun p => quiet_for k p = true) qs ->
     now w + 2000 * millis k <= now w' < 2 ^ 62 -> settled k w' ->
     exists rest, log w' = log w ++ rest /\ (reported k (lastActivity k (log w)) rest \/ closed_above rest)) /\
  ((forall last, closes k last && throws k last = false) ->
   exists qs w' rest, run_of w qs w' /\
     List.Forall (fun p => match p with Tick _ | Complete _ _ => True | _ => False end) qs /\
     now w' <= now w + 2000 * millis k /\
     log w' = log w ++ IdleStateEvent k (lastActivity k (log w)) (now w') :: rest).
Proof.
  intros H0 Hs Hn Ht Hm. pose proof (steps_inv _ _ _ Hs (start_inv time open H0) ltac:(lia)) as Hi.
  destruct (lastActivityTime_log k w (i_base _ Hi)) as [_ Hrange].
  destruct (armed_exists k w Hi Ht Hm) as (t & Har & Hb). split.
  - intros qs w' Hr Hq Hnow Hset.
    destruct (noticing_steps k (log w) (now w + 2000 * millis k) w qs w' Hr Hi) as (rest & Er & H); try lia; [exact Hq | |].
    { exists []. split; [symmetry; apply app_nil_r|]. right. right. split; [reflexivity | exists t; split; [exact Har | lia]]. }
    exists rest. split; [exact Er|]. destruct H as [H|[H|[_ (t' & Ha' & Hb')]]]; [left; exact H | right; exact H | exfalso].
    destruct Ha' as (o & tm & Ho & (Hl & _ & Hw) & Hc & <-).
    pose proof (Hset o tm Ho Hl) as Hf. rewrite (ready_due (now w') (deadlineTimer tm) Hw Hc) in Hf by lia. discriminate.
  - intros Hct. exact (noticed_soon k t w Hi Har ltac:(lia) Hn Hm Hct).
Qed.

(** The only step of a running handler without a meaning is the call of a task
    that was deleted: that of a timeout which had expired when the handler was
    destroyed, or one that a handler above closed the channel in before it threw.
    All other steps go through. *)
Theorem only_deleted_tasks_fail (time : Z) (open : bool) (ps : list op) w p :
  0 <= time -> run_of (start (construct Null millis) time open) ps w -> now w < 2 ^ 62 -> enabled p w = true ->
  (exists w', execute p w = (Ok tt, w')) \/ (exists w', execute p w = (Err Undefined, w') /\ fails p w).
Proof.
  intros H0 Hs Hn He. pose proof (steps_inv _ _ _ Hs (start_inv time open H0) Hn) as Hi.
  destruct (execute_inv p w Hi He Hn) as [(w' & E & _)|Hf]; [left; exists w'; exact E | right; exact Hf].
Qed.

End Handler.

(** ** A timer *)

Module PreciseTimer.

Record wait := MkWait {
  expires : Z;
  finished : bool;
  cancelledAt : option Z;
}.

(** A wait that expired before it was cancelled is called without an error. *)
#[global] Instance timer : DeadlineTimer wait := {|
  async_wait now delay := MkWait (now + 1000 * delay) false None;
  cancel_wait now w := MkWait (expires w) (finished w) (Some now);
  ready now aborted w := negb (finished w) &&
    if aborted then bool_decide (is_Some (cancelledAt w))
    else (expires w <=? now) && match cancelledAt w with Some c => expires w <=? c | None => true end;
  invoked w := MkWait (expires w) true (cancelledAt w);
|}.

#[global] Instance timer_spec : DeadlineTimerSpec wait.
Proof.
  refine {| expiry := expires; waiting w := negb (finished w); cancelled w := bool_decide (is_Some (cancelledAt w)) |};
    intros; cbn in *; repeat split; try reflexivity.
  - apply andb_true_iff in H as [H _]. exact H.
  - apply andb_true_iff in H as [_ H]. apply andb_true_iff in H as [H _]. apply Z.leb_le, H.
  - apply andb_true_iff in H as [_ H]. exact H.
  - rewrite H. destruct (cancelledAt w); [discriminate|]. rewrite (proj2 (Z.leb_le _ _)) by assumption. reflexivity.
Defined.
End PreciseTimer.

(** ** Witnesses *)

Section Witnesses.
Existing Instances PreciseTimer.timer PreciseTimer.timer_spec.
Abbreviation W := PreciseTimer.wait.

(** Two milliseconds for the reader, and handlers above that do nothing. *)
Definition readerTwo (k : IdleState) : Z := match k with READER_IDLE => 2 | _ => 0 end.
Definition never (k : IdleState) (t : Z) : bool := false.

Lemma readerTwo_small k : readerTwo k <= 2 ^ 62.
Proof. destruct k; cbn; lia. Qed.

(** Running a list of steps. *)
Fixpoint play (ps : list op) (w : world W) : option (world W) :=
  match ps with
  | [] => Some w
  | p :: ps =>
      if enabled p w then
        match exec never never p w with (Ok _, w') => play ps w' | (Err _, _) => None end
      else None
  end.

Lemma play_steps ps w w' : play ps w = Some w' -> steps never never w ps w'.
Proof.
  revert w. induction ps as [|p ps IH]; intros w E; [injection E as ->; apply steps_nil|].
  cbn [play] in E. destruct (enabled p w) eqn:He; [|discriminate].
  destruct (exec never never p w) as [[[]|e] w1] eqn:Ex; [|discriminate]. exact (steps_cons _ _ _ _ _ _ _ He Ex (IH w1 E)).
Qed.


Lemma play_app ps qs w : play (ps ++ qs) w = match play ps w with Some w => play qs w | None => None end.
Proof.
  revert w. induction ps as [|p ps IH]; intros w; [reflexivity|]. cbn [app play].
  destruct (enabled p w); [|reflexivity]. destruct (exec never never p w) as [[] w1]; [apply IH | reflexivity].
Qed.

(** A message that arrives after 1.5 ms moves the event from 2 ms to 4.1 ms: the
    delay left is counted in whole milliseconds. *)
Definition quiet_run : list op := [Open; Tick 1500; Receive; Tick 600; Complete 0 false; Tick 2000; Complete 1 false].

(** What the witnesses look at in the world at the end of a run. *)
Definition seen (ps : list op) : option (Z * bool * list event * bool) :=
  option_map (fun w => (now w, timer (self w), log w, enabled (Complete 0 false) w))
    (play ps (start (construct Null readerTwo) 0 false)).

Lemma seen_more ps p w : play ps (start (construct Null readerTwo) 0 false) = Some w -> enabled p w = true ->
  seen (ps ++ [p]) = None -> is_ok (fst (exec never never p w)) = true -> False.
Proof.
  intros E He Hs. unfold seen in Hs. rewrite play_app, E in Hs. cbn [play] in Hs. rewrite He in Hs.
  destruct (exec never never p w) as [[[]|e] w']; [discriminate Hs | discriminate].
Qed.

Lemma seen_play ps n t l e : seen ps = Some (n, t, l, e) -> exists w,
  play ps (start (construct Null readerTwo) 0 false) = Some w /\
  now w = n /\ timer (self w) = t /\ log w = l /\ enabled (Complete 0 false) w = e.
Proof. unfold seen. destruct (play _ _) as [w|]; [|discriminate]. intros [= Hn Ht Hl He]. exists w. auto. Qed.

Lemma idle_events_true_witness : exists w,
  steps never never (start (construct Null readerTwo) 0 false) quiet_run w /\
  log w = [Initialized 0; ChannelOpen 0; MessageReceived 1500; IdleStateEvent READER_IDLE 1500 4100] /\
  true_log readerTwo (log w).
Proof.
  assert (seen quiet_run = Some (4100, true,
    [Initialized 0; ChannelOpen 0; MessageReceived 1500; IdleStateEvent READER_IDLE 1500 4100], false)) as H
    by (vm_compute; reflexivity).
  apply seen_play in H as (w & E & Hn & Ht & Hl & He).
  exists w. split; [exact (play_steps _ _ _ E)|]. split; [exact Hl|].
  apply (idle_events_true never never readerTwo readerTwo_small 0 false quiet_run w ltac:(lia) (play_steps _ _ _ E)). lia.
Defined.

Lemma idleness_reported_witness : exists w w' rest,
  steps never never (start (W := W) (construct Null readerTwo) 0 false) [Open; Tick 1500; Receive] w /\
  steps never never w [Tick 600; Complete 0 false; Written 7; Tick 3400; Complete 1 false] w' /\ now w' = 5500 /\
  log w' = log w ++ rest /\ reported READER_IDLE 1500 rest /\
  exists qs w1 rest1, steps never never w qs w1 /\ now w1 <= 1500 + 2000 * 2 /\
    log w1 = log w ++ IdleStateEvent READER_IDLE 1500 (now w1) :: rest1.
Proof.
  assert (seen [Open; Tick 1500; Receive] = Some (1500, true, [Initialized 0; ChannelOpen 0; MessageReceived 1500], false)) as H
    by (vm_compute; reflexivity).
  apply seen_play in H as (w & E & Hn & Ht & Hl & He).
  destruct (idleness_reported never never readerTwo readerTwo_small 0 false _ w READER_IDLE ltac:(lia) (play_steps _ _ _ E))
    as [Hall (qs & w1 & rest1 & R1 & _ & N1 & L1)]; [cbn; lia | exact Ht | reflexivity | reflexivity |].
  assert (match play [Tick 600; Complete 0 false; Written 7; Tick 3400; Complete 1 false] w with
    | Some w' => now w' = 5500 /\ map (fun tm => ready (now w') false (deadlineTimer tm)) (timeouts w') = [false; false; false]
    | None => False end) as H.
  { pose proof (eq_refl (play ([Open; Tick 1500; Receive] ++ [Tick 600; Complete 0 false; Written 7; Tick 3400; Complete 1 false])
      (start (W := W) (construct Null readerTwo) 0 false))) as H. rewrite play_app, E in H at 1. rewrite H. vm_compute. auto. }
  destruct (play _ w) as [w'|] eqn:E'; [|contradiction]. destruct H as [Hn' Hready].
  destruct (Hall _ w' (play_steps _ _ _ E')) as (rest & Lr & [Hr|(k & last & t & _ & Hc)]);
    [repeat constructor | cbn; lia | | | discriminate Hc].
  { intros o tm _ Ho. assert (In (ready (now w') false (deadlineTimer tm)) [false; false; false]) as Hin.
    { rewrite <- Hready. apply (in_map (fun tm => ready (now w') false (deadlineTimer tm))), list_elem_of_In.
      exact (list_elem_of_lookup_2 _ _ _ Ho). }
    destruct Hin as [Hin|[Hin|[Hin|[]]]]; symmetry; exact Hin. }
  exists w, w', rest. rewrite Hn in N1. rewrite Hl in Hr, L1 at 2.
  split; [exact (play_steps _ _ _ E)|]. split; [exact (play_steps _ _ _ E')|]. split; [exact Hn'|]. split; [exact Lr|].
  split; [exact Hr | exists qs, w1, rest1; split; [exact R1 | split; [exact N1 | exact L1]]].
Defined.

(** The channel is closed after the timeout has expired, and before its handler is
    called. *)
Lemma only_deleted_tasks_fail_witness : exists w,
  steps never never (start (W := W) (construct Null readerTwo) 0 false) [Open; Tick 2000; Close] w /\
  enabled (Complete 0 false) w = true /\
  exists w', exec never never (Complete 0 false) w = (Err Undefined, w') /\ fails never never (Complete 0 false) w.
Proof.
  assert (seen [Open; Tick 2000; Close] = Some (2000, false, [Initialized 0; ChannelOpen 0; ChannelClosed 2000], true)) as H
    by (vm_compute; reflexivity).
  assert (seen ([Open; Tick 2000; Close] ++ [Complete 0 false]) = None) as Hf by (vm_compute; reflexivity).
  apply seen_play in H as (w & E & Hn & Ht & Hl & He). pose proof (seen_more _ (Complete 0 false) w E He Hf) as Hno.
  exists w. split; [exact (play_steps _ _ _ E)|]. split; [exact He|].
  destruct (only_deleted_tasks_fail never never readerTwo readerTwo_small 0 false _ w (Complete 0 false) ltac:(lia) (play_steps _ _ _ E))
    as [[w' E']|(w' & E' & F)]; [lia | exact He | | exists w'; split; [exact E' | exact F]].
  rewrite E' in Hno. contradiction (Hno eq_refl).
Defined.

(** The constructors leave the pointers to the tasks as they find them: unless the
    memory was zero, destroying the handler has no meaning. *)
Example uninitialised_tasks :
  match play [Open] (start (construct Garbage readerTwo) 0 false) with
  | Some w => fst (exec never never Close w) = Err Undefined
  | None => False
  end.
Proof. vm_compute. reflexivity. Qed.

(** Less than a millisecond is rounded up for the reader and the writer, but turns
    the third kind off. *)
Example all_idle_rounded_down :
  map (idleTimeMillis (newUnit Null 1 500 999 TimeUnit.MICROSECONDS)) kinds = [1; 1; 0].
Proof. reflexivity. Qed.
End Witnesses.
