(* ===== verification/IoTimeouts.v ===== *)
(** * The read and write timeout handlers

    [src/src/cetty/handler/timeout/ReadTimeoutHandler.cpp] and
    [WriteTimeoutHandler.cpp], over the timers of [Timeouts].  A timeout keeps a
    reference to the context of its handler; contexts are numbered, and deleted when
    the handler is removed.  [readTimedOut] and [writeTimedOut] are those of these
    classes: they fire an exception and do not throw. *)

From S2P Require Import Prelude MachineInt Timeouts.
Import AsioDeadlineTimer.

(** The time in milliseconds that both constructors compute. *)
Definition millisOfSeconds (timeoutSeconds : Z) : Z :=
  if timeoutSeconds <=? 0 then 0 else TimeUnit.toMillis TimeUnit.SECONDS timeoutSeconds.
Definition millisOfUnit (timeout : Z) (unit : TimeUnit.t) : Z :=
  if timeout <=? 0 then 0
  else let timeoutMillis := TimeUnit.toMillis unit timeout in if timeoutMillis =? 0 then 1 else timeoutMillis.

(** ** ReadTimeoutHandler *)

Module ReadTimeoutHandler.

Record handler := MkHandler {
  timer : bool;
  timeout : option nat;
  timeoutMillis : Z;
  lastReadTime : Z;
}.

Definition newSeconds (timeoutSeconds : Z) : handler := MkHandler false None (millisOfSeconds timeoutSeconds) 0.
Definition newUnit (timeout : Z) (unit : TimeUnit.t) : handler := MkHandler false None (millisOfUnit timeout unit) 0.
Definition clone (h : handler) : handler := newUnit (timeoutMillis h) TimeUnit.MILLISECONDS.

(** What goes upstream, with the time; [Initialized] marks the calls of [initialize] that
    start a timeout, and [ReadTimeout] is the [EXCEPTION] of the handler. *)
Inductive event :=
  | Initialized (time : Z)
  | ChannelOpen (time : Z)
  | ChannelClosed (time : Z)
  | MessageReceived (time : Z)
  | ReadTimeout (time : Z).

(** The handler, its channel and timer, and the context while it is in a pipeline. *)
Record world (W : Type) := MkWorld {
  now : Z;
  isOpen : bool;
  contexts : nat;  (* the contexts made so far *)
  context : option nat;
  timeouts : list (AsioDeadlineTimer.timeout nat W);
  self : handler;
  log : list event;
}.
Arguments MkWorld {W} _ _ _ _ _ _ _.
Arguments now {W} _.
Arguments isOpen {W} _.
Arguments contexts {W} _.
Arguments context {W} _.
Arguments timeouts {W} _.
Arguments self {W} _.
Arguments log {W} _.

Section Ops.
Context {W : Type} {DT : DeadlineTimer W}.
Abbreviation HM := (M (world W)).

(** Whether the handlers above close the channel at a read timeout, by its time. *)
Context (closes : Z -> bool).

Definition with_now (n : Z) (w : world W) : world W := MkWorld n (isOpen w) (contexts w) (context w) (timeouts w) (self w) (log w).
Definition with_open (b : bool) (w : world W) : world W := MkWorld (now w) b (contexts w) (context w) (timeouts w) (self w) (log w).
Definition with_context (c : option nat) (w : world W) : world W := MkWorld (now w) (isOpen w) (contexts w) c (timeouts w) (self w) (log w).
Definition newContext (w : world W) : world W := MkWorld (now w) (isOpen w) (S (contexts w)) (Some (contexts w)) (timeouts w) (self w) (log w).
Definition with_timeouts l (w : world W) : world W := MkWorld (now w) (isOpen w) (contexts w) (context w) l (self w) (log w).
Definition with_self h (w : world W) : world W := MkWorld (now w) (isOpen w) (contexts w) (context w) (timeouts w) h (log w).
Definition send (e : Z -> event) : HM unit :=
  modify (fun w => MkWorld (now w) (isOpen w) (contexts w) (context w) (timeouts w) (self w) (log w ++ [e (now w)])).

Definition with_timer b h := MkHandler b (timeout h) (timeoutMillis h) (lastReadTime h).
Definition with_timeout o h := MkHandler (timer h) o (timeoutMillis h) (lastReadTime h).
Definition with_lastReadTime t h := MkHandler (timer h) (timeout h) (timeoutMillis h) t.
Definition assign (f : handler -> handler) : HM unit := modify (fun w => with_self (f (self w)) w).

(** [timeout = timer->newTimeout(boost::bind(..., boost::ref(ctx)), delay)]. *)
Definition schedule (ctx : nat) (delay : Z) : HM unit :=
  let! w := gets id in
  throw_if (negb (timer (self w))) Undefined ;!
  let '(o, l) := newTimeout (now w) ctx delay (timeouts w) in
  modify (with_timeouts l) ;!
  assign (with_timeout (Some o)).

Definition updateLastReadTime : HM unit :=
  let! time := gets now in
  assign (with_lastReadTime time).

Definition initialize (ctx : nat) : HM unit :=
  let! h := gets self in
  if timeoutMillis h =? 0 then ret tt
  else
    updateLastReadTime ;!
    assign (with_timer true) ;!
    schedule ctx (timeoutMillis h) ;!
    send Initialized.

Definition destroy : HM unit :=
  let! w := gets id in
  match timeout (self w) with
  | Some o =>
      modify (with_timeouts (alter (cancel (now w)) o (timeouts w))) ;!
      assign (with_timeout None)
  | None => ret tt
  end.

(** *** The events *)

Definition beforeAdd (isAttached : bool) (ctx : nat) : HM unit := if isAttached then initialize ctx else ret tt.
Definition beforeRemove : HM unit := destroy.
Definition channelOpen (ctx : nat) : HM unit := initialize ctx ;! send ChannelOpen.
Definition channelClosed : HM unit := destroy ;! send ChannelClosed.
Definition messageReceived : HM unit := updateLastReadTime ;! send MessageReceived.

(** [fireExceptionCaught(ctx, EXCEPTION)]; a channel that is closed comes back as
    [channelClosed]. *)
Definition readTimedOut : HM unit :=
  let! time := gets now in
  send ReadTimeout ;!
  if closes time then modify (with_open false) ;! channelClosed else ret tt.

(** A context that was deleted has no channel. *)
Definition handleReadTimeout (o : AsioDeadlineTimer.timeout nat W) (ctx : nat) : HM unit :=
  if isCancelled o then ret tt
  else
    let! w := gets id in
    if negb (bool_decide (context w = Some ctx)) then throw Undefined
    else if negb (isOpen w) then ret tt
    else
      let currentTime := now w in
      let duration := currentTime - lastReadTime (self w) in
      let nextDelay := i64 (timeoutMillis (self w) - Z.quot duration 1000) in
      if nextDelay <=? 0 then
        schedule ctx (timeoutMillis (self w)) ;!
        readTimedOut
      else schedule ctx nextDelay.

(** The handler of the wait of timeout [o]. *)
Definition timerFunctionHandler (o : nat) (aborted : bool) : HM unit :=
  let! w := gets id in
  match timeouts w !! o with
  | None => throw Undefined
  | Some t =>
      let t := timerHandler aborted t in
      modify (with_timeouts (<[o := t]> (timeouts w))) ;!
      if aborted then ret tt else handleReadTimeout t (task t)
  end.

(** *** What happens to a handler *)
Inductive op :=
  | Tick (microseconds : Z)
  | Add (isAttached : bool)
  | Remove
  | Open
  | Close
  | Receive
  | Complete (o : nat) (aborted : bool).

Definition exec (p : op) : HM unit :=
  match p with
  | Tick d => modify (fun w => with_now (now w + d) w)
  | Add isAttached => let! ctx := gets contexts in modify newContext ;! beforeAdd isAttached ctx
  | Remove => beforeRemove ;! modify (with_context None)
  | Open =>
      let! w := gets id in
      match context w with
      | Some ctx => modify (with_open true) ;! channelOpen ctx
      | None => modify (with_open true)
      end
  | Close =>
      let! w := gets id in
      match context w with
      | Some _ => modify (with_open false) ;! channelClosed
      | None => modify (with_open false)
      end
  | Receive => messageReceived
  | Complete o aborted => timerFunctionHandler o aborted
  end.

(** When it can happen: a handler is added to a pipeline when it is in none, to one that
    is not attached only while the channel is not open; a channel opens or closes; a
    handler in the pipeline of an open channel receives messages; the io service
    calls the handler of a wait that is ready. *)
Definition enabled (p : op) (w : world W) : bool :=
  match p with
  | Tick d => 0 <=? d
  | Add isAttached => negb (bool_decide (is_Some (context w))) && (isAttached || negb (isOpen w))
  | Remove => bool_decide (is_Some (context w))
  | Open => negb (isOpen w)
  | Close => isOpen w
  | Receive => bool_decide (is_Some (context w)) && isOpen w
  | Complete o aborted =>
      match timeouts w !! o with
      | Some t => ready (now w) aborted (deadlineTimer t)
      | None => false
      end
  end.

Inductive steps : world W -> list op -> world W -> Prop :=
  | steps_nil w : steps w [] w
  | steps_cons w p w' ps w'' : enabled p w = true -> exec p w = (Ok tt, w') -> steps w' ps w'' -> steps w (p :: ps) w''.

Definition start (h : handler) (time : Z) (open : bool) : world W := MkWorld time open 0 None [] h [].
End Ops.
End ReadTimeoutHandler.

(** ** WriteTimeoutHandler *)

Module WriteTimeoutHandler.

(** The writes that went through the handler: the future that the event has, with its
    result and the timeout that its listener cancels, and whether the event, which the
    timeout keeps a reference into, still exists. *)
Record write := MkWrite {
  hasFuture : bool;
  result : option bool;
  listener : option nat;
  eventExists : bool;
}.

Definition with_result r (x : write) : write := MkWrite (hasFuture x) r (listener x) (eventExists x).
Definition with_listener l (x : write) : write := MkWrite (hasFuture x) (result x) l (eventExists x).
Definition with_eventExists b (x : write) : write := MkWrite (hasFuture x) (result x) (listener x) b.

Inductive event :=
  | WriteRequested (n : nat) (time : Z)
  | WriteTimeout (n : nat) (time : Z).

Record world (W : Type) := MkWorld {
  now : Z;
  isOpen : bool;
  context : option nat;
  timer : bool;
  timeoutMillis : Z;
  timeouts : list (AsioDeadlineTimer.timeout (nat * nat) W);
  writes : list write;
  log : list event;
}.
Arguments MkWorld {W} _ _ _ _ _ _ _ _.
Arguments now {W} _.
Arguments isOpen {W} _.
Arguments context {W} _.
Arguments timer {W} _.
Arguments timeoutMillis {W} _.
Arguments timeouts {W} _.
Arguments writes {W} _.
Arguments log {W} _.

Section Ops.
Context {W : Type} {DT : DeadlineTimer W}.
Abbreviation HM := (M (world W)).

Definition with_now n (w : world W) : world W := MkWorld n (isOpen w) (context w) (timer w) (timeoutMillis w) (timeouts w) (writes w) (log w).
Definition with_open b (w : world W) : world W := MkWorld (now w) b (context w) (timer w) (timeoutMillis w) (timeouts w) (writes w) (log w).
Definition with_context c (w : world W) : world W := MkWorld (now w) (isOpen w) c (timer w) (timeoutMillis w) (timeouts w) (writes w) (log w).
Definition with_timer b (w : world W) : world W := MkWorld (now w) (isOpen w) (context w) b (timeoutMillis w) (timeouts w) (writes w) (log w).
Definition with_timeouts l (w : world W) : world W := MkWorld (now w) (isOpen w) (context w) (timer w) (timeoutMillis w) l (writes w) (log w).
Definition with_writes l (w : world W) : world W := MkWorld (now w) (isOpen w) (context w) (timer w) (timeoutMillis w) (timeouts w) l (log w).
Definition send (e : Z -> event) : HM unit :=
  modify (fun w => MkWorld (now w) (isOpen w) (context w) (timer w) (timeoutMillis w) (timeouts w) (writes w) (log w ++ [e (now w)])).

(** [cancelTimeout(future, timeout)]. *)
Definition cancelTimeout (o : nat) : HM unit :=
  let! w := gets id in
  modify (with_timeouts (alter (cancel (now w)) o (timeouts w))).

(** [setListener], and what completes a future: the listener is told once. *)
Definition setListener (n o : nat) : HM unit :=
  let! w := gets id in
  match writes w !! n with
  | None => throw Undefined
  | Some x =>
      match result x with
      | Some _ => cancelTimeout o
      | None => modify (with_writes (<[n := with_listener (Some o) x]> (writes w)))
      end
  end.
Definition complete (n : nat) (success : bool) : HM bool :=
  let! w := gets id in
  match writes w !! n with
  | None => throw Undefined
  | Some x =>
      match result x with
      | Some _ => ret false
      | None =>
          modify (with_writes (<[n := with_result (Some success) x]> (writes w))) ;!
          match listener x with Some o => cancelTimeout o | None => ret tt end ;!
          ret true
      end
  end.

(** [writeRequested], of the write [n]; [getTimeoutMillis] is the member. *)
Definition writeRequested (ctx n : nat) : HM unit :=
  let! w := gets id in
  (if timeoutMillis w >? 0 then
     modify (with_timer true) ;!
     match writes w !! n with
     | None => throw Undefined
     | Some x =>
         if hasFuture x then
           let '(o, l) := newTimeout (now w) (ctx, n) (timeoutMillis w) (timeouts w) in
           modify (with_timeouts l) ;!
           setListener n o
         else ret tt
     end
   else ret tt) ;!
  send (WriteRequested n).

Definition writeTimedOut (n : nat) : HM unit := send (WriteTimeout n).

(** The future is reached through the event. *)
Definition handleWriteTimeout (o : AsioDeadlineTimer.timeout (nat * nat) W) (ctx n : nat) : HM unit :=
  if isCancelled o then ret tt
  else
    let! w := gets id in
    if negb (bool_decide (context w = Some ctx)) then throw Undefined
    else if negb (isOpen w) then ret tt
    else match writes w !! n with
      | Some x =>
          if eventExists x then
            let! failed := complete n false in
            if failed : bool then writeTimedOut n else ret tt
          else throw Undefined
      | None => throw Undefined
      end.

Definition timerFunctionHandler (o : nat) (aborted : bool) : HM unit :=
  let! w := gets id in
  match timeouts w !! o with
  | None => throw Undefined
  | Some t =>
      let t := timerHandler aborted t in
      modify (with_timeouts (<[o := t]> (timeouts w))) ;!
      if aborted then ret tt else handleWriteTimeout t (fst (task t)) (snd (task t))
  end.

(** What happens: a write with or without a future; its event is gone when the call
    returns to whoever made it; the transport completes a future. *)
Inductive op :=
  | Tick (microseconds : Z)
  | Write (withFuture : bool)
  | Return (n : nat)
  | Finish (n : nat) (success : bool)
  | Close
  | Complete (o : nat) (aborted : bool).

Definition exec (p : op) : HM unit :=
  match p with
  | Tick d => modify (fun w => with_now (now w + d) w)
  | Write withFuture =>
      let! w := gets id in
      match context w with
      | None => throw Undefined
      | Some ctx =>
          modify (with_writes (writes w ++ [MkWrite withFuture None None true])) ;!
          writeRequested ctx (List.length (writes w))
      end
  | Return n => modify (fun w => with_writes (alter (with_eventExists false) n (writes w)) w)
  | Finish n success => complete n success ;! ret tt
  | Close => modify (with_open false)
  | Complete o aborted => timerFunctionHandler o aborted
  end.

Definition enabled (p : op) (w : world W) : bool :=
  match p with
  | Tick d => 0 <=? d
  | Write _ => bool_decide (is_Some (context w))
  | Return n | Finish n _ => bool_decide (is_Some (writes w !! n))
  | Close => isOpen w
  | Complete o aborted =>
      match timeouts w !! o with
      | Some t => ready (now w) aborted (deadlineTimer t)
      | None => false
      end
  end.

Inductive steps : world W -> list op -> world W -> Prop :=
  | steps_nil w : steps w [] w
  | steps_cons w p w' ps w'' : enabled p w = true -> exec p w = (Ok tt, w') -> steps w' ps w'' -> steps w (p :: ps) w''.

(** A new handler in the pipeline of an open channel. *)
Definition start (timeoutMillis time : Z) : world W := MkWorld time true (Some 0%nat) false timeoutMillis [] [] [].
End Ops.
End WriteTimeoutHandler.
