(* ===== verification/IoTimeoutsProperties.v ===== *)
(** * What the read timeout handler reports

    Each read timeout is true, silence is reported, and the one step of a handler
    that has no meaning; then the timeouts of writes. *)

From S2P Require Import Prelude MachineInt Timeouts IoTimeouts TimeoutsProperties.
Import AsioDeadlineTimer.

Module ReadTimeouts.
Import ReadTimeoutHandler.

(** The time of the last read, or of the start of the handler. *)
Definition lastRead (l : list event) : Z :=
  fold_left (fun t e => match e with Initialized t | MessageReceived t => t | _ => t end) l 0.

(** A read timeout comes at least [millis] milliseconds after the last read. *)
Definition true_event (millis : Z) (before : list event) (e : event) : Prop :=
  match e with ReadTimeout time => 0 < millis /\ 1000 * millis <= time - lastRead before | _ => True end.
Definition true_log (millis : Z) : list event -> Prop := each_true (true_event millis).

Lemma read_lastRead_app l e : lastRead (l ++ [e]) = match e with Initialized t | MessageReceived t => t | _ => lastRead l end.
Proof. unfold lastRead. rewrite fold_left_app. destruct e; reflexivity. Qed.

Ltac fields := cbn [with_timeouts with_self with_timeout with_open with_lastReadTime with_timer with_now with_context newContext
  now isOpen contexts context timeouts self log timer timeout timeoutMillis lastReadTime] in *.

Section Handler.
Context {W : Type} {DT : DeadlineTimer W} {DS : DeadlineTimerSpec W}.
Context (closes : Z -> bool) (millis : Z) (range : 0 <= millis <= 2 ^ 62).
Abbreviation world := (world W).
Implicit Types (w : world) (o c : nat).

(** The timeout [o] of context [c] waits, and expires at time [t]. *)
Definition watching o c t w : Prop := exists tm, timeouts w !! o = Some tm /\ task tm = c /\
  waiting (deadlineTimer tm) = true /\ cancelled (deadlineTimer tm) = false /\ expiry (deadlineTimer tm) = t.

(** The timeout of the handler waits while its channel is open; the log is true. *)
Record inv w : Prop := MkInv {
  i_millis : timeoutMillis (self w) = millis;
  i_read : lastReadTime (self w) = lastRead (log w);
  i_range : 0 <= lastReadTime (self w) <= now w;
  i_log : true_log millis (log w);
  i_timer : timeouts w <> [] -> timer (self w) = true /\ 0 < millis;
  i_set : timeout (self w) <> None -> 0 < millis;
  i_kept o : timeout (self w) = Some o -> exists c, context w = Some c /\
    (isOpen w = true -> exists t, watching o c t w /\ t <= now w + 1000 * millis);
}.

Definition logged w e : world :=
  MkWorld (now w) (isOpen w) (contexts w) (context w) (timeouts w) (self w) (log w ++ [e]).
Lemma read_send_eq f w : send f w = (Ok tt, logged w (f (now w))).
Proof. reflexivity. Qed.

Lemma read_inv_logged w e : inv w -> true_event millis (log w) e -> lastRead (log w ++ [e]) = lastRead (log w) -> inv (logged w e).
Proof. intros [] He Hl. unfold logged. split; fields; rewrite ?Hl; auto. apply each_true_snoc; assumption. Qed.

(** A new timeout. *)
Definition scheduled c delay w : world :=
  with_self (with_timeout (Some (List.length (timeouts w))) (self w))
    (with_timeouts (timeouts w ++ [MkTimeout TIMER_ACTIVE c (async_wait (now w) delay)]) w).

Lemma schedule_eq c delay w : timer (self w) = true -> schedule c delay w = (Ok tt, scheduled c delay w).
Proof. intros Ht. unfold schedule. rewrite bind_gets. unfold id. rewrite bind_throw_if, Ht. reflexivity. Qed.

Lemma scheduled_watching c delay w : watching (List.length (timeouts w)) c (now w + 1000 * delay) (scheduled c delay w).
Proof.
  destruct (async_wait_law (now w) delay) as (He & Hw & Hc).
  exists (MkTimeout TIMER_ACTIVE c (async_wait (now w) delay)). split; [apply list_lookup_middle; reflexivity | auto].
Qed.

Lemma scheduled_inv c delay w : inv w -> context w = Some c -> timer (self w) = true -> 0 < delay <= millis -> inv (scheduled c delay w).
Proof.
  intros Hi Hc Ht Hd. assert (0 < millis) as Hm by lia. pose proof Hi as []. unfold scheduled. split; fields; auto.
  intros o E. injection E as <-. exists c. split; [exact Hc|]. intros _. eexists. split; [apply (scheduled_watching c delay w) | lia].
Qed.

(** The handler without its timeout. *)
Definition forget w : world := with_self (with_timeout None (self w)) w.

Lemma read_initialize_inv c w : inv (forget w) -> (millis = 0 -> timeout (self w) = None) -> context w = Some c ->
  exists w', initialize c w = (Ok tt, w') /\ inv w'.
Proof.
  intros Hi Hz Hc. pose proof Hi as []. unfold forget in *. fields.
  unfold initialize. rewrite bind_gets, i_millis0. destruct (Z.eqb_spec millis 0) as [E|E].
  { exists w. split; [reflexivity|]. split; auto. rewrite (Hz E). discriminate. }
  unfold updateLastReadTime, assign. rewrite bind_assoc, bind_gets, !bind_modify. set (w0 := with_self _ _).
  assert (0 < millis) as Hm by lia. rewrite (bind_ok _ _ _ _ _ (schedule_eq c millis w0 eq_refl)), read_send_eq.
  eexists. split; [reflexivity|]. unfold logged, scheduled, w0. split; fields; auto; try lia.
  - rewrite read_lastRead_app. reflexivity.
  - apply each_true_snoc; [assumption | exact I].
  - intros o E'. injection E' as <-. exists c. split; [exact Hc|]. intros _. eexists. split; [exact (scheduled_watching c millis w0) | exact (Z.le_refl _)].
Qed.

Lemma read_destroy_inv w : inv w -> exists w', destroy w = (Ok tt, w') /\ inv w' /\ timeout (self w') = None /\
  now w' = now w /\ log w' = log w /\ isOpen w' = isOpen w /\ context w' = context w.
Proof.
  intros Hi. unfold destroy. rewrite bind_gets. unfold id. destruct (timeout (self w)) as [o|] eqn:Eo; [|exists w; auto 8].
  unfold assign. rewrite bind_modify. eexists. split; [reflexivity|]. split; [|auto 8].
  pose proof Hi as []. split; fields; auto; [|discriminate..]. intros Hn. apply i_timer0. intros E. apply Hn. rewrite E. reflexivity.
Qed.

Lemma closed_inv w : inv w -> exists w', (modify (with_open false) ;! channelClosed) w = (Ok tt, w') /\ inv w' /\
  timeout (self w') = None /\ now w' = now w /\ log w' = log w ++ [ChannelClosed (now w)].
Proof.
  intros Hi. rewrite bind_modify. unfold channelClosed. assert (inv (with_open false w)) as H0.
  { pose proof Hi as []. split; fields; auto. intros o Ho. destruct (i_kept0 o Ho) as (c & Hc & _). exists c. split; [exact Hc | discriminate]. }
  destruct (read_destroy_inv _ H0) as (w1 & E & H1 & Ht & Hn & Hl & _). rewrite (bind_ok _ _ _ _ _ E), read_send_eq.
  eexists. split; [reflexivity|]. split; [apply read_inv_logged; [exact H1 | exact I | apply read_lastRead_app]|].
  split; [exact Ht|]. cbn in *. rewrite Hn, Hl. auto.
Qed.

(** ** The call of a timeout *)

Definition called o tm aborted w : world := with_timeouts (<[o := timerHandler aborted tm]> (timeouts w)) w.

Lemma called_watching o tm aborted w o' c t : timeouts w !! o = Some tm -> o' <> o ->
  watching o' c t w -> watching o' c t (called o tm aborted w).
Proof.
  intros Hl Ho (tm' & H1 & H2). exists tm'. split; [|exact H2]. cbn. rewrite list_lookup_insert_ne by congruence. exact H1.
Qed.

(** All but the kept timeout of the handler. *)
Lemma called_base o tm aborted w : inv w -> timeouts w !! o = Some tm -> (isOpen w = true -> timeout (self w) <> Some o) ->
  inv (called o tm aborted w).
Proof.
  intros Hi Hl Hk. pose proof Hi as []. unfold called. split; fields; auto.
  - intros _. apply i_timer0. intros E. rewrite E in Hl. discriminate.
  - intros o' Ho'. destruct (i_kept0 o' Ho') as (c & Hc & Hw). exists c. split; [exact Hc|]. intros Ho.
    destruct (Hw Ho) as (t & Ht & Hle). exists t. split; [|exact Hle]. apply called_watching; [exact Hl | | exact Ht]. intros ->. exact (Hk Ho Ho').
Qed.

Definition idle w : Prop := 1000 * millis <= now w - lastRead (log w).

Lemma read_nextDelay_eq w : inv w -> now w < 2 ^ 62 -> 0 < millis ->
  i64 (timeoutMillis (self w) - Z.quot (now w - lastReadTime (self w)) 1000) = millis - (now w - lastRead (log w)) / 1000 /\
  (idle w -> millis - (now w - lastRead (log w)) / 1000 <= 0) /\
  (~ idle w -> 0 < millis - (now w - lastRead (log w)) / 1000 <= millis /\
    lastRead (log w) + 1000 * millis <= now w + 1000 * (millis - (now w - lastRead (log w)) / 1000)).
Proof.
  intros Hi Hn Hm. pose proof (i_range _ Hi) as Hr. rewrite (i_millis _ Hi). rewrite (i_read _ Hi) in *. unfold idle.
  rewrite Z.quot_div_nonneg by lia. generalize dependent (lastRead (log w)). intros last Hr.
  split; [apply i64_id; unfold is_signed; cbn; dlia|]. split; intros; dlia.
Qed.

(** A handler that runs: the timeout of its context is called while its channel is open. *)
Lemma read_handled_inv o tm c w : inv w -> now w < 2 ^ 62 -> timeouts w !! o = Some tm -> task tm = c -> context w = Some c -> isOpen w = true ->
  exists w', timerFunctionHandler closes o false w = (Ok tt, w') /\ inv w' /\ now w' = now w /\
    (idle w -> exists rest, log w' = log w ++ ReadTimeout (now w) :: rest) /\
    (~ idle w -> log w' = log w /\ context w' = Some c /\ isOpen w' = true /\
       exists o' t, timeout (self w') = Some o' /\ watching o' c t w' /\ lastRead (log w) + 1000 * millis <= t).
Proof.
  intros Hi Hn Hl Ht Hc Ho. unfold timerFunctionHandler. rewrite bind_gets. unfold id. rewrite Hl, bind_modify.
  fold (called o tm false w). set (w1 := called o tm false w). unfold handleReadTimeout, isCancelled. cbn [state timerHandler].
  rewrite bool_decide_eq_false_2 by discriminate. rewrite bind_gets. unfold id. cbn [task timerHandler].
  change (context w1) with (context w). rewrite Ht, bool_decide_eq_true_2 by exact Hc. change (isOpen w1) with (isOpen w). rewrite Ho. cbn [negb].
  destruct (i_timer _ Hi) as [Htm Hm]; [intros E; rewrite E in Hl; discriminate|].
  destruct (read_nextDelay_eq w Hi Hn Hm) as (Hd & Hidle & Hbusy). change (now w1) with (now w). change (self w1) with (self w). rewrite Hd.
  assert (forall delay, 0 < delay <= millis -> inv (scheduled c delay w1)) as Hs.
  { intros delay Hdl. pose proof Hi as []. unfold scheduled, w1, called. split; fields; auto.
    intros o' E. injection E as <-. exists c. split; [exact Hc|]. intros _. eexists. split; [apply (scheduled_watching c delay w1) | change (now w1) with (now w); lia]. }
  destruct (Z.leb_spec (millis - (now w - lastRead (log w)) / 1000) 0) as [Hle|Hgt].
  - assert (idle w) as Hid by (unfold idle in *; dlia).
    rewrite (i_millis _ Hi), (bind_ok _ _ _ _ _ (schedule_eq c millis w1 Htm)).
    unfold readTimedOut. rewrite bind_gets, (bind_ok _ _ _ _ _ (read_send_eq _ _)).
    assert (inv (logged (scheduled c millis w1) (ReadTimeout (now w)))) as H2.
    { apply read_inv_logged; [apply Hs; lia | split; [exact Hm | exact Hid] | apply read_lastRead_app]. }
    change (now (scheduled c millis w1)) with (now w). destruct (closes (now w)).
    + destruct (closed_inv _ H2) as (w' & E & Hi' & _ & Hn' & Hl'). exists w'. split; [exact E|]. split; [exact Hi'|]. split; [exact Hn'|].
      split; [|contradiction]. intros _. exists [ChannelClosed (now w)]. rewrite Hl'. cbn. rewrite <- app_assoc. reflexivity.
    + eexists. split; [reflexivity|]. split; [exact H2|]. split; [reflexivity|]. split; [|contradiction]. intros _. exists []. reflexivity.
  - assert (~ idle w) as Hid by (intros Hid; specialize (Hidle Hid); lia). destruct (Hbusy Hid) as [Hd1 Hd2].
    exists (scheduled c (millis - (now w - lastRead (log w)) / 1000) w1). split; [apply schedule_eq, Htm|]. split; [apply Hs, Hd1|].
    split; [reflexivity|]. split; [contradiction|]. intros _. split; [reflexivity|]. split; [exact Hc|]. split; [exact Ho|].
    eexists _, _. split; [reflexivity|]. split; [apply scheduled_watching | exact Hd2].
Qed.
(** ** All steps *)

(** The call of a timeout whose context is gone. *)
Definition stale (p : op) w : Prop := exists o tm, p = Complete o false /\ timeouts w !! o = Some tm /\ context w <> Some (task tm).

Abbreviation execute := (exec closes).
Abbreviation run_of := (steps closes).
Definition goes (p : op) w : Prop := exists w', execute p w = (Ok tt, w') /\ inv w'.

Lemma kept_context w : inv w -> context w = None -> timeout (self w) = None.
Proof. intros Hi Hc. destruct (timeout (self w)) as [o|] eqn:E; [|reflexivity]. destruct (i_kept _ Hi o E) as (c & Hc' & _). congruence. Qed.

Lemma inv_forget w b (ctx : option nat) n : inv w -> inv (forget (MkWorld (now w) b n ctx (timeouts w) (self w) (log w))).
Proof. intros []. unfold forget. split; fields; auto; intros; congruence. Qed.

Lemma kept_none w : inv w -> millis = 0 -> timeout (self w) = None.
Proof. intros Hi Hz. destruct (timeout (self w)) as [o|] eqn:E; [|reflexivity]. assert (0 < millis) by (apply (i_set _ Hi); congruence). lia. Qed.

(** A step that changes the channel or the context only, while no timeout is kept. *)
Lemma inv_moved w n b ctx k : inv w -> timeout (self w) = None -> now w <= n ->
  inv (MkWorld n b k ctx (timeouts w) (self w) (log w)).
Proof. intros [] Ht Hn. split; fields; auto; try lia. intros o E. congruence. Qed.

Lemma tick_inv w d : inv w -> 0 <= d -> inv (with_now (now w + d) w).
Proof.
  intros [] Hd. split; fields; auto; try lia. intros o Ho. destruct (i_kept0 o Ho) as (c & Hc & Hw). exists c. split; [exact Hc|].
  intros Hopen. destruct (Hw Hopen) as (t & Ht & Hle). exists t. split; [exact Ht | lia].
Qed.

Lemma add_inv a w : inv w -> context w = None -> goes (Add a) w.
Proof.
  intros Hi Hc. pose proof (kept_context w Hi Hc) as Ht. unfold goes. cbn [exec]. rewrite bind_gets, bind_modify. destruct a.
  - destruct (read_initialize_inv (contexts w) (newContext w)) as (w' & E & Hi'); [apply inv_forget, Hi | intros _; exact Ht | reflexivity|]. eauto.
  - eexists. split; [reflexivity|]. apply (inv_moved w); [exact Hi | exact Ht | lia].
Qed.

Lemma remove_inv w : inv w -> goes Remove w.
Proof.
  intros Hi. unfold goes. cbn [exec]. destruct (read_destroy_inv w Hi) as (w' & E & Hi' & Ht & _). unfold beforeRemove. rewrite (bind_ok _ _ _ _ _ E).
  eexists. split; [reflexivity|]. apply (inv_moved w'); [exact Hi' | exact Ht | lia].
Qed.

Lemma open_inv w : inv w -> goes Open w.
Proof.
  intros Hi. unfold goes. cbn [exec]. rewrite bind_gets. unfold id. destruct (context w) as [c|] eqn:Hc.
  - rewrite bind_modify. unfold channelOpen.
    destruct (read_initialize_inv c (with_open true w)) as (w' & E & Hi'); [apply inv_forget, Hi | apply (kept_none w Hi) | exact Hc|].
    rewrite (bind_ok _ _ _ _ _ E), read_send_eq. eexists. split; [reflexivity|]. apply read_inv_logged; [exact Hi' | exact I | apply read_lastRead_app].
  - eexists. split; [reflexivity|]. apply (inv_moved w); [exact Hi | apply (kept_context w Hi Hc) | lia].
Qed.

Lemma read_close_inv w : inv w -> goes Close w.
Proof.
  intros Hi. unfold goes. cbn [exec]. rewrite bind_gets. unfold id. destruct (context w) as [c|] eqn:Hc.
  - destruct (closed_inv w Hi) as (w' & E & Hi' & _). eauto.
  - eexists. split; [reflexivity|]. apply (inv_moved w); [exact Hi | apply (kept_context w Hi Hc) | lia].
Qed.

Lemma receive_inv w : inv w -> goes Receive w.
Proof.
  intros Hi. unfold goes. cbn [exec]. unfold messageReceived, updateLastReadTime, assign. rewrite bind_assoc, bind_gets, bind_modify, read_send_eq.
  eexists. split; [reflexivity|]. pose proof Hi as []. unfold logged. split; fields; auto; try lia.
  - rewrite read_lastRead_app. reflexivity.
  - apply each_true_snoc; [assumption | exact I].
Qed.

Lemma read_complete_inv o aborted w : inv w -> enabled (Complete o aborted) w = true -> now w < 2 ^ 62 ->
  goes (Complete o aborted) w \/ exists w', execute (Complete o aborted) w = (Err Undefined, w') /\ stale (Complete o aborted) w.
Proof.
  intros Hi He Hn. cbn [enabled] in He. destruct (timeouts w !! o) as [tm|] eqn:Hl; [|discriminate].
  destruct aborted; [left | destruct (decide (context w = Some (task tm))) as [Hc|Hc]].
  - exists (called o tm true w). split; [cbn [exec]; unfold timerFunctionHandler; rewrite bind_gets; unfold id; rewrite Hl; reflexivity|].
    apply called_base; [exact Hi | exact Hl|]. intros Ho Hk. destruct (i_kept _ Hi o Hk) as (c & _ & Hw).
    destruct (Hw Ho) as (t & (tm' & Hl' & _ & _ & Hnc & _) & _). rewrite Hl in Hl'. injection Hl' as <-.
    apply ready_aborted in He. congruence.
  - left. destruct (isOpen w) eqn:Ho.
    + destruct (read_handled_inv o tm _ w Hi Hn Hl eq_refl Hc Ho) as (w' & E & Hi' & _). exists w'. auto.
    + exists (called o tm false w). split; [|apply called_base; [exact Hi | exact Hl | congruence]].
      cbn [exec]. unfold timerFunctionHandler. rewrite bind_gets. unfold id. rewrite Hl, bind_modify. unfold handleReadTimeout, isCancelled.
      cbn [state timerHandler]. rewrite bool_decide_eq_false_2 by discriminate. rewrite bind_gets. unfold id.
      cbn [task timerHandler with_timeouts context isOpen]. rewrite bool_decide_eq_true_2, Ho by exact Hc. reflexivity.
  - right. exists (called o tm false w). split; [|exists o, tm; auto].
    cbn [exec]. unfold timerFunctionHandler. rewrite bind_gets. unfold id. rewrite Hl, bind_modify. unfold handleReadTimeout, isCancelled.
    cbn [state timerHandler]. rewrite bool_decide_eq_false_2 by discriminate. rewrite bind_gets. unfold id.
    cbn [task timerHandler with_timeouts context]. rewrite bool_decide_eq_false_2 by exact Hc. reflexivity.
Qed.

Lemma read_exec_inv p w : inv w -> enabled p w = true -> now w < 2 ^ 62 ->
  goes p w \/ exists w', execute p w = (Err Undefined, w') /\ stale p w.
Proof.
  intros Hi He Hn. destruct p as [d|a| | | | |o ab]; [left..|apply read_complete_inv; assumption].
  - cbn in He. zbool. eexists. split; [reflexivity | apply tick_inv; assumption].
  - apply add_inv; [exact Hi|]. cbn in He. apply andb_true_iff in He as [He _]. apply negb_true_iff, bool_decide_eq_false in He.
    apply eq_None_not_Some, He.
  - apply remove_inv, Hi.
  - apply open_inv, Hi.
  - apply read_close_inv, Hi.
  - apply receive_inv, Hi.
Qed.

(** Time does not go back. *)
Lemma read_now_kept {A} (m : M world A) : (forall t, preserves (fun w => now w = t) m) -> forall w, now (snd (m w)) = now w.
Proof. intros H w. exact (H (now w) w eq_refl). Qed.

Ltac keep_now := repeat first
  [ progress intros
  | apply preserves_bind | apply preserves_ret | apply preserves_throw | apply preserves_gets | apply preserves_throw_if
  | apply preserves_modify; intros ? <-; reflexivity
  | progress unfold exec, beforeAdd, beforeRemove, channelOpen, channelClosed, messageReceived, updateLastReadTime,
      initialize, destroy, schedule, assign, send, timerFunctionHandler, handleReadTimeout, readTimedOut
  | match goal with |- preserves _ (match ?x with _ => _ end) => destruct x end
  | match goal with |- preserves _ (let '(_, _) := ?x in _) => destruct x end ].

Lemma read_exec_now p w : enabled p w = true -> now w <= now (snd (execute p w)).
Proof.
  intros He. destruct p as [d|a| | | | |o aborted].
  { cbn in *. apply Z.leb_le in He. lia. }
  all: apply Z.eq_le_incl; symmetry; clear He; revert w; apply read_now_kept; keep_now.
Qed.

Lemma read_steps_now w ps w' : run_of w ps w' -> now w <= now w'.
Proof.
  induction 1 as [w|w p w1 ps w2 He E _ IH]; [lia|]. pose proof (read_exec_now p w He) as H. rewrite E in H. cbn [snd] in H. lia.
Qed.

Lemma read_steps_inv w ps w' : run_of w ps w' -> inv w -> now w' < 2 ^ 62 -> inv w'.
Proof.
  induction 1 as [w|w p w1 ps w2 He E Hs IH]; intros Hi Hn; [exact Hi|]. apply IH; [|exact Hn].
  pose proof (read_exec_now p w He) as H1. rewrite E in H1. cbn [snd] in H1. pose proof (read_steps_now _ _ _ Hs).
  destruct (read_exec_inv p w Hi He) as [(w' & E' & Hi')|(w' & E' & _)]; [lia | | rewrite E in E'; discriminate].
  rewrite E in E'. injection E' as <-. exact Hi'.
Qed.

Lemma read_start_inv time open : 0 <= time -> inv (start (W := W) (MkHandler false None millis 0) time open).
Proof.
  intros Ht. split; cbn; try reflexivity; try lia; try discriminate.
  - apply each_true_nil.
  - intros E. exfalso. apply E. reflexivity.
  - intros E. exfalso. apply E. reflexivity.
Qed.

(** Whatever happens to a handler, a read timeout comes only when nothing was read for the
    time of the handler, since it started or the last message. *)
Theorem read_timeouts_true (time : Z) (open : bool) (ps : list op) w :
  0 <= time -> run_of (start (MkHandler false None millis 0) time open) ps w -> now w < 2 ^ 62 -> true_log millis (log w).
Proof. intros Ht Hs Hn. exact (i_log _ (read_steps_inv _ _ _ Hs (read_start_inv time open Ht) Hn)). Qed.

(** The timeout that watches is waited for, and called. *)
Lemma read_wait_and_call o c t w : inv w -> timeout (self w) = Some o -> context w = Some c -> isOpen w = true -> watching o c t w ->
  Z.max t (now w) < 2 ^ 62 -> exists qs w', run_of w qs w' /\
    List.Forall (fun p => match p with Tick _ | Complete _ _ => True | _ => False end) qs /\ now w' = Z.max t (now w) /\ inv w' /\
    (1000 * millis <= now w' - lastRead (log w) -> exists rest, log w' = log w ++ ReadTimeout (now w') :: rest) /\
    (now w' - lastRead (log w) < 1000 * millis -> log w' = log w /\ context w' = Some c /\ isOpen w' = true /\
       exists o' t', timeout (self w') = Some o' /\ watching o' c t' w' /\ lastRead (log w) + 1000 * millis <= t').
Proof.
  intros Hi Hk Hc Ho (tm & Hl & Ht & Hw & Hnc & He) Hn. set (d := Z.max 0 (t - now w)). set (w1 := with_now (now w + d) w).
  assert (inv w1) as Hi1 by (apply tick_inv; [exact Hi | lia]). assert (now w1 = Z.max t (now w)) as Hnow by (unfold w1; cbn; lia).
  assert (ready (now w1) false (deadlineTimer tm) = true) as Hr by (apply ready_due; [exact Hw | exact Hnc | lia]).
  destruct (read_handled_inv o tm c w1 Hi1 ltac:(lia) Hl Ht Hc Ho) as (w' & E & Hi' & Hn' & Hidle & Hbusy).
  exists [Tick d; Complete o false], w'. split; [|split; [repeat constructor|]].
  { apply (steps_cons _ _ _ w1); [apply Z.leb_le; lia | reflexivity|].
    apply (steps_cons _ _ _ w'); [cbn [enabled]; change (timeouts w1) with (timeouts w); rewrite Hl; exact Hr | exact E | apply steps_nil]. }
  split; [congruence|]. split; [exact Hi'|]. rewrite Hn'. unfold idle in *. change (log w1) with (log w) in *.
  split; [exact Hidle | intros Hd; apply Hbusy; lia].
Qed.

Lemma read_steps_app w ps w1 qs w2 : run_of w ps w1 -> run_of w1 qs w2 -> run_of w (ps ++ qs) w2.
Proof. induction 1; intros H2; [exact H2 | econstructor; eauto]. Qed.

(** Silence is noticed: when a handler runs on an open channel and nothing is read any
    more, then waiting at most twice its time for the timer leads to a read timeout. *)
Theorem silence_reported (time : Z) (open : bool) (ps : list op) w :
  0 <= time -> run_of (start (MkHandler false None millis 0) time open) ps w -> now w + 2000 * millis < 2 ^ 62 ->
  timeout (self w) <> None -> isOpen w = true ->
  exists qs w' rest, run_of w qs w' /\
    List.Forall (fun p => match p with Tick _ | Complete _ _ => True | _ => False end) qs /\
    now w' <= now w + 2000 * millis /\ log w' = log w ++ ReadTimeout (now w') :: rest.
Proof.
  intros H0 Hs Hn Hk Ho. pose proof (read_steps_inv _ _ _ Hs (read_start_inv time open H0) ltac:(lia)) as Hi.
  pose proof (i_set _ Hi Hk) as Hm. destruct (timeout (self w)) as [o|] eqn:Eo; [|contradiction].
  destruct (i_kept _ Hi o Eo) as (c & Hc & Hw). destruct (Hw Ho) as (t & Ht & Hle). pose proof (i_range _ Hi) as Hr. rewrite (i_read _ Hi) in Hr.
  destruct (read_wait_and_call o c t w Hi Eo Hc Ho Ht ltac:(lia)) as (qs & w1 & R1 & F1 & N1 & I1 & Hd1 & Hb1).
  destruct (Z.le_gt_cases (1000 * millis) (now w1 - lastRead (log w))) as [Hd|Hd].
  - destruct (Hd1 Hd) as (rest & L1). exists qs, w1, rest. repeat split; auto. lia.
  - destruct (Hb1 Hd) as (L1 & Hc1 & Ho1 & o' & t' & Hk' & Hw' & Hlate). destruct (i_kept _ I1 o' Hk') as (c' & Hc' & Hw1).
    destruct (Hw1 Ho1) as (t2 & (tm & E & _ & _ & _ & Ht2) & Hle2). destruct Hw' as (tm' & E' & Hrest). rewrite E in E'. injection E' as <-.
    assert (t2 = t') as -> by (destruct Hrest as (_ & _ & _ & He); congruence).
    destruct (read_wait_and_call o' c t' w1 I1 Hk' Hc1 Ho1 (ex_intro _ tm (conj E Hrest)) ltac:(lia)) as (qs2 & w2 & R2 & F2 & N2 & I2 & Hd2 & _).
    rewrite L1 in Hd2. destruct Hd2 as (rest & L2); [lia|].
    exists (qs ++ qs2), w2, rest. split; [exact (read_steps_app _ _ _ _ _ R1 R2)|].
    split; [apply List.Forall_app; auto|]. split; [lia | exact L2].
Qed.

(** The only step without a meaning is the call of a timeout whose handler was removed
    after it had expired, or that a second start of the handler left behind. *)
Theorem only_stale_timeouts_fail (time : Z) (open : bool) (ps : list op) w p :
  0 <= time -> run_of (start (MkHandler false None millis 0) time open) ps w -> now w < 2 ^ 62 -> enabled p w = true ->
  (exists w', execute p w = (Ok tt, w')) \/ (exists w', execute p w = (Err Undefined, w') /\ stale p w).
Proof.
  intros H0 Hs Hn He. pose proof (read_steps_inv _ _ _ Hs (read_start_inv time open H0) Hn) as Hi.
  destruct (read_exec_inv p w Hi He Hn) as [(w' & E & _)|Hf]; [left; exists w'; exact E | right; exact Hf].
Qed.
End Handler.
End ReadTimeouts.

(** ** Writes *)

Module WriteTimeouts.
Import WriteTimeoutHandler.

(** A write timeout follows the write by the time of the handler, and is the first of
    its write. *)
Definition true_event (millis : Z) (before : list event) (e : event) : Prop :=
  match e with
  | WriteTimeout n time =>
      (exists t0, In (WriteRequested n t0) before /\ 0 < millis /\ 1000 * millis <= time - t0) /\
      forall t, ~ In (WriteTimeout n t) before
  | _ => True
  end.
Definition true_log (millis : Z) : list event -> Prop := each_true (true_event millis).

Ltac fields := cbn [with_now with_open with_context with_timer with_timeouts with_writes
  now isOpen context timer timeoutMillis timeouts writes log] in *.

Section Handler.
Context {W : Type} {DT : DeadlineTimer W} {DS : DeadlineTimerSpec W}.
Context (millis : Z).
Abbreviation world := (world W).
Implicit Types (w : world) (o n : nat) (l : list event).

(** The timeouts expire when they should, and a write that timed out has failed; [pending]
    are the events that are about to be sent. *)
Record inv (pending : list event) w : Prop := MkInv {
  i_millis : timeoutMillis w = millis;
  i_log : true_log millis (log w);
  i_timeouts o tm : timeouts w !! o = Some tm -> exists t0,
    In (WriteRequested (snd (task tm)) t0) (log w ++ pending) /\ 0 < millis /\ t0 + 1000 * millis <= expiry (deadlineTimer tm) \/
    waiting (deadlineTimer tm) = false;
  i_failed n t : In (WriteTimeout n t) (log w) -> exists x, writes w !! n = Some x /\ result x = Some false;
}.

(** Steps that leave the log and what the writes came to. *)
Lemma inv_kept l w w' : inv l w -> timeoutMillis w' = timeoutMillis w -> log w' = log w ->
  (forall o tm, timeouts w' !! o = Some tm -> exists tm0, timeouts w !! o = Some tm0 /\ task tm = task tm0 /\
     (waiting (deadlineTimer tm) = false \/ expiry (deadlineTimer tm) = expiry (deadlineTimer tm0) /\ waiting (deadlineTimer tm) = waiting (deadlineTimer tm0))) ->
  (forall n x r, writes w !! n = Some x -> result x = Some r -> exists x', writes w' !! n = Some x' /\ result x' = Some r) -> inv l w'.
Proof.
  intros [] Hm Hl Ht Hw. split; rewrite ?Hm, ?Hl; auto.
  - intros o tm Ho. destruct (Ht o tm Ho) as (tm0 & Ho0 & -> & Hd). destruct (i_timeouts0 o tm0 Ho0) as (t0 & H).
    exists t0. destruct Hd as [Hd|[-> Hd]]; [right; exact Hd|]. rewrite Hd. exact H.
  - intros n t Hn. destruct (i_failed0 n t Hn) as (x & Hx & Hr). exact (Hw n x _ Hx Hr).
Qed.

Lemma same_timeouts w : forall o tm, timeouts w !! o = Some tm -> exists tm0, timeouts w !! o = Some tm0 /\ task tm = task tm0 /\
  (waiting (deadlineTimer tm) = false \/ expiry (deadlineTimer tm) = expiry (deadlineTimer tm0) /\ waiting (deadlineTimer tm) = waiting (deadlineTimer tm0)).
Proof. intros o tm Ho. exists tm. auto. Qed.
Lemma same_writes w : forall n x r, writes w !! n = Some x -> result x = Some r -> exists x', writes w !! n = Some x' /\ result x' = Some r.
Proof. eauto. Qed.

Lemma cancelTimeout_inv l o w : inv l w -> exists w', cancelTimeout o w = (Ok tt, w') /\ inv l w' /\ log w' = log w /\ writes w' = writes w /\
  now w' = now w.
Proof.
  intros Hi. eexists. split; [reflexivity|]. split; [|auto]. apply (inv_kept l w); auto; [|exact (same_writes w)].
  intros o' tm Ho. fields. apply alter_Some in Ho as [(<- & tm0 & Ho & ->)|[_ Ho]]; [|exists tm; auto].
  exists tm0. destruct (cancel_law (now w) (deadlineTimer tm0)) as (He & Hw & _). cbn. auto.
Qed.

Lemma setResult_inv l n x r w : inv l w -> writes w !! n = Some x -> result x = None -> inv l (with_writes (<[n := with_result (Some r) x]> (writes w)) w).
Proof.
  intros Hi Hn Hx. apply (inv_kept l w); auto; [exact (same_timeouts w)|]. intros m y r' Hm Hr. fields.
  rewrite list_lookup_insert_ne by congruence. eauto.
Qed.

Lemma write_complete_inv l n success w : inv l w -> is_Some (writes w !! n) -> exists b w', complete n success w = (Ok b, w') /\ inv l w' /\ log w' = log w /\
  now w' = now w /\ (b = true -> exists x, writes w !! n = Some x /\ result x = None) /\
  (b = true -> exists x, writes w' !! n = Some x /\ result x = Some success).
Proof.
  intros Hi [x Hx]. unfold complete. rewrite bind_gets. unfold id. rewrite Hx. destruct (result x) as [r|] eqn:Er.
  - exists false, w. split; [reflexivity|]. split; [exact Hi|]. repeat split; discriminate.
  - rewrite bind_modify. pose proof (setResult_inv l n x success w Hi Hx Er) as H1. set (w1 := with_writes _ w) in *.
    assert (writes w1 !! n = Some (with_result (Some success) x)) as Hw1 by (apply list_lookup_insert_eq; exact (lookup_lt_Some _ _ _ Hx)).
    destruct (listener x) as [o|].
    + destruct (cancelTimeout_inv l o w1 H1) as (w2 & E & H2 & Hl & Hw & Hn). rewrite (bind_ok _ _ _ _ _ E).
      exists true, w2. split; [reflexivity|]. split; [exact H2|]. split; [exact Hl|]. split; [exact Hn|]. split; [eauto|]. intros _. rewrite Hw. eauto.
    + exists true, w1. split; [reflexivity|]. split; [exact H1|]. eauto 10.
Qed.

Lemma setListener_inv l n o w : inv l w -> is_Some (writes w !! n) -> exists w', setListener n o w = (Ok tt, w') /\ inv l w' /\ log w' = log w /\ now w' = now w.
Proof.
  intros Hi [x Hx]. unfold setListener. rewrite bind_gets. unfold id. rewrite Hx. destruct (result x) eqn:Er.
  - destruct (cancelTimeout_inv l o w Hi) as (w' & E & H & Hl & _ & Hn). eauto 6.
  - eexists. split; [reflexivity|]. split; [|auto]. apply (inv_kept l w); auto; [exact (same_timeouts w)|]. intros m y r Hm Hr. fields.
    rewrite list_lookup_insert_ne by congruence. eauto.
Qed.
Definition logged w e : world :=
  MkWorld (now w) (isOpen w) (context w) (timer w) (timeoutMillis w) (timeouts w) (writes w) (log w ++ [e]).

Lemma logged_inv e w : inv [e] w -> (forall n t, e <> WriteTimeout n t) -> inv [] (logged w e).
Proof.
  intros [] He. unfold logged. split; fields; rewrite ?app_nil_r; auto.
  - apply each_true_snoc; [assumption|]. destruct e; [exact I | exfalso; exact (He _ _ eq_refl)].
  - intros n t Hin. apply in_app_or in Hin as [Hin|[->|[]]]; [exact (i_failed0 n t Hin) | exfalso; exact (He _ _ eq_refl)].
Qed.

Lemma pending_inv e w : inv [] w -> inv [e] w.
Proof.
  intros []. split; auto. intros o tm Ho. destruct (i_timeouts0 o tm Ho) as (t0 & [(Hin & H)|H]); exists t0; [left | right; exact H].
  rewrite app_nil_r in Hin. split; [apply in_or_app; left; exact Hin | exact H].
Qed.

Lemma newTimeout_inv ctx n w : inv [WriteRequested n (now w)] w -> 0 < millis ->
  inv [WriteRequested n (now w)] (with_timeouts (snd (newTimeout (now w) (ctx, n) millis (timeouts w))) w).
Proof.
  intros [] Hm. split; fields; auto. intros o tm Ho. cbn in Ho. apply lookup_app_Some in Ho as [Ho|[_ Ho]]; [exact (i_timeouts0 o tm Ho)|].
  apply list_lookup_singleton_Some in Ho as [_ <-]. exists (now w). left. cbn [task deadlineTimer snd].
  destruct (async_wait_law (now w) millis) as (He & _). split; [apply in_or_app; right; left; reflexivity|]. lia.
Qed.

Lemma write_inv f w : inv [] w -> enabled (Write f) w = true -> exists w', exec (Write f) w = (Ok tt, w') /\ inv [] w'.
Proof.
  intros Hi He. cbn in He. apply bool_decide_eq_true in He as [ctx Hc]. cbn [exec]. rewrite bind_gets. unfold id. rewrite Hc, bind_modify.
  set (n := List.length (writes w)). set (x := MkWrite f None None true). set (w0 := with_writes _ w).
  assert (inv [] w0) as H0.
  { apply (inv_kept [] w); auto; [exact (same_timeouts w)|]. intros m y r Hm Hr. exists y. split; [apply lookup_app_l_Some, Hm | exact Hr]. }
  apply (pending_inv (WriteRequested n (now w))) in H0. unfold writeRequested. rewrite bind_gets. unfold id.
  change (timeoutMillis w0) with (timeoutMillis w). rewrite (i_millis _ _ Hi).
  assert (exists w1, (if millis >? 0 then
     modify (with_timer true) ;!
     match writes w0 !! n with
     | None => throw Undefined
     | Some x =>
         if hasFuture x then
           let '(o, l) := newTimeout (now w0) (ctx, n) millis (timeouts w0) in modify (with_timeouts l) ;! setListener n o
         else ret tt
     end
   else ret tt) w0 = (Ok tt, w1) /\ inv [WriteRequested n (now w)] w1 /\ now w1 = now w) as (w1 & E & H1 & Hn1).
  { destruct (millis >? 0) eqn:Em; [|exists w0; auto]. rewrite Z.gtb_ltb in Em. zbool. rewrite bind_modify.
    assert (writes w0 !! n = Some x) as -> by (apply list_lookup_middle; reflexivity). destruct f; [|].
    - cbn [hasFuture x]. cbn [newTimeout]. rewrite bind_modify.
      assert (inv [WriteRequested n (now w)] (with_timer true w0)) as H1
        by (apply (inv_kept _ w0); auto; [exact (same_timeouts w0) | exact (same_writes w0)]).
      pose proof (newTimeout_inv ctx n (with_timer true w0) H1 Em) as H2.
      destruct (setListener_inv _ n (List.length (timeouts w0)) _ H2) as (w1 & E & H3 & Hl & Hn1); [exists x; apply list_lookup_middle; reflexivity|].
      exists w1. split; [exact E|]. split; [exact H3 | exact Hn1].
    - eexists. split; [reflexivity|]. split; [|reflexivity]. apply (inv_kept _ w0); auto; [exact (same_timeouts w0) | exact (same_writes w0)]. }
  rewrite (bind_ok _ _ _ _ _ E). exists (logged w1 (WriteRequested n (now w))). split; [rewrite <- Hn1; reflexivity|].
  apply logged_inv; [exact H1 | discriminate].
Qed.

Lemma called_inv o tm aborted w : inv [] w -> timeouts w !! o = Some tm ->
  inv [] (with_timeouts (<[o := timerHandler aborted tm]> (timeouts w)) w).
Proof.
  intros Hi Hl. apply (inv_kept [] w); auto; [|exact (same_writes w)]. intros o' tm' Ho. fields.
  apply list_lookup_insert_Some in Ho as [(<- & <- & _)|[_ Ho]]; [|exists tm'; auto].
  exists tm. split; [exact Hl|]. split; [reflexivity|]. left. apply invoked_law.
Qed.

(** The call of a timeout that goes through. *)
Lemma write_handled_inv o tm w w' : inv [] w -> timeouts w !! o = Some tm -> ready (now w) false (deadlineTimer tm) = true ->
  exec (Complete o false) w = (Ok tt, w') -> inv [] w'.
Proof.
  intros Hi Hl Hr. cbn [exec]. unfold timerFunctionHandler. rewrite bind_gets. unfold id. rewrite Hl, bind_modify.
  pose proof (called_inv o tm false w Hi Hl) as H1. set (w1 := with_timeouts _ w) in *. unfold handleWriteTimeout, isCancelled. cbn [state timerHandler].
  rewrite bool_decide_eq_false_2 by discriminate. rewrite bind_gets. unfold id. cbn [task timerHandler].
  destruct (negb _); [discriminate|]. destruct (negb _); [intros E; injection E as <-; exact H1|].
  destruct (writes w1 !! snd (task tm)) as [x|] eqn:Ex; [|discriminate]. destruct (eventExists x); [|discriminate].
  destruct (write_complete_inv [] (snd (task tm)) false w1 H1 ltac:(eauto)) as (b & w2 & E & H2 & Hlog & Hn & Hb & Hb').
  rewrite (bind_ok _ _ _ _ _ E). destruct b; [|intros E'; injection E' as <-; exact H2].
  intros E'. injection E' as <-. destruct (Hb eq_refl) as (y & Hy & Hy0). destruct (Hb' eq_refl) as (z & Hz & Hz0).
  destruct (i_timeouts _ _ Hi o tm Hl) as (t0 & [(Hin & Hm & He)|He]); [|rewrite (ready_waiting _ _ _ Hr) in He; discriminate].
  rewrite app_nil_r in Hin. pose proof (ready_expired _ _ Hr) as Hx. pose proof H2 as []. change (log w1) with (log w) in Hlog.
  change (now w1) with (now w) in Hn. split; cbn [timeoutMillis log timeouts writes now]; auto.
  - apply each_true_snoc; [assumption|]. rewrite Hlog, Hn. split; [exists t0; split; [exact Hin | lia]|].
    intros t Ht. destruct (i_failed _ _ Hi _ _ Ht) as (x' & Hx1 & Hx2). change (writes w1) with (writes w) in Hy. congruence.
  - intros o' tm' Ho. destruct (i_timeouts0 o' tm' Ho) as (t1 & [(Hin1 & H)|H]); exists t1; [left | right; exact H].
    rewrite app_nil_r in *. split; [apply in_or_app; left; exact Hin1 | exact H].
  - intros m t Ht. apply in_app_or in Ht as [Ht|[Ht|[]]]; [exact (i_failed0 m t Ht)|]. injection Ht as <- _. eauto.
Qed.

Lemma write_exec_inv p w w' : inv [] w -> enabled p w = true -> exec p w = (Ok tt, w') -> inv [] w'.
Proof.
  intros Hi He E. destruct p as [d|f|n|n s| |o ab]; cbn [enabled] in He.
  - injection E as <-. apply (inv_kept [] w); auto; [exact (same_timeouts w) | exact (same_writes w)].
  - destruct (write_inv f w Hi He) as (w2 & E2 & H2). congruence.
  - injection E as <-. apply (inv_kept [] w); auto; [exact (same_timeouts w)|]. intros m x r Hm Hr. fields.
    destruct (decide (n = m)) as [->|Hne]; [|rewrite list_lookup_alter_ne by exact Hne; eauto].
    rewrite list_lookup_alter_eq, Hm. cbn. eauto.
  - apply bool_decide_eq_true in He. destruct (write_complete_inv [] n s w Hi He) as (b & w2 & E2 & H2 & _). cbn [exec] in E.
    rewrite (bind_ok _ _ _ _ _ E2) in E. injection E as <-. exact H2.
  - injection E as <-. apply (inv_kept [] w); auto; [exact (same_timeouts w) | exact (same_writes w)].
  - destruct (timeouts w !! o) as [tm|] eqn:Hl; [|discriminate]. destruct ab; [|exact (write_handled_inv o tm w w' Hi Hl He E)].
    cbn [exec] in E. unfold timerFunctionHandler in E. rewrite bind_gets in E. unfold id in E. rewrite Hl in E. injection E as <-.
    exact (called_inv o tm true w Hi Hl).
Qed.

(** *** What a step tells *)

Lemma setListener_log n o w w' : setListener n o w = (Ok tt, w') -> log w' = log w.
Proof.
  unfold setListener. rewrite bind_gets. unfold id. destruct (writes w !! n) as [x|]; [|discriminate].
  destruct (result x); intros E; injection E as <-; reflexivity.
Qed.

(** A completion that goes through was pending. *)
Lemma complete_told n success w b w' : complete n success w = (Ok b, w') -> log w' = log w /\ now w' = now w /\
  (b = true -> exists x, writes w !! n = Some x /\ result x = None /\ writes w' !! n = Some (with_result (Some success) x)).
Proof.
  unfold complete. rewrite bind_gets. unfold id. destruct (writes w !! n) as [x|] eqn:Hx; [|discriminate].
  destruct (result x) eqn:Er; [intros E; injection E as <- <-; repeat split; discriminate|]. rewrite bind_modify.
  pose proof (list_lookup_insert_eq (writes w) n (with_result (Some success) x) (lookup_lt_Some _ _ _ Hx)) as Hw.
  destruct (listener x) as [o|]; intros E; injection E as <- <-; (split; [reflexivity|]); (split; [reflexivity|]); eauto.
Qed.

Lemma write_log f w w' : exec (Write f) w = (Ok tt, w') -> exists e, log w' = log w ++ [e] /\ forall n t, e <> WriteTimeout n t.
Proof.
  cbn [exec]. rewrite bind_gets. unfold id. destruct (context w) as [ctx|]; [|discriminate]. rewrite bind_modify.
  set (n := List.length (writes w)). set (w0 := with_writes _ w). unfold writeRequested. rewrite bind_gets. unfold id.
  set (m := if timeoutMillis w0 >? 0 then _ else _). intros E. unfold bind in E. destruct (m w0) as [[[]|e] w1] eqn:Em; [|discriminate].
  injection E as <-. exists (WriteRequested n (now w1)). split; [|discriminate]. cbn. f_equal. revert Em. unfold m.
  destruct (timeoutMillis w0 >? 0); [|intros E; injection E as <-; reflexivity]. rewrite bind_modify.
  destruct (writes w0 !! n) as [x|]; [|discriminate]. destruct (hasFuture x); [|intros E; injection E as <-; reflexivity].
  cbn [newTimeout]. rewrite bind_modify. intros E. apply setListener_log in E. exact E.
Qed.

(** A write timeout is told by the call of a timeout, of a write that is pending and whose
    event exists, and the write fails. *)
Lemma step_told p w w' n t : exec p w = (Ok tt, w') -> In (WriteTimeout n t) (log w') -> In (WriteTimeout n t) (log w) \/
  t = now w /\ exists o x, p = Complete o false /\ writes w !! n = Some x /\ eventExists x = true /\ result x = None /\
    writes w' !! n = Some (with_result (Some false) x).
Proof.
  intros E Hin. destruct p as [d|f|m|m s| |o ab].
  - injection E as <-. left. exact Hin.
  - destruct (write_log f w w' E) as (e & El & He). rewrite El in Hin. apply in_app_or in Hin as [Hin|[Hin|[]]]; [left; exact Hin|].
    exfalso. exact (He n t Hin).
  - injection E as <-. left. exact Hin.
  - left. cbn [exec] in E. unfold bind in E. destruct (complete m s w) as [[b|e] w1] eqn:Ec; [|discriminate]. injection E as <-.
    destruct (complete_told _ _ _ _ _ Ec) as [<- _]. exact Hin.
  - injection E as <-. left. exact Hin.
  - cbn [exec] in E. unfold timerFunctionHandler in E. rewrite bind_gets in E. unfold id in E.
    destruct (timeouts w !! o) as [tm|]; [|discriminate]. rewrite bind_modify in E. set (w1 := with_timeouts _ w) in *.
    destruct ab; [injection E as <-; left; exact Hin|]. unfold handleWriteTimeout in E.
    destruct (isCancelled _); [injection E as <-; left; exact Hin|]. rewrite bind_gets in E. unfold id in E.
    destruct (negb _); [discriminate|]. destruct (negb _); [injection E as <-; left; exact Hin|].
    set (k := snd (task (timerHandler false tm))) in *. destruct (writes w1 !! k) as [x|] eqn:Hx; [|discriminate].
    destruct (eventExists x) eqn:He; [|discriminate]. unfold bind in E.
    destruct (complete k false w1) as [[b|e] w2] eqn:Ec; [|discriminate]. destruct (complete_told _ _ _ _ _ Ec) as (Hl & Hn & Hb).
    destruct b; [|injection E as <-; left; change (log w) with (log w1); rewrite <- Hl; exact Hin].
    injection E as <-. destruct (Hb eq_refl) as (y & Hy & Hr & Hw). rewrite Hx in Hy. injection Hy as <-.
    cbn [log] in Hin. apply in_app_or in Hin as [Hin|[Hin|[]]]; [left; change (log w) with (log w1); rewrite <- Hl; exact Hin|].
    injection Hin as <- <-. right. split; [exact Hn|]. exists o, x. auto.
Qed.

Lemma write_run_inv (time : Z) ps w : steps (start millis time) ps w -> inv [] w.
Proof.
  intros Hs. assert (inv [] (start (W := W) millis time)) as H0.
  { split; cbn; try reflexivity; try contradiction; [|discriminate]. apply each_true_nil. }
  revert H0. induction Hs as [|w0 p w1 ps w2 He E _ IH]; intros H0; [exact H0|]. exact (IH (write_exec_inv p w0 w1 H0 He E)).
Qed.

(** C40: in every run a write timeout comes after its write by at least the time of the
    handler, and once; and every step from a state that a run reaches that tells a write
    timeout, now, is the call of a timeout, of a write that nothing had completed until
    then and whose future the call makes fail.  (The event of the write has to exist
    still, as the timeout keeps a reference into it: a timeout that is called after the
    write call has returned, and the event is gone, has no meaning and tells nothing,
    [write_timeout_dangles].) *)
Theorem write_timeouts_true (time : Z) (ps : list op) w : steps (start millis time) ps w ->
  true_log millis (log w) /\
  (forall n t, In (WriteTimeout n t) (log w) -> exists x, writes w !! n = Some x /\ result x = Some false) /\
  (forall p w' n t, exec p w = (Ok tt, w') -> In (WriteTimeout n t) (log w') -> In (WriteTimeout n t) (log w) \/
    t = now w /\ exists o x, p = Complete o false /\ writes w !! n = Some x /\ eventExists x = true /\ result x = None /\
      writes w' !! n = Some (with_result (Some false) x)).
Proof. intros Hs. pose proof (write_run_inv time ps w Hs) as []. split; [assumption|]. split; [assumption|]. intros p w' n t. apply step_told. Qed.
End Handler.
End WriteTimeouts.

(** ** Witnesses *)

Module ReadTimeoutWitnesses.
Import ReadTimeoutHandler ReadTimeouts.
#[local] Existing Instances PreciseTimer.timer PreciseTimer.timer_spec.
Abbreviation W := PreciseTimer.wait.

Definition never (t : Z) : bool := false.
Definition twoMillis : world W := start (MkHandler false None 2 0) 0 false.

(** Running a list of steps. *)
Fixpoint play (ps : list op) (w : world W) : option (world W) :=
  match ps with
  | [] => Some w
  | p :: ps =>
      if enabled p w then match exec never p w with (Ok _, w') => play ps w' | (Err _, _) => None end else None
  end.

Lemma read_play_steps ps w w' : play ps w = Some w' -> steps never w ps w'.
Proof.
  revert w. induction ps as [|p ps IH]; intros w E; [injection E as ->; apply steps_nil|].
  cbn [play] in E. destruct (enabled p w) eqn:He; [|discriminate].
  destruct (exec never p w) as [[[]|e] w1] eqn:Ex; [|discriminate]. exact (steps_cons _ _ _ _ _ _ He Ex (IH w1 E)).
Qed.

(** A message after 1.5 ms moves the read timeout from 2 ms to 4.1 ms. *)
Definition quiet : list op := [Add false; Open; Tick 1500; Receive; Tick 600; Complete 0 false; Tick 2000; Complete 1 false].

Lemma read_timeouts_true_witness :
  match play quiet twoMillis with
  | Some w => log w = [Initialized 0; ChannelOpen 0; MessageReceived 1500; ReadTimeout 4100] /\ true_log 2 (log w)
  | None => False
  end.
Proof.
  destruct (play quiet twoMillis) as [w|] eqn:E; [|vm_compute in E; discriminate].
  pose proof (read_timeouts_true never 2 ltac:(lia) 0 false quiet w ltac:(lia) (read_play_steps _ _ _ E)) as H.
  vm_compute in E. injection E as <-. split; [reflexivity | apply H; cbn; lia].
Defined.

Lemma silence_reported_witness :
  match play [Add false; Open; Tick 1500; Receive] twoMillis with
  | Some w => exists qs w' rest, steps never w qs w' /\
      List.Forall (fun p => match p with Tick _ | Complete _ _ => True | _ => False end) qs /\
      now w' <= 5500 /\ log w' = log w ++ ReadTimeout (now w') :: rest
  | None => False
  end.
Proof.
  destruct (play [Add false; Open; Tick 1500; Receive] twoMillis) as [w|] eqn:E; [|vm_compute in E; discriminate].
  pose proof (silence_reported never 2 ltac:(lia) 0 false _ w ltac:(lia) (read_play_steps _ _ _ E)) as H.
  assert (now w = 1500 /\ timeout (self w) = Some 0%nat /\ isOpen w = true) as (Hn & Ht & Ho)
    by (vm_compute in E; injection E as <-; auto).
  rewrite Hn in H. destruct H as (qs & w' & rest & H); [lia | congruence | exact Ho|]. exists qs, w', rest. exact H.
Defined.

(** The handler is removed after its timeout expired: the call follows the context that
    is gone. *)
Lemma only_stale_timeouts_fail_witness :
  match play [Add false; Open; Tick 2000; Remove] twoMillis with
  | Some w => enabled (Complete 0 false) w = true /\ exists w', exec never (Complete 0 false) w = (Err Undefined, w') /\ stale (Complete 0 false) w
  | None => False
  end.
Proof.
  destruct (play [Add false; Open; Tick 2000; Remove] twoMillis) as [w|] eqn:E; [|vm_compute in E; discriminate].
  pose proof (only_stale_timeouts_fail never 2 ltac:(lia) 0 false _ w (Complete 0 false) ltac:(lia) (read_play_steps _ _ _ E)) as H.
  assert (now w = 2000 /\ enabled (Complete 0 false) w = true /\ is_ok (fst (exec never (Complete 0 false) w)) = false) as (Hn & He & Hf)
    by (vm_compute in E; injection E as <-; vm_compute; auto).
  split; [exact He|]. rewrite Hn in H. destruct H as [[w' H]|H]; [lia | exact He | rewrite H in Hf; discriminate | exact H].
Defined.

(** A handler that is added to the attached pipeline of a channel that is not open yet
    starts twice: closing cancels one of its two timeouts. *)
Example started_twice :
  match play [Add true; Open; Close] twoMillis with
  | Some w => map (fun t => PreciseTimer.cancelledAt (deadlineTimer t)) (timeouts w) = [None; Some 0]
  | None => False
  end.
Proof. vm_compute. reflexivity. Qed.
End ReadTimeoutWitnesses.

Module WriteTimeoutWitnesses.
Import WriteTimeoutHandler WriteTimeouts.
#[local] Existing Instances PreciseTimer.timer PreciseTimer.timer_spec.
Abbreviation W := PreciseTimer.wait.

Definition twoMillis : world W := start 2 0.
Fixpoint play (ps : list op) (w : world W) : option (world W) :=
  match ps with
  | [] => Some w
  | p :: ps => if enabled p w then match exec p w with (Ok _, w') => play ps w' | (Err _, _) => None end else None
  end.

Lemma write_play_steps ps w w' : play ps w = Some w' -> steps w ps w'.
Proof.
  revert w. induction ps as [|p ps IH]; intros w E; [injection E as ->; apply steps_nil|].
  cbn [play] in E. destruct (enabled p w) eqn:He; [|discriminate].
  destruct (exec p w) as [[[]|e] w1] eqn:Ex; [|discriminate]. exact (steps_cons _ _ _ _ _ He Ex (IH w1 E)).
Qed.

(** Two writes, of which the first is completed in time. *)
Definition twoWrites : list op := [Write true; Tick 500; Write true; Finish 0 true; Tick 2000; Complete 1 false].

Lemma write_timeouts_true_witness :
  match play twoWrites twoMillis, play (firstn 5 twoWrites) twoMillis with
  | Some w, Some w0 =>
      log w = [WriteRequested 0 0; WriteRequested 1 500; WriteTimeout 1 2500] /\ true_log 2 (log w) /\
      exists x, writes w0 !! 1%nat = Some x /\ eventExists x = true /\ result x = None /\
        writes w !! 1%nat = Some (with_result (Some false) x)
  | _, _ => False
  end.
Proof.
  destruct (play twoWrites twoMillis) as [w|] eqn:E; [|vm_compute in E; discriminate].
  destruct (play (firstn 5 twoWrites) twoMillis) as [w0|] eqn:E0; [|vm_compute in E0; discriminate].
  pose proof (write_timeouts_true 2 0 twoWrites w (write_play_steps _ _ _ E)) as [H _].
  pose proof (write_timeouts_true 2 0 _ w0 (write_play_steps _ _ _ E0)) as (_ & _ & H0).
  assert (exec (Complete 1 false) w0 = (Ok tt, w)) as Ex by (vm_compute in E, E0; injection E as <-; injection E0 as <-; reflexivity).
  assert (log w = [WriteRequested 0 0; WriteRequested 1 500; WriteTimeout 1 2500]) as El by (vm_compute in E; injection E as <-; reflexivity).
  assert (log w0 = [WriteRequested 0 0; WriteRequested 1 500]) as El0 by (vm_compute in E0; injection E0 as <-; reflexivity).
  split; [exact El|]. split; [exact H|].
  destruct (H0 _ _ 1%nat 2500 Ex) as [Hin|(_ & o & x & _ & Hx)]; [rewrite El; cbn; auto | | exists x; exact Hx].
  rewrite El0 in Hin. destruct Hin as [Hin|[Hin|[]]]; discriminate.
Defined.

(** When the call that wrote has returned, the timeout follows a reference into an event
    that is gone. *)
Example write_timeout_dangles :
  match play [Write true; Return 0; Tick 2000] twoMillis with
  | Some w => enabled (Complete 0 false) w = true /\ fst (exec (Complete 0 false) w) = Err Undefined
  | None => False
  end.
Proof. vm_compute. split; reflexivity. Qed.
End WriteTimeoutWitnesses.
