(* ===== verification/SocketChannel.v ===== *)
(** * The write path of a socket channel

    [src/src/cetty/channel/socket/asio]: [AsioWriteOperationQueue], which accounts
    for what waits to be written, and the part of [AsioSocketChannel] around it: the
    writes, their completions, the interest in writing with its two water marks,
    and the closing of the channel. *)

From S2P Require Import Prelude MachineInt.

Module AsioSocketChannel.

(** ** Data *)

Definition OP_NONE : Z := 0.
Definition OP_READ : Z := 1.
Definition OP_WRITE : Z := 4.
Definition OP_READ_WRITE : Z := Z.lor OP_READ OP_WRITE.

Definition ST_CHANNEL_OPEN : Z := 0.
Definition ST_CHANNEL_BOUND : Z := 1.
Definition ST_CHANNEL_CONNECTED : Z := 2.
Definition ST_CHANNEL_CLOSED : Z := -1.

(** [AsioWriteOperation]: the bytes, and the future of the write, if it has one. *)
Record operation := MkOperation {
  op_writeBufferSize : Z;
  op_future : option positive;
}.

(** What the channel does to the world: a future is completed, an event goes
    upstream. *)
Inductive output :=
  | FutureSet (future : positive) (success : bool)
  | CloseFutureSet
  | WriteCompletion
  | InterestChanged (interestOps : Z)
  | ExceptionCaught
  | ChannelConnected
  | ChannelDisconnected
  | ChannelUnbound
  | ChannelClosed.

(** The channel: [writeQueue] with its [writeBufferSize] and the operation that was polled
    last, which [poll] answers a reference to; [inFlight] counts the
    completion handlers that asio has yet to call. *)
Record t := MkChannel {
  state : Z;
  socketOpen : bool;
  closeFutureDone : bool;
  interestOps : Z;
  ops : list operation;
  polledOp : operation;
  writeBufferSize : Z;
  highWaterMarkCounter : Z;
  isWriting : bool;
  inFlight : nat;
  outputs : list output;
}.

Section Ops.
(** The water marks of the configuration; whether the socket throws when it is
    closed; what is in the member [writeBufferSize] of a request that does not
    set it. *)
Context (lowWaterMark highWaterMark : Z) (closeThrows : bool) (uninitialised : Z).
Abbreviation CM := (M t).

Definition with_state n c := MkChannel n (socketOpen c) (closeFutureDone c) (interestOps c) (ops c) (polledOp c)
  (writeBufferSize c) (highWaterMarkCounter c) (isWriting c) (inFlight c) (outputs c).
Definition with_socketOpen b c := MkChannel (state c) b (closeFutureDone c) (interestOps c) (ops c) (polledOp c)
  (writeBufferSize c) (highWaterMarkCounter c) (isWriting c) (inFlight c) (outputs c).
Definition with_closeFutureDone b c := MkChannel (state c) (socketOpen c) b (interestOps c) (ops c) (polledOp c)
  (writeBufferSize c) (highWaterMarkCounter c) (isWriting c) (inFlight c) (outputs c).
Definition with_interestOps n c := MkChannel (state c) (socketOpen c) (closeFutureDone c) n (ops c) (polledOp c)
  (writeBufferSize c) (highWaterMarkCounter c) (isWriting c) (inFlight c) (outputs c).
Definition with_ops l c := MkChannel (state c) (socketOpen c) (closeFutureDone c) (interestOps c) l (polledOp c)
  (writeBufferSize c) (highWaterMarkCounter c) (isWriting c) (inFlight c) (outputs c).
Definition with_polledOp op c := MkChannel (state c) (socketOpen c) (closeFutureDone c) (interestOps c) (ops c) op
  (writeBufferSize c) (highWaterMarkCounter c) (isWriting c) (inFlight c) (outputs c).
Definition with_writeBufferSize n c := MkChannel (state c) (socketOpen c) (closeFutureDone c) (interestOps c) (ops c) (polledOp c)
  n (highWaterMarkCounter c) (isWriting c) (inFlight c) (outputs c).
Definition with_highWaterMarkCounter n c := MkChannel (state c) (socketOpen c) (closeFutureDone c) (interestOps c) (ops c) (polledOp c)
  (writeBufferSize c) n (isWriting c) (inFlight c) (outputs c).
Definition with_isWriting b c := MkChannel (state c) (socketOpen c) (closeFutureDone c) (interestOps c) (ops c) (polledOp c)
  (writeBufferSize c) (highWaterMarkCounter c) b (inFlight c) (outputs c).
Definition with_inFlight n c := MkChannel (state c) (socketOpen c) (closeFutureDone c) (interestOps c) (ops c) (polledOp c)
  (writeBufferSize c) (highWaterMarkCounter c) (isWriting c) n (outputs c).
Definition emit (o : output) : CM unit := modify (fun c =>
  MkChannel (state c) (socketOpen c) (closeFutureDone c) (interestOps c) (ops c) (polledOp c)
    (writeBufferSize c) (highWaterMarkCounter c) (isWriting c) (inFlight c) (outputs c ++ [o])).

Definition new : t := MkChannel ST_CHANNEL_OPEN true false OP_READ [] (MkOperation 0 None) 0 0 false 0 [].

Definition isOpen (c : t) : bool := state c >=? ST_CHANNEL_OPEN.
Definition isBound (c : t) : bool := state c >=? ST_CHANNEL_BOUND.
Definition isConnected (c : t) : bool := state c =? ST_CHANNEL_CONNECTED.

(** ** The interest *)

Definition setWrite (ops : Z) : Z := Z.lor ops OP_WRITE.
Definition clearWrite (ops : Z) : Z := Z.land ops (Z.lnot OP_WRITE).

Definition getInterestOps (c : t) : Z :=
  if negb (isOpen c) then OP_WRITE
  else
    let interestOps := interestOps c in
    if negb (writeBufferSize c =? 0) then
      if highWaterMarkCounter c >? 0 then
        if writeBufferSize c >=? lowWaterMark then setWrite interestOps else clearWrite interestOps
      else
        if writeBufferSize c >=? highWaterMark then setWrite interestOps else clearWrite interestOps
    else clearWrite interestOps.

Definition isReadable (c : t) : bool := negb (Z.land (getInterestOps c) OP_READ =? 0).
Definition isWritable (c : t) : bool := Z.land (getInterestOps c) OP_WRITE =? 0.

Definition fireInterestChanged : CM unit := let! c := gets id in emit (InterestChanged (getInterestOps c)).

Definition handleAtHighWaterMark : CM unit :=
  modify (fun c => with_highWaterMarkCounter (highWaterMarkCounter c + 1) c) ;!
  fireInterestChanged.

Definition handleAtLowWaterMark : CM unit :=
  modify (fun c => with_highWaterMarkCounter (highWaterMarkCounter c - 1) c) ;!
  let! c := gets id in
  if isConnected c then fireInterestChanged else ret tt.

(** ** AsioWriteOperationQueue *)

Definition plusWriteBufferSize (messageSize : Z) : CM unit :=
  modify (fun c => with_writeBufferSize (i32 (writeBufferSize c + messageSize)) c) ;!
  let! size := gets writeBufferSize in
  if size >=? highWaterMark then
    if i32 (size - messageSize) <? highWaterMark then handleAtHighWaterMark else ret tt
  else ret tt.

Definition minusWriteBufferSize (messageSize : Z) : CM unit :=
  modify (fun c => with_writeBufferSize (i32 (writeBufferSize c - messageSize)) c) ;!
  let! size := gets writeBufferSize in
  if (size =? 0) || (size <? lowWaterMark) then
    if i32 (size + messageSize) >=? lowWaterMark then handleAtLowWaterMark else ret tt
  else ret tt.

Definition offer (size : Z) (future : option positive) : CM unit :=
  modify (fun c => with_ops (ops c ++ [MkOperation size future]) c) ;!
  plusWriteBufferSize size.

(** [front] and [pop_front] of an empty queue have no meaning. *)
Definition poll : CM operation :=
  let! l := gets ops in
  match l with
  | [] => throw Undefined
  | op :: l =>
      modify (with_polledOp op) ;!
      modify (with_ops l) ;!
      minusWriteBufferSize (op_writeBufferSize op) ;!
      gets polledOp
  end.

(** [AsioWriteOperation::setSuccess] and [setFailure]. *)
Definition setFuture (success : bool) (future : option positive) : CM unit :=
  match future with
  | Some f => emit (FutureSet f success)
  | None => ret tt
  end.

(** ** Writing and closing *)

(** The loop of [cleanUpWriteBuffer]: whether a write was failed. *)
Fixpoint cleanUpLoop (n : nat) (fireExceptionCaught : bool) : CM bool :=
  match n with
  | O => ret fireExceptionCaught
  | S n =>
      let! l := gets ops in
      if Z.of_nat (List.length l) >? 1 then
        let! polled := poll in
        setFuture false (op_future polled) ;!
        cleanUpLoop n true
      else ret fireExceptionCaught
  end.

Definition cleanUpWriteBuffer : CM unit :=
  let! l := gets ops in
  let! fireExceptionCaught := cleanUpLoop (List.length l) false in
  if fireExceptionCaught : bool then emit ExceptionCaught else ret tt.

(** [write(evt)]: [message] is the number of readable bytes of a buffer, and
    [None] a message that is no buffer. *)
Definition write (message : option Z) (future : option positive) : CM unit :=
  let! c := gets id in
  if negb (isConnected c) then
    cleanUpWriteBuffer ;!
    setFuture false future
  else
    modify (with_isWriting true) ;!
    let size := match message with Some n => n | None => uninitialised end in
    offer size future ;!
    modify (fun c => with_inFlight (S (inFlight c)) c).

(** [setClosed]: whether the channel was open. *)
Definition setClosed : CM bool :=
  modify (with_state ST_CHANNEL_CLOSED) ;!
  let! c := gets id in
  if closeFutureDone c then ret false
  else
    modify (with_closeFutureDone true) ;!
    emit CloseFutureSet ;!
    ret true.

(** [close(future)]: [None] is the close future, which does not let itself be set. *)
Definition closeWith (future : option positive) : CM unit :=
  let! c := gets id in
  let connected := isConnected c in
  let bound := isBound c in
  if negb (isOpen c) || negb (socketOpen c) then ret tt
  else if closeThrows then
    let! _ := setClosed in
    setFuture false future ;!
    emit ExceptionCaught
  else
    modify (with_socketOpen false) ;!
    let! wasOpen := setClosed in
    setFuture true future ;!
    if wasOpen : bool then
      (if connected then emit ChannelDisconnected else ret tt) ;!
      (if bound then emit ChannelUnbound else ret tt) ;!
      cleanUpWriteBuffer ;!
      emit ChannelClosed
    else ret tt.

(** [close()], whose event comes to the sink and back as [close(closeFuture)]. *)
Definition close : CM unit :=
  let! c := gets id in
  if closeFutureDone c then ret tt else closeWith None.

Definition handleWrite (error : bool) : CM unit :=
  modify (fun c => with_inFlight (pred (inFlight c)) c) ;!
  if negb error then
    let! polled := poll in
    setFuture true (op_future polled) ;!
    emit WriteCompletion ;!
    let! l := gets ops in
    match l with
    | [] => modify (with_isWriting false)
    | _ => ret tt
    end
  else
    let! polled := poll in
    setFuture false (op_future polled) ;!
    close.

(** [setConnected], in [handleConnect] without an error. *)
Definition handleConnect (future : option positive) : CM unit :=
  modify (fun c => if negb (state c =? ST_CHANNEL_CLOSED) then with_state ST_CHANNEL_CONNECTED c else c) ;!
  emit ChannelConnected ;!
  setFuture true future.

(** ** Interest requests *)

Definition validateInterestOps (ops : Z) : result unit :=
  if (ops =? OP_NONE) || (ops =? OP_READ) || (ops =? OP_WRITE) || (ops =? OP_READ_WRITE) then Ok tt
  else Err InvalidArgumentException.

Definition filterDownstreamInterestOps (ops : Z) : Z := Z.land ops (Z.lnot OP_WRITE).

Definition validateAndFilterDownstreamInteresOps (ops : Z) : result Z :=
  let? _ := validateInterestOps ops in Ok (filterDownstreamInterestOps ops).

(** [setInterestOps(future, interestOps)], without the read that it starts. *)
Definition setInterestOpsWith (future : option positive) (ops : Z) : CM unit :=
  let! c := gets id in
  let isOrgReadable := isReadable c in
  let ops := Z.lor (clearWrite ops) (Z.land (interestOps c) OP_WRITE) in
  modify (with_interestOps ops) ;!
  let! c := gets id in
  let changed := negb (Bool.eqb isOrgReadable (isReadable c)) in
  setFuture true future ;!
  if changed then emit (InterestChanged ops) else ret tt.

Definition setInterestOps (ops : Z) (future : option positive) : CM unit :=
  let! ops := reads (fun _ => validateAndFilterDownstreamInteresOps ops) in
  setInterestOpsWith future ops.

(** [setReadable]. *)
Definition setReadable (readable : bool) (future : option positive) : CM unit :=
  let! c := gets id in
  if readable then setInterestOps (Z.lor (getInterestOps c) OP_READ) future
  else setInterestOps (Z.land (getInterestOps c) (Z.lnot OP_READ)) future.

(** ** Runs *)

(** A write of a buffer, and the completion of one; both in the thread of the
    channel. *)
Inductive call :=
  | Write (size : Z) (future : option positive)
  | Completed (error : bool)
  | Close.

Definition exec (p : call) : CM unit :=
  match p with
  | Write size future => write (Some size) future
  | Completed error => handleWrite error
  | Close => close
  end.

Fixpoint execAll (ps : list call) : CM unit :=
  match ps with
  | [] => ret tt
  | p :: ps => exec p ;! execAll ps
  end.

End Ops.
End AsioSocketChannel.
