(* ===== verification/SocketChannelProperties.v ===== *)
(** * What the write path of a socket channel does

    Futures of writes are told in the order of the writes; the two water marks make
    the hysteresis they are meant to make as long as they are crossed in turn, and
    the runs in which they are not; and what happens to the writes that are
    outstanding when the channel is closed. *)

From S2P Require Import Prelude MachineInt SocketChannel.
Import AsioSocketChannel.

(** ** What the outputs tell *)

Definition resolution (o : output) : option (positive * bool) :=
  match o with FutureSet f b => Some (f, b) | _ => None end.

(** The futures that were set, in order. *)
Definition resolved (c : t) : list (positive * bool) := omap resolution (outputs c).

Definition announcement (o : output) : option bool :=
  match o with InterestChanged ops => Some (Z.land ops OP_WRITE =? 0) | _ => None end.

(** Whether the channel can be written, as the events tell it. *)
Definition announcements (c : t) : list bool := omap announcement (outputs c).

(** The futures of operations. *)
Definition futures (success : bool) (l : list operation) : list (positive * bool) :=
  omap (fun op => option_map (fun f => (f, success)) (op_future op)) l.

Definition bytes (l : list operation) : Z := fold_right Z.add 0 (map op_writeBufferSize l).

(** The queue accounts for its operations, and asio owes a completion for each. *)
Record wf (c : t) : Prop := MkWf {
  wf_size : writeBufferSize c = i32 (bytes (ops c));
  wf_inFlight : inFlight c = length (ops c);
}.

Lemma bytes_app l1 l2 : bytes (l1 ++ l2) = bytes l1 + bytes l2.
Proof. unfold bytes. rewrite map_app. induction (map op_writeBufferSize l1); simpl; lia. Qed.

Lemma i32_add_l x y : i32 (i32 x + y) = i32 (x + y).
Proof.
  unfold i32. apply swrap_cong.
  rewrite <- Z.add_mod_idemp_l, swrap_mod, Z.add_mod_idemp_l by lia. reflexivity.
Qed.

Lemma i32_sub_l x y : i32 (i32 x - y) = i32 (x - y).
Proof. exact (i32_add_l x (- y)). Qed.

Lemma futures_app s l1 l2 : futures s (l1 ++ l2) = futures s l1 ++ futures s l2.
Proof. apply omap_app. Qed.

Section Channel.
Context (lowWaterMark highWaterMark : Z) (closeThrows : bool) (uninitialised : Z).
Abbreviation getInterestOps := (getInterestOps lowWaterMark highWaterMark).
Abbreviation isWritable := (isWritable lowWaterMark highWaterMark).
Abbreviation write := (write lowWaterMark highWaterMark uninitialised).
Abbreviation handleWrite := (handleWrite lowWaterMark highWaterMark closeThrows).
Abbreviation execAll := (execAll lowWaterMark highWaterMark closeThrows uninitialised).
Abbreviation exec := (exec lowWaterMark highWaterMark closeThrows uninitialised).
Abbreviation poll := (poll lowWaterMark highWaterMark).
Abbreviation offer := (offer lowWaterMark highWaterMark).
Abbreviation plus := (plusWriteBufferSize lowWaterMark highWaterMark).
Abbreviation minus := (minusWriteBufferSize lowWaterMark highWaterMark).
Abbreviation close := (close lowWaterMark highWaterMark closeThrows).
Abbreviation cleanUpWriteBuffer := (cleanUpWriteBuffer lowWaterMark highWaterMark).
Abbreviation cleanUpLoop := (cleanUpLoop lowWaterMark highWaterMark).
Implicit Types (c : t) (l : list operation).

(** What a change of the accounting leaves alone. *)
Record accounted (c c' : t) : Prop := MkAccounted {
  a_state : state c' = state c;
  a_socket : socketOpen c' = socketOpen c;
  a_done : closeFutureDone c' = closeFutureDone c;
  a_ops : ops c' = ops c;
  a_polled : polledOp c' = polledOp c;
  a_interest : interestOps c' = interestOps c;
  a_inFlight : inFlight c' = inFlight c;
  a_resolved : resolved c' = resolved c;
}.

(** The mark that a change of the size from [s] to [s'] crosses: the counter's
    change, and whether the change is announced. *)
Definition up (s s' : Z) : bool := (s' >=? highWaterMark) && (s <? highWaterMark).
Definition down (s s' : Z) : bool := ((s' =? 0) || (s' <? lowWaterMark)) && (s >=? lowWaterMark).

Definition announce (b : bool) (c : t) : list bool := if b then [isWritable c] else [].

Lemma emit_snd o c : emit o c = (Ok tt, snd (emit o c)).
Proof. reflexivity. Qed.

Lemma plus_spec n c : exists c', plus n c = (Ok tt, c') /\ accounted c c' /\
  let s := i32 (writeBufferSize c + n) in let b := up (i32 (s - n)) s in
  writeBufferSize c' = s /\ highWaterMarkCounter c' = highWaterMarkCounter c + Z.b2z b /\
  announcements c' = announcements c ++ announce b c'.
Proof.
  unfold plusWriteBufferSize, up. rewrite bind_modify, bind_gets. cbv beta. cbn [writeBufferSize with_writeBufferSize].
  set (s := i32 (writeBufferSize c + n)).
  destruct (s >=? highWaterMark) eqn:E1; [destruct (i32 (s - n) <? highWaterMark) eqn:E2|]; simpl;
    (eexists; split; [reflexivity|]; split; [constructor; simpl; try reflexivity|]);
    unfold resolved, announcements; simpl; rewrite ?omap_app; simpl; rewrite ?app_nil_r, ?Z.add_0_r; auto.
Qed.

Lemma minus_spec n c : exists c', minus n c = (Ok tt, c') /\ accounted c c' /\
  let s := i32 (writeBufferSize c - n) in let b := down (i32 (s + n)) s in
  writeBufferSize c' = s /\ highWaterMarkCounter c' = highWaterMarkCounter c - Z.b2z b /\
  announcements c' = announcements c ++ announce (b && isConnected c) c'.
Proof.
  unfold minusWriteBufferSize, down. rewrite bind_modify, bind_gets. cbv beta. cbn [writeBufferSize with_writeBufferSize].
  set (s := i32 (writeBufferSize c - n)). unfold handleAtLowWaterMark.
  destruct ((s =? 0) || (s <? lowWaterMark)); [destruct (i32 (s + n) >=? lowWaterMark)|]; simpl;
    try (rewrite bind_modify, bind_gets; unfold isConnected; simpl; destruct (state c =? _));
    (eexists; split; [reflexivity|]; split; [constructor; simpl; try reflexivity|]);
    unfold resolved, announcements; simpl; rewrite ?omap_app; simpl; rewrite ?app_nil_r, ?Z.sub_0_r; auto.
Qed.

(** A turn of the queue: [c'] is [c] with [qs'] waiting and [rs] more told. *)
Record turn (c c' : t) (l' : list operation) (rs : list (positive * bool)) : Prop := MkTurn {
  t_state : state c' = state c;
  t_socket : socketOpen c' = socketOpen c;
  t_done : closeFutureDone c' = closeFutureDone c;
  t_ops : ops c' = l';
  t_interest : interestOps c' = interestOps c;
  t_resolved : resolved c' = resolved c ++ rs;
}.

Lemma accounted_turn c c' : accounted c c' -> turn c c' (ops c) [].
Proof. intros []. constructor; rewrite ?app_nil_r; assumption. Qed.

Lemma turn_trans c1 c2 c3 l2 l3 r1 r2 : turn c1 c2 l2 r1 -> turn c2 c3 l3 r2 -> turn c1 c3 l3 (r1 ++ r2).
Proof. intros [] []. constructor; try congruence. rewrite app_assoc. congruence. Qed.

Lemma setFuture_spec b f c : exists c', setFuture b f c = (Ok tt, c') /\
  turn c c' (ops c) (futures b [MkOperation 0 f]) /\ writeBufferSize c' = writeBufferSize c /\
  inFlight c' = inFlight c /\ highWaterMarkCounter c' = highWaterMarkCounter c /\ announcements c' = announcements c.
Proof.
  destruct f as [f|]; (eexists; split; [reflexivity|]); (split; [constructor; try reflexivity|]);
    unfold resolved, announcements; simpl; rewrite ?omap_app, ?app_nil_r; auto.
Qed.

Lemma futures_one b op : futures b [MkOperation 0 (op_future op)] = futures b [op].
Proof. reflexivity. Qed.

(** [poll] takes the first operation out. *)
Lemma poll_spec c op l : writeBufferSize c = i32 (bytes (ops c)) -> ops c = op :: l -> exists c', poll c = (Ok op, c') /\
  turn c c' l [] /\ writeBufferSize c' = i32 (bytes l) /\ inFlight c' = inFlight c /\
  let b := down (i32 (bytes (op :: l))) (i32 (bytes l)) in
  highWaterMarkCounter c' = highWaterMarkCounter c - Z.b2z b /\
  announcements c' = announcements c ++ announce (b && isConnected c) c'.
Proof.
  intros Hs Ho. unfold poll. rewrite bind_gets, Ho, !bind_modify.
  destruct (minus_spec (op_writeBufferSize op) (with_ops l (with_polledOp op c))) as (c' & E & A & Hw & Hh & Ha).
  rewrite (bind_ok _ _ _ _ _ E). exists c'. split; [unfold gets, reads; rewrite (a_polled _ _ A); reflexivity|]. simpl in Hw, Hh, Ha.
  rewrite Hs, Ho, i32_sub_l in Hw, Hh, Ha.
  assert (Eb : bytes (op :: l) - op_writeBufferSize op = bytes l) by (unfold bytes; simpl; lia).
  rewrite Eb in Hw, Hh, Ha. rewrite i32_add_l in Hh, Ha.
  replace (bytes l + op_writeBufferSize op) with (bytes (op :: l)) in Hh, Ha by (unfold bytes; simpl; lia).
  split; [destruct A; constructor; rewrite ?app_nil_r; assumption|].
  split; [exact Hw|]. split; [exact (a_inFlight _ _ A)|]. auto.
Qed.

Lemma offer_spec n f c : writeBufferSize c = i32 (bytes (ops c)) -> exists c', offer n f c = (Ok tt, c') /\
  let l := ops c ++ [MkOperation n f] in
  turn c c' l [] /\ writeBufferSize c' = i32 (bytes l) /\ inFlight c' = inFlight c /\
  let b := up (i32 (bytes (ops c))) (i32 (bytes l)) in
  highWaterMarkCounter c' = highWaterMarkCounter c + Z.b2z b /\
  announcements c' = announcements c ++ announce b c'.
Proof.
  intros Hs. unfold offer. rewrite bind_modify.
  destruct (plus_spec n (with_ops (ops c ++ [MkOperation n f]) c)) as (c' & E & A & Hw & Hh & Ha).
  exists c'. split; [exact E|]. simpl in Hw, Hh, Ha. rewrite Hs, i32_add_l in Hw, Hh, Ha.
  rewrite i32_sub_l in Hh, Ha.
  replace (bytes (ops c) + n - n) with (bytes (ops c)) in Hh, Ha by lia.
  replace (bytes (ops c) + n) with (bytes (ops c ++ [MkOperation n f])) in Hw, Hh, Ha
    by (rewrite bytes_app; unfold bytes; simpl; lia).
  split; [destruct A; constructor; rewrite ?app_nil_r; assumption|].
  split; [exact Hw|]. split; [exact (a_inFlight _ _ A)|]. auto.
Qed.

(** ** Calls of an open channel *)

(** The operations that wait after a call, and those that are told. *)
Definition after (l : list operation) (p : call) : list operation :=
  match p with Write n f => l ++ [MkOperation n f] | _ => tail l end.

(** The mark that a call crosses. *)
Definition crossing (l : list operation) (p : call) : bool :=
  let s := i32 (bytes l) in let s' := i32 (bytes (after l p)) in
  match p with Write _ _ => up s s' | _ => down s s' end.

Definition counted (p : call) (b : bool) : Z :=
  match p with Write _ _ => Z.b2z b | _ => - Z.b2z b end.

Definition told (l : list operation) (p : call) : list (positive * bool) :=
  match p with Write _ _ => [] | _ => futures true (firstn 1 l) end.

Lemma socket_write_spec n f c : wf c -> isConnected c = true -> exists c', write (Some n) f c = (Ok tt, c') /\
  let p := Write n f in let l := ops c in
  turn c c' (after l p) [] /\ wf c' /\
  highWaterMarkCounter c' = highWaterMarkCounter c + counted p (crossing l p) /\
  announcements c' = announcements c ++ announce (crossing l p) c'.
Proof.
  intros Hwf Hc. unfold write. rewrite bind_gets. unfold id. rewrite Hc. cbv beta iota delta [negb].
  rewrite bind_modify. cbv zeta beta.
  destruct (offer_spec n f (with_isWriting true c)) as (c' & E & T & Hs & Hi & Hh & Ha).
  { exact (wf_size c Hwf). }
  rewrite (bind_ok _ _ _ _ _ E). eexists. split; [reflexivity|]. simpl in Hh, Ha.
  split; [destruct T; constructor; assumption|]. split; [|split; [exact Hh | exact Ha]].
  constructor; simpl; [rewrite Hs, (t_ops _ _ _ _ T); reflexivity|].
  rewrite Hi, (t_ops _ _ _ _ T), length_app. simpl. rewrite (wf_inFlight c Hwf). lia.
Qed.

Lemma announce_same b c c' : state c' = state c -> interestOps c' = interestOps c ->
  writeBufferSize c' = writeBufferSize c -> highWaterMarkCounter c' = highWaterMarkCounter c ->
  announce b c' = announce b c.
Proof.
  intros E1 E2 E3 E4. unfold announce, isWritable, getInterestOps, isOpen. rewrite E1, E2, E3, E4. reflexivity.
Qed.

Lemma completed_spec c : wf c -> isConnected c = true -> ops c <> [] ->
  exists c', handleWrite false c = (Ok tt, c') /\ let p := Completed false in let l := ops c in
  turn c c' (after l p) (told l p) /\ wf c' /\
  highWaterMarkCounter c' = highWaterMarkCounter c + counted p (crossing l p) /\
  announcements c' = announcements c ++ announce (crossing l p) c'.
Proof.
  intros [Hs Hi] Hc Hne. destruct (ops c) as [|op l] eqn:Ho; [contradiction|].
  unfold handleWrite. rewrite bind_modify. cbv beta iota delta [negb]. set (c0 := with_inFlight _ c).
  destruct (poll_spec c0 op l) as (c1 & E1 & T1 & Hs1 & Hi1 & Hh1 & Ha1); [simpl; rewrite Ho; exact Hs | exact Ho|].
  rewrite (bind_ok _ _ _ _ _ E1).
  destruct (setFuture_spec true (op_future op) c1) as (c2 & E2 & T2 & Hs2 & Hi2 & Hh2 & Ha2).
  rewrite (bind_ok _ _ _ _ _ E2), (bind_ok _ _ _ _ _ (emit_snd _ _)), bind_gets.
  rewrite futures_one, (t_ops _ _ _ _ T1) in T2. set (c3 := snd _).
  assert (T : turn c c3 l (futures true [op])).
  { pose proof (turn_trans _ _ _ _ _ _ _ T1 T2) as []. constructor; try assumption.
    unfold resolved in *. simpl. rewrite omap_app, t_resolved0. simpl. rewrite app_nil_r. reflexivity. }
  assert (Hh : highWaterMarkCounter c3 = highWaterMarkCounter c + counted (Completed false) (crossing (op :: l) (Completed false))).
  { simpl. rewrite Hh2, Hh1. reflexivity. }
  assert (Ha : announcements c3 = announcements c ++ announce (crossing (op :: l) (Completed false)) c3).
  { unfold announcements in *. simpl. rewrite omap_app, Ha2, Ha1. simpl. rewrite app_nil_r.
    change (isConnected c0) with (isConnected c). rewrite Hc, andb_true_r. f_equal. symmetry.
    apply announce_same; [exact (t_state _ _ _ _ T2) | exact (t_interest _ _ _ _ T2) | exact Hs2 | exact Hh2]. }
  assert (W : wf c3).
  { constructor; rewrite (t_ops _ _ _ _ T); simpl; [congruence|]. rewrite Hi2, Hi1. simpl. rewrite Hi. reflexivity. }
  cbv beta. destruct (ops c3); [exists (with_isWriting false c3) | exists c3]; (split; [reflexivity|]);
    (split; [destruct T; constructor; assumption|]);
    (split; [destruct W; constructor; assumption|]); (split; [exact Hh | exact Ha]).
Qed.

(** ** Runs of an open channel *)

(** The calls keep the channel open, and a completion is of a write. *)
Fixpoint open_calls (outstanding : nat) (ps : list call) : bool :=
  match ps with
  | [] => true
  | Write _ _ :: ps => open_calls (S outstanding) ps
  | Completed false :: ps => match outstanding with O => false | S n => open_calls n ps end
  | _ => false
  end.

(** The operations that the calls write, and the number of completions. *)
Definition written (ps : list call) : list operation :=
  omap (fun p => match p with Write n f => Some (MkOperation n f) | _ => None end) ps.

Definition completions (ps : list call) : nat :=
  length (List.filter (fun p => match p with Completed _ => true | _ => false end) ps).

Lemma open_calls_cons l p ps : open_calls (length l) (p :: ps) = true ->
  (p = Completed false /\ l <> [] \/ exists n f, p = Write n f) /\ open_calls (length (after l p)) ps = true.
Proof.
  destruct p as [n f|[|]|]; cbn [open_calls]; try discriminate.
  - intros H. split; [eauto|]. cbn [after]. rewrite length_app, Nat.add_1_r. exact H.
  - destruct l; [discriminate|]. intros H. split; [left; split; [reflexivity | discriminate] | exact H].
Qed.

(** One call of a run. *)
Lemma exec_spec p c : wf c -> isConnected c = true ->
  (p = Completed false /\ ops c <> [] \/ exists n f, p = Write n f) ->
  exists c', exec p c = (Ok tt, c') /\ isConnected c' = true /\ turn c c' (after (ops c) p) (told (ops c) p) /\ wf c' /\
    highWaterMarkCounter c' = highWaterMarkCounter c + counted p (crossing (ops c) p) /\
    announcements c' = announcements c ++ announce (crossing (ops c) p) c'.
Proof.
  intros W Hc [[-> Hne]|(n & f & ->)].
  - destruct (completed_spec c W Hc Hne) as (c' & E & T & H). exists c'. split; [exact E|].
    split; [|split; [exact T | exact H]]. unfold isConnected. rewrite (t_state _ _ _ _ T). exact Hc.
  - destruct (socket_write_spec n f c W Hc) as (c' & E & T & H). exists c'. split; [exact E|].
    split; [|split; [exact T | exact H]]. unfold isConnected. rewrite (t_state _ _ _ _ T). exact Hc.
Qed.

(** C21: While a channel is open its writes are told in the order in which they
    were made: after any sequence of writes and completions the operations that
    wait are the last ones, the futures of all others were set, each once, to
    success, and the size of the queue is that of what waits. *)
Theorem writes_told_in_order c ps : wf c -> isConnected c = true -> open_calls (length (ops c)) ps = true ->
  exists c', execAll ps c = (Ok tt, c') /\ wf c' /\ isConnected c' = true /\
    let all := ops c ++ written ps in
    ops c' = drop (completions ps) all /\
    resolved c' = resolved c ++ futures true (take (completions ps) all).
Proof.
  revert c. induction ps as [|p ps IH]; intros c W Hc Ho.
  - exists c. repeat split; auto; simpl; rewrite ?app_nil_r; auto; destruct W; assumption.
  - apply open_calls_cons in Ho as [Hp Ho].
    destruct (exec_spec p c W Hc Hp) as (c1 & E & Hc1 & T & W1 & _).
    rewrite <- (t_ops _ _ _ _ T) in Ho. destruct (IH c1 W1 Hc1 Ho) as (c' & E' & W' & Hc' & Ho' & Hr').
    exists c'. split; [unfold execAll; fold execAll; rewrite (bind_ok _ _ _ _ _ E); exact E'|].
    split; [exact W'|]. split; [exact Hc'|]. rewrite Ho', Hr', (t_ops _ _ _ _ T), (t_resolved _ _ _ _ T).
    destruct Hp as [[-> Hne]|(n & f & ->)].
    + destruct (ops c) as [|op l]; [contradiction|]. cbn. rewrite <- app_assoc. split; [reflexivity|].
      do 2 f_equal. destruct (op_future op); reflexivity.
    + cbn [after told written omap]. rewrite app_nil_r, <- app_assoc. auto.
Qed.

(** ** The water marks *)

(** The hysteresis that the two marks are for: congestion begins when the bytes
    that wait reach the high mark, and ends when they fall below the low mark. *)
Definition rises (n n' : Z) : bool := (n <? highWaterMark) && (highWaterMark <=? n').
Definition falls (n n' : Z) : bool := (lowWaterMark <=? n) && (n' <? lowWaterMark).

Definition congestion (l : list operation) (congested : bool) (p : call) : bool :=
  let n := bytes l in let n' := bytes (after l p) in
  if rises n n' then true else if falls n n' then false else congested.

(** The high mark is not reached during congestion, nor the low mark crossed
    downwards outside it; and the bytes are those of an [int]. *)
Definition in_turn (l : list operation) (congested : bool) (p : call) : bool :=
  let n := bytes l in let n' := bytes (after l p) in
  negb (rises n n' && congested) && negb (falls n n' && negb congested) &&
  (n' <=? INT_MAX) && match p with Write n _ => 0 <=? n | _ => true end.

Fixpoint all_in_turn (l : list operation) (congested : bool) (ps : list call) : bool :=
  match ps with
  | [] => true
  | p :: ps => in_turn l congested p && all_in_turn (after l p) (congestion l congested p) ps
  end.

(** The congestion after each call. *)
Fixpoint congestions (l : list operation) (congested : bool) (ps : list call) : list bool :=
  match ps with
  | [] => []
  | p :: ps => let congested := congestion l congested p in congested :: congestions (after l p) congested ps
  end.

Lemma last_cons {A} (x d : A) (l : list A) : List.last (x :: l) d = List.last l x.
Proof.
  revert x d. induction l as [|y l IH]; intros x d; [reflexivity|]. exact (eq_trans (IH y d) (eq_sym (IH y x))).
Qed.

(** The changes in a list of bools after the first. *)
Fixpoint changes (b : bool) (bs : list bool) : list bool :=
  match bs with
  | [] => []
  | b' :: bs => (if Bool.eqb b b' then [] else [b']) ++ changes b' bs
  end.

Record hysteresis (congested : bool) (c : t) : Prop := MkHysteresis {
  h_counter : highWaterMarkCounter c = Z.b2z congested;
  h_sizes : Forall (fun op => 0 <= op_writeBufferSize op) (ops c);
  h_max : bytes (ops c) <= INT_MAX;
  h_mark : if congested then lowWaterMark <= bytes (ops c) else bytes (ops c) < highWaterMark;
}.

Lemma bytes_nonneg l : Forall (fun op => 0 <= op_writeBufferSize op) l -> 0 <= bytes l.
Proof. induction 1; unfold bytes in *; simpl; lia. Qed.

Lemma bytes_id l : Forall (fun op => 0 <= op_writeBufferSize op) l -> bytes l <= INT_MAX -> i32 (bytes l) = bytes l.
Proof. intros Hl Hm. pose proof (bytes_nonneg l Hl). apply i32_id. unfold is_i32, is_signed, INT_MAX in *. lia. Qed.

Lemma write_flag b ops : (Z.land (if b : bool then setWrite ops else clearWrite ops) OP_WRITE =? 0) = negb b.
Proof.
  assert (H4 : forall z, (Z.land z OP_WRITE =? 0) = negb (Z.testbit z 2)).
  { intros z. unfold OP_WRITE. change 4 with (2 ^ 2). rewrite land_pow2 by lia. destruct (Z.testbit z 2); reflexivity. }
  rewrite H4. destruct b; unfold setWrite, clearWrite, OP_WRITE.
  - rewrite Z.lor_spec, orb_true_r. reflexivity.
  - rewrite Z.land_spec, andb_false_r. reflexivity.
Qed.

(** The channel can be written exactly when it is not congested. *)
Lemma hysteresis_writable g c : 0 < lowWaterMark <= highWaterMark -> wf c -> isConnected c = true ->
  hysteresis g c -> isWritable c = negb g.
Proof.
  intros Hm [Hs _] Hc [Hh Hl Hx Hg]. rewrite bytes_id in Hs by assumption.
  unfold isWritable, getInterestOps. unfold isOpen. unfold isConnected in Hc. apply Z.eqb_eq in Hc. rewrite Hc.
  cbn [negb ST_CHANNEL_CONNECTED ST_CHANNEL_OPEN Z.geb Z.compare]. cbv zeta. rewrite Hh, Hs. rewrite <- (write_flag g (interestOps c)).
  do 2 f_equal. destruct g; simpl (_ >? 0); cbv iota; repeat zif; try reflexivity; lia.
Qed.

Lemma hysteresis_step g p c c' : 0 < lowWaterMark <= highWaterMark -> hysteresis g c ->
  (p = Completed false /\ ops c <> [] \/ exists n f, p = Write n f) -> in_turn (ops c) g p = true ->
  ops c' = after (ops c) p -> highWaterMarkCounter c' = highWaterMarkCounter c + counted p (crossing (ops c) p) ->
  hysteresis (congestion (ops c) g p) c' /\ crossing (ops c) p = negb (Bool.eqb g (congestion (ops c) g p)).
Proof.
  intros Hm [Hh Hl Hx Hg] Hp Ht Ho Hc. unfold in_turn in Ht. zbool.
  assert (Hl' : Forall (fun op => 0 <= op_writeBufferSize op) (after (ops c) p)).
  { destruct p; simpl; [apply Forall_app; split; [exact Hl | repeat constructor; simpl; lia] | |]; destruct Hl; auto. }
  assert (Hn : match p with Write _ _ => bytes (ops c) <= bytes (after (ops c) p) | _ => bytes (after (ops c) p) <= bytes (ops c) end).
  { destruct Hp as [[-> Hne]|(n & f & ->)]; simpl.
    - destruct Hl; unfold bytes; simpl; lia.
    - rewrite bytes_app. unfold bytes at 3. simpl. lia. }
  pose proof (bytes_nonneg _ Hl). pose proof (bytes_nonneg _ Hl').
  assert (Hcr : crossing (ops c) p = negb (Bool.eqb g (congestion (ops c) g p)) /\
    Z.b2z g + counted p (crossing (ops c) p) = Z.b2z (congestion (ops c) g p) /\
    if congestion (ops c) g p then lowWaterMark <= bytes (after (ops c) p) else bytes (after (ops c) p) < highWaterMark).
  { unfold crossing, congestion, rises, falls, up, down in *. rewrite !bytes_id by assumption. rewrite !Z.geb_leb.
    set (n := bytes (ops c)) in *. set (n' := bytes (after (ops c) p)) in *.
    destruct Hp as [[-> Hne]|(m & f & ->)]; destruct g; simpl in Hg;
      destruct (n <? highWaterMark) eqn:?, (highWaterMark <=? n') eqn:?, (lowWaterMark <=? n) eqn:?, (n' <? lowWaterMark) eqn:?, (n' =? 0) eqn:?;
      simpl in *; zbool; try discriminate; try lia. }
  destruct Hcr as (Hcr & Hcounter & Hmark). split; [|exact Hcr].
  constructor; rewrite ?Ho; [congruence | exact Hl' | assumption | exact Hmark].
Qed.

(** C20: The water marks make the hysteresis they are for as long as they are
    crossed in turn: the channel can be written exactly when it is not congested,
    where congestion begins at the high mark and ends below the low mark, and each
    beginning and end is announced by one event that tells the new state. *)
Theorem water_marks_in_turn g c ps : 0 < lowWaterMark <= highWaterMark -> wf c -> isConnected c = true ->
  hysteresis g c -> open_calls (length (ops c)) ps = true -> all_in_turn (ops c) g ps = true ->
  exists c', execAll ps c = (Ok tt, c') /\
    isWritable c' = negb (List.last (congestions (ops c) g ps) g) /\
    announcements c' = announcements c ++ map negb (changes g (congestions (ops c) g ps)).
Proof.
  intros Hm. revert g c. induction ps as [|p ps IH]; intros g c W Hc Hg Ho Ht.
  - exists c. split; [reflexivity|]. simpl. rewrite app_nil_r.
    split; [exact (hysteresis_writable g c Hm W Hc Hg) | reflexivity].
  - apply open_calls_cons in Ho as [Hp Ho]. cbn [all_in_turn] in Ht. apply andb_true_iff in Ht as [Ht Hts].
    destruct (exec_spec p c W Hc Hp) as (c1 & E & Hc1 & T & W1 & Hh & Ha). pose proof (t_ops _ _ _ _ T) as To.
    destruct (hysteresis_step g p c c1 Hm Hg Hp Ht To Hh) as [Hg1 Hcr].
    rewrite <- To in Ho, Hts. destruct (IH _ c1 W1 Hc1 Hg1 Ho Hts) as (c' & E' & Hw' & Ha').
    exists c'. split; [unfold execAll; fold execAll; rewrite (bind_ok _ _ _ _ _ E); exact E'|].
    rewrite Hw', Ha', Ha, To, Hcr. unfold announce. rewrite (hysteresis_writable _ c1 Hm W1 Hc1 Hg1).
    cbn [congestions changes]. split.
    + rewrite last_cons. reflexivity.
    + rewrite map_app, <- app_assoc. do 2 f_equal.
      destruct (Bool.eqb g (congestion (ops c) g p)); reflexivity.
Qed.

(** ** Closing *)

(** A completion with an error after the channel was closed. *)
Lemma aborted_spec c op l : closeFutureDone c = true -> writeBufferSize c = i32 (bytes (ops c)) -> ops c = op :: l ->
  exists c', handleWrite true c = (Ok tt, c') /\ turn c c' l (futures false [op]) /\ writeBufferSize c' = i32 (bytes (ops c')).
Proof.
  intros Hd Hs Ho. unfold handleWrite. rewrite bind_modify. cbv beta iota delta [negb]. set (c0 := with_inFlight _ c).
  destruct (poll_spec c0 op l Hs Ho) as (c1 & E1 & T1 & Hs1 & _).
  rewrite (bind_ok _ _ _ _ _ E1).
  destruct (setFuture_spec false (op_future op) c1) as (c2 & E2 & T2 & Hs2 & _).
  rewrite (bind_ok _ _ _ _ _ E2). rewrite futures_one, (t_ops _ _ _ _ T1) in T2.
  pose proof (turn_trans _ _ _ _ _ _ _ T1 T2) as T. unfold close. rewrite bind_gets. unfold id.
  replace (closeFutureDone c2) with true by (rewrite (t_done _ _ _ _ T); symmetry; exact Hd).
  exists c2. split; [reflexivity|]. split; [destruct T; constructor; assumption|].
  rewrite (t_ops _ _ _ _ T). congruence.
Qed.

(** As many completions as operations fail them in turn; one more has none to take. *)
Lemma aborted_all n c : closeFutureDone c = true -> writeBufferSize c = i32 (bytes (ops c)) ->
  exists c', execAll (repeat (Completed true) n) c = (if (n <=? length (ops c))%nat then Ok tt else Err Undefined, c') /\
    resolved c' = resolved c ++ futures false (take n (ops c)) /\ ops c' = drop n (ops c).
Proof.
  revert c. induction n as [|n IH]; intros c Hd Hs.
  - exists c. split; [reflexivity|]. split; [symmetry; apply app_nil_r | reflexivity].
  - destruct (ops c) as [|op l] eqn:Ho.
    + exists (with_inFlight (pred (inFlight c)) c). split; [|split; [symmetry; apply app_nil_r | exact Ho]].
      cbn [repeat]. unfold execAll. apply bind_err. unfold exec, handleWrite. rewrite bind_modify. cbv beta iota delta [negb].
      apply bind_err. unfold poll. rewrite bind_gets. cbn [ops with_inFlight]. rewrite Ho. reflexivity.
    + destruct (aborted_spec c op l Hd) as (c1 & E & T & Hs1); [rewrite Ho; exact Hs | exact Ho|].
      destruct (IH c1) as (c' & E' & Hr & Ho'); [rewrite (t_done _ _ _ _ T); exact Hd | exact Hs1|].
      exists c'. rewrite (t_ops _ _ _ _ T) in E', Hr, Ho'. split; [|split; [|exact Ho']].
      * cbn [repeat]. unfold execAll; fold execAll. rewrite (bind_ok _ _ _ _ _ E). exact E'.
      * rewrite Hr, (t_resolved _ _ _ _ T), <- app_assoc. cbn. destruct (op_future op); reflexivity.
Qed.

(** The clean-up fails all operations but the last. *)
Lemma cleanUpLoop_spec n c b : (length (ops c) <= n)%nat -> writeBufferSize c = i32 (bytes (ops c)) ->
  exists b' c', cleanUpLoop n b c = (Ok b', c') /\ let k := (length (ops c) - 1)%nat in
    turn c c' (drop k (ops c)) (futures false (take k (ops c))) /\ writeBufferSize c' = i32 (bytes (ops c')).
Proof.
  assert (Hstop : forall c, (length (ops c) <= 1)%nat -> writeBufferSize c = i32 (bytes (ops c)) ->
    let k := (length (ops c) - 1)%nat in turn c c (drop k (ops c)) (futures false (take k (ops c))) /\
    writeBufferSize c = i32 (bytes (ops c))).
  { intros c0 Hl Hs. cbv zeta. replace (length (ops c0) - 1)%nat with 0%nat by lia.
    split; [constructor; rewrite ?app_nil_r; reflexivity | exact Hs]. }
  revert b c. induction n as [|n IH]; intros b c Hn Hs.
  - exists b, c. split; [reflexivity|]. apply Hstop; [lia | exact Hs].
  - unfold cleanUpLoop. fold cleanUpLoop. rewrite bind_gets.
    destruct (Z.of_nat (length (ops c)) >? 1) eqn:E; zbool; [|exists b, c; split; [reflexivity|]; apply Hstop; [lia | exact Hs]].
    destruct (ops c) as [|op l] eqn:Ho; [simpl in E; lia|]. simpl in Hn, E.
    destruct (poll_spec c op l) as (c1 & E1 & T1 & Hs1 & _); [rewrite Ho; exact Hs | exact Ho|].
    rewrite (bind_ok _ _ _ _ _ E1).
    destruct (setFuture_spec false (op_future op) c1) as (c2 & E2 & T2 & Hs2 & _).
    rewrite (bind_ok _ _ _ _ _ E2). rewrite futures_one, (t_ops _ _ _ _ T1) in T2.
    pose proof (turn_trans _ _ _ _ _ _ _ T1 T2) as T.
    destruct (IH true c2) as (b' & c' & E' & T' & Hs'); rewrite ?(t_ops _ _ _ _ T); [lia | congruence|].
    exists b', c'. split; [exact E'|]. split; [|exact Hs']. rewrite (t_ops _ _ _ _ T) in T'.
    pose proof (turn_trans _ _ _ _ _ _ _ T T') as []. destruct l as [|op' l]; [simpl in E; lia|]. cbn in *.
    rewrite !Nat.sub_0_r in *. constructor; try assumption. rewrite t_resolved0. cbn. do 2 f_equal. destruct (op_future op); reflexivity.
Qed.

Lemma cleanUp_spec c : writeBufferSize c = i32 (bytes (ops c)) ->
  exists c', cleanUpWriteBuffer c = (Ok tt, c') /\ let k := (length (ops c) - 1)%nat in
    turn c c' (drop k (ops c)) (futures false (take k (ops c))) /\ writeBufferSize c' = i32 (bytes (ops c')).
Proof.
  intros Hs. unfold cleanUpWriteBuffer. rewrite bind_gets.
  destruct (cleanUpLoop_spec (length (ops c)) c false) as (b & c' & E & T & Hs'); [lia | exact Hs|].
  rewrite (bind_ok _ _ _ _ _ E). destruct b; (eexists; split; [reflexivity|]); [|split; [exact T | exact Hs']].
  split; [|exact Hs']. destruct T; constructor; try assumption.
  unfold resolved in *. simpl. rewrite omap_app, t_resolved0. simpl. rewrite app_nil_r. reflexivity.
Qed.

(** [c] with more told. *)
Definition tell (os : list output) (c : t) : t :=
  MkChannel (state c) (socketOpen c) (closeFutureDone c) (interestOps c) (ops c) (polledOp c) (writeBufferSize c)
    (highWaterMarkCounter c) (isWriting c) (inFlight c) (outputs c ++ os).

Lemma emit_tell o c : emit o c = (Ok tt, tell [o] c).
Proof. reflexivity. Qed.

Lemma emit_if (b : bool) o c : (if b then emit o else ret tt) c = (Ok tt, tell (if b then [o] else []) c).
Proof. destruct b; [reflexivity|]. unfold tell. rewrite app_nil_r. destruct c; reflexivity. Qed.

Lemma resolved_tell os c : resolved (tell os c) = resolved c ++ omap resolution os.
Proof. apply omap_app. Qed.

(** Closing an open channel keeps its last write, or all when the socket throws. *)
Lemma close_spec c : isOpen c = true -> socketOpen c = true -> closeFutureDone c = false ->
  writeBufferSize c = i32 (bytes (ops c)) ->
  exists c', close c = (Ok tt, c') /\ isOpen c' = false /\ closeFutureDone c' = true /\
    let k := if closeThrows then 0%nat else (length (ops c) - 1)%nat in
    ops c' = drop k (ops c) /\ resolved c' = resolved c ++ futures false (take k (ops c)) /\
    writeBufferSize c' = i32 (bytes (ops c')).
Proof.
  intros Ho Hso Hd Hs. unfold close. rewrite bind_gets. unfold id. rewrite Hd. unfold closeWith. rewrite bind_gets.
  unfold id. cbv zeta. rewrite Ho, Hso. cbn [negb orb].
  assert (Hset : forall c0, closeFutureDone c0 = false ->
    setClosed c0 = (Ok true, tell [CloseFutureSet] (with_closeFutureDone true (with_state ST_CHANNEL_CLOSED c0)))).
  { intros c0 H0. unfold setClosed. rewrite bind_modify, bind_gets. unfold id. cbn [closeFutureDone with_state].
    rewrite H0. reflexivity. }
  destruct closeThrows.
  - rewrite (bind_ok _ _ _ _ _ (Hset c Hd)). cbn [setFuture]. rewrite bind_ret_l, emit_tell.
    eexists. split; [reflexivity|]. rewrite !resolved_tell. simpl. rewrite !app_nil_r. auto.
  - rewrite bind_modify, (bind_ok _ _ _ _ _ (Hset (with_socketOpen false c) Hd)). cbn [setFuture]. rewrite bind_ret_l.
    cbv iota. rewrite (bind_ok _ _ _ _ _ (emit_if _ _ _)), (bind_ok _ _ _ _ _ (emit_if _ _ _)).
    set (c1 := tell _ _). destruct (cleanUp_spec c1 Hs) as (c2 & E & T & Hs2). rewrite (bind_ok _ _ _ _ _ E), emit_tell.
    eexists. split; [reflexivity|]. rewrite resolved_tell, (t_resolved _ _ _ _ T). simpl. rewrite app_nil_r.
    split; [unfold isOpen; simpl; rewrite (t_state _ _ _ _ T); reflexivity|].
    split; [rewrite (t_done _ _ _ _ T); reflexivity|]. split; [exact (t_ops _ _ _ _ T)|]. split; [|exact Hs2].
    f_equal. unfold c1. rewrite !resolved_tell.
    destruct (isConnected c), (isBound c); simpl; rewrite !app_nil_r; reflexivity.
Qed.

(** C19: Closing a channel while writes are outstanding.  asio calls the handler of
    each with an error; the clean-up has failed all writes but the last before, so
    that the first call takes the last write and, when there was another, the
    second finds no operation in the queue and takes one nonetheless, which has no
    meaning.  With at most one write outstanding, or when the socket cannot be
    closed, all writes are failed in order. *)
Theorem outstanding_writes_when_closed c : isOpen c = true -> socketOpen c = true -> closeFutureDone c = false -> wf c ->
  exists c', execAll (Close :: repeat (Completed true) (length (ops c))) c =
      (if closeThrows || (length (ops c) <=? 1)%nat then Ok tt else Err Undefined, c') /\
    resolved c' = resolved c ++ futures false (ops c) /\ ops c' = [].
Proof.
  intros Ho Hso Hd [Hs _]. destruct (close_spec c Ho Hso Hd Hs) as (c1 & E & _ & Hd1 & Ho1 & Hr1 & Hs1).
  destruct (aborted_all (length (ops c)) c1 Hd1 Hs1) as (c' & E' & Hr & Ho'). exists c'.
  cbv zeta in Ho1, Hr1. rewrite Ho1 in E', Hr, Ho'. rewrite length_drop in E'. split; [|split].
  - unfold execAll; fold execAll. change (exec Close c) with (close c). rewrite (bind_ok _ _ _ _ _ E). etransitivity; [exact E'|].
    f_equal. destruct closeThrows; cbn [orb].
    + rewrite Nat.sub_0_r, Nat.leb_refl. reflexivity.
    + destruct (length (ops c)) as [|[|n]]; [reflexivity | reflexivity|]. match goal with |- (if ?b then _ else _) = _ => replace b with false by (symmetry; apply Nat.leb_gt; simpl; lia) end. reflexivity.
  - rewrite Hr, Hr1, <- app_assoc, <- futures_app. do 2 f_equal. rewrite (take_ge (drop _ _)) by (rewrite length_drop; lia). apply take_drop.
  - rewrite Ho'. rewrite drop_drop. apply drop_ge. lia.
Qed.
End Channel.

(** ** Runs *)

(** A channel that was connected, with the marks that the configuration defines. *)
Definition connected : t := snd (handleConnect None new).
Definition LOW : Z := 2 * 1024.
Definition HIGH : Z := 2 * 1024 * 1024.
Definition run (ps : list call) : result unit * t := execAll LOW HIGH false 0 ps connected.
Definition writable (ps : list call) : bool := isWritable LOW HIGH (snd (run ps)).

Lemma connected_wf : wf connected.
Proof. split; reflexivity. Qed.

Lemma connected_hysteresis : hysteresis LOW HIGH false connected.
Proof. split; try reflexivity; try constructor. discriminate. Qed.

Definition three_writes : list call :=
  [Write 1500000 (Some 1%positive); Write 1000000 (Some 2%positive); Completed false; Write 10 None; Completed false; Completed false].

Lemma writes_told_in_order_witness : resolved (snd (run three_writes)) = [(1%positive, true); (2%positive, true)].
Proof.
  destruct (writes_told_in_order LOW HIGH false 0 connected three_writes connected_wf eq_refl eq_refl) as (c' & E & _ & _ & _ & Hr).
  unfold run. rewrite E. exact Hr.
Defined.

Lemma water_marks_in_turn_witness :
  writable (take 3 three_writes) = false /\ announcements (snd (run three_writes)) = [false; true].
Proof.
  split; [unfold writable|]; unfold run.
  - destruct (water_marks_in_turn LOW HIGH false 0 false connected (take 3 three_writes) ltac:(unfold LOW, HIGH; lia)
      connected_wf eq_refl connected_hysteresis eq_refl eq_refl) as (c' & E & H & _). rewrite E. exact H.
  - destruct (water_marks_in_turn LOW HIGH false 0 false connected three_writes ltac:(unfold LOW, HIGH; lia)
      connected_wf eq_refl connected_hysteresis eq_refl eq_refl) as (c' & E & _ & H). rewrite E. exact H.
Defined.

(** Two writes outstanding. *)
Definition two : t := snd (run [Write 10 (Some 1%positive); Write 20 (Some 2%positive)]).

Lemma two_wf : wf two.
Proof. split; vm_compute; reflexivity. Qed.

Lemma outstanding_writes_when_closed_witness :
  fst (execAll LOW HIGH false 0 [Close; Completed true; Completed true] two) = Err Undefined.
Proof.
  destruct (outstanding_writes_when_closed LOW HIGH false 0 two eq_refl eq_refl eq_refl two_wf) as (c' & E & _).
  change (fst (execAll LOW HIGH false 0 (Close :: repeat (Completed true) (length (ops two))) two) = Err Undefined).
  rewrite E. reflexivity.
Defined.

(** A burst that stays below the high mark takes the counter below zero, and the
    next congestion ends at the high mark instead of the low mark. *)
Definition burst : list call := [Write 4000 None; Completed false; Write 2000000 None; Write 200000 None; Completed false].

Example counter_drifts_down :
  highWaterMarkCounter (snd (run (take 2 burst))) = -1 /\
  all_in_turn LOW HIGH [] false burst = false /\ congestions LOW HIGH [] false burst = [false; false; false; true; true] /\
  writable burst = true.
Proof. vm_compute. auto. Qed.

(** Bytes that fall below the high mark and reach it again are counted twice, and
    later the channel cannot be written although it has less than the high mark. *)
Definition wave : list call :=
  [Write 1500000 None; Write 1500000 None; Completed false; Write 1500000 None; Completed false; Completed false; Write 1500000 None].

Example counter_drifts_up :
  map (fun n => highWaterMarkCounter (snd (run (take n wave)))) [2; 4; 6]%nat = [1; 2; 1] /\
  List.last (congestions LOW HIGH [] false wave) true = false /\
  bytes (ops (snd (run wave))) = 1500000 /\ writable wave = false.
Proof. vm_compute. auto. Qed.
