(* ===== verification/SocketPrograms.v ===== *)
(** * A socket channel that answers through its pipeline

    The functions of [AsioSocketChannel] and of its write queue, as programs: what
    they do to the world is a sequence of [action]s, between which they read and
    write their members, so that the handlers that an action calls can call them
    again.  When nobody does, the programs are the functions of [SocketChannel]
    ([follow]). *)

From S2P Require Import Prelude MachineInt Pipeline SocketChannel.
Import DefaultChannelPipeline (prog, Returns, Throws, Sends, Reads, Writes, andThen, asks, updates, tryCatch, ofResult).

Module SocketPrograms.
Import AsioSocketChannel.

(** What a function does to others: a future is completed, an event is fired, and
    [close()] is requested through the pipeline. *)
Inductive action :=
  | SetFuture (future : positive) (success : bool)
  | SetCloseFuture
  | FireWriteCompletion (bytes : Z)
  | FireInterestChanged (interestOps : Z)
  | FireExceptionCaught (cause : error)
  | FireConnected
  | FireDisconnected
  | FireUnbound
  | FireClosed
  | RequestClose.

Abbreviation program R := (prog action t R).

Section Programs.
Context (lowWaterMark highWaterMark : Z) (closeThrows : bool) (uninitialised : Z).

Definition does (a : action) : program unit := Sends a (Returns tt).

(** ** The write queue *)

Definition fireInterestChanged : program unit :=
  let+ n := asks (getInterestOps lowWaterMark highWaterMark) in does (FireInterestChanged n).

Definition handleAtHighWaterMark : program unit :=
  updates (fun c => with_highWaterMarkCounter (highWaterMarkCounter c + 1) c) ;+
  fireInterestChanged.

Definition handleAtLowWaterMark : program unit :=
  updates (fun c => with_highWaterMarkCounter (highWaterMarkCounter c - 1) c) ;+
  let+ connected := asks isConnected in
  if connected : bool then fireInterestChanged else Returns tt.

Definition plusWriteBufferSize (messageSize : Z) : program unit :=
  updates (fun c => with_writeBufferSize (i32 (writeBufferSize c + messageSize)) c) ;+
  let+ size := asks writeBufferSize in
  if size >=? highWaterMark then
    if i32 (size - messageSize) <? highWaterMark then handleAtHighWaterMark else Returns tt
  else Returns tt.

Definition minusWriteBufferSize (messageSize : Z) : program unit :=
  updates (fun c => with_writeBufferSize (i32 (writeBufferSize c - messageSize)) c) ;+
  let+ size := asks writeBufferSize in
  if (size =? 0) || (size <? lowWaterMark) then
    if i32 (size + messageSize) >=? lowWaterMark then handleAtLowWaterMark else Returns tt
  else Returns tt.

Definition offer (size : Z) (future : option positive) : program unit :=
  updates (fun c => with_ops (ops c ++ [MkOperation size future]) c) ;+
  plusWriteBufferSize size.

(** The answer is read from the member: a handler that hears that the low mark was passed
    may have polled in the meantime. *)
Definition poll : program operation :=
  let+ l := asks ops in
  match l with
  | [] => Throws Undefined
  | op :: l =>
      updates (with_polledOp op) ;+
      updates (with_ops l) ;+
      minusWriteBufferSize (op_writeBufferSize op) ;+
      asks polledOp
  end.

Definition setFuture (success : bool) (future : option positive) : program unit :=
  match future with
  | Some f => does (SetFuture f success)
  | None => Returns tt
  end.

(** ** Writing and closing *)

(** A turn takes an operation: the queue bounds the turns, as nobody offers to it
    while it is cleaned up - a channel that is not connected does not write. *)
Fixpoint cleanUpLoop (n : nat) (fireExceptionCaught : bool) : program bool :=
  match n with
  | O => Returns fireExceptionCaught
  | S n =>
      let+ l := asks ops in
      if Z.of_nat (List.length l) >? 1 then
        let+ polled := poll in
        setFuture false (op_future polled) ;+
        cleanUpLoop n true
      else Returns fireExceptionCaught
  end.

Definition cleanUpWriteBuffer : program unit :=
  let+ l := asks ops in
  let+ fireExceptionCaught := cleanUpLoop (List.length l) false in
  if fireExceptionCaught : bool then does (FireExceptionCaught ChannelException) else Returns tt.

Definition write (message : option Z) (future : option positive) : program unit :=
  let+ connected := asks isConnected in
  if negb connected then
    cleanUpWriteBuffer ;+
    setFuture false future
  else
    updates (with_isWriting true) ;+
    let size := match message with Some n => n | None => uninitialised end in
    offer size future ;+
    updates (fun c => with_inFlight (S (inFlight c)) c).

Definition setClosed : program bool :=
  updates (with_state ST_CHANNEL_CLOSED) ;+
  let+ done := asks closeFutureDone in
  if done : bool then Returns false
  else
    updates (with_closeFutureDone true) ;+
    does SetCloseFuture ;+
    Returns true.

(** [close(future)]: [None] is the close future. *)
Definition closeWith (future : option positive) : program unit :=
  let+ connected := asks isConnected in
  let+ bound := asks isBound in
  let+ skip := asks (fun c => negb (isOpen c) || negb (socketOpen c)) in
  if skip : bool then Returns tt
  else if closeThrows then
    let+ _ := setClosed in
    setFuture false future ;+
    does (FireExceptionCaught IOException)
  else
    updates (with_socketOpen false) ;+
    let+ wasOpen := setClosed in
    setFuture true future ;+
    if wasOpen : bool then
      (if connected then does FireDisconnected else Returns tt) ;+
      (if bound then does FireUnbound else Returns tt) ;+
      cleanUpWriteBuffer ;+
      does FireClosed
    else Returns tt.

Definition handleWrite (error : bool) (bytes : Z) : program unit :=
  updates (fun c => with_inFlight (pred (inFlight c)) c) ;+
  if negb error then
    let+ polled := poll in
    setFuture true (op_future polled) ;+
    does (FireWriteCompletion bytes) ;+
    let+ l := asks ops in
    match l with
    | [] => updates (with_isWriting false)
    | _ => Returns tt
    end
  else
    (let+ polled := poll in setFuture false (op_future polled)) ;+
    does RequestClose.

(** [handleConnect] without an error. *)
Definition connected (future : positive) : program unit :=
  updates (fun c => if negb (state c =? ST_CHANNEL_CLOSED) then with_state ST_CHANNEL_CONNECTED c else c) ;+
  does FireConnected ;+
  does (SetFuture future true).

Definition setInterestOps (future : positive) (ops : Z) : program unit :=
  let+ isOrgReadable := asks (isReadable lowWaterMark highWaterMark) in
  let+ raw := asks interestOps in
  let ops := Z.lor (clearWrite ops) (Z.land raw OP_WRITE) in
  updates (with_interestOps ops) ;+
  let+ isNowReadable := asks (isReadable lowWaterMark highWaterMark) in
  let changed := negb (Bool.eqb isOrgReadable isNowReadable) in
  does (SetFuture future true) ;+
  if changed then does (FireInterestChanged ops) else Returns tt.

(** ** When nobody answers

    An action is an output of [SocketChannel], and a request to close comes back
    at once.  The programs do not see the outputs. *)
Definition with_outputs l c := MkChannel (state c) (socketOpen c) (closeFutureDone c) (interestOps c) (ops c) (polledOp c)
  (writeBufferSize c) (highWaterMarkCounter c) (isWriting c) (inFlight c) l.
Definition clear : t -> t := with_outputs [].

Definition logged (a : action) : M t unit :=
  match a with
  | SetFuture f success => emit (FutureSet f success)
  | SetCloseFuture => emit CloseFutureSet
  | FireWriteCompletion _ => emit WriteCompletion
  | FireInterestChanged n => emit (InterestChanged n)
  | FireExceptionCaught _ => emit ExceptionCaught
  | FireConnected => emit ChannelConnected
  | FireDisconnected => emit ChannelDisconnected
  | FireUnbound => emit ChannelUnbound
  | FireClosed => emit ChannelClosed
  | RequestClose => AsioSocketChannel.close lowWaterMark highWaterMark closeThrows
  end.

Fixpoint follow {R} (h : program R) : M t R :=
  match h with
  | Returns r => ret r
  | Throws x => throw x
  | Sends a h => logged a ;! follow h
  | Reads f => let! c := gets clear in follow (f c)
  | Writes c h => modify (fun d => with_outputs (outputs d) c) ;! follow h
  end.

Lemma follow_andThen {R R'} (h : program R) (k : R -> program R') c :
  follow (andThen h k) c = (let! r := follow h in follow (k r)) c.
Proof.
  revert c. induction h as [r|x|a h IH|f IH|c' h IH]; intros c; try reflexivity.
  - cbn [andThen follow]. rewrite bind_assoc. apply bind_ext. intros [] c'. apply IH.
  - cbn [andThen follow]. rewrite bind_assoc. apply bind_ext. intros c' c''. apply IH.
  - cbn [andThen follow]. rewrite bind_assoc. apply bind_ext. intros [] c''. apply IH.
Qed.

Lemma follow_asks {A R} (f : t -> A) (k : A -> program R) c : f (clear c) = f c ->
  follow (andThen (asks f) k) c = follow (k (f c)) c.
Proof. intros Hf. change (follow (k (f (clear c))) c = follow (k (f c)) c). rewrite Hf. reflexivity. Qed.
Lemma follow_updates {R} (f : t -> t) (k : program R) c : with_outputs (outputs c) (f (clear c)) = f c ->
  follow (andThen (updates f) (fun _ => k)) c = follow k (f c).
Proof. intros Hf. change (follow k (with_outputs (outputs c) (f (clear c))) = follow k (f c)). rewrite Hf. reflexivity. Qed.
Lemma follow_update (f : t -> t) c : with_outputs (outputs c) (f (clear c)) = f c -> follow (updates f) c = modify f c.
Proof. intros Hf. change ((Ok tt, with_outputs (outputs c) (f (clear c))) = (Ok tt, f c)). rewrite Hf. reflexivity. Qed.
Lemma follow_does a c : follow (does a) c = logged a c.
Proof. unfold does. cbn [follow]. unfold bind, ret. destruct (logged a c) as [[[]|x] c']; reflexivity. Qed.
Lemma follow_then {R R'} (h : program R) (m : M t R) (k : R -> program R') (n : R -> M t R') c :
  (forall c, follow h c = m c) -> (forall r c, follow (k r) c = n r c) -> follow (andThen h k) c = bind m n c.
Proof. intros Hm Hn. rewrite follow_andThen, (bind_ext_l _ m) by apply Hm. apply bind_ext. intros r c'. apply Hn. Qed.

Lemma follow_interest c : follow fireInterestChanged c = AsioSocketChannel.fireInterestChanged lowWaterMark highWaterMark c.
Proof. unfold fireInterestChanged. rewrite follow_asks by reflexivity. apply follow_does. Qed.

Lemma follow_high c : follow handleAtHighWaterMark c = AsioSocketChannel.handleAtHighWaterMark lowWaterMark highWaterMark c.
Proof. unfold handleAtHighWaterMark. rewrite follow_updates by reflexivity. apply follow_interest. Qed.

Lemma follow_low c : follow handleAtLowWaterMark c = AsioSocketChannel.handleAtLowWaterMark lowWaterMark highWaterMark c.
Proof.
  unfold handleAtLowWaterMark, AsioSocketChannel.handleAtLowWaterMark. rewrite follow_updates, follow_asks, bind_modify, bind_gets by reflexivity.
  unfold id. destruct (isConnected _); [apply follow_interest | reflexivity].
Qed.

Lemma follow_plus n c : follow (plusWriteBufferSize n) c = AsioSocketChannel.plusWriteBufferSize lowWaterMark highWaterMark n c.
Proof.
  unfold plusWriteBufferSize, AsioSocketChannel.plusWriteBufferSize. rewrite follow_updates, follow_asks, bind_modify, bind_gets by reflexivity.
  destruct (_ >=? highWaterMark); [|reflexivity]. destruct (_ <? highWaterMark); [apply follow_high | reflexivity].
Qed.

Lemma follow_minus n c : follow (minusWriteBufferSize n) c = AsioSocketChannel.minusWriteBufferSize lowWaterMark highWaterMark n c.
Proof.
  unfold minusWriteBufferSize, AsioSocketChannel.minusWriteBufferSize. rewrite follow_updates, follow_asks, bind_modify, bind_gets by reflexivity.
  destruct (_ || _); [|reflexivity]. destruct (_ >=? lowWaterMark); [apply follow_low | reflexivity].
Qed.

Lemma follow_offer n f c : follow (offer n f) c = AsioSocketChannel.offer lowWaterMark highWaterMark n f c.
Proof. unfold offer. rewrite follow_updates by reflexivity. apply follow_plus. Qed.

Lemma follow_poll c : follow poll c = AsioSocketChannel.poll lowWaterMark highWaterMark c.
Proof.
  unfold poll, AsioSocketChannel.poll. rewrite follow_asks, bind_gets by reflexivity. destruct (ops c) as [|o l]; [reflexivity|].
  rewrite !follow_updates, !bind_modify by reflexivity. apply follow_then; [apply follow_minus | reflexivity].
Qed.

Lemma follow_setFuture success f c : follow (setFuture success f) c = AsioSocketChannel.setFuture success f c.
Proof. destruct f; [apply follow_does | reflexivity]. Qed.

Lemma follow_cleanUpLoop n b c : follow (cleanUpLoop n b) c = AsioSocketChannel.cleanUpLoop lowWaterMark highWaterMark n b c.
Proof.
  revert b c. induction n as [|n IH]; intros b c; [reflexivity|]. cbn [cleanUpLoop AsioSocketChannel.cleanUpLoop].
  rewrite follow_asks, bind_gets by reflexivity. destruct (_ >? 1); [|reflexivity].
  apply follow_then; [apply follow_poll|]. intros o c'. apply follow_then; [intros; apply follow_setFuture | intros _; apply IH].
Qed.

Lemma follow_cleanUp c : follow cleanUpWriteBuffer c = AsioSocketChannel.cleanUpWriteBuffer lowWaterMark highWaterMark c.
Proof.
  unfold cleanUpWriteBuffer, AsioSocketChannel.cleanUpWriteBuffer. rewrite follow_asks, bind_gets by reflexivity.
  apply follow_then; [apply follow_cleanUpLoop|]. intros [] c'; [apply follow_does | reflexivity].
Qed.

Lemma follow_write message f c :
  follow (write message f) c = AsioSocketChannel.write lowWaterMark highWaterMark uninitialised message f c.
Proof.
  unfold write, AsioSocketChannel.write. rewrite follow_asks, bind_gets by reflexivity. unfold id. destruct (negb (isConnected c)).
  - apply follow_then; [apply follow_cleanUp | intros _; apply follow_setFuture].
  - rewrite follow_updates, bind_modify by reflexivity. apply follow_then; [apply follow_offer | reflexivity].
Qed.

Lemma follow_setClosed c : follow setClosed c = AsioSocketChannel.setClosed c.
Proof.
  unfold setClosed, AsioSocketChannel.setClosed. rewrite follow_updates, follow_asks, bind_modify, bind_gets by reflexivity. unfold id.
  destruct (closeFutureDone _); [reflexivity|]. rewrite follow_updates, bind_modify by reflexivity.
  apply follow_then; [intros; apply follow_does | reflexivity].
Qed.

Lemma follow_if (b : bool) a c : follow (if b then does a else Returns tt) c = (if b then logged a else ret tt) c.
Proof. destruct b; [apply follow_does | reflexivity]. Qed.

Lemma follow_close f c : follow (closeWith f) c = AsioSocketChannel.closeWith lowWaterMark highWaterMark closeThrows f c.
Proof.
  unfold closeWith, AsioSocketChannel.closeWith. rewrite !follow_asks, bind_gets by reflexivity. unfold id.
  destruct (_ || _); [reflexivity|]. destruct closeThrows.
  - apply follow_then; [apply follow_setClosed|]. intros _ c'.
    apply follow_then; [apply follow_setFuture | intros _ c2; apply follow_does].
  - rewrite follow_updates, bind_modify by reflexivity. apply follow_then; [apply follow_setClosed|]. intros wasOpen c'.
    apply follow_then; [apply follow_setFuture|]. intros _ c2. destruct wasOpen; [|reflexivity].
    apply follow_then; [apply follow_if|]. intros _ c3. apply follow_then; [apply follow_if|]. intros _ c4.
    apply follow_then; [apply follow_cleanUp | intros _ c5; apply follow_does].
Qed.

Lemma follow_handleWrite error bytes c :
  follow (handleWrite error bytes) c = AsioSocketChannel.handleWrite lowWaterMark highWaterMark closeThrows error c.
Proof.
  unfold handleWrite, AsioSocketChannel.handleWrite. rewrite follow_updates, bind_modify by reflexivity. destruct (negb error).
  - apply follow_then; [apply follow_poll|]. intros o c'. apply follow_then; [apply follow_setFuture|]. intros _ c2.
    apply follow_then; [intros; apply follow_does|]. intros _ c3. rewrite follow_asks, bind_gets by reflexivity. destruct (ops c3); reflexivity.
  - rewrite <- bind_assoc. apply follow_then; [|intros _ c'; apply follow_does].
    intros c'. apply follow_then; [apply follow_poll | intros o c2; apply follow_setFuture].
Qed.

Lemma follow_connected f c : follow (connected f) c = AsioSocketChannel.handleConnect (Some f) c.
Proof.
  unfold connected, AsioSocketChannel.handleConnect.
  rewrite follow_updates, bind_modify by (destruct c; cbn; destruct (negb _); reflexivity).
  apply follow_then; [intros; apply follow_does | intros _ c'; apply follow_does].
Qed.

Lemma follow_setInterestOps f ops c :
  follow (setInterestOps f ops) c = AsioSocketChannel.setInterestOpsWith lowWaterMark highWaterMark (Some f) ops c.
Proof.
  unfold setInterestOps, AsioSocketChannel.setInterestOpsWith. rewrite !follow_asks, bind_gets by reflexivity. unfold id.
  rewrite follow_updates, bind_modify, follow_asks, bind_gets by reflexivity. unfold id.
  apply follow_then; [intros; apply follow_does | intros _ c'; apply follow_if].
Qed.
End Programs.
End SocketPrograms.
