(* ===== verification/Gathering.v ===== *)
(** * What a socket is given of a buffer

    [readSlice(Array&)] and [readSlice(GatheringBuffer&)] of the buffer classes
    ([src/src/cetty/buffer], [src/include/cetty/buffer]), which hand the memory of
    the readable bytes to the socket and take them as read, with the
    [AsioGatheringBuffer] and the [AsioWriteRequest] of
    [src/src/cetty/channel/socket/asio/AsioWriteRequestQueue.h].  A block of memory
    is the bytes that it holds. *)

From S2P Require Import Prelude MachineInt Buffer AbstractBuffer MixedBuffer HeapBuffer DynamicBuffer DerivedBuffers CompositeBuffer.
Import AbstractChannelBuffer (readerIndex, writerIndex, upd).

(** ** AsioGatheringBuffer *)

Module AsioGatheringBuffer.

Definition MAX_BUFFER_COUNT : Z := 8.

(** [byteSize], and the [TruncatableArray] with its elements. *)
Record t := MkGathering {
  byteSize : Z;
  truncatedIndex : Z;
  elems : list (list Z);
}.

Definition with_byteSize (n : Z) (g : t) : t := MkGathering n (truncatedIndex g) (elems g).
Definition with_truncatedIndex (n : Z) (g : t) : t := MkGathering (byteSize g) n (elems g).

(** The default constructors: [truncatedIndex] is one, the elements are empty. *)
Definition new : t := MkGathering 0 1 (repeat [] (Z.to_nat MAX_BUFFER_COUNT)).

Definition empty (g : t) : bool := truncatedIndex g =? 0.
Definition blockCount (g : t) : Z := truncatedIndex g.

(** The elements up to [end()]. *)
Definition blocks (g : t) : list (list Z) := take (Z.to_nat (truncatedIndex g)) (elems g).

Definition bytesCount : M t Z :=
  let! g := gets id in
  (if byteSize g =? 0
   then modify (with_byteSize (fold_left (fun n block => i32 (n + zlen block)) (blocks g) (byteSize g)))
   else ret tt) ;!
  gets byteSize.

Definition clear : M t unit := modify (fun g => MkGathering 0 0 (elems g)).

Definition append (data : list Z) : M t unit :=
  let! g := gets id in
  throw_if (negb (truncatedIndex g <? MAX_BUFFER_COUNT)) Undefined ;!
  modify (fun g => MkGathering (i32 (byteSize g + zlen data)) (truncatedIndex g + 1)
    (<[Z.to_nat (truncatedIndex g) := data]> (elems g))).

Definition at_index (g : t) (index : Z) : result (list Z * Z) :=
  if (index >=? 0) && (index <? MAX_BUFFER_COUNT) then
    match elems g !! Z.to_nat index with
    | Some block => Ok (block, i32 (zlen block))
    | None => Err Undefined
    end
  else Err Undefined.

End AsioGatheringBuffer.

(** ** The views of the buffer classes *)

(** [hasArray()], [array()] and the two [readSlice]s: that into an [Array] is given
    the [Array] as it was before, which a class may leave as it is. *)
Class Gatherable (B : Type) := {
  hasArray : B -> bool;
  array : B -> result (list Z);
  readSliceArray : list Z -> M B (list Z);
  readSliceGathering : M (AsioGatheringBuffer.t * B) unit;
}.

Definition on_gathering {B A} (m : M AsioGatheringBuffer.t A) : M (AsioGatheringBuffer.t * B) A :=
  zoom fst (fun g s => (g, snd s)) m.
Definition on_buffer {B A} (m : M B A) : M (AsioGatheringBuffer.t * B) A := zoom snd (fun b s => (fst s, b)) m.

Section Region.
Context {B : Type} {RB : RawBuffer B}.

(** [array.data(readerIdx)] and [writerIdx - readerIdx]: the bytes behind the
    pointer; they are read, so that they have to be inside the array. *)
Definition region (a : list Z) (b : B) : result (list Z) :=
  let? p := Array.data_at (Array.Data a) (readerIndex b) in
  let n := i32 (writerIndex b - readerIndex b) in
  if (n <? 0) || (p + n >? zlen a) then Err Undefined else Ok (zsub a p n).

(** [readerIdx = writerIdx = 0]. *)
Definition consumeAll : M B unit := upd (fun i => with_readerIdx 0 (with_writerIdx 0 i)).

(** [array.reset(a.data(readerIdx), writerIdx - readerIdx); readerIdx = writerIdx = 0]. *)
Definition sliceOf (a : B -> result (list Z)) : M B (list Z) :=
  let! r := reads (fun b => let? a := a b in region a b) in
  consumeAll ;!
  ret r.
End Region.

(** [HeapChannelBuffer.cpp]. *)
#[global] Instance HeapGatherable : Gatherable HeapChannelBuffer.t := {|
  hasArray _ := true;
  array h := Ok (Array.bytes (HeapChannelBuffer.arry h));
  readSliceArray _ := sliceOf (fun h => Ok (Array.bytes (HeapChannelBuffer.arry h)));
  readSliceGathering :=
    let! block := on_buffer (reads (fun h => region (Array.bytes (HeapChannelBuffer.arry h)) h)) in
    on_gathering (AsioGatheringBuffer.append block) ;!
    on_buffer consumeAll;
|}.

Section Wrapping.
Context {B : Type} {RB : RawBuffer B} {G : Gatherable B}.

(** [DynamicChannelBuffer.h] and [.cpp]. *)
#[global] Instance DynamicGatherable : Gatherable (DynamicChannelBuffer.t B) := {|
  hasArray d := hasArray (DynamicChannelBuffer.buffer d);
  array d := array (DynamicChannelBuffer.buffer d);
  readSliceArray _ := sliceOf (fun d => array (DynamicChannelBuffer.buffer d));
  readSliceGathering := ret tt;
|}.

(** [TruncatedChannelBuffer.h] and [.cpp]. *)
#[global] Instance TruncatedGatherable : Gatherable (TruncatedChannelBuffer.t B) := {|
  hasArray s := hasArray (buffer (TruncatedChannelBuffer.v s));
  array s := array (buffer (TruncatedChannelBuffer.v s));
  readSliceArray _ := sliceOf (fun s => array (buffer (TruncatedChannelBuffer.v s)));
  readSliceGathering := ret tt;
|}.

(** [DuplicatedChannelBuffer.h]. *)
#[global] Instance DuplicatedGatherable : Gatherable (DuplicatedChannelBuffer.t B) := {|
  hasArray s := hasArray (DuplicatedChannelBuffer.parent s);
  array s := array (DuplicatedChannelBuffer.parent s);
  readSliceArray _ := sliceOf (fun s => array (DuplicatedChannelBuffer.parent s));
  readSliceGathering := ret tt;
|}.

(** [SlicedChannelBuffer.h]: both [readSlice]s are empty. *)
#[global] Instance SlicedGatherable : Gatherable (SlicedChannelBuffer.t B) := {|
  hasArray s := hasArray (buffer (SlicedChannelBuffer.v s));
  array s := array (buffer (SlicedChannelBuffer.v s));
  readSliceArray arry := ret arry;
  readSliceGathering := ret tt;
|}.

(** [ReadOnlyChannelBuffer.h]. *)
#[global] Instance ReadOnlyGatherable : Gatherable (ReadOnlyChannelBuffer.t B) := {|
  hasArray _ := false;
  array _ := Err ReadOnlyBufferException;
  readSliceArray arry := ret arry;
  readSliceGathering := ret tt;
|}.

(** [CompositeChannelBuffer.cpp]: the [Array] of the loop is the same for all
    components. *)
Fixpoint gatherLoop (n : nat) (i : Z) (arry : list Z) : M (AsioGatheringBuffer.t * CompositeChannelBuffer.t B) unit :=
  match n with
  | O => ret tt
  | S n =>
      let! readable := on_buffer (CompositeChannelBuffer.ask i (fun c => Ok (AbstractChannelBuffer.readable c))) in
      if readable : bool then
        let! arry := on_buffer (CompositeChannelBuffer.on_component i (readSliceArray arry)) in
        on_gathering (AsioGatheringBuffer.append arry) ;!
        gatherLoop n (i + 1) arry
      else gatherLoop n (i + 1) arry
  end.

#[global] Instance CompositeGatherable : Gatherable (CompositeChannelBuffer.t B) := {|
  hasArray _ := false;
  array _ := Err UnsupportedOperationException;
  readSliceArray arry := ret arry;
  readSliceGathering :=
    let! s := on_buffer (gets id) in
    gatherLoop (Z.to_nat (CompositeChannelBuffer.size s)) 0 [];
|}.
End Wrapping.

(** A buffer of one of two classes. *)
Section Mixed.
Context {A B : Type} {GA : Gatherable A} {GB : Gatherable B}.

#[global] Instance MixedGatherable : Gatherable (A + B) := {|
  hasArray := either hasArray hasArray;
  array := either array array;
  readSliceArray arry := on_either (readSliceArray arry) (readSliceArray arry);
  readSliceGathering := fun '(g, s) =>
    match s with
    | inl a => let '(r, (g, a)) := readSliceGathering (g, a) in (r, (g, inl a))
    | inr b => let '(r, (g, b)) := readSliceGathering (g, b) in (r, (g, inr b))
    end;
|}.
End Mixed.

(** ** AsioWriteRequest *)

Module AsioWriteRequest.

(** [writeBufferSize] is not set by the constructor of a message that is no
    buffer. *)
Record t := MkRequest {
  buffer : list Z;
  gathring : AsioGatheringBuffer.t;
  writeBufferSize : option Z;
}.

Definition newOther : t := MkRequest [] AsioGatheringBuffer.new None.

Section Request.
Context {B : Type} {G : Gatherable B}.

(** [AsioWriteRequest(evt)] for a message that is a buffer. *)
Definition new : M B t :=
  let! array := gets hasArray in
  if array : bool then
    let! a := readSliceArray [] in
    ret (MkRequest a (AsioGatheringBuffer.with_truncatedIndex 0 AsioGatheringBuffer.new) (Some (zlen a)))
  else fun b =>
    let '(r, (g, b)) := (readSliceGathering ;! on_gathering AsioGatheringBuffer.bytesCount) (AsioGatheringBuffer.new, b) in
    (let? n := r in
     if AsioGatheringBuffer.truncatedIndex g =? 1 then
       let? block := CompositeChannelBuffer.element (AsioGatheringBuffer.elems g) 0 in
       Ok (MkRequest block (AsioGatheringBuffer.with_truncatedIndex 0 g) (Some n))
     else Ok (MkRequest [] g (Some n)), b).
End Request.

Definition hasBuffers (r : t) : bool := AsioGatheringBuffer.truncatedIndex (gathring r) >? 0.

(** The bytes that [AsioSocketChannel::write] gives to the socket: none when the
    size is zero; a size that was not set is whatever the memory held. *)
Definition sent (uninitialised : Z) (r : t) : list Z :=
  let size := match writeBufferSize r with Some n => n | None => uninitialised end in
  if size =? 0 then []
  else if hasBuffers r then concat (AsioGatheringBuffer.blocks (gathring r))
  else buffer r.

End AsioWriteRequest.
