(* ===== verification/GatheringProperties.v ===== *)
(** * What of a buffer a socket is given

    The request of a buffer over an array gives the readable bytes to the socket and
    takes them, or throws when the reader index stands at the end of the array; that of
    a slice gives nothing.  The request of a composite buffer, whose components may be
    of several classes, gives what its components give, for up to seven readable
    components; one that gives nothing repeats what the one before it gave. *)

From S2P Require Import Prelude MachineInt Buffer AbstractBuffer BufferTheory MixedBuffer HeapBuffer DynamicBuffer.
From S2P Require Import DerivedBuffers CompositeBuffer CompositeProperties Gathering.
Import AbstractChannelBuffer (readerIndex, writerIndex).

(** ** What the classes promise *)

(** [array()] of a buffer with an array starts with the bytes of the buffer. *)
Class ArraySpec (B : Type) `{RS : ReadSpec B} {G : Gatherable B} := {
  array_law b : valid b -> hasArray b = true ->
    exists rest, array b = Ok (content b ++ rest) /\ zlen (content b ++ rest) <= INT_MAX;
}.

(** [Array::data(int)] points to the reader index: it refuses the end of the array, other
    than that of an empty one. *)
Definition pointable {B} {RB : RawBuffer B} {G : Gatherable B} (b : B) : bool :=
  (readerIndex b =? 0) || match array b with Ok a => readerIndex b <? zlen a | Err _ => false end.

(** [readSlice(Array&)] gives the readable bytes and takes them, when the class
    implements it ([sending]), and else does nothing. *)
Class SendSpec (B : Type) `{RS : ReadSpec B} {G : Gatherable B} := {
  sending : B -> bool;
  send_law b arry : wf b -> (sending b = true -> hasArray b = true /\ pointable b = true) -> exists b',
    readSliceArray arry b = (Ok (if sending b then queue b else arry), b') /\ wf b' /\
    content b' = content b /\ queue b' = if sending b then [] else queue b;
  refuse_law b arry : wf b -> sending b = true -> hasArray b = true -> pointable b = false ->
    readSliceArray arry b = (Err RangeException, b);
  readable_law b : wf b -> sending b = true -> hasArray b = true -> queue b <> [] -> pointable b = true;
}.

Section Region.
Context {B : Type} {RB : RawBuffer B} {RS : ReadSpec B}.

Lemma data_at_ok (a : list Z) i : i = 0 \/ 0 <= i < zlen a -> Array.data_at (Array.Data a) i = Ok i.
Proof.
  intros Hi. unfold Array.data_at. change (Array.length (Array.Data a)) with (zlen a).
  destruct (_ || _) eqn:E; [|reflexivity]. exfalso. zbool. destruct E as [E|E]; zbool; lia.
Qed.

Lemma data_at_end (a : list Z) i : i <> 0 -> zlen a <= i -> Array.data_at (Array.Data a) i = Err RangeException.
Proof.
  intros H0 Hi. unfold Array.data_at. change (Array.length (Array.Data a)) with (zlen a).
  destruct (_ || _) eqn:E; [reflexivity|]. exfalso. zbool. lia.
Qed.

(** The reader index points into the array [a], or to the start of it. *)
Definition points (a : list Z) (b : B) : bool := (readerIndex b =? 0) || (readerIndex b <? zlen a).

Lemma region_queue (b : B) rest : wf b -> points (content b ++ rest) b = true -> zlen (content b ++ rest) <= INT_MAX ->
  region (content b ++ rest) b = Ok (queue b).
Proof.
  intros Hw Hp Hm. pose proof (zlen_queue b Hw) as Hq. destruct Hw as [Hv [Hr Hwr]]. unfold points in Hp. rewrite zlen_app in Hm, Hp.
  pose proof (zlen_nonneg rest). unfold region. rewrite data_at_ok by (rewrite zlen_app; zbool; destruct Hp; zbool; lia).
  cbn [rbind]. rewrite i32_id by solve_range. rewrite zlen_app. clear Hp.
  destruct (_ || _) eqn:E; zbool; [exfalso; destruct E; zbool; lia|].
  f_equal. unfold queue, zsub. rewrite drop_app_le, take_app_le by (rewrite ?length_drop; unfold zlen in *; lia). reflexivity.
Qed.

Lemma readable_points (b : B) rest : wf b -> queue b <> [] -> points (content b ++ rest) b = true.
Proof.
  intros Hw Hne. pose proof (zlen_queue b Hw) as Hq. destruct Hw as [Hv [Hr Hwr]]. pose proof (zlen_nonneg rest).
  assert (0 < zlen (queue b)) by (destruct (queue b); [contradiction | unfold zlen; cbn [length]; lia]).
  unfold points. rewrite zlen_app. apply orb_true_intro. right. apply Z.ltb_lt. lia.
Qed.

Lemma consumeAll_run (b : B) : valid b -> exists b', consumeAll b = (Ok tt, b') /\ wf b' /\ content b' = content b /\ queue b' = [].
Proof.
  intros Hv. eexists. split; [reflexivity|]. split; [|split; [apply content_put|]].
  - apply wf_put; cbn; [exact Hv | lia | apply zlen_nonneg].
  - unfold queue. rewrite readerIndex_put, writerIndex_put. reflexivity.
Qed.

Lemma sliceOf_queue (a : B -> result (list Z)) (b : B) rest : wf b -> points (content b ++ rest) b = true ->
  a b = Ok (content b ++ rest) -> zlen (content b ++ rest) <= INT_MAX ->
  exists b', sliceOf a b = (Ok (queue b), b') /\ wf b' /\ content b' = content b /\ queue b' = [].
Proof.
  intros Hw Hp Ha Hm. destruct (consumeAll_run b (proj1 Hw)) as (b' & Hc & H). exists b'. split; [|exact H].
  unfold sliceOf. rewrite bind_reads, Ha. cbn [rbind]. rewrite region_queue by assumption.
  rewrite (bind_ok _ _ _ _ _ Hc). reflexivity.
Qed.

Lemma sliceOf_refused (a : B -> result (list Z)) (b : B) l : wf b -> points l b = false -> a b = Ok l ->
  sliceOf a b = (Err RangeException, b).
Proof.
  intros [Hv [Hr Hw]] Hp Ha. unfold sliceOf. rewrite bind_reads, Ha. cbn [rbind]. unfold region, points in *. zbool.
  rewrite data_at_end by lia. reflexivity.
Qed.
End Region.

(** ** The classes keep their promises *)

#[export] Instance HeapArray : ArraySpec HeapChannelBuffer.t.
Proof.
  constructor. intros h Hv _. exists []. rewrite app_nil_r. split; [reflexivity|]. apply content_max, Hv.
Qed.

(** A class whose [readSlice] takes the part of its [array()] that is readable. *)
Section Slicing.
Context {B : Type} {RB : RawBuffer B} {RS : ReadSpec B} {G : Gatherable B} {A : ArraySpec B}.
Hypothesis Hslices : forall arry (b : B), readSliceArray arry b = sliceOf array b.

Lemma points_array (b : B) l : array b = Ok l -> pointable b = points l b.
Proof. unfold pointable, points. intros ->. reflexivity. Qed.

Definition slicing_send : SendSpec B.
Proof.
  refine {| sending _ := true |}.
  - intros b arry Hw Hs. destruct (Hs eq_refl) as [Ha Hp]. destruct (array_law b (proj1 Hw) Ha) as (rest & E & Hm).
    rewrite (points_array _ _ E) in Hp. rewrite Hslices. exact (sliceOf_queue _ b rest Hw Hp E Hm).
  - intros b arry Hw _ Ha Hp. destruct (array_law b (proj1 Hw) Ha) as (rest & E & Hm). rewrite Hslices.
    rewrite (points_array _ _ E) in Hp. exact (sliceOf_refused _ b _ Hw Hp E).
  - intros b Hw _ Ha Hne. destruct (array_law b (proj1 Hw) Ha) as (rest & E & Hm).
    rewrite (points_array _ _ E). exact (readable_points b rest Hw Hne).
Defined.
End Slicing.

(** A class whose [readSlice] is empty. *)
Definition silent_send {B} `{RS : ReadSpec B} {G : Gatherable B} (Hsilent : forall arry (b : B), readSliceArray arry b = (Ok arry, b)) :
  SendSpec B.
Proof.
  refine {| sending _ := false |}; try discriminate. intros b arry Hw _. exists b. rewrite Hsilent. auto.
Defined.

#[export] Instance HeapSend : SendSpec HeapChannelBuffer.t := slicing_send (fun _ _ => eq_refl).

Section Wrapping.
Context {B : Type} {RB : RawBuffer B} {RS : ReadSpec B} {G : Gatherable B} {A : ArraySpec B}.

Lemma truncated_parent (s : TruncatedChannelBuffer.t B) : valid s ->
  exists rest, content (buffer (TruncatedChannelBuffer.v s)) = content s ++ rest.
Proof.
  intros _. eexists. change (content s) with (truncated_content s). unfold truncated_content, zsub.
  rewrite drop_0. symmetry. apply take_drop.
Qed.

#[export] Instance DuplicatedArray : ArraySpec (DuplicatedChannelBuffer.t B).
Proof. constructor. intros s Hv Ha. exact (array_law (DuplicatedChannelBuffer.parent s) Hv Ha). Qed.

#[export] Instance DuplicatedSend : SendSpec (DuplicatedChannelBuffer.t B) := slicing_send (B := DuplicatedChannelBuffer.t B) (fun _ _ => eq_refl).

#[export] Instance TruncatedArray : ArraySpec (TruncatedChannelBuffer.t B).
Proof.
  constructor. intros s Hv Ha. destruct (truncated_parent s Hv) as (rest0 & Hc).
  destruct (array_law (buffer (TruncatedChannelBuffer.v s)) (proj1 Hv) Ha) as (rest & E & Hm).
  exists (rest0 ++ rest). rewrite app_assoc, <- Hc. auto.
Qed.

#[export] Instance TruncatedSend : SendSpec (TruncatedChannelBuffer.t B) := slicing_send (B := TruncatedChannelBuffer.t B) (fun _ _ => eq_refl).

(** The empty [readSlice]s. *)
#[export] Instance SlicedSend : SendSpec (SlicedChannelBuffer.t B) := silent_send (B := SlicedChannelBuffer.t B) (fun _ _ => eq_refl).
#[export] Instance ReadOnlySend : SendSpec (ReadOnlyChannelBuffer.t B) := silent_send (B := ReadOnlyChannelBuffer.t B) (fun _ _ => eq_refl).
End Wrapping.

Section Dynamic.
Context {N : Type} {RN : RawBuffer N} {RSN : ReadSpec N} {WSN : WriteSpec N} {WN : WriteBuffer N}
  {QN : QueueSpec N} {FN : ChannelBufferFactory N} {FSN : FactorySpec N} {CN : CopyBuffer N N}
  {G : Gatherable N} {A : ArraySpec N}.

#[export] Instance DynamicArray : ArraySpec (DynamicChannelBuffer.t N).
Proof. constructor. intros d [Hv _] Ha. exact (array_law (DynamicChannelBuffer.buffer d) Hv Ha). Qed.

#[export] Instance DynamicSend : SendSpec (DynamicChannelBuffer.t N) := slicing_send (B := DynamicChannelBuffer.t N) (fun _ _ => eq_refl).
End Dynamic.

(** A buffer of one of two classes. *)
Section Mixed.
Context {A B : Type} {RA : RawBuffer A} {RSA : ReadSpec A} {GA : Gatherable A} {SA : SendSpec A}.
Context {RB : RawBuffer B} {RSB : ReadSpec B} {GB : Gatherable B} {SB : SendSpec B}.

#[export] Instance MixedSend : SendSpec (A + B).
Proof.
  refine {| sending := either sending sending |}.
  - intros [a|b] arry Hw Hs.
    + destruct (send_law a arry Hw Hs) as (a' & E & H). exists (inl a'). cbn. rewrite E. split; [reflexivity | exact H].
    + destruct (send_law b arry Hw Hs) as (b' & E & H). exists (inr b'). cbn. rewrite E. split; [reflexivity | exact H].
  - intros [a|b] arry Hw Hs Ha Hp; cbn; [rewrite (refuse_law a arry Hw Hs Ha Hp) | rewrite (refuse_law b arry Hw Hs Ha Hp)]; reflexivity.
  - intros [a|b]; [exact (readable_law a) | exact (readable_law b)].
Defined.
End Mixed.

(** ** Requests *)

Section Requests.
Context {B : Type} {RB : RawBuffer B} {RS : ReadSpec B} {G : Gatherable B} {SS : SendSpec B}.
Import AsioWriteRequest.

(** What is left of a buffer that a request took. *)
Definition handed (b b' : B) : Prop :=
  wf b' /\ content b' = content b /\ queue b' = if sending b then [] else queue b.

(** What of a buffer a request takes. *)
Definition shown (b : B) : list Z := if sending b then queue b else [].

(** C22: the request of a buffer over an array, of a class that implements [readSlice],
    gives the socket exactly the readable bytes and leaves none of them in the buffer;
    but when the reader index stands at the end of the array, other than at zero, the
    [RangeException] of [Array::data] comes out and the buffer stays as it was.  The
    request of a class whose [readSlice] is empty gives nothing, and the write counts as
    one of no bytes. *)
Theorem array_sent (b : B) (uninitialised : Z) : wf b -> hasArray b = true ->
  if sending b && negb (pointable b) then new b = (Err RangeException, b)
  else exists r b', new b = (Ok r, b') /\ sent uninitialised r = shown b /\
    writeBufferSize r = Some (zlen (shown b)) /\ handed b b'.
Proof.
  intros Hw Ha. unfold new. rewrite bind_gets, Ha. destruct (sending b && negb (pointable b)) eqn:Es.
  - zbool. erewrite bind_err; [reflexivity|]. apply refuse_law; tauto.
  - destruct (send_law b [] Hw) as (b' & E & H).
    { intros Hs. rewrite Hs in Es. split; [exact Ha|]. destruct (pointable b); [reflexivity | discriminate]. }
    eexists _, b'. rewrite (bind_ok _ _ _ _ _ E). split; [reflexivity|]. cbn [writeBufferSize sent buffer hasBuffers].
    split; [|split; [reflexivity | exact H]]. fold (shown b). unfold sent. cbn. fold (shown b).
    destruct (zlen (shown b) =? 0) eqn:Ez; zbool; [symmetry; apply zlen_0, Ez | reflexivity].
Qed.
End Requests.

(** ** Composite buffers *)

Section Composites.
Context {B : Type} {RB : RawBuffer B} {RS : ReadSpec B} {G : Gatherable B} {SS : SendSpec B}.
Import CompositeChannelBuffer AsioWriteRequest.
Abbreviation composite := (CompositeChannelBuffer.t B).

(** A gathering buffer after the blocks [bs] were appended: the first element stays
    empty. *)
Definition holding (bs : list (list Z)) : AsioGatheringBuffer.t :=
  AsioGatheringBuffer.MkGathering (zlen (concat bs)) (1 + zlen bs) ([] :: bs ++ repeat [] (7 - length bs)).

Lemma append_block bs d : (length bs < 7)%nat -> zlen (concat (bs ++ [d])) <= INT_MAX ->
  AsioGatheringBuffer.append d (holding bs) = (Ok tt, holding (bs ++ [d])).
Proof.
  intros Hl Hm. unfold AsioGatheringBuffer.append. rewrite bind_gets, bind_throw_if. cbn.
  change AsioGatheringBuffer.MAX_BUFFER_COUNT with 8.
  replace (1 + zlen bs <? 8) with true by (symmetry; apply Z.ltb_lt; unfold zlen; lia). cbn [negb].
  unfold modify, holding. cbn [AsioGatheringBuffer.byteSize AsioGatheringBuffer.truncatedIndex AsioGatheringBuffer.elems].
  rewrite concat_app, zlen_app in *. cbn [concat] in *. rewrite app_nil_r in *.
  pose proof (zlen_nonneg (concat bs)). pose proof (zlen_nonneg d). rewrite i32_id by solve_range.
  replace (1 + zlen bs + 1) with (1 + zlen (bs ++ [d])) by (unfold zlen; rewrite length_app; cbn [length]; lia).
  replace (Z.to_nat (1 + zlen bs)) with (S (length bs)) by (unfold zlen; lia). do 3 f_equal.
  change (<[S (length bs) := d]> ([] :: bs ++ repeat [] (7 - length bs))) with ([] :: <[length bs := d]> (bs ++ repeat [] (7 - length bs))).
  f_equal. rewrite length_app. cbn [length]. replace (7 - length bs)%nat with (S (7 - (length bs + 1))) by lia.
  rewrite insert_app_r_alt, Nat.sub_diag by lia. rewrite <- app_assoc. reflexivity.
Qed.

Lemma append_full bs d : (length bs >= 7)%nat ->
  AsioGatheringBuffer.append d (holding bs) = (Err Undefined, holding bs).
Proof.
  intros Hl. unfold AsioGatheringBuffer.append. rewrite bind_gets, bind_throw_if. cbn.
  change AsioGatheringBuffer.MAX_BUFFER_COUNT with 8.
  replace (1 + zlen bs <? 8) with false by (symmetry; apply Z.ltb_ge; unfold zlen; lia). reflexivity.
Qed.

(** The blocks of the readable components: what a component of a class that implements
    [readSlice] gives, and again the block before it, at first an empty one, for the
    others. *)
Fixpoint gathered (arry : list Z) (cs : list B) : list (list Z) :=
  match cs with
  | [] => []
  | c :: cs =>
      if decide (queue c <> []) then
        let block := if sending c then queue c else arry in block :: gathered block cs
      else gathered arry cs
  end.

(** A component that is to give its array has one. *)
Definition good (c : B) : Prop := wf c /\ (sending c = true -> hasArray c = true).

(** The components of classes that implement [readSlice] give all readable bytes, in
    their order. *)
Lemma gathered_sending arry cs : Forall (fun c => sending c = true) cs -> concat (gathered arry cs) = concat (map queue cs).
Proof.
  revert arry. induction cs as [|c cs IH]; intros arry H; [reflexivity|]. apply List.Forall_cons_iff in H as [Hc H].
  cbn [gathered map concat]. destruct (decide _) as [Hne|Hne].
  - rewrite Hc. cbn [concat]. rewrite IH by exact H. reflexivity.
  - rewrite IH by exact H. destruct (queue c); [reflexivity | exfalso; apply Hne; discriminate].
Qed.

Lemma gathered_silent cs : Forall (fun c => sending c = false) cs -> concat (gathered [] cs) = [].
Proof.
  induction cs as [|c cs IH]; intros H; [reflexivity|]. apply List.Forall_cons_iff in H as [Hc H].
  cbn [gathered]. rewrite Hc. destruct (decide _); [cbn [concat]|]; apply IH, H.
Qed.

Lemma gathered_length arry cs : length (gathered arry cs) = length (filter (fun c => queue c <> []) cs).
Proof.
  revert arry. induction cs as [|c cs IH]; intros arry; [reflexivity|]. cbn [gathered]. rewrite filter_cons.
  destruct (decide _); cbn [length]; rewrite IH; reflexivity.
Qed.

(** One turn of the loop. *)
Lemma gather_turn n arry g (s : composite) pre c rest :
  components s = pre ++ c :: rest -> good c ->
  exists c', handed c c' /\ gatherLoop (S n) (zlen pre) arry (g, s) =
    let s' := with_components (pre ++ c' :: rest) s in
    if decide (queue c <> []) then
      let block := if sending c then queue c else arry in
      (on_gathering (AsioGatheringBuffer.append block) ;! gatherLoop n (zlen pre + 1) block) (g, s')
    else gatherLoop n (zlen pre + 1) arry (g, s').
Proof.
  intros Hc [Hw Ha]. pose proof (readableBytes_queue c Hw) as Hq.
  assert (components s !! length pre = Some c) as Hk by (rewrite Hc, lookup_app_r, Nat.sub_diag by lia; reflexivity).
  assert (ask (zlen pre) (fun c => Ok (AbstractChannelBuffer.readable c)) s = (Ok (zlen (queue c) >? 0), s)) as E.
  { unfold ask, reads, AbstractChannelBuffer.readable. unfold zlen at 1. rewrite (element_lookup _ _ _ Hk). cbn [rbind]. rewrite Hq. reflexivity. }
  cbn [gatherLoop]. unfold on_buffer at 1, zoom at 1. cbv zeta.
  destruct (decide (queue c <> [])) as [Hne|Hne].
  - assert (0 < zlen (queue c)) as Hz by (destruct (queue c); [contradiction | unfold zlen; cbn [length]; lia]).
    destruct (send_law c arry Hw) as (c' & Es & Hh).
    { intros Hs. split; [exact (Ha Hs) | exact (readable_law c Hw Hs (Ha Hs) Hne)]. }
    exists c'. split; [exact Hh|].
    erewrite bind_ok by (unfold zoom; cbn [snd fst]; rewrite E; reflexivity). rewrite (proj2 (Z.gtb_lt _ _)) by lia.
    erewrite bind_ok; [reflexivity|]. unfold on_buffer, zoom, on_component. cbn [fst snd].
    change (zlen pre) with (Z.of_nat (length pre)). rewrite (element_lookup _ _ _ Hk), Es, Nat2Z.id, Hc, insert_app_r_alt, Nat.sub_diag by lia.
    reflexivity.
  - exists c. assert (queue c = []) as E0 by (destruct (queue c); [reflexivity | exfalso; apply Hne; discriminate]). split.
    + repeat split; [apply Hw | apply Hw .. | rewrite E0; destruct (sending c); reflexivity].
    + erewrite bind_ok by (unfold zoom; cbn [snd fst]; rewrite E; reflexivity). rewrite E0. cbn.
      rewrite <- Hc. destruct s. reflexivity.
Qed.

Lemma with_same (s : composite) cs : components s = cs -> with_components cs s = s.
Proof. intros <-. destruct s. reflexivity. Qed.

Lemma block_fits (bs : list (list Z)) block rest : zlen (concat (bs ++ block :: rest)) <= INT_MAX ->
  zlen (concat (bs ++ [block])) <= INT_MAX.
Proof.
  change (block :: rest) with ([block] ++ rest). rewrite app_assoc, (concat_app (bs ++ [block])), zlen_app.
  pose proof (zlen_nonneg (concat rest)). lia.
Qed.

(** The loop over the components that are left. *)
Lemma gather_rest rest : forall pre bs arry (s : composite),
  components s = pre ++ rest -> Forall good rest ->
  (length bs + length (gathered arry rest) <= 7)%nat -> zlen (concat (bs ++ gathered arry rest)) <= INT_MAX ->
  exists rest', Forall2 handed rest rest' /\
    gatherLoop (length rest) (zlen pre) arry (holding bs, s) = (Ok tt, (holding (bs ++ gathered arry rest), with_components (pre ++ rest') s)).
Proof.
  induction rest as [|c rest IH]; intros pre bs arry s Hc Hg Hl Hm.
  - exists []. split; [constructor|]. rewrite with_same by exact Hc. cbn [gathered]. rewrite app_nil_r. reflexivity.
  - apply List.Forall_cons_iff in Hg as [Hgc Hg]. destruct (gather_turn (length rest) arry (holding bs) s pre c rest Hc Hgc) as (c' & Hh & E).
    cbn [length]. rewrite E. cbv zeta. clear E.
    assert (zlen pre + 1 = zlen (pre ++ [c'])) as Hz by (rewrite zlen_app; reflexivity).
    assert (forall bs arry, (length bs + length (gathered arry rest) <= 7)%nat -> zlen (concat (bs ++ gathered arry rest)) <= INT_MAX ->
      exists rest', Forall2 handed (c :: rest) rest' /\
        gatherLoop (length rest) (zlen pre + 1) arry (holding bs, with_components (pre ++ c' :: rest) s)
        = (Ok tt, (holding (bs ++ gathered arry rest), with_components (pre ++ rest') s))) as Hrec.
    { intros bs' arry' Hl' Hm'. rewrite Hz.
      destruct (IH (pre ++ [c']) bs' arry' (with_components (pre ++ c' :: rest) s)) as (rest' & H2 & E); try assumption.
      { cbn. rewrite <- app_assoc. reflexivity. }
      exists (c' :: rest'). split; [constructor; assumption|]. rewrite E, <- app_assoc. reflexivity. }
    cbn [gathered] in *. destruct (decide (queue c <> [])) as [Hne|Hne]; [|exact (Hrec bs arry Hl Hm)].
    cbv zeta in *. set (block := if sending c then queue c else arry) in *. cbn [length] in Hl.
    destruct (Hrec (bs ++ [block]) block) as (rest' & H2 & E); [rewrite length_app; cbn; lia | rewrite <- app_assoc; exact Hm |].
    exists rest'. split; [exact H2|]. erewrite bind_ok; [rewrite E, <- app_assoc; reflexivity|].
    unfold on_gathering, zoom. cbn [fst snd]. rewrite append_block; [reflexivity | lia | exact (block_fits _ _ _ Hm)].
Qed.

(** With more than seven blocks the array of the gathering buffer is left. *)
Lemma gather_overflow rest : forall pre bs arry (s : composite),
  components s = pre ++ rest -> Forall good rest ->
  (length bs <= 7 < length bs + length (gathered arry rest))%nat -> zlen (concat (bs ++ gathered arry rest)) <= INT_MAX ->
  fst (gatherLoop (length rest) (zlen pre) arry (holding bs, s)) = Err Undefined.
Proof.
  induction rest as [|c rest IH]; intros pre bs arry s Hc Hg Hl Hm; [cbn in Hl; lia|].
  apply List.Forall_cons_iff in Hg as [Hgc Hg]. destruct (gather_turn (length rest) arry (holding bs) s pre c rest Hc Hgc) as (c' & _ & E).
  cbn [length]. rewrite E. cbv zeta. clear E.
  replace (zlen pre + 1) with (zlen (pre ++ [c'])) by (rewrite zlen_app; reflexivity).
  assert (components (with_components (pre ++ c' :: rest) s) = (pre ++ [c']) ++ rest) as Hc' by (cbn; rewrite <- app_assoc; reflexivity).
  cbn [gathered] in *. destruct (decide (queue c <> [])) as [Hne|Hne]; [|apply IH; assumption].
  cbv zeta in *. set (block := if sending c then queue c else arry) in *. cbn [length] in Hl.
  destruct (decide (length bs < 7)%nat) as [H7|H7].
  - erewrite bind_ok.
    2:{ unfold on_gathering, zoom. cbn [fst snd]. rewrite append_block; [reflexivity | exact H7 | exact (block_fits _ _ _ Hm)]. }
    apply IH; [exact Hc' | exact Hg | rewrite length_app; cbn; lia | rewrite <- app_assoc; exact Hm].
  - erewrite bind_err; [reflexivity|]. unfold on_gathering, zoom. cbn [fst snd]. rewrite append_full by lia. reflexivity.
Qed.

Lemma blocks_holding bs : AsioGatheringBuffer.blocks (holding bs) = [] :: bs.
Proof.
  unfold AsioGatheringBuffer.blocks, holding. cbn [AsioGatheringBuffer.truncatedIndex AsioGatheringBuffer.elems].
  replace (Z.to_nat (1 + zlen bs)) with (S (length bs)) by (unfold zlen; lia). cbn [take]. rewrite take_app_length. reflexivity.
Qed.

Lemma fold_sizes (bs : list (list Z)) : zlen (concat bs) = 0 -> fold_left (fun n block => i32 (n + zlen block)) bs 0 = 0.
Proof.
  induction bs as [|b bs IH]; [reflexivity|]. cbn [concat fold_left]. rewrite zlen_app. intros H.
  pose proof (zlen_nonneg b). pose proof (zlen_nonneg (concat bs)). replace (zlen b) with 0 by lia. apply IH. lia.
Qed.

Lemma bytesCount_holding bs : AsioGatheringBuffer.bytesCount (holding bs) = (Ok (zlen (concat bs)), holding bs).
Proof.
  unfold AsioGatheringBuffer.bytesCount. rewrite bind_gets. unfold id. cbn [AsioGatheringBuffer.byteSize holding].
  destruct (zlen (concat bs) =? 0) eqn:E; zbool; [|reflexivity].
  rewrite blocks_holding. cbn [fold_left]. rewrite E. change (i32 (0 + zlen (@nil Z))) with 0.
  rewrite fold_sizes by exact E. unfold bind, modify, gets, AsioGatheringBuffer.with_byteSize, holding.
  cbn [AsioGatheringBuffer.byteSize AsioGatheringBuffer.truncatedIndex AsioGatheringBuffer.elems]. rewrite E. reflexivity.
Qed.

(** The request that is made of a gathering buffer. *)
Lemma request_holding bs (uninitialised : Z) : exists r,
  (if AsioGatheringBuffer.truncatedIndex (holding bs) =? 1 then
     let? block := element (AsioGatheringBuffer.elems (holding bs)) 0 in
     Ok (MkRequest block (AsioGatheringBuffer.with_truncatedIndex 0 (holding bs)) (Some (zlen (concat bs))))
   else Ok (MkRequest [] (holding bs) (Some (zlen (concat bs))))) = Ok r /\
  sent uninitialised r = concat bs /\ writeBufferSize r = Some (zlen (concat bs)).
Proof.
  assert (forall r, writeBufferSize r = Some (zlen (concat bs)) -> concat bs = [] \/
    hasBuffers r = true /\ concat (AsioGatheringBuffer.blocks (gathring r)) = concat bs -> sent uninitialised r = concat bs) as Hs.
  { intros r Es Hr. unfold sent. rewrite Es. destruct (zlen (concat bs) =? 0) eqn:Ez; zbool; [symmetry; apply zlen_0, Ez|].
    destruct Hr as [Hr|[Hb Hr]]; [rewrite Hr in Ez; contradiction|]. rewrite Hb. exact Hr. }
  destruct (_ =? 1) eqn:E; cbn in E; zbool.
  - assert (bs = []) as -> by (apply zlen_0; lia). eexists. split; [reflexivity|]. split; [|reflexivity]. apply Hs; auto.
  - eexists. split; [reflexivity|]. split; [|reflexivity]. apply Hs; [reflexivity|]. right. split.
    + unfold hasBuffers. cbn. apply Z.gtb_lt. pose proof (zlen_nonneg bs). lia.
    + cbn [gathring]. rewrite blocks_holding. reflexivity.
Qed.

(** C30: the request of a composite buffer, whose components may be of several classes,
    gives the socket the blocks of its readable components one after the other: the
    readable bytes of a component whose class implements [readSlice], which it takes, and
    for a component of another class, a slice or a read-only buffer, the block before it
    once more - so it is what is readable when all components are of the first kind
    ([gathered_sending]), and nothing when none is.  The indexes of the composite buffer
    itself, which say what is readable, have no part in it and stay as they are; and with
    more than seven components that are readable the array of the gathering buffer is
    left. *)
Theorem composite_sent (s : composite) (uninitialised : Z) :
  Forall good (components s) -> zlen (concat (gathered [] (components s))) <= INT_MAX ->
  if decide (length (filter (fun c => queue c <> []) (components s)) <= 7)%nat then
    exists r cs, new s = (Ok r, with_components cs s) /\
      sent uninitialised r = concat (gathered [] (components s)) /\
      writeBufferSize r = Some (zlen (concat (gathered [] (components s)))) /\ Forall2 handed (components s) cs
  else fst (new s) = Err Undefined.
Proof.
  intros Hg Hm. set (cs := components s) in *. pose proof (gathered_length [] cs) as Hn.
  assert (readSliceGathering (B := composite) (holding [], s) = gatherLoop (length cs) (zlen (@nil B)) [] (holding [], s)) as E0.
  { unfold readSliceGathering, CompositeGatherable. rewrite (bind_ok _ _ (holding [], s) s (holding [], s)) by reflexivity. unfold size, zlen. rewrite Nat2Z.id. reflexivity. }
  unfold new. rewrite bind_gets. change (hasArray s) with false. cbv iota. change AsioGatheringBuffer.new with (holding []).
  destruct (decide _) as [H7|H7].
  - destruct (gather_rest cs [] [] [] s eq_refl Hg) as (cs' & H2 & E); [cbn; lia | exact Hm |].
    rewrite (bind_ok _ _ _ _ _ (eq_trans E0 E)). unfold on_gathering, zoom. cbn [fst snd app]. rewrite bytesCount_holding. cbn [rbind].
    destruct (request_holding (gathered [] cs) uninitialised) as (r & -> & Hs & Hz). exists r, cs'. auto.
  - pose proof (gather_overflow cs [] [] [] s eq_refl Hg) as E. cbn [length app] in E.
    specialize (E ltac:(lia) Hm). rewrite <- E0 in E.
    destruct (readSliceGathering (holding [], s)) as [[?|e] [g s']] eqn:Er; cbn in E; [discriminate|]. injection E as ->.
    rewrite (bind_err _ _ _ _ _ Er). reflexivity.
Qed.
End Composites.

(** A read-only buffer gives nothing, whatever it wraps. *)
Lemma readOnly_sent {B} {RB : RawBuffer B} {G : Gatherable B} (s : ReadOnlyChannelBuffer.t B) (uninitialised : Z) :
  exists r, AsioWriteRequest.new s = (Ok r, s) /\ AsioWriteRequest.sent uninitialised r = [] /\
    AsioWriteRequest.writeBufferSize r = Some 0.
Proof. eexists. split; [reflexivity|]. split; reflexivity. Qed.

(** ** Instances of the hypotheses *)

Section Witnesses.

Definition heapOf (l : list Z) (r w : Z) : HeapChannelBuffer.t :=
  HeapChannelBuffer.MkHeap BYTE_ORDER_BIG (MkIndexes r w 0 0) true (Array.Data l).

Definition compositeOf {B} (cs : list B) (table : list Z) : CompositeChannelBuffer.t B :=
  CompositeChannelBuffer.MkComposite BYTE_ORDER_BIG cs table 0 (MkIndexes 0 0 0 0).

Lemma heapOf_wf l r w : Forall is_i8 l -> zlen l <= INT_MAX -> 0 <= r <= w -> w <= zlen l -> wf (heapOf l r w).
Proof. intros Hl Hm Hr Hw. split; [exists l; auto|]. split; assumption. Qed.

(** The first three bytes of four, one of them read. *)
Definition view3 : TruncatedChannelBuffer.t HeapChannelBuffer.t :=
  TruncatedChannelBuffer.MkTruncated (MkView (MkIndexes 1 3 0 0) 0 3 (heapOf [1; 2; 3; 4] 0 4)).

Lemma view3_wf : wf view3.
Proof.
  assert (wf (heapOf [1; 2; 3; 4] 0 4)) as [Hv _] by (apply heapOf_wf; [repeat constructor; solve_range | cbv; discriminate | lia | cbv; discriminate]).
  split; [split; [exact Hv | cbn; unfold zlen; cbn; lia] | repeat split; cbv; discriminate].
Qed.

Lemma array_sent_witness : wf view3 /\ hasArray view3 = true /\
  exists r b', AsioWriteRequest.new view3 = (Ok r, b') /\ AsioWriteRequest.sent 0 r = [2; 3] /\
    AsioWriteRequest.writeBufferSize r = Some 2 /\ handed view3 b'.
Proof. split; [exact view3_wf|]. split; [reflexivity|]. exact (array_sent view3 0 view3_wf eq_refl). Defined.

(** Components of three classes: the second is empty, the slice repeats the block before
    it. *)
Definition sliced (l : list Z) (i n : Z) : SlicedChannelBuffer.t HeapChannelBuffer.t :=
  SlicedChannelBuffer.MkSliced (MkView (MkIndexes 0 n 0 0) i n (heapOf l 0 (zlen l))).

Abbreviation mixed := (HeapChannelBuffer.t + (SlicedChannelBuffer.t HeapChannelBuffer.t + TruncatedChannelBuffer.t HeapChannelBuffer.t))%type.
Definition composite4 : CompositeChannelBuffer.t mixed :=
  compositeOf [inl (heapOf [1; 2] 0 2); inl (heapOf [3] 1 1); inr (inl (sliced [7; 8; 9] 1 2)); inr (inr view3)] [0; 2; 3; 5; 8].

Lemma composite4_good : Forall good (CompositeChannelBuffer.components composite4).
Proof.
  assert (forall l r w, Forall is_i8 l -> zlen l <= 3 -> 0 <= r <= w -> w <= zlen l -> wf (heapOf l r w)) as H
    by (intros l r w Hl Hm Hr Hw; apply heapOf_wf; unfold INT_MAX; (assumption || lia)).
  assert (wf (sliced [7; 8; 9] 1 2)) as Hs.
  { assert (wf (heapOf [7; 8; 9] 0 3)) as [Hv _] by (apply H; [repeat constructor; solve_range | unfold zlen; cbn; lia ..]).
    split; [repeat split; cbn; try (exact Hv); unfold zlen, INT_MAX; cbn; lia | repeat split; cbv; discriminate]. }
  repeat apply List.Forall_cons; [split; [apply (H [1; 2] 0 2)|]|split; [apply (H [3] 1 1)|]|split; [exact Hs | discriminate]|split; [exact view3_wf|]|apply List.Forall_nil];
    try reflexivity; try (repeat constructor; solve_range); unfold zlen; cbn; lia.
Qed.

Lemma composite_sent_witness :
  Forall good (CompositeChannelBuffer.components composite4) /\
  exists r cs, AsioWriteRequest.new composite4 = (Ok r, CompositeChannelBuffer.with_components cs composite4) /\
    AsioWriteRequest.sent 0 r = [1; 2; 1; 2; 2; 3] /\ AsioWriteRequest.writeBufferSize r = Some 6 /\
    Forall2 handed (CompositeChannelBuffer.components composite4) cs.
Proof.
  split; [exact composite4_good|].
  assert (gathered [] (CompositeChannelBuffer.components composite4) = [[1; 2]; [1; 2]; [2; 3]]) as E by (vm_compute; reflexivity).
  pose proof (composite_sent composite4 0 composite4_good) as H. rewrite E in H. specialize (H ltac:(unfold zlen, INT_MAX; cbn; lia)).
  rewrite decide_True in H by (vm_compute; repeat constructor). exact H.
Defined.

(** A slice, as [wrappedBuffer] and [slice] make them: a write of three bytes gives none
    to the socket, and is told that it succeeded. *)
Example slice_not_sent :
  let '(r, s) := AsioWriteRequest.new (sliced [1; 2; 3; 4] 1 3) in
  queue s = [2; 3; 4] /\ (let? r := r in Ok (AsioWriteRequest.sent 0 r, AsioWriteRequest.writeBufferSize r)) = Ok ([], Some 0).
Proof. split; reflexivity. Qed.

Example slices_not_sent :
  fst (AsioWriteRequest.new (compositeOf [sliced [1; 2; 3; 4] 1 3; sliced [5; 6] 1 1] [0; 3; 4]))
  = Ok (AsioWriteRequest.MkRequest [] (holding [[]; []]) (Some 0)).
Proof. reflexivity. Qed.

(** Eight readable components. *)
Example eight_components :
  fst (AsioWriteRequest.new (compositeOf (repeat (heapOf [1] 0 1) 8) [0; 1; 2; 3; 4; 5; 6; 7; 8])) = Err Undefined.
Proof. reflexivity. Qed.

(** A buffer that was read to the end of its array cannot be written. *)
Example exhausted_throws : fst (AsioWriteRequest.new (heapOf [1; 2] 2 2)) = Err RangeException.
Proof. reflexivity. Qed.

End Witnesses.
