(* ===== verification/Programs.v ===== *)
(** * What programs do, whatever is seen

    The programs of handlers, sinks and channels ([prog] of [Pipeline]) as stateful
    computations: their outcome under given sends.  The outcome of a sequence is the
    sequence of the outcomes; no exception comes out of a pipeline. *)

From stdpp Require Import gmap strings.
From S2P Require Import Prelude Pipeline PipelineProperties PipelineDelivery.
Import DefaultChannelPipeline.

Section Outcomes.
Context {H : Type} {CH : ChannelHandler H} {C S E W : Type} {BE : Behaviour H C E W}.
Abbreviation visits := (M W (list (visit E))).

(** What is left of a call when nobody looks. *)
Definition effect (v : visits) : M W unit := v ;! ret tt.

Definition outcome {A R} (f : A -> visits) (h : prog A W R) : M W R :=
  let! r := execute f h in reads (fun _ => snd r).

(** What is sent does not throw. *)
Definition silent {R} (m : M W R) : Prop := forall w, match m w with (Err x, _) => x = Undefined | _ => True end.

Lemma silent_bind {R R'} (m : M W R) (k : R -> M W R') : silent m -> (forall a, silent (k a)) -> silent (bind m k).
Proof. intros Hm Hk w. specialize (Hm w). unfold bind. destruct (m w) as [[a|x] w']; [apply Hk | exact Hm]. Qed.
Lemma silent_ret {R} (a : R) : silent (ret a).
Proof. intros w. exact I. Qed.
Lemma silent_undefined {R} : silent (throw (A := R) Undefined).
Proof. intros w. reflexivity. Qed.

Lemma silent_execute {A R} (f : A -> visits) (h : prog A W R) : (forall s, silent (f s)) -> silent (execute f h).
Proof.
  intros Hf. induction h as [r|x|s h IH|k IH|w h IH]; cbn; [apply silent_ret | | | |].
  - destruct x; try apply silent_ret. apply silent_undefined.
  - apply silent_bind; [apply Hf|]. intros t. apply silent_bind; [exact IH|]. intros r. apply silent_ret.
  - intros w. apply IH.
  - intros w'. apply IH.
Qed.

Lemma silent_handle {A R} (f : A -> visits) caught (h : prog A W R) :
  (forall s, silent (f s)) -> silent caught -> silent (handle f caught h).
Proof.
  intros Hf Hc. apply silent_bind; [apply silent_execute, Hf|]. intros [t [r|x]]; [apply silent_ret|].
  apply silent_bind; [exact Hc|]. intros t'. apply silent_ret.
Qed.

Lemma silent_notify f (s : channelSink S) e : (forall s, silent (f s)) -> silent (notifyHandlerException f s e).
Proof.
  intros Hf. unfold notifyHandlerException. destruct (isExceptionEvent e); [apply silent_ret|].
  destruct s; [apply silent_undefined | apply silent_ret|]. apply silent_bind; [|intros t; apply silent_ret].
  apply silent_handle; [exact Hf | apply silent_ret].
Qed.

Lemma silent_sink f (s : channelSink S) e : (forall s, silent (f s)) -> silent (callSink f s e).
Proof.
  intros Hf. unfold callSink. destruct s; [apply silent_undefined | apply silent_ret|].
  apply silent_bind; [|intros t; apply silent_ret]. apply silent_handle; [exact Hf | apply silent_notify, Hf].
Qed.

(** No exception comes out of a pipeline: a delivery gives its visits, or has no
    meaning. *)
Lemma silent_deliver (pipelines : C -> option (t H C S)) fuel s : silent (deliver pipelines fuel s).
Proof.
  assert (forall inv, (forall c to e, silent (inv c to e)) -> forall s, silent (sendPipeline (S := S) (E := E) pipelines inv s)) as Hp.
  { intros inv Hi [c e|c e]; cbn; (destruct (pipelines c) as [p|]; [|apply silent_undefined]).
    - destruct (upstreamHead p); [apply Hi | apply silent_ret].
    - destruct (downstreamHead p); apply Hi. }
  apply Hp. clear s. induction fuel as [|fuel IH]; intros c to e; [apply silent_undefined|]. cbn [invoke].
  specialize (Hp _ IH). destruct (pipelines c) as [p|]; [|apply silent_undefined].
  assert (forall ctx s, silent (sendContext pipelines (invoke pipelines fuel) c ctx s)) as Hctx.
  { intros ctx [e'|e'|s]; cbn; [| |apply Hp].
    - destruct (nextUpstream ctx); [apply IH | apply silent_ret].
    - destruct (nextDownstream ctx); apply IH. }
  assert (forall e, silent (notifyHandlerException (sendPipeline pipelines (invoke pipelines fuel)) (sink p) e)) as Hn
    by (intros e'; apply silent_notify, Hp).
  destruct to as [a|a|]; [| |apply silent_sink, Hp].
  all: apply silent_bind; [intros w; unfold reads, lookup_ctx; destruct (store p !! a); exact I || reflexivity|].
  all: intros ctx; apply silent_bind; [apply silent_handle; [apply Hctx | apply Hn] | intros t; apply silent_ret].
Qed.

(** The same of the walk over the lists, with its context sends. *)
Section Lists.
Variable lists : C -> option (channelSink S * list (string * H)).

Lemma silent_spec_pipeline inv s : (forall c to e, silent (inv c to e)) -> silent (spec_pipeline (E := E) lists inv s).
Proof.
  intros Hi. destruct s as [c e|c e]; cbn; (destruct (lists c) as [[k l]|]; [|apply silent_undefined]).
  - destruct (find_next _ _ _) as [[[? ?] ?]|]; [apply Hi | apply silent_ret].
  - destruct (find_next _ _ _) as [[[? ?] ?]|]; apply Hi.
Qed.

Lemma silent_spec_context inv c before x after s : (forall c to e, silent (inv c to e)) ->
  silent (spec_context (E := E) lists inv c before x after s).
Proof.
  intros Hi. destruct s as [e|e|s]; cbn; [| |apply silent_spec_pipeline, Hi].
  - destruct (isUpstream (snd x)); [|apply silent_ret]. destruct (find_next _ _ _) as [[[? ?] ?]|]; [apply Hi | apply silent_ret].
  - destruct (isDownstream (snd x)); [destruct (find_next _ _ _) as [[[? ?] ?]|]|]; apply Hi.
Qed.

Lemma silent_spec_invoke fuel c to e : silent (spec_invoke (E := E) lists fuel c to e).
Proof.
  revert c to e. induction fuel as [|fuel IH]; intros c to e; [apply silent_undefined|]. cbn [spec_invoke].
  destruct (lists c) as [[k l]|]; [|apply silent_undefined].
  assert (forall s, silent (spec_pipeline (E := E) lists (spec_invoke lists fuel) s)) as Hp by (intros s; apply silent_spec_pipeline, IH).
  destruct to; [| |apply silent_sink, Hp].
  all: apply silent_bind; [apply silent_handle; [intros s; apply silent_spec_context, IH | apply silent_notify, Hp]|
                           intros t; apply silent_ret].
Qed.
End Lists.

(** ** The outcome of a program *)

Lemma outcome_returns {A R} (f : A -> visits) (r : R) w : outcome f (Returns r) w = (Ok r, w).
Proof. reflexivity. Qed.
Lemma outcome_throws {A R} (f : A -> visits) x w : outcome f (Throws x : prog A W R) w = (Err x, w).
Proof. destruct x; reflexivity. Qed.
Lemma outcome_ofResult {A R} (f : A -> visits) (r : result R) w : outcome f (ofResult r) w = (r, w).
Proof. destruct r; [reflexivity | apply outcome_throws]. Qed.
Lemma outcome_reads {A R} (f : A -> visits) (k : W -> prog A W R) w : outcome f (Reads k) w = outcome f (k w) w.
Proof. reflexivity. Qed.
Lemma outcome_writes {A R} (f : A -> visits) w' (h : prog A W R) w : outcome f (Writes w' h) w = outcome f h w'.
Proof. reflexivity. Qed.
Lemma outcome_updates {A} (f : A -> visits) g w : outcome f (updates g) w = (Ok tt, g w).
Proof. reflexivity. Qed.

Lemma outcome_sends {A R} (f : A -> visits) s (h : prog A W R) w :
  outcome f (Sends s h) w = (effect (f s) ;! outcome f h) w.
Proof.
  unfold outcome, effect. cbn [execute]. rewrite !bind_assoc. unfold bind at 1 4. destruct (f s w) as [[t|x] w']; [|reflexivity].
  cbn. rewrite bind_assoc. unfold bind, ret. destruct (execute f h w') as [[[t' r]|x] w'']; reflexivity.
Qed.

Lemma outcome_andThen {A R R'} (f : A -> visits) (h : prog A W R) (k : R -> prog A W R') w :
  outcome f (andThen h k) w = (let! r := outcome f h in outcome f (k r)) w.
Proof.
  revert w. induction h as [r|x|s h IH|g IH|w' h IH]; intros w; cbn [andThen].
  - reflexivity.
  - destruct x; reflexivity.
  - rewrite outcome_sends. rewrite (bind_ext_l (outcome f (Sends s h)) (effect (f s) ;! outcome f h)) by apply outcome_sends.
    rewrite bind_assoc. apply bind_ext. intros [] w'. apply IH.
  - apply IH.
  - apply IH.
Qed.

Lemma outcome_asks {A R} (f : A -> visits) (g : W -> R) w : outcome f (asks g : prog A W R) w = (Ok (g w), w).
Proof. reflexivity. Qed.
Lemma outcome_then {A R R'} (f : A -> visits) (h : prog A W R) (k : R -> prog A W R') w r w' :
  outcome f h w = (Ok r, w') -> outcome f (andThen h k) w = outcome f (k r) w'.
Proof. intros Hh. rewrite outcome_andThen. exact (bind_ok _ _ _ _ _ Hh). Qed.

Lemma outcome_mapSends {A B R} (f : B -> visits) (g : A -> B) (h : prog A W R) w :
  outcome f (mapSends g h) w = outcome (fun s => f (g s)) h w.
Proof.
  revert w. induction h as [r|x|s h IH|k IH|w' h IH]; intros w; try reflexivity.
  - cbn [mapSends]. rewrite !outcome_sends. apply bind_ext. intros [] w'. apply IH.
  - apply IH.
  - apply IH.
Qed.

Lemma outcome_ext {A R} (f g : A -> visits) (h : prog A W R) w :
  (forall s w, effect (f s) w = effect (g s) w) -> outcome f h w = outcome g h w.
Proof.
  intros Hfg. revert w. induction h as [r|x|s h IH|k IH|w' h IH]; intros w; try reflexivity.
  - rewrite !outcome_sends. rewrite (bind_ext_l (effect (f s)) (effect (g s))) by apply Hfg. apply bind_ext. intros [] w'. apply IH.
  - apply IH.
  - apply IH.
Qed.

Lemma outcome_tryCatch {A R} (f : A -> visits) (h : prog A W R) k w : (forall s, silent (f s)) ->
  outcome f (tryCatch h k) w
    = match outcome f h w with
      | (Err Undefined, w) => (Err Undefined, w)
      | (Err x, w) => outcome f (k x) w
      | r => r
      end.
Proof.
  intros Hf. revert w. induction h as [r|x|s h IH|g IH|w' h IH]; intros w.
  - reflexivity.
  - cbn [tryCatch]. destruct x; reflexivity.
  - cbn [tryCatch]. rewrite !outcome_sends. pose proof (Hf s w) as Hs. unfold effect. rewrite !bind_assoc.
    unfold bind at 1 3. destruct (f s w) as [[t|x] w']; [apply IH | rewrite Hs; reflexivity].
  - apply IH.
  - apply IH.
Qed.

(** A call whose exceptions are caught. *)
Lemma effect_handle {A R} (f : A -> visits) caught (h : prog A W R) w : (forall s, silent (f s)) ->
  effect (handle f caught h) w
    = match outcome f h w with
      | (Ok _, w) => (Ok tt, w)
      | (Err Undefined, w) => (Err Undefined, w)
      | (Err _, w) => effect caught w
      end.
Proof.
  intros Hf. pose proof (silent_execute f h Hf w) as Hs. unfold effect, handle, outcome, bind, reads, ret.
  assert (forall w, match execute f h w with (Ok (_, Err Undefined), _) => False | _ => True end) as Hu.
  { clear. induction h as [r|x|s h IH|g IH|w' h IH]; intros w; cbn; try exact I; try apply IH.
    - destruct x; exact I.
    - unfold bind, ret. destruct (f s w) as [[t|x] w']; [|exact I]. specialize (IH w').
      destruct (execute f h w') as [[[t' r]|x] w'']; [|exact I]. exact IH. }
  specialize (Hu w). destruct (execute f h w) as [[[t [r|x]]|x] w']; cbn.
  - reflexivity.
  - destruct x; try contradiction; destruct (caught w') as [[? | ?] ?]; reflexivity.
  - rewrite Hs. reflexivity.
Qed.

Lemma effect_cons (x : visit E) (v : visits) w : effect (let! t := v in ret (x :: t)) w = effect v w.
Proof. unfold effect. rewrite bind_assoc. apply bind_ext. reflexivity. Qed.
End Outcomes.

Create Rewrite HintDb outcome.
#[export] Hint Rewrite @outcome_returns @outcome_throws @outcome_ofResult @outcome_reads @outcome_writes @outcome_updates
  @outcome_andThen @outcome_mapSends : outcome.
