(* ===== verification/Channels.v ===== *)
(** * Channel events and the handlers of channels

    [src/src/cetty/channel/Channels.cpp] (the functions that fire events and request
    operations), the events that they make, [SimpleChannelUpstreamHandler] and
    [SimpleChannelDownstreamHandler] (which take events apart), and the requests and
    identifiers of [AbstractChannel].  Channels and futures are the addresses of
    objects; a handler answers through the pipeline of [Pipeline]. *)

From stdpp Require Import gmap strings pretty.
From S2P Require Import Prelude MachineInt Pipeline SocketChannel.
Import DefaultChannelPipeline (prog, Returns, Throws, Sends, Reads, Writes, andThen, mapSends, asks, updates, pipelineSend, PipelineUpstream,
  PipelineDownstream, ofResult, send, SendUpstream, SendDownstream, SendPipeline, handling, sinking).

Abbreviation channelRef := positive.
Abbreviation futureRef := positive.

(** ** Events *)

Inductive ChannelState := OPEN | BOUND | CONNECTED | INTEREST_OPS.

#[global] Instance ChannelState_eq_dec : EqDecision ChannelState.
Proof. solve_decision. Defined.

(** What a [boost::any] of a state event holds. *)
Inductive any (SA : Type) :=
  | AnyBool (b : bool)
  | AnyAddress (a : SA)
  | AnyAddressPointer (a : SA)
  | AnyInt (n : Z).
Arguments AnyBool {SA} _.
Arguments AnyAddress {SA} _.
Arguments AnyAddressPointer {SA} _.
Arguments AnyInt {SA} _.

(** The classes of events; [None] is an empty [any], or a null future. *)
Inductive event (SA Msg : Type) :=
  | UpstreamChannelStateEvent (channel : channelRef) (state : ChannelState) (value : option (any SA))
  | DownstreamChannelStateEvent (channel : channelRef) (future : option futureRef) (state : ChannelState) (value : option (any SA))
  | UpstreamMessageEvent (channel : channelRef) (message : Msg) (remoteAddress : SA)
  | DownstreamMessageEvent (channel : channelRef) (future : option futureRef) (message : Msg) (remoteAddress : SA)
  | DefaultWriteCompletionEvent (channel : channelRef) (writtenAmount : Z)
  | DefaultExceptionEvent (channel : channelRef) (cause : error)
  | DefaultChildChannelStateEvent (channel childChannel : channelRef).
Arguments UpstreamChannelStateEvent {SA Msg} _ _ _.
Arguments DownstreamChannelStateEvent {SA Msg} _ _ _ _.
Arguments UpstreamMessageEvent {SA Msg} _ _ _.
Arguments DownstreamMessageEvent {SA Msg} _ _ _ _.
Arguments DefaultWriteCompletionEvent {SA Msg} _ _.
Arguments DefaultExceptionEvent {SA Msg} _ _.
Arguments DefaultChildChannelStateEvent {SA Msg} _ _.

Definition getChannel {SA Msg} (e : event SA Msg) : channelRef :=
  match e with
  | UpstreamChannelStateEvent c _ _ | DownstreamChannelStateEvent c _ _ _ | UpstreamMessageEvent c _ _
  | DownstreamMessageEvent c _ _ _ | DefaultWriteCompletionEvent c _ | DefaultExceptionEvent c _
  | DefaultChildChannelStateEvent c _ => c
  end.

Definition isExceptionEvent {SA Msg} (e : event SA Msg) : bool :=
  match e with DefaultExceptionEvent _ _ => true | _ => false end.

(** The constructor of [DefaultWriteCompletionEvent]: the amount becomes an [int]. *)
Definition newWriteCompletionEvent {SA Msg} (channel : channelRef) (amount : Z) : result (event SA Msg) :=
  let writtenAmount := i32 amount in
  if writtenAmount <? 0 then Err InvalidArgumentException
  else Ok (DefaultWriteCompletionEvent channel writtenAmount).

(** ** What the functions use of a channel *)

Class Transport (SA W : Type) := {
  getParent : channelRef -> W -> option channelRef;
  isOpen : channelRef -> W -> bool;
  getRemoteAddress : channelRef -> W -> SA;
  (** [new DefaultChannelFuture(channel, cancellable)] *)
  newFuture : channelRef -> bool -> W -> futureRef * W;
  getCloseFuture : channelRef -> W -> futureRef;
  isDone : futureRef -> W -> bool;
}.

(** ** Channels *)

Module Channels.
Section Fire.
Context {SA Msg W : Type} {T : Transport SA W}.
Abbreviation E := (event SA Msg).
(** A function of a channel sends through the pipeline of a channel; one of a
    context is a part of a handler. *)
Abbreviation program R := (prog (pipelineSend channelRef E) W R).
Abbreviation H := (handling channelRef E W).

Definition pipelineUpstream (channel : channelRef) (e : E) : program unit := Sends (PipelineUpstream channel e) (Returns tt).
Definition pipelineDownstream (channel : channelRef) (e : E) : program unit := Sends (PipelineDownstream channel e) (Returns tt).
Definition ctxUpstream (e : E) : H := Sends (SendUpstream e) (Returns tt).
Definition ctxDownstream (e : E) : H := Sends (SendDownstream e) (Returns tt).

Definition future (channel : channelRef) (cancellable : bool) : program futureRef :=
  Reads (fun w => let '(f, w) := newFuture channel cancellable w in Writes w (Returns f)).

Definition fireChildChannelStateChanged (channel childChannel : channelRef) : program unit :=
  pipelineUpstream channel (DefaultChildChannelStateEvent channel childChannel).

(** "Notify the parent handler." *)
Definition notifyParent (channel : channelRef) : program unit :=
  let+ parent := asks (getParent channel) in
  match parent with Some parent => fireChildChannelStateChanged parent channel | None => Returns tt end.

Definition fireChannelOpen (channel : channelRef) : program unit :=
  let+ _ := notifyParent channel in
  pipelineUpstream channel (UpstreamChannelStateEvent channel OPEN (Some (AnyBool true))).
Definition fireChannelOpenCtx (channel : channelRef) : H :=
  ctxUpstream (UpstreamChannelStateEvent channel OPEN (Some (AnyBool true))).

Definition fireChannelBound (channel : channelRef) (localAddress : SA) : program unit :=
  pipelineUpstream channel (UpstreamChannelStateEvent channel BOUND (Some (AnyAddressPointer localAddress))).
Definition fireChannelBoundCtx (channel : channelRef) (localAddress : SA) : H :=
  ctxUpstream (UpstreamChannelStateEvent channel BOUND (Some (AnyAddressPointer localAddress))).

Definition fireChannelConnected (channel : channelRef) (remoteAddress : SA) : program unit :=
  pipelineUpstream channel (UpstreamChannelStateEvent channel CONNECTED (Some (AnyAddressPointer remoteAddress))).
Definition fireChannelConnectedCtx (channel : channelRef) (remoteAddress : SA) : H :=
  ctxUpstream (UpstreamChannelStateEvent channel CONNECTED (Some (AnyAddressPointer remoteAddress))).

Definition fireMessageReceivedFrom (channel : channelRef) (message : Msg) (remoteAddress : SA) : program unit :=
  pipelineUpstream channel (UpstreamMessageEvent channel message remoteAddress).
Definition fireMessageReceived (channel : channelRef) (message : Msg) : program unit :=
  let+ remoteAddress := asks (getRemoteAddress channel) in
  fireMessageReceivedFrom channel message remoteAddress.
Definition fireMessageReceivedFromCtx (channel : channelRef) (message : Msg) (remoteAddress : SA) : H :=
  ctxUpstream (UpstreamMessageEvent channel message remoteAddress).
Definition fireMessageReceivedCtx (channel : channelRef) (message : Msg) : H :=
  Reads (fun w => fireMessageReceivedFromCtx channel message (getRemoteAddress channel w)).

Definition fireWriteCompleted (channel : channelRef) (amount : Z) : program unit :=
  if amount =? 0 then Returns tt
  else
    let+ e := ofResult (newWriteCompletionEvent channel amount) in
    pipelineUpstream channel e.
Definition fireWriteCompletedCtx (channel : channelRef) (amount : Z) : H :=
  let+ e := ofResult (newWriteCompletionEvent channel amount) in
  ctxUpstream e.

Definition fireChannelInterestChanged (channel : channelRef) (interestOps : Z) : program unit :=
  pipelineUpstream channel (UpstreamChannelStateEvent channel INTEREST_OPS (Some (AnyInt interestOps))).
Definition fireChannelInterestChangedCtx (channel : channelRef) (interestOps : Z) : H :=
  ctxUpstream (UpstreamChannelStateEvent channel INTEREST_OPS (Some (AnyInt interestOps))).

Definition fireChannelDisconnected (channel : channelRef) : program unit :=
  pipelineUpstream channel (UpstreamChannelStateEvent channel CONNECTED None).
Definition fireChannelDisconnectedCtx (channel : channelRef) : H :=
  ctxUpstream (UpstreamChannelStateEvent channel CONNECTED None).

Definition fireChannelUnbound (channel : channelRef) : program unit :=
  pipelineUpstream channel (UpstreamChannelStateEvent channel BOUND None).
Definition fireChannelUnboundCtx (channel : channelRef) : H :=
  ctxUpstream (UpstreamChannelStateEvent channel BOUND None).

Definition fireChannelClosed (channel : channelRef) : program unit :=
  pipelineUpstream channel (UpstreamChannelStateEvent channel OPEN None) ;+
  notifyParent channel.
Definition fireChannelClosedCtx (channel : channelRef) : H :=
  ctxUpstream (UpstreamChannelStateEvent channel OPEN None).

Definition fireExceptionCaught (channel : channelRef) (cause : error) : program unit :=
  pipelineUpstream channel (DefaultExceptionEvent channel cause).
Definition fireExceptionCaughtCtx (channel : channelRef) (cause : error) : H :=
  ctxUpstream (DefaultExceptionEvent channel cause).

Definition bind (channel : channelRef) (localAddress : SA) : program futureRef :=
  let+ f := future channel false in
  pipelineDownstream channel (DownstreamChannelStateEvent channel (Some f) BOUND (Some (AnyAddress localAddress))) ;+
  Returns f.
Definition bindCtx (channel : channelRef) (f : option futureRef) (localAddress : SA) : H :=
  ctxDownstream (DownstreamChannelStateEvent channel f BOUND (Some (AnyAddress localAddress))).

Definition connect (channel : channelRef) (remoteAddress : SA) : program futureRef :=
  let+ f := future channel true in
  pipelineDownstream channel (DownstreamChannelStateEvent channel (Some f) CONNECTED (Some (AnyAddress remoteAddress))) ;+
  Returns f.
Definition connectCtx (channel : channelRef) (f : option futureRef) (remoteAddress : SA) : H :=
  ctxDownstream (DownstreamChannelStateEvent channel f CONNECTED (Some (AnyAddress remoteAddress))).

Definition unbindCtx (channel : channelRef) (f : option futureRef) : H :=
  ctxDownstream (DownstreamChannelStateEvent channel f BOUND None).
Definition disconnectCtx (channel : channelRef) (f : option futureRef) : H :=
  ctxDownstream (DownstreamChannelStateEvent channel f CONNECTED None).
Definition closeCtx (channel : channelRef) (f : option futureRef) : H :=
  ctxDownstream (DownstreamChannelStateEvent channel f OPEN None).

Definition writeToCtx (channel : channelRef) (f : option futureRef) (message : Msg) (remoteAddress : SA) : H :=
  ctxDownstream (DownstreamMessageEvent channel f message remoteAddress).
Definition writeCtx (channel : channelRef) (f : option futureRef) (message : Msg) : H :=
  Reads (fun w => writeToCtx channel f message (getRemoteAddress channel w)).

Definition setInterestOpsCtx (channel : channelRef) (f : option futureRef) (interestOps : Z) : H :=
  let+ interestOps := ofResult (AsioSocketChannel.validateAndFilterDownstreamInteresOps interestOps) in
  ctxDownstream (DownstreamChannelStateEvent channel f INTEREST_OPS (Some (AnyInt interestOps))).
End Fire.
End Channels.

(** ** AbstractChannel *)

Module AbstractChannel.
Section Requests.
Context {SA Msg W : Type} {T : Transport SA W}.
Abbreviation program R := (prog (pipelineSend channelRef (event SA Msg)) W R).

Definition writeTo (channel : channelRef) (message : Msg) (remoteAddress : SA) (withFuture : bool) : program (option futureRef) :=
  let+ future := (if withFuture then let+ f := Channels.future channel false in Returns (Some f) else Returns None) in
  Channels.pipelineDownstream channel (DownstreamMessageEvent channel future message remoteAddress) ;+
  Returns future.
Definition write (channel : channelRef) (message : Msg) (withFuture : bool) : program (option futureRef) :=
  let+ remoteAddress := asks (getRemoteAddress channel) in
  writeTo channel message remoteAddress withFuture.

(** The requests that differ in the state only. *)
Definition request (channel : channelRef) (state : ChannelState) (value : option (any SA)) : program futureRef :=
  let+ future := Channels.future channel false in
  Channels.pipelineDownstream channel (DownstreamChannelStateEvent channel (Some future) state value) ;+
  Returns future.
Definition unbind (channel : channelRef) : program futureRef := request channel BOUND None.
Definition disconnect (channel : channelRef) : program futureRef := request channel CONNECTED None.
Definition setInterestOps (channel : channelRef) (interestOps : Z) : program futureRef :=
  let+ interestOps := ofResult (AsioSocketChannel.validateAndFilterDownstreamInteresOps interestOps) in
  request channel INTEREST_OPS (Some (AnyInt interestOps)).

Definition close (channel : channelRef) : program futureRef :=
  let+ closeFuture := asks (getCloseFuture channel) in
  let+ done := asks (isDone closeFuture) in
  if done : bool then Returns closeFuture
  else
    Channels.pipelineDownstream channel (DownstreamChannelStateEvent channel (Some closeFuture) OPEN None) ;+
    Returns closeFuture.

(** [bind] and [connect] call the functions of [Channels]. *)
Definition bind (channel : channelRef) (localAddress : SA) : program futureRef := Channels.bind channel localAddress.
Definition connect (channel : channelRef) (remoteAddress : SA) : program futureRef := Channels.connect channel remoteAddress.
End Requests.

(** *** Identifiers

    [allChannels] maps the identifiers that are taken to channels.  The channels are
    their identifiers and whether their close future is done. *)
Record registry := MkRegistry {
  allChannels : gmap Z channelRef;
  objects : gmap channelRef (Z * bool);
}.

Definition with_allChannels (m : gmap Z channelRef) (r : registry) : registry := MkRegistry m (objects r).
Definition with_objects (m : gmap channelRef (Z * bool)) (r : registry) : registry := MkRegistry (allChannels r) m.

(** The loop of [allocateId]: [++] of an [Integer] is that of its [int]. *)
Fixpoint allocateLoop (fuel : nat) (id : Z) (channel : channelRef) : M registry Z :=
  match fuel with
  | O => throw Undefined
  | S fuel =>
      let! r := gets (fun r => r) in
      match allChannels r !! id with
      | None => modify (with_allChannels (<[id := channel]> (allChannels r))) ;! ret id
      | Some _ => allocateLoop fuel (i32 (id + 1)) channel
      end
  end.

Definition allocateId (channel : channelRef) (hashCode : Z) : M registry Z :=
  let! r := gets (fun r => r) in
  allocateLoop (S (size (allChannels r))) hashCode channel.

(** The constructors: [init] adds the [IdDeallocator] to the close future of a
    channel, whether its identifier was allocated or given. *)
Definition init (channel : channelRef) (id : Z) : M registry unit :=
  modify (fun r => with_objects (<[channel := (id, false)]> (objects r)) r).
Definition new (channel : channelRef) (hashCode : Z) : M registry Z :=
  let! id := allocateId channel hashCode in
  init channel id ;!
  ret id.
Definition newWithId (channel : channelRef) (id : Z) : M registry unit := init channel id.

(** [IdDeallocator::operationComplete]. *)
Definition operationComplete (id : Z) : M registry unit :=
  modify (fun r => with_allChannels (delete id (allChannels r)) r).

Definition object (channel : channelRef) : M registry (Z * bool) :=
  reads (fun r => match objects r !! channel with Some o => Ok o | None => Err Undefined end).

Definition isOpen (channel : channelRef) : M registry bool := let! o := object channel in ret (negb (snd o)).

(** [setClosed], whether the channel was open. *)
Definition setClosed (channel : channelRef) : M registry bool :=
  let! o := object channel in
  let '(id, done) := o in
  if done : bool then ret false
  else
    modify (fun r => with_objects (<[channel := (id, true)]> (objects r)) r) ;!
    operationComplete id ;!
    ret true.
End AbstractChannel.

(** ** Pipelines *)

Module Pipelines.
Import DefaultChannelPipeline.
Section Pipelines.
Context {H : Type} {CH : ChannelHandler H} {C S : Type}.
Abbreviation t := (t H C S).

Definition nonNull (h : option H) : bool := match h with Some _ => true | None => false end.

(** A new pipeline with handlers that are added at its end; a null handler is
    skipped. *)
Definition add (name : string) (handler : option H) : M t unit :=
  if nonNull handler then addLast name handler else ret tt.

Definition ofOne (h0 : option H) : M t unit := add "0" h0.
Definition ofTwo (h0 h1 : option H) : M t unit := add "0" h0 ;! add "1" h1.

(** The tests of the functions for three and four handlers ask for the second
    handler in the place of the third and fourth. *)
Definition ofThree (h0 h1 h2 : option H) : M t unit :=
  add "0" h0 ;! add "1" h1 ;! (if nonNull h1 then addLast "2" h2 else ret tt).
Definition ofFour (h0 h1 h2 h3 : option H) : M t unit :=
  add "0" h0 ;! add "1" h1 ;! (if nonNull h1 then addLast "2" h2 else ret tt) ;! (if nonNull h1 then addLast "3" h3 else ret tt).

Fixpoint ofVectorLoop (i : N) (handlers : list (option H)) : M t unit :=
  match handlers with
  | [] => ret tt
  | h :: handlers => add (pretty i) h ;! ofVectorLoop (i + 1) handlers
  end.
Definition ofVector (handlers : list (option H)) : M t unit := ofVectorLoop 0 handlers.

(** The copy of a pipeline, with the [clone]s of its handlers. *)
Fixpoint addAll (clone : H -> H) (handlers : list (string * H)) : M t unit :=
  match handlers with
  | [] => ret tt
  | (name, h) :: handlers => addLast name (Some (clone h)) ;! addAll clone handlers
  end.
Definition copyOf (clone : H -> H) (pipeline : t) : result t :=
  let? handlers := toMap pipeline in
  match addAll clone handlers new with
  | (Ok _, p) => Ok p
  | (Err e, _) => Err e
  end.
End Pipelines.
End Pipelines.

(** ** Handlers

    [ChannelUpstreamHandler] and [ChannelDownstreamHandler]: the pipeline calls the
    function of the class of the event. *)

Record ChannelUpstreamHandler (E W : Type) := MkUpstreamHandler {
  messageReceived : E -> handling channelRef E W;
  exceptionCaught : E -> handling channelRef E W;
  writeCompleted : E -> handling channelRef E W;
  channelStateChanged : E -> handling channelRef E W;
  childChannelStateChanged : E -> handling channelRef E W;
  handleUpstream : E -> handling channelRef E W;
}.

Record ChannelDownstreamHandler (E W : Type) := MkDownstreamHandler {
  writeRequested : E -> handling channelRef E W;
  stateChangeRequested : E -> handling channelRef E W;
  handleDownstream : E -> handling channelRef E W;
}.
Arguments MkUpstreamHandler {E W} _ _ _ _ _ _.
Arguments messageReceived {E W} _ _.
Arguments exceptionCaught {E W} _ _.
Arguments writeCompleted {E W} _ _.
Arguments channelStateChanged {E W} _ _.
Arguments childChannelStateChanged {E W} _ _.
Arguments handleUpstream {E W} _ _.
Arguments MkDownstreamHandler {E W} _ _ _.
Arguments writeRequested {E W} _ _.
Arguments stateChangeRequested {E W} _ _.
Arguments handleDownstream {E W} _ _.

Section Handlers.
Context {SA Msg W : Type} {T : Transport SA W}.
Abbreviation E := (event SA Msg).
Abbreviation H := (handling channelRef E W).

(** The overloads of [sendUpstream] and [sendDownstream]. *)
Definition callUpstream (h : ChannelUpstreamHandler E W) (e : E) : H :=
  match e with
  | UpstreamMessageEvent _ _ _ | DownstreamMessageEvent _ _ _ _ => messageReceived h e
  | DefaultExceptionEvent _ _ => exceptionCaught h e
  | DefaultWriteCompletionEvent _ _ => writeCompleted h e
  | UpstreamChannelStateEvent _ _ _ | DownstreamChannelStateEvent _ _ _ _ => channelStateChanged h e
  | DefaultChildChannelStateEvent _ _ => childChannelStateChanged h e
  end.
Definition callDownstream (h : ChannelDownstreamHandler E W) (e : E) : H :=
  match e with
  | UpstreamMessageEvent _ _ _ | DownstreamMessageEvent _ _ _ _ => writeRequested h e
  | UpstreamChannelStateEvent _ _ _ | DownstreamChannelStateEvent _ _ _ _ => stateChangeRequested h e
  | _ => handleDownstream h e
  end.

Definition forward (e : E) : H := Sends (SendUpstream e) (Returns tt).
Definition forwardDown (e : E) : H := Sends (SendDownstream e) (Returns tt).

Definition getState (e : E) : option (ChannelState * option (any SA)) :=
  match e with
  | UpstreamChannelStateEvent _ state value | DownstreamChannelStateEvent _ _ state value => Some (state, value)
  | _ => None
  end.
End Handlers.

(** The functions that a class derived from [SimpleChannelUpstreamHandler]
    overrides, and those of the class itself. *)
Module SimpleChannelUpstreamHandler.
Section Simple.
Context {SA Msg W : Type} {T : Transport SA W}.
Abbreviation E := (event SA Msg).
Abbreviation H := (handling channelRef E W).

Record t := MkSimple {
  messageReceived : E -> H;
  exceptionCaught : E -> H;
  writeCompleted : E -> H;
  channelOpen : E -> H;
  channelBound : E -> H;
  channelConnected : E -> H;
  channelInterestChanged : E -> H;
  channelDisconnected : E -> H;
  channelUnbound : E -> H;
  channelClosed : E -> H;
  childChannelOpen : E -> H;
  childChannelClosed : E -> H;
}.

Definition new : t :=
  MkSimple forward forward forward forward forward forward forward forward forward forward forward forward.

Definition channelStateChanged (h : t) (e : E) : H :=
  match getState e with
  | Some (OPEN, None) => channelClosed h e
  | Some (OPEN, Some _) => channelOpen h e
  | Some (BOUND, None) => channelUnbound h e
  | Some (BOUND, Some _) => channelBound h e
  | Some (CONNECTED, None) => channelDisconnected h e
  | Some (CONNECTED, Some _) => channelConnected h e
  | Some (INTEREST_OPS, _) => channelInterestChanged h e
  | None => forward e
  end.

(** Whether the child channel is open is asked when the event arrives. *)
Definition childChannelStateChanged (h : t) (e : E) : H :=
  match e with
  | DefaultChildChannelStateEvent _ child =>
      Reads (fun w => if isOpen child w then childChannelOpen h e else childChannelClosed h e)
  | _ => forward e
  end.

Definition handler (h : t) : ChannelUpstreamHandler E W :=
  MkUpstreamHandler (messageReceived h) (exceptionCaught h) (writeCompleted h)
    (channelStateChanged h) (childChannelStateChanged h) forward.
End Simple.
Arguments t : clear implicits.
End SimpleChannelUpstreamHandler.

Module SimpleChannelDownstreamHandler.
Section Simple.
Context {SA Msg W : Type}.
Abbreviation E := (event SA Msg).
Abbreviation H := (handling channelRef E W).

Record t := MkSimple {
  writeRequested : E -> H;
  bindRequested : E -> H;
  connectRequested : E -> H;
  setInterestOpsRequested : E -> H;
  disconnectRequested : E -> H;
  unbindRequested : E -> H;
  closeRequested : E -> H;
}.

Definition new : t := MkSimple forwardDown forwardDown forwardDown forwardDown forwardDown forwardDown forwardDown.

(** A request to open a channel has no function, and goes no further. *)
Definition stateChangeRequested (h : t) (e : E) : H :=
  match getState e with
  | Some (OPEN, None) => closeRequested h e
  | Some (OPEN, Some _) => Returns tt
  | Some (BOUND, None) => unbindRequested h e
  | Some (BOUND, Some _) => bindRequested h e
  | Some (CONNECTED, None) => disconnectRequested h e
  | Some (CONNECTED, Some _) => connectRequested h e
  | Some (INTEREST_OPS, _) => setInterestOpsRequested h e
  | None => forwardDown e
  end.

Definition handler (h : t) : ChannelDownstreamHandler E W :=
  MkDownstreamHandler (writeRequested h) (stateChangeRequested h) forwardDown.
End Simple.
Arguments t : clear implicits.
End SimpleChannelDownstreamHandler.

(** ** What a user brings *)

(** The handlers of a user, over a state [U] of theirs. *)
Class UserHandlers (UH SA Msg U : Type) := {
  userHandler : ChannelHandler UH;
  upstreamHandler : UH -> ChannelUpstreamHandler (event SA Msg) U;
  downstreamHandler : UH -> ChannelDownstreamHandler (event SA Msg) U;
}.
#[export] Existing Instance userHandler.

(** [SocketAddress::NULL_ADDRESS]. *)
Class NullAddress (SA : Type) := { NULL_ADDRESS : SA }.

(** ** A table of futures *)

(** The futures: their results, and the next address. *)
Record futures := MkFutures {
  results : gmap futureRef (option bool);
  nextFuture : futureRef;
}.

(** [DefaultChannelFuture::setSuccess] and [setFailure], and whether it was pending. *)
Definition complete (f : futureRef) (success : bool) (t : futures) : bool * futures :=
  match results t !! f with
  | Some None => (true, MkFutures (<[f := Some success]> (results t)) (nextFuture t))
  | _ => (false, t)
  end.
Definition newFutureOf (t : futures) : futureRef * futures :=
  (nextFuture t, MkFutures (<[nextFuture t := None]> (results t)) (Pos.succ (nextFuture t))).
(** [FailedChannelFuture]. *)
Definition failedFutureOf (t : futures) : futureRef * futures :=
  (nextFuture t, MkFutures (<[nextFuture t := Some false]> (results t)) (Pos.succ (nextFuture t))).
Definition isCompleted (f : futureRef) (t : futures) : bool :=
  match results t !! f with Some (Some _) => true | _ => false end.
