(* ===== verification/Embedder.v ===== *)
(** * UserHandlers embedders

    [AbstractCodecEmbedder], [DecoderEmbedder] and [EncoderEmbedder] of
    [src/src/cetty/handler/codec/embedder]: a pipeline of the given handlers, whose
    last handler and whose sink is one object, the [EmbeddedChannelSink], which
    keeps the messages that arrive on either side in the product queue. *)

From stdpp Require Import gmap strings pretty.
From S2P Require Import Prelude Pipeline Channels.
Import DefaultChannelPipeline (Behaviour, prog, Returns, Throws, Sends, Reads, Writes, pipelineSend, updates, lift, send,
  SendUpstream, SendDownstream, handling, sinking).

(** ** The handlers of the pipeline *)

Inductive handler (UH : Type) :=
  | Handler (h : UH)
  | EmbeddedChannelSink.
Arguments Handler {UH} _.
Arguments EmbeddedChannelSink {UH}.

(** The state of the user's handlers, the product queue, and the futures: the next
    address and those that succeeded. *)
Record world (U Msg : Type) := MkWorld {
  user : U;
  productQueue : list Msg;
  nextFuture : futureRef;
  succeeded : list futureRef;
}.
Arguments MkWorld {U Msg} _ _ _ _.
Arguments user {U Msg} _.
Arguments productQueue {U Msg} _.
Arguments nextFuture {U Msg} _.
Arguments succeeded {U Msg} _.

Module AbstractCodecEmbedder.
Section Embedder.
Context {UH SA Msg U : Type} {CO : UserHandlers UH SA Msg U} {NA : NullAddress SA}.
Abbreviation E := (event SA Msg).
Abbreviation W := (world U Msg).

Definition with_user (u : U) (w : W) : W := MkWorld u (productQueue w) (nextFuture w) (succeeded w).
Definition with_productQueue (q : list Msg) (w : W) : W := MkWorld (user w) q (nextFuture w) (succeeded w).

(** *** EmbeddedChannelSink *)

Definition push_front (message : Msg) (w : W) : W := with_productQueue (message :: productQueue w) w.

Definition getMessage (e : E) : option Msg :=
  match e with
  | UpstreamMessageEvent _ m _ | DownstreamMessageEvent _ _ m _ => Some m
  | _ => None
  end.

Definition handleMessageEvent (e : E) (w : W) : W :=
  match getMessage e with Some m => push_front m w | None => w end.

Definition sinkHandler : ChannelUpstreamHandler E W :=
  MkUpstreamHandler (fun e => updates (handleMessageEvent e))
    (fun _ => Returns tt) (fun _ => Returns tt) (fun _ => Returns tt) (fun _ => Returns tt) (fun _ => Returns tt).

(** As the sink of the pipeline: [writeRequested], [stateChangeRequested] and
    [eventSunk]. *)
Definition writeRequested (e : E) : sinking channelRef E W := updates (handleMessageEvent e).
Definition sunk (e : E) : sinking channelRef E W :=
  match e with
  | UpstreamMessageEvent _ _ _ | DownstreamMessageEvent _ _ _ _ => writeRequested e
  | _ => Returns tt
  end.
(** It throws a [CodecEmbedderException]. *)
Definition sinkExceptionCaught (e : E) : sinking channelRef E W := Throws RuntimeException.

#[global] Instance handler_eq_dec : EqDecision (handler UH).
Proof. solve_decision. Defined.

#[global] Instance EmbeddedHandler : ChannelHandler (handler UH) := {|
  isUpstream h := match h with Handler h => isUpstream h | EmbeddedChannelSink => true end;
  isDownstream h := match h with Handler h => isDownstream h | EmbeddedChannelSink => false end;
  lifeCycle h := match h with Handler h => lifeCycle h | EmbeddedChannelSink => None end;
  handler_toString h := match h with Handler h => handler_toString h | EmbeddedChannelSink => "EmbeddedChannelSink" end;
|}.

(** The [notifyHandlerException] of [EmbeddedChannelPipeline] is [const] and so no
    override of that of [DefaultChannelPipeline]: the exception of a handler goes to
    [EmbeddedChannelSink::exceptionCaught], and what that throws is logged. *)
#[global] Instance EmbeddedBehaviour : Behaviour (handler UH) channelRef E W := {|
  DefaultChannelPipeline.handleUpstream h e :=
    match h with
    | Handler h => lift user with_user (callUpstream (upstreamHandler h) e)
    | EmbeddedChannelSink => callUpstream sinkHandler e
    end;
  DefaultChannelPipeline.handleDownstream h e :=
    match h with
    | Handler h => lift user with_user (callDownstream (downstreamHandler h) e)
    | EmbeddedChannelSink => Returns tt
    end;
  DefaultChannelPipeline.isExceptionEvent := isExceptionEvent;
  DefaultChannelPipeline.sinkCall := sunk;
  DefaultChannelPipeline.sinkException := sinkExceptionCaught;
|}.

(** *** EmbeddedChannel *)

Abbreviation pipeline := (DefaultChannelPipeline.t (handler UH) channelRef unit).

(** The channel and its close future. *)
Definition theChannel : channelRef := 1%positive.
Definition theCloseFuture : futureRef := 1%positive.

Definition setSuccess (f : futureRef) : M W bool := fun w =>
  if bool_decide (f ∈ succeeded w) then (Ok false, w)
  else (Ok true, MkWorld (user w) (productQueue w) (nextFuture w) (f :: succeeded w)).

#[global] Instance EmbeddedChannel : Transport SA W := {|
  getParent _ _ := None;
  isOpen _ w := negb (bool_decide (theCloseFuture ∈ succeeded w));
  getRemoteAddress _ _ := NULL_ADDRESS;
  newFuture _ _ w := (nextFuture w, MkWorld (user w) (productQueue w) (Pos.succ (nextFuture w)) (succeeded w));
  getCloseFuture _ _ := theCloseFuture;
  isDone f w := bool_decide (f ∈ succeeded w);
|}.

(** *** AbstractCodecEmbedder *)

(** The embedder; [fuel] bounds the calls that follow from an event. *)
Record t := MkEmbedder {
  thePipeline : pipeline;
  state : W;
}.

(** A function of the channel; its pipeline is the only one. *)
Definition own (p : pipeline) (c : channelRef) : option pipeline := if bool_decide (c = theChannel) then Some p else None.
Definition on_channel {A} (fuel : nat) (h : prog (pipelineSend channelRef E) W A) : M t A := fun s =>
  let '(r, w) := DefaultChannelPipeline.run (own (thePipeline s)) fuel h (state s) in
  (r, MkEmbedder (thePipeline s) w).

Definition fireInitialEvents (fuel : nat) : M t unit :=
  on_channel fuel (Channels.fireChannelOpen theChannel) ;!
  on_channel fuel (Channels.fireChannelBound theChannel NULL_ADDRESS) ;!
  on_channel fuel (Channels.fireChannelConnected theChannel NULL_ADDRESS).

Fixpoint configureLoop (i : N) (handlers : list (option UH)) : M pipeline unit :=
  match handlers with
  | [] => ret tt
  | h :: handlers => DefaultChannelPipeline.addLast (pretty i) (Handler <$> h) ;! configureLoop (i + 1) handlers
  end.

Definition configurePipeline (handlers : list (option UH)) : M pipeline unit :=
  throw_if (match handlers with [] => true | _ => false end) InvalidArgumentException ;!
  configureLoop 0 handlers ;!
  DefaultChannelPipeline.addLast "SINK" (Some EmbeddedChannelSink).

Definition new (fuel : nat) (handlers : list (option UH)) (u : U) : result t :=
  let '(r, p) := (DefaultChannelPipeline.attach (Some theChannel) (Some tt) ;! configurePipeline handlers) DefaultChannelPipeline.new in
  let? _ := r in
  let '(r, s) := fireInitialEvents fuel (MkEmbedder p (MkWorld u [] 2 [])) in
  let? _ := r in
  Ok s.

Definition empty (s : t) : bool := match productQueue (state s) with [] => true | _ => false end.

Definition finish (fuel : nat) : M t bool :=
  on_channel fuel (AbstractChannel.close theChannel) ;!
  on_channel fuel (Channels.fireChannelDisconnected theChannel) ;!
  on_channel fuel (Channels.fireChannelUnbound theChannel) ;!
  on_channel fuel (Channels.fireChannelClosed theChannel) ;!
  gets (fun s => negb (empty s)).

(** [front] and [pop_front] of an empty deque are undefined. *)
Definition peek : M t Msg :=
  reads (fun s => match productQueue (state s) with m :: _ => Ok m | [] => Err Undefined end).
Definition poll : M t Msg :=
  let! m := peek in
  modify (fun s => MkEmbedder (thePipeline s) (with_productQueue (tail (productQueue (state s))) (state s))) ;!
  ret m.
Definition pollAll : M t (list Msg) :=
  let! msgs := gets (fun s => productQueue (state s)) in
  modify (fun s => MkEmbedder (thePipeline s) (with_productQueue [] (state s))) ;!
  ret msgs.
Definition size (s : t) : Z := zlen (productQueue (state s)).

(** [DecoderEmbedder::offer] and [EncoderEmbedder::offer]. *)
Definition offerDecoder (fuel : nat) (input : Msg) : M t bool :=
  on_channel fuel (Channels.fireMessageReceived theChannel input) ;!
  gets (fun s => negb (empty s)).
Definition offerEncoder (fuel : nat) (input : Msg) : M t bool :=
  let! f := on_channel fuel (AbstractChannel.write theChannel input true) in
  match f with
  | Some f =>
      modify (fun s => MkEmbedder (thePipeline s) (snd (setSuccess f (state s)))) ;!
      gets (fun s => negb (empty s))
  | None => throw Undefined
  end.
End Embedder.
End AbstractCodecEmbedder.
