(* ===== verification/EmbedderProperties.v ===== *)
(** * What comes out of a codec embedder

    The decoders of a [DecoderEmbedder] work as one: what is in the product queue is
    what the composition of the decoders makes of the events, the last message
    first. *)

From stdpp Require Import gmap strings pretty.
From S2P Require Import Prelude Pipeline PipelineProperties PipelineDelivery Channels ChannelsProperties Embedder.
Import DefaultChannelPipeline (Behaviour, prog, Returns, Throws, Sends, Reads, Writes, pipelineSend, PipelineUpstream,
  PipelineDownstream, lift, send, SendUpstream, SendDownstream, handling).
Import AbstractCodecEmbedder.

(** ** The names of the handlers *)

Lemma pretty_N_go_suffix x : forall s, exists p, pretty_N_go x s = (p +:+ s)%string.
Proof.
  induction (N.lt_wf_0 x) as [x _ IH]. intros s. destruct (decide (x = 0)%N) as [->|Hx]; [exists ""%string; reflexivity|].
  rewrite pretty_N_go_step by lia. destruct (IH (x / 10)%N ltac:(apply N.div_lt; lia) (String (pretty_N_char (x mod 10)) s)) as (p & ->).
  exists (p +:+ String (pretty_N_char (x mod 10)) ""%string)%string.
  clear. induction p as [|c p IH]; [reflexivity | exact (f_equal (String c) IH)].
Qed.

Lemma pretty_not_sink (x : N) : pretty x <> "SINK"%string.
Proof.
  unfold pretty, pretty_N. destruct (decide (x = 0)%N) as [->|Hx]; [discriminate|]. rewrite pretty_N_go_step by lia.
  destruct (pretty_N_go_suffix (x / 10) (String (pretty_N_char (x mod 10)) ""%string)) as (p & ->).
  destruct p as [|c1 [|c2 [|c3 [|c4 p]]]]; cbn; intros E; try discriminate E.
  - injection E as _ _ _ E. revert E. unfold pretty_N_char. repeat case_match; discriminate.
  - destruct p; discriminate E.
Qed.

(** ** Handlers as machines

    The states of the handlers, each in its place. *)
Class States (K St U : Type) := {
  get_state : K -> U -> St;
  put_state : K -> St -> U -> U;
  get_put_same k s u : get_state k (put_state k s u) = s;
  get_put_other k k' s u : k <> k' -> get_state k' (put_state k s u) = get_state k' u;
  put_put_same k s s' u : put_state k s (put_state k s' u) = put_state k s u;
  put_put_other k k' s s' u : k <> k' -> put_state k s (put_state k' s' u) = put_state k' s' (put_state k s u);
  put_get k u : put_state k (get_state k u) u = u;
}.

Section Machines.
Context {UH SA Msg U St : Type} {CO : UserHandlers UH SA Msg U} {NA : NullAddress SA} {SU : States UH St U}.
Abbreviation E := (event SA Msg).
Abbreviation W := (world U Msg).
Abbreviation entry := (string * handler UH)%type.

(** A decoder: an upstream handler that answers an event, in its state, with events. *)
Variable step : UH -> St -> E -> St * list E.

Record decoder (h : UH) : Prop := MkDecoder {
  decoder_up : isUpstream h = true;
  decoder_down : isDownstream h = false;
  decoder_joins : joins h;
  decoder_step e : callUpstream (upstreamHandler h) e
    = Reads (fun u => let '(s, outs) := step h (get_state h u) e in
                      Writes (put_state h s u) (DefaultChannelPipeline.sendEach (map SendUpstream outs)));
}.

(** The run of one decoder, and of one behind the other. *)
Fixpoint transduce (h : UH) (s : St) (es : list E) : St * list E :=
  match es with
  | [] => (s, [])
  | e :: es =>
      let '(s, o1) := step h s e in
      let '(s, o2) := transduce h s es in (s, o1 ++ o2)
  end.

Fixpoint through (hs : list UH) (u : U) (es : list E) : U * list E :=
  match hs with
  | [] => (u, es)
  | h :: hs =>
      let '(s, outs) := transduce h (get_state h u) es in
      let '(u, outs) := through hs u outs in (put_state h s u, outs)
  end.

Definition messages (es : list E) : list Msg := omap getMessage es.

(** The events as the pipeline delivers them: all that follows from one before the
    next. *)
Fixpoint deliver (hs : list UH) (e : E) (w : W) : W :=
  match hs with
  | [] => handleMessageEvent e w
  | h :: hs =>
      let '(s, outs) := step h (get_state h (user w)) e in
      fold_left (fun w o => deliver hs o w) outs (with_user (put_state h s (user w)) w)
  end.

Lemma transduce_app h s es es' : transduce h s (es ++ es') =
  let '(s, o1) := transduce h s es in let '(s, o2) := transduce h s es' in (s, o1 ++ o2).
Proof.
  revert s. induction es as [|e es IH]; intros s; cbn.
  - destruct (transduce h s es'). reflexivity.
  - destruct (step h s e) as [s1 o1]. rewrite IH. destruct (transduce h s1 es) as [s2 o2].
    destruct (transduce h s2 es') as [s3 o3]. rewrite app_assoc. reflexivity.
Qed.

Lemma through_put hs h s u es : h ∉ hs ->
  through hs (put_state h s u) es = let '(u, outs) := through hs u es in (put_state h s u, outs).
Proof.
  revert u es. induction hs as [|k hs IH]; intros u es Hh; [reflexivity|]. cbn.
  apply not_elem_of_cons in Hh as [Hk Hh]. rewrite get_put_other by exact Hk.
  destruct (transduce k (get_state k u) es) as [s1 o1]. rewrite IH by exact Hh.
  destruct (through hs u o1) as [u2 o2]. rewrite put_put_other by congruence. reflexivity.
Qed.

Lemma through_app hs u es es' : NoDup hs -> through hs u (es ++ es') =
  let '(u, o1) := through hs u es in let '(u, o2) := through hs u es' in (u, o1 ++ o2).
Proof.
  revert u es es'. induction hs as [|h hs IH]; intros u es es' Hn; [reflexivity|]. cbn.
  apply list.NoDup_cons in Hn as [Hh Hn]. rewrite transduce_app. destruct (transduce h (get_state h u) es) as [s1 o1].
  destruct (through hs u o1) as [u1 p1] eqn:E1. rewrite get_put_same.
  destruct (transduce h s1 es') as [s2 o2]. rewrite IH, E1, through_put by assumption.
  destruct (through hs u1 o2) as [u2 p2]. rewrite put_put_same. reflexivity.
Qed.

(** The order in which the events are delivered does not show. *)
Lemma deliver_all hs es w : NoDup hs -> fold_left (fun w e => deliver hs e w) es w =
  let '(u, outs) := through hs (user w) es in
  MkWorld u (rev (messages outs) ++ productQueue w) (nextFuture w) (succeeded w).
Proof.
  revert es w. induction hs as [|h hs IH]; intros es w Hn.
  - cbn. revert w. induction es as [|e es IHes]; intros w; [destruct w; reflexivity|]. cbn. rewrite IHes.
    unfold handleMessageEvent, messages. cbn. destruct (getMessage e) as [m|]; [|reflexivity].
    cbn. rewrite <- app_assoc. reflexivity.
  - apply list.NoDup_cons in Hn as [Hh Hn]. revert w. induction es as [|e es IHes]; intros w.
    + cbn. specialize (IH [] w Hn). cbn in IH. destruct (through hs (user w) []) as [u o] eqn:E.
      assert (through hs (user w) [] = (user w, [])) as E0.
      { clear. induction hs as [|k hs IH]; [reflexivity|]. cbn. rewrite IH, put_get. reflexivity. }
      rewrite E0 in E. injection E as <- <-. rewrite put_get. destruct w; reflexivity.
    + cbn [fold_left]. rewrite IHes. change (e :: es) with ([e] ++ es). rewrite through_app by (constructor; assumption).
      cbn [deliver through transduce]. destruct (step h (get_state h (user w)) e) as [s o]. rewrite app_nil_r, IH by exact Hn.
      cbn [user with_user]. rewrite through_put by exact Hh. destruct (through hs (user w) o) as [u1 p1].
      cbn [user productQueue nextFuture succeeded with_user]. destruct (transduce h _ es) as [s2 o2].
      destruct (through hs _ o2) as [u2 p2]. unfold messages. rewrite omap_app, rev_app_distr, <- app_assoc. reflexivity.
Qed.

(** ** The pipeline of an embedder *)

(** The list of the decoders [hs], and the sink. *)
Definition decoders (l : list (string * UH)) : list entry :=
  map (fun x => (fst x, Handler (snd x))) l ++ [("SINK"%string, EmbeddedChannelSink)].

Abbreviation spec_invoke := (spec_invoke (S := unit) (BE := EmbeddedBehaviour)).
Abbreviation visits := (list (DefaultChannelPipeline.visit E)).

Lemma find_next_first (passed : list entry) x (rest : list entry) :
  isUpstream (snd x) = true -> find_next isUpstream passed (x :: rest) = Some (passed, x, rest).
Proof. cbn. intros ->. reflexivity. Qed.

(** The sends of a decoder, when each of them is delivered by [f] as [g] says. *)
Lemma execute_sends (f : send channelRef E -> M W visits) (g : E -> W -> W) outs w :
  (forall o w, exists vs, f (SendUpstream o) w = (Ok vs, g o w)) ->
  exists vs, DefaultChannelPipeline.execute f (lift user with_user (DefaultChannelPipeline.sendEach (map SendUpstream outs))) w
    = (Ok (vs, Ok tt), fold_left (fun w o => g o w) outs w).
Proof.
  intros Hf. revert w. induction outs as [|o outs IH]; intros w; [exists []; reflexivity|].
  cbn. destruct (Hf o w) as (v1 & E1). destruct (IH (g o w)) as (v2 & E2).
  exists (v1 ++ v2). rewrite (bind_ok _ _ _ _ _ E1), (bind_ok _ _ _ _ _ E2). reflexivity.
Qed.

Lemma handle_decoder (f : send channelRef E -> M W visits) caught h e (g : E -> W -> W) w : decoder h ->
  (forall o w, exists vs, f (SendUpstream o) w = (Ok vs, g o w)) ->
  exists vs, DefaultChannelPipeline.handle f caught (lift user with_user (callUpstream (upstreamHandler h) e)) w
    = (let '(s, outs) := step h (get_state h (user w)) e in
       (Ok vs, fold_left (fun w o => g o w) outs (with_user (put_state h s (user w)) w))).
Proof.
  intros Hh Hg. rewrite (decoder_step _ Hh). unfold DefaultChannelPipeline.handle. cbn [lift DefaultChannelPipeline.execute].
  rewrite bind_assoc, bind_gets. unfold id. destruct (step h (get_state h (user w)) e) as [s outs].
  cbn [lift DefaultChannelPipeline.execute]. rewrite bind_assoc, bind_gets. unfold id. cbn [DefaultChannelPipeline.execute].
  rewrite bind_assoc, bind_modify.
  destruct (execute_sends f g outs (with_user (put_state h s (user w)) w) Hg) as (vs & Ev).
  rewrite (bind_ok _ _ _ _ _ Ev). exists vs. reflexivity.
Qed.

Lemma first_decoder l : Forall (fun x => decoder (snd x)) l ->
  match decoders l with x :: _ => isUpstream (snd x) = true | [] => False end.
Proof. destruct l as [|[n h] l]; [reflexivity|]. intros Hd. apply List.Forall_cons_iff in Hd as [Hh _]. exact (decoder_up _ Hh). Qed.

(** The list of the channel of an embedder. *)
Definition own_list (l : list entry) (c : channelRef) : option (DefaultChannelPipeline.channelSink unit * list entry) :=
  if bool_decide (c = theChannel) then Some (DefaultChannelPipeline.Sink tt, l) else None.

Lemma invoke_delivers l all : forall fuel before e w, Forall (fun x => decoder (snd x)) l -> (length l < fuel)%nat ->
  match decoders l with
  | x :: after => exists vs, spec_invoke (own_list all) fuel theChannel (AtUpstream before x after) e w = (Ok vs, deliver (map snd l) e w)
  | [] => False
  end.
Proof.
  induction l as [|[n h] l IH]; intros [|fuel] before e w Hd Hf; try (cbn in Hf; lia).
  - cbn. destruct e; eexists; reflexivity.
  - apply List.Forall_cons_iff in Hd as [Hh Hd]. cbn [snd] in Hh. change (decoders ((n, h) :: l)) with ((n, Handler h) :: decoders l).
    pose proof (first_decoder l Hd) as Hfirst. cbn [map snd deliver PipelineDelivery.spec_invoke own_list].
    unfold own_list at 1. rewrite bool_decide_eq_true_2 by reflexivity.
    cbn [snd fst DefaultChannelPipeline.handleUpstream EmbeddedBehaviour].
    edestruct handle_decoder as (vs & Ev); [exact Hh | |].
    2: { destruct (step h (get_state h (user w)) e) as [s outs] eqn:Es. rewrite Es in Ev. rewrite (bind_ok _ _ _ _ _ Ev). eexists. reflexivity. }
    intros o w'. cbn [spec_context snd isUpstream EmbeddedHandler]. rewrite (decoder_up _ Hh).
    specialize (IH fuel ((n, Handler h) :: before) o w' Hd ltac:(cbn in Hf; lia)).
    destruct (decoders l) as [|y after]; [contradiction|]. rewrite find_next_first by exact Hfirst. exact IH.
Qed.

Abbreviation pipeline := (DefaultChannelPipeline.t (handler UH) channelRef unit).

(** A pipeline with these handlers, attached to the sink of an embedder. *)
Definition holds (p : pipeline) (l : list entry) : Prop := reached p l /\ DefaultChannelPipeline.sink p = DefaultChannelPipeline.Sink tt.

Lemma delivered_own p l fuel s w : holds p l ->
  DefaultChannelPipeline.deliver (own p) fuel s w = spec_deliver (own_list l) fuel s w.
Proof.
  intros [Hr Hs]. apply deliver_described. intros c. unfold own, own_list. destruct (bool_decide _); [auto | exact I].
Qed.

(** An event that is fired on the channel. *)
Lemma fired l fuel (p : pipeline) e w : Forall (fun x => decoder (snd x)) l -> (length l < fuel)%nat -> holds p (decoders l) ->
  exists vs, DefaultChannelPipeline.deliver (own p) fuel (PipelineUpstream theChannel e) w = (Ok vs, deliver (map snd l) e w).
Proof.
  intros Hd Hf Hr. rewrite (delivered_own p _ fuel _ w Hr). unfold spec_deliver. cbn [spec_pipeline].
  unfold own_list at 1. rewrite bool_decide_eq_true_2 by reflexivity.
  pose proof (first_decoder l Hd) as Hfirst. pose proof (invoke_delivers l (decoders l) fuel [] e w Hd Hf) as Hv.
  destruct (decoders l) as [|x after]; [contradiction|]. rewrite find_next_first by exact Hfirst. exact Hv.
Qed.

Lemma no_downstream passed (rest : list entry) : Forall (fun x : entry => isDownstream (snd x) = false) rest ->
  find_next isDownstream passed rest = None.
Proof. intros Hr. revert passed. induction Hr as [|x rest Hx _ IH]; intros passed; [reflexivity|]. cbn [find_next]. rewrite Hx. apply IH. Qed.

(** No handler takes a state change that is requested, and the sink does nothing. *)
Lemma request_sunk l fuel (p : pipeline) c f st v w : Forall (fun x => decoder (snd x)) l -> holds p (decoders l) ->
  exists vs, DefaultChannelPipeline.deliver (own p) (S fuel) (PipelineDownstream theChannel (DownstreamChannelStateEvent c f st v)) w
    = (Ok vs, w).
Proof.
  intros Hd Hr. rewrite (delivered_own p _ _ _ w Hr). unfold spec_deliver. cbn [spec_pipeline].
  unfold own_list at 1. rewrite bool_decide_eq_true_2 by reflexivity. rewrite no_downstream.
  - cbn [PipelineDelivery.spec_invoke]. unfold own_list at 1. rewrite bool_decide_eq_true_2 by reflexivity. eexists. reflexivity.
  - apply List.Forall_rev. unfold decoders. apply List.Forall_app. split; [|repeat constructor].
    apply List.Forall_map. eapply List.Forall_impl; [|exact Hd]. intros [n h] Hh. exact (decoder_down _ Hh).
Qed.

(** *** The pipeline that an embedder is given *)

Definition listed (l : list (string * UH)) : list entry := map (fun x => (fst x, Handler (snd x))) l.

Lemma configureLoop_vector handlers : forall i (p : pipeline),
  configureLoop i handlers p = Pipelines.ofVectorLoop i (map (option_map Handler) handlers) p.
Proof.
  induction handlers as [|[h|] handlers IH]; intros i p; [reflexivity | |exact (IH (i + 1)%N p)].
  cbn [configureLoop map option_map Pipelines.ofVectorLoop]. apply bind_ext. intros _ p'. apply IH.
Qed.

Lemma numbered_listed i handlers : numbered i (map (option_map Handler) handlers) = listed (numbered i handlers).
Proof.
  revert i. induction handlers as [|[h|] handlers IH]; intros i; cbn; [reflexivity | | apply IH]. rewrite IH. reflexivity.
Qed.

Lemma sink_not_listed i (handlers : list (option UH)) : has_name "SINK" (listed (numbered i handlers)) = false.
Proof.
  revert i. induction handlers as [|[h|] handlers IH]; intros i; cbn; [reflexivity | | apply IH].
  rewrite bool_decide_false by apply pretty_not_sink. apply IH.
Qed.

(** The additions keep the sink. *)
Lemma configureLoop_sink handlers : forall i, keeps_sink (configureLoop i handlers : M pipeline unit).
Proof.
  induction handlers as [|h handlers IH]; intros i; [apply keeps_ret|]. cbn [configureLoop].
  apply keeps_bind; [exact (perform_keeps_sink (AddLast (pretty i) (Handler <$> h))) | intros _; apply IH].
Qed.

Lemma configured (handlers : list (option UH)) : handlers <> [] -> Forall (fun h => forall x, h = Some x -> decoder x) handlers ->
  exists p : pipeline,
    (DefaultChannelPipeline.attach (Some theChannel) (Some tt) ;! configurePipeline handlers) DefaultChannelPipeline.new = (Ok tt, p) /\
    holds p (decoders (numbered 0 handlers)).
Proof.
  intros Hne Hd. unfold configurePipeline.
  set (p0 := snd (DefaultChannelPipeline.attach (Some theChannel) (Some tt) (DefaultChannelPipeline.new : pipeline))).
  assert (reached p0 []) as Hr0 by apply reached_attach, reached_new.
  rewrite (bind_ok _ _ _ tt p0) by reflexivity. rewrite bind_throw_if. destruct handlers as [|h0 handlers0]; [contradiction|].
  set (handlers := h0 :: handlers0) in *.
  destruct (ofVectorLoop_reached (map (option_map Handler) handlers) 0 p0 [] Hr0) as (p1 & E1 & Hr1).
  - intros n Hn. discriminate.
  - apply List.Forall_map. eapply List.Forall_impl; [|exact Hd]. intros [h|] Hh x E; [|discriminate]. injection E as <-.
    exact (decoder_joins h (Hh h eq_refl)).
  - rewrite <- configureLoop_vector in E1. rewrite (bind_ok _ _ _ _ _ E1). cbn [app] in Hr1. rewrite numbered_listed in Hr1.
    destruct (addLast_joins p1 _ "SINK" EmbeddedChannelSink Hr1) as (p2 & E2 & Hr2).
    + repeat split.
    + apply sink_not_listed.
    + exists p2. split; [exact E2|]. split; [exact Hr2|].
      pose proof (perform_keeps_sink (AddLast "SINK" (Some EmbeddedChannelSink)) p1) as Hk. cbn [perform] in Hk. rewrite E2 in Hk.
      pose proof (configureLoop_sink handlers 0 p0) as Hk0. rewrite E1 in Hk0. cbn [snd] in Hk, Hk0. rewrite Hk0 in Hk. injection Hk as _ Hk. exact Hk.
Qed.

(** *** What an embedder makes of its input *)

Definition initialEvents : list E :=
  [UpstreamChannelStateEvent theChannel OPEN (Some (AnyBool true));
   UpstreamChannelStateEvent theChannel BOUND (Some (AnyAddressPointer NULL_ADDRESS));
   UpstreamChannelStateEvent theChannel CONNECTED (Some (AnyAddressPointer NULL_ADDRESS))].
Definition arrivals (inputs : list Msg) : list E := map (fun m => UpstreamMessageEvent theChannel m NULL_ADDRESS) inputs.
Definition finalEvents : list E :=
  [UpstreamChannelStateEvent theChannel CONNECTED None; UpstreamChannelStateEvent theChannel BOUND None;
   UpstreamChannelStateEvent theChannel OPEN None].

Fixpoint offerAll (fuel : nat) (inputs : list Msg) : M AbstractCodecEmbedder.t unit :=
  match inputs with
  | [] => ret tt
  | m :: inputs => offerDecoder fuel m ;! offerAll fuel inputs
  end.

(** The functions of the channel, over a pipeline of decoders. *)
Section Running.
Variables (l : list (string * UH)) (fuel : nat) (p : pipeline).
Hypotheses (Hd : Forall (fun x => decoder (snd x)) l) (Hf : (length l < fuel)%nat) (Hr : holds p (decoders l)).
Abbreviation emb w := (MkEmbedder p w).

Abbreviation delivered := (fold_left (fun w e => deliver (map snd l) e w)).

Lemma upstream_run (h : prog (pipelineSend channelRef E) W unit) e w :
  (forall (f : pipelineSend channelRef E -> M W visits) w, DefaultChannelPipeline.execute f h w
     = DefaultChannelPipeline.execute f (Channels.pipelineUpstream theChannel e) w) ->
  on_channel fuel h (emb w) = (Ok tt, emb (deliver (map snd l) e w)).
Proof.
  intros Eh. destruct (fired l fuel p e w Hd Hf Hr) as (vs & Ev). unfold on_channel, DefaultChannelPipeline.run.
  cbn [thePipeline state]. unfold bind at 1. rewrite Eh. cbn [Channels.pipelineUpstream DefaultChannelPipeline.execute].
  rewrite (bind_ok _ _ _ _ _ Ev). reflexivity.
Qed.

Lemma initial_run w : fireInitialEvents fuel (emb w) = (Ok tt, emb (delivered initialEvents w)).
Proof.
  unfold fireInitialEvents. cbn [fold_left initialEvents].
  erewrite bind_ok by (apply upstream_run; reflexivity). erewrite bind_ok by (apply upstream_run; reflexivity).
  apply upstream_run. reflexivity.
Qed.

Lemma offerAll_run inputs w : offerAll fuel inputs (emb w) = (Ok tt, emb (delivered (arrivals inputs) w)).
Proof.
  revert w. induction inputs as [|m inputs IH]; intros w; [reflexivity|]. cbn [offerAll]. unfold offerDecoder.
  rewrite bind_assoc.
  erewrite bind_ok by (apply (upstream_run _ (UpstreamMessageEvent theChannel m NULL_ADDRESS)); reflexivity).
  rewrite bind_gets, IH. reflexivity.
Qed.

Lemma close_run w : exists f, on_channel fuel (AbstractChannel.close theChannel) (emb w) = (Ok f, emb w).
Proof.
  unfold on_channel, DefaultChannelPipeline.run, AbstractChannel.close. cbn. rewrite !bind_assoc, bind_gets. unfold id.
  cbn. rewrite !bind_assoc, bind_gets. unfold id. destruct (bool_decide _); [eexists; reflexivity|]. cbn.
  destruct fuel as [|fuel']; [lia|].
  destruct (request_sunk l fuel' p theChannel (Some theCloseFuture) OPEN None w Hd Hr) as (vs & Ev).
  rewrite !bind_assoc, (bind_ok _ _ _ _ _ Ev). eexists. reflexivity.
Qed.

Lemma finish_run w : exists b, finish fuel (emb w) = (Ok b, emb (delivered finalEvents w)).
Proof.
  destruct (close_run w) as (f & Ec). unfold finish. rewrite (bind_ok _ _ _ _ _ Ec).
  erewrite bind_ok by (apply upstream_run; reflexivity). erewrite bind_ok by (apply upstream_run; reflexivity).
  erewrite bind_ok; [eexists; reflexivity|]. apply (upstream_run _ (UpstreamChannelStateEvent theChannel OPEN None)).
  intros f' w'. cbn. apply bind_ext. reflexivity.
Qed.
End Running.

Lemma numbered_handlers i (handlers : list (option UH)) : map snd (numbered i handlers) = omap id handlers.
Proof. revert i. induction handlers as [|[h|] handlers IH]; intros i; cbn; [reflexivity | rewrite IH; reflexivity | apply IH]. Qed.

Lemma numbered_decoders i (handlers : list (option UH)) :
  Forall (fun h => forall x, h = Some x -> decoder x) handlers -> Forall (fun x => decoder (snd x)) (numbered i handlers).
Proof.
  intros Hd. revert i. induction Hd as [|[h|] handlers Hh _ IH]; intros i; cbn; [constructor | | apply IH].
  constructor; [exact (Hh h eq_refl) | apply IH].
Qed.

Lemma polled (p : pipeline) (hs : list UH) es u : NoDup hs ->
  fst (pollAll (MkEmbedder p (fold_left (fun w e => deliver hs e w) es (MkWorld u [] 2%positive []))))
  = Ok (rev (messages (snd (through hs u es)))).
Proof.
  intros Hn. rewrite deliver_all by exact Hn. cbn [user]. destruct (through hs u es) as [u' outs]. cbn. rewrite app_nil_r. reflexivity.
Qed.

(** C6: what is polled from a [DecoderEmbedder] is what the composition of its decoders -
    each in its own state, over all that the one before it sent - makes of the events
    of the channel, of the inputs and, when it was finished, of the closing; the last
    message comes first, as the sink puts each before those that it has. *)
Theorem embedder_composes (handlers : list (option UH)) (u : U) (fuel : nat) (inputs : list Msg) :
  handlers <> [] -> Forall (fun h => forall x, h = Some x -> decoder x) handlers -> NoDup (omap id handlers) ->
  (length handlers < fuel)%nat ->
  exists s s' b s'', new fuel handlers u = Ok s /\
    offerAll fuel inputs s = (Ok tt, s') /\
    fst (pollAll s') = Ok (rev (messages (snd (through (omap id handlers) u (initialEvents ++ arrivals inputs))))) /\
    finish fuel s' = (Ok b, s'') /\
    fst (pollAll s'') = Ok (rev (messages (snd (through (omap id handlers) u (initialEvents ++ arrivals inputs ++ finalEvents))))).
Proof.
  intros Hne Hd Hn Hf. destruct (configured handlers Hne Hd) as (p & Ep & Hr). apply (numbered_decoders 0) in Hd.
  assert (length (numbered 0 handlers) < fuel)%nat as Hl.
  { eapply Nat.le_lt_trans; [|exact Hf]. generalize 0%N. clear. induction handlers as [|[h|] handlers IH]; intros i; cbn; [lia | |];
      specialize (IH (i + 1)%N); lia. }
  pose proof (initial_run _ fuel p Hd Hl Hr (MkWorld u [] 2%positive [])) as Ei.
  set (w1 := fold_left _ initialEvents _) in Ei. pose proof (offerAll_run _ fuel p Hd Hl Hr inputs w1) as Eo.
  set (w2 := fold_left _ (arrivals inputs) _) in Eo. destruct (finish_run _ fuel p Hd Hl Hr w2) as (b & Ef).
  eexists _, _, b, _. split; [|split; [exact Eo | split; [|split; [exact Ef|]]]].
  - unfold new. rewrite Ep. cbn [rbind]. rewrite Ei. reflexivity.
  - unfold w2, w1. rewrite <- fold_left_app, numbered_handlers. apply polled, Hn.
  - unfold w2, w1. rewrite <- !fold_left_app, numbered_handlers. apply polled, Hn.
Qed.
End Machines.

(** ** Instances of the hypotheses *)

Section Witnesses.

(** Two decoders of numbers: one counts its inputs and sends two messages for each,
    the other sums up, and sends the negated sum when the channel is closed. *)
Inductive demo := Splits | Sums.

#[local] Instance demo_dec : EqDecision demo.
Proof. solve_decision. Defined.

Abbreviation demo_event := (event unit Z).

Definition demo_step (h : demo) (s : Z) (e : demo_event) : Z * list demo_event :=
  match h, e with
  | Splits, UpstreamMessageEvent c m a => (s + 1, [UpstreamMessageEvent c (m + s) a; UpstreamMessageEvent c (10 * m) a])
  | Sums, UpstreamMessageEvent c m a => (s + m, [UpstreamMessageEvent c (s + m) a])
  | Sums, UpstreamChannelStateEvent c OPEN None => (s, [UpstreamMessageEvent c (- s) tt; e])
  | _, _ => (s, [e])
  end.

#[local] Instance demo_states : States demo Z (Z * Z).
Proof.
  refine {|
    get_state h u := match h with Splits => fst u | Sums => snd u end;
    put_state h s u := match h with Splits => (s, snd u) | Sums => (fst u, s) end;
  |}.
  - intros [] s u; reflexivity.
  - intros [] [] s u Hk; try contradiction; reflexivity.
  - intros [] s s' u; reflexivity.
  - intros [] [] s s' u Hk; try contradiction; reflexivity.
  - intros [] [a b]; reflexivity.
Defined.

Definition demo_machine (h : demo) (e : demo_event) : handling channelRef demo_event (Z * Z) :=
  Reads (fun u => let '(s, outs) := demo_step h (get_state h u) e in
                  Writes (put_state h s u) (DefaultChannelPipeline.sendEach (map SendUpstream outs))).

#[local] Instance demo_codec : UserHandlers demo unit Z (Z * Z) := {|
  userHandler := {|
    isUpstream _ := true;
    isDownstream _ := false;
    lifeCycle _ := None;
    handler_toString _ := "decoder"%string;
  |};
  upstreamHandler h := let f := demo_machine h in MkUpstreamHandler f f f f f f;
  downstreamHandler _ := MkDownstreamHandler forwardDown forwardDown forwardDown;
|}.

#[local] Instance demo_address : NullAddress unit := {| NULL_ADDRESS := tt |}.

Lemma demo_decoder h : decoder demo_step h.
Proof. split; [reflexivity | reflexivity | repeat split |]. intros []; reflexivity. Qed.

Lemma embedder_composes_witness : exists s s' b s'', new 4 [Some Splits; None; Some Sums] (0, 0) = Ok s /\
  offerAll 4 [1; 2] s = (Ok tt, s') /\ fst (pollAll s') = Ok [34; 14; 11; 1] /\
  finish 4 s' = (Ok b, s'') /\ fst (pollAll s'') = Ok [-34; 34; 14; 11; 1].
Proof.
  pose proof (embedder_composes demo_step [Some Splits; None; Some Sums] (0, 0) 4 [1; 2]) as H.
  assert (rev (messages (snd (through demo_step [Splits; Sums] (0, 0) (initialEvents ++ arrivals [1; 2])))) = [34; 14; 11; 1]) as E1 by reflexivity.
  assert (rev (messages (snd (through demo_step [Splits; Sums] (0, 0) (initialEvents ++ arrivals [1; 2] ++ finalEvents)))) = [-34; 34; 14; 11; 1]) as E2 by reflexivity.
  change (omap id [Some Splits; None; Some Sums]) with [Splits; Sums] in H. rewrite E1, E2 in H. apply H.
  - discriminate.
  - apply Forall_forall. intros h _ x _. apply demo_decoder.
  - apply list.NoDup_cons. split; [|apply list.NoDup_singleton]. now intros ?%list.list_elem_of_singleton.
  - cbn. lia.
Defined.

(** Two messages come back in the opposite order, and there is no answer when none is
    left. *)
Example last_in_first_out :
  (let? s := new 2 [Some Sums] (0, 0) in
   fst ((offerAll 2 [5; 7] ;! let! a := poll in let! b := poll in ret (a, b)) s)) = Ok (12, 5).
Proof. reflexivity. Qed.

Example poll_of_empty : (let? s := new 2 [Some Sums] (0, 0) in fst (poll s)) = Err Undefined.
Proof. reflexivity. Qed.

End Witnesses.

(** The exception of a handler is logged by the pipeline; [offer] just returns. *)
Section Failing.
#[local] Instance failing_codec : UserHandlers unit unit Z unit := {|
  userHandler := {|
    isUpstream _ := true;
    isDownstream _ := false;
    lifeCycle _ := None;
    handler_toString _ := "decoder"%string;
  |};
  upstreamHandler _ := MkUpstreamHandler (fun _ => Throws TooLongFrameException) forward forward forward forward forward;
  downstreamHandler _ := MkDownstreamHandler forwardDown forwardDown forwardDown;
|}.
#[local] Instance failing_address : NullAddress unit := {| NULL_ADDRESS := tt |}.

Example exceptions_lost :
  (let? s := new 2 [Some tt] tt in fst (offerDecoder 2 5 s)) = Ok false.
Proof. reflexivity. Qed.
End Failing.
