(* ===== verification/Bootstrap.v ===== *)
(** * Bootstraps and options

    [src/src/cetty/bootstrap/Bootstrap.cpp]: the options, the pipeline and the
    pipeline factory that a bootstrap is given; the factory that clones a pipeline
    ([Channels.cpp]), and the values of options ([ConversionUtil.h]).  Pipelines
    are objects in a store: a factory that clones keeps a pointer to its pipeline.
    A [std::map] is walked in the order of its keys. *)

From stdpp Require Import gmap strings sorting.
From S2P Require Import Prelude Text Pipeline Channels.

(** ** Options *)

(** What a [boost::any] of an option holds. *)
Inductive optionValue (SA PF BF : Type) :=
  | OptionInt (n : Z)
  | OptionBool (b : bool)
  | OptionText (s : text)
  | OptionAddress (a : SA)
  | OptionPipelineFactory (f : option PF)
  | OptionBufferFactory (f : option BF)
  | OptionOther.
Arguments OptionInt {SA PF BF} _.
Arguments OptionBool {SA PF BF} _.
Arguments OptionText {SA PF BF} _.
Arguments OptionAddress {SA PF BF} _.
Arguments OptionPipelineFactory {SA PF BF} _.
Arguments OptionBufferFactory {SA PF BF} _.
Arguments OptionOther {SA PF BF}.

Module ConversionUtil.
Definition toInt {SA PF BF} (v : optionValue SA PF BF) : Z := match v with OptionInt n => n | _ => 0 end.

Definition toBoolean {SA PF BF} (v : optionValue SA PF BF) : result bool :=
  match v with
  | OptionBool b => Ok b
  | OptionInt n => Ok (negb (n =? 0))
  | OptionText [] => Ok false
  | OptionText (first :: _ as s) =>
      if (first =? 89) || (first =? 84) || (first =? 121) || (first =? 116) then Ok true
      else let? n := Integer.atoi s in Ok (negb (n =? 0))
  | _ => Ok false
  end.
End ConversionUtil.

(** [std::map<std::string, boost::any>]. *)
Definition options (V : Type) : Type := gmap string V.

(** [insert] of a [std::map]: a key that is there keeps its value. *)
Definition insertNew {V} (key : string) (v : V) (m : options V) : options V :=
  match m !! key with Some _ => m | None => <[key := v]> m end.

Definition key_le {V} (x y : string * V) : Prop := String.leb (fst x) (fst y) = true.
#[global] Instance key_le_dec {V} : RelDecision (@key_le V).
Proof. intros x y. unfold key_le. apply _. Defined.

(** The walk of an iterator. *)
Definition entries {V} (m : options V) : list (string * V) := merge_sort key_le (map_to_list m).

(** ** Bootstrap *)

(** A pointer to a pipeline, and a pipeline factory: one that clones the pipeline
    that is pointed to ([CloneChannelPipelineFactory]), or one of the user. *)
Abbreviation pipelineRef := positive.

Inductive pipelineFactory (PF : Type) :=
  | CloneChannelPipelineFactory (cloneFromPipeline : pipelineRef)
  | UserFactory (f : PF).
Arguments CloneChannelPipelineFactory {PF} _.
Arguments UserFactory {PF} _.

(** What [getPipeline] of a user's factory and [clone] of a handler return. *)
Class Factories (H C S PF : Type) := {
  getPipelineOf : PF -> result (DefaultChannelPipeline.t H C S);
  clone : H -> H;
}.

Module Bootstrap.
Section Bootstrap.
Context {H : Type} {CH : ChannelHandler H} {C S PF CF V : Type} {FA : Factories H C S PF}.
Abbreviation pipeline := (DefaultChannelPipeline.t H C S).

Record t := MkBootstrap {
  objects : gmap pipelineRef pipeline;
  fresh : pipelineRef;
  externalSetPipelineFactory : bool;
  theOptions : options V;
  thePipeline : option pipelineRef;
  factory : option CF;
  thePipelineFactory : option (pipelineFactory PF);
}.

Definition new : t := MkBootstrap ∅ 1 false ∅ None None None.

Definition with_theOptions (m : options V) (b : t) : t :=
  MkBootstrap (objects b) (fresh b) (externalSetPipelineFactory b) m (thePipeline b) (factory b) (thePipelineFactory b).
Definition with_factory (f : option CF) (b : t) : t :=
  MkBootstrap (objects b) (fresh b) (externalSetPipelineFactory b) (theOptions b) (thePipeline b) f (thePipelineFactory b).

(** [new DefaultChannelPipeline()], and a change of the pipeline that is pointed to. *)
Definition newPipeline (p : pipeline) : M t pipelineRef :=
  let! b := gets id in
  modify (fun b => MkBootstrap (<[fresh b := p]> (objects b)) (Pos.succ (fresh b)) (externalSetPipelineFactory b) (theOptions b)
    (thePipeline b) (factory b) (thePipelineFactory b)) ;!
  ret (fresh b).

Definition object (a : pipelineRef) (b : t) : result pipeline :=
  match objects b !! a with Some p => Ok p | None => Err Undefined end.

Definition on_pipeline {A} (a : pipelineRef) (m : M pipeline A) : M t A := fun b =>
  match objects b !! a with
  | None => (Err Undefined, b)
  | Some p =>
      let '(r, p) := m p in
      (r, MkBootstrap (<[a := p]> (objects b)) (fresh b) (externalSetPipelineFactory b) (theOptions b)
            (thePipeline b) (factory b) (thePipelineFactory b))
  end.

Definition getFactory : M t CF :=
  reads (fun b => match factory b with Some f => Ok f | None => Err IllegalStateException end).

Definition setFactory (f : option CF) : M t unit :=
  match f with
  | None => throw NullPointerException
  | Some f =>
      let! b := gets id in
      match factory b with
      | Some _ => throw IllegalStateException
      | None => modify (with_factory (Some f))
      end
  end.

Definition setPipeline (p : option pipelineRef) : M t unit :=
  match p with
  | None => throw NullPointerException
  | Some p =>
      let! b := gets id in
      if externalSetPipelineFactory b then throw IllegalStateException
      else modify (fun b => MkBootstrap (objects b) (fresh b) false (theOptions b) (Some p) (factory b)
             (Some (CloneChannelPipelineFactory p)))
  end.

Definition getPipeline : M t pipelineRef :=
  let! b := gets id in
  match thePipeline b with
  | Some p => ret p
  | None =>
      if externalSetPipelineFactory b then throw IllegalStateException
      else
        let! p := newPipeline DefaultChannelPipeline.new in
        setPipeline (Some p) ;!
        ret p
  end.

Definition getPipelineAsMap : M t (list (string * H)) :=
  reads (fun b =>
    match thePipeline b with
    | None => Err IllegalStateException
    | Some p => let? p := object p b in DefaultChannelPipeline.toMap p
    end).

(** The handlers, one after the other, under their names. *)
Fixpoint addEach (pipelineMap : list (string * H)) : M pipeline unit :=
  match pipelineMap with
  | [] => ret tt
  | (n, h) :: pipelineMap => DefaultChannelPipeline.addLast n (Some h) ;! addEach pipelineMap
  end.

Definition setPipelineAsMap (pipelineMap : list (string * H)) : M t unit :=
  let! b := gets id in
  if externalSetPipelineFactory b then throw IllegalStateException
  else
    let! p := newPipeline DefaultChannelPipeline.new in
    on_pipeline p (addEach pipelineMap) ;!
    setPipeline (Some p).

Definition setPipelineFactory (f : option (pipelineFactory PF)) : M t unit :=
  match f with
  | None => throw NullPointerException
  | Some f =>
      modify (fun b => MkBootstrap (objects b) (fresh b) true (theOptions b) (thePipeline b) (factory b) (Some f))
  end.

Definition getOption (key : string) (b : t) : option V := theOptions b !! key.

Definition setOption (key : string) (value : option V) : M t unit :=
  match value with
  | None => modify (fun b => with_theOptions (base.delete key (theOptions b)) b)
  | Some v => modify (fun b => with_theOptions (insertNew key v (theOptions b)) b)
  end.

Definition setOptions (m : options V) : M t unit := modify (with_theOptions m).

(** [getPipeline()] of the pipeline factory: a clone is made of the pipeline as it is
    then. *)
Definition makePipeline (f : pipelineFactory PF) (b : t) : result pipeline :=
  match f with
  | CloneChannelPipelineFactory a => let? p := object a b in Pipelines.copyOf clone p
  | UserFactory f => getPipelineOf f
  end.
End Bootstrap.
Arguments t H C S PF CF V : clear implicits.
End Bootstrap.
