(* ===== verification/ServerSocket.v ===== *)
(** * Servers

    [src/src/cetty/bootstrap/ServerBootstrap.cpp] and what it sets into motion: the
    [Binder] in the pipeline of the server channel, the channel and its
    configuration ([AsioServerSocketChannel], [DefaultAsioServerSocketChannelConfig]),
    and [socket/asio/AsioServerSocketPipelineSink.cpp], which binds, accepts and
    closes.  The acceptor of asio is a parameter, with its state; so are the
    sockets that are accepted ([SocketChannel] models them) and the user's
    handlers.  All is done by one thread, until asio calls [handleAccept]. *)

From stdpp Require Import gmap strings.
From S2P Require Import Prelude MachineInt Pipeline Channels Bootstrap.
Import DefaultChannelPipeline (Behaviour, prog, Returns, Throws, Sends, Reads, Writes, pipelineSend, mapSends, asks, updates, tryCatch,
  ofResult, lift, send, SendUpstream, SendDownstream, SendPipeline, handling, sinking).

(** ** What is outside *)

(** The options of a socket, and the acceptor of asio: an error of the system is an
    exception. *)
Inductive socketOption := ReceiveBufferSize (n : Z) | ReuseAddress (b : bool).

Class Acceptor (SA A : Type) := {
  acceptorOpen : M A unit;
  acceptorClose : M A unit;
  acceptorIsOpen : A -> bool;
  setSocketOption : socketOption -> M A unit;
  acceptorBind : SA -> M A unit;
  acceptorListen : Z -> M A unit;
  localEndpoint : A -> option SA;
}.

(** The configuration of an accepted channel. *)
Class ChildConfiguration (CC V : Type) := {
  newChildConfig : CC;
  setChildOptions : options V -> M CC unit;
}.

(** [AsioSocketChannel]: what it does with requests, and the addresses of its socket. *)
Class AcceptedSockets (SA E W : Type) := {
  socketWrite : E -> sinking channelRef E W;
  socketSetInterestOps : channelRef -> option futureRef -> Z -> sinking channelRef E W;
  socketClose : channelRef -> option futureRef -> sinking channelRef E W;
  socketLocalAddress : channelRef -> option SA;
  socketRemoteAddress : channelRef -> option SA;
}.

(** ** The state *)

(** The handlers of the pipelines of a server: the binder, and those of the user. *)
Inductive handler (UH : Type) :=
  | BinderHandler
  | UserHandler (h : UH).
Arguments BinderHandler {UH}.
Arguments UserHandler {UH} _.

(** [DefaultAsioServerSocketChannelConfig]. *)
Record config (F BF : Type) := MkConfig {
  theFactory : option F;
  theBufferFactory : option BF;
  backlog : Z;
}.
Arguments MkConfig {F BF} _ _ _.
Arguments theFactory {F BF} _.
Arguments theBufferFactory {F BF} _.
Arguments backlog {F BF} _.

(** The acceptor, and the members of the server channel. *)
Record server (SA A CF : Type) := MkServer {
  acceptor : A;
  theConfig : CF;
  localAddress : option SA;
}.
Arguments MkServer {SA A CF} _ _ _.
Arguments acceptor {SA A CF} _.
Arguments theConfig {SA A CF} _.
Arguments localAddress {SA A CF} _.

(** The members of the binder. *)
Record binder (V : Type) := MkBinder {
  futureQueue : list futureRef;
  childOptions : options V;
}.
Arguments MkBinder {V} _ _.
Arguments futureQueue {V} _.
Arguments childOptions {V} _.

(** A channel that is accepted or waits to be: its pipeline, configuration and close
    future; the channels that were made, the one that waits for a connection, and the
    children that the sink knows. *)
Record child (P CC : Type) := MkChild {
  childPipeline : P;
  childConfig : CC;
  childCloseFuture : futureRef;
}.
Arguments MkChild {P CC} _ _ _.
Arguments childPipeline {P CC} _.
Arguments childConfig {P CC} _.
Arguments childCloseFuture {P CC} _.

Record accepted (P CC : Type) := MkAccepted {
  channels : gmap channelRef (child P CC);
  nextChannel : channelRef;
  accepting : option channelRef;
  clildrenChannels : list channelRef;
}.
Arguments MkAccepted {P CC} _ _ _ _.
Arguments channels {P CC} _.
Arguments nextChannel {P CC} _.
Arguments accepting {P CC} _.
Arguments clildrenChannels {P CC} _.

(** All of a server, with the state of the user's handlers. *)
Record world (U SV V AC : Type) := MkWorld {
  user : U;
  theServer : SV;
  theFutures : futures;
  theBinder : binder V;
  theAccepted : AC;
}.
Arguments MkWorld {U SV V AC} _ _ _ _ _.
Arguments user {U SV V AC} _.
Arguments theServer {U SV V AC} _.
Arguments theFutures {U SV V AC} _.
Arguments theBinder {U SV V AC} _.
Arguments theAccepted {U SV V AC} _.

Definition with_user {U SV V AC} (u : U) (w : world U SV V AC) : world U SV V AC :=
  MkWorld u (theServer w) (theFutures w) (theBinder w) (theAccepted w).
Definition with_server {U SV V AC} (s : SV) (w : world U SV V AC) : world U SV V AC :=
  MkWorld (user w) s (theFutures w) (theBinder w) (theAccepted w).
Definition with_futures {U SV V AC} (f : futures) (w : world U SV V AC) : world U SV V AC :=
  MkWorld (user w) (theServer w) f (theBinder w) (theAccepted w).
Definition with_binder {U SV V AC} (b : binder V) (w : world U SV V AC) : world U SV V AC :=
  MkWorld (user w) (theServer w) (theFutures w) b (theAccepted w).
Definition with_accepted {U SV V AC} (a : AC) (w : world U SV V AC) : world U SV V AC :=
  MkWorld (user w) (theServer w) (theFutures w) (theBinder w) a.

(** The server channel is the channel 1, its close future the future 1: users cannot
    complete it ([ChannelCloseFuture]). *)
Definition serverChannel : channelRef := 1%positive.
Definition serverCloseFuture : futureRef := 1%positive.

(** ** The configuration of the server channel *)

Module ServerChannelConfig.
Section Config.
Context {SA A F BF : Type} {AA : Acceptor SA A}.
Abbreviation value := (optionValue SA F BF).
Abbreviation SV := (server SA A (config F BF)).

Definition with_config (c : config F BF) (s : SV) : SV := MkServer (acceptor s) c (localAddress s).
Definition on_acceptor {R} (m : M A R) : M SV R := fun s =>
  let '(r, a) := m (acceptor s) in (r, MkServer a (theConfig s) (localAddress s)).

Definition setPipelineFactory (f : option F) : M SV unit :=
  match f with
  | None => throw NullPointerException
  | Some f => modify (fun s => with_config (MkConfig (Some f) (theBufferFactory (theConfig s)) (backlog (theConfig s))) s)
  end.
Definition setBufferFactory (f : option BF) : M SV unit :=
  match f with
  | None => throw NullPointerException
  | Some f => modify (fun s => with_config (MkConfig (theFactory (theConfig s)) (Some f) (backlog (theConfig s))) s)
  end.

(** A [bad_any_cast], and the exceptions of the setters, become an
    [InvalidArgumentException]. *)
Definition invalid (m : M SV unit) : M SV unit := fun s =>
  match m s with
  | (Err Undefined, s) => (Err Undefined, s)
  | (Err _, s) => (Err InvalidArgumentException, s)
  | r => r
  end.
Definition setBaseOption (key : string) (v : value) : M SV bool :=
  if bool_decide (key = "pipelineFactory"%string) then
    invalid (match v with OptionPipelineFactory f => setPipelineFactory f | _ => throw RuntimeException end) ;! ret true
  else if bool_decide (key = "bufferFactory"%string) then
    invalid (match v with OptionBufferFactory f => setBufferFactory f | _ => throw RuntimeException end) ;! ret true
  else ret false.

(** The errors of the system become a [ChannelException]. *)
Definition setSocket (o : socketOption) : M SV unit := fun s =>
  match on_acceptor (setSocketOption (Acceptor := AA) o) s with
  | (Err SystemException, s) => (Err ChannelException, s)
  | r => r
  end.
(** The exception for a negative backlog is made, but not thrown. *)
Definition setBacklog (n : Z) : M SV unit :=
  modify (fun s => with_config (MkConfig (theFactory (theConfig s)) (theBufferFactory (theConfig s)) n) s).

Definition setOption (key : string) (v : value) : M SV bool :=
  let! known := setBaseOption key v in
  if known : bool then ret true
  else if bool_decide (key = "receiveBufferSize"%string) then setSocket (ReceiveBufferSize (ConversionUtil.toInt v)) ;! ret true
  else if bool_decide (key = "reuseAddress"%string) then
    let! b := reads (fun _ => ConversionUtil.toBoolean v) in
    setSocket (ReuseAddress b) ;! ret true
  else if bool_decide (key = "backlog"%string) then setBacklog (ConversionUtil.toInt v) ;! ret true
  else ret false.

Fixpoint setEach (l : list (string * value)) : M SV unit :=
  match l with
  | [] => ret tt
  | (key, v) :: l => setOption key v ;! setEach l
  end.
Definition setOptions (m : options value) : M SV unit := setEach (entries m).
End Config.
End ServerChannelConfig.

(** ** The channels of a server and their sink *)

Module AsioServerSocketPipelineSink.
Section Sink.
Context {UH SA Msg U A PF CF BF CC : Type} {UHS : UserHandlers UH SA Msg U} {NA : NullAddress SA} {AA : Acceptor SA A}.
Abbreviation F := (pipelineFactory PF).
Abbreviation value := (optionValue SA F BF).
Abbreviation E := (event SA Msg).
Abbreviation pipeline := (DefaultChannelPipeline.t (handler UH) channelRef unit).
Abbreviation SV := (server SA A (config F BF)).
Abbreviation W := (world U SV value (accepted pipeline CC)).
Abbreviation B := (Bootstrap.t (handler UH) channelRef unit PF CF value).

#[global] Instance bossHandler_eq_dec : EqDecision (handler UH).
Proof. solve_decision. Defined.
#[global] Instance BossHandler : ChannelHandler (handler UH) := {|
  isUpstream h := match h with BinderHandler => true | UserHandler h => isUpstream h end;
  isDownstream h := match h with BinderHandler => false | UserHandler h => isDownstream h end;
  lifeCycle h := match h with BinderHandler => None | UserHandler h => lifeCycle h end;
  handler_toString h := match h with BinderHandler => "Binder" | UserHandler h => handler_toString h end;
|}.

Context {FA : Factories (handler UH) channelRef unit PF} {CCF : ChildConfiguration CC value} {AS : AcceptedSockets SA E W}.
Abbreviation program R := (prog (pipelineSend channelRef E) W R).

Definition closeFutureOf (c : channelRef) (w : W) : futureRef :=
  if bool_decide (c = serverChannel) then serverCloseFuture
  else match channels (theAccepted w) !! c with Some ch => childCloseFuture ch | None => serverCloseFuture end.

#[global] Instance ServerTransport : Transport SA W := {|
  getParent c _ := if bool_decide (c = serverChannel) then None else Some serverChannel;
  isOpen c w := negb (isCompleted (closeFutureOf c w) (theFutures w));
  getRemoteAddress c _ :=
    if bool_decide (c = serverChannel) then NULL_ADDRESS
    else match socketRemoteAddress c with Some a => a | None => NULL_ADDRESS end;
  newFuture _ _ w := let '(f, t) := newFutureOf (theFutures w) in (f, with_futures t w);
  getCloseFuture := closeFutureOf;
  isDone f w := isCompleted f (theFutures w);
|}.

Definition onServer {R} (m : M SV R) : program R :=
  Reads (fun w => let '(r, s) := m (theServer w) in Writes (with_server s w) (ofResult r)).

(** [setSuccess] and [setFailure]: [ChannelCloseFuture]s ignore them. *)
Definition isCloseFuture (f : futureRef) (w : W) : bool :=
  bool_decide (f = serverCloseFuture) || existsb (fun ch => bool_decide (f = childCloseFuture (snd ch))) (map_to_list (channels (theAccepted w))).
Definition completeFuture (f : option futureRef) (success : bool) : program unit :=
  match f with
  | None => Throws Undefined
  | Some f => updates (fun w => if isCloseFuture f w then w else with_futures (snd (complete f success (theFutures w))) w)
  end.

(** *** AsioServerSocketChannel *)

Definition getLocalAddress : program SA :=
  let+ s := asks theServer in
  match localAddress s with
  | Some a => Returns a
  | None =>
      match localEndpoint (acceptor s) with
      | None => Returns NULL_ADDRESS
      | Some a => updates (with_server (MkServer (acceptor s) (theConfig s) (Some a))) ;+ Returns a
      end
  end.

Definition isBound : program bool :=
  asks (fun w => isOpen serverChannel w && acceptorIsOpen (acceptor (theServer w))).

Definition setClosed : program bool :=
  Reads (fun w => let '(r, t) := complete serverCloseFuture true (theFutures w) in Writes (with_futures t w) (Returns r)).

(** *** Boss *)

(** The next channel that is accepted, with a pipeline of the factory of the server
    channel; a factory that is not set is a null pointer. *)
Definition run (b : B) : program unit :=
  let+ w := asks id in
  match theFactory (theConfig (theServer w)) with
  | None => Throws Undefined
  | Some f =>
      let+ p := ofResult (Bootstrap.makePipeline f b) in
      let c := nextChannel (theAccepted w) in
      let '(r, p) := DefaultChannelPipeline.attach (Some c) (Some tt) p in
      let+ _ := ofResult r in
      let '(f, t) := newFutureOf (theFutures w) in
      updates (fun w => with_futures t (with_accepted
        (MkAccepted (<[c := MkChild p newChildConfig f]> (channels (theAccepted w))) (Pos.succ c) (Some c)
          (clildrenChannels (theAccepted w))) w))
  end.

(** [AsioAcceptedSocketChannel::start], but for [setConnected] and the first read, which are
    of the socket. *)
Definition start (c : channelRef) : program bool :=
  Channels.fireChannelOpen c ;+
  match socketLocalAddress c with
  | None => Returns false
  | Some a =>
      Channels.fireChannelBound c a ;+
      match socketRemoteAddress c with
      | None => Returns false
      | Some a => Channels.fireChannelConnected c a ;+ Returns true
      end
  end.

Definition deleteChannel (c : channelRef) : program unit :=
  updates (fun w => with_accepted (MkAccepted (delete c (channels (theAccepted w))) (nextChannel (theAccepted w))
    None (clildrenChannels (theAccepted w))) w).

(** A channel without addresses is deleted, and then asked for its identifier.  The
    others are inserted into what [serverChildrenChannels] returns: a copy of the
    children of the sink. *)
Definition handleAccept (b : B) (failed : bool) (c : channelRef) : program unit :=
  if failed then deleteChannel c
  else
    let+ started := start c in
    if started : bool then run b else deleteChannel c ;+ Throws Undefined.

(** *** Requests *)

Definition closeAcceptChannel (c : channelRef) (f : option futureRef) : program unit :=
  socketClose c f ;+
  updates (fun w =>
    let a := theAccepted w in
    if bool_decide (c ∈ clildrenChannels a) then
      with_accepted (MkAccepted (delete c (channels a)) (nextChannel a) (accepting a)
        (List.filter (fun d => negb (bool_decide (d = c))) (clildrenChannels a))) w
    else w).

Fixpoint closeChildren (fuel : nat) : program unit :=
  let+ w := asks id in
  match fuel, clildrenChannels (theAccepted w) with
  | _, [] => Returns tt
  | O, _ :: _ => Throws Undefined
  | S fuel, c :: _ => closeAcceptChannel c (Some (closeFutureOf c w)) ;+ closeChildren fuel
  end.

(** [setFailure] of the future and [fireExceptionCaught], with an [Exception] of the
    text of what was caught: the ends of both requests. *)
Definition failRequest (f : option futureRef) (x : error) : program unit :=
  completeFuture f false ;+ Channels.fireExceptionCaught serverChannel AnyException.

Definition closeServerChannel (f : option futureRef) : program unit :=
  let+ bound := isBound in
  tryCatch
    (let+ s := asks theServer in
     (if acceptorIsOpen (acceptor s) then onServer (ServerChannelConfig.on_acceptor acceptorClose) else Returns tt) ;+
     let+ closed := setClosed in
     completeFuture f true ;+
     if closed : bool then
       (if bound : bool then Channels.fireChannelUnbound serverChannel else Returns tt) ;+
       Channels.fireChannelClosed serverChannel
     else Returns tt)
    (failRequest f) ;+
  let+ w := asks id in closeChildren (length (clildrenChannels (theAccepted w))).

Definition bind (b : B) (f : option futureRef) (address : SA) : program unit :=
  let+ bound := tryCatch
    (onServer (ServerChannelConfig.on_acceptor (acceptorBind address)) ;+
     let+ s := asks theServer in
     onServer (ServerChannelConfig.on_acceptor (acceptorListen (backlog (theConfig s)))) ;+
     Returns true)
    (fun x => failRequest f x ;+ Returns false) in
  if bound : bool then
    tryCatch
      (let+ a := getLocalAddress in
       Channels.fireChannelBound serverChannel a ;+
       run b ;+
       completeFuture f true)
      (fun x => failRequest f x ;+ closeServerChannel f)
  else Returns tt.

Definition handleServerState (b : B) (f : option futureRef) (state : ChannelState) (v : option (any SA)) : program unit :=
  match state, v with
  | OPEN, None | BOUND, None => closeServerChannel f
  | BOUND, Some (AnyAddress a) => bind b f a
  | BOUND, Some _ => closeServerChannel f
  | _, _ => Returns tt
  end.

Definition handleSocketState (c : channelRef) (f : option futureRef) (state : ChannelState) (v : option (any SA)) : program unit :=
  match state, v with
  | INTEREST_OPS, v => socketSetInterestOps c f (match v with Some (AnyInt n) => n | _ => 0 end)
  | _, None => closeAcceptChannel c f
  | _, Some _ => Returns tt
  end.

(** [writeRequested], [stateChangeRequested] and [eventSunk]; a message for the server
    channel is given to what is taken for a socket channel.  The future of an upstream event has
    succeeded: it ignores what it is told, as a close future does. *)
Definition sunk (b : B) (e : E) : program unit :=
  match e with
  | UpstreamMessageEvent c _ _ | DownstreamMessageEvent c _ _ _ =>
      if bool_decide (c = serverChannel) then Throws Undefined else socketWrite e
  | DownstreamChannelStateEvent c f state v =>
      if bool_decide (c = serverChannel) then handleServerState b f state v else handleSocketState c f state v
  | UpstreamChannelStateEvent c state v =>
      let+ f := asks (closeFutureOf c) in
      if bool_decide (c = serverChannel) then handleServerState b (Some f) state v else handleSocketState c (Some f) state v
  | _ => Returns tt
  end.

(** [AbstractChannelSink::exceptionCaught]. *)
Definition exceptionCaught (e : E) : program unit := Channels.fireExceptionCaught (Channels.getChannel e) ChannelPipelineException.

(** ** Binder *)

Definition childPrefix : string := "child.".
(** The key without the prefix, when it has it. *)
Fixpoint stripPrefix (prefix key : string) : option string :=
  match prefix, key with
  | EmptyString, _ => Some key
  | String c prefix, String d key => if bool_decide (c = d) then stripPrefix prefix key else None
  | _, EmptyString => None
  end.

(** The loop of [channelOpen] over the options of the bootstrap: parent, child. *)
Fixpoint splitOptions (l : list (string * value)) (parent children : options value) : options value * options value :=
  match l with
  | [] => (parent, children)
  | (key, v) :: l =>
      match stripPrefix childPrefix key with
      | Some key => splitOptions l parent (insertNew key v children)
      | None =>
          if bool_decide (key = "pipelineFactory"%string) then splitOptions l parent children
          else splitOptions l (insertNew key v parent) children
      end
  end.

(** The rest of an upstream handler: [ctx.sendUpstream(e)]. *)
Definition inHandler {R} (h : program R) : prog (send channelRef E) W R := mapSends SendPipeline h.

Definition channelOpen (b : B) (address : SA) (e : E) : handling channelRef E W :=
  inHandler
    (match Bootstrap.thePipelineFactory b with
     | Some f => onServer (ServerChannelConfig.setPipelineFactory (Some f))
     | None => Returns tt
     end ;+
     let+ w := asks id in
     let '(parent, children) := splitOptions (entries (Bootstrap.theOptions b)) ∅ (childOptions (theBinder w)) in
     updates (fun w => with_binder (MkBinder (futureQueue (theBinder w)) children) w) ;+
     onServer (ServerChannelConfig.setOptions parent)) ;+
  forward e ;+
  inHandler
    (let+ f := AbstractChannel.bind (Channels.getChannel e) address in
     updates (fun w => with_binder (MkBinder (futureQueue (theBinder w) ++ [f]) (childOptions (theBinder w))) w)).

Definition childChannelOpen (e : E) : handling channelRef E W :=
  match e with
  | DefaultChildChannelStateEvent _ c =>
      let+ w := asks id in
      match channels (theAccepted w) !! c with
      | None => Throws Undefined
      | Some ch =>
          let '(r, cc) := setChildOptions (childOptions (theBinder w)) (childConfig ch) in
          updates (fun w => with_accepted
            (MkAccepted (<[c := MkChild (childPipeline ch) cc (childCloseFuture ch)]> (channels (theAccepted w)))
              (nextChannel (theAccepted w)) (accepting (theAccepted w)) (clildrenChannels (theAccepted w))) w) ;+
          let+ _ := ofResult r in forward e
      end
  | _ => forward e
  end.

Definition binderExceptionCaught (e : E) : handling channelRef E W :=
  Reads (fun w =>
    let '(f, t) := failedFutureOf (theFutures w) in
    Writes (with_binder (MkBinder (futureQueue (theBinder w) ++ [f]) (childOptions (theBinder w))) (with_futures t w))
      (forward e)).

Definition Binder (b : B) (address : SA) : SimpleChannelUpstreamHandler.t SA Msg W :=
  SimpleChannelUpstreamHandler.MkSimple
    forward binderExceptionCaught forward
    (channelOpen b address) forward forward forward forward forward forward
    childChannelOpen forward.

(** What the handlers of the pipelines do. *)
Definition ServerBehaviour (b : B) (address : SA) : Behaviour (handler UH) channelRef E W := {|
  DefaultChannelPipeline.handleUpstream h e :=
    match h with
    | BinderHandler => callUpstream (SimpleChannelUpstreamHandler.handler (Binder b address)) e
    | UserHandler h => lift user with_user (callUpstream (upstreamHandler h) e)
    end;
  DefaultChannelPipeline.handleDownstream h e :=
    match h with
    | BinderHandler => Returns tt
    | UserHandler h => lift user with_user (callDownstream (downstreamHandler h) e)
    end;
  DefaultChannelPipeline.isExceptionEvent := Channels.isExceptionEvent;
  DefaultChannelPipeline.sinkCall := sunk b;
  DefaultChannelPipeline.sinkException := exceptionCaught;
|}.

(** ** ServerBootstrap *)

(** The pipelines of the channels, when the server channel has [boss]. *)
Definition network (boss : pipeline) (w : W) (c : channelRef) : option pipeline :=
  if bool_decide (c = serverChannel) then Some boss else childPipeline <$> channels (theAccepted w) !! c.

(** A program that is run from outside. *)
Definition outside {R} (b : B) (address : SA) (boss : pipeline) (fuel : nat) (h : program R) : M W R := fun w =>
  DefaultChannelPipeline.run (BE := ServerBehaviour b address) (network boss w) fuel h w.

(** The pipeline of the server channel: the binder, and a clone of the parent handler. *)
Definition bossPipeline (parentHandler : option UH) : M pipeline unit :=
  DefaultChannelPipeline.addLast "binder" (Some BinderHandler) ;!
  match parentHandler with
  | Some h => DefaultChannelPipeline.addLast "userHandler" (Some (clone (UserHandler h)))
  | None => ret tt
  end ;!
  DefaultChannelPipeline.attach (Some serverChannel) (Some tt).

(** [newChannel] of the factory; the [backlog] of a new configuration is what the
    memory holds. *)
Definition newWorld (u : U) (a : A) (bufferFactory : option BF) (garbage : Z) : W :=
  MkWorld u (MkServer a (MkConfig None bufferFactory garbage) None) (MkFutures {[serverCloseFuture := None]} 2)
    (MkBinder [] ∅) (MkAccepted ∅ 2 None []).

Definition newChannel (b : B) (address : SA) (boss : pipeline) (fuel : nat) : M W unit := fun w =>
  match outside b address boss fuel
          (onServer (ServerChannelConfig.on_acceptor acceptorOpen) ;+ Channels.fireChannelOpen serverChannel) w with
  | (Err Undefined, w) => (Err Undefined, w)
  | (Err _, w) => (Err ChannelException, w)
  | r => r
  end.

(** [awaitUninterruptibly]: what is pending stays so, as there is no other thread. *)
Definition await (f : futureRef) : M W bool :=
  reads (fun w => match results (theFutures w) !! f with Some (Some r) => Ok r | _ => Err Undefined end).

(** [bind(localAddress)].  The loop waits for a future in the queue of the binder: it
    does not end when there is none. *)
Definition serverBind (b : B) (address : SA) (boss : pipeline) (fuel : nat) : M W channelRef :=
  newChannel b address boss fuel ;!
  let! q := gets (fun w => futureQueue (theBinder w)) in
  match q with
  | [] => throw Undefined
  | f :: _ =>
      let! success := await f in
      if success : bool then ret serverChannel
      else
        let! f := outside b address boss fuel (AbstractChannel.close serverChannel) in
        await f ;!
        throw ChannelException
  end.

Definition ServerBootstrap_bind (b : B) (parentHandler : option UH) (address : SA) (fuel : nat) (u : U) (a : A)
    (bufferFactory : option BF) (garbage : Z) : result channelRef * W :=
  let w := newWorld u a bufferFactory garbage in
  match bossPipeline parentHandler DefaultChannelPipeline.new with
  | (Ok _, boss) => serverBind b address boss fuel w
  | (Err x, _) => (Err x, w)
  end.
End Sink.
End AsioServerSocketPipelineSink.
