(* ===== verification/ServerSocketProperties.v ===== *)
(** * What a server bootstrap does

    [ServerBootstrap::bind] makes a pipeline, a channel and futures, and waits; the
    events go through the binder and the parent handler to the sink and back.  What
    comes out is a plain sequence of steps ([spec_bind]). *)

From stdpp Require Import gmap strings.
From S2P Require Import Prelude MachineInt Pipeline PipelineProperties PipelineDelivery Programs Channels ChannelsProperties.
From S2P Require Import Bootstrap ServerSocket.
Import DefaultChannelPipeline (Behaviour, prog, Returns, Throws, Sends, Reads, Writes, pipelineSend, PipelineUpstream,
  PipelineDownstream, mapSends, asks, updates, tryCatch, ofResult, lift, send, SendUpstream, SendDownstream, SendPipeline, handling,
  Sink).
Import AsioServerSocketPipelineSink.

Section Server.
Context {UH SA Msg U A PF CF BF CC : Type} {UHS : UserHandlers UH SA Msg U} {NA : NullAddress SA} {AA : Acceptor SA A}.
Abbreviation F := (pipelineFactory PF).
Abbreviation value := (optionValue SA F BF).
Abbreviation E := (event SA Msg).
Abbreviation pipeline := (DefaultChannelPipeline.t (handler UH) channelRef unit).
Abbreviation SV := (server SA A (config F BF)).
Abbreviation W := (world U SV value (accepted pipeline CC)).
Abbreviation B := (Bootstrap.t (handler UH) channelRef unit PF CF value).
Context {FA : Factories (handler UH) channelRef unit PF} {CCF : ChildConfiguration CC value} {AS : AcceptedSockets SA E W}.
Abbreviation program R := (prog (pipelineSend channelRef E) W R).
Abbreviation entry := (string * handler UH)%type.
Abbreviation visits := (list (DefaultChannelPipeline.visit E)).

Variables (b : B) (address : SA).
#[local] Instance behaviour : Behaviour (handler UH) channelRef E W := ServerBehaviour b address.

(** A parent handler that looks at events: it notes each in its state, and may pass it
    on. *)
Variables (obs : E -> U -> U) (passes : E -> bool).

Record observer (h : UH) : Prop := MkObserver {
  observer_up : isUpstream h = true;
  observer_down : isDownstream h = false;
  observer_joins : joins (UserHandler h);
  observer_step e : callUpstream (upstreamHandler h) e
    = Reads (fun u => Writes (obs e u) (DefaultChannelPipeline.sendEach (if passes e then [SendUpstream e] else [])));
}.

Variable parent : option UH.
Hypothesis Hparent : forall h, parent = Some h -> observer h.

Definition told (e : E) (u : U) : U := match parent with Some _ => obs e u | None => u end.
Definition tell (e : E) (w : W) : W := with_user (told e (user w)) w.

(** The list of the pipeline of the server channel. *)
Definition bossList : list entry :=
  ("binder"%string, BinderHandler) :: match parent with Some h => [("userHandler"%string, UserHandler h)] | None => [] end.

Section Delivered.
Variable lists : channelRef -> option (DefaultChannelPipeline.channelSink unit * list entry).
Hypothesis Hlists : lists serverChannel = Some (Sink tt, bossList).

Abbreviation inv n := (spec_invoke (E := E) (W := W) lists n).
Abbreviation sends n := (spec_deliver (E := E) (W := W) lists n).

Lemma user_told n e h w : parent = Some h ->
  effect (inv (S n) serverChannel (AtUpstream [("binder"%string, BinderHandler)] ("userHandler"%string, UserHandler h) []) e) w
    = (Ok tt, tell e w).
Proof.
  intros Hp. cbn [spec_invoke]. rewrite Hlists, effect_cons. rewrite effect_handle by (intros s; apply silent_spec_context, silent_spec_invoke).
  cbn [snd DefaultChannelPipeline.handleUpstream behaviour ServerBehaviour]. rewrite (observer_step h (Hparent h Hp)).
  cbn [lift]. rewrite !outcome_reads, outcome_writes. unfold tell, told. rewrite Hp.
  destruct (passes e); cbn [DefaultChannelPipeline.sendEach foldr lift]; [|reflexivity].
  rewrite outcome_sends. cbn [spec_context snd fst isUpstream BossHandler]. rewrite (observer_up h (Hparent h Hp)). reflexivity.
Qed.

(** What the binder passes on. *)
Lemma binder_forwards n e w :
  effect (spec_context lists (inv (S n)) serverChannel [] ("binder"%string, BinderHandler) (tail bossList) (SendUpstream e)) w
    = (Ok tt, tell e w).
Proof.
  cbn. unfold bossList. destruct parent as [h|] eqn:Hp in |- *; cbn.
  - rewrite (observer_up h (Hparent h Hp)). apply user_told, Hp.
  - unfold tell, told. rewrite Hp. destruct w. reflexivity.
Qed.

(** An event that is fired on the server channel. *)
Lemma sends_up n e w : effect (sends (S n) (PipelineUpstream serverChannel e)) w
  = effect (inv (S n) serverChannel (AtUpstream [] ("binder"%string, BinderHandler) (tail bossList)) e) w.
Proof. unfold spec_deliver. cbn [spec_pipeline]. rewrite Hlists. reflexivity. Qed.

Lemma binder_effect n e w :
  effect (inv (S n) serverChannel (AtUpstream [] ("binder"%string, BinderHandler) (tail bossList)) e) w
    = match outcome (spec_context lists (inv n) serverChannel [] ("binder"%string, BinderHandler) (tail bossList))
              (callUpstream (SimpleChannelUpstreamHandler.handler (Binder b address)) e) w with
      | (Ok _, w) => (Ok tt, w)
      | (Err Undefined, w) => (Err Undefined, w)
      | (Err _, w) =>
          effect (DefaultChannelPipeline.notifyHandlerException (spec_pipeline lists (inv n)) (Sink tt) e) w
      end.
Proof.
  cbn [spec_invoke]. rewrite Hlists, effect_cons. rewrite effect_handle by (intros s; apply silent_spec_context, silent_spec_invoke).
  reflexivity.
Qed.

(** Events that the binder does not look at. *)
Lemma sends_plain n e w : callUpstream (SimpleChannelUpstreamHandler.handler (Binder b address)) e = forward e ->
  effect (sends (S (S n)) (PipelineUpstream serverChannel e)) w = (Ok tt, tell e w).
Proof.
  intros He. rewrite sends_up, binder_effect, He. unfold forward. rewrite outcome_sends.
  rewrite (bind_ok _ _ _ _ _ (binder_forwards n e w)). reflexivity.
Qed.

(** An exception: a failed future for the queue of the binder. *)
Definition failed (w : W) : W :=
  let '(f, t) := failedFutureOf (theFutures w) in
  with_binder (MkBinder (futureQueue (theBinder w) ++ [f]) (childOptions (theBinder w))) (with_futures t w).

Lemma sends_exception n x w :
  effect (sends (S (S n)) (PipelineUpstream serverChannel (DefaultExceptionEvent serverChannel x))) w
    = (Ok tt, tell (DefaultExceptionEvent serverChannel x) (failed w)).
Proof.
  rewrite sends_up, binder_effect. cbn [callUpstream SimpleChannelUpstreamHandler.handler Channels.exceptionCaught
    SimpleChannelUpstreamHandler.exceptionCaught Binder]. unfold binderExceptionCaught. rewrite outcome_reads. unfold failed.
  destruct (failedFutureOf (theFutures w)) as [f t]. rewrite outcome_writes. unfold forward. rewrite outcome_sends.
  rewrite (bind_ok _ _ _ _ _ (binder_forwards n _ _)). reflexivity.
Qed.

(** An event for the sink: the user's handlers do not take events downstream. *)
Lemma sends_down n e w : (forall s, silent (sends n s)) ->
  effect (sends (S n) (PipelineDownstream serverChannel e)) w
    = match outcome (sends n) (sunk b e) w with
      | (Ok _, w) => (Ok tt, w)
      | (Err Undefined, w) => (Err Undefined, w)
      | (Err _, w) => effect (DefaultChannelPipeline.notifyHandlerException (sends n) (Sink tt) e) w
      end.
Proof.
  intros Hs. unfold spec_deliver at 1. cbn [spec_pipeline]. rewrite Hlists.
  assert (find_next isDownstream [] (rev bossList) = None) as Hn.
  { unfold bossList. destruct parent as [h|] eqn:Hp in |- *; [|reflexivity]. cbn. rewrite (observer_down h (Hparent h Hp)). reflexivity. }
  rewrite Hn. cbn [spec_invoke]. rewrite Hlists. unfold DefaultChannelPipeline.callSink. rewrite effect_cons.
  rewrite effect_handle by exact Hs. reflexivity.
Qed.

Lemma silent_sends n s : silent (sends n s).
Proof. apply silent_spec_pipeline. apply silent_spec_invoke. Qed.

(** *** The parts of programs *)

Definition CLOSED : E := UpstreamChannelStateEvent serverChannel OPEN None.
Definition UNBOUND : E := UpstreamChannelStateEvent serverChannel BOUND None.
Definition OPENED : E := UpstreamChannelStateEvent serverChannel OPEN (Some (AnyBool true)).
Definition BOUND_TO (a : SA) : E := UpstreamChannelStateEvent serverChannel BOUND (Some (AnyAddressPointer a)).
Definition EXCEPTION (x : error) : E := DefaultExceptionEvent serverChannel x.

Lemma outcome_fire n e w : callUpstream (SimpleChannelUpstreamHandler.handler (Binder b address)) e = forward e ->
  outcome (sends (S (S n))) (Channels.pipelineUpstream serverChannel e) w = (Ok tt, tell e w).
Proof.
  intros He. unfold Channels.pipelineUpstream. rewrite outcome_sends, (bind_ok _ _ _ _ _ (sends_plain n e w He)). reflexivity.
Qed.

Lemma outcome_exception n x w :
  outcome (sends (S (S n))) (Channels.fireExceptionCaught serverChannel x) w = (Ok tt, tell (EXCEPTION x) (failed w)).
Proof.
  unfold Channels.fireExceptionCaught, Channels.pipelineUpstream. rewrite outcome_sends, (bind_ok _ _ _ _ _ (sends_exception n x w)). reflexivity.
Qed.

Lemma outcome_onServer {R} (f : pipelineSend channelRef E -> M W visits) (m : M SV R) w :
  outcome f (onServer m) w = (fst (m (theServer w)), with_server (snd (m (theServer w))) w).
Proof. unfold onServer. rewrite outcome_reads. destruct (m (theServer w)) as [r s]. rewrite outcome_writes. apply outcome_ofResult. Qed.

Definition completed (f : futureRef) (success : bool) (w : W) : W :=
  if isCloseFuture f w then w else with_futures (snd (complete f success (theFutures w))) w.

Lemma outcome_complete (g : pipelineSend channelRef E -> M W visits) f success w : outcome g (completeFuture (Some f) success) w = (Ok tt, completed f success w).
Proof. reflexivity. Qed.

Definition failing (f : futureRef) (w : W) : W := tell (EXCEPTION AnyException) (failed (completed f false w)).

Lemma state_failing f w : (user (failing f w), theServer (failing f w)) = (told (EXCEPTION AnyException) (user w), theServer w).
Proof. unfold failing, tell, failed, completed. destruct (isCloseFuture f w); reflexivity. Qed.

Lemma outcome_failRequest n f x w : outcome (sends (S (S n))) (failRequest (Some f) x) w = (Ok tt, failing f w).
Proof. unfold failRequest. rewrite outcome_andThen, (bind_ok _ _ _ _ _ (outcome_complete _ f false w)). apply outcome_exception. Qed.

(** *** What stays *)

Definition state_of (w : W) : U * SV := (user w, theServer w).

Definition fresh_futures (w : W) : Prop := forall g, (nextFuture (theFutures w) <= g)%positive -> results (theFutures w) !! g = None.

(** The queue of the binder only grows, a future that is complete stays so, and no
    channel is made. *)
Record later (w w' : W) : Prop := MkLater {
  later_fresh : fresh_futures w';
  later_next : (nextFuture (theFutures w) <= nextFuture (theFutures w'))%positive;
  later_results g r : results (theFutures w) !! g = Some (Some r) -> results (theFutures w') !! g = Some (Some r);
  later_accepted : theAccepted w' = theAccepted w;
  later_options : childOptions (theBinder w') = childOptions (theBinder w);
  later_queue : exists q, futureQueue (theBinder w') = futureQueue (theBinder w) ++ q;
}.

Lemma later_refl w : fresh_futures w -> later w w.
Proof. intros Hw. split; auto; [lia | exists []; rewrite app_nil_r; reflexivity]. Qed.
Lemma later_trans w1 w2 w3 : later w1 w2 -> later w2 w3 -> later w1 w3.
Proof.
  intros [F1 N1 R1 A1 O1 (q1 & Q1)] [F2 N2 R2 A2 O2 (q2 & Q2)]. split; auto; try congruence; [lia|].
  exists (q1 ++ q2). rewrite Q2, Q1, app_assoc. reflexivity.
Qed.

Lemma later_tell e w : fresh_futures w -> later w (tell e w).
Proof. intros Hw. destruct (later_refl w Hw). split; assumption. Qed.
Lemma later_server s w : fresh_futures w -> later w (with_server s w).
Proof. intros Hw. destruct (later_refl w Hw). split; assumption. Qed.

Lemma later_failed w : fresh_futures w -> later w (failed w).
Proof.
  intros Hw. unfold failed. cbn. split; cbn; try reflexivity; [| lia | | exists [nextFuture (theFutures w)]; reflexivity].
  - intros g Hg. cbn in *. rewrite lookup_insert_ne by lia. apply Hw. lia.
  - intros g r Hr. rewrite lookup_insert_ne; [exact Hr|]. intros <-. rewrite Hw in Hr by lia. discriminate.
Qed.

Lemma later_completed f s w : fresh_futures w -> later w (completed f s w).
Proof.
  intros Hw. unfold completed. destruct (isCloseFuture f w); [apply later_refl, Hw|]. unfold complete.
  destruct (results (theFutures w) !! f) as [[r|]|] eqn:Ef; [destruct (later_refl w Hw); split; assumption | |destruct (later_refl w Hw); split; assumption].
  split; cbn; try reflexivity; [| | exists []; rewrite app_nil_r; reflexivity].
  - intros g Hg. cbn in *. rewrite lookup_insert_ne; [apply Hw, Hg|]. intros ->. rewrite Hw in Ef by exact Hg. discriminate.
  - intros g r Hr. rewrite lookup_insert_ne; [exact Hr | congruence].
Qed.

Lemma later_failing f w : fresh_futures w -> later w (failing f w).
Proof.
  intros Hw. pose proof (later_completed f false w Hw) as H1. pose proof (later_failed _ (later_fresh _ _ H1)) as H2.
  exact (later_trans _ _ _ H1 (later_trans _ _ _ H2 (later_tell _ _ (later_fresh _ _ H2)))).
Qed.

(** The close future of the server channel. *)
Definition closing (w : W) : option (option bool) := results (theFutures w) !! serverCloseFuture.

Lemma closing_completed f s w : closing (completed f s w) = closing w.
Proof.
  unfold completed, closing. destruct (isCloseFuture f w) eqn:Ef; [reflexivity|]. unfold isCloseFuture in Ef.
  apply orb_false_iff in Ef as [Ef _]. apply bool_decide_eq_false in Ef. unfold complete.
  destruct (results (theFutures w) !! f) as [[r|]|]; cbn; try reflexivity. apply lookup_insert_ne. exact Ef.
Qed.
Lemma closing_failing f w : fresh_futures w -> closing w <> None -> closing (failing f w) = closing w.
Proof.
  intros Hw Hc. rewrite <- (closing_completed f false w). unfold failing, closing. cbn.
  rewrite lookup_insert_ne; [reflexivity|]. intros E.
  pose proof (later_fresh _ _ (later_completed f false w Hw) serverCloseFuture) as Hn.
  pose proof (closing_completed f false w) as Ec. unfold closing in Ec. rewrite Hn in Ec by lia. apply Hc. unfold closing. congruence.
Qed.

(** *** Closing *)

(** Closes the acceptor, and tells the parent handler what happens. *)
Definition shutdown (us : U * SV) : result unit * (U * SV) :=
  let '(u, s) := us in
  let bound := acceptorIsOpen (acceptor s) in
  match (if bound then ServerChannelConfig.on_acceptor acceptorClose s else (Ok tt, s)) with
  | (Ok _, s) => (Ok tt, (told CLOSED (if bound then told UNBOUND u else u), s))
  | (Err Undefined, s) => (Err Undefined, (u, s))
  | (Err x, s) => (Err x, (told (EXCEPTION AnyException) u, s))
  end.

Definition closed (w : W) : W := with_futures (snd (complete serverCloseFuture true (theFutures w))) w.

Lemma outcome_setClosed (f : pipelineSend channelRef E -> M W visits) w : closing w = Some None ->
  outcome f setClosed w = (Ok true, closed w).
Proof. unfold closing, setClosed, closed, complete. intros Hc. rewrite outcome_reads. unfold complete. rewrite Hc. reflexivity. Qed.

Lemma later_closed w : fresh_futures w -> closing w = Some None -> later w (closed w).
Proof.
  unfold closing, closed, complete. intros Hw Hc. rewrite Hc. split; cbn; try reflexivity; [| | exists []; rewrite app_nil_r; reflexivity].
  - intros g Hg. cbn in *. rewrite lookup_insert_ne; [apply Hw, Hg|]. intros <-. rewrite Hw in Hc by exact Hg. discriminate.
  - intros g r Hr. rewrite lookup_insert_ne; [exact Hr | congruence].
Qed.
Lemma closing_closed w : closing w = Some None -> closing (closed w) = Some (Some true).
Proof. unfold closing, closed, complete. intros Hc. rewrite Hc. cbn. apply lookup_insert_eq. Qed.

Lemma is_open w : closing w = Some None -> isOpen serverChannel w = true.
Proof.
  unfold closing. intros Hc. change (isOpen serverChannel w) with (negb (isCompleted (closeFutureOf serverChannel w) (theFutures w))).
  unfold closeFutureOf, isCompleted. rewrite bool_decide_eq_true_2, Hc by reflexivity. reflexivity.
Qed.

(** The steps of the closing, once the acceptor is closed. *)
Definition told_closed (bound : bool) (w : W) : W := tell CLOSED (if bound then tell UNBOUND w else w).

Lemma outcome_told_closed n (bound : bool) w :
  outcome (sends (S (S n)))
    ((if bound then Channels.fireChannelUnbound serverChannel else Returns tt) ;+ Channels.fireChannelClosed serverChannel) w
    = (Ok tt, told_closed bound w).
Proof.
  rewrite outcome_andThen. unfold told_closed.
  rewrite (bind_ok _ _ _ tt (if bound then tell UNBOUND w else w)) by (destruct bound; [apply outcome_fire|]; reflexivity).
  unfold Channels.fireChannelClosed. rewrite outcome_andThen. erewrite bind_ok by (apply outcome_fire; reflexivity).
  unfold Channels.notifyParent. rewrite outcome_andThen. reflexivity.
Qed.

Lemma no_children (f : pipelineSend channelRef E -> M W visits) w : clildrenChannels (theAccepted w) = [] ->
  outcome f (let+ w := asks id in closeChildren (length (clildrenChannels (theAccepted w)))) w = (Ok tt, w).
Proof.
  intros Hc. rewrite outcome_andThen, (bind_ok _ _ _ _ _ (outcome_asks f id w)). change (id w) with w.
  rewrite Hc. cbn [length closeChildren]. rewrite outcome_andThen, (bind_ok _ _ _ _ _ (outcome_asks f id w)). change (id w) with w.
  rewrite Hc. reflexivity.
Qed.

Lemma closes_server n f w : fresh_futures w -> closing w = Some None -> clildrenChannels (theAccepted w) = [] ->
  exists r w', outcome (sends (S (S n))) (closeServerChannel (Some f)) w = (r, w') /\
    match shutdown (state_of w) with
    | (Ok _, us) => r = Ok tt /\ state_of w' = us /\ closing w' = Some (Some true) /\ later w w'
    | (Err Undefined, us) => r = Err Undefined /\ state_of w' = us
    | (Err _, us) => r = Ok tt /\ state_of w' = us /\ closing w' = Some None /\ later w w'
    end.
Proof.
  intros Hw Hc Hch. unfold closeServerChannel. rewrite outcome_andThen. unfold isBound. rewrite (bind_ok _ _ _ _ _ (outcome_asks _ _ w)).
  rewrite (is_open w Hc). cbn [andb]. set (bound := acceptorIsOpen (acceptor (theServer w))).
  rewrite outcome_andThen. unfold shutdown, state_of. fold bound.
  set (r0 := if bound then ServerChannelConfig.on_acceptor acceptorClose (theServer w) else (Ok tt, theServer w)).
  assert (outcome (sends (S (S n))) (if bound then onServer (ServerChannelConfig.on_acceptor acceptorClose) else Returns tt) w
          = (fst r0, with_server (snd r0) w)) as E0.
  { unfold r0. destruct bound; [apply outcome_onServer | destruct w; reflexivity]. }
  set (w0 := with_server (snd r0) w) in *.
  assert (fresh_futures w0) as Hw0 by exact Hw. assert (closing w0 = Some None) as Hc0 by exact Hc.
  unfold Prelude.bind at 1. rewrite outcome_tryCatch by apply silent_sends.
  rewrite outcome_andThen, (bind_ok _ _ _ _ _ (outcome_asks _ _ w)). fold bound. rewrite outcome_andThen.
  destruct r0 as [[[]|x] s0] eqn:Er; cbn [fst snd] in *.
  - rewrite (bind_ok _ _ _ _ _ E0). rewrite outcome_andThen, (bind_ok _ _ _ _ _ (outcome_setClosed _ w0 Hc0)).
    rewrite outcome_andThen, (bind_ok _ _ _ _ _ (outcome_complete _ f true _)). rewrite outcome_told_closed.
    set (w1 := completed f true (closed w0)).
    pose proof (later_closed w0 Hw0 Hc0) as L1. pose proof (later_completed f true _ (later_fresh _ _ L1)) as L2. fold w1 in L2.
    assert (later w (told_closed bound w1)) as L.
    { refine (later_trans _ _ _ (later_server s0 w Hw) (later_trans _ _ _ L1 (later_trans _ _ _ L2 _))). unfold told_closed.
      pose proof (later_fresh _ _ L2) as F1. destruct bound; [|apply later_tell, F1].
      exact (later_trans _ _ _ (later_tell _ _ F1) (later_tell _ _ (later_fresh _ _ (later_tell UNBOUND w1 F1)))). }
    rewrite no_children by (rewrite (later_accepted _ _ L); exact Hch).
    eexists _, _. split; [reflexivity|]. split; [reflexivity|]. split; [|split; [|exact L]].
    + unfold state_of, told_closed, tell, w1, completed. destruct (isCloseFuture f (closed w0)), bound; reflexivity.
    + unfold told_closed. assert (closing w1 = Some (Some true)) as Hc1 by (unfold w1; rewrite closing_completed; exact (closing_closed w0 Hc0)).
      destruct bound; exact Hc1.
  - rewrite (bind_err _ _ _ _ _ E0). destruct (decide (x = Undefined)) as [->|Hx].
    { eexists _, _. split; [reflexivity|]. split; reflexivity. }
    pose proof (later_failing f w0 Hw0) as L1.
    assert (later w (failing f w0)) as L by exact (later_trans _ _ _ (later_server s0 w Hw) L1).
    exists (Ok tt), (failing f w0). split.
    + destruct x; try contradiction; rewrite outcome_failRequest; cbn iota; apply no_children;
        rewrite (later_accepted _ _ L); exact Hch.
    + destruct x; try contradiction; (split; [reflexivity|]; split; [|split; [|exact L]]);
        try (rewrite closing_failing; [exact Hc0 | exact Hw0 | congruence]);
        unfold state_of, failing, tell, failed, completed; destruct (isCloseFuture f w0); reflexivity.
Qed.

(** *** Binding *)

(** The pipeline of the next channel, attached to it. *)
Definition made (c : channelRef) (f : F) : result pipeline :=
  let? p := Bootstrap.makePipeline f b in
  match DefaultChannelPipeline.attach (Some c) (Some tt) p with (Ok _, p) => Ok p | (Err x, _) => Err x end.

(** The next channel waits for a connection. *)
Definition waits (p : pipeline) (w : W) : W :=
  let a := theAccepted w in
  let '(f, t) := newFutureOf (theFutures w) in
  with_futures t (with_accepted (MkAccepted (<[nextChannel a := MkChild p newChildConfig f]> (channels a)) (Pos.succ (nextChannel a))
    (Some (nextChannel a)) (clildrenChannels a)) w).

Lemma outcome_run (f : pipelineSend channelRef E -> M W visits) w : outcome f (run b) w =
  match theFactory (theConfig (theServer w)) with
  | None => (Err Undefined, w)
  | Some fa => match made (nextChannel (theAccepted w)) fa with Ok p => (Ok tt, waits p w) | Err x => (Err x, w) end
  end.
Proof.
  unfold run. rewrite outcome_andThen, (bind_ok _ _ _ _ _ (outcome_asks f id w)). change (id w) with w.
  destruct (theFactory (theConfig (theServer w))) as [fa|]; [|reflexivity]. rewrite outcome_andThen. unfold made.
  destruct (Bootstrap.makePipeline fa b) as [p|x]; cbn [rbind].
  - rewrite (bind_ok _ _ _ _ _ (outcome_ofResult f (Ok p) w)). unfold waits.
    destruct (DefaultChannelPipeline.attach _ _ p) as [[[]|x] p']; rewrite outcome_andThen.
    + rewrite (bind_ok _ _ _ _ _ (outcome_ofResult f (Ok tt) w)). destruct (newFutureOf (theFutures w)) as [g t']. reflexivity.
    + rewrite (bind_err _ _ _ _ _ (outcome_ofResult f (Err x) w)). reflexivity.
  - rewrite (bind_err _ _ _ _ _ (outcome_ofResult f (Err x) w)). reflexivity.
Qed.

(** The local address of the server channel, which is asked for once. *)
Definition localAddressOf (s : SV) : SA * SV :=
  match localAddress s with
  | Some a => (a, s)
  | None => match localEndpoint (acceptor s) with
            | None => (NULL_ADDRESS, s)
            | Some a => (a, MkServer (acceptor s) (theConfig s) (Some a))
            end
  end.

Lemma outcome_localAddress (f : pipelineSend channelRef E -> M W visits) w :
  outcome f getLocalAddress w = (Ok (fst (localAddressOf (theServer w))), with_server (snd (localAddressOf (theServer w))) w).
Proof.
  unfold getLocalAddress, localAddressOf. rewrite outcome_andThen, (bind_ok _ _ _ _ _ (outcome_asks f theServer w)).
  destruct (localAddress (theServer w)); [destruct w; reflexivity|]. destruct (localEndpoint _); [reflexivity|]. destruct w; reflexivity.
Qed.

(** A failed future came to the queue. *)
Definition pushed (w w' : W) : Prop :=
  exists q rest, futureQueue (theBinder w') = futureQueue (theBinder w) ++ q :: rest /\ results (theFutures w') !! q = Some (Some false).

Lemma pushed_later w w1 w2 : pushed w w1 -> later w1 w2 -> pushed w w2.
Proof.
  intros (q & rest & Eq & Er) L. destruct (later_queue _ _ L) as (q' & Eq'). exists q, (rest ++ q'). split; [|exact (later_results _ _ L _ _ Er)].
  rewrite Eq', Eq, <- app_assoc. reflexivity.
Qed.

Lemma completed_queue f s w : futureQueue (theBinder (completed f s w)) = futureQueue (theBinder w).
Proof. unfold completed. destruct (isCloseFuture f w); reflexivity. Qed.

Lemma pushed_failing f w : pushed w (failing f w).
Proof.
  exists (nextFuture (theFutures (completed f false w))), []. unfold failing. cbn. rewrite completed_queue. split; [reflexivity|].
  apply lookup_insert_eq.
Qed.

(** A request to bind: the channel is bound, the run has no meaning, or an exception was
    told; it may have closed the channel. *)
Inductive attempt := Bound | Stuck | NotBound (closed : bool).

Definition listens (s : SV) : result unit * SV :=
  (ServerChannelConfig.on_acceptor (acceptorBind address) ;!
   let! s := gets id in ServerChannelConfig.on_acceptor (acceptorListen (backlog (theConfig s)))) s.

Definition spec_listen (c : channelRef) (us : U * SV) : attempt * (U * SV) :=
  let '(u, s) := us in
  match listens s with
  | (Err Undefined, s) => (Stuck, (u, s))
  | (Err _, s) => (NotBound false, (told (EXCEPTION AnyException) u, s))
  | (Ok _, s) =>
      let '(a, s) := localAddressOf s in
      let u := told (BOUND_TO a) u in
      match theFactory (theConfig s) with
      | None => (Stuck, (u, s))
      | Some f =>
          match made c f with
          | Ok _ => (Bound, (u, s))
          | Err Undefined => (Stuck, (u, s))
          | Err _ =>
              match shutdown (told (EXCEPTION AnyException) u, s) with
              | (Ok _, us) => (NotBound true, us)
              | (Err Undefined, us) => (Stuck, us)
              | (Err _, us) => (NotBound false, us)
              end
          end
      end
  end.

(** What the attempt leaves of the state, when [f] is the future of the request. *)
Definition attempted (w : W) (f : futureRef) (a : attempt) (r : result unit) (w' : W) : Prop :=
  match a with
  | Bound =>
      r = Ok tt /\ results (theFutures w') !! f = Some (Some true) /\ theBinder w' = theBinder w /\
      exists fa p g, theFactory (theConfig (theServer w')) = Some fa /\ made (nextChannel (theAccepted w)) fa = Ok p /\
        theAccepted w' = MkAccepted (<[nextChannel (theAccepted w) := MkChild p newChildConfig g]> (channels (theAccepted w)))
          (Pos.succ (nextChannel (theAccepted w))) (Some (nextChannel (theAccepted w))) (clildrenChannels (theAccepted w))
  | Stuck => r = Err Undefined
  | NotBound c => r = Ok tt /\ later w w' /\ pushed w w' /\ closing w' = Some (if c then Some true else None)
  end.

Lemma listens_outcome (f : pipelineSend channelRef E -> M W visits) w :
  outcome f (onServer (ServerChannelConfig.on_acceptor (acceptorBind address)) ;+
     let+ s := asks theServer in
     onServer (ServerChannelConfig.on_acceptor (acceptorListen (backlog (theConfig s)))) ;+
     Returns true) w
  = (match fst (listens (theServer w)) with Ok _ => Ok true | Err x => Err x end, with_server (snd (listens (theServer w))) w).
Proof.
  unfold listens. rewrite outcome_andThen. pose proof (outcome_onServer f (ServerChannelConfig.on_acceptor (acceptorBind address)) w) as E1.
  destruct (ServerChannelConfig.on_acceptor (acceptorBind address) (theServer w)) as [[[]|x] s] eqn:E; cbn [fst snd] in E1.
  - rewrite (bind_ok _ _ _ _ _ E1), (bind_ok _ _ _ _ _ E), bind_gets, outcome_andThen, (bind_ok _ _ _ _ _ (outcome_asks f theServer _)).
    unfold id. cbn [theServer with_server]. rewrite outcome_andThen.
    pose proof (outcome_onServer f (ServerChannelConfig.on_acceptor (acceptorListen (backlog (theConfig s)))) (with_server s w)) as E2.
    cbn [theServer with_server] in E2. destruct (ServerChannelConfig.on_acceptor _ s) as [[[]|x] s']; cbn [fst snd] in *.
    + rewrite (bind_ok _ _ _ _ _ E2). reflexivity.
    + rewrite (bind_err _ _ _ _ _ E2). reflexivity.
  - rewrite (bind_err _ _ _ _ _ E1), (bind_err _ _ _ _ _ E). reflexivity.
Qed.

Lemma completes f s w : isCloseFuture f w = false -> results (theFutures w) !! f = Some None ->
  completed f s w = with_futures (MkFutures (<[f := Some s]> (results (theFutures w))) (nextFuture (theFutures w))) w.
Proof. intros Hf Hr. unfold completed, complete. rewrite Hf, Hr. reflexivity. Qed.

Lemma not_closeFuture f (w : W) : isCloseFuture f w = false <->
  f <> serverCloseFuture /\ forall c ch, channels (theAccepted w) !! c = Some ch -> f <> childCloseFuture ch.
Proof.
  unfold isCloseFuture. rewrite orb_false_iff, bool_decide_eq_false. apply and_iff_compat_l. split.
  - intros He c ch Hch ->.
    assert (existsb (fun x => bool_decide (childCloseFuture ch = childCloseFuture (snd x))) (map_to_list (channels (theAccepted w))) = true) as E.
    { apply List.existsb_exists. exists (c, ch). split; [apply list_elem_of_In, elem_of_map_to_list, Hch | apply bool_decide_eq_true_2; reflexivity]. }
    congruence.
  - intros Hne. destruct (existsb _ _) eqn:E; [|reflexivity]. apply List.existsb_exists in E as ([c ch] & Hin & Heq).
    apply list_elem_of_In, elem_of_map_to_list in Hin. apply bool_decide_eq_true in Heq. exfalso. exact (Hne c ch Hin Heq).
Qed.

Lemma waits_bound f p w w' : fresh_futures w -> isCloseFuture f w = false -> results (theFutures w) !! f = Some None ->
  w' = completed f true (waits p w) ->
  results (theFutures w') !! f = Some (Some true) /\ theBinder w' = theBinder w /\ state_of w' = state_of w /\
  exists g, theAccepted w' = MkAccepted (<[nextChannel (theAccepted w) := MkChild p newChildConfig g]> (channels (theAccepted w)))
    (Pos.succ (nextChannel (theAccepted w))) (Some (nextChannel (theAccepted w))) (clildrenChannels (theAccepted w)).
Proof.
  intros Hw Hf Hr ->. assert (f <> nextFuture (theFutures w)) as Hn by (intros ->; rewrite Hw in Hr by lia; discriminate).
  rewrite completes; [|apply not_closeFuture|].
  - cbn. rewrite lookup_insert_eq. eauto 6.
  - apply not_closeFuture in Hf as [Hs Hf]. split; [exact Hs|]. intros c ch. cbn.
    destruct (decide (c = nextChannel (theAccepted w))) as [->|Hc]; [|rewrite lookup_insert_ne by congruence; apply Hf].
    rewrite lookup_insert_eq. intros E. injection E as <-. exact Hn.
  - cbn. rewrite lookup_insert_ne by congruence. exact Hr.
Qed.

(** The second catch of [bind]: the request fails, and the channel is closed. *)
Lemma fails_closed n f x w : x <> Undefined -> fresh_futures w -> closing w = Some None -> clildrenChannels (theAccepted w) = [] ->
  exists r w', outcome (sends (S (S n))) (failRequest (Some f) x ;+ closeServerChannel (Some f)) w = (r, w') /\
    match shutdown (told (EXCEPTION AnyException) (user w), theServer w) with
    | (Ok _, us) => r = Ok tt /\ state_of w' = us /\ closing w' = Some (Some true) /\ later w w' /\ pushed w w'
    | (Err Undefined, us) => r = Err Undefined /\ state_of w' = us
    | (Err _, us) => r = Ok tt /\ state_of w' = us /\ closing w' = Some None /\ later w w' /\ pushed w w'
    end.
Proof.
  intros Hx Hw Hc Hch. pose proof (later_failing f w Hw) as L. pose proof (pushed_failing f w) as Hp.
  assert (closing (failing f w) = Some None) as Hc2 by (rewrite closing_failing; [exact Hc | exact Hw | rewrite Hc; discriminate]).
  destruct (closes_server n f (failing f w) (later_fresh _ _ L) Hc2) as (r & w' & Ew & Hw').
  { rewrite (later_accepted _ _ L). exact Hch. }
  change (state_of (failing f w)) with (user (failing f w), theServer (failing f w)) in Hw'. rewrite state_failing in Hw'. exists r, w'.
  split; [rewrite outcome_andThen, (bind_ok _ _ _ _ _ (outcome_failRequest n f x w)); exact Ew|].
  assert (forall w', later (failing f w) w' -> later w w' /\ pushed w w') as Hlater.
  { intros w2 L2. split; [exact (later_trans _ _ _ L L2) | exact (pushed_later w _ _ Hp L2)]. }
  destruct (shutdown _) as [[[]|[]] us];
    first [destruct Hw' as (-> & Hs & Hcl & L2); exact (conj eq_refl (conj Hs (conj Hcl (Hlater w' L2)))) | exact Hw'].
Qed.

Lemma binds_server n f w : fresh_futures w -> closing w = Some None -> clildrenChannels (theAccepted w) = [] ->
  isCloseFuture f w = false -> results (theFutures w) !! f = Some None ->
  exists r w', outcome (sends (S (S n))) (bind b (Some f) address) w = (r, w') /\
    attempted w f (fst (spec_listen (nextChannel (theAccepted w)) (state_of w))) r w' /\
    state_of w' = snd (spec_listen (nextChannel (theAccepted w)) (state_of w)).
Proof.
  intros Hw Hc Hch Hf Hpend. unfold bind. rewrite outcome_andThen. unfold Prelude.bind at 1. rewrite outcome_tryCatch by apply silent_sends.
  rewrite listens_outcome. change (state_of w) with (user w, theServer w). unfold spec_listen.
  destruct (listens (theServer w)) as [[[]|x] s]; cbn [fst snd].
  - cbn iota. rewrite outcome_tryCatch by apply silent_sends.
    rewrite outcome_andThen, (bind_ok _ _ _ _ _ (outcome_localAddress _ _)). cbn [theServer with_server].
    destruct (localAddressOf s) as [a s'] eqn:Ea. cbn [fst snd]. set (w1 := tell (BOUND_TO a) (with_server s' (with_server s w))).
    assert (later w w1) as L1 by (destruct (later_refl w Hw); split; assumption).
    rewrite outcome_andThen, (bind_ok _ _ _ tt w1) by (apply outcome_fire; reflexivity). rewrite outcome_andThen.
    pose proof (outcome_run (sends (S (S n))) w1) as E. change (theServer w1) with s' in E. change (theAccepted w1) with (theAccepted w) in E.
    destruct (theFactory (theConfig s')) as [fa|] eqn:Efa; [|rewrite (bind_err _ _ _ _ _ E); eexists _, _; repeat split].
    destruct (made (nextChannel (theAccepted w)) fa) as [p|x] eqn:Em.
    + rewrite (bind_ok _ _ _ _ _ E), (outcome_complete _ f true). eexists _, _. split; [reflexivity|].
      destruct (waits_bound f p w1 _ (later_fresh _ _ L1) Hf Hpend eq_refl) as (Hr & Hb & Hs & g & Ha).
      split; [|exact Hs]. split; [reflexivity|]. split; [exact Hr|]. split; [exact Hb|]. exists fa, p, g.
      split; [|split; [exact Em | exact Ha]]. injection Hs as _ Hs. rewrite Hs. exact Efa.
    + rewrite (bind_err _ _ _ _ _ E). destruct (decide (x = Undefined)) as [->|Hx]; [eexists _, _; repeat split|].
      destruct (fails_closed n f x w1 Hx (later_fresh _ _ L1) Hc Hch) as (r & w' & Ew & Hw'). exists r, w'.
      split; [destruct x; (contradiction || exact Ew)|].
      change (user w1) with (told (BOUND_TO a) (user w)) in Hw'. change (theServer w1) with s' in Hw'.
      destruct x; try contradiction; destruct (shutdown _) as [[[]|[]] us];
        first [destruct Hw' as (-> & Hs & Hcl & L3 & Hp); exact (conj (conj eq_refl (conj (later_trans _ _ _ L1 L3) (conj Hp Hcl))) Hs)
              | destruct Hw' as (-> & Hs); exact (conj eq_refl Hs)].
  - destruct (decide (x = Undefined)) as [->|Hx]; [eexists _, _; repeat split|].
    set (w0 := with_server s w). pose proof (later_failing f w0 Hw) as L. pose proof (later_trans _ _ _ (later_server s w Hw) L) as L'.
    exists (Ok tt), (failing f w0).
    assert (closing (failing f w0) = Some None) as Hc'
      by (rewrite closing_failing; [exact Hc | exact Hw | change (closing w0) with (closing w); rewrite Hc; discriminate]).
    destruct x; try contradiction; (split; [rewrite outcome_andThen, (bind_ok _ _ _ _ _ (outcome_failRequest n f _ w0)); reflexivity|]);
      exact (conj (conj eq_refl (conj L' (conj (pushed_failing f w0) Hc'))) (state_failing f w0)).
Qed.

(** *** Opening *)

(** The options of the bootstrap, for the server channel and for those it accepts. *)
Definition parentOptions : options value := fst (splitOptions (entries (Bootstrap.theOptions b)) ∅ ∅).
Definition optionsOfChildren : options value := snd (splitOptions (entries (Bootstrap.theOptions b)) ∅ ∅).

Definition configures : M SV unit :=
  match Bootstrap.thePipelineFactory b with
  | Some f => ServerChannelConfig.setPipelineFactory (Some f)
  | None => ret tt
  end ;!
  ServerChannelConfig.setOptions parentOptions.

Definition configured (s : SV) (w : W) : W := with_server s (with_binder (MkBinder (futureQueue (theBinder w)) optionsOfChildren) w).

(** The channel is opened: it is configured, the parent handler is told, and the bind is
    requested. *)
Definition spec_open (us : U * SV) : attempt * (U * SV) :=
  let '(u, s) := us in
  match configures s with
  | (Err Undefined, s) => (Stuck, (u, s))
  | (Err _, s) => (NotBound false, (told (EXCEPTION ChannelPipelineException) u, s))
  | (Ok _, s) => spec_listen 2 (told OPENED u, s)
  end.

Definition configureProgram : program unit :=
  match Bootstrap.thePipelineFactory b with
  | Some f => onServer (ServerChannelConfig.setPipelineFactory (Some f))
  | None => Returns tt
  end ;+
  let+ w := asks id in
  let '(parent, children) := splitOptions (entries (Bootstrap.theOptions b)) ∅ (childOptions (theBinder w)) in
  updates (fun w => with_binder (MkBinder (futureQueue (theBinder w)) children) w) ;+
  onServer (ServerChannelConfig.setOptions parent).

Lemma outcome_configure (f : pipelineSend channelRef E -> M W visits) w : childOptions (theBinder w) = ∅ ->
  outcome f configureProgram w = (fst (configures (theServer w)), configured (snd (configures (theServer w))) w).
Proof.
  intros Hw. unfold configureProgram, configures, configured, optionsOfChildren, parentOptions. rewrite outcome_andThen.
  rewrite (bind_ok _ _ _ tt (with_server (snd (match Bootstrap.thePipelineFactory b with
    | Some f => ServerChannelConfig.setPipelineFactory (Some f) | None => ret tt end (theServer w))) w))
    by (destruct (Bootstrap.thePipelineFactory b); [apply outcome_onServer | destruct w; reflexivity]).
  rewrite outcome_andThen, (bind_ok _ _ _ _ _ (outcome_asks f id _)). unfold id. cbn [theBinder with_server]. rewrite Hw.
  destruct (splitOptions _ ∅ ∅) as [parentO children]. rewrite outcome_andThen. erewrite bind_ok by apply outcome_updates.
  rewrite outcome_onServer. cbn [theServer with_server with_binder fst snd].
  destruct (Bootstrap.thePipelineFactory b) as [fa|]; reflexivity.
Qed.

(** The first events of a server, before anything else happened. *)
Record initial (w : W) : Prop := MkInitial {
  initial_futures : fresh_futures w;
  initial_closing : closing w = Some None;
  initial_accepted : theAccepted w = MkAccepted ∅ 2 None [];
  initial_binder : theBinder w = MkBinder [] ∅;
}.

Definition opened (a : attempt) (r : result unit) (w' : W) : Prop :=
  match a with
  | Bound =>
      r = Ok tt /\ (exists f, futureQueue (theBinder w') = [f] /\ results (theFutures w') !! f = Some (Some true)) /\
      childOptions (theBinder w') = optionsOfChildren /\
      exists fa p g, theFactory (theConfig (theServer w')) = Some fa /\ made 2 fa = Ok p /\
        theAccepted w' = MkAccepted {[2%positive := MkChild p newChildConfig g]} 3 (Some 2%positive) []
  | Stuck => r = Err Undefined
  | NotBound c =>
      r = Ok tt /\ (exists q rest, futureQueue (theBinder w') = q :: rest /\ results (theFutures w') !! q = Some (Some false)) /\
      closing w' = Some (if c then Some true else None) /\ theAccepted w' = MkAccepted ∅ 2 None [] /\ fresh_futures w'
  end.

Lemma outcome_future (f : pipelineSend channelRef E -> M W visits) w :
  outcome f (Channels.future serverChannel false) w
    = (Ok (nextFuture (theFutures w)), with_futures (snd (newFutureOf (theFutures w))) w).
Proof. reflexivity. Qed.

(** The request to bind, by the binder. *)
Lemma outcome_bind n w : fresh_futures w -> closing w = Some None -> theAccepted w = MkAccepted ∅ 2 None [] -> futureQueue (theBinder w) = [] ->
  childOptions (theBinder w) = optionsOfChildren ->
  exists r w', outcome (sends (S (S (S n))))
      (let+ f := AbstractChannel.bind serverChannel address in
       updates (fun w => with_binder (MkBinder (futureQueue (theBinder w) ++ [f]) (childOptions (theBinder w))) w)) w = (r, w') /\
    opened (fst (spec_listen 2 (state_of w))) r w' /\ state_of w' = snd (spec_listen 2 (state_of w)).
Proof.
  intros Hw Hc Ha Hq Ho. rewrite outcome_andThen. unfold AbstractChannel.bind, Channels.bind. unfold Prelude.bind at 1.
  rewrite outcome_andThen, (bind_ok _ _ _ _ _ (outcome_future _ w)). set (f := nextFuture (theFutures w)).
  set (w1 := with_futures (snd (newFutureOf (theFutures w))) w).
  assert (f <> serverCloseFuture) as Hf by (intros E; unfold closing in Hc; rewrite (Hw serverCloseFuture) in Hc; [discriminate | rewrite <- E; reflexivity]).
  assert (fresh_futures w1) as Hw1.
  { intros g Hg. cbn in *. rewrite lookup_insert_ne by (fold f; lia). apply Hw. cbn. lia. }
  assert (closing w1 = Some None) as Hc1 by (unfold closing, w1; cbn; rewrite lookup_insert_ne by exact Hf; exact Hc).
  assert (isCloseFuture f w1 = false) as Hf1.
  { apply not_closeFuture. split; [exact Hf|]. cbn. rewrite Ha. intros c ch Hch. cbn in Hch. rewrite lookup_empty in Hch. discriminate. }
  destruct (binds_server n f w1 Hw1 Hc1) as (r & w2 & E & Hr & Hs); [cbn; rewrite Ha; reflexivity | exact Hf1 | apply lookup_insert_eq|].
  change (theAccepted w1) with (theAccepted w) in *. change (state_of w1) with (state_of w) in *. rewrite Ha in Hr, Hs. cbn [nextChannel] in Hr, Hs.
  assert (r = Ok tt \/ r = Err Undefined) as Hres by (destruct (fst (spec_listen 2 (state_of w))); cbn in Hr; intuition).
  assert (effect (sends (S (S (S n))) (PipelineDownstream serverChannel
           (DownstreamChannelStateEvent serverChannel (Some f) BOUND (Some (AnyAddress address))))) w1 = (r, w2)) as E1.
  { rewrite sends_down by apply silent_sends. change (sunk b _) with (bind b (Some f) address). rewrite E.
    destruct Hres as [-> | ->]; reflexivity. }
  rewrite outcome_andThen. unfold Channels.pipelineDownstream, Prelude.bind. rewrite outcome_sends. unfold Prelude.bind.
  rewrite E1. destruct Hres as [-> | ->].
  - eexists _, _. split; [reflexivity|]. split; [|exact Hs].
    destruct (fst (spec_listen 2 (state_of w))) as [| |c]; cbn [attempted opened] in *; [| discriminate |].
    + destruct Hr as (_ & Hok & Hb & fa & p & g & Hfa & Hp & Hacc). change (theAccepted w1) with (theAccepted w) in *.
      rewrite Ha in Hp, Hacc. split; [reflexivity|]. split; [|split].
      * exists f. cbn. rewrite Hb. cbn. rewrite Hq. split; [reflexivity | exact Hok].
      * cbn. rewrite Hb. exact Ho.
      * exists fa, p, g. split; [exact Hfa|]. split; [exact Hp|]. cbn. rewrite Hacc. reflexivity.
    + destruct Hr as (_ & L & (q & rest & Eq & Er) & Hcl). split; [reflexivity|]. split; [|split; [exact Hcl|split]].
      * exists q, (rest ++ [f]). cbn. rewrite Eq. cbn. rewrite Hq. split; [reflexivity | exact Er].
      * cbn. rewrite (later_accepted _ _ L). exact Ha.
      * intros h Hh. exact (later_fresh _ _ L h Hh).
  - eexists _, _. split; [reflexivity|]. split; [|exact Hs].
    destruct (fst (spec_listen 2 (state_of w))) as [| |c]; cbn [attempted opened] in *; [destruct Hr as [Hr _]; discriminate | reflexivity | destruct Hr as [Hr _]; discriminate].
Qed.

Lemma effect_reported n e w : Channels.isExceptionEvent e = false -> Channels.getChannel e = serverChannel ->
  effect (DefaultChannelPipeline.notifyHandlerException (sends (S (S n))) (Sink tt) e) w
    = (Ok tt, tell (EXCEPTION ChannelPipelineException) (failed w)).
Proof.
  intros He Hc. unfold DefaultChannelPipeline.notifyHandlerException.
  change (DefaultChannelPipeline.isExceptionEvent e) with (Channels.isExceptionEvent e). rewrite He.
  rewrite effect_cons, effect_handle by apply silent_sends.
  change (DefaultChannelPipeline.sinkException e) with (Channels.fireExceptionCaught (SA := SA) (Msg := Msg) (W := W) (Channels.getChannel e) ChannelPipelineException). rewrite Hc.
  rewrite outcome_exception. reflexivity.
Qed.

Lemma opens_server n w : initial w ->
  exists r w', outcome (sends (S (S (S (S n))))) (Channels.fireChannelOpen serverChannel) w = (r, w') /\
    opened (fst (spec_open (state_of w))) r w' /\ state_of w' = snd (spec_open (state_of w)).
Proof.
  intros [Hw Hc Ha Hb]. unfold Channels.fireChannelOpen. rewrite outcome_andThen. unfold Channels.notifyParent. unfold Prelude.bind.
  rewrite outcome_andThen, (bind_ok _ _ _ _ _ (outcome_asks _ _ w)). change (getParent serverChannel w) with (@None channelRef).
  cbn iota. rewrite outcome_returns. unfold Channels.pipelineUpstream. rewrite outcome_sends. unfold Prelude.bind.
  change (UpstreamChannelStateEvent serverChannel OPEN (Some (AnyBool true))) with OPENED. rewrite sends_up, binder_effect.
  change (callUpstream _ OPENED) with (channelOpen b address OPENED). unfold channelOpen, inHandler.
  rewrite outcome_andThen. unfold Prelude.bind. rewrite outcome_mapSends. fold configureProgram.
  rewrite outcome_configure by (rewrite Hb; reflexivity).
  change (state_of w) with (user w, theServer w). unfold spec_open.
  destruct (configures (theServer w)) as [[[]|x] s] eqn:Ec; cbn [fst snd].
  - rewrite outcome_andThen. unfold Prelude.bind. unfold forward at 1. rewrite outcome_sends.
    rewrite (bind_ok _ _ _ _ _ (binder_forwards _ _ _)). rewrite outcome_returns. rewrite outcome_mapSends.
    change (Channels.getChannel OPENED) with serverChannel.
    destruct (outcome_bind n (tell OPENED (configured s w))) as (r & w' & E & Ho & Hs);
      [exact Hw | exact Hc | exact Ha | cbn; rewrite Hb; reflexivity | reflexivity|].
    change (state_of (tell OPENED (configured s w))) with (told OPENED (user w), s) in *.
    change (outcome (fun s0 => spec_context lists (inv (S (S (S n)))) serverChannel [] ("binder"%string, BinderHandler) (tail bossList) (SendPipeline s0)))
      with (outcome (R := unit) (sends (S (S (S n))))). rewrite E.
    assert (r = Ok tt \/ r = Err Undefined) as [-> | ->] by (destruct (fst (spec_listen _ _)); cbn in Ho; intuition).
    all: eexists _, _; split; [reflexivity|]; split; [exact Ho | exact Hs].
  - destruct (decide (x = Undefined)) as [->|Hx]; [eexists _, _; repeat split|].
    set (w1 := configured s w). pose proof (later_failed w1 Hw) as L.
    exists (Ok tt), (tell (EXCEPTION ChannelPipelineException) (failed w1)).
    split; [pose proof (effect_reported (S n) OPENED w1 eq_refl eq_refl) as Er; unfold spec_deliver in Er; destruct x; try contradiction; rewrite Er; reflexivity|].
    enough (opened (NotBound false) (Ok tt) (tell (EXCEPTION ChannelPipelineException) (failed w1)))
      by (destruct x; try contradiction; (split; [assumption | reflexivity])).
    split; [reflexivity|]. split; [|split; [|split; [exact Ha | exact (later_fresh _ _ L)]]].
    + exists (nextFuture (theFutures w)), []. cbn. rewrite Hb. split; [reflexivity | apply lookup_insert_eq].
    + unfold closing in *. cbn. rewrite lookup_insert_ne; [exact Hc|]. intros E. rewrite Hw in Hc by lia. discriminate.
Qed.



End Delivered.

(** *** Accepting *)

Definition CHILD (c : channelRef) : E := DefaultChildChannelStateEvent serverChannel c.

(** The channel [c] has another configuration. *)
Definition with_child (c : channelRef) (ch : child pipeline CC) (cc : CC) (w : W) : W :=
  with_accepted (MkAccepted (<[c := MkChild (childPipeline ch) cc (childCloseFuture ch)]> (channels (theAccepted w)))
    (nextChannel (theAccepted w)) (accepting (theAccepted w)) (clildrenChannels (theAccepted w))) w.

(** The parent handler is told of the child, or of the option that cannot be set. *)
Definition told_child (c : channelRef) (r : result unit) (w : W) : W :=
  match r with
  | Ok _ => tell (CHILD c) w
  | Err _ => tell (EXCEPTION ChannelPipelineException) (failed w)
  end.

(** *** The server *)

Variable parentHandler : option UH.
Hypothesis Hclone : option_map (fun h => clone (UserHandler h)) parentHandler = option_map UserHandler parent.

Lemma boss_made : exists boss : pipeline,
  bossPipeline parentHandler DefaultChannelPipeline.new = (Ok tt, boss) /\ reached boss bossList /\ DefaultChannelPipeline.sink boss = Sink tt.
Proof.
  unfold bossPipeline. destruct (addLast_joins (DefaultChannelPipeline.new : pipeline) [] "binder" BinderHandler reached_new) as (p1 & E1 & R1);
    [repeat split | reflexivity|].
  pose proof (perform_keeps_sink (AddLast "binder" (Some BinderHandler)) (DefaultChannelPipeline.new : pipeline)) as K1. cbn [perform] in K1.
  rewrite E1 in K1. cbn [snd] in K1. rewrite (bind_ok _ _ _ _ _ E1).
  assert (exists p2 : pipeline, match parentHandler with
      | Some h => DefaultChannelPipeline.addLast "userHandler" (Some (clone (UserHandler h)))
      | None => ret tt
      end p1 = (Ok tt, p2) /\ reached p2 bossList /\ attachment p2 = attachment (DefaultChannelPipeline.new : pipeline)) as (p2 & E2 & R2 & K2).
  { unfold bossList. destruct parentHandler as [h0|], parent as [h|] eqn:Hp in Hclone |- *; try discriminate; [|exists p1; auto].
    injection Hclone as ->. destruct (addLast_joins p1 _ "userHandler" (UserHandler h) R1) as (p2 & E2 & R2);
      [exact (observer_joins h (Hparent h Hp)) | reflexivity|].
    exists p2. split; [exact E2|]. split; [exact R2|]. rewrite <- K1.
    pose proof (perform_keeps_sink (AddLast "userHandler" (Some (UserHandler h))) p1) as K2. cbn [perform] in K2. rewrite E2 in K2. exact K2. }
  rewrite (bind_ok _ _ _ _ _ E2). injection K2 as Kc Ks. exists (snd (DefaultChannelPipeline.attach (Some serverChannel) (Some tt) p2)).
  split; [|split; [exact (reached_attach _ _ _ _ R2)|]]; unfold DefaultChannelPipeline.attach; rewrite bind_gets; unfold id;
    change (DefaultChannelPipeline.channel p2) with (DefaultChannelPipeline.channel p2); rewrite Kc, Ks; reflexivity.
Qed.

(** The lists of the pipelines while no channel waits. *)
Definition bossOnly (c : channelRef) : option (DefaultChannelPipeline.channelSink unit * list entry) :=
  if bool_decide (c = serverChannel) then Some (Sink tt, bossList) else None.

Lemma outcome_outside {R} boss fuel (h : program R) w :
  reached boss bossList -> DefaultChannelPipeline.sink boss = Sink tt -> channels (theAccepted w) = ∅ ->
  outside b address boss fuel h w = outcome (spec_deliver bossOnly fuel) h w.
Proof.
  intros Hr Hs Hw. assert (described (network boss w) bossOnly) as Hd.
  { intros c. unfold network, bossOnly. destruct (bool_decide (c = serverChannel)); [auto|]. rewrite Hw, lookup_empty. exact I. }
  change (outcome (DefaultChannelPipeline.deliver (network boss w) fuel) h w = outcome (spec_deliver bossOnly fuel) h w).
  apply outcome_ext. intros s w'. unfold effect. apply bind_ext_l, deliver_described, Hd.
Qed.

(** What [bind] does to the state of the user's handler and of the server channel: the
    acceptor is opened, the channel configured and bound, and closed when that fails.
    [Undefined] is a null pointer, or a wait without end. *)
Definition spec_bind (us : U * SV) : result channelRef * (U * SV) :=
  let '(u, s) := us in
  match ServerChannelConfig.on_acceptor acceptorOpen s with
  | (Err Undefined, s) => (Err Undefined, (u, s))
  | (Err _, s) => (Err ChannelException, (u, s))
  | (Ok _, s) =>
      match spec_open (u, s) with
      | (Bound, us) => (Ok serverChannel, us)
      | (Stuck, us) => (Err Undefined, us)
      | (NotBound true, us) => (Err ChannelException, us)
      | (NotBound false, us) =>
          match shutdown us with
          | (Ok _, us) => (Err ChannelException, us)
          | (Err _, us) => (Err Undefined, us)
          end
      end
  end.

(** What waits when a server is bound: one channel, with a pipeline that the factory made. *)
Definition serving (w : W) : Prop :=
  exists fa p g, theFactory (theConfig (theServer w)) = Some fa /\ made 2 fa = Ok p /\
    theAccepted w = MkAccepted {[2%positive := MkChild p newChildConfig g]} 3 (Some 2%positive) [] /\
    childOptions (theBinder w) = optionsOfChildren.

Lemma new_channel boss n w : reached boss bossList -> DefaultChannelPipeline.sink boss = Sink tt -> initial w ->
  exists w', match ServerChannelConfig.on_acceptor acceptorOpen (theServer w) with
    | (Ok _, s) =>
        newChannel b address boss (S (S (S (S n)))) w = (match fst (spec_open (user w, s)) with Stuck => Err Undefined | _ => Ok tt end, w') /\
        opened (fst (spec_open (user w, s))) (match fst (spec_open (user w, s)) with Stuck => Err Undefined | _ => Ok tt end) w' /\
        state_of w' = snd (spec_open (user w, s))
    | (Err x, s) => newChannel b address boss (S (S (S (S n)))) w = (match x with Undefined => Err Undefined | _ => Err ChannelException end, w') /\
        state_of w' = (user w, s)
    end.
Proof.
  intros Hr Hk Hw. pose proof Hw as [Hf Hc Ha Hb]. unfold newChannel. rewrite (outcome_outside _ _ _ _ Hr Hk) by (rewrite Ha; reflexivity).
  rewrite outcome_andThen. pose proof (outcome_onServer (spec_deliver bossOnly (S (S (S (S n))))) (ServerChannelConfig.on_acceptor acceptorOpen) w) as E.
  destruct (ServerChannelConfig.on_acceptor acceptorOpen (theServer w)) as [[[]|x] s]; cbn [fst snd] in E.
  - rewrite (bind_ok _ _ _ _ _ E).
    destruct (opens_server bossOnly eq_refl n (with_server s w)) as (r & w' & Ew & Ho & Hs); [split; assumption|].
    change (state_of (with_server s w)) with (user w, s) in *. exists w'. rewrite Ew.
    assert (r = match fst (spec_open (user w, s)) with Stuck => Err Undefined | _ => Ok tt end) as ->
      by (destruct (fst (spec_open _)); cbn in Ho; intuition).
    split; [destruct (fst (spec_open _)); reflexivity|]. split; [exact Ho | exact Hs].
  - rewrite (bind_err _ _ _ _ _ E). eexists. split; [destruct x; reflexivity | reflexivity].
Qed.

Lemma closes_again n w : isOpen serverChannel w = true -> forall r w',
  outcome (spec_deliver bossOnly (S (S n))) (closeServerChannel (Some serverCloseFuture)) w = (r, w') -> r = Ok tt \/ r = Err Undefined ->
  outcome (spec_deliver bossOnly (S (S (S n)))) (AbstractChannel.close serverChannel) w
    = (match r with Ok _ => Ok serverCloseFuture | Err x => Err x end, w').
Proof.
  intros Ho r w' E Hr. unfold AbstractChannel.close. rewrite outcome_andThen. rewrite (bind_ok _ _ _ serverCloseFuture w) by reflexivity.
  rewrite outcome_andThen. rewrite (bind_ok _ _ _ false w).
  2: { rewrite outcome_asks. change (isOpen serverChannel w) with (negb (isDone serverCloseFuture w)) in Ho. apply negb_true_iff in Ho. rewrite Ho. reflexivity. }
  rewrite outcome_andThen. unfold Channels.pipelineDownstream, Prelude.bind. rewrite outcome_sends. unfold Prelude.bind.
  rewrite (sends_down bossOnly eq_refl) by apply silent_sends.
  change (sunk b _) with (closeServerChannel (Some serverCloseFuture)). rewrite E. destruct Hr as [-> | ->]; reflexivity.
Qed.
(** The end of a bind that failed. *)
Lemma gives_up boss n c w : reached boss bossList -> DefaultChannelPipeline.sink boss = Sink tt ->
  closing w = Some (if c : bool then Some true else None) -> theAccepted w = MkAccepted ∅ 2 None [] -> fresh_futures w ->
  exists r w', (let! f := outside b address boss (S (S (S n))) (AbstractChannel.close serverChannel) in
                await f ;! throw (A := channelRef) ChannelException) w = (r, w') /\
    (r, state_of w') = if c then (Err ChannelException, state_of w)
                       else match shutdown (state_of w) with
                            | (Ok _, us) => (Err ChannelException, us)
                            | (Err _, us) => (Err Undefined, us)
                            end.
Proof.
  intros Hr Hk Hc Ha Hf. unfold Prelude.bind at 1. rewrite (outcome_outside _ _ _ _ Hr Hk) by (rewrite Ha; reflexivity). destruct c.
  - exists (Err ChannelException), w. split; [|reflexivity].
    assert (outcome (spec_deliver bossOnly (S (S (S n)))) (AbstractChannel.close serverChannel) w = (Ok serverCloseFuture, w)) as ->.
    { unfold AbstractChannel.close. rewrite outcome_andThen. rewrite (bind_ok _ _ _ serverCloseFuture w) by reflexivity.
      rewrite outcome_andThen, (bind_ok _ _ _ _ _ (outcome_asks _ _ w)).
      replace (isDone serverCloseFuture w) with true; [reflexivity|]. cbn. unfold isCompleted. unfold closing in Hc. rewrite Hc. reflexivity. }
    unfold await, closing, Prelude.bind, reads in *. rewrite Hc. reflexivity.
  - destruct (closes_server bossOnly eq_refl n serverCloseFuture w Hf Hc) as (r & w' & E & Hw'); [rewrite Ha; reflexivity|].
    assert (r = Ok tt \/ r = Err Undefined) as Hres by (destruct (shutdown _) as [[[]|[]] us]; destruct Hw' as [-> _]; auto).
    rewrite (closes_again n w (is_open w Hc) r w' E Hres).
    assert (forall v, closing w' = Some v -> await serverCloseFuture w' = (match v with Some r => Ok r | None => Err Undefined end, w')) as Hawait
      by (intros v Hv; unfold await, reads; unfold closing in Hv; rewrite Hv; destruct v; reflexivity).
    destruct (shutdown (state_of w)) as [[[]|[]] us]; try (destruct Hw' as (-> & Hs & Hcl & _); unfold Prelude.bind; rewrite (Hawait _ Hcl);
      eexists _, w'; (split; [reflexivity | rewrite Hs; reflexivity])).
    destruct Hw' as (-> & Hs). eexists _, w'. split; [reflexivity | rewrite Hs; reflexivity].
Qed.

(** C7: [ServerBootstrap::bind] opens the acceptor, gives the channel its pipeline factory
    and the options without the prefix, tells the parent handler, binds, listens, and
    makes the pipeline of the first channel; when a step fails the parent handler is
    told, the acceptor closed, and an exception thrown.  When it returns, exactly one
    channel waits for a connection, with a pipeline of the factory, and the options
    with the prefix wait for the children. *)
Theorem server_binds n u a bufferFactory garbage :
  let '(r, w) := ServerBootstrap_bind b parentHandler address (S (S (S (S n)))) u a bufferFactory garbage in
  (r, state_of w) = spec_bind (u, MkServer a (MkConfig None bufferFactory garbage) None) /\
  match r with Ok c => c = serverChannel /\ serving w | Err _ => True end.
Proof.
  unfold ServerBootstrap_bind. destruct boss_made as (boss & -> & Hr & Hk). unfold serverBind.
  set (w := newWorld u a bufferFactory garbage). assert (initial w) as Hw.
  { split; try reflexivity. intros g Hg. cbn in *. rewrite lookup_insert_ne by lia. apply lookup_empty. }
  unfold spec_bind. change (MkServer a _ None) with (theServer w).
  destruct (new_channel boss n w Hr Hk Hw) as (w' & E). change (user w) with u in E.
  destruct (ServerChannelConfig.on_acceptor acceptorOpen (theServer w)) as [[[]|x] s].
  - destruct E as (E & Ho & Hs). unfold Prelude.bind at 1. rewrite E.
    destruct (spec_open (u, s)) as [[| |c] us]; cbn [fst snd] in *.
    + destruct Ho as (_ & (f & Hq & Hok) & Hopt & fa & p & g & Hfa & Hp & Hacc). rewrite bind_gets, Hq.
      unfold await, Prelude.bind, reads. rewrite Hok. cbn. rewrite Hs. split; [reflexivity|]. split; [reflexivity|].
      exists fa, p, g. auto.
    + rewrite Hs. split; [reflexivity | exact I].
    + destruct Ho as (_ & (q & rest & Hq & Hno) & Hcl & Hacc & Hf). rewrite bind_gets, Hq.
      unfold await at 1, Prelude.bind at 1, reads. rewrite Hno.
      destruct (gives_up boss (S n) c w' Hr Hk Hcl Hacc Hf) as (r & w2 & E2 & Hr2). rewrite Hs in Hr2. rewrite E2, Hr2.
      destruct c; [|destruct (shutdown us) as [[]]]; injection Hr2 as -> _; (split; [reflexivity | exact I]).
  - destruct E as [E Hs]. unfold Prelude.bind at 1. rewrite E. destruct x; rewrite Hs; (split; [reflexivity | exact I]).
Qed.

(** The binder sees a channel that is accepted before its own handlers do. *)
Section Accepted.
Variable lists : channelRef -> option (DefaultChannelPipeline.channelSink unit * list entry).
Hypothesis Hlists : lists serverChannel = Some (Sink tt, bossList).
Abbreviation sends n := (spec_deliver (E := E) (W := W) lists n).

Lemma outcome_childOpen n c ch w : channels (theAccepted w) !! c = Some ch ->
  outcome (spec_context lists (spec_invoke lists (S n)) serverChannel [] ("binder"%string, BinderHandler) (tail bossList))
    (childChannelOpen (CHILD c)) w
    = let '(r, cc) := setChildOptions (childOptions (theBinder w)) (childConfig ch) in
      (r, match r with Ok _ => tell (CHILD c) (with_child c ch cc w) | Err _ => with_child c ch cc w end).
Proof.
  intros Hch. unfold childChannelOpen, CHILD. rewrite outcome_andThen. erewrite bind_ok by reflexivity. unfold id. rewrite Hch.
  destruct (setChildOptions _ _) as [r cc]. rewrite outcome_andThen. erewrite bind_ok by apply outcome_updates.
  rewrite outcome_andThen. unfold Prelude.bind. rewrite outcome_ofResult. destruct r as [[]|x]; [|reflexivity].
  unfold forward. rewrite outcome_sends. erewrite bind_ok by (apply (binder_forwards lists Hlists)). reflexivity.
Qed.

Lemma sends_child n c ch w : channels (theAccepted w) !! c = Some ch -> isOpen c w = true ->
  effect (sends (S (S (S n))) (PipelineUpstream serverChannel (CHILD c))) w
    = let '(r, cc) := setChildOptions (childOptions (theBinder w)) (childConfig ch) in
      match r with
      | Err Undefined => (Err Undefined, with_child c ch cc w)
      | _ => (Ok tt, told_child c r (with_child c ch cc w))
      end.
Proof.
  intros Hch Ho. rewrite (sends_up lists Hlists), (binder_effect lists Hlists).
  change (callUpstream (SimpleChannelUpstreamHandler.handler (Binder b address)) (CHILD c))
    with (Reads (A := send channelRef E) (fun w => if isOpen c w then childChannelOpen (CHILD c) else forward (CHILD c))).
  rewrite outcome_reads, Ho, (outcome_childOpen _ _ _ _ Hch). destruct (setChildOptions _ _) as [[[]|x] cc]; [reflexivity|].
  destruct (decide (x = Undefined)) as [->|Hx]; [reflexivity|].
  pose proof (effect_reported lists Hlists n (CHILD c) (with_child c ch cc w) eq_refl eq_refl) as Er.
  unfold spec_deliver in Er. destruct x; try contradiction; rewrite Er; reflexivity.
Qed.

Lemma outcome_childFires n c ch w : c <> serverChannel -> channels (theAccepted w) !! c = Some ch -> isOpen c w = true ->
  outcome (sends (S (S (S n)))) (Channels.fireChannelOpen c) w
    = let '(r, cc) := setChildOptions (childOptions (theBinder w)) (childConfig ch) in
      match r with
      | Err Undefined => (Err Undefined, with_child c ch cc w)
      | _ => outcome (sends (S (S (S n)))) (Channels.pipelineUpstream c (UpstreamChannelStateEvent c OPEN (Some (AnyBool true))))
               (told_child c r (with_child c ch cc w))
      end.
Proof.
  intros Hc Hch Ho. unfold Channels.fireChannelOpen. rewrite outcome_andThen. unfold Channels.notifyParent, Prelude.bind.
  rewrite outcome_andThen, (bind_ok _ _ _ _ _ (outcome_asks _ _ w)).
  change (getParent c w) with (if bool_decide (c = serverChannel) then None else Some serverChannel).
  rewrite bool_decide_eq_false_2 by exact Hc. unfold Channels.fireChildChannelStateChanged. unfold Channels.pipelineUpstream at 1.
  rewrite outcome_sends. unfold Prelude.bind. fold (CHILD c). rewrite (sends_child n c ch w Hch Ho).
  destruct (setChildOptions _ _) as [[[]|[]] cc]; reflexivity.
Qed.
End Accepted.

Lemma network_child boss c ch cc w : channels (theAccepted w) !! c = Some ch -> forall w' : W, theAccepted w' = theAccepted (with_child c ch cc w) ->
  forall d, network boss w' d = network boss w d.
Proof.
  intros Hch w' Hw' d. unfold network. rewrite Hw'. cbn. destruct (bool_decide (d = serverChannel)); [reflexivity|].
  destruct (decide (d = c)) as [->|Hd]; [rewrite lookup_insert_eq, Hch; reflexivity | rewrite lookup_insert_ne by congruence; reflexivity].
Qed.

(** C24: a channel that is accepted first gets the options with the prefix, by the binder, and
    the parent handler is told of it - or of the exception, when an option cannot be
    set; only then its own handlers see that it is open. *)
Theorem accepted_configured boss lists n c ch w :
  described (network boss w) lists -> lists serverChannel = Some (Sink tt, bossList) ->
  c <> serverChannel -> channels (theAccepted w) !! c = Some ch -> isOpen c w = true ->
  outside b address boss (S (S (S n))) (Channels.fireChannelOpen c) w
    = let '(r, cc) := setChildOptions (childOptions (theBinder w)) (childConfig ch) in
      match r with
      | Err Undefined => (Err Undefined, with_child c ch cc w)
      | _ => outside b address boss (S (S (S n)))
               (Channels.pipelineUpstream c (UpstreamChannelStateEvent c OPEN (Some (AnyBool true))))
               (told_child c r (with_child c ch cc w))
      end.
Proof.
  intros Hd Hl Hc Hch Ho. assert (forall R (h : program R) (w0 : W), (forall d, network boss w0 d = network boss w d) ->
    outside b address boss (S (S (S n))) h w0 = outcome (spec_deliver lists (S (S (S n)))) h w0) as Hout.
  { intros R h w0 Hn. change (outcome (DefaultChannelPipeline.deliver (network boss w0) (S (S (S n)))) h w0 = outcome (spec_deliver lists (S (S (S n)))) h w0).
    apply outcome_ext. intros s w1. unfold effect. apply bind_ext_l, deliver_described. intros d. rewrite Hn. exact (Hd d). }
  rewrite Hout by (intros d; reflexivity). rewrite (outcome_childFires lists Hl n c ch w Hc Hch Ho).
  destruct (setChildOptions _ _) as [r cc]. assert (theAccepted (told_child c r (with_child c ch cc w)) = theAccepted (with_child c ch cc w)) as Ha
    by (destruct r; reflexivity).
  rewrite Hout by (apply (network_child boss c ch cc w Hch), Ha). reflexivity.
Qed.
End Server.

(** ** A server *)

Section Demo.

Inductive watcher := Watcher.
#[local] Instance watcher_dec : EqDecision watcher.
Proof. solve_decision. Defined.
#[local] Instance watcher_handler : ChannelHandler watcher := {|
  isUpstream _ := true; isDownstream _ := false; lifeCycle _ := None; handler_toString _ := "watcher"%string;
|}.

(** A handler that notes all it sees and passes it on. *)
Definition watch : ChannelUpstreamHandler (event Z unit) (list (event Z unit)) :=
  let note e := Reads (fun u => Writes (e :: u) (Sends (SendUpstream e) (Returns tt))) in
  MkUpstreamHandler note note note note note note.
#[local] Instance watchers : UserHandlers watcher Z unit (list (event Z unit)) := {|
  upstreamHandler _ := watch;
  downstreamHandler _ := MkDownstreamHandler (fun e => Returns tt) (fun e => Returns tt) (fun e => Returns tt);
|}.
#[local] Instance no_address : NullAddress Z := {| NULL_ADDRESS := 0 |}.

(** An acceptor that refuses the port 80: its address, whether it is open, and its backlog. *)
Record port := MkPort { opened_port : bool; port_number : option Z; waiting : option Z }.
#[local] Instance ports : Acceptor Z port := {|
  acceptorOpen := modify (fun _ => MkPort true None None);
  acceptorClose := modify (fun _ => MkPort false None None);
  acceptorIsOpen := opened_port;
  setSocketOption _ := ret tt;
  acceptorBind n := if n =? 80 then throw SystemException else modify (fun p => MkPort (opened_port p) (Some n) (waiting p));
  acceptorListen n := modify (fun p => MkPort (opened_port p) (port_number p) (Some n));
  localEndpoint := port_number;
|}.
Abbreviation demoValue := (optionValue Z (pipelineFactory unit) unit).
#[local] Instance demo_configs : ChildConfiguration (options demoValue) demoValue := {|
  newChildConfig := ∅; setChildOptions m := fun _ => (Ok tt, m);
|}.
Abbreviation demoPipeline := (DefaultChannelPipeline.t (handler watcher) channelRef unit).
Abbreviation demoWorld := (world (list (event Z unit)) (server Z port (config (pipelineFactory unit) unit)) demoValue
  (accepted demoPipeline (options demoValue))).
#[local] Instance no_sockets : AcceptedSockets Z (event Z unit) demoWorld := {|
  socketWrite _ := Returns tt; socketSetInterestOps _ _ _ := Returns tt; socketClose _ _ := Returns tt;
  socketLocalAddress _ := Some 8080; socketRemoteAddress _ := Some 5000;
|}.
#[local] Instance demo_factories : Factories (handler watcher) channelRef unit unit := {|
  getPipelineOf _ := Ok DefaultChannelPipeline.new; clone h := h;
|}.

Abbreviation demoBootstrap := (Bootstrap.t (handler watcher) channelRef unit unit unit demoValue).
Definition demoServer : demoBootstrap := snd
  ((Bootstrap.setPipelineFactory (Some (UserFactory tt)) ;!
    Bootstrap.setOption "backlog" (Some (OptionInt 16)) ;!
    Bootstrap.setOption "child.tcpNoDelay" (Some (OptionBool true))) Bootstrap.new).

Definition seen (e : event Z unit) (u : list (event Z unit)) : list (event Z unit) := e :: u.

Lemma watcher_observes (h : watcher) : observer (SA := Z) (Msg := unit) seen (fun _ => true) h.
Proof. split; try reflexivity; [repeat split | intros []; reflexivity]. Qed.

Definition demoBind (address : Z) := ServerBootstrap_bind demoServer (Some Watcher) address 4 [] (MkPort false None None) None 7.

Lemma server_binds_witness :
  let '(r, w) := demoBind 8080 in
  r = Ok serverChannel /\
  user w = [UpstreamChannelStateEvent serverChannel BOUND (Some (AnyAddressPointer 8080));
            UpstreamChannelStateEvent serverChannel OPEN (Some (AnyBool true))] /\
  acceptor (theServer w) = MkPort true (Some 8080) (Some 16) /\ accepting (theAccepted w) = Some 2%positive.
Proof.
  pose proof (server_binds demoServer 8080 seen (fun _ => true) (Some Watcher) (fun h _ => watcher_observes h) (Some Watcher) eq_refl
    0 [] (MkPort false None None) None 7) as H.
  change (ServerBootstrap_bind demoServer (Some Watcher) 8080 4 [] (MkPort false None None) None 7) with (demoBind 8080) in H.
  destruct (demoBind 8080) as [r w]. destruct H as [H Hr].
  assert (spec_bind demoServer 8080 seen (Some Watcher) ([], MkServer (MkPort false None None) (MkConfig None None 7) None)
    = (Ok serverChannel, ([UpstreamChannelStateEvent serverChannel BOUND (Some (AnyAddressPointer 8080));
         UpstreamChannelStateEvent serverChannel OPEN (Some (AnyBool true))],
       MkServer (MkPort true (Some 8080) (Some 16)) (MkConfig (Some (UserFactory tt)) None 16) (Some 8080)))) as E by (vm_compute; reflexivity).
  rewrite E in H. injection H as -> Hu Hs. destruct Hr as (_ & fa & p & g & _ & _ & Ha & _).
  split; [reflexivity|]. split; [exact Hu|]. rewrite Hs, Ha. split; reflexivity.
Defined.

(** A port that is refused: the handler is told, and the acceptor closed.  The address is
    not set, but the handler is told of an unbound. *)
Example refused_port :
  let '(r, w) := demoBind 80 in
  r = Err ChannelException /\ acceptor (theServer w) = MkPort false None None /\
  user w = [UpstreamChannelStateEvent serverChannel OPEN None; UpstreamChannelStateEvent serverChannel BOUND None;
            DefaultExceptionEvent serverChannel AnyException; UpstreamChannelStateEvent serverChannel OPEN (Some (AnyBool true))].
Proof. vm_compute. repeat split. Qed.

(** The first connection: the child has the option without the prefix when its handlers
    hear of it. *)
Definition demoBoss : demoPipeline := snd (bossPipeline (PF := unit) (U := list (event Z unit)) (Some Watcher) DefaultChannelPipeline.new).
Definition serverWorld : demoWorld := snd (demoBind 8080).
Definition childList (c : channelRef) : option (DefaultChannelPipeline.channelSink unit * list (string * handler watcher)) :=
  if bool_decide (c = serverChannel) then Some (Sink tt, bossList (Some Watcher))
  else if bool_decide (c = 2%positive) then Some (Sink tt, []) else None.

Lemma demo_described : described (network demoBoss serverWorld) childList.
Proof.
  destruct (boss_made (FA := demo_factories) (Msg := unit) (U := list (event Z unit)) seen (fun _ => true) (Some Watcher) (fun h _ => watcher_observes h) (Some Watcher) eq_refl)
    as (boss & E & Hr & Hs).
  assert (boss = demoBoss) as -> by (unfold demoBoss; rewrite E; reflexivity).
  intros c. unfold network, childList. destruct (bool_decide (c = serverChannel)); [auto|].
  assert (channels (theAccepted serverWorld)
    = {[2%positive := MkChild (snd (DefaultChannelPipeline.attach (Some 2%positive) (Some tt) DefaultChannelPipeline.new)) ∅ 3%positive]})
    as -> by (vm_compute; reflexivity).
  destruct (decide (c = 2%positive)) as [->|Hc]; [|rewrite bool_decide_eq_false_2, lookup_singleton_ne by congruence; exact I].
  rewrite lookup_singleton_eq. split; [reflexivity | apply reached_attach, reached_new].
Qed.

Lemma accepted_configured_witness :
  let w := snd (outside demoServer 8080 demoBoss 3 (Channels.fireChannelOpen 2%positive) serverWorld) in
  childConfig <$> channels (theAccepted w) !! 2%positive = Some {["tcpNoDelay"%string := OptionBool true]} /\
  head (user w) = Some (DefaultChildChannelStateEvent serverChannel 2%positive).
Proof.
  destruct (channels (theAccepted serverWorld) !! 2%positive) as [ch|] eqn:Hch; [|vm_compute in Hch; discriminate].
  rewrite (accepted_configured demoServer 8080 seen (fun _ => true) (Some Watcher) (fun h _ => watcher_observes h) demoBoss childList
    0 2 ch serverWorld demo_described eq_refl); [|discriminate | exact Hch | vm_compute; reflexivity].
  vm_compute in Hch. injection Hch as <-. vm_compute. split; reflexivity.
Defined.

(** An option that is set keeps its value, and a factory does not take the pipeline away. *)
Example option_kept :
  Bootstrap.getOption "backlog" (snd (Bootstrap.setOption "backlog" (Some (OptionInt 32)) demoServer)) = Some (OptionInt 16).
Proof. reflexivity. Qed.

Example pipeline_kept :
  fst ((Bootstrap.getPipeline ;! Bootstrap.setPipelineFactory (Some (UserFactory tt)) ;! Bootstrap.getPipeline) (Bootstrap.new : demoBootstrap))
    = Ok 1%positive.
Proof. reflexivity. Qed.
End Demo.
