(* ===== verification/ClientSocket.v ===== *)
(** * Clients

    [src/src/cetty/bootstrap/ClientBootstrap.cpp] and what it sets into motion: the
    channel with its configuration ([DefaultChannelConfig],
    [DefaultAsioSocketChannelConfig]) and [socket/asio/AsioClientSocketPipelineSink.cpp],
    which connects, writes and closes by the functions of [SocketPrograms].  The
    resolver and the options of the socket of asio are parameters, and so are the
    user's handlers.  All is done by one thread; asio calls [handleConnect] and
    [handleWrite] from outside. *)

From stdpp Require Import gmap strings.
From S2P Require Import Prelude MachineInt Pipeline SocketChannel SocketPrograms Channels Bootstrap.
Import DefaultChannelPipeline (Behaviour, prog, Returns, Throws, Sends, Reads, Writes, pipelineSend, mapSends, asks, updates, tryCatch,
  ofResult, lift, sinking).

(** ** What is outside *)

(** The options of a connected socket. *)
Inductive tcpOption :=
  | ReceiveBuffer (size : Z)
  | SendBuffer (size : Z)
  | NoDelay (b : bool)
  | KeepAlive (b : bool)
  | ReuseAddr (b : bool)
  | Linger (seconds : option Z)
  | SendLowWatermark (size : Z)
  | ReceiveLowWatermark (size : Z).

(** The resolver and the socket of asio; the marks that the configuration of a channel
    answers, and the memory of a request that is not set.  A null address is not
    [validated]; [readableBytes] of a message that is a buffer. *)
Class ClientSockets (SA EP K Msg : Type) := {
  validated : SA -> bool;
  resolve : SA -> result (list EP);
  endpointAddress : EP -> SA;
  setTcpOption : bool -> tcpOption -> M K unit;
  closingThrows : bool;
  readableBytes : Msg -> option Z;
  lowWaterMark : Z;
  highWaterMark : Z;
  garbage : Z;
}.

(** ** The state *)

Definition clientChannel : channelRef := 1%positive.
Definition clientCloseFuture : futureRef := 1%positive.

(** [DefaultAsioSocketChannelConfig] over the socket. *)
Record socketConfig (BF K : Type) := MkSocketConfig {
  connectTimeoutMillis : Z;
  channelOwnBufferSize : Z;
  channelBufferFactory : option BF;
  writeBufferLowWaterMark : Z;
  tcpSocket : K;
}.
Arguments MkSocketConfig {BF K} _ _ _ _ _.
Arguments connectTimeoutMillis {BF K} _.
Arguments channelOwnBufferSize {BF K} _.
Arguments channelBufferFactory {BF K} _.
Arguments writeBufferLowWaterMark {BF K} _.
Arguments tcpSocket {BF K} _.

(** A client: the members of the channel, the connects that asio has yet to answer
    (the endpoint, those that are left, the future), the endpoints that were tried, and
    the one that answered. *)
Record client (U CF EP : Type) := MkClient {
  user : U;
  channel : AsioSocketChannel.t;
  theConfig : CF;
  connecting : list (EP * list EP * futureRef);
  attempts : list EP;
  peer : option EP;
  theFutures : futures;
}.
Arguments MkClient {U CF EP} _ _ _ _ _ _ _.
Arguments user {U CF EP} _.
Arguments channel {U CF EP} _.
Arguments theConfig {U CF EP} _.
Arguments connecting {U CF EP} _.
Arguments attempts {U CF EP} _.
Arguments peer {U CF EP} _.
Arguments theFutures {U CF EP} _.

Section With.
Context {U CF EP : Type}.
Abbreviation W := (client U CF EP).
Definition with_user (u : U) (w : W) : W :=
  MkClient u (channel w) (theConfig w) (connecting w) (attempts w) (peer w) (theFutures w).
Definition with_channel (c : AsioSocketChannel.t) (w : W) : W :=
  MkClient (user w) c (theConfig w) (connecting w) (attempts w) (peer w) (theFutures w).
Definition with_config (c : CF) (w : W) : W :=
  MkClient (user w) (channel w) c (connecting w) (attempts w) (peer w) (theFutures w).
Definition with_connecting (l : list (EP * list EP * futureRef)) (w : W) : W :=
  MkClient (user w) (channel w) (theConfig w) l (attempts w) (peer w) (theFutures w).
Definition with_attempts (l : list EP) (w : W) : W :=
  MkClient (user w) (channel w) (theConfig w) (connecting w) l (peer w) (theFutures w).
Definition with_peer (p : option EP) (w : W) : W :=
  MkClient (user w) (channel w) (theConfig w) (connecting w) (attempts w) p (theFutures w).
Definition with_futures (f : futures) (w : W) : W :=
  MkClient (user w) (channel w) (theConfig w) (connecting w) (attempts w) (peer w) f.
End With.

(** ** The configuration *)

Module SocketChannelConfig.
Section Config.
Context {SA EP K Msg F BF : Type} {CS : ClientSockets SA EP K Msg}.
Abbreviation value := (optionValue SA F BF).
Abbreviation CF := (socketConfig BF K).

Definition new (bufferFactory : option BF) (k : K) : CF := MkSocketConfig 10000 32768 bufferFactory 0 k.

Definition setBufferFactory (f : option BF) : M CF unit :=
  match f with
  | None => throw NullPointerException
  | Some f => modify (fun c => MkSocketConfig (connectTimeoutMillis c) (channelOwnBufferSize c) (Some f) (writeBufferLowWaterMark c) (tcpSocket c))
  end.
Definition setConnectTimeoutMillis (n : Z) : M CF unit :=
  if n <? 0 then throw InvalidArgumentException
  else modify (fun c => MkSocketConfig n (channelOwnBufferSize c) (channelBufferFactory c) (writeBufferLowWaterMark c) (tcpSocket c)).
Definition setChannelOwnBufferSize (n : Z) : M CF unit :=
  if n <? 0 then throw InvalidArgumentException
  else modify (fun c => MkSocketConfig (connectTimeoutMillis c) n (channelBufferFactory c) (writeBufferLowWaterMark c) (tcpSocket c)).

(** A [bad_any_cast], and the exceptions of the setters, become an
    [InvalidArgumentException]; a pipeline factory is not used. *)
Definition invalid (m : M CF unit) : M CF unit := fun c =>
  match m c with
  | (Err Undefined, c) => (Err Undefined, c)
  | (Err _, c) => (Err InvalidArgumentException, c)
  | r => r
  end.
Definition anInt (v : value) (set : Z -> M CF unit) : M CF unit :=
  match v with OptionInt n => set n | _ => throw RuntimeException end.

Definition setBaseOption (key : string) (v : value) : M CF bool :=
  if bool_decide (key = "pipelineFactory"%string) then
    invalid (match v with OptionPipelineFactory _ => ret tt | _ => throw RuntimeException end) ;! ret true
  else if bool_decide (key = "connectTimeoutMillis"%string) then invalid (anInt v setConnectTimeoutMillis) ;! ret true
  else if bool_decide (key = "bufferFactory"%string) then
    invalid (match v with OptionBufferFactory f => setBufferFactory f | _ => throw RuntimeException end) ;! ret true
  else if bool_decide (key = "channelOwnBufferSize"%string) then invalid (anInt v setChannelOwnBufferSize) ;! ret true
  else ret false.

(** An option of the socket; [opened] tells whether it is open. *)
Definition setSocket (opened : bool) (o : tcpOption) : M CF unit := fun c =>
  let '(r, k) := setTcpOption (Msg := Msg) opened o (tcpSocket c) in
  (match r with Err SystemException => Err ChannelException | _ => r end,
   MkSocketConfig (connectTimeoutMillis c) (channelOwnBufferSize c) (channelBufferFactory c) (writeBufferLowWaterMark c) k).

Definition setSoLinger (opened : bool) (soLinger : Z) : M CF unit :=
  setSocket opened (Linger (if soLinger >? 0 then Some soLinger else None)).
Definition setWriteBufferLowWaterMark (opened : bool) (n : Z) : M CF unit :=
  setSocket opened (SendLowWatermark n) ;!
  modify (fun c => MkSocketConfig (connectTimeoutMillis c) (channelOwnBufferSize c) (channelBufferFactory c) n (tcpSocket c)).

Definition aBool (v : value) (set : bool -> M CF unit) : M CF unit :=
  let! b := reads (fun _ => ConversionUtil.toBoolean v) in set b.

(** The predictors of the last two keys are not values of the model, and what is no
    predictor is ignored. *)
Definition setOption (opened : bool) (key : string) (v : value) : M CF bool :=
  let! known := setBaseOption key v in
  if known : bool then ret true
  else if bool_decide (key = "receiveBufferSize"%string) then setSocket opened (ReceiveBuffer (ConversionUtil.toInt v)) ;! ret true
  else if bool_decide (key = "sendBufferSize"%string) then setSocket opened (SendBuffer (ConversionUtil.toInt v)) ;! ret true
  else if bool_decide (key = "tcpNoDelay"%string) then aBool v (fun b => setSocket opened (NoDelay b)) ;! ret true
  else if bool_decide (key = "keepAlive"%string) then aBool v (fun b => setSocket opened (KeepAlive b)) ;! ret true
  else if bool_decide (key = "reuseAddress"%string) then aBool v (fun b => setSocket opened (ReuseAddr b)) ;! ret true
  else if bool_decide (key = "soLinger"%string) then setSoLinger opened (ConversionUtil.toInt v) ;! ret true
  else if bool_decide (key = "writeBufferLowWaterMark"%string) then
    setWriteBufferLowWaterMark opened (ConversionUtil.toInt v) ;! ret true
  else if bool_decide (key = "receiveBufferLowWaterMark"%string) then
    setSocket opened (ReceiveLowWatermark (ConversionUtil.toInt v)) ;! ret true
  else if bool_decide (key = "receiveBufferSizePredictorFactory"%string) then ret true
  else if bool_decide (key = "receiveBufferSizePredictor"%string) then ret true
  else ret false.

Fixpoint setEach (opened : bool) (l : list (string * value)) : M CF unit :=
  match l with
  | [] => ret tt
  | (key, v) :: l => setOption opened key v ;! setEach opened l
  end.
Definition setOptions (opened : bool) (m : options value) : M CF unit := setEach opened (entries m).
End Config.
End SocketChannelConfig.

(** ** The channel and its sink *)

Module AsioClientSocketPipelineSink.
Section Sink.
Context {UH SA Msg U EP K PF CF BF : Type} {UHS : UserHandlers UH SA Msg U} {NA : NullAddress SA} {CS : ClientSockets SA EP K Msg}.
Abbreviation F := (pipelineFactory PF).
Abbreviation value := (optionValue SA F BF).
Abbreviation E := (event SA Msg).
Abbreviation pipeline := (DefaultChannelPipeline.t UH channelRef unit).
Abbreviation W := (client U (socketConfig BF K) EP).
Abbreviation B := (Bootstrap.t UH channelRef unit PF CF value).
Abbreviation program R := (prog (pipelineSend channelRef E) W R).
Context {FA : Factories UH channelRef unit PF}.

#[global] Instance ClientTransport : Transport SA W := {|
  getParent _ _ := None;
  isOpen _ w := AsioSocketChannel.isOpen (channel w);
  getRemoteAddress _ w := match peer w with Some ep => endpointAddress ep | None => NULL_ADDRESS end;
  newFuture _ _ w := let '(f, t) := newFutureOf (theFutures w) in (f, with_futures t w);
  getCloseFuture _ _ := clientCloseFuture;
  isDone f w :=
    if bool_decide (f = clientCloseFuture) then AsioSocketChannel.closeFutureDone (channel w) else isCompleted f (theFutures w);
|}.

(** [setSuccess] and [setFailure], which the close future ignores; [setClosed] of the
    close future is a flag of the channel. *)
Definition completeFuture (f : futureRef) (success : bool) : program unit :=
  updates (fun w => if bool_decide (f = clientCloseFuture) then w else with_futures (snd (complete f success (theFutures w))) w).

(** *** The programs of the channel

    The address of a connected event is the member [remoteAddress], which nothing
    has set by then. *)
Definition perform (a : SocketPrograms.action) : program unit :=
  match a with
  | SocketPrograms.SetFuture f success => completeFuture f success
  | SocketPrograms.SetCloseFuture => Returns tt
  | SocketPrograms.FireWriteCompletion n =>
      let+ e := ofResult (newWriteCompletionEvent clientChannel n) in Channels.pipelineUpstream clientChannel e
  | SocketPrograms.FireInterestChanged n => Channels.fireChannelInterestChanged clientChannel n
  | SocketPrograms.FireExceptionCaught x => Channels.fireExceptionCaught clientChannel x
  | SocketPrograms.FireConnected => Channels.fireChannelConnected clientChannel NULL_ADDRESS
  | SocketPrograms.FireDisconnected => Channels.fireChannelDisconnected clientChannel
  | SocketPrograms.FireUnbound => Channels.fireChannelUnbound clientChannel
  | SocketPrograms.FireClosed => Channels.fireChannelClosed clientChannel
  | SocketPrograms.RequestClose => AbstractChannel.close clientChannel ;+ Returns tt
  end.

Fixpoint inChannel {R} (h : prog SocketPrograms.action AsioSocketChannel.t R) : program R :=
  match h with
  | Returns r => Returns r
  | Throws x => Throws x
  | Sends a h => perform a ;+ inChannel h
  | Reads f => Reads (fun w => inChannel (f (channel w)))
  | Writes c h => Reads (fun w => Writes (with_channel c w) (inChannel h))
  end.

(** [close(future)]: a null future is asked to complete once the socket is closed. *)
Definition closeSocket (f : option futureRef) : program unit :=
  match f with
  | None =>
      let+ c := asks channel in
      if AsioSocketChannel.isOpen c && AsioSocketChannel.socketOpen c then Throws Undefined else Returns tt
  | Some f =>
      inChannel (SocketPrograms.closeWith lowWaterMark highWaterMark closingThrows
        (if bool_decide (f = clientCloseFuture) then None else Some f))
  end.

(** *** Connecting *)

(** [async_connect], which opens the socket. *)
Definition asyncConnect (ep : EP) (rest : list EP) (f : futureRef) : program unit :=
  updates (fun w => with_channel (AsioSocketChannel.with_socketOpen true (channel w)) w) ;+
  updates (fun w => with_connecting (connecting w ++ [(ep, rest, f)]) (with_attempts (attempts w ++ [ep]) w)).

(** [tcpSocket.close()]: an exception comes out of the handler. *)
Definition closeTcpSocket : program unit :=
  if closingThrows then Throws SystemException
  else updates (fun w => with_channel (AsioSocketChannel.with_socketOpen false (channel w)) w).

Definition handleConnect (error : bool) (rest : list EP) (f : futureRef) : program unit :=
  if negb error then inChannel (SocketPrograms.connected f)
  else
    match rest with
    | ep :: rest => closeTcpSocket ;+ asyncConnect ep rest f
    | [] => completeFuture f false ;+ closeSocket (Some f)
    end.

(** Asio answers the oldest connect. *)
Definition connectAnswered (error : bool) : program unit :=
  let+ w := asks id in
  match connecting w with
  | [] => Returns tt
  | (ep, rest, f) :: l =>
      updates (fun w => with_connecting l (with_peer (if error then peer w else Some ep) w)) ;+
      handleConnect error rest f
  end.

(** The exceptions of the library fail the future; others come out of the sink. *)
Definition isLibraryException (x : error) : bool :=
  match x with SystemException | LengthError | Undefined => false | _ => true end.

(** [connect]: the service has threads of its own. *)
Definition connect (f : option futureRef) (remoteAddress : SA) : program unit :=
  match f with
  | None => Throws Undefined
  | Some f =>
      tryCatch
        (let+ endpoints := ofResult (resolve remoteAddress) in
         match endpoints with
         | [] => Throws Undefined
         | ep :: rest => asyncConnect ep rest f
         end)
        (fun x =>
          if isLibraryException x then
            completeFuture f false ;+
            Channels.fireExceptionCaught clientChannel x ;+
            closeSocket (Some clientCloseFuture)
          else Throws x)
  end.

(** *** Requests *)

Definition handleStateChange (f : option futureRef) (state : ChannelState) (v : option (any SA)) : program unit :=
  match state, v with
  | OPEN, None | BOUND, None | CONNECTED, None => closeSocket f
  | CONNECTED, Some (AnyAddress a) => connect f a
  | INTEREST_OPS, v =>
      match f with
      | None => Throws Undefined
      | Some f =>
          inChannel (SocketPrograms.setInterestOps lowWaterMark highWaterMark f (match v with Some (AnyInt n) => n | _ => 0 end))
      end
  | _, Some _ => Returns tt
  end.

(** [writeRequested] and [stateChangeRequested]; the future of an upstream event has
    succeeded: it ignores what it is told, as the close future does. *)
Definition sunk (e : E) : program unit :=
  match e with
  | DownstreamMessageEvent _ f message _ => inChannel (SocketPrograms.write lowWaterMark highWaterMark garbage (readableBytes message) f)
  | UpstreamMessageEvent _ message _ => inChannel (SocketPrograms.write lowWaterMark highWaterMark garbage (readableBytes message) None)
  | DownstreamChannelStateEvent _ f state v => handleStateChange f state v
  | UpstreamChannelStateEvent _ state v => handleStateChange (Some clientCloseFuture) state v
  | _ => Returns tt
  end.

(** [AbstractChannelSink::exceptionCaught]. *)
Definition exceptionCaught (e : E) : program unit := Channels.fireExceptionCaught (Channels.getChannel e) ChannelPipelineException.

Definition ClientBehaviour : Behaviour UH channelRef E W := {|
  DefaultChannelPipeline.handleUpstream h e := lift user with_user (callUpstream (upstreamHandler h) e);
  DefaultChannelPipeline.handleDownstream h e := lift user with_user (callDownstream (downstreamHandler h) e);
  DefaultChannelPipeline.isExceptionEvent := Channels.isExceptionEvent;
  DefaultChannelPipeline.sinkCall := sunk;
  DefaultChannelPipeline.sinkException := exceptionCaught;
|}.

Definition network (p : pipeline) (c : channelRef) : option pipeline := if bool_decide (c = clientChannel) then Some p else None.

(** A program that is run from outside. *)
Definition outside {R} (p : pipeline) (fuel : nat) (h : program R) : M W R :=
  DefaultChannelPipeline.run (BE := ClientBehaviour) (network p) fuel h.

(** ** ClientBootstrap *)

(** The pipeline of the next channel, attached to it, or what is thrown. *)
Definition clientPipeline (b : B) : result pipeline :=
  match Bootstrap.thePipelineFactory b with
  | None => Err Undefined
  | Some f =>
      match Bootstrap.makePipeline f b with
      | Err Undefined => Err Undefined
      | Err _ => Err ChannelPipelineException
      | Ok p =>
          let? _ := fst (Bootstrap.getFactory b) in
          match DefaultChannelPipeline.attach (Some clientChannel) (Some tt) p with
          | (Ok _, p) => Ok p
          | (Err ChannelException, _) => Err ChannelPipelineException
          | (Err x, _) => Err x
          end
      end
  end.

(** A channel that is new has a socket that is not open. *)
Definition newWorld (u : U) (bufferFactory : option BF) (k : K) : W :=
  MkClient u (AsioSocketChannel.with_socketOpen false AsioSocketChannel.new) (SocketChannelConfig.new bufferFactory k) [] [] None
    (MkFutures ∅ 2).

Definition configure (m : options value) : M W unit := fun w =>
  let '(r, c) := SocketChannelConfig.setOptions (Msg := Msg) (EP := EP) (AsioSocketChannel.socketOpen (channel w)) m (theConfig w) in
  (r, with_config c w).

(** [connect(remoteAddress, localAddress)], once the pipeline is made. *)
Definition clientConnect (b : B) (p : pipeline) (fuel : nat) (remote local : SA) : M W futureRef :=
  outside p fuel (Channels.fireChannelOpen clientChannel) ;!
  configure (Bootstrap.theOptions b) ;!
  (if validated local then outside p fuel (AbstractChannel.bind clientChannel local) ;! ret tt else ret tt) ;!
  outside p fuel (AbstractChannel.connect clientChannel remote).

Definition ClientBootstrap_connect (b : B) (fuel : nat) (u : U) (bufferFactory : option BF) (k : K) (remote local : SA)
    : result futureRef * W :=
  let w := newWorld u bufferFactory k in
  match clientPipeline b with
  | Ok p => clientConnect b p fuel remote local w
  | Err x => (Err x, w)
  end.

(** The answers of asio to the connects, one after the other. *)
Fixpoint answers (p : pipeline) (fuel : nat) (l : list bool) : M W unit :=
  match l with
  | [] => ret tt
  | accepted :: l => outside p fuel (connectAnswered (negb accepted)) ;! answers p fuel l
  end.

(** Calls of the channel: a write by a user, the end of one, and a close. *)
Definition call (p : pipeline) (fuel : nat) (message : Z -> Msg) (amount : Z) (c : AsioSocketChannel.call) : M W unit :=
  match c with
  | AsioSocketChannel.Write size f =>
      outside p fuel (Channels.pipelineDownstream clientChannel (DownstreamMessageEvent clientChannel f (message size) NULL_ADDRESS))
  | AsioSocketChannel.Completed error => outside p fuel (inChannel (SocketPrograms.handleWrite lowWaterMark highWaterMark error amount))
  | AsioSocketChannel.Close => outside p fuel (AbstractChannel.close clientChannel) ;! ret tt
  end.
Fixpoint calls (p : pipeline) (fuel : nat) (message : Z -> Msg) (amount : Z) (l : list AsioSocketChannel.call) : M W unit :=
  match l with
  | [] => ret tt
  | c :: l => call p fuel message amount c ;! calls p fuel message amount l
  end.
End Sink.
End AsioClientSocketPipelineSink.
