(* ===== verification/ClientSocketProperties.v ===== *)
(** * What a client bootstrap does

    The pipelines here have handlers that note what they see and pass it on.  Below
    them, the channel is the state machine of [SocketChannel], whose outputs the
    handlers are told and the futures are set by; and a connect tries the endpoints
    in turn until one answers. *)

From stdpp Require Import gmap strings sorting.
From S2P Require Import Prelude MachineInt Pipeline PipelineProperties PipelineDelivery Programs Channels ChannelsProperties.
From S2P Require Import Bootstrap SocketChannel SocketPrograms ClientSocket.
Import DefaultChannelPipeline (Behaviour, prog, Returns, Throws, Sends, Reads, Writes, pipelineSend, PipelineUpstream,
  PipelineDownstream, mapSends, asks, updates, tryCatch, ofResult, lift, send, SendUpstream, SendDownstream, SendPipeline, handling,
  Sink).
Import AsioClientSocketPipelineSink.

(** ** What a program of the channel does *)

Module Actions.
Import AsioSocketChannel SocketPrograms.

(** The actions are all of [P], only runs without a meaning throw, and the outputs are
    left alone. *)
Fixpoint only {R} (P : action -> Prop) (h : prog action t R) : Prop :=
  match h with
  | Returns _ => True
  | Throws x => x = Undefined
  | Sends a h => P a /\ only P h
  | Reads f => forall c, outputs c = [] -> only P (f c)
  | Writes c h => outputs c = [] /\ only P h
  end.

Section Only.
Variables (P : action -> Prop) (low high garbage : Z).

Lemma only_andThen {R R'} (h : prog action t R) (k : R -> prog action t R') :
  only P h -> (forall r, only P (k r)) -> only P (DefaultChannelPipeline.andThen h k).
Proof. intros Hh Hk. induction h; cbn in *; intuition. Qed.
Lemma only_asks {A} (f : t -> A) : only P (asks f).
Proof. intros c Hc. exact I. Qed.
Lemma only_updates (f : t -> t) : (forall c, outputs c = [] -> outputs (f c) = []) -> only P (updates f).
Proof. intros Hf c Hc. split; [apply Hf, Hc | exact I]. Qed.
Lemma only_does a : P a -> only P (does a).
Proof. intros Ha. split; [exact Ha | exact I]. Qed.

Hypothesis Hinterest : forall n, P (FireInterestChanged n).
Hypothesis Hfuture : forall f b, P (SetFuture f b).

Ltac walk :=
  repeat first
    [ exact I | reflexivity | assumption
    | apply only_andThen; [|intros ?] | apply only_asks | apply only_updates; intros ? ?; assumption | apply only_does; auto
    | match goal with |- only _ (if ?b then _ else _) => destruct b end
    | match goal with |- only _ (match ?x with _ => _ end) => destruct x end ].

Lemma only_interest : only P (fireInterestChanged low high).
Proof. unfold fireInterestChanged. walk. Qed.
Lemma only_plus n : only P (plusWriteBufferSize low high n).
Proof. pose proof only_interest. unfold plusWriteBufferSize, handleAtHighWaterMark. walk. Qed.
Lemma only_minus n : only P (minusWriteBufferSize low high n).
Proof. pose proof only_interest. unfold minusWriteBufferSize, handleAtLowWaterMark. walk. Qed.
Lemma only_poll : only P (poll low high).
Proof. pose proof only_minus. unfold poll. walk; auto. Qed.
Lemma only_setFuture b f : only P (setFuture b f).
Proof. unfold setFuture. walk. Qed.

Hypothesis Hchannel : P (FireExceptionCaught ChannelException).

Lemma only_cleanUp : only P (cleanUpWriteBuffer low high).
Proof.
  pose proof only_poll. pose proof only_setFuture.
  assert (forall n b, only P (cleanUpLoop low high n b)) by (induction n as [|n IH]; intros b; cbn [cleanUpLoop]; [exact I|]; walk; auto).
  unfold cleanUpWriteBuffer. walk; auto.
Qed.
Lemma only_write message f : only P (write low high garbage message f).
Proof. pose proof only_cleanUp. pose proof only_setFuture. pose proof only_plus. unfold write, offer. walk; auto. Qed.

Hypothesis Hclose : P SetCloseFuture /\ P FireDisconnected /\ P FireUnbound /\ P FireClosed.

Lemma only_close f : only P (closeWith low high false f).
Proof.
  pose proof only_cleanUp. pose proof only_setFuture. destruct Hclose as (? & ? & ? & ?).
  unfold closeWith, setClosed. walk; auto.
Qed.

Lemma only_connected f : P FireConnected -> only P (connected f).
Proof. intros Hc. unfold connected. walk. apply only_updates. intros c Hc'. destruct (negb _); exact Hc'. Qed.

Lemma only_setInterest f ops : only P (setInterestOps low high f ops).
Proof. unfold setInterestOps. walk. Qed.

Lemma only_written bytes : P (FireWriteCompletion bytes) -> only P (handleWrite low high false bytes).
Proof. intros Hb. pose proof only_poll. pose proof only_setFuture. unfold handleWrite. cbn [negb]. walk; auto. Qed.
End Only.
End Actions.

(** ** Handlers that look on *)

Section Client.
Context {UH SA Msg U EP K PF CF BF : Type} {UHS : UserHandlers UH SA Msg U} {NA : NullAddress SA} {CS : ClientSockets SA EP K Msg}.
Abbreviation F := (pipelineFactory PF).
Abbreviation value := (optionValue SA F BF).
Abbreviation E := (event SA Msg).
Abbreviation pipeline := (DefaultChannelPipeline.t UH channelRef unit).
Abbreviation W := (client U (socketConfig BF K) EP).
Abbreviation B := (Bootstrap.t UH channelRef unit PF CF value).
Abbreviation program R := (prog (pipelineSend channelRef E) W R).
Abbreviation entry := (string * UH)%type.
Abbreviation visits := (list (DefaultChannelPipeline.visit E)).
Context {FA : Factories UH channelRef unit PF}.

#[local] Instance behaviour : Behaviour UH channelRef E W := ClientBehaviour.

(** What a handler notes of an event. *)
Variable obs : UH -> E -> U -> U.

Record observer (h : UH) : Prop := MkObserver {
  observer_up : isUpstream h = true;
  observer_down : isDownstream h = false;
  observer_step e : callUpstream (upstreamHandler h) e = Reads (fun u => Writes (obs h e u) (Sends (SendUpstream e) (Returns tt)));
}.

Variables (p : pipeline) (l : list entry).
Hypothesis Hobservers : Forall (fun x => observer (snd x)) l.
Hypothesis Hreached : DefaultChannelPipeline.sink p = Sink tt /\ reached p l.

Definition told (e : E) (u : U) : U := fold_left (fun u x => obs (snd x) e u) l u.
Definition tell (e : E) (w : W) : W := with_user (told e (user w)) w.

Definition lists (c : channelRef) : option (DefaultChannelPipeline.channelSink unit * list entry) :=
  if bool_decide (c = clientChannel) then Some (Sink tt, l) else None.

Abbreviation inv n := (spec_invoke (E := E) (W := W) lists n).
Abbreviation sends n := (spec_deliver (E := E) (W := W) lists n).

Lemma clients_described : described (network p) lists.
Proof. intros c. unfold network, lists. destruct (bool_decide (c = clientChannel)); [|exact I]. destruct Hreached. auto. Qed.

Lemma outside_outcome {R} n (h : program R) w : outside p n h w = outcome (sends n) h w.
Proof.
  change (outcome (DefaultChannelPipeline.deliver (network p) n) h w = outcome (sends n) h w).
  apply outcome_ext. intros s w'. unfold effect. apply bind_ext_l, deliver_described, clients_described.
Qed.

Lemma client_silent n s : silent (sends n s).
Proof. apply silent_spec_pipeline. apply silent_spec_invoke. Qed.

Lemma lists_client : lists clientChannel = Some (Sink tt, l).
Proof. reflexivity. Qed.

(** From a handler on, all handlers are told. *)
Lemma handlers_told n before x after e w : Forall (fun x => observer (snd x)) (x :: after) -> (length after < n)%nat ->
  effect (inv n clientChannel (AtUpstream before x after) e) w
    = (Ok tt, with_user (fold_left (fun u x => obs (snd x) e u) (x :: after) (user w)) w).
Proof.
  revert before x w n. induction after as [|y after IH]; intros before x w n Hf Hn; (destruct n as [|n]; [cbn in Hn; lia|]);
    cbn [spec_invoke]; rewrite lists_client, effect_cons, effect_handle by (intros s; apply silent_spec_context, silent_spec_invoke);
    cbn [DefaultChannelPipeline.handleUpstream behaviour ClientBehaviour snd]; inversion Hf as [|? ? Hx Hf']; subst;
    rewrite (observer_step _ Hx); cbn [lift]; rewrite !outcome_reads, outcome_writes, outcome_sends; cbn [spec_context];
    rewrite (observer_up _ Hx).
  - reflexivity.
  - inversion Hf' as [|? ? Hy ?]; subst. cbn [find_next]. rewrite (observer_up _ Hy).
    erewrite bind_ok by (apply (IH _ _ _ n); [exact Hf' | cbn in Hn; lia]). reflexivity.
Qed.

Lemma client_up n e w : (length l <= n)%nat -> effect (sends n (PipelineUpstream clientChannel e)) w = (Ok tt, tell e w).
Proof.
  intros Hn. unfold spec_deliver. cbn [spec_pipeline]. rewrite lists_client. unfold tell, told. pose proof Hobservers as Hf.
  destruct l as [|x after]; [destruct w; reflexivity|]. inversion Hf as [|? ? Hx _]; subst. cbn [find_next]. rewrite (observer_up _ Hx).
  apply handlers_told; [exact Hf | cbn in Hn; lia].
Qed.

Lemma find_no_down rest : Forall (fun x => observer (snd x)) rest -> forall passed, find_next isDownstream passed rest = None.
Proof.
  induction 1 as [|x rest Hx _ IH]; intros passed; [reflexivity|]. cbn. rewrite (observer_down _ Hx). apply IH.
Qed.

Lemma client_down n e w :
  effect (sends (S n) (PipelineDownstream clientChannel e)) w
    = match outcome (sends n) (sunk e) w with
      | (Ok _, w) => (Ok tt, w)
      | (Err Undefined, w) => (Err Undefined, w)
      | (Err _, w) => effect (DefaultChannelPipeline.notifyHandlerException (sends n) (Sink tt) e) w
      end.
Proof.
  unfold spec_deliver at 1. cbn [spec_pipeline]. rewrite lists_client, find_no_down by (apply Forall_rev, Hobservers).
  cbn [spec_invoke]. rewrite lists_client. unfold DefaultChannelPipeline.callSink. rewrite effect_cons.
  rewrite effect_handle by apply client_silent. reflexivity.
Qed.

(** *** The parts of programs *)

Lemma client_fire n e w : (length l <= n)%nat -> outcome (sends n) (Channels.pipelineUpstream clientChannel e) w = (Ok tt, tell e w).
Proof. intros Hn. unfold Channels.pipelineUpstream. rewrite outcome_sends. erewrite bind_ok by (apply client_up, Hn). reflexivity. Qed.

Definition completed (f : futureRef) (success : bool) (w : W) : W :=
  if bool_decide (f = clientCloseFuture) then w else with_futures (snd (complete f success (theFutures w))) w.

Lemma client_completes (g : pipelineSend channelRef E -> M W visits) f success w :
  outcome g (completeFuture f success) w = (Ok tt, completed f success w).
Proof. reflexivity. Qed.

(** ** The channel below its pipeline *)

Definition stateEvent (s : ChannelState) (v : option (any SA)) : E := UpstreamChannelStateEvent clientChannel s v.

(** An output of [SocketChannel]: a future is set, or the handlers are told.  All
    completions are of [amount] bytes. *)
Definition told_output (amount : Z) (o : AsioSocketChannel.output) (w : W) : W :=
  match o with
  | AsioSocketChannel.FutureSet f success => completed f success w
  | AsioSocketChannel.CloseFutureSet => w
  | AsioSocketChannel.WriteCompletion => tell (DefaultWriteCompletionEvent clientChannel amount) w
  | AsioSocketChannel.InterestChanged n => tell (stateEvent INTEREST_OPS (Some (AnyInt n))) w
  | AsioSocketChannel.ExceptionCaught => tell (DefaultExceptionEvent clientChannel ChannelException) w
  | AsioSocketChannel.ChannelConnected => tell (stateEvent CONNECTED (Some (AnyAddressPointer NULL_ADDRESS))) w
  | AsioSocketChannel.ChannelDisconnected => tell (stateEvent CONNECTED None) w
  | AsioSocketChannel.ChannelUnbound => tell (stateEvent BOUND None) w
  | AsioSocketChannel.ChannelClosed => tell (stateEvent OPEN None) w
  end.
Definition replay (amount : Z) (os : list AsioSocketChannel.output) (w : W) : W := fold_left (fun w o => told_output amount o w) os w.

(** The client when the state machine is in state [c], if it started from [w]. *)
Definition worldOf (amount : Z) (w : W) (c : AsioSocketChannel.t) : W :=
  replay amount (AsioSocketChannel.outputs c) (with_channel (SocketPrograms.clear c) w).

Lemma told_output_channel amount o c w : told_output amount o (with_channel c w) = with_channel c (told_output amount o w).
Proof. destruct o; cbn; try reflexivity. unfold completed. destruct (bool_decide _); reflexivity. Qed.
Lemma replay_channel amount os c w : replay amount os (with_channel c w) = with_channel c (replay amount os w).
Proof. revert w. induction os as [|o os IH]; intros w; [reflexivity|]. cbn. rewrite told_output_channel. apply IH. Qed.
Lemma worldOf_channel amount w c : channel (worldOf amount w c) = SocketPrograms.clear c.
Proof. unfold worldOf. rewrite replay_channel. reflexivity. Qed.

Lemma worldOf_emit amount o w c :
  worldOf amount w (snd (AsioSocketChannel.emit o c)) = told_output amount o (worldOf amount w c).
Proof. unfold worldOf, replay. cbn. rewrite fold_left_app. reflexivity. Qed.

(** What the programs of the channel do, here. *)
Definition plain (amount : Z) (a : SocketPrograms.action) : Prop :=
  match a with
  | SocketPrograms.FireWriteCompletion n => n = amount
  | SocketPrograms.FireExceptionCaught x => x = ChannelException
  | SocketPrograms.RequestClose => False
  | _ => True
  end.

Lemma performs n amount a w c : (length l <= n)%nat -> 0 <= amount <= INT_MAX -> plain amount a ->
  outcome (sends n) (perform a) (worldOf amount w c)
    = (Ok tt, worldOf amount w (snd (SocketPrograms.logged lowWaterMark highWaterMark closingThrows a c))) /\
  fst (SocketPrograms.logged lowWaterMark highWaterMark closingThrows a c) = Ok tt.
Proof.
  intros Hn Ha Hp. destruct a; cbn in Hp; try contradiction; subst; (split; [|reflexivity]); cbn [SocketPrograms.logged perform];
    rewrite worldOf_emit; try reflexivity;
    unfold Channels.fireChannelInterestChanged, Channels.fireExceptionCaught, Channels.fireChannelConnected,
      Channels.fireChannelDisconnected, Channels.fireChannelUnbound, Channels.fireChannelClosed;
    try (rewrite client_fire by exact Hn; reflexivity).
  - unfold newWriteCompletionEvent. cbv zeta. rewrite i32_id by (unfold is_signed, INT_MAX in *; lia).
    rewrite (proj2 (Z.ltb_ge amount 0)) by lia. apply client_fire, Hn.
  - erewrite outcome_then by (apply client_fire, Hn). reflexivity.
Qed.

(** A program in the channel, and the same on the state machine. *)
Lemma in_channel {R} n amount (h : prog SocketPrograms.action AsioSocketChannel.t R) w c :
  (length l <= n)%nat -> 0 <= amount <= INT_MAX -> Actions.only (plain amount) h ->
  outcome (sends n) (inChannel h) (worldOf amount w c)
    = let '(r, c') := SocketPrograms.follow lowWaterMark highWaterMark closingThrows h c in (r, worldOf amount w c').
Proof.
  intros Hn Ha. revert c. induction h as [r|x|a h IH|f IH|d h IH]; intros c Hh.
  - reflexivity.
  - cbn in Hh. subst. reflexivity.
  - destruct Hh as [Hp Hh]. cbn [inChannel SocketPrograms.follow]. destruct (performs n amount a w c Hn Ha Hp) as [E1 E2].
    erewrite outcome_then by exact E1. unfold bind. destruct (SocketPrograms.logged _ _ _ a c) as [r c']. cbn in E2 |- *. subst r. apply IH, Hh.
  - cbn [inChannel SocketPrograms.follow]. rewrite outcome_reads, worldOf_channel. apply IH, Hh. reflexivity.
  - destruct Hh as [Hd Hh]. cbn [inChannel SocketPrograms.follow]. rewrite outcome_reads, outcome_writes.
    rewrite bind_modify. rewrite <- (IH _ Hh). f_equal. unfold worldOf. rewrite !replay_channel.
    replace (SocketPrograms.clear (SocketPrograms.with_outputs (AsioSocketChannel.outputs c) d)) with d; [reflexivity|].
    destruct d; cbn in Hd |- *. subst. reflexivity.
Qed.

Lemma follow_undefined {R} amount (h : prog SocketPrograms.action AsioSocketChannel.t R) : Actions.only (plain amount) h ->
  silent (SocketPrograms.follow lowWaterMark highWaterMark closingThrows h).
Proof.
  induction h as [r|x|a h IH|f IH|d h IH]; cbn [SocketPrograms.follow Actions.only]; intros Hh.
  - apply silent_ret.
  - subst. apply silent_undefined.
  - destruct Hh as [Hp Hh]. apply silent_bind; [|intros _; apply IH, Hh]. intros c. destruct a; try exact I. contradiction.
  - intros c. exact (IH (SocketPrograms.clear c) (Hh (SocketPrograms.clear c) eq_refl) c).
  - destruct Hh as [_ Hh]. apply silent_bind; [intros c; exact I | intros _; apply IH, Hh].
Qed.

Lemma in_channel_andThen {R R'} (f : pipelineSend channelRef E -> M W visits) (h : prog SocketPrograms.action AsioSocketChannel.t R)
    (k : R -> prog SocketPrograms.action AsioSocketChannel.t R') w :
  outcome f (inChannel (DefaultChannelPipeline.andThen h k)) w = (let! r := outcome f (inChannel h) in outcome f (inChannel (k r))) w.
Proof.
  revert w. induction h as [r|x|a h IH|g IH|d h IH]; intros w; cbn [inChannel DefaultChannelPipeline.andThen].
  - reflexivity.
  - unfold bind. rewrite !outcome_throws. reflexivity.
  - rewrite outcome_andThen. unfold bind at 2. rewrite outcome_andThen. unfold bind.
    destruct (outcome f (perform a) w) as [[[]|x] w']; [apply IH | reflexivity].
  - apply IH.
  - apply (IH (with_channel d w)).
Qed.

(** *** Writes, completions and closing *)

Section Closes.
Hypothesis Hcloses : closingThrows (ClientSockets := CS) = false.

Lemma plain_interest amount n : plain amount (SocketPrograms.FireInterestChanged n).
Proof. exact I. Qed.
Lemma plain_future amount f b : plain amount (SocketPrograms.SetFuture f b).
Proof. exact I. Qed.

(** An event that the sink answers by a program of the channel. *)
Lemma sends_sunk n amount e (h : prog SocketPrograms.action AsioSocketChannel.t unit) m w c :
  (length l <= n)%nat -> 0 <= amount <= INT_MAX -> (sunk e : program unit) = inChannel h -> Actions.only (plain amount) h ->
  (forall c, SocketPrograms.follow lowWaterMark highWaterMark closingThrows h c = m c) ->
  outcome (sends (S n)) (Channels.pipelineDownstream clientChannel e) (worldOf amount w c)
    = let '(r, c') := m c in (r, worldOf amount w c').
Proof.
  intros Hn Ha He Ho Hm. unfold Channels.pipelineDownstream. rewrite outcome_sends. unfold bind. rewrite client_down, He.
  rewrite (in_channel n amount h w c Hn Ha Ho), Hm. pose proof (follow_undefined amount h Ho c) as Hs. rewrite Hm in Hs.
  destruct (m c) as [[[]|x] c']; [reflexivity|]. rewrite Hs. reflexivity.
Qed.

Lemma only_closing amount f : Actions.only (plain amount) (SocketPrograms.closeWith lowWaterMark highWaterMark closingThrows f).
Proof. rewrite Hcloses. apply Actions.only_close; cbn; auto. Qed.

Lemma close_requested n amount w c : (length l <= n)%nat -> 0 <= amount <= INT_MAX ->
  outcome (sends (S n)) (AbstractChannel.close clientChannel ;+ Returns tt) (worldOf amount w c)
    = let '(r, c') := AsioSocketChannel.close lowWaterMark highWaterMark closingThrows c in (r, worldOf amount w c').
Proof.
  intros Hn Ha. unfold AbstractChannel.close, AsioSocketChannel.close. rewrite bind_gets. unfold id.
  unfold asks. cbn [DefaultChannelPipeline.andThen]. rewrite !outcome_reads.
  change (isDone (getCloseFuture clientChannel (worldOf amount w c)) (worldOf amount w c))
    with (AsioSocketChannel.closeFutureDone (channel (worldOf amount w c))). rewrite worldOf_channel.
  change (AsioSocketChannel.closeFutureDone (SocketPrograms.clear c)) with (AsioSocketChannel.closeFutureDone c).
  destruct (AsioSocketChannel.closeFutureDone c); [reflexivity|]. rewrite outcome_andThen. unfold bind. rewrite outcome_andThen. unfold bind.
  change (getCloseFuture clientChannel (worldOf amount w c)) with clientCloseFuture.
  rewrite (sends_sunk n amount (DownstreamChannelStateEvent clientChannel (Some clientCloseFuture) OPEN None) (SocketPrograms.closeWith lowWaterMark highWaterMark closingThrows None)
    (AsioSocketChannel.closeWith lowWaterMark highWaterMark closingThrows None) w c Hn Ha eq_refl (only_closing amount None))
    by (intros; apply SocketPrograms.follow_close).
  destruct (AsioSocketChannel.closeWith _ _ _ None c) as [[[]|x] c']; reflexivity.
Qed.

(** The first half of a write that failed. *)
Lemma write_failed n amount w c : (length l <= n)%nat -> 0 <= amount <= INT_MAX ->
  outcome (sends (S n)) (inChannel (SocketPrograms.handleWrite lowWaterMark highWaterMark true amount)) (worldOf amount w c)
    = let '(r, c') := AsioSocketChannel.handleWrite lowWaterMark highWaterMark closingThrows true c in (r, worldOf amount w c').
Proof.
  intros Hn Ha. rewrite <- (SocketPrograms.follow_handleWrite lowWaterMark highWaterMark closingThrows true amount c).
  unfold SocketPrograms.handleWrite. cbn [negb]. set (polled := DefaultChannelPipeline.andThen (SocketPrograms.poll _ _) _).
  set (counted := updates _).
  assert (Actions.only (plain amount) (DefaultChannelPipeline.andThen counted (fun _ => polled))) as Ho.
  { apply Actions.only_andThen; [apply Actions.only_updates; intros ? Hc; exact Hc|]. intros _.
    apply Actions.only_andThen; [apply Actions.only_poll; exact I || (intros; exact I)|].
    intros o. apply Actions.only_setFuture; intros; exact I. }
  assert (forall c0, SocketPrograms.follow lowWaterMark highWaterMark closingThrows (counted ;+ polled ;+ SocketPrograms.does SocketPrograms.RequestClose) c0
    = SocketPrograms.follow lowWaterMark highWaterMark closingThrows ((counted ;+ polled) ;+ SocketPrograms.does SocketPrograms.RequestClose) c0) as -> by reflexivity.
  change (counted ;+ polled ;+ SocketPrograms.does SocketPrograms.RequestClose)
    with ((counted ;+ polled) ;+ SocketPrograms.does SocketPrograms.RequestClose).
  rewrite in_channel_andThen, SocketPrograms.follow_andThen. unfold bind. rewrite (in_channel (S n) amount) by (try lia; exact Ho).
  destruct (SocketPrograms.follow _ _ _ (counted ;+ polled) c) as [[[]|x] c']; [|reflexivity].
  rewrite SocketPrograms.follow_does. cbn [SocketPrograms.logged]. rewrite <- (close_requested n amount w c' Hn Ha). 
  unfold SocketPrograms.does. cbn [inChannel]. rewrite outcome_andThen. unfold bind. cbn [perform].
  destruct (outcome _ _ (worldOf amount w c')) as [[[]|x] w']; reflexivity.
Qed.

(** A call of the channel, through the pipeline. *)
Lemma call_exec n amount message w c k : (length l <= n)%nat -> 0 <= amount <= INT_MAX ->
  (forall size, readableBytes (message size) = Some size) ->
  call p (S n) message amount k (worldOf amount w c)
    = let '(r, c') := AsioSocketChannel.exec lowWaterMark highWaterMark closingThrows garbage k c in (r, worldOf amount w c').
Proof.
  intros Hn Ha Hm. destruct k as [size f|error|]; cbn [call AsioSocketChannel.exec].
  - rewrite outside_outcome. apply (sends_sunk n amount _ (SocketPrograms.write lowWaterMark highWaterMark garbage (Some size) f)).
    + exact Hn.
    + exact Ha.
    + cbn [sunk]. rewrite Hm. reflexivity.
    + apply Actions.only_write; cbn; auto.
    + intros. apply SocketPrograms.follow_write.
  - rewrite outside_outcome. destruct error.
    + apply write_failed; assumption.
    + rewrite (in_channel (S n) amount) by (try lia; apply Actions.only_written; cbn; auto).
      rewrite SocketPrograms.follow_handleWrite with (closeThrows := closingThrows). reflexivity.
  - pose proof (close_requested n amount w c Hn Ha) as E. rewrite outcome_andThen in E. rewrite <- E.
    apply bind_ext_l. apply outside_outcome.
Qed.

Lemma worldOf_start amount w : AsioSocketChannel.outputs (channel w) = [] -> worldOf amount w (channel w) = w.
Proof.
  intros Ho. unfold worldOf. rewrite Ho. destruct w as [u c cf co a pe fu]. cbn in *. unfold with_channel. cbn. f_equal.
  destruct c; cbn in *. subst. reflexivity.
Qed.

Lemma calls_exec n amount message ks w c : (length l <= n)%nat -> 0 <= amount <= INT_MAX ->
  (forall size, readableBytes (message size) = Some size) ->
  calls p (S n) message amount ks (worldOf amount w c)
    = let '(r, c') := AsioSocketChannel.execAll lowWaterMark highWaterMark closingThrows garbage ks c in (r, worldOf amount w c').
Proof.
  intros Hn Ha Hm. revert c. induction ks as [|k ks IH]; intros c; [reflexivity|]. cbn [calls AsioSocketChannel.execAll]. unfold bind.
  rewrite call_exec by assumption. destruct (AsioSocketChannel.exec _ _ _ _ k c) as [[[]|x] c']; [apply IH | reflexivity].
Qed.

(** C9: writes and closes that go down the pipeline of a client, and completions that come
    from asio, are the calls of the state machine of [SocketChannel]: the channel is in
    its state, and its outputs are, in their order, the futures that are set and the
    events that all handlers are told.  The handlers look on and pass the events on; closing
    the socket does not throw ([Hcloses]: the state machine does not tell the exception
    of a socket that does, an [IOException], from the others). *)
Theorem writes_through_pipeline n amount message ks w :
  (length l <= n)%nat -> 0 <= amount <= INT_MAX -> (forall size, readableBytes (message size) = Some size) ->
  AsioSocketChannel.outputs (channel w) = [] ->
  calls p (S n) message amount ks w
    = let '(r, c) := AsioSocketChannel.execAll lowWaterMark highWaterMark closingThrows garbage ks (channel w) in
      (r, replay amount (AsioSocketChannel.outputs c) (with_channel (SocketPrograms.clear c) w)).
Proof. intros Hn Ha Hm Ho. rewrite <- (worldOf_start amount w Ho) at 1. apply calls_exec; assumption. Qed.
End Closes.

(** ** Connecting *)

(** What becomes of a request: asio has yet to answer, an endpoint accepted, the last one
    refused, or one refused and closing its socket threw, so that the next is not tried. *)
Inductive ending := Waiting | Accepted | Refused | Abandoned.

(** The endpoints that are tried when asio answers them by [accepts], and the ending. *)
Fixpoint dial (endpoints : list EP) (accepts : list bool) : list EP * ending :=
  match endpoints, accepts with
  | [], _ => ([], Refused)
  | ep :: _, [] => ([ep], Waiting)
  | ep :: _, true :: _ => ([ep], Accepted)
  | ep :: endpoints, false :: accepts =>
      if closingThrows && negb (bool_decide (length endpoints = 0%nat)) then ([ep], Abandoned)
      else let '(tried, r) := dial endpoints accepts in (ep :: tried, r)
  end.

Lemma dial_ends endpoints accepts : (length endpoints <= length accepts)%nat -> snd (dial endpoints accepts) <> Waiting.
Proof.
  revert accepts. induction endpoints as [|ep endpoints IH]; intros accepts Hl; [discriminate|].
  destruct accepts as [|[|] accepts]; cbn [dial length] in *; [lia | discriminate|].
  destruct (_ && _); [discriminate|]. specialize (IH accepts ltac:(lia)). destruct (dial endpoints accepts). exact IH.
Qed.

Lemma dial_head ep endpoints accepts : exists tried, fst (dial (ep :: endpoints) accepts) = ep :: tried.
Proof.
  destruct accepts as [|[|] accepts]; cbn [dial fst]; eauto. destruct (_ && _); cbn [fst]; eauto.
  destruct (dial endpoints accepts). cbn [fst]. eauto.
Qed.

(** The event that a refused channel tells: it is closed, or its socket cannot be closed. *)
Definition EXCEPTION (x : error) : E := DefaultExceptionEvent clientChannel x.
Definition CLOSING : E := if closingThrows then EXCEPTION IOException else stateEvent OPEN None.

(** The events that the ending tells the handlers. *)
Definition told_outcome (r : ending) (u : U) : U :=
  match r with
  | Waiting | Abandoned => u
  | Accepted => told (stateEvent CONNECTED (Some (AnyAddressPointer NULL_ADDRESS))) u
  | Refused => told CLOSING u
  end.

(** What the run of asio's answers returns: the exception of a socket that does not close
    comes out of its handler. *)
Definition run_of (r : ending) : result unit := match r with Abandoned => Err SystemException | _ => Ok tt end.

Definition future_of (r : ending) : option bool :=
  match r with Waiting | Abandoned => None | Accepted => Some true | Refused => Some false end.
#[local] Instance ending_dec : EqDecision ending.
Proof. solve_decision. Defined.

(** A channel that connects: its request is pending, and no other. *)
Record dialling (ep : EP) (rest : list EP) (f : futureRef) (w : W) : Prop := MkDialling {
  dialling_channel : channel w = AsioSocketChannel.new;
  dialling_pending : connecting w = [(ep, rest, f)];
  dialling_future : results (theFutures w) !! f = Some None;
  dialling_other : f <> clientCloseFuture;
}.

(** The ending [r] of the request [f], for the future and the channel. *)
Record outcome_of (f : futureRef) (r : ending) (w : W) : Prop := MkOutcome {
  outcome_future : results (theFutures w) !! f = Some (future_of r);
  outcome_connected : AsioSocketChannel.isConnected (channel w) = bool_decide (r = Accepted);
  outcome_open : AsioSocketChannel.isOpen (channel w) = negb (bool_decide (r = Refused));
  outcome_socket : AsioSocketChannel.socketOpen (channel w) = negb (bool_decide (r = Refused)) || closingThrows;
  outcome_closed : AsioSocketChannel.closeFutureDone (channel w) = bool_decide (r = Refused);
  outcome_answered : r <> Waiting -> connecting w = [];
}.

(** Nothing is pending: asio has no more to say. *)
Lemma no_answers n accepts (w : W) : connecting w = [] -> answers p n accepts w = (Ok tt, w).
Proof.
  intros Hc. induction accepts as [|b accepts IH]; [reflexivity|]. cbn [answers]. erewrite bind_ok; [exact IH|].
  rewrite outside_outcome. unfold connectAnswered. erewrite outcome_then by apply outcome_asks. unfold id. rewrite Hc. reflexivity.
Qed.

Lemma answered n error ep rest f co w : connecting w = (ep, rest, f) :: co ->
  outcome (sends n) (connectAnswered error) w
    = outcome (sends n) (handleConnect error rest f) (with_connecting co (with_peer (if error then peer w else Some ep) w)).
Proof.
  intros Hc. unfold connectAnswered. erewrite outcome_then by apply outcome_asks. unfold id. rewrite Hc.
  erewrite outcome_then by apply outcome_updates. reflexivity.
Qed.

Lemma next_endpoint n ep ep' rest f w : closingThrows (ClientSockets := CS) = false -> dialling ep (ep' :: rest) f w ->
  exists w', outcome (sends n) (connectAnswered true) w = (Ok tt, w') /\ dialling ep' rest f w' /\
    user w' = user w /\ attempts w' = attempts w ++ [ep'].
Proof.
  intros Hcl [Hc Hp Hf Ho]. rewrite (answered _ _ _ _ _ _ _ Hp). unfold handleConnect. cbn [negb].
  unfold closeTcpSocket. rewrite Hcl. erewrite outcome_then by apply outcome_updates. unfold asyncConnect.
  erewrite outcome_then by apply outcome_updates. rewrite outcome_updates. eexists. split; [reflexivity|].
  split; [|split; reflexivity]. split; cbn; [rewrite Hc; reflexivity | reflexivity | exact Hf | exact Ho].
Qed.

(** The socket of an endpoint that refused cannot be closed. *)
Lemma connect_abandoned n ep ep' rest f w : closingThrows (ClientSockets := CS) = true -> dialling ep (ep' :: rest) f w ->
  exists w', outcome (sends n) (connectAnswered true) w = (Err SystemException, w') /\ outcome_of f Abandoned w' /\
    user w' = user w /\ attempts w' = attempts w.
Proof.
  intros Hcl [Hc Hp Hf Ho]. rewrite (answered _ _ _ _ _ _ _ Hp). unfold handleConnect. cbn [negb].
  unfold closeTcpSocket. rewrite Hcl. rewrite outcome_andThen. unfold bind. rewrite outcome_throws.
  eexists. split; [reflexivity|]. split; [|split; reflexivity]. split; cbn; rewrite ?Hc; try reflexivity. exact Hf.
Qed.

Lemma dialling_start ep rest f w : dialling ep rest f w -> forall w1, channel w1 = channel w -> worldOf 0 w1 AsioSocketChannel.new = w1.
Proof.
  intros [Hc _ _ _] w1 E. rewrite <- Hc, <- E. apply worldOf_start. rewrite E, Hc. reflexivity.
Qed.

Lemma completed_pending f b w : f <> clientCloseFuture -> results (theFutures w) !! f = Some None ->
  completed f b w = with_futures (MkFutures (<[f := Some b]> (results (theFutures w))) (nextFuture (theFutures w))) w.
Proof. intros Hf Hr. unfold completed, complete. rewrite bool_decide_eq_false_2, Hr by exact Hf. reflexivity. Qed.
Lemma completed_done f b r w : results (theFutures w) !! f = Some (Some r) -> completed f b w = w.
Proof. intros Hr. unfold completed, complete. rewrite Hr. destruct (bool_decide _); destruct w; reflexivity. Qed.

Lemma connect_accepted n ep rest f w : (length l <= n)%nat -> dialling ep rest f w ->
  exists w', outcome (sends n) (connectAnswered false) w = (Ok tt, w') /\ outcome_of f Accepted w' /\
    user w' = told_outcome Accepted (user w) /\ attempts w' = attempts w.
Proof.
  intros Hn Hd. pose proof Hd as [Hc Hp Hf Ho]. rewrite (answered _ _ _ _ _ _ _ Hp). unfold handleConnect. cbn [negb].
  set (w1 := with_connecting [] (with_peer (Some ep) w)).
  rewrite <- (dialling_start _ _ _ _ Hd w1 eq_refl). rewrite (in_channel n 0) by (first [exact Hn | unfold INT_MAX; lia |
    apply Actions.only_connected; cbn; auto]).
  rewrite SocketPrograms.follow_connected. cbn. eexists. split; [reflexivity|]. unfold worldOf. cbn.
  rewrite completed_pending by (try exact Ho; exact Hf). split; [|auto].
  split; cbn; try reflexivity. apply lookup_insert_eq.
Qed.

(** A channel whose request failed closes, or says that it cannot. *)
Lemma failed_closes n f w : (length l <= n)%nat -> channel w = AsioSocketChannel.new -> f <> clientCloseFuture ->
  results (theFutures w) !! f = Some (Some false) ->
  exists w', outcome (sends n) (closeSocket (Some f)) w = (Ok tt, w') /\ user w' = told CLOSING (user w) /\
    theFutures w' = theFutures w /\ attempts w' = attempts w /\ connecting w' = connecting w /\
    AsioSocketChannel.isConnected (channel w') = false /\ AsioSocketChannel.isOpen (channel w') = false /\
    AsioSocketChannel.closeFutureDone (channel w') = true /\ AsioSocketChannel.socketOpen (channel w') = closingThrows.
Proof.
  intros Hn Hc Hf Hr. unfold closeSocket, CLOSING. rewrite bool_decide_eq_false_2 by exact Hf. destruct closingThrows eqn:Hcl.
  - destruct w as [u c cf co at' pe fu]. cbn [channel theFutures user attempts connecting] in *. subst c.
    unfold SocketPrograms.closeWith. do 3 (rewrite in_channel_andThen; erewrite bind_ok by reflexivity).
    match goal with |- context [if ?b then _ else _] => change b with false; cbn match end. rewrite in_channel_andThen.
    set (w1 := MkClient u (AsioSocketChannel.with_closeFutureDone true
      (AsioSocketChannel.with_state AsioSocketChannel.ST_CHANNEL_CLOSED AsioSocketChannel.new)) cf co at' pe fu : W).
    erewrite (bind_ok _ _ _ true w1) by reflexivity. rewrite in_channel_andThen.
    erewrite (bind_ok _ _ _ tt (completed f false w1)) by reflexivity. rewrite (completed_done f false false) by exact Hr.
    cbn [SocketPrograms.does inChannel perform].
    erewrite outcome_then by (apply client_fire, Hn). rewrite outcome_returns. eexists. split; [reflexivity|]. repeat split; reflexivity.
  - assert (worldOf 0 w AsioSocketChannel.new = w) as E0 by (rewrite <- Hc; apply worldOf_start; rewrite Hc; reflexivity).
    assert (Actions.only (plain 0) (SocketPrograms.closeWith lowWaterMark highWaterMark false (Some f))) as Hp
      by (apply Actions.only_close; cbn; auto).
    pose proof (in_channel n 0 _ w AsioSocketChannel.new Hn ltac:(unfold INT_MAX; lia) Hp) as E.
    rewrite E0, Hcl, SocketPrograms.follow_close in E. cbn in E. eexists. split; [exact E|]. unfold worldOf. cbn.
    rewrite (completed_done f true false) by exact Hr. repeat split; reflexivity.
Qed.

Lemma connect_refused n ep f w : (length l <= n)%nat -> dialling ep [] f w ->
  exists w', outcome (sends n) (connectAnswered true) w = (Ok tt, w') /\ outcome_of f Refused w' /\
    user w' = told_outcome Refused (user w) /\ attempts w' = attempts w.
Proof.
  intros Hn Hd. pose proof Hd as [Hc Hp Hf Ho]. rewrite (answered _ _ _ _ _ _ _ Hp). unfold handleConnect. cbn [negb].
  erewrite outcome_then by apply client_completes. rewrite completed_pending by (try exact Ho; exact Hf).
  set (w1 := with_futures _ _).
  destruct (failed_closes n f w1 Hn Hc Ho (lookup_insert_eq _ _ _)) as (w' & E & Hu & Hfu & Ha & Hco & H1 & H2 & H3 & H4).
  exists w'. split; [exact E|]. split; [|auto]. split; [rewrite Hfu; apply lookup_insert_eq | | | | |];
    rewrite ?H1, ?H2, ?H3, ?H4, ?Hco; reflexivity.
Qed.

(** The answers to a request, up to its ending. *)
Lemma dialled n accepts ep rest f w : (length l <= n)%nat -> dialling ep rest f w ->
  exists w', answers p n accepts w = (run_of (snd (dial (ep :: rest) accepts)), w') /\
    outcome_of f (snd (dial (ep :: rest) accepts)) w' /\
    user w' = told_outcome (snd (dial (ep :: rest) accepts)) (user w) /\
    attempts w' = attempts w ++ tail (fst (dial (ep :: rest) accepts)).
Proof.
  intros Hn. revert ep rest w. induction accepts as [|[|] accepts IH]; intros ep rest w Hd.
  - exists w. destruct Hd as [Hc Hp Hf Ho]. cbn. rewrite app_nil_r. repeat split; try reflexivity; rewrite ?Hc; try reflexivity; done.
  - destruct (connect_accepted n ep rest f w Hn Hd) as (w' & E & Hw & Hu & Ha). exists w'. cbn [answers negb dial fst snd tail].
    rewrite app_nil_r. split; [|auto]. erewrite bind_ok by (rewrite outside_outcome; exact E). apply no_answers, Hw. discriminate.
  - destruct rest as [|ep' rest].
    + destruct (connect_refused n ep f w Hn Hd) as (w' & E & Hw & Hu & Ha). exists w'. cbn [answers negb dial length fst snd tail].
      rewrite bool_decide_eq_true_2, andb_false_r by reflexivity. cbn [fst snd tail]. rewrite app_nil_r.
      split; [|auto]. erewrite bind_ok by (rewrite outside_outcome; exact E). apply no_answers, Hw. discriminate.
    + change (dial (ep :: ep' :: rest) (false :: accepts)) with
        (if closingThrows && true then ([ep], Abandoned) else let '(tried, r) := dial (ep' :: rest) accepts in (ep :: tried, r)).
      cbn [answers negb]. destruct closingThrows eqn:Hcl; cbn [andb].
      * destruct (connect_abandoned n ep ep' rest f w Hcl Hd) as (w' & E & Hw & Hu & Ha). exists w'. cbn [fst snd tail].
        rewrite app_nil_r. split; [|auto]. apply bind_err. rewrite outside_outcome. exact E.
      * destruct (next_endpoint n ep ep' rest f w Hcl Hd) as (w1 & E & Hd1 & Hu & Ha). destruct (IH ep' rest w1 Hd1) as (w' & E' & Hw & Hu' & Ha').
        exists w'. erewrite bind_ok by (rewrite outside_outcome; exact E).
        destruct (dial (ep' :: rest) accepts) as [tried o] eqn:Ed. cbn [fst snd tail] in *.
        split; [exact E'|]. split; [exact Hw|]. split; [rewrite Hu', Hu; reflexivity|]. rewrite Ha', Ha, <- app_assoc.
        destruct (dial_head ep' rest accepts) as [t Et]. rewrite Ed in Et. cbn in Et. subst. reflexivity.
Qed.

(** A client before it connects. *)
Record idle (w : W) : Prop := MkIdle {
  idle_channel : channel w = AsioSocketChannel.with_socketOpen false AsioSocketChannel.new;
  idle_connecting : connecting w = [];
  idle_attempts : attempts w = [];
  idle_future : (clientCloseFuture < nextFuture (theFutures w))%positive;
}.

Definition OPENED : E := stateEvent OPEN (Some (AnyBool true)).
Definition with_new (w : W) : W := with_futures (snd (newFutureOf (theFutures w))) w.

Lemma idle_new w : idle w -> idle (with_new w).
Proof. intros [Hc Hco Ha Hf]. split; cbn; auto. lia. Qed.
Lemma idle_tell e w : idle w -> idle (tell e w).
Proof. intros [Hc Hco Ha Hf]. split; assumption. Qed.

Lemma idle_completed f b w : idle w -> idle (completed f b w).
Proof.
  intros [Hc Hco Ha Hf]. unfold completed, complete. destruct (bool_decide _); [split; assumption|].
  destruct (results (theFutures w) !! f) as [[]|]; split; assumption.
Qed.

(** A channel whose socket is not open does not close. *)
Lemma close_ignored n w : idle w -> outcome (sends n) (closeSocket (Some clientCloseFuture)) w = (Ok tt, w).
Proof.
  intros [Hc _ _ _]. destruct w as [u c cf co at' pe fu]. cbn [channel] in Hc. subst c. reflexivity.
Qed.

(** A request with a new future; what comes out of the sink is an exception of the
    channel. *)
Definition reported (e : E) (r : result unit) (w : W) : result unit * W :=
  match r with
  | Ok _ => (Ok tt, w)
  | Err Undefined => (Err Undefined, w)
  | Err _ => (Ok tt, tell (EXCEPTION ChannelPipelineException) w)
  end.

Lemma outcome_down n e w : (length l <= n)%nat -> Channels.isExceptionEvent e = false -> Channels.getChannel e = clientChannel ->
  outcome (sends (S n)) (Channels.pipelineDownstream clientChannel e) w
    = let '(r, w') := outcome (sends n) (sunk e) w in reported e r w'.
Proof.
  intros Hn He Hc. unfold Channels.pipelineDownstream. rewrite outcome_sends. unfold bind. rewrite client_down.
  destruct (outcome (sends n) (sunk e) w) as [[[]|x] w']; [reflexivity|]. unfold reported.
  assert (effect (DefaultChannelPipeline.notifyHandlerException (sends n) (Sink tt) e) w' = (Ok tt, tell (EXCEPTION ChannelPipelineException) w')) as Er.
  { unfold DefaultChannelPipeline.notifyHandlerException. cbn [DefaultChannelPipeline.isExceptionEvent behaviour ClientBehaviour].
    rewrite He, effect_cons, effect_handle by apply client_silent. cbn [DefaultChannelPipeline.sinkException behaviour ClientBehaviour].
    unfold exceptionCaught, Channels.fireExceptionCaught. rewrite Hc, client_fire by exact Hn. reflexivity. }
  destruct x; rewrite ?Er; reflexivity.
Qed.

Lemma outcome_newFuture n c cancellable w :
  outcome (sends n) (Channels.future c cancellable) w = (Ok (nextFuture (theFutures w)), with_new w).
Proof. reflexivity. Qed.

Lemma bind_ignored n local w : (length l <= n)%nat ->
  outcome (sends (S n)) (AbstractChannel.bind clientChannel local) w = (Ok (nextFuture (theFutures w)), with_new w).
Proof.
  intros Hn. unfold AbstractChannel.bind, Channels.bind. erewrite outcome_then by apply outcome_newFuture.
  erewrite outcome_then by (rewrite outcome_down by (exact Hn || reflexivity); reflexivity). reflexivity.
Qed.

(** The request, before asio answers. *)
Definition requested (r : result (list EP)) (w : W) (o : result futureRef * W) : Prop :=
  let f := nextFuture (theFutures w) in
  match r with
  | Ok (ep :: rest) => fst o = Ok f /\ dialling ep rest f (snd o) /\ user (snd o) = user w /\ attempts (snd o) = [ep]
  | Ok [] | Err Undefined => fst o = Err Undefined
  | Err x =>
      let told x := user (snd o) = told (EXCEPTION x) (user w) in
      fst o = Ok f /\ idle (snd o) /\ results (theFutures (snd o)) !! f = Some (if isLibraryException x then Some false else None) /\
      (if isLibraryException x then told x else told ChannelPipelineException)
  end.

Lemma not_stuck x : isLibraryException x = true -> x <> Undefined.
Proof. intros H ->. discriminate. Qed.

Lemma connect_requested n remote w : (length l <= n)%nat -> idle w ->
  requested (resolve remote) w (outcome (sends (S n)) (AbstractChannel.connect clientChannel remote) w).
Proof.
  intros Hn Hi. pose proof (idle_new w Hi) as Hi'. set (f := nextFuture (theFutures w)).
  assert (f <> clientCloseFuture) as Hf by (pose proof (idle_future w Hi); unfold f; lia).
  assert (results (theFutures (with_new w)) !! f = Some None) as Hpend by apply lookup_insert_eq.
  set (e := DownstreamChannelStateEvent clientChannel (Some f) CONNECTED (Some (AnyAddress remote)) : E).
  assert (outcome (sends (S n)) (AbstractChannel.connect clientChannel remote) w
    = let '(r, w') := outcome (sends n) (connect (Some f) remote) (with_new w) in
      let '(r, w') := reported e r w' in (match r with Ok _ => Ok f | Err x => Err x end, w')) as ->.
  { unfold AbstractChannel.connect, Channels.connect. erewrite outcome_then by apply outcome_newFuture. fold f.
    rewrite outcome_andThen. unfold bind.
    rewrite (outcome_down n e) by (exact Hn || reflexivity). cbn [sunk handleStateChange e].
    destruct (outcome (sends n) (connect (Some f) remote) (with_new w)) as [r w'].
    destruct (reported e r w') as [[[]|x] w2]; reflexivity. }
  unfold connect. rewrite outcome_tryCatch by apply client_silent. unfold requested. fold f. clearbody e.
  destruct (resolve remote) as [[|ep rest]|x].
  - reflexivity.
  - cbn [ofResult DefaultChannelPipeline.andThen]. unfold asyncConnect. erewrite outcome_then by apply outcome_updates. rewrite outcome_updates. cbn.
    destruct Hi' as [Hc Hco Ha _]. cbn in Hc, Hco, Ha. repeat split; cbn; try assumption.
    + rewrite Hc. reflexivity.
    + rewrite Hco. reflexivity.
    + rewrite Ha. reflexivity.
  - cbn [ofResult DefaultChannelPipeline.andThen]. rewrite outcome_throws.
    destruct (isLibraryException x) eqn:Ex.
    + assert (outcome (sends n) (completeFuture f false ;+ Channels.fireExceptionCaught clientChannel x ;+ closeSocket (Some clientCloseFuture)) (with_new w)
        = (Ok tt, tell (EXCEPTION x) (completed f false (with_new w)))) as E1.
      { erewrite outcome_then by apply client_completes. erewrite outcome_then by (apply client_fire, Hn).
        apply close_ignored, idle_tell, idle_completed, Hi'. }
      rewrite completed_pending in E1 by (exact Hf || exact Hpend).
      destruct x; try discriminate; rewrite E1; (split; [reflexivity|]); (split; [|split; [apply lookup_insert_eq | reflexivity]]);
        rewrite <- completed_pending by (exact Hf || exact Hpend); apply idle_tell, idle_completed, Hi'.
    + destruct x; try discriminate; rewrite ?outcome_throws; cbn;
        first [reflexivity | split; [reflexivity|]; split; [apply idle_tell, Hi'|]; split; [exact Hpend | reflexivity]].
Qed.

(** What becomes of a request, once its channel is made: the run of [accepts] in the end. *)
Definition connects (n : nat) (accepts : list bool) (u : U) (r : result (list EP)) (f : futureRef) (w : W) : Prop :=
  match r with
  | Ok endpoints =>
      let '(tried, o) := dial endpoints accepts in
      exists w', answers p n accepts w = (run_of o, w') /\ outcome_of f o w' /\ attempts w' = tried /\ user w' = told_outcome o u /\
        ((length endpoints <= length accepts)%nat -> o <> Waiting)
  | Err x =>
      attempts w = [] /\ connecting w = [] /\ AsioSocketChannel.isOpen (channel w) = true /\
      if isLibraryException x then results (theFutures w) !! f = Some (Some false) /\ user w = told (EXCEPTION x) u
      else results (theFutures w) !! f = Some None /\ user w = told (EXCEPTION ChannelPipelineException) u
  end.

(** A resolver that returns finds an endpoint, and the run has a meaning. *)
Definition resolved (r : result (list EP)) : Prop := match r with Ok [] | Err Undefined => False | _ => True end.

Lemma requested_connects n accepts r w o : (length l <= n)%nat -> resolved r -> requested r w o ->
  fst o = Ok (nextFuture (theFutures w)) /\ connects n accepts (user w) r (nextFuture (theFutures w)) (snd o).
Proof.
  intros Hn Hr. destruct o as [o w1]. destruct r as [[|ep rest]|x]; cbn [requested connects resolved fst snd] in *; try contradiction.
  - intros (-> & Hd & Hu & Ha). split; [reflexivity|].
    destruct (dialled n accepts ep rest _ _ Hn Hd) as (w' & E & Ho & Hu' & Ha').
    destruct (dial (ep :: rest) accepts) as [tried o] eqn:Edial. exists w'. cbn [fst snd] in *. rewrite Hu in Hu'.
    split; [exact E|]. split; [exact Ho|]. split; [|split; [exact Hu'|]].
    + rewrite Ha', Ha. destruct (dial_head ep rest accepts) as [t Et]. rewrite Edial in Et. cbn in Et. subst. reflexivity.
    + intros Hl. pose proof (dial_ends (ep :: rest) accepts Hl) as He. rewrite Edial in He. exact He.
  - intros Hq. assert (forall A (a b : A), match x with Undefined => a | _ => b end = b) as Hx by (intros; destruct x; try reflexivity; contradiction).
    rewrite Hx in Hq. destruct Hq as (-> & Hi & Hf & Hu). split; [reflexivity|]. destruct Hi as [Hc Hco Ha _].
    split; [exact Ha|]. split; [exact Hco|]. split; [rewrite Hc; reflexivity|]. destruct (isLibraryException x); auto.
Qed.

(** The steps before the request. *)
Lemma prepared n (b : B) u bf k local : (length l <= n)%nat ->
  exists w, idle w /\ user w = told OPENED u /\ forall remote,
    clientConnect b p (S n) remote local (newWorld u bf k)
      = match fst (SocketChannelConfig.setOptions (CS := CS) false (Bootstrap.theOptions b) (SocketChannelConfig.new bf k)) with
        | Ok _ => outcome (sends (S n)) (AbstractChannel.connect clientChannel remote) w
        | Err x => (Err x, snd (configure (Bootstrap.theOptions b) (tell OPENED (newWorld u bf k))))
        end.
Proof.
  intros Hn. set (w0 := newWorld u bf k). set (w1 := snd (configure (Bootstrap.theOptions b) (tell OPENED w0))).
  assert (outside p (S n) (Channels.fireChannelOpen clientChannel) w0 = (Ok tt, tell OPENED w0)) as E0.
  { rewrite outside_outcome. unfold Channels.fireChannelOpen. cbn [DefaultChannelPipeline.andThen]. unfold Channels.notifyParent.
    erewrite outcome_then; [|rewrite outcome_andThen; reflexivity]. apply client_fire. lia. }
  assert (configure (Bootstrap.theOptions b) (tell OPENED w0)
    = (fst (SocketChannelConfig.setOptions (CS := CS) false (Bootstrap.theOptions b) (SocketChannelConfig.new bf k)), w1)) as E1.
  { unfold w1, configure. cbn. destruct (SocketChannelConfig.setOptions _ _ _) as [r c]. reflexivity. }
  assert (idle w1) as Hi1. { unfold w1, configure. destruct (SocketChannelConfig.setOptions _ _ _) as [r c]. split; reflexivity. }
  assert (user w1 = told OPENED u) as Hu1. { unfold w1, configure. destruct (SocketChannelConfig.setOptions _ _ _) as [r c]. reflexivity. }
  exists (if validated local then with_new w1 else w1). split; [destruct (validated local); [apply idle_new|]; exact Hi1|].
  split; [destruct (validated local); exact Hu1|]. intros remote. unfold clientConnect. rewrite (bind_ok _ _ _ _ _ E0). unfold bind at 1.
  rewrite E1. destruct (fst _) as [[]|x]; [|reflexivity].
  erewrite bind_ok; [apply outside_outcome|].
  destruct (validated local); [|reflexivity]. erewrite bind_ok by (rewrite outside_outcome; apply bind_ignored, Hn). reflexivity.
Qed.

(** C8: [connect] fails when an option cannot be set.  Otherwise the endpoints that the
    resolver finds are tried in their order until one accepts; then the channel is
    connected, the future succeeds and the handlers are told.  When the last one refuses
    the future fails and the channel closes, as its handlers are told - or, when closing
    its socket throws, counts as closed with its socket open, and the handlers are told of
    the exception instead.  When an earlier one refuses and closing the socket throws, the
    exception comes out of asio's handler: the next is not tried, the channel stays open
    and the future pending, with nobody left to set it.  Only then, and while asio has
    not answered each endpoint, is the future of endpoints that were found pending.  When
    the resolver throws, the channel stays open, and the future fails if the exception is
    one of the library - and is pending for ever otherwise.  The handlers look on and pass
    the events on; a resolver that does not throw finds an endpoint ([resolved], as asio
    documents it). *)
Theorem client_connects n accepts (b : B) u bf k remote local :
  clientPipeline b = Ok p -> (length l <= n)%nat -> resolved (resolve remote) ->
  let '(r, w) := ClientBootstrap_connect b (S n) u bf k remote local in
  match fst (SocketChannelConfig.setOptions (CS := CS) false (Bootstrap.theOptions b) (SocketChannelConfig.new bf k)) with
  | Err x => r = Err x
  | Ok _ => exists f, r = Ok f /\ connects (S n) accepts (told OPENED u) (resolve remote) f w
  end.
Proof.
  intros Hp Hn Hr. unfold ClientBootstrap_connect. rewrite Hp. destruct (prepared n b u bf k local Hn) as (w & Hi & Hu & E). rewrite E.
  destruct (fst _) as [[]|x]; [|reflexivity].
  pose proof (requested_connects (S n) accepts _ _ _ ltac:(lia) Hr (connect_requested n remote w Hn Hi)) as H.
  destruct (outcome _ _ w) as [r w']. destruct H as [H1 H2]. rewrite Hu in H2. eauto.
Qed.
End Client.

(** *** Options

    A socket that is not open takes no option, and the socket of a client opens when it
    connects. *)
Section Options.
Context {SA EP K Msg F BF : Type} {CS : ClientSockets SA EP K Msg}.
Abbreviation value := (optionValue SA F BF).
Hypothesis Hclosed : forall o k, setTcpOption (Msg := Msg) false o k = (Err SystemException, k).

Definition socketKeys : list string :=
  ["receiveBufferSize"; "sendBufferSize"; "tcpNoDelay"; "keepAlive"; "reuseAddress"; "soLinger"; "writeBufferLowWaterMark";
   "receiveBufferLowWaterMark"]%string.

Lemma closed_socket o (c : socketConfig BF K) : fst (SocketChannelConfig.setSocket (Msg := Msg) false o c) = Err ChannelException.
Proof. unfold SocketChannelConfig.setSocket. rewrite Hclosed. reflexivity. Qed.

Lemma fails_bind {S A A'} (m : M S A) (k : A -> M S A') s x : fst (m s) = Err x -> fst (bind m k s) = Err x.
Proof. unfold bind. destruct (m s) as [[a|y] s']; cbn; congruence. Qed.

Lemma option_fails key (v : value) (c : socketConfig BF K) : key ∈ socketKeys ->
  exists x, fst (SocketChannelConfig.setOption (CS := CS) false key v c) = Err x.
Proof.
  intros Hk. assert (exists x, fst (SocketChannelConfig.aBool (K := K) v (fun b => SocketChannelConfig.setSocket (Msg := Msg) false (NoDelay b)) c) = Err x /\
    fst (SocketChannelConfig.aBool (K := K) v (fun b => SocketChannelConfig.setSocket (Msg := Msg) false (KeepAlive b)) c) = Err x /\
    fst (SocketChannelConfig.aBool (K := K) v (fun b => SocketChannelConfig.setSocket (Msg := Msg) false (ReuseAddr b)) c) = Err x) as (x & E1 & E2 & E3).
  { unfold SocketChannelConfig.aBool. unfold bind, reads. destruct (ConversionUtil.toBoolean v) as [b|x];
      [exists ChannelException; rewrite !closed_socket; auto | exists x; auto]. }
  assert (forall o, exists x, fst ((SocketChannelConfig.setSocket (Msg := Msg) false o ;! ret true) c) = Err x) as Hset
    by (intros o; eexists; apply fails_bind, closed_socket).
  assert (forall set, fst (SocketChannelConfig.aBool (K := K) v set c) = Err x -> exists x, fst ((SocketChannelConfig.aBool v set ;! ret true) c) = Err x) as Hbool
    by (intros set E; eexists; apply fails_bind, E).
  unfold socketKeys in Hk. set_unfold in Hk. destruct_or! Hk; try contradiction; subst.
  - exact (Hset (ReceiveBuffer (ConversionUtil.toInt v))).
  - exact (Hset (SendBuffer (ConversionUtil.toInt v))).
  - exact (Hbool _ E1).
  - exact (Hbool _ E2).
  - exact (Hbool _ E3).
  - exact (Hset (Linger (if ConversionUtil.toInt v >? 0 then Some (ConversionUtil.toInt v) else None))).
  - exists ChannelException. apply (fails_bind (SocketChannelConfig.setWriteBufferLowWaterMark (Msg := Msg) false (ConversionUtil.toInt v)) (fun _ => ret true)).
    apply fails_bind, closed_socket.
  - exact (Hset (ReceiveLowWatermark (ConversionUtil.toInt v))).
Qed.

Lemma options_fail (m : options value) key v (c : socketConfig BF K) : key ∈ socketKeys -> m !! key = Some v ->
  exists x, fst (SocketChannelConfig.setOptions (CS := CS) false m c) = Err x.
Proof.
  intros Hk Hm. unfold SocketChannelConfig.setOptions.
  assert ((key, v) ∈ entries m) as Hin.
  { unfold entries. pose proof (proj2 (elem_of_map_to_list (M := gmap string) m key v) Hm) as Hi.
    rewrite <- (merge_sort_Permutation key_le (map_to_list m)) in Hi. exact Hi. }
  revert c. induction (entries m) as [|[k v'] l IH]; intros c; [apply elem_of_nil in Hin; contradiction|].
  cbn [SocketChannelConfig.setEach]. unfold bind. apply elem_of_cons in Hin as [E|Hin].
  - injection E as <- <-. destruct (option_fails key v c Hk) as (x & Ex). exists x.
    destruct (SocketChannelConfig.setOption false key v c) as [r c']. cbn in Ex. subst. reflexivity.
  - destruct (SocketChannelConfig.setOption false k v' c) as [[b|x] c']; [exact (IH Hin c') | exists x; reflexivity].
Qed.
End Options.

(** ** A client *)

Section Demo.

Inductive watcher := Watcher (n : nat).
#[local] Instance watcher_dec : EqDecision watcher.
Proof. solve_decision. Defined.
#[local] Instance watcher_handler : ChannelHandler watcher := {|
  isUpstream _ := true; isDownstream _ := false; lifeCycle _ := None; handler_toString _ := "watcher"%string;
|}.

(** Handlers that note what they see, with their number. *)
Abbreviation notes := (list (nat * event Z Z)).
Definition watch (n : nat) : ChannelUpstreamHandler (event Z Z) notes :=
  let note e := Reads (fun u => Writes (u ++ [(n, e)]) (Sends (SendUpstream e) (Returns tt))) in
  MkUpstreamHandler note note note note note note.
#[local] Instance watchers : UserHandlers watcher Z Z notes := {|
  upstreamHandler h := match h with Watcher n => watch n end;
  downstreamHandler _ := MkDownstreamHandler (fun e => Returns tt) (fun e => Returns tt) (fun e => Returns tt);
|}.
#[local] Instance no_address : NullAddress Z := {| NULL_ADDRESS := 0 |}.

(** Names of the resolver: 0 is no name, 99 is not known; the others have three endpoints. *)
Definition demo_socketsOf (throws : bool) : ClientSockets Z Z (list tcpOption) Z := {|
  validated n := negb (n =? 0);
  resolve n := if n =? 0 then Err NullPointerException else if n =? 99 then Err SystemException else Ok [n; n + 1; n + 2];
  endpointAddress n := n;
  setTcpOption opened o := if opened then modify (fun k => k ++ [o]) else throw SystemException;
  closingThrows := throws;
  readableBytes size := Some size;
  lowWaterMark := 2048;
  highWaterMark := 2097152;
  garbage := 7;
|}.
#[local] Instance demo_sockets : ClientSockets Z Z (list tcpOption) Z := demo_socketsOf false.
Abbreviation demoPipeline := (DefaultChannelPipeline.t watcher channelRef unit).
Definition unattached : demoPipeline :=
  snd ((DefaultChannelPipeline.addLast "a" (Some (Watcher 1)) ;! DefaultChannelPipeline.addLast "b" (Some (Watcher 2))) DefaultChannelPipeline.new).
#[local] Instance demo_factories : Factories watcher channelRef unit unit := {| getPipelineOf _ := Ok unattached; clone h := h |}.

Abbreviation demoValue := (optionValue Z (pipelineFactory unit) unit).
Abbreviation demoBootstrap := (Bootstrap.t watcher channelRef unit unit unit demoValue).
Definition demoClient : demoBootstrap := snd
  ((Bootstrap.setFactory (Some tt) ;! Bootstrap.setPipelineFactory (Some (UserFactory tt)) ;!
    Bootstrap.setOption "connectTimeoutMillis" (Some (OptionInt 500))) Bootstrap.new).

Definition demoAttached : demoPipeline := snd (DefaultChannelPipeline.attach (Some clientChannel) (Some tt) unattached).
Definition demoList : list (string * watcher) := [("a"%string, Watcher 1); ("b"%string, Watcher 2)].
Definition noted (h : watcher) (e : event Z Z) (u : notes) : notes := match h with Watcher n => u ++ [(n, e)] end.

Lemma demo_observers : Forall (fun x => observer (SA := Z) (Msg := Z) noted (snd x)) demoList.
Proof. repeat constructor; cbn; destruct e; reflexivity. Qed.
Lemma demo_client_reached : DefaultChannelPipeline.sink demoAttached = Sink tt /\ reached demoAttached demoList.
Proof.
  split; [reflexivity|]. apply reached_attach.
  destruct (addLast_joins (DefaultChannelPipeline.new : demoPipeline) [] "a" (Watcher 1) reached_new) as (p1 & E1 & R1);
    [repeat split | reflexivity|].
  destruct (addLast_joins p1 _ "b" (Watcher 2) R1) as (p2 & E2 & R2); [repeat split | reflexivity|].
  unfold unattached. rewrite (bind_ok _ _ _ _ _ E1), E2. exact R2.
Qed.

Abbreviation demoWorld := (client notes (socketConfig unit (list tcpOption)) Z).
Definition demoConnect (remote local : Z) : result futureRef * demoWorld :=
  ClientBootstrap_connect (Msg := Z) demoClient 3 [] None [] remote local.
Definition connectedWorld : demoWorld := snd (answers demoAttached 3 [true] (snd (demoConnect 5 0))).
Abbreviation CONNECTED_TO a := (UpstreamChannelStateEvent clientChannel CONNECTED (Some (AnyAddressPointer a))).
Abbreviation CLOSED := (UpstreamChannelStateEvent clientChannel OPEN None).

(** The second endpoint answers. *)
Lemma client_connects_witness :
  exists f w, demoConnect 5 0 = (Ok f, w) /\ exists w', answers demoAttached 3 [false; true] w = (Ok tt, w') /\
    results (theFutures w') !! f = Some (Some true) /\ AsioSocketChannel.isConnected (channel w') = true /\ attempts w' = [5; 6] /\
    user w' = [(1%nat, stateEvent OPEN (Some (AnyBool true))); (2%nat, stateEvent OPEN (Some (AnyBool true)));
               (1%nat, CONNECTED_TO 0); (2%nat, CONNECTED_TO 0)].
Proof.
  pose proof (client_connects noted demoAttached demoList demo_observers demo_client_reached 2 [false; true] demoClient [] None [] 5 0
    eq_refl ltac:(cbn; lia) I) as H.
  change (ClientBootstrap_connect demoClient 3 [] None [] 5 0) with (demoConnect 5 0) in H. destruct (demoConnect 5 0) as [r w].
  change (fst (SocketChannelConfig.setOptions _ _ _)) with (@Ok unit tt) in H.
  destruct H as (f & -> & w' & E & Ho & Ha & Hu & _). exists f, w. split; [reflexivity|]. exists w'. split; [exact E|].
  split; [exact (outcome_future _ _ _ Ho)|]. split; [exact (outcome_connected _ _ _ Ho)|]. split; [exact Ha|]. exact Hu.
Defined.

(** Two writes, of which the second fails: its completion closes the channel. *)
Definition two_writes : list AsioSocketChannel.call :=
  [AsioSocketChannel.Write 10 (Some 7%positive); AsioSocketChannel.Completed false; AsioSocketChannel.Write 20 None; AsioSocketChannel.Completed true].

Lemma writes_through_pipeline_witness :
  let '(r, w) := calls demoAttached 3 id 10 two_writes connectedWorld in
  r = Ok tt /\ AsioSocketChannel.isOpen (channel w) = false /\
  omap (fun x => match x with (1%nat, e) => Some e | _ => None end) (drop 4 (user w))
    = [DefaultWriteCompletionEvent clientChannel 10; UpstreamChannelStateEvent clientChannel CONNECTED None;
       UpstreamChannelStateEvent clientChannel BOUND None; CLOSED].
Proof.
  rewrite (writes_through_pipeline (CS := demo_sockets) noted demoAttached demoList demo_observers demo_client_reached eq_refl 2 10 id two_writes connectedWorld);
    [|cbn; lia | unfold INT_MAX; lia | reflexivity | vm_compute; reflexivity].
  vm_compute. repeat split.
Defined.

(** A name that is not known leaves the future pending, and an address that has no name
    fails it; the channel stays open both times. *)
Example unknown_name :
  let '(r, w) := demoConnect 99 0 in
  r = Ok 2%positive /\ results (theFutures w) !! 2%positive = Some None /\ connecting w = [] /\ AsioSocketChannel.isOpen (channel w) = true.
Proof. vm_compute. repeat split. Qed.

(** When the socket of the first endpoint cannot be closed the second is not tried, and
    nobody is left to set the future. *)
Example socket_not_closed :
  let CS := demo_socketsOf true in
  let '(r, w) := answers (CS := CS) demoAttached 3 [false; true]
    (snd (ClientBootstrap_connect (CS := CS) demoClient 3 ([] : notes) None [] 5 0)) in
  r = Err SystemException /\ attempts w = [5] /\ results (theFutures w) !! 2%positive = Some None /\ connecting w = [] /\
  AsioSocketChannel.isOpen (channel w) = true.
Proof. vm_compute. repeat split. Qed.

(** An address to bind to is not used, and the future of the bind stays pending. *)
Example local_address_ignored :
  let w := snd (answers demoAttached 3 [true] (snd (demoConnect 5 8000))) in
  AsioSocketChannel.isConnected (channel w) = true /\ results (theFutures w) !! 2%positive = Some None.
Proof. vm_compute. split; reflexivity. Qed.

(** A channel that is closed while it connects goes on to the next endpoint, and its
    handlers hear that it is connected after it was closed. *)
Example connects_when_closed :
  let w := snd ((outside demoAttached 3 (AbstractChannel.close clientChannel) ;! answers demoAttached 3 [false; true]) (snd (demoConnect 5 0))) in
  attempts w = [5; 6] /\ results (theFutures w) !! 2%positive = Some (Some true) /\ AsioSocketChannel.isConnected (channel w) = false /\
  omap (fun x => match x with (1%nat, e) => Some e | _ => None end) (user w)
    = [stateEvent OPEN (Some (AnyBool true)); CLOSED; CONNECTED_TO 0].
Proof. vm_compute. repeat split. Qed.

(** An option of the socket makes connect throw. *)
Example option_refused :
  fst (ClientBootstrap_connect (Msg := Z) (snd (Bootstrap.setOption "tcpNoDelay" (Some (OptionBool true)) demoClient)) 3 ([] : notes) None [] 5 0)
    = Err ChannelException.
Proof. vm_compute. reflexivity. Qed.
End Demo.
